(* ===== verification/_CoqProject ===== *)
-Q . S2P
Prelude.v
Ints.v
SlotKey.v
Gas.v
GasPrice.v
StateAccess.v
StateVec.v
SafeVec.v
StateCache.v
StateCacheProofs.v
StateStorage.v
ZkReplay.v
ZkSound.v
StateRefines.v
ZkProperties.v
StateLayers.v
StateLayersProofs.v
StateLayersProperties.v
SequencerState.v
Bank.v
Paymaster.v
PaymasterProperties.v
Keccak.v
Hyperlane.v
HyperlaneProperties.v
HyperlaneMerkle.v
HyperlaneIgp.v
HyperlaneMailbox.v
HyperlaneWarp.v
HyperlaneLimits.v
HyperlaneWarpProofs.v
HyperlaneBridge.v
HyperlaneBridgeProperties.v
Uniqueness.v
Accounts.v
SequencerRegistry.v
Capabilities.v
ChainState.v
Staking.v
ProverIncentives.v
ProverProperties.v
AttesterIncentives.v
AttesterProperties.v
RevenueShare.v
Blacklist.v
SessionRegistry.v
NonceBuffer.v
NonceBufferProofs.v
NonceBufferProperties.v
SovRateLimiter.v
SovRateLimiterProperties.v
StfBlueprint.v
StfProofs.v
StfProperties.v
Blobs.v
BlobSequence.v
BlobStorage.v
BlobStorageProofs.v
BlobStorageProperties.v
StfSlot.v
StfSlotProofs.v
StfSlotProperties.v
