(* ===== verification/Prelude.v ===== *)
(** * Verification of the Sovereign SDK

    The program (under src/crates) is a framework for rollups.  A rollup reads blobs of
    a data availability layer slot by slot, selects those to process, executes the
    transactions in them on an authenticated state and proves the result in a zkVM.

    ** Parts and how they interact

    - A slot: the kernel (sov-kernels) synchronizes the chain state (sov-chain-state) and
      asks the blob storage (sov-blob-storage) for the blobs to process; the STF
      blueprint (sov-modules-stf-blueprint) runs them, one batch, proof or emergency
      registration after the other.
    - A transaction: the capabilities (sov-capabilities) resolve its sender
      (sov-accounts), check that it is new (sov-uniqueness), reserve its gas (sov-bank,
      sov-paymaster) and settle fees and rewards with the sequencer
      (sov-sequencer-registry), provers and attesters (sov-prover-incentives,
      sov-attester-incentives); in between it calls a module, such as the bank or the
      Hyperlane bridge (hyperlane).
    - The state: modules read and write through metered accessors (sov-modules-api), which
      are layered over a cache (sov-state) over the storage of the node or, in the zkVM,
      over a witness.
    - Before the state transition, the preferred sequencer (sov-sequencer) reorders
      transactions that arrive with nonces of the future, and limits what one address or
      IP address may use.

    ** Conventions

    An unsigned integer is an [N]; where the width matters the operation carries the
    bound ([checked_add], [saturating_sub], [wrap], Ints.v).  A function returns [Ok],
    [Err] or [Panic] ([outcome]); [M] adds the state, which keeps the writes that
    precede an error.  A module is a record of its state items, an operation a function
    in [M] over the accessor [acc], which pairs the gas meter with the state
    (StateAccess.v); theorems are stated for any meter that meets [GasMeterLaws].  Code
    outside of the repository (hash functions, signatures, Merkle tries, the allocator, the
    verification of proofs) is a parameter, a class with the laws that are documented,
    and each theorem that uses them is instantiated at a concrete instance.

    Names are those of the source.  Errors keep the variants and drop the messages.

    ** Files

    Foundations: Prelude.v (this file: outcomes, the monad and its notations in
    [rust_scope], sums over maps, ordered maps, the hint base [len]), Ints.v (integers,
    [Amount]), SlotKey.v (sov-db-types: keys of the state), Gas.v and GasPrice.v
    (sov-modules-api/src/gas, transaction/rewards.rs, sov-chain-state/src/gas.rs),
    StateAccess.v (state/traits.rs, containers/map.rs, value.rs; the rules [wp]),
    StateVec.v (containers/vec.rs), SafeVec.v (rollup-interface/src/common/safe_vec.rs).

    State: StateCache.v, StateStorage.v (sov-state: cache, witness, prover and zk
    storage), StateLayers.v (state/accessors), SequencerState.v (sequencer_state.rs), with
    the proofs in StateCacheProofs.v, ZkReplay.v, ZkSound.v, StateRefines.v,
    StateLayersProofs.v and the theorems in ZkProperties.v and StateLayersProperties.v.
    The cache is a map; a transaction is atomic on the provable state; what the zkVM accepts is what the node
    computes, and it accepts every slot of the node.

    Modules: Bank.v, Paymaster.v and PaymasterProperties.v, Uniqueness.v, Accounts.v,
    SequencerRegistry.v, Capabilities.v, ChainState.v; Staking.v (registration_lib),
    ProverIncentives.v and ProverProperties.v, AttesterIncentives.v and
    AttesterProperties.v; RevenueShare.v, Blacklist.v and SessionRegistry.v
    (sov-revenue-share, sb-blacklist, sb-session-registry).  Invariants over every history (balances add up to the supply,
    stakes and obligations are covered), the exact effect of calls, no replay of
    transactions, no slot rewarded twice, the limits of a paymaster.

    Bridge: Keccak.v, Hyperlane.v, HyperlaneMerkle.v, HyperlaneIgp.v, HyperlaneMailbox.v,
    HyperlaneWarp.v (hyperlane/src), with HyperlaneProperties.v, HyperlaneLimits.v,
    HyperlaneWarpProofs.v, HyperlaneBridge.v and HyperlaneBridgeProperties.v.  Messages
    round trip, a quorum of distinct validators signs, the incremental tree is the Merkle
    tree, tokens leave a route only for a verified message, once.

    Slots: StfBlueprint.v, StfProofs.v, StfProperties.v (batches and transactions), Blobs.v,
    BlobSequence.v, BlobStorage.v with BlobStorageProofs.v and BlobStorageProperties.v (the
    selection of blobs), StfSlot.v, StfSlotProofs.v and StfSlotProperties.v (the loop over
    the blobs of a slot).  The selection does not panic for a preferred sequencer that
    does not repeat numbers, outside of setup mode, and meets what the blueprint needs;
    preferred blobs are picked in order; slots of the chain state never stop.  The
    processing of blobs and batches of standard sequencers, for gas of any number of
    dimensions, gives every blob its receipt and keeps the books balanced, or panics for
    one of three causes that the theorems name: gas of the slot that is left in some
    dimensions only ([partly_exhausted], a defect of the code, see
    [exhausted_dimension_panics]), a panic of the runtime's own code
    ([runtime_panics]), and the nonce [u64::MAX].  The theorems hold for every runtime
    that fulfils [RuntimeLaws] and [SlotRuntimeLaws]: its calls, hooks and proof
    processors keep the invariants of bank and registry, take nothing out of the bank
    module's reserve, do not unregister a sequencer that stays for the slot, and do not
    erase recorded attempts.  This is an assumption on the modules of a rollup; it is
    proved for a runtime of the bank, the sequencer registry and the accounts module
    with all their calls ([RT_demo_laws]), at which the theorems are instantiated.

    Sequencer: NonceBuffer.v, NonceBufferProofs.v, NonceBufferProperties.v
    (preferred/nonce_buffer_task.rs) as a step relation over all interleavings of its
    tasks.  No request is lost or answered twice, a contiguous queue drains in order.
    SovRateLimiter.v and SovRateLimiterProperties.v (preferred/rate_limiter): what an
    address uses is bounded by its bucket and the refill, over a cache given by its laws.

    Some theorems show that the code does not do what it means to: attesters that cannot
    leave ([attesters_never_exit]), a task that waits for itself
    ([nonce_buffer_deadlocks]), custom limits computed from swapped arguments
    ([custom_limits_swapped]), and others beside the components they concern.

    ** Fuel

    Loops over data are structural.  Where they are not, the fuel is computed from the
    data and proved or evidently enough: the length of the input for chunks of bytes,
    Keccak and the elements of a [SafeVec] ([safe_vec_decodes] includes that it does not
    run out), the length of the vector for the iterator of a [StateVec], one more than the
    number of waiting transactions for the head of a queue ([head_loop_total]), one round
    per blob for the search of a run ([next_run_total]).

    ** Not modelled

    - The EVM module, the DA and zkVM adapters, the Jellyfish and NOMT tries: bindings of
      third-party code.
    - Signature schemes and the wire format of authenticated transactions: the
      authenticator is a parameter of the blueprint.
    - The effect of a proof on the incentive modules within a slot is a parameter of
      StfSlot.v with laws; the modules themselves are modelled.
    - The node: runner, databases, REST and RPC interfaces, metrics, clients, and the
      sequencer apart from its nonce buffer and its rate limiter: asynchronous input and output.
    - Macros, schemas, test modules, examples and generated code.
    - In the nonce buffer a panic (the overflow of a nonce) ends the run: the step relation
      has no step for it. *)

From stdpp Require Import base numbers list gmap strings fin_maps sorting.
From Stdlib Require Import NArith Lia.

#[global] Open Scope N_scope.

(** The length of a vector, as an integer of Rust. *)
Definition len {A} (l : list A) : N := N.of_nat (length l).

(** ** Outcomes of Rust functions

    A Rust function that returns [Result<A, E>] either returns [Ok], returns
    [Err], or panics ([expect], [unwrap], [assert!], [panic!]). *)

Inductive outcome (E A : Type) : Type :=
| Ok (a : A)
| Err (e : E)
| Panic.

Arguments Ok {E A} a.
Arguments Err {E A} e.
Arguments Panic {E A}.

Definition is_ok {E A} (o : outcome E A) : bool :=
  match o with Ok _ => true | _ => false end.

Definition is_err {E A} (o : outcome E A) : bool :=
  match o with Err _ => true | _ => false end.

Definition is_panic {E A} (o : outcome E A) : bool :=
  match o with Panic => true | _ => false end.

(** ** The state and error monad

    [&mut self] and [&mut state] become explicit state passing.  A write
    performed before an error or a panic stays in the final state, as it does
    in Rust; undoing it is the business of whoever owns the state. *)

Definition M (S E A : Type) : Type := S -> outcome E A * S.

Definition ret {S E A} (a : A) : M S E A := fun s => (Ok a, s).

Definition throw {S E A} (e : E) : M S E A := fun s => (Err e, s).

Definition panic {S E A} : M S E A := fun s => (Panic, s).

Definition bind {S E A B} (m : M S E A) (k : A -> M S E B) : M S E B :=
  fun s =>
    match m s with
    | (Ok a, s') => k a s'
    | (Err e, s') => (Err e, s')
    | (Panic, s') => (Panic, s')
    end.

(** [m.map_err(f)?] *)
Definition map_err {S E E' A} (f : E -> E') (m : M S E A) : M S E' A :=
  fun s =>
    match m s with
    | (Ok a, s') => (Ok a, s')
    | (Err e, s') => (Err (f e), s')
    | (Panic, s') => (Panic, s')
    end.

(** [m.expect("..")] and [m.unwrap()]: an error becomes a panic. *)
Definition expect {S E E' A} (m : M S E A) : M S E' A :=
  fun s =>
    match m s with
    | (Ok a, s') => (Ok a, s')
    | (Err _, s') => (Panic, s')
    | (Panic, s') => (Panic, s')
    end.

(** A [Result] inspected instead of propagated ([if let Err(e) = m], [m.is_err()]). *)
Definition try_catch {S E E' A} (m : M S E A) : M S E' (A + E) :=
  fun s =>
    match m s with
    | (Ok a, s') => (Ok (inl a), s')
    | (Err e, s') => (Ok (inr e), s')
    | (Panic, s') => (Panic, s')
    end.

(** [o.ok_or(e)?] *)
Definition ok_or {S E A} (o : option A) (e : E) : M S E A :=
  match o with Some a => ret a | None => throw e end.

(** [r?] on a [Result] computed by a pure function. *)
Definition from_sum {S E A} (r : A + E) : M S E A :=
  match r with inl a => ret a | inr e => throw e end.

(** [o.expect("..")] on an [Option]. *)
Definition expect_some {S E A} (o : option A) : M S E A :=
  match o with Some a => ret a | None => panic end.

(** [if !b { return Err(e) }], [anyhow::ensure!(b, e)] *)
Definition ensure {S E} (b : bool) (e : E) : M S E unit :=
  if b then ret tt else throw e.

(** [assert!(b)] *)
Definition assert {S E} (b : bool) : M S E unit :=
  if b then ret tt else panic.

Declare Scope rust_scope.
Delimit Scope rust_scope with rust.

Notation "'let!' x ':=' m 'in' k" := (bind m (fun x => k))
  (at level 10, x name, m at level 100, k at level 200) : rust_scope.
Notation "'let!' ' x ':=' m 'in' k" := (bind m (fun y => match y with x => k end))
  (at level 10, x pattern, m at level 100, k at level 200) : rust_scope.
Notation "m ';;;' k" := (bind m (fun _ => k))
  (at level 100, right associativity) : rust_scope.

(** A computation without state that may panic: [None] is the panic. *)
Notation "'let?' x ':=' m 'in' k" := (match m with Some x => k | None => None end)
  (at level 10, x pattern, m at level 100, k at level 200) : rust_scope.

#[global] Open Scope rust_scope.

(** Iteration over a list with early exit: [for x in l { f(x)?; }]. *)
Fixpoint for_each {S E A} (f : A -> M S E unit) (l : list A) : M S E unit :=
  match l with
  | [] => ret tt
  | x :: l' => f x ;;; for_each f l'
  end.

(** [for x in l { acc = f(acc, x)?; }] *)
Fixpoint fold_m {S E A B} (f : B -> A -> M S E B) (b : B) (l : list A) : M S E B :=
  match l with
  | [] => ret b
  | x :: l' => let! b' := f b x in fold_m f b' l'
  end.

(** Linear arithmetic with division and modulus by constants. *)
Ltac div_lia := zify; Z.to_euclidean_division_equations; lia.

(** Lengths of vectors: the rewriting base [len] computes the length of a list that
    list operations build, and [len_lia] decides goals about such lengths. *)
Create HintDb len.
#[export] Hint Rewrite @length_nil @length_cons @length_app @length_take @length_drop @length_fmap @length_insert
  @length_replicate @length_seq @length_reverse : len.

Ltac len_lia := unfold len in *; autorewrite with len in *; lia.

(** ** Sums over finite maps *)

Section MapSum.
Context {K V : Type} `{Countable K}.

Definition map_sum (f : K -> V -> N) (m : gmap K V) : N :=
  map_fold (fun k v acc => f k v + acc) 0 m.

Definition opt_val (f : K -> V -> N) (m : gmap K V) (k : K) : N :=
  match m !! k with Some v => f k v | None => 0 end.

End MapSum.

Definition sum_N (l : list N) : N := foldr N.add 0 l.

(** ** Ordered maps

    A [BTreeMap<u64, V>] as a finite map with the operations that use the order
    of its keys. *)
Section Ordered.
Context {V : Type}.

(** [last_key_value] and [keys().next()], the keys only. *)
Definition last_key (m : gmap N V) : option N :=
  foldr (fun kv acc => Some (match acc with Some a => N.max kv.1 a | None => kv.1 end))
    None (map_to_list m).

Definition first_key (m : gmap N V) : option N :=
  foldr (fun kv acc => Some (match acc with Some a => N.min kv.1 a | None => kv.1 end))
    None (map_to_list m).

(** [split_off(&bound)]: the part from [bound] on. *)
Definition split_off (bound : N) (m : gmap N V) : gmap N V :=
  filter (fun kv => bound <= kv.1) m.
End Ordered.

(** ** Lemmas *)

Section MapSumLemmas.
Context {K V : Type} `{Countable K}.
Implicit Types (f : K -> V -> N) (m : gmap K V).

Lemma map_sum_empty f : map_sum f ∅ = 0.
Proof. apply map_fold_empty. Qed.

Lemma map_sum_insert_new f m k v :
  m !! k = None -> map_sum f (<[k:=v]> m) = f k v + map_sum f m.
Proof.
  intros Hk. unfold map_sum.
  rewrite (map_fold_insert_L (fun k v acc => f k v + acc) 0 k v m); [done| |done].
  intros; lia.
Qed.

Lemma map_sum_delete f m k :
  map_sum f m = opt_val f m k + map_sum f (delete k m).
Proof.
  unfold opt_val. destruct (m !! k) as [v|] eqn:Hk.
  - rewrite <- (insert_delete_id m k v Hk) at 1.
    by rewrite map_sum_insert_new by apply lookup_delete_eq.
  - by rewrite delete_id.
Qed.

Lemma map_sum_insert f m k v :
  map_sum f (<[k:=v]> m) + opt_val f m k = map_sum f m + f k v.
Proof.
  rewrite (map_sum_delete f m k), <- insert_delete_eq.
  rewrite map_sum_insert_new by apply lookup_delete_eq. lia.
Qed.

Lemma map_sum_lookup_le f m k v : m !! k = Some v -> f k v <= map_sum f m.
Proof. intros Hk. rewrite (map_sum_delete f m k). unfold opt_val. rewrite Hk. lia. Qed.

Lemma map_sum_opt_val_le f m k : opt_val f m k <= map_sum f m.
Proof. rewrite (map_sum_delete f m k). lia. Qed.

Lemma map_sum_zero f m :
  (forall k v, m !! k = Some v -> f k v = 0) -> map_sum f m = 0.
Proof.
  induction m as [|k v m Hk IH] using map_ind; intros Hz; [apply map_sum_empty|].
  rewrite map_sum_insert_new by done.
  rewrite (Hz k v) by apply lookup_insert_eq.
  rewrite IH; [done|]. intros k' v' Hk'. apply Hz.
  rewrite lookup_insert_ne; [done|]. by intros ->; rewrite Hk in Hk'.
Qed.

Lemma map_sum_ext f g m :
  (forall k v, m !! k = Some v -> f k v = g k v) -> map_sum f m = map_sum g m.
Proof.
  induction m as [|k v m Hk IH] using map_ind; intros Hz; [by rewrite !map_sum_empty|].
  rewrite !map_sum_insert_new by done.
  rewrite (Hz k v) by apply lookup_insert_eq.
  rewrite IH; [done|]. intros k' v' Hk'. apply Hz.
  rewrite lookup_insert_ne; [done|]. by intros ->; rewrite Hk in Hk'.
Qed.

(** Two distinct entries are counted separately. *)
Lemma map_sum_two_le f m k1 k2 :
  k1 <> k2 -> opt_val f m k1 + opt_val f m k2 <= map_sum f m.
Proof.
  intros Hne. rewrite (map_sum_delete f m k1).
  pose proof (map_sum_opt_val_le f (delete k1 m) k2) as Hle.
  unfold opt_val in Hle at 1. rewrite lookup_delete_ne in Hle by done.
  unfold opt_val at 2. lia.
Qed.

Lemma map_sum_to_list f m :
  map_sum f m = sum_N (map (fun kv => f kv.1 kv.2) (map_to_list m)).
Proof.
  unfold map_sum. rewrite map_fold_foldr. unfold sum_N.
  induction (map_to_list m) as [|[k v] l IH]; cbn; [done|]. by rewrite IH.
Qed.

(** A sum over a part of the map is at most the sum over the map. *)
Lemma map_sum_filter_le f (P : K * V -> Prop) `{!forall x, Decision (P x)} m :
  map_sum f (filter P m) <= map_sum f m.
Proof.
  induction m as [|k v m Hk IH] using map_ind; [by rewrite map_filter_empty|].
  rewrite (map_sum_insert_new f m) by done.
  destruct (decide (P (k, v))) as [Hp|Hp].
  - rewrite map_filter_insert_True by done. rewrite map_sum_insert_new; [lia|].
    apply map_lookup_filter_None. by left.
  - rewrite map_filter_insert_False by done. rewrite delete_id by done. lia.
Qed.
End MapSumLemmas.

Lemma sum_N_app l1 l2 : sum_N (l1 ++ l2) = sum_N l1 + sum_N l2.
Proof. induction l1 as [|x l1 IH]; cbn in *; [done|]. unfold sum_N in *. lia. Qed.

Section OrderedLemmas.
Context {V : Type}.
Implicit Types (m : gmap N V).

Lemma last_key_None m : last_key m = None <-> m = ∅.
Proof.
  rewrite <- (map_to_list_empty_iff m). unfold last_key.
  by destruct (map_to_list m) as [|[k v] l].
Qed.

Lemma first_key_None m : first_key m = None <-> m = ∅.
Proof.
  rewrite <- (map_to_list_empty_iff m). unfold first_key.
  by destruct (map_to_list m) as [|[k v] l].
Qed.

Lemma last_key_Some m k :
  last_key m = Some k -> is_Some (m !! k) /\ forall k' v, m !! k' = Some v -> k' <= k.
Proof.
  unfold last_key. intros Hk.
  enough ((exists v, (k, v) ∈ map_to_list m) /\ forall k' v, (k', v) ∈ map_to_list m -> k' <= k)
    as [[v Hv] Hle].
  { split; [exists v; by apply elem_of_map_to_list|].
    intros k' v' Hk'. eapply Hle. by apply elem_of_map_to_list. }
  revert k Hk. induction (map_to_list m) as [|[x v] l IH]; intros k Hk; [done|].
  cbn in Hk. destruct (foldr _ None l) as [a|] eqn:Ha; simplify_eq.
  - destruct (IH a eq_refl) as [[w Hw] Hle]. split.
    + destruct (N.max_spec x a) as [[_ ->]|[_ ->]]; eexists; rewrite elem_of_cons; eauto.
    + intros k' v' [Heq|Hin]%elem_of_cons; simplify_eq; [lia|]. specialize (Hle _ _ Hin). lia.
  - destruct l as [|[y w] l]; [|done]. split; [exists v; by left|].
    intros k' v' Hin%list_elem_of_singleton. by simplify_eq.
Qed.

Lemma first_key_Some m k :
  first_key m = Some k -> is_Some (m !! k) /\ forall k' v, m !! k' = Some v -> k <= k'.
Proof.
  unfold first_key. intros Hk.
  enough ((exists v, (k, v) ∈ map_to_list m) /\ forall k' v, (k', v) ∈ map_to_list m -> k <= k')
    as [[v Hv] Hle].
  { split; [exists v; by apply elem_of_map_to_list|].
    intros k' v' Hk'. eapply Hle. by apply elem_of_map_to_list. }
  revert k Hk. induction (map_to_list m) as [|[x v] l IH]; intros k Hk; [done|].
  cbn in Hk. destruct (foldr _ None l) as [a|] eqn:Ha; simplify_eq.
  - destruct (IH a eq_refl) as [[w Hw] Hle]. split.
    + destruct (N.min_spec x a) as [[_ ->]|[_ ->]]; eexists; rewrite elem_of_cons; eauto.
    + intros k' v' [Heq|Hin]%elem_of_cons; simplify_eq; [lia|]. specialize (Hle _ _ Hin). lia.
  - destruct l as [|[y w] l]; [|done]. split; [exists v; by left|].
    intros k' v' Hin%list_elem_of_singleton. by simplify_eq.
Qed.

(** The largest key is determined by being present and being an upper bound. *)
Lemma last_key_unique m k v :
  m !! k = Some v -> (forall k' v, m !! k' = Some v -> k' <= k) -> last_key m = Some k.
Proof.
  intros Hk Hle. destruct (last_key m) as [k0|] eqn:Hl.
  - apply last_key_Some in Hl as [[v0 Hv0] Hle0]. f_equal.
    specialize (Hle _ _ Hv0). specialize (Hle0 _ _ Hk). lia.
  - apply last_key_None in Hl. subst. by rewrite lookup_empty in Hk.
Qed.

Lemma split_off_lookup bound m k v :
  split_off bound m !! k = Some v <-> m !! k = Some v /\ bound <= k.
Proof. unfold split_off. by rewrite map_lookup_filter_Some. Qed.

Lemma split_off_zero m : split_off 0 m = m.
Proof.
  apply map_filter_id. intros k v _. cbn. lia.
Qed.
End OrderedLemmas.

(** ** Stable sorting

    [sort_by_key] of vectors, and with it the order in which a [BTreeMap] is
    iterated. *)
Section Sorting.
Context {A : Type} (key : A -> N).

Fixpoint insert_by_key (x : A) (l : list A) : list A :=
  match l with
  | [] => [x]
  | y :: l' => if key x <=? key y then x :: l else y :: insert_by_key x l'
  end.

Definition sort_by_key (l : list A) : list A := foldr insert_by_key [] l.

Lemma insert_by_key_perm x l : insert_by_key x l ≡ₚ x :: l.
Proof.
  induction l as [|y l IH]; cbn; [done|]. destruct (_ <=? _); [done|].
  rewrite IH. apply Permutation_swap.
Qed.

Lemma sort_by_key_perm l : sort_by_key l ≡ₚ l.
Proof. induction l as [|x l IH]; cbn; [done|]. by rewrite insert_by_key_perm, IH. Qed.

Definition ordered (l : list A) : Prop := StronglySorted (fun x y => key x <= key y) l.

Lemma insert_by_key_ordered x l : ordered l -> ordered (insert_by_key x l).
Proof.
  induction 1 as [|y l Hl IH Hy]; cbn; [repeat constructor|].
  destruct (N.leb_spec (key x) (key y)) as [Hle|Hlt].
  - constructor; [by constructor|]. constructor; [done|].
    eapply Forall_impl; [done|]. cbn. intros z Hz. lia.
  - constructor; [done|]. rewrite insert_by_key_perm. constructor; [lia|done].
Qed.

Lemma sort_by_key_ordered l : ordered (sort_by_key l).
Proof. induction l; cbn; [constructor|]. by apply insert_by_key_ordered. Qed.
End Sorting.

(** Running a bind. *)
Lemma bind_ok {S E A B} (m : M S E A) (k : A -> M S E B) s a s' :
  m s = (Ok a, s') -> bind m k s = k a s'.
Proof. unfold bind. by intros ->. Qed.

Lemma bind_err {S E A B} (m : M S E A) (k : A -> M S E B) s e s' :
  m s = (Err e, s') -> bind m k s = (Err e, s').
Proof. unfold bind. by intros ->. Qed.

(** The monad laws, pointwise. *)
Lemma bind_ret_l {S E A B} (a : A) (k : A -> M S E B) s :
  bind (ret a) k s = k a s.
Proof. done. Qed.

Lemma bind_assoc {S E A B C} (m : M S E A) (k : A -> M S E B) (l : B -> M S E C) s :
  bind (bind m k) l s = bind m (fun a => bind (k a) l) s.
Proof. unfold bind. by destruct (m s) as [[a|e|] s']. Qed.

(** ** Lists without duplicates *)

Lemma NoDup_list_insert {A} (l : list A) i x :
  NoDup l -> x ∉ l -> NoDup (<[i:=x]> l).
Proof.
  rewrite !NoDup_alt. intros Hnd Hx j k y Hj Hk.
  apply list_lookup_insert_Some in Hj as [(-> & <- & _)|[Hij Hj]];
    apply list_lookup_insert_Some in Hk as [(-> & Heq & _)|[Hik Hk]]; [done|..].
  - destruct Hx. by eapply list_elem_of_lookup_2.
  - subst. destruct Hx. by eapply list_elem_of_lookup_2.
  - by eapply Hnd.
Qed.

Lemma NoDup_list_delete {A} (l : list A) i : NoDup l -> NoDup (delete i l).
Proof. intros Hl. eapply sublist_NoDup; [done|]. apply sublist_delete. Qed.

(** A run that is known to return [Ok], by evaluating it. *)
Lemma run_ok {S E} (m : M S E unit) s :
  is_ok (fst (m s)) = true -> m s = (Ok tt, snd (m s)).
Proof. by destruct (m s) as [[[]|e|] s']. Qed.
