(* ===== verification/Ints.v ===== *)
(** * Machine integers and token amounts

    Unsigned Rust integers as [N], their width written out in the checked and
    saturating operations ([core::num]), and the [Amount] newtype of
    sov-modules-api/src/common/amount.rs over [u128]. *)

From stdpp Require Import base numbers.
From Stdlib Require Import NArith Lia.
From S2P Require Import Prelude.

Definition u8_max : N := 255.
Definition u32_max : N := 4294967295.
Definition u64_max : N := 18446744073709551615.
Definition u128_max : N := 340282366920938463463374607431768211455.

(** The operations of an unsigned integer type with largest value [max]. *)
Section Width.
Context (max : N).

Definition checked_add (a b : N) : option N :=
  if a + b <=? max then Some (a + b) else None.

Definition checked_sub (a b : N) : option N :=
  if b <=? a then Some (a - b) else None.

Definition checked_mul (a b : N) : option N :=
  if a * b <=? max then Some (a * b) else None.

Definition checked_div (a b : N) : option N :=
  if b =? 0 then None else Some (a / b).

Definition saturating_add (a b : N) : N := N.min (a + b) max.

Definition saturating_sub (a b : N) : N := a - b.

Definition saturating_mul (a b : N) : N := N.min (a * b) max.

(** Release-mode [a << n], [a + b], [a * b]: the bits above the width are lost. *)
Definition wrap (a : N) : N := a mod (max + 1).
End Width.

(** [x.to_le_bytes()] of an integer of [n] bytes *)
Fixpoint to_le_bytes (n : nat) (x : N) : list N :=
  match n with O => [] | S n => x mod 256 :: to_le_bytes n (x / 256) end.

(** ** [Amount] (a [u128]) *)
Module Amount.
Definition MAX : N := u128_max.
Definition ZERO : N := 0.
Definition MAX_DECIMALS : N := 39.
Definition checked_add (self other : N) : option N := Ints.checked_add u128_max self other.
Definition checked_sub (self other : N) : option N := Ints.checked_sub self other.
Definition checked_mul (self other : N) : option N := Ints.checked_mul u128_max self other.
Definition checked_div (self other : N) : option N := Ints.checked_div self other.
Definition saturating_add (self other : N) : N := Ints.saturating_add u128_max self other.
Definition saturating_sub (self other : N) : N := Ints.saturating_sub self other.
Definition saturating_mul (self other : N) : N := Ints.saturating_mul u128_max self other.
Definition saturating_div (self other : N) : option N :=
  if other =? 0 then None else Some (self / other).
End Amount.

(** ** Lemmas *)

Lemma checked_add_Some max a b c :
  checked_add max a b = Some c <-> c = a + b /\ a + b <= max.
Proof. unfold checked_add. destruct (N.leb_spec (a + b) max); split; intros; naive_solver lia. Qed.

Lemma checked_add_None max a b : checked_add max a b = None <-> max < a + b.
Proof. unfold checked_add. destruct (N.leb_spec (a + b) max); split; intros; naive_solver lia. Qed.

Lemma checked_sub_Some a b c : checked_sub a b = Some c <-> b <= a /\ c = a - b.
Proof. unfold checked_sub. destruct (N.leb_spec b a); split; intros; naive_solver lia. Qed.

Lemma checked_sub_None a b : checked_sub a b = None <-> a < b.
Proof. unfold checked_sub. destruct (N.leb_spec b a); split; intros; naive_solver lia. Qed.

Lemma checked_mul_Some max a b c :
  checked_mul max a b = Some c <-> c = a * b /\ a * b <= max.
Proof. unfold checked_mul. destruct (N.leb_spec (a * b) max); split; intros; naive_solver lia. Qed.

Lemma checked_mul_None max a b : checked_mul max a b = None <-> max < a * b.
Proof. unfold checked_mul. destruct (N.leb_spec (a * b) max); split; intros; naive_solver lia. Qed.

Lemma wrap_id max a : a <= max -> wrap max a = a.
Proof. intros. apply N.mod_small. lia. Qed.

(** Turn every decided checked operation in the context into arithmetic. *)
Ltac checked_simpl :=
  repeat match goal with
  | H : Amount.checked_add _ _ = _ |- _ => unfold Amount.checked_add in H
  | H : Amount.checked_sub _ _ = _ |- _ => unfold Amount.checked_sub in H
  | H : Amount.checked_mul _ _ = _ |- _ => unfold Amount.checked_mul in H
  | H : checked_add _ _ _ = Some _ |- _ => apply checked_add_Some in H as [? ?]
  | H : checked_add _ _ _ = None |- _ => apply checked_add_None in H
  | H : checked_sub _ _ = Some _ |- _ => apply checked_sub_Some in H as [? ?]
  | H : checked_sub _ _ = None |- _ => apply checked_sub_None in H
  | H : checked_mul _ _ _ = Some _ |- _ => apply checked_mul_Some in H as [? ?]
  | H : checked_mul _ _ _ = None |- _ => apply checked_mul_None in H
  | H : negb _ = true |- _ => apply negb_true_iff in H
  | H : negb _ = false |- _ => apply negb_false_iff in H
  | H : bool_decide _ = true |- _ => apply bool_decide_eq_true_1 in H
  | H : bool_decide _ = false |- _ => apply bool_decide_eq_false_1 in H
  | H : (_ <=? _) = true |- _ => apply N.leb_le in H
  | H : (_ <=? _) = false |- _ => apply N.leb_gt in H
  | H : (_ <? _) = true |- _ => apply N.ltb_lt in H
  | H : (_ <? _) = false |- _ => apply N.ltb_ge in H
  | H : (_ =? _) = true |- _ => apply N.eqb_eq in H
  | H : (_ =? _) = false |- _ => apply N.eqb_neq in H
  end.

Lemma to_le_bytes_length n x : length (to_le_bytes n x) = n.
Proof. revert x. induction n as [|n IH]; intros x; cbn; [done|by rewrite IH]. Qed.

(** Numbers that fit into the bytes can be read back from them. *)
Lemma to_le_bytes_inj n x y :
  x < 256 ^ N.of_nat n -> y < 256 ^ N.of_nat n -> to_le_bytes n x = to_le_bytes n y -> x = y.
Proof.
  revert x y. induction n as [|n IH]; intros x y Hx Hy He; [cbn in Hx, Hy; lia|].
  rewrite Nat2N.inj_succ, N.pow_succ_r' in Hx, Hy. cbn in He. injection He as Hm Hd.
  apply IH in Hd; [|apply N.Div0.div_lt_upper_bound; lia..].
  rewrite (N.div_mod' x 256), (N.div_mod' y 256). congruence.
Qed.
