(* ===== verification/SlotKey.v ===== *)
(** * Keys of the state

    sov-db-types/src/lib.rs.  A key is a sequence of bytes that begins with a prefix
    of two bytes.  In memory it is either an array of 70 bytes that has the length of
    the key in its first byte, or a vector.  The operations are modelled on this
    representation and proved to be those of byte sequences. *)

From Stdlib Require Import NArith Lia.
From stdpp Require Import base numbers list option.
From S2P Require Import Prelude Ints.

Record Prefix : Type := mkPrefix { module : N; item : N }.

#[export] Instance Prefix_eq_dec : EqDecision Prefix.
Proof. solve_decision. Defined.
#[export] Instance Prefix_countable : countable.Countable Prefix.
Proof.
  apply (countable.inj_countable' (fun p => (module p, item p)) (fun '(m, i) => mkPrefix m i)).
  by intros [].
Qed.

(** [a[i..j]] of a slice; [None] is a panic. *)
Definition slice {A} (i j : nat) (l : list A) : option (list A) :=
  if Nat.leb i j && Nat.leb j (length l) then Some (take (j - i) (drop i l)) else None.

(** [a[i..i + xs.len()].copy_from_slice(xs)] *)
Definition copy_at {A} (i : nat) (xs l : list A) : option (list A) :=
  if Nat.leb (i + length xs) (length l)
  then Some (take i l ++ xs ++ drop (i + length xs) l) else None.

(** [a[i] = x] *)
Definition set_at {A} (i : nat) (x : A) (l : list A) : option (list A) :=
  if Nat.ltb i (length l) then Some (<[i := x]> l) else None.

Module InlineKey.
Definition INLINE_KEY_BYTES : nat := 70.
Definition INLINE_KEY_METADATA_BYTES : nat := 3.
Definition MAX_INLINE_KEY_LEN : nat := INLINE_KEY_BYTES - INLINE_KEY_METADATA_BYTES.
Definition MODULE_TAG_OFFSET : nat := 1.
Definition ITEM_TAG_OFFSET : nat := 2.

(** The array [len_byte, module_tag, item_tag, key_bytes]. *)
Definition t : Type := list N.

Definition offset (idx : nat) : nat := 3 + idx.

Definition len_excluding_prefix (k : t) : option nat := N.to_nat <$> k !! 0%nat.
Definition module_tag (k : t) : option N := k !! MODULE_TAG_OFFSET.
Definition item_tag (k : t) : option N := k !! ITEM_TAG_OFFSET.

Definition without_prefix (k : t) : option (list N) :=
  let? n := len_excluding_prefix k in slice (offset 0) (offset n) k.

Definition with_prefix (k : t) : option (list N) :=
  let? n := len_excluding_prefix k in slice 1 (offset n) k.

(** [Ok] with the extended key, or the error [ErrOutOfSpace]. *)
Definition try_extend (other : list N) (k : t) : outcome unit t :=
  match len_excluding_prefix k with
  | None => Panic
  | Some original_len =>
      let new_len := (original_len + length other)%nat in
      if Nat.ltb MAX_INLINE_KEY_LEN new_len then Err tt
      else
        match (if N.of_nat new_len <=? u8_max then set_at 0 (N.of_nat new_len) k else None) with
        | None => Panic
        | Some k =>
            match copy_at (offset original_len) other k with Some k => Ok k | None => Panic end
        end
  end.

Definition try_from_prefix_and_key (prefix : Prefix) (key : list N) : outcome unit t :=
  if Nat.ltb MAX_INLINE_KEY_LEN (length key) then Err tt
  else
    match (let? k := set_at MODULE_TAG_OFFSET (module prefix) (replicate INLINE_KEY_BYTES 0) in
           set_at ITEM_TAG_OFFSET (item prefix) k) with
    | Some output => try_extend key output
    | None => Panic
    end.
End InlineKey.

Module SlotKey.
Import InlineKey.

(** [KeyContents] and the variants of [SlotKeyBuilder]. *)
Inductive KeyContents : Type :=
| Inline (k : InlineKey.t)
| Reference (v : list N).

Definition builder : Type := KeyContents.

(** [SlotKeyBuilder::with_prefix]; [None] is the panic of the [unwrap]. *)
Definition with_prefix_builder (prefix : Prefix) : option builder :=
  match try_from_prefix_and_key prefix [] with Ok k => Some (Inline k) | _ => None end.

(** [Write::write] of the builder, which always writes the whole buffer. *)
Definition write (buf : list N) (b : builder) : option builder :=
  match b with
  | Inline k =>
      match try_extend buf k with
      | Ok k => Some (Inline k)
      | Err _ => let? bytes := InlineKey.with_prefix k in Some (Reference (bytes ++ buf))
      | Panic => None
      end
  | Reference v => Some (Reference (v ++ buf))
  end.

(** [write_all] does not call [write] for an empty buffer. *)
Definition write_all (buf : list N) (b : builder) : option builder :=
  match buf with [] => Some b | _ => write buf b end.

Definition without_prefix (k : KeyContents) : option (list N) :=
  match k with Inline k => InlineKey.without_prefix k | Reference v => slice 2 (length v) v end.

(** [with_prefix] and [AsRef<[u8]>] *)
Definition as_ref (k : KeyContents) : option (list N) :=
  match k with Inline k => InlineKey.with_prefix k | Reference v => Some v end.

Definition key_len (k : KeyContents) : option nat :=
  match k with
  | Inline k => let? n := len_excluding_prefix k in Some (n + 2)%nat
  | Reference v => Some (length v)
  end.

Definition prefix (k : KeyContents) : option Prefix :=
  match k with
  | Inline k => let? m := module_tag k in let? i := item_tag k in Some (mkPrefix m i)
  | Reference v => let? m := v !! 0%nat in let? i := v !! 1%nat in Some (mkPrefix m i)
  end.

(** [SlotKey::from_slice_including_prefix] *)
Definition from_slice_including_prefix (vec : list N) : option KeyContents :=
  let? m := vec !! 0%nat in
  let? i := vec !! 1%nat in
  let? b := with_prefix_builder (mkPrefix m i) in
  let? rest := slice 2 (length vec) vec in
  write_all rest b.

(** [SlotKey::truncate_to]: [Some None] is the result [None] of the code. *)
Definition truncate_to (length_excluding_prefix : nat) (k : KeyContents)
  : option (option KeyContents) :=
  let? n := key_len k in
  if Nat.ltb n 2 then Some None
  else if Nat.ltb (n - 2) length_excluding_prefix then Some None
  else
    let? p := prefix k in
    let? b := with_prefix_builder p in
    let? bytes := without_prefix k in
    let? bytes := slice 0 length_excluding_prefix bytes in
    let? k := write_all bytes b in
    Some (Some k).

(** [PartialEq for SlotKey] *)
Definition eqb (k1 k2 : KeyContents) : option bool :=
  let? b1 := as_ref k1 in
  let? b2 := as_ref k2 in
  Some (bool_decide (b1 = b2)).
End SlotKey.

Module SlotKeyFacts.
Import InlineKey SlotKey.

(** [k] is a representation of the prefix [p] followed by [bytes]: short keys are in
    the array, long ones in a vector. *)
Inductive repr (p : Prefix) (bytes : list N) : KeyContents -> Prop :=
| repr_inline tail :
    (length bytes + length tail = MAX_INLINE_KEY_LEN)%nat ->
    repr p bytes (Inline (N.of_nat (length bytes) :: module p :: item p :: bytes ++ tail))
| repr_reference :
    (MAX_INLINE_KEY_LEN < length bytes)%nat ->
    repr p bytes (Reference (module p :: item p :: bytes)).

Lemma slice_app {A} (l1 l2 l3 : list A) :
  slice (length l1) (length l1 + length l2) (l1 ++ l2 ++ l3) = Some l2.
Proof.
  unfold slice. rewrite !length_app, !(proj2 (Nat.leb_le _ _)) by lia. cbn [andb].
  rewrite drop_app_length, Nat.add_comm, Nat.add_sub. by rewrite take_app_length.
Qed.

Lemma slice_prefix {A} n (l : list A) : (n <= length l)%nat -> slice 0 n l = Some (take n l).
Proof.
  intros Hn. unfold slice. rewrite !(proj2 (Nat.leb_le _ _)) by lia. cbn [andb].
  by rewrite drop_0, Nat.sub_0_r.
Qed.

Lemma new_repr p : exists k, with_prefix_builder p = Some k /\ repr p [] k.
Proof.
  destruct p as [m i]. eexists. split; [reflexivity|].
  exact (repr_inline (mkPrefix m i) [] (replicate 67 0) eq_refl).
Qed.

Lemma inline_with_prefix p bytes tail :
  InlineKey.with_prefix (N.of_nat (length bytes) :: module p :: item p :: bytes ++ tail) =
    Some (module p :: item p :: bytes).
Proof.
  unfold InlineKey.with_prefix, len_excluding_prefix. cbn [lookup list_lookup fmap option_fmap].
  cbn [option_map]. rewrite Nat2N.id.
  apply (slice_app [_] (module p :: item p :: bytes) tail).
Qed.

(** The bytes of the array from [original_len] on are replaced. *)
Lemma try_extend_fits p bytes tail other :
  (length bytes + length tail = MAX_INLINE_KEY_LEN)%nat ->
  (length bytes + length other <= MAX_INLINE_KEY_LEN)%nat ->
  try_extend other (N.of_nat (length bytes) :: module p :: item p :: bytes ++ tail) =
    Ok (N.of_nat (length (bytes ++ other)) :: module p :: item p ::
        (bytes ++ other) ++ drop (length other) tail).
Proof.
  intros Ht Ho. unfold try_extend, len_excluding_prefix.
  cbn [lookup list_lookup fmap option_fmap option_map]. rewrite Nat2N.id.
  rewrite (proj2 (Nat.ltb_ge _ _)) by done.
  rewrite (proj2 (N.leb_le _ _)) by (unfold MAX_INLINE_KEY_LEN in Ho; cbn in Ho; unfold u8_max; lia).
  unfold set_at. cbn [length Nat.ltb Nat.leb]. cbn [insert list_insert].
  unfold copy_at, offset. cbn [length]. rewrite length_app.
  rewrite (proj2 (Nat.leb_le _ _)) by lia. f_equal.
  cbn [Nat.add take drop app]. rewrite length_app. do 3 f_equal.
  rewrite take_app_length, <- app_assoc. f_equal. f_equal.
  by rewrite drop_app_add.
Qed.

Lemma write_repr p bytes buf k :
  repr p bytes k -> exists k', write_all buf k = Some k' /\ repr p (bytes ++ buf) k'.
Proof.
  intros Hk. destruct buf as [|x buf'] eqn:Hb; [exists k; by rewrite app_nil_r|].
  cbn [write_all]. rewrite <- Hb. clear Hb. destruct Hk as [tail Ht|Hl]; cbn [write].
  - destruct (Nat.le_gt_cases (length bytes + length buf) MAX_INLINE_KEY_LEN) as [Hle|Hgt].
    + rewrite try_extend_fits by done. eexists. split; [done|].
      constructor. rewrite length_app, length_drop. lia.
    + unfold try_extend, len_excluding_prefix.
      cbn [lookup list_lookup fmap option_fmap option_map]. rewrite Nat2N.id.
      rewrite (proj2 (Nat.ltb_lt _ _)) by done. rewrite inline_with_prefix.
      eexists. split; [done|]. apply (repr_reference p (bytes ++ buf)). rewrite length_app. lia.
  - eexists. split; [done|]. apply (repr_reference p (bytes ++ buf)). rewrite length_app. lia.
Qed.

Lemma repr_as_ref p bytes k : repr p bytes k -> as_ref k = Some (module p :: item p :: bytes).
Proof. by intros [tail _|]; [apply inline_with_prefix|]. Qed.

Lemma repr_without_prefix p bytes k : repr p bytes k -> without_prefix k = Some bytes.
Proof.
  intros [tail _|_]; cbn [without_prefix].
  - unfold InlineKey.without_prefix, len_excluding_prefix.
    cbn [lookup list_lookup fmap option_fmap option_map]. rewrite Nat2N.id.
    apply (slice_app [_; _; _] bytes tail).
  - pose proof (slice_app [module p; item p] bytes []) as H. by rewrite app_nil_r in H.
Qed.

Lemma repr_prefix p bytes k : repr p bytes k -> prefix k = Some p.
Proof. destruct p. by intros [tail _|_]. Qed.

Lemma repr_len p bytes k : repr p bytes k -> key_len k = Some (length bytes + 2)%nat.
Proof.
  intros [tail _|_]; cbn [key_len].
  - unfold len_excluding_prefix. cbn [lookup list_lookup fmap option_fmap option_map].
    by rewrite Nat2N.id.
  - cbn [length]. by rewrite Nat.add_comm.
Qed.

Lemma repr_truncate p bytes k n :
  repr p bytes k ->
  if Nat.leb n (length bytes)
  then exists k', truncate_to n k = Some (Some k') /\ repr p (take n bytes) k'
  else truncate_to n k = Some None.
Proof.
  intros Hk. unfold truncate_to. rewrite (repr_len _ _ _ Hk).
  rewrite (proj2 (Nat.ltb_ge (length bytes + 2) 2)) by lia. rewrite Nat.add_sub.
  destruct (Nat.leb_spec n (length bytes)) as [Hn|Hn].
  - rewrite (proj2 (Nat.ltb_ge _ _)) by done. rewrite (repr_prefix _ _ _ Hk).
    destruct (new_repr p) as (b & -> & Hb). rewrite (repr_without_prefix _ _ _ Hk).
    rewrite slice_prefix by done.
    destruct (write_repr p [] (take n bytes) b Hb) as (k' & -> & Hk'). eauto.
  - by rewrite (proj2 (Nat.ltb_lt _ _)) by done.
Qed.

Lemma from_slice_repr p bytes :
  exists k, from_slice_including_prefix (module p :: item p :: bytes) = Some k /\ repr p bytes k.
Proof.
  unfold from_slice_including_prefix. cbn [lookup list_lookup].
  destruct (new_repr (mkPrefix (module p) (item p))) as (b & -> & Hb).
  pose proof (slice_app [module p; item p] bytes []) as H. rewrite app_nil_r in H.
  cbn [length Nat.add app] in H. cbn [length]. rewrite H.
  destruct (write_repr _ [] bytes b Hb) as (k & Hw & Hk). exists k. split; [done|].
  by destruct p.
Qed.

(** The writes of a builder one after the other. *)
Fixpoint write_chunks (chunks : list (list N)) (b : builder) : option builder :=
  match chunks with
  | [] => Some b
  | c :: chunks' => let? b := write_all c b in write_chunks chunks' b
  end.

Lemma write_chunks_repr p chunks : forall bytes k, repr p bytes k ->
  exists k', write_chunks chunks k = Some k' /\ repr p (bytes ++ concat chunks) k'.
Proof.
  induction chunks as [|c chunks IH]; intros bytes k Hk; cbn.
  - exists k. by rewrite app_nil_r.
  - destruct (write_repr p bytes c k Hk) as (k1 & -> & H1). rewrite app_assoc. by apply IH.
Qed.

Lemma repr_unique p1 b1 k1 p2 b2 k2 :
  repr p1 b1 k1 -> repr p2 b2 k2 -> eqb k1 k2 = Some (bool_decide (p1 = p2 /\ b1 = b2)).
Proof.
  intros H1 H2. unfold eqb. rewrite (repr_as_ref _ _ _ H1), (repr_as_ref _ _ _ H2). f_equal.
  apply bool_decide_ext. destruct p1, p2. cbn. split; [intros [= -> -> ->]|intros [[= -> ->] ->]]; done.
Qed.
End SlotKeyFacts.

Module SlotKeyProperties.
Import SlotKey SlotKeyFacts.

(** A key is the sequence of its bytes.  However the bytes of a key are split into
    writes of the builder, no index is out of range, and the key that is built has the
    prefix and the bytes in the order they were written, whichever of the two
    representations it is in; reading the bytes back gives an equal key, truncation
    is that of the bytes, and keys are equal exactly if their bytes are. *)
Theorem slot_key_refines_bytes p chunks n q other :
  exists b k k', with_prefix_builder p = Some b /\ write_chunks chunks b = Some k /\
    as_ref k = Some (module p :: item p :: concat chunks) /\
    prefix k = Some p /\ without_prefix k = Some (concat chunks) /\
    key_len k = Some (length (concat chunks) + 2)%nat /\
    from_slice_including_prefix (module p :: item p :: concat chunks) = Some k' /\
    eqb k k' = Some true /\
    match truncate_to n k with
    | Some (Some t) => as_ref t = Some (module p :: item p :: take n (concat chunks)) /\
        (n <= length (concat chunks))%nat
    | Some None => (length (concat chunks) < n)%nat
    | None => False
    end /\
    (let? o := from_slice_including_prefix (module q :: item q :: other) in eqb k o) =
      Some (bool_decide (p = q /\ concat chunks = other)).
Proof.
  destruct (new_repr p) as (b & Hb & Hr). destruct (write_chunks_repr p chunks [] b Hr) as (k & Hk & Hkr).
  destruct (from_slice_repr p (concat chunks)) as (k' & Hk' & Hkr').
  destruct (from_slice_repr q other) as (o & Ho & Hor). rewrite Ho. cbn [app] in Hkr.
  exists b, k, k'. rewrite (repr_unique _ _ _ _ _ _ Hkr Hkr'), (repr_unique _ _ _ _ _ _ Hkr Hor).
  rewrite bool_decide_eq_true_2 by done.
  split_and!; try done; [by apply repr_as_ref|by eapply repr_prefix|by eapply repr_without_prefix
    |by eapply repr_len|].
  pose proof (repr_truncate p _ k n Hkr) as Ht.
  destruct (Nat.leb_spec n (length (concat chunks))) as [Hn|Hn]; [|by rewrite Ht].
  destruct Ht as (t & -> & Htr). split; [by apply repr_as_ref|done].
Qed.
End SlotKeyProperties.
