(* ===== verification/Gas.v ===== *)
(** * Gas: units, prices, meters and fees

    - [GasArray]: the multi-dimensional gas arrays of
      sov-modules-api/src/gas/impl_macros.rs ([GasUnit] over [u64], [GasPrice]
      over [Amount]);
    - [BasicGasMeter]: gas/meters/basic.rs, the per-transaction meter;
    - [SlotGasMeter]: gas/meters/slot.rs, the per-slot meter that reserves gas
      for sequencers other than the preferred one;
    - [PriorityFeeBips]: transaction/data.rs, fees in basis points computed on
      64-bit limbs;
    - [transaction_consumption_helper]: transaction/rewards.rs, the split of a
      transaction's [max_fee] into base fee, tip and refund;
    - [BurnRate]: sov-bank/src/token.rs.

    Error values carry the data of the source's variants; their human-readable
    messages are left out. *)

From stdpp Require Import base numbers list option.
From Stdlib Require Import NArith Lia.
From S2P Require Import Prelude Ints.

(** ** Gas arrays

    [value: [u; N]] is a list; the fixed length [N] is the side condition
    [length a = length b] of the lemmas. *)
Module GasArray.

(** The loop shared by [checked_sub] and [checked_combine]: a pointwise
    operation that aborts at the first dimension where it fails. *)
Fixpoint zip_checked (f : N -> N -> option N) (l r : list N) : option (list N) :=
  match l, r with
  | x :: l', y :: r' =>
      match f x y with
      | Some z =>
          match zip_checked f l' r' with
          | Some zs => Some (z :: zs)
          | None => None
          end
      | None => None
      end
  | _, _ => Some []
  end.

Definition checked_sub (self rhs : list N) : option (list N) :=
  zip_checked Ints.checked_sub self rhs.

Definition checked_combine (max : N) (self rhs : list N) : option (list N) :=
  zip_checked (Ints.checked_add max) self rhs.

Fixpoint checked_scalar_product (max : N) (self : list N) (scalar : N) : option (list N) :=
  match self with
  | [] => Some []
  | v :: self' =>
      match Ints.checked_mul max v scalar with
      | Some z =>
          match checked_scalar_product max self' scalar with
          | Some zs => Some (z :: zs)
          | None => None
          end
      | None => None
      end
  end.

Fixpoint dim_is_less_than (self rhs : list N) : bool :=
  match self, rhs with
  | l :: self', r :: rhs' => if r <=? l then false else dim_is_less_than self' rhs'
  | _, _ => true
  end.

Fixpoint dim_is_less_or_eq (self rhs : list N) : bool :=
  match self, rhs with
  | l :: self', r :: rhs' => if r <? l then false else dim_is_less_or_eq self' rhs'
  | _, _ => true
  end.

Definition calculate_min (lhs rhs : list N) : list N := zip_with N.min lhs rhs.

Definition scalar_division (self : list N) (scalar : N) : list N :=
  map (fun s => default 0 (Ints.checked_div s scalar)) self.

(** [GasUnit::checked_value]: the value of [self] units at [price]. *)
Fixpoint checked_value_from (value : N) (self price : list N) : option N :=
  match self, price with
  | g :: self', p :: price' =>
      match Amount.checked_mul g p with
      | Some v =>
          match Amount.checked_add value v with
          | Some value' => checked_value_from value' self' price'
          | None => None
          end
      | None => None
      end
  | _, _ => Some value
  end.

Definition checked_value (self price : list N) : option N :=
  checked_value_from Amount.ZERO self price.

(** [GasUnit::value]: the same with saturation. *)
Definition value (self price : list N) : N :=
  foldl Amount.saturating_add 0 (zip_with Amount.saturating_mul self price).

(** The mathematical value, without a width. *)
Fixpoint dot (self price : list N) : N :=
  match self, price with
  | g :: self', p :: price' => g * p + dot self' price'
  | _, _ => 0
  end.
End GasArray.

(** [GasMeteringError], gas/error.rs *)
Inductive GasMeteringError : Type :=
| Overflow
| SlotOutOfGas (initial_slot_gas gas_to_charge remaining_preferred_slot_gas
                remaining_total_slot_gas : list N) (is_preferred : bool)
| InvalidLength
| OutOfGas (gas_to_charge gas_price initial_gas remaining_gas : list N)
| OutOfFunds (amount_to_charge remaining_funds : N) (gas_price : list N)
| ImpossibleToRefundGas (gas_to_refund gas_used : list N).

(** ** [BasicGasMeter] *)
Module BasicGasMeter.

Record t : Type := mk {
  initial_gas : list N;
  remaining_gas : list N;
  remaining_funds : option N;
  gas_price : list N
}.

Record GasInfo : Type := mkInfo {
  gas_value : N;
  gas_used : list N;
  info_gas_price : list N
}.

(** [gas_info]; [None] stands for one of its two [expect] panics. *)
Definition gas_info (self : t) : option GasInfo :=
  match GasArray.checked_sub (initial_gas self) (remaining_gas self) with
  | None => None
  | Some used =>
      match GasArray.checked_value used (gas_price self) with
      | None => None
      | Some v => Some (mkInfo v used (gas_price self))
      end
  end.

Definition new_with_funds_and_gas (funds : N) (gas price : list N) : t :=
  mk gas gas (Some funds) price.

Definition new_with_gas (gas price : list N) : t := mk gas gas None price.

Definition compute_remaining_funds (self : t) (funds : N) (amount : list N)
  : N + GasMeteringError :=
  match GasArray.checked_value amount (gas_price self) with
  | None => inr Overflow
  | Some amount_value =>
      match Amount.checked_sub funds amount_value with
      | None => inr (OutOfFunds amount_value funds (gas_price self))
      | Some rest => inl rest
      end
  end.

Definition compute_remaining_gas (self : t) (gas amount : list N)
  : list N + GasMeteringError :=
  match GasArray.checked_sub gas amount with
  | None => inr (OutOfGas amount (gas_price self) (initial_gas self) (remaining_gas self))
  | Some rest => inl rest
  end.

Definition charge_gas_inner (amount : list N) : M t GasMeteringError unit :=
  fun self =>
    let new_funds :=
      match remaining_funds self with
      | None => inl None
      | Some funds =>
          match compute_remaining_funds self funds amount with
          | inl f => inl (Some f)
          | inr e => inr e
          end
      end in
    match new_funds with
    | inr e => (Err e, self)
    | inl new_remaining_funds =>
        match compute_remaining_gas self (remaining_gas self) amount with
        | inr e => (Err e, self)
        | inl new_remaining_gas =>
            match GasArray.checked_sub (initial_gas self) new_remaining_gas with
            | None => (Panic, self)
            | Some used =>
                match GasArray.checked_value used (gas_price self) with
                | None => (Err Overflow, self)
                | Some _ =>
                    (Ok tt, mk (initial_gas self) new_remaining_gas
                               new_remaining_funds (gas_price self))
                end
            end
        end
    end.

Definition charge_gas (amount : list N) : M t GasMeteringError unit :=
  charge_gas_inner amount.

Definition charge_linear_gas (amount : list N) (parameter : N) : M t GasMeteringError unit :=
  match GasArray.checked_scalar_product u64_max amount parameter with
  | None => throw Overflow
  | Some total_amount => charge_gas_inner total_amount
  end.

(** A run of the meter: the charges of a transaction, in order.  A charge that
    fails returns its error to the code that asked for it; the meter stays in
    use afterwards. *)
Inductive charge : Type :=
| Charge (amount : list N)
| ChargeLinear (amount : list N) (parameter : N).

Definition do_charge (c : charge) : M t GasMeteringError unit :=
  match c with
  | Charge g => charge_gas g
  | ChargeLinear g p => charge_linear_gas g p
  end.

Fixpoint run (cs : list charge) (self : t) : t :=
  match cs with
  | [] => self
  | c :: cs' => run cs' (snd (do_charge c self))
  end.

(** The invariant of a meter: the remaining gas is below the initial gas in
    every dimension and the gas used so far has a price that fits a [u128]. *)
Definition wf (self : t) : Prop :=
  exists used, GasArray.checked_sub (initial_gas self) (remaining_gas self) = Some used /\
    GasArray.dot used (gas_price self) <= u128_max.

(** The dimension of a meter and of a charge. *)
Definition dims (n : nat) (self : t) : Prop :=
  length (initial_gas self) = n /\ length (remaining_gas self) = n.

Definition charge_dims (n : nat) (c : charge) : Prop :=
  match c with Charge g => length g = n | ChargeLinear g _ => length g = n end.
End BasicGasMeter.

(** ** [SlotGasMeter] *)
Module SlotGasMeter.

Section Slot.
Context {DaAddress : Type} `{EqDecision DaAddress}.

Record t : Type := mk {
  preferred_sequencer : option DaAddress;
  initial_slot_gas : list N;
  remaining_preferred_slot_gas : list N;
  remaining_total_slot_gas : list N
}.

(** [PREFERRED_DATA_FRACTION], gas/traits.rs *)
Definition numerator : N := 9.
Definition denominator : N := 10.

(** [None] is the panic of the [unwrap]. *)
Definition new (remaining_slot_gas : list N) (preferred : option DaAddress) : option t :=
  match GasArray.checked_scalar_product u64_max
          (GasArray.scalar_division remaining_slot_gas denominator) numerator with
  | None => None
  | Some pref => Some (mk preferred remaining_slot_gas pref remaining_slot_gas)
  end.

Definition is_preferred (self : t) (sequencer : DaAddress) : bool :=
  bool_decide (Some sequencer = preferred_sequencer self).

Definition remaining_slot_gas (self : t) (sequencer : DaAddress) : list N :=
  if is_preferred self sequencer
  then remaining_preferred_slot_gas self else remaining_total_slot_gas self.

Definition gas_error (self : t) (gas_to_charge : list N) (pref : bool) : GasMeteringError :=
  SlotOutOfGas (initial_slot_gas self) gas_to_charge
    (remaining_preferred_slot_gas self) (remaining_total_slot_gas self) pref.

Definition charge_preferred (gas : list N) : M t GasMeteringError unit :=
  fun self =>
    match GasArray.checked_sub (remaining_preferred_slot_gas self) gas with
    | None => (Err (gas_error self gas true), self)
    | Some rest =>
        (Ok tt, mk (preferred_sequencer self) (initial_slot_gas self) rest
                   (remaining_total_slot_gas self))
    end.

Definition charge_total (gas : list N) : M t GasMeteringError unit :=
  fun self =>
    match GasArray.checked_sub (remaining_total_slot_gas self) gas with
    | None => (Err (gas_error self gas false), self)
    | Some rest =>
        (Ok tt, mk (preferred_sequencer self) (initial_slot_gas self)
                   (remaining_preferred_slot_gas self) rest)
    end.

Definition charge_gas (gas : list N) (sequencer : DaAddress) : M t GasMeteringError unit :=
  fun self =>
    (if is_preferred self sequencer
     then charge_preferred gas ;;; charge_total gas
     else charge_total gas) self.

(** [None] is the panic of the [expect]. *)
Definition total_gas_used (self : t) : option (list N) :=
  GasArray.checked_sub (initial_slot_gas self) (remaining_total_slot_gas self).

(** The charges of a slot, in order, those that fail included. *)
Fixpoint run (cs : list (list N * DaAddress)) (self : t) : t :=
  match cs with
  | [] => self
  | (g, s) :: cs' => run cs' (snd (charge_gas g s self))
  end.
End Slot.
Arguments t : clear implicits.
End SlotGasMeter.

(** ** [PriorityFeeBips] *)
Module PriorityFeeBips.
Definition BASIS_POINTS : N := 10000.

(** [value * 100] on [u64]. *)
Definition from_percentage (value : N) : N := wrap u64_max (value * 100).

(** The limb arithmetic of [priority_fee_limbs], on [u128]; [None] is
    [PriorityFeeApplyOverflowError].  [self] is a [u64]. *)
Definition priority_fee_limbs (self quantity : N) : option N :=
  let hi := N.shiftr quantity 64 in
  let lo := N.land quantity u64_max in
  let hi_mul := wrap u128_max (hi * self) in
  let hi_res := hi_mul / BASIS_POINTS in
  let hi_rem := hi_mul mod BASIS_POINTS in
  if u64_max <? hi_res then None
  else
    let hi_res := wrap u128_max (N.shiftl hi_res 64) in
    let res_lo := wrap u128_max (lo * self) / BASIS_POINTS in
    match checked_add u128_max hi_res res_lo with
    | None => None
    | Some r => checked_add u128_max r (wrap u128_max (N.shiftl hi_rem 64) / BASIS_POINTS)
    end.

Definition apply (self quantity : N) : option N := priority_fee_limbs self quantity.
End PriorityFeeBips.

(** ** [BurnRate] *)
Module BurnRate.
(** [try_from_u8] *)
Definition try_from_u8 (value : N) : option N := if 100 <? value then None else Some value.

(** [apply]; [None] is the panic of the [expect]. *)
Definition apply (self amount : N) : option N :=
  PriorityFeeBips.apply (PriorityFeeBips.from_percentage (100 - self)) amount.
End BurnRate.

(** ** Transaction consumption *)

Record TransactionConsumption : Type := mkConsumption {
  tc_remaining_funds : N;
  tc_base_fee : list N;
  tc_priority_fee : N;
  tc_gas_price : list N
}.

(** [base_fee_value]; [None] is the panic of the [expect]. *)
Definition base_fee_value (self : TransactionConsumption) : option N :=
  GasArray.checked_value (tc_base_fee self) (tc_gas_price self).

(** [transaction_consumption_helper]; [None] is the panic of the [expect]. *)
Definition transaction_consumption_helper
    (base_fee gas_price : list N) (max_fee max_priority_fee_bips : N)
  : option TransactionConsumption :=
  match GasArray.checked_value base_fee gas_price with
  | None => None
  | Some value =>
      let max_remaining_funds := Amount.saturating_sub max_fee value in
      let max_earned_priority_fee :=
        default max_remaining_funds (PriorityFeeBips.apply max_priority_fee_bips value) in
      let priority_fee := N.min max_earned_priority_fee max_remaining_funds in
      let remaining_funds :=
        Amount.saturating_sub (Amount.saturating_sub max_fee value) priority_fee in
      Some (mkConsumption remaining_funds base_fee priority_fee gas_price)
  end.

(** [TxDetails], the fee related fields, and [AuthenticatedTransactionData::gas_meter]. *)
Record TxDetails : Type := mkTxDetails {
  max_priority_fee_bips : N;
  max_fee : N;
  gas_limit : option (list N);
  chain_id : N
}.

Definition tx_gas_meter (self : TxDetails) (gas_price slot_gas_limit : list N)
  : BasicGasMeter.t :=
  let limit :=
    match gas_limit self with
    | Some l => GasArray.calculate_min l slot_gas_limit
    | None => slot_gas_limit
    end in
  BasicGasMeter.new_with_funds_and_gas (max_fee self) limit gas_price.

(** [WorkingSet::transaction_consumption] *)
Definition transaction_consumption (meter : BasicGasMeter.t) (max_fee bips : N)
  : option TransactionConsumption :=
  match BasicGasMeter.gas_info meter with
  | None => None
  | Some i =>
      transaction_consumption_helper (BasicGasMeter.gas_used i)
        (BasicGasMeter.info_gas_price i) max_fee bips
  end.

(** ** Lemmas on gas arrays *)

Lemma ga_checked_sub l r :
  GasArray.checked_sub l r =
  if GasArray.dim_is_less_or_eq r l then Some (zip_with N.sub l r) else None.
Proof.
  unfold GasArray.checked_sub.
  revert r; induction l as [|x l IH]; intros [|y r]; simpl; try done.
  rewrite IH. unfold Ints.checked_sub.
  destruct (N.leb_spec y x), (N.ltb_spec x y); try lia; [|done].
  by destruct (GasArray.dim_is_less_or_eq r l).
Qed.

Lemma ga_checked_value_from v g p :
  v <= u128_max ->
  GasArray.checked_value_from v g p =
  if v + GasArray.dot g p <=? u128_max then Some (v + GasArray.dot g p) else None.
Proof.
  revert v p; induction g as [|x g IH]; intros v [|y p] Hv; simpl;
    try (rewrite N.add_0_r; by destruct (N.leb_spec v u128_max); try lia).
  unfold Amount.checked_mul, Amount.checked_add.
  destruct (checked_mul u128_max x y) as [z|] eqn:E1; checked_simpl; subst.
  - destruct (checked_add u128_max v (x * y)) as [w|] eqn:E2; checked_simpl; subst.
    + rewrite IH by lia. by rewrite N.add_assoc.
    + destruct (N.leb_spec (v + (x * y + GasArray.dot g p)) u128_max); [lia|done].
  - destruct (N.leb_spec (v + (x * y + GasArray.dot g p)) u128_max); [lia|done].
Qed.

Lemma ga_checked_value g p :
  GasArray.checked_value g p =
  if GasArray.dot g p <=? u128_max then Some (GasArray.dot g p) else None.
Proof. unfold GasArray.checked_value. by rewrite ga_checked_value_from by done. Qed.

Lemma ga_scalar_product_Some max g k z :
  GasArray.checked_scalar_product max g k = Some z -> z = map (fun x => x * k) g.
Proof.
  revert z; induction g as [|x g IH]; simpl; intros z; [by intros [= <-]|].
  destruct (checked_mul max x k) eqn:E; [|done].
  destruct (GasArray.checked_scalar_product max g k) eqn:E'; [|done].
  intros [= <-]. checked_simpl. subst. by rewrite (IH l).
Qed.

Lemma ga_le_sub_le (i r a : list N) :
  GasArray.dim_is_less_or_eq r i = true ->
  GasArray.dim_is_less_or_eq (zip_with N.sub r a) i = true.
Proof.
  revert i a; induction r as [|x r IH]; intros [|y i] [|z a]; simpl; try done.
  destruct (N.ltb_spec y x); [done|]. intros Hle.
  destruct (N.ltb_spec y (x - z)); [lia|]. by apply IH.
Qed.

Lemma ga_dot_sub_sub (i r a p : list N) :
  length r = length i -> length a = length i ->
  GasArray.dim_is_less_or_eq r i = true ->
  GasArray.dim_is_less_or_eq a r = true ->
  GasArray.dot (zip_with N.sub i (zip_with N.sub r a)) p =
  GasArray.dot (zip_with N.sub i r) p + GasArray.dot a p.
Proof.
  revert r a p; induction i as [|x i IH]; intros [|y r] [|z a] [|w p];
    simpl; try done; intros ? ?.
  destruct (N.ltb_spec x y); [done|]. destruct (N.ltb_spec y z); [done|]. intros.
  rewrite IH by (done || lia).
  replace (x - (y - z)) with ((x - y) + z) by lia. lia.
Qed.

(** ** The per-transaction meter *)

Module BasicGasMeterFacts.
Import BasicGasMeter.

Lemma charge_gas_inner_cases amount m :
  wf m ->
  (exists m', charge_gas_inner amount m = (Ok tt, m') /\ wf m' /\
     GasArray.dim_is_less_or_eq amount (remaining_gas m) = true /\
     m' = mk (initial_gas m) (zip_with N.sub (remaining_gas m) amount)
             (remaining_funds m') (gas_price m) /\
     match remaining_funds m with
     | None => remaining_funds m' = None
     | Some f => GasArray.dot amount (gas_price m) <= f /\
                 remaining_funds m' = Some (f - GasArray.dot amount (gas_price m))
     end) \/
  (exists e, charge_gas_inner amount m = (Err e, m)).
Proof.
  intros (used & Hused & Hval). rewrite ga_checked_sub in Hused.
  destruct (GasArray.dim_is_less_or_eq (remaining_gas m) (initial_gas m)) eqn:Hle; [|done].
  unfold charge_gas_inner, compute_remaining_funds, compute_remaining_gas.
  rewrite !ga_checked_value, !ga_checked_sub.
  destruct (GasArray.dim_is_less_or_eq amount (remaining_gas m)) eqn:Ha; last first.
  { right. destruct (remaining_funds m); repeat case_match; eauto. }
  rewrite ga_checked_sub, (ga_le_sub_le _ _ _ Hle), ga_checked_value.
  assert (Hwf : forall fs, GasArray.dot (zip_with N.sub (initial_gas m)
      (zip_with N.sub (remaining_gas m) amount)) (gas_price m) <= u128_max ->
      wf (mk (initial_gas m) (zip_with N.sub (remaining_gas m) amount) fs (gas_price m))).
  { intros fs Hd. eexists; split; [|exact Hd]. simpl.
    by rewrite ga_checked_sub, (ga_le_sub_le _ _ _ Hle). }
  destruct (remaining_funds m) as [f|] eqn:Hf.
  - destruct (N.leb_spec (GasArray.dot amount (gas_price m)) u128_max); [|eauto].
    unfold Amount.checked_sub.
    destruct (checked_sub f _) as [rest|] eqn:E; [|eauto]. checked_simpl. subst.
    destruct (N.leb_spec (GasArray.dot (zip_with N.sub (initial_gas m)
      (zip_with N.sub (remaining_gas m) amount)) (gas_price m)) u128_max); [|eauto].
    left. eexists; split_and!; [done|by apply Hwf|done..].
  - destruct (N.leb_spec (GasArray.dot (zip_with N.sub (initial_gas m)
      (zip_with N.sub (remaining_gas m) amount)) (gas_price m)) u128_max); [|eauto].
    left. eexists; split_and!; [done|by apply Hwf|done..].
Qed.

Lemma do_charge_cases c m :
  wf m ->
  (exists amount m', do_charge c m = (Ok tt, m') /\ charge_gas_inner amount m = (Ok tt, m') /\
     (forall n, charge_dims n c -> length amount = n)) \/
  (exists e, do_charge c m = (Err e, m)).
Proof.
  intros Hwf.
  assert (Hin : forall amount, (exists m', charge_gas_inner amount m = (Ok tt, m')) \/
                 (exists e, charge_gas_inner amount m = (Err e, m))).
  { intros a. destruct (charge_gas_inner_cases a m Hwf) as [(m' & ? & _)|]; eauto. }
  destruct c as [g|g k]; simpl.
  - destruct (Hin g) as [[m' Hm]|He]; [left; exists g; eauto|eauto].
  - unfold charge_linear_gas.
    destruct (GasArray.checked_scalar_product u64_max g k) as [z|] eqn:Ez; [|right; eauto].
    apply ga_scalar_product_Some in Ez as ->.
    destruct (Hin (map (fun x => x * k) g)) as [[m' Hm]|He]; [|eauto].
    left. eexists _, _; split_and!; [done..|]. intros n <-. apply length_map.
Qed.

Lemma do_charge_wf c m : wf m -> wf (snd (do_charge c m)) /\ fst (do_charge c m) <> Panic.
Proof.
  intros Hwf. destruct (do_charge_cases c m Hwf) as [(a & m' & -> & Hm & _)|[e ->]]; [|done].
  destruct (charge_gas_inner_cases a m Hwf) as [(m'' & Hm' & Hw & _)|[e He]]; [|congruence].
  assert (m'' = m') as -> by congruence. done.
Qed.

Lemma new_wf funds gas price :
  wf (mk gas gas funds price).
Proof.
  exists (zip_with N.sub gas gas). simpl. rewrite ga_checked_sub.
  assert (GasArray.dim_is_less_or_eq gas gas = true) as ->.
  { induction gas as [|x l IH]; [done|]. simpl. by rewrite N.ltb_irrefl. }
  split; [done|].
  assert (GasArray.dot (zip_with N.sub gas gas) price = 0) as ->; [|done].
  revert price. induction gas as [|x l IH]; intros [|p price]; simpl; try done.
  rewrite IH, N.sub_diag. lia.
Qed.

Lemma gas_info_wf m : wf m -> exists i, gas_info m = Some i.
Proof.
  intros (u & Hu & Hv). unfold gas_info. rewrite Hu, ga_checked_value.
  destruct (N.leb_spec (GasArray.dot u (gas_price m)) u128_max); [eauto|lia].
Qed.

(** The funds of the meter and the value of the gas used add up. *)
Definition balanced (funds : N) (m : t) : Prop :=
  exists i rest, gas_info m = Some i /\ remaining_funds m = Some rest /\
    rest + gas_value i = funds.

Lemma do_charge_balanced n funds c m :
  wf m -> dims n m -> charge_dims n c -> balanced funds m ->
  dims n (snd (do_charge c m)) /\ balanced funds (snd (do_charge c m)).
Proof.
  intros Hwf [Hi Hr] Hc (i & rest & Hinfo & Hrest & Hsum).
  destruct (do_charge_cases c m Hwf) as [(a & m' & -> & Hm & Hlen)|[e ->]];
    [|simpl; split; [done|by exists i, rest]].
  destruct (charge_gas_inner_cases a m Hwf) as [(m'' & Hm' & Hw & Hle & Heq & Hf)|[e He]];
    [|congruence].
  assert (m'' = m') as -> by congruence. rewrite Hrest in Hf. destruct Hf as [Hle' Hf].
  simpl. split.
  { rewrite Heq. split; simpl; [done|]. rewrite length_zip_with, (Hlen _ Hc). lia. }
  destruct (gas_info_wf m' Hw) as [i' Hi'].
  exists i', (rest - GasArray.dot a (gas_price m)). split_and!; [done|done|].
  rewrite Heq in Hi'. unfold gas_info in Hinfo, Hi'. simpl in Hi'.
  rewrite !ga_checked_sub in Hinfo, Hi'.
  destruct (GasArray.dim_is_less_or_eq (remaining_gas m) _) eqn:Hri; [|done].
  rewrite (ga_le_sub_le _ _ _ Hri) in Hi'. rewrite !ga_checked_value in Hinfo, Hi'.
  repeat case_match; simplify_eq/=.
  rewrite ga_dot_sub_sub by (rewrite ?(Hlen _ Hc); done || lia). lia.
Qed.

Lemma run_balanced n funds cs m :
  Forall (charge_dims n) cs -> wf m -> dims n m -> balanced funds m ->
  wf (run cs m) /\ balanced funds (run cs m).
Proof.
  intros Hcs. revert m. induction Hcs as [|c cs Hc _ IH]; intros m Hwf Hd Hb; [done|].
  destruct (do_charge_balanced n funds c m) as [??]; [done..|].
  apply IH; [by apply do_charge_wf|done|done].
Qed.
End BasicGasMeterFacts.

(** ** The slot meter *)

Module SlotGasMeterFacts.
Import SlotGasMeter.
Section SlotFacts.
Context {DaAddress : Type} `{EqDecision DaAddress}.

(** The part of the slot gas that the preferred sequencer cannot use. *)
Definition reserve (gas : list N) : list N :=
  map (fun g => g - numerator * (g / denominator)) gas.

Definition pref_share (gas : list N) : list N :=
  map (fun g => numerator * (g / denominator)) gas.

Lemma new_run gas (p : option DaAddress) :
  Forall (fun g => g <= u64_max) gas ->
  new gas p = Some (mk p gas (pref_share gas) gas).
Proof.
  intros Hg. unfold new.
  enough (GasArray.checked_scalar_product u64_max (GasArray.scalar_division gas denominator)
    numerator = Some (pref_share gas)) as Heq by (by rewrite Heq).
  induction Hg as [|g gas Hg _ IH]; [done|]. simpl. rewrite IH.
  unfold checked_mul. rewrite (N.mul_comm (g / denominator)).
  assert (numerator * (g / denominator) <= u64_max) as Hle.
  { unfold numerator, denominator. div_lia. }
  apply N.leb_le in Hle. by rewrite Hle.
Qed.

Lemma zip_add_sub (p r g : list N) :
  length p = length r -> length g = length p ->
  GasArray.dim_is_less_or_eq g p = true ->
  GasArray.dim_is_less_or_eq g (zip_with N.add p r) = true /\
  zip_with N.sub (zip_with N.add p r) g = zip_with N.add (zip_with N.sub p g) r.
Proof.
  revert r g; induction p as [|x p IH]; intros [|y r] [|z g]; simpl; try done.
  intros Hl1 Hl2. destruct (N.ltb_spec x z); [done|]. intros Hle.
  destruct (N.ltb_spec (x + y) z); [lia|].
  destruct (IH r g) as [? ->]; [lia|lia|done|]. split; [done|]. f_equal. lia.
Qed.

(** While only the preferred sequencer is charged, the total gas is the
    preferred gas plus the reserve, dimension by dimension. *)
Definition split_inv (res : list N) (m : t DaAddress) : Prop :=
  length (remaining_preferred_slot_gas m) = length res /\
  remaining_total_slot_gas m = zip_with N.add (remaining_preferred_slot_gas m) res.

Lemma charge_preferred_split res m g s :
  Some s = preferred_sequencer m -> length g = length res -> split_inv res m ->
  split_inv res (snd (charge_gas g s m)) /\
  preferred_sequencer (snd (charge_gas g s m)) = preferred_sequencer m.
Proof.
  intros Hp Hg [Hl Ht]. unfold charge_gas, is_preferred.
  rewrite bool_decide_eq_true_2 by done.
  unfold bind, charge_preferred, charge_total. rewrite ga_checked_sub.
  destruct (GasArray.dim_is_less_or_eq g (remaining_preferred_slot_gas m)) eqn:Hle;
    [|by split].
  simpl. rewrite Ht, ga_checked_sub.
  destruct (zip_add_sub (remaining_preferred_slot_gas m) res g) as [-> Heq];
    [lia|lia|done|].
  simpl. split; [|done]. split; simpl; [|done].
  rewrite length_zip_with. lia.
Qed.

Lemma run_preferred_split res cs m s :
  Some s = preferred_sequencer m -> split_inv res m ->
  Forall (fun c => length c.1 = length res /\ c.2 = s) cs ->
  split_inv res (run cs m).
Proof.
  intros Hp Hi Hcs. revert m Hp Hi.
  induction Hcs as [|[g s'] cs [Hg Hs] _ IH]; intros m Hp Hi; [done|].
  simpl in *. subst s'.
  destruct (charge_preferred_split res m g s) as [Hi' Hp']; [done..|].
  apply IH; [congruence|done].
Qed.

Lemma dim_le_add (r p : list N) :
  length p = length r -> GasArray.dim_is_less_or_eq r (zip_with N.add p r) = true.
Proof.
  revert r; induction p as [|x p IH]; intros [|y r]; simpl; try done.
  intros Hl. destruct (N.ltb_spec (x + y) y); [lia|]. apply IH. lia.
Qed.

Lemma pref_share_reserve gas : zip_with N.add (pref_share gas) (reserve gas) = gas.
Proof.
  unfold pref_share, reserve, numerator, denominator.
  induction gas as [|g gas IH]; [done|]. simpl. rewrite IH. f_equal.
  div_lia.
Qed.

Lemma new_split gas (p : option DaAddress) : split_inv (reserve gas) (mk p gas (pref_share gas) gas).
Proof.
  split; simpl; [by unfold pref_share, reserve; rewrite !length_map|].
  by rewrite pref_share_reserve.
Qed.

Lemma charge_total_le g (m : t DaAddress) :
  GasArray.dim_is_less_or_eq (remaining_total_slot_gas m) (initial_slot_gas m) = true ->
  GasArray.dim_is_less_or_eq (remaining_total_slot_gas (snd (charge_total g m)))
    (initial_slot_gas (snd (charge_total g m))) = true.
Proof.
  intros Hle. unfold charge_total. rewrite ga_checked_sub.
  destruct (GasArray.dim_is_less_or_eq g _); simpl; [|done]. by apply ga_le_sub_le.
Qed.

Lemma charge_gas_le g s (m : t DaAddress) :
  GasArray.dim_is_less_or_eq (remaining_total_slot_gas m) (initial_slot_gas m) = true ->
  GasArray.dim_is_less_or_eq (remaining_total_slot_gas (snd (charge_gas g s m)))
    (initial_slot_gas (snd (charge_gas g s m))) = true.
Proof.
  intros Hle. unfold charge_gas. destruct (is_preferred m s); [|by apply charge_total_le].
  unfold bind, charge_preferred. destruct (GasArray.checked_sub _ g); [|done].
  by apply (charge_total_le g (mk _ _ _ _)).
Qed.

Lemma run_le cs (m : t DaAddress) :
  GasArray.dim_is_less_or_eq (remaining_total_slot_gas m) (initial_slot_gas m) = true ->
  GasArray.dim_is_less_or_eq (remaining_total_slot_gas (run cs m))
    (initial_slot_gas (run cs m)) = true.
Proof.
  revert m. induction cs as [|[g s] cs IH]; intros m Hle; [done|].
  apply IH. by apply charge_gas_le.
Qed.
End SlotFacts.
End SlotGasMeterFacts.

(** ** Fees in basis points *)

Module FeeFacts.
Lemma shiftr_64 q : N.shiftr q 64 = q / 2 ^ 64.
Proof. apply N.shiftr_div_pow2. Qed.

Lemma land_u64 q : N.land q u64_max = q mod 2 ^ 64.
Proof. change u64_max with (N.ones 64). apply N.land_ones. Qed.

Lemma div_add_floor d x y :
  d <> 0 -> x / d + y / d <= (x + y) / d /\ (x + y) / d <= x / d + y / d + 1.
Proof.
  intros Hd. pose proof (N.mod_lt x d Hd) as Hx. pose proof (N.mod_lt y d Hd) as Hy.
  assert ((x + y) / d = x / d + y / d + (x mod d + y mod d) / d) as ->.
  { rewrite <- N.div_add_l by done. f_equal.
    rewrite (N.Div0.div_mod x d) at 1. rewrite (N.Div0.div_mod y d) at 1. nia. }
  assert ((x mod d + y mod d) / d <= 1) as H1.
  { apply N.lt_succ_r, N.Div0.div_lt_upper_bound. lia. }
  revert H1. generalize ((x mod d + y mod d) / d), (x / d), (y / d). lia.
Qed.

(** The exact fee, split at the limb boundary. *)
Lemma fee_split d f q :
  d <> 0 ->
  f * q / d = (q / 2^64 * f) / d * 2^64 +
    ((q / 2^64 * f) mod d * 2^64 + (q mod 2^64) * f) / d.
Proof.
  intros Hd. set (hm := q / 2^64 * f).
  assert (f * q = (hm / d * 2^64) * d + (hm mod d * 2^64 + (q mod 2^64) * f)) as ->.
  { rewrite (N.Div0.div_mod q (2^64)) at 1.
    pose proof (N.Div0.div_mod hm d) as Hhm.
    transitivity (hm * 2^64 + (q mod 2^64) * f); [unfold hm; lia|].
    rewrite Hhm at 1. lia. }
  rewrite N.add_comm, N.div_add by lia. lia.
Qed.

Lemma limbs_bound f q :
  f <= u64_max -> q <= u128_max ->
  q / 2^64 * f <= u128_max /\ (q mod 2^64) * f <= u128_max.
Proof.
  unfold u64_max, u128_max. intros Hf Hq.
  assert (q / 2^64 <= 18446744073709551615).
  { enough (q / 2^64 < 2^64) by lia. apply N.Div0.div_lt_upper_bound. lia. }
  assert (q mod 2^64 <= 18446744073709551615) by (pose proof (N.mod_lt q (2^64)); lia).
  split; (etransitivity; [apply N.mul_le_mono; eassumption|]); done.
Qed.

Lemma limbs_run f q :
  f <= u64_max -> q <= u128_max ->
  PriorityFeeBips.priority_fee_limbs f q =
  let hm := q / 2^64 * f in
  let v := hm / 10000 * 2^64 + (q mod 2^64) * f / 10000 + (hm mod 10000) * 2^64 / 10000 in
  if (hm / 10000 <=? u64_max) && (v <=? u128_max) then Some v else None.
Proof.
  intros Hf Hq. destruct (limbs_bound f q Hf Hq) as [Hh Hl].
  unfold PriorityFeeBips.priority_fee_limbs, PriorityFeeBips.BASIS_POINTS.
  rewrite shiftr_64, land_u64, !N.shiftl_mul_pow2, (wrap_id u128_max (q / _ * f)) by done.
  rewrite (wrap_id u128_max (q mod _ * f)) by done.
  set (hm := q / 2^64 * f) in *. cbv zeta.
  destruct (N.ltb_spec u64_max (hm / 10000)), (N.leb_spec (hm / 10000) u64_max); try lia; [done|].
  rewrite (wrap_id u128_max (hm / 10000 * _)) by (unfold u64_max, u128_max in *; lia).
  rewrite (wrap_id u128_max (hm mod 10000 * _))
    by (pose proof (N.mod_lt hm 10000); unfold u128_max; lia).
  simpl andb.
  destruct (checked_add u128_max (hm / 10000 * 2^64) _) as [r|] eqn:E; checked_simpl; subst.
  - unfold checked_add. by case_match.
  - case_match eqn:Hle; [checked_simpl|done]. exfalso. apply N.lt_nge in E. apply E.
    etransitivity; [apply N.le_add_r|exact Hle].
Qed.

Lemma limbs_close f q :
  f <= u64_max -> q <= u128_max ->
  match PriorityFeeBips.priority_fee_limbs f q with
  | Some v => v <= f * q / 10000 /\ f * q / 10000 <= v + 1 /\ v <= u128_max
  | None => u128_max < f * q / 10000
  end.
Proof.
  intros Hf Hq. rewrite limbs_run by done. rewrite (fee_split 10000 f q) by done. cbv zeta.
  set (hm := q / 2^64 * f).
  destruct (div_add_floor 10000 (hm mod 10000 * 2^64) (q mod 2^64 * f)) as [Hlo Hhi]; [done|].
  destruct (N.leb_spec (hm / 10000) u64_max); simpl.
  - revert Hlo Hhi.
    generalize ((hm mod 10000 * 2 ^ 64 + q mod 2 ^ 64 * f) / 10000).
    generalize (hm mod 10000 * 2 ^ 64 / 10000), (q mod 2 ^ 64 * f / 10000).
    intros a b c Hlo Hhi. repeat case_match; checked_simpl; simplify_eq; lia.
  - apply N.lt_le_trans with (hm / 10000 * 2 ^ 64); [unfold u64_max, u128_max in *; lia|].
    apply N.le_add_r.
Qed.

Lemma from_percentage_small p : p <= 100 -> PriorityFeeBips.from_percentage p = p * 100.
Proof. intros. apply wrap_id. unfold u64_max. lia. Qed.

Lemma helper_split base price mf bips v :
  GasArray.checked_value base price = Some v -> v <= mf ->
  exists c, transaction_consumption_helper base price mf bips = Some c /\
    base_fee_value c = Some v /\
    v + tc_priority_fee c + tc_remaining_funds c = mf /\
    tc_priority_fee c <= default (mf - v) (PriorityFeeBips.apply bips v).
Proof.
  intros Hv Hle. unfold transaction_consumption_helper. rewrite Hv.
  eexists. split; [done|]. unfold base_fee_value, Amount.saturating_sub, saturating_sub.
  cbn [tc_base_fee tc_gas_price tc_priority_fee tc_remaining_funds].
  split; [done|].
  generalize (default (mf - v) (PriorityFeeBips.apply bips v)). intros tip. lia.
Qed.

(** A tip never exceeds the share of the base fee that the sender agreed to. *)
Lemma tip_bound bips v mf tip :
  bips <= u64_max -> v <= u128_max -> mf <= u128_max ->
  tip <= default (mf - v) (PriorityFeeBips.apply bips v) -> tip <= bips * v / 10000.
Proof.
  intros Hb Hv Hmf Htip. pose proof (limbs_close bips v Hb Hv) as Hc.
  unfold PriorityFeeBips.apply in Htip.
  revert Hc. generalize (bips * v / 10000). intros e Hc.
  destruct (PriorityFeeBips.priority_fee_limbs bips v); cbn [from_option id] in Htip; lia.
Qed.
End FeeFacts.

(** A fresh meter is balanced after any run of charges. *)
Lemma run_new_balanced (n : nat) (funds : N) (gas price : list N)
    (cs : list BasicGasMeter.charge)
    (Hgas : length gas = n) (Hcs : Forall (BasicGasMeter.charge_dims n) cs) :
  let m := BasicGasMeter.run cs (BasicGasMeter.new_with_funds_and_gas funds gas price) in
  exists i rest,
    BasicGasMeter.gas_info m = Some i /\
    BasicGasMeter.remaining_funds m = Some rest /\
    rest + BasicGasMeter.gas_value i = funds.
Proof.
  cbv zeta.
  set (m0 := BasicGasMeter.new_with_funds_and_gas funds gas price).
  assert (BasicGasMeter.wf m0) as Hwf by apply BasicGasMeterFacts.new_wf.
  destruct (BasicGasMeterFacts.gas_info_wf m0 Hwf) as [i Hi].
  apply (BasicGasMeterFacts.run_balanced n funds cs m0 Hcs Hwf); [done|].
  exists i, funds. split_and!; [done|done|].
  unfold BasicGasMeter.gas_info in Hi. simpl in Hi.
  rewrite ga_checked_sub in Hi. destruct (GasArray.dim_is_less_or_eq gas gas); [|done].
  rewrite ga_checked_value in Hi.
  assert (GasArray.dot (zip_with N.sub gas gas) price = 0) as Hz.
  { clear. revert price. induction gas as [|x l IH]; intros [|p price]; simpl; try done.
    rewrite IH, N.sub_diag. lia. }
  rewrite Hz in Hi. simpl in Hi. simplify_eq/=. lia.
Qed.

(** ** Properties *)

(** Whatever gas a transaction is charged, in whatever order and with
    whatever failures in between, the meter never panics, the gas it reports as
    used has a representable value, and that value plus the funds left is
    exactly the funds the meter started with. *)
Theorem basic_meter_accounts_exactly (n : nat) (funds : N) (gas price : list N)
    (cs : list BasicGasMeter.charge)
    (Hgas : length gas = n) (Hcs : Forall (BasicGasMeter.charge_dims n) cs) :
  let m := BasicGasMeter.run cs (BasicGasMeter.new_with_funds_and_gas funds gas price) in
  exists i rest,
    BasicGasMeter.gas_info m = Some i /\
    BasicGasMeter.remaining_funds m = Some rest /\
    rest + BasicGasMeter.gas_value i = funds.
Proof. by apply (run_new_balanced n). Qed.

Lemma basic_meter_accounts_exactly_witness :
  exists i rest,
    BasicGasMeter.gas_info
      (BasicGasMeter.run [BasicGasMeter.Charge [3; 4]; BasicGasMeter.Charge [500; 0];
                          BasicGasMeter.ChargeLinear [1; 2] 5]
        (BasicGasMeter.new_with_funds_and_gas 1000 [100; 100] [2; 3])) = Some i /\
    BasicGasMeter.remaining_funds
      (BasicGasMeter.run [BasicGasMeter.Charge [3; 4]; BasicGasMeter.Charge [500; 0];
                          BasicGasMeter.ChargeLinear [1; 2] 5]
        (BasicGasMeter.new_with_funds_and_gas 1000 [100; 100] [2; 3])) = Some rest /\
    rest + BasicGasMeter.gas_value i = 1000.
Proof.
  apply (basic_meter_accounts_exactly 2 1000 [100; 100] [2; 3]
    [BasicGasMeter.Charge [3; 4]; BasicGasMeter.Charge [500; 0];
     BasicGasMeter.ChargeLinear [1; 2] 5]).
  - reflexivity.
  - repeat constructor.
Defined.

(** The preferred sequencer cannot exhaust a slot.  The meter of a slot is
    built without a panic, and after any sequence of charges by the preferred
    sequencer at least the reserve (the slot gas minus nine tenths of it,
    rounded in the reserve's favour) is left in every dimension for the other
    sequencers. *)
Theorem slot_gas_reserved_for_others {DaAddress : Type} `{EqDecision DaAddress}
    (gas : list N) (s : DaAddress) (cs : list (list N * DaAddress))
    (Hgas : Forall (fun g => g <= u64_max) gas)
    (Hcs : Forall (fun c => length c.1 = length gas /\ c.2 = s) cs) :
  exists m, SlotGasMeter.new gas (Some s) = Some m /\
    GasArray.dim_is_less_or_eq (SlotGasMeterFacts.reserve gas)
      (SlotGasMeter.remaining_total_slot_gas (SlotGasMeter.run cs m)) = true.
Proof.
  rewrite SlotGasMeterFacts.new_run by done. eexists; split; [done|].
  destruct (SlotGasMeterFacts.run_preferred_split (SlotGasMeterFacts.reserve gas) cs
    (SlotGasMeter.mk (Some s) gas (SlotGasMeterFacts.pref_share gas) gas) s)
    as [Hl ->]; [done|apply SlotGasMeterFacts.new_split| |].
  - unfold SlotGasMeterFacts.reserve. by rewrite length_map.
  - by apply SlotGasMeterFacts.dim_le_add.
Qed.

Lemma slot_gas_reserved_for_others_witness :
  exists m, SlotGasMeter.new [100; 205] (Some 7) = Some m /\
    GasArray.dim_is_less_or_eq (SlotGasMeterFacts.reserve [100; 205])
      (SlotGasMeter.remaining_total_slot_gas
        (SlotGasMeter.run [([50; 90], 7); ([50; 90], 7); ([40; 10], 7)] m)) = true.
Proof.
  apply (slot_gas_reserved_for_others [100; 205] 7
    [([50; 90], 7); ([50; 90], 7); ([40; 10], 7)]).
  - repeat constructor; discriminate.
  - repeat constructor.
Defined.

(** The limb computation of a fee in basis points is the exact fee
    [f * q / 10000] or one unit below it, it never exceeds the exact fee, and
    it reports an overflow only when the exact fee does not fit a [u128]. *)
Theorem priority_fee_limbs_exact_up_to_one (f q : N)
    (Hf : f <= u64_max) (Hq : q <= u128_max) :
  match PriorityFeeBips.apply f q with
  | Some v => v <= f * q / 10000 /\ f * q / 10000 <= v + 1 /\ v <= u128_max
  | None => u128_max < f * q / 10000
  end.
Proof. by apply FeeFacts.limbs_close. Qed.

(** At 33% of 2^64 + 9 the limb computation is one unit below the exact fee. *)
Lemma priority_fee_limbs_exact_up_to_one_witness :
  PriorityFeeBips.apply 3300 (2 ^ 64 + 9) = Some (3300 * (2 ^ 64 + 9) / 10000 - 1) /\
  match PriorityFeeBips.apply 3300 (2 ^ 64 + 9) with
  | Some v => v <= 3300 * (2 ^ 64 + 9) / 10000 /\ 3300 * (2 ^ 64 + 9) / 10000 <= v + 1
              /\ v <= u128_max
  | None => u128_max < 3300 * (2 ^ 64 + 9) / 10000
  end.
Proof.
  split; [vm_compute; reflexivity|].
  apply (priority_fee_limbs_exact_up_to_one 3300 (2 ^ 64 + 9)); vm_compute; discriminate.
Defined.

(** Applying a burn rate accepted by [try_from_u8] never panics, never pays
    out more than the amount, and keeps [100 - rate] percent of it up to one
    unit. *)
Theorem burn_rate_apply_total (value rate amount : N)
    (Hrate : BurnRate.try_from_u8 value = Some rate) (Ha : amount <= u128_max) :
  exists v, BurnRate.apply rate amount = Some v /\ v <= amount /\
    v <= (100 - rate) * amount / 100 <= v + 1.
Proof.
  unfold BurnRate.try_from_u8 in Hrate.
  destruct (N.ltb_spec 100 value); [done|]. simplify_eq.
  unfold BurnRate.apply. rewrite FeeFacts.from_percentage_small by lia.
  pose proof (FeeFacts.limbs_close ((100 - rate) * 100) amount) as Hc.
  assert ((100 - rate) * 100 * amount / 10000 = (100 - rate) * amount / 100) as Heq.
  { replace ((100 - rate) * 100 * amount) with ((100 - rate) * amount * 100) by lia.
    by rewrite (N.Div0.div_mul_cancel_r _ 100 100) by lia. }
  rewrite Heq in Hc.
  assert ((100 - rate) * amount / 100 <= amount) as Hle.
  { apply N.Div0.div_le_upper_bound. nia. }
  unfold PriorityFeeBips.apply.
  revert Hc Hle. generalize ((100 - rate) * amount / 100). clear Heq. intros e Hc He.
  destruct (PriorityFeeBips.priority_fee_limbs _ amount) as [v|].
  - exists v. destruct Hc as (? & ? & ?); [unfold u64_max; lia|done|]. repeat split; lia.
  - exfalso. assert (u128_max < e); [|lia].
    apply Hc; [unfold u64_max; lia|done].
Qed.

Lemma burn_rate_apply_total_witness :
  exists v, BurnRate.apply 10 u128_max = Some v /\ v <= u128_max /\
    v <= (100 - 10) * u128_max / 100 <= v + 1.
Proof.
  apply (burn_rate_apply_total 10 10 u128_max); [reflexivity|vm_compute; discriminate].
Defined.

(** C37: fee conservation.  For every transaction, gas price, slot limit and
    sequence of charges, the consumption computed at the end of the transaction
    exists (no [expect] panics), and base fee value, tip and refund add up to
    exactly the [max_fee] that was reserved; the tip never exceeds the priority
    fee the sender agreed to. *)
Theorem transaction_fee_conserved (n : nat) (tx : TxDetails) (price limit : list N)
    (cs : list BasicGasMeter.charge)
    (Hlimit : length limit = n)
    (Htx : match gas_limit tx with Some l => length l = n | None => True end)
    (Hcs : Forall (BasicGasMeter.charge_dims n) cs)
    (Hbips : max_priority_fee_bips tx <= u64_max) (Hfee : max_fee tx <= u128_max) :
  exists c v,
    transaction_consumption (BasicGasMeter.run cs (tx_gas_meter tx price limit))
      (max_fee tx) (max_priority_fee_bips tx) = Some c /\
    base_fee_value c = Some v /\
    v + tc_priority_fee c + tc_remaining_funds c = max_fee tx /\
    tc_priority_fee c <= max_priority_fee_bips tx * v / 10000.
Proof.
  set (lim := match gas_limit tx with
    | Some l => GasArray.calculate_min l limit | None => limit end).
  assert (length lim = n) as Hlim.
  { unfold lim. destruct (gas_limit tx); [|done].
    unfold GasArray.calculate_min. rewrite length_zip_with. lia. }
  destruct (run_new_balanced n (max_fee tx) lim price cs Hlim Hcs)
    as (i & rest & Hi & _ & Hsum).
  unfold transaction_consumption, tx_gas_meter. fold lim. rewrite Hi.
  assert (GasArray.checked_value (BasicGasMeter.gas_used i) (BasicGasMeter.info_gas_price i)
          = Some (BasicGasMeter.gas_value i)) as Hv.
  { unfold BasicGasMeter.gas_info in Hi. repeat case_match; by simplify_eq/=. }
  destruct (FeeFacts.helper_split _ _ (max_fee tx) (max_priority_fee_bips tx) _ Hv)
    as (c & Hc & Hb & Hs & Ht); [lia|].
  exists c, (BasicGasMeter.gas_value i). split_and!; [done..|].
  apply (FeeFacts.tip_bound _ _ (max_fee tx)); [done|lia|done|done].
Qed.

Lemma transaction_fee_conserved_witness :
  exists c v,
    transaction_consumption
      (BasicGasMeter.run [BasicGasMeter.Charge [10; 20]]
        (tx_gas_meter (mkTxDetails 1000 500 (Some [40; 60]) 1) [2; 3] [100; 100]))
      500 1000 = Some c /\
    base_fee_value c = Some v /\
    v + tc_priority_fee c + tc_remaining_funds c = 500 /\
    tc_priority_fee c <= 1000 * v / 10000.
Proof.
  apply (transaction_fee_conserved 2 (mkTxDetails 1000 500 (Some [40; 60]) 1) [2; 3]
    [100; 100] [BasicGasMeter.Charge [10; 20]]);
    [reflexivity|reflexivity|repeat constructor|vm_compute; discriminate|vm_compute; discriminate].
Defined.
