(* ===== verification/GasPrice.v ===== *)
(** * The gas price (sov-chain-state/src/gas.rs)

    The update of the base fee of a slot after EIP-1559, for every dimension of
    gas, with the limb arithmetic that keeps the products inside [u128].  The
    constants of constants.toml and of [GasSpec] are the class [PriceConfig]; a
    function that may panic returns an [option]. *)

From Stdlib Require Import NArith Lia.
From stdpp Require Import base numbers option list.
From S2P Require Import Prelude Ints Gas.

Class PriceConfig : Type := {
  ELASTICITY_MULTIPLIER : N;
  BASE_FEE_MAX_CHANGE_DENOMINATOR : N;
  initial_gas_limit : list N;
  initial_base_fee_per_gas : list N
}.

(** [BlockGasInfo], runtime/capabilities/gas.rs *)
Module BlockGasInfo.
Record t : Type := mk {
  gas_limit : list N;
  gas_used : list N;
  base_fee_per_gas : list N
}.

(** [Gas::zero] with the dimensions of [like]. *)
Definition zero (like : list N) : list N := map (fun _ => 0) like.

Definition new (gas_limit base_fee_per_gas : list N) : t :=
  mk gas_limit (zero gas_limit) base_fee_per_gas.
Definition with_usage (gas_limit base_fee_per_gas gas_used : list N) : t :=
  mk gas_limit gas_used base_fee_per_gas.
Definition update_gas_used (self : t) (gas_used : list N) : t :=
  mk (gas_limit self) gas_used (base_fee_per_gas self).
End BlockGasInfo.

(** A ratio is a [u8] that is not zero. *)
Module NonZeroRatio.
Definition from_u8_unwrap (value : N) : option N := if value =? 0 then None else Some value.
Definition try_from (value : N) : option N := if value =? 0 then None else Some value.
Definition apply_div (self value : N) : option N := checked_div value self.
End NonZeroRatio.

Module GasPrice.
Section GasPrice.
Context {Cfg : PriceConfig}.

Definition config_base_fee_change_denominator : option N :=
  NonZeroRatio.from_u8_unwrap BASE_FEE_MAX_CHANGE_DENOMINATOR.
Definition config_elasticity_multiplier : option N :=
  NonZeroRatio.from_u8_unwrap ELASTICITY_MULTIPLIER.

Definition gas_target (gas_limit : list N) : option (list N) :=
  let? multiplier := config_elasticity_multiplier in
  Some (GasArray.scalar_division gas_limit multiplier).
Definition initial_gas_target : option (list N) := gas_target initial_gas_limit.

Definition abs_diff (a b : N) : N := if a <? b then b - a else a - b.

Definition compute_delta_limbs
    (gas_used_delta gas_target base_fee_per_gas base_fee_change_denominator : N) : option N :=
  let hi := N.shiftr base_fee_per_gas 64 in
  let lo := N.land base_fee_per_gas u64_max in
  let? divisor := checked_mul u128_max gas_target base_fee_change_denominator in
  let hi_mul := wrap u128_max (hi * gas_used_delta) in
  let? hi_res := checked_div hi_mul divisor in
  if u64_max <? hi_res then Some u128_max
  else
    let hi_rem := hi_mul mod divisor in
    let low_mul := wrap u128_max (lo * gas_used_delta) in
    let low_res := low_mul / divisor in
    Some (saturating_add u128_max
            (saturating_add u128_max (wrap u128_max (N.shiftl hi_res 64))
               (wrap u128_max (N.shiftl hi_rem 64) / divisor))
            low_res).

Definition compute_base_fee_per_gas_unidimensional (gas_limit gas_used base_fee_per_gas : N)
  : option N :=
  let? multiplier := config_elasticity_multiplier in
  let? gas_target := NonZeroRatio.apply_div multiplier gas_limit in
  let? denominator := config_base_fee_change_denominator in
  let? _ := checked_mul u64_max denominator gas_target in
  if gas_used =? gas_target then Some (N.max base_fee_per_gas 1)
  else
    let gas_used_delta := abs_diff gas_target gas_used in
    let? delta := compute_delta_limbs gas_used_delta gas_target base_fee_per_gas denominator in
    if gas_target <? gas_used
    then Some (Amount.saturating_add base_fee_per_gas (N.max delta 1))
    else Some (N.max (Amount.saturating_sub base_fee_per_gas delta) 1).

(** The zipped iteration over the three arrays. *)
Fixpoint update_prices (prices limits used : list N) : option (list N) :=
  match prices, limits, used with
  | p :: prices', l :: limits', u :: used' =>
      let? p := compute_base_fee_per_gas_unidimensional l u p in
      let? ps := update_prices prices' limits' used' in
      Some (p :: ps)
  | _, _, _ => Some prices
  end.

Definition compute_base_fee_update_for_slot (parent_gas_info : BlockGasInfo.t)
  : option (list N) :=
  update_prices (BlockGasInfo.base_fee_per_gas parent_gas_info)
    (BlockGasInfo.gas_limit parent_gas_info) (BlockGasInfo.gas_used parent_gas_info).

(** The loop: every slot after the first one counts as empty. *)
Definition next_gas_info (info : option BlockGasInfo.t) : option BlockGasInfo.t :=
  let? info := info in
  let? price := compute_base_fee_update_for_slot info in
  Some (BlockGasInfo.new initial_gas_limit price).

Definition compute_base_fee_per_gas (parent_gas_info : BlockGasInfo.t)
    (slots_since_last_update : N) : option (list N) :=
  let? info := N.iter slots_since_last_update next_gas_info (Some parent_gas_info) in
  Some (BlockGasInfo.base_fee_per_gas info).

(** ** What a sensible configuration is *)

(** The target of a limit, and that the assertion on it holds. *)
Definition target (limit : N) : N := limit / ELASTICITY_MULTIPLIER.

Definition limit_ok (limit : N) : Prop :=
  BASE_FEE_MAX_CHANGE_DENOMINATOR * target limit <= u64_max.

Definition price_config_ok : Prop :=
  1 <= ELASTICITY_MULTIPLIER <= u8_max /\ 1 <= BASE_FEE_MAX_CHANGE_DENOMINATOR <= u8_max /\
  Forall (fun l => 1 <= target l /\ limit_ok l) initial_gas_limit /\
  Forall (fun p => 1 <= p <= u128_max) initial_base_fee_per_gas /\
  length initial_base_fee_per_gas = length initial_gas_limit.

(** The change of the price that EIP-1559 prescribes, before rounding. *)
Definition exact_delta (price delta target : N) : N :=
  price * delta / (target * BASE_FEE_MAX_CHANGE_DENOMINATOR).
End GasPrice.
End GasPrice.

(** ** Lemmas *)
Module GasPriceFacts.
Import GasPrice.
Section Facts.
Context {Cfg : PriceConfig}.

Lemma div_bound (a b c : N) : c <> 0 -> a * b / (c * b) <= a / c.
Proof.
  intros Hc. destruct (N.eq_dec b 0) as [->|Hb].
  - rewrite !N.mul_0_r. apply N.le_0_l.
  - by rewrite N.Div0.div_mul_cancel_r.
Qed.

(** The limb computation, with the shifts and masks as arithmetic. *)
Lemma limbs_value delta T p D :
  T * D <> 0 -> T * D <= u64_max -> delta <= u64_max -> p <= u128_max ->
  compute_delta_limbs delta T p D = Some (
    let hm := p / 2^64 * delta in
    N.min (hm / (T * D) * 2^64 + (hm mod (T * D)) * 2^64 / (T * D) +
             (p mod 2^64) * delta / (T * D)) u128_max).
Proof.
  intros Hd0 Hd Hdelta Hp. unfold compute_delta_limbs, checked_mul, checked_div.
  destruct (FeeFacts.limbs_bound delta p Hdelta Hp) as [Hh Hl].
  rewrite FeeFacts.shiftr_64, FeeFacts.land_u64.
  set (d := T * D) in *.
  destruct (N.leb_spec d u128_max); [|unfold u64_max, u128_max in *; lia].
  rewrite (proj2 (N.eqb_neq d 0)) by done.
  rewrite !(wrap_id u128_max (_ * delta)) by done.
  set (hm := p / 2^64 * delta) in *. cbv zeta.
  pose proof (N.mod_lt hm d Hd0) as Hrem. rewrite !N.shiftl_mul_pow2.
  rewrite (wrap_id u128_max (hm mod d * _)) by (unfold u64_max, u128_max in *; lia).
  destruct (N.ltb_spec u64_max (hm / d)) as [Hbig|Hsmall]; f_equal.
  - symmetry. apply N.min_r.
    transitivity (hm / d * 2^64); [unfold u64_max, u128_max in *; lia|].
    rewrite <- N.add_assoc. apply N.le_add_r.
  - rewrite (wrap_id u128_max (hm / d * _)) by (unfold u64_max, u128_max in *; lia).
    unfold saturating_add. generalize (hm mod d * 2^64 / d), (p mod 2^64 * delta / d). lia.
Qed.

(** It is the exact quotient or one unit below, cut at [u128::MAX]. *)
Lemma limbs_close_delta delta T p :
  T * BASE_FEE_MAX_CHANGE_DENOMINATOR <> 0 -> T * BASE_FEE_MAX_CHANGE_DENOMINATOR <= u64_max ->
  delta <= u64_max -> p <= u128_max ->
  exists d, compute_delta_limbs delta T p BASE_FEE_MAX_CHANGE_DENOMINATOR = Some d /\
    d <= exact_delta p delta T /\ N.min (exact_delta p delta T) u128_max <= d + 1 /\
    d <= u128_max.
Proof.
  intros H0 Hd Hdelta Hp. rewrite limbs_value by done. eexists. split; [done|]. unfold exact_delta.
  set (d := T * BASE_FEE_MAX_CHANGE_DENOMINATOR) in *.
  rewrite (N.mul_comm p delta), (FeeFacts.fee_split d delta p) by done. cbv zeta.
  set (hm := p / 2^64 * delta).
  destruct (FeeFacts.div_add_floor d (hm mod d * 2^64) (p mod 2^64 * delta) H0) as [Hlo Hhi].
  revert Hlo Hhi. generalize ((hm mod d * 2 ^ 64 + p mod 2 ^ 64 * delta) / d).
  generalize (hm mod d * 2 ^ 64 / d), (p mod 2 ^ 64 * delta / d), (hm / d * 2^64). lia.
Qed.

(** Below 2^64 it is exact. *)
Lemma limbs_small delta T p D :
  T * D <> 0 -> T * D <= u64_max -> delta <= u64_max -> p < 2^64 ->
  compute_delta_limbs delta T p D = Some (p * delta / (T * D)).
Proof.
  intros H0 Hd Hdelta Hp. rewrite limbs_value by (done || unfold u128_max; lia). f_equal.
  rewrite (N.div_small p), (N.mod_small p) by done. cbv zeta.
  cbn [N.mul]. rewrite N.Div0.mod_0_l, N.mul_0_l, N.Div0.div_0_l, !N.add_0_l.
  apply N.min_l. apply N.Div0.div_le_upper_bound.
  unfold u64_max, u128_max in *. nia.
Qed.

(** *** One dimension *)

Section Configured.
Context (HE : 1 <= ELASTICITY_MULTIPLIER)
  (HD : 1 <= BASE_FEE_MAX_CHANGE_DENOMINATOR <= u8_max).

(** The branches of the update, the guards of the configuration discharged. *)
Lemma unidimensional_run limit used p :
  limit_ok limit ->
  compute_base_fee_per_gas_unidimensional limit used p =
  if used =? target limit then Some (N.max p 1)
  else
    let? d := compute_delta_limbs (abs_diff (target limit) used) (target limit) p
      BASE_FEE_MAX_CHANGE_DENOMINATOR in
    if target limit <? used then Some (Amount.saturating_add p (N.max d 1))
    else Some (N.max (p - d) 1).
Proof.
  intros Hok. unfold limit_ok in Hok. unfold compute_base_fee_per_gas_unidimensional, config_elasticity_multiplier,
    config_base_fee_change_denominator, NonZeroRatio.from_u8_unwrap, NonZeroRatio.apply_div,
    checked_div.
  assert (ELASTICITY_MULTIPLIER =? 0 = false) as HE0 by (apply N.eqb_neq; lia).
  assert (BASE_FEE_MAX_CHANGE_DENOMINATOR =? 0 = false) as HD0 by (apply N.eqb_neq; lia).
  apply N.leb_le in Hok. rewrite HE0. cbv beta iota. rewrite HE0, HD0. cbv beta iota.
  fold (target limit). unfold checked_mul at 1. by rewrite Hok.
Qed.

Lemma divisor_ok limit :
  limit_ok limit -> 1 <= target limit ->
  target limit * BASE_FEE_MAX_CHANGE_DENOMINATOR <> 0 /\
  target limit * BASE_FEE_MAX_CHANGE_DENOMINATOR <= u64_max.
Proof.
  unfold limit_ok. rewrite (N.mul_comm BASE_FEE_MAX_CHANGE_DENOMINATOR). intros Hok HT.
  split; [nia|done].
Qed.

Lemma delta_bound limit used :
  limit_ok limit -> used <= u64_max -> abs_diff (target limit) used <= u64_max.
Proof. unfold limit_ok, abs_diff. intros Hok Hu. destruct (N.ltb_spec (target limit) used); nia. Qed.

(** The new price of a dimension. *)
Definition price_step (limit used p p' : N) : Prop :=
  1 <= p' <= u128_max /\
  (used = target limit -> p' = N.max p 1) /\
  (target limit < used -> p < p' \/ p' = u128_max) /\
  (target limit < used ->
     p' <= p + N.max 1 (exact_delta p (used - target limit) (target limit))) /\
  (used < target limit -> 1 <= p -> p' <= p) /\
  (used < target limit -> p - exact_delta p (target limit - used) (target limit) <= p').

Lemma unidimensional_step limit used p :
  limit_ok limit -> used = target limit \/ 1 <= target limit -> used <= u64_max -> p <= u128_max ->
  exists p', compute_base_fee_per_gas_unidimensional limit used p = Some p' /\
    price_step limit used p p'.
Proof.
  intros Hok Ht Hu Hp. rewrite unidimensional_run by done.
  destruct (N.eqb_spec used (target limit)) as [->|Hne].
  { eexists. split; [done|]. unfold price_step. unfold u128_max in *. split_and!; intros; lia. }
  destruct Ht as [?|HT]; [done|]. destruct (divisor_ok limit Hok HT) as [H0 Hd].
  destruct (limbs_close_delta (abs_diff (target limit) used) (target limit) p H0 Hd
    (delta_bound limit used Hok Hu) Hp) as (d & -> & Hle & Hge & Hmax).
  unfold abs_diff, Amount.saturating_add, saturating_add in *.
  destruct (N.ltb_spec (target limit) used); eexists; (split; [done|]); unfold price_step;
    unfold u128_max in *; split_and!; intros; lia.
Qed.

(** An empty slot lowers the price until it is below the denominator. *)
Definition price_floor : N := N.max 1 (BASE_FEE_MAX_CHANGE_DENOMINATOR - 1).

Lemma empty_slot limit p :
  limit_ok limit -> 1 <= target limit -> 1 <= p <= u128_max ->
  exists p', compute_base_fee_per_gas_unidimensional limit 0 p = Some p' /\
    1 <= p' <= u128_max /\ p' <= N.max price_floor (p - 1).
Proof.
  intros Hok HT [Hp1 Hp]. destruct (divisor_ok limit Hok HT) as [H0 Hd].
  destruct (unidimensional_step limit 0 p) as (p' & Hrun & Hstep); [done|auto|done|done|].
  exists p'. split; [done|]. destruct Hstep as (Hb & _ & _ & _ & Hdown & _).
  specialize (Hdown ltac:(lia) Hp1). split; [done|].
  destruct (N.le_gt_cases BASE_FEE_MAX_CHANGE_DENOMINATOR p) as [Hbig|Hsmall];
    [|unfold price_floor; lia].
  enough (p' <= N.max 1 (p - 1)) by (unfold price_floor; lia).
  rewrite unidimensional_run in Hrun by done.
  destruct (N.eqb_spec 0 (target limit)); [lia|].
  unfold abs_diff in Hrun. destruct (N.ltb_spec (target limit) 0); [lia|]. rewrite N.sub_0_r in Hrun.
  assert (exists d, compute_delta_limbs (target limit) (target limit) p
    BASE_FEE_MAX_CHANGE_DENOMINATOR = Some d /\ 1 <= d) as (d & Hd' & Hd1);
    [|rewrite Hd' in Hrun; simplify_eq; lia].
  assert (target limit <= u64_max) as HTm by (unfold limit_ok in Hok; nia).
  destruct (N.le_gt_cases (2^64) p) as [Hhi|Hlo].
  - destruct (limbs_close_delta (target limit) (target limit) p H0 Hd HTm Hp)
      as (d & -> & _ & Hge & _). exists d. split; [done|].
    assert (2 <= exact_delta p (target limit) (target limit)).
    { unfold exact_delta. rewrite (N.mul_comm p), N.Div0.div_mul_cancel_l by lia.
      apply N.div_le_lower_bound; [lia|]. unfold u8_max in HD. lia. }
    unfold u128_max in Hge. lia.
  - rewrite limbs_small by done. eexists. split; [done|].
    rewrite (N.mul_comm p), N.Div0.div_mul_cancel_l by lia.
    apply N.div_le_lower_bound; lia.
Qed.

(** *** All dimensions *)

(** What the update of one dimension needs. *)
Definition dimension_ok (limit used : N) : Prop :=
  limit_ok limit /\ (used = target limit \/ 1 <= target limit) /\ used <= u64_max.

(** A gas info from which the next price can be computed. *)
Record info_ok (info : BlockGasInfo.t) : Prop := mkInfoOk {
  info_dimensions :
    Forall2 dimension_ok (BlockGasInfo.gas_limit info) (BlockGasInfo.gas_used info);
  info_prices : Forall (fun p => p <= u128_max) (BlockGasInfo.base_fee_per_gas info);
  info_length :
    length (BlockGasInfo.base_fee_per_gas info) = length (BlockGasInfo.gas_limit info)
}.

Lemma update_prices_run prices limits used :
  Forall2 dimension_ok limits used -> Forall (fun p => p <= u128_max) prices ->
  length prices = length limits ->
  exists ps, update_prices prices limits used = Some ps /\
    Forall2 (fun lu pq => price_step (fst lu) (snd lu) (fst pq) (snd pq))
      (zip limits used) (zip prices ps) /\
    length ps = length prices.
Proof.
  intros Hd. revert prices. induction Hd as [|l u limits used (Hl & Ht & Hu) Hd IH];
    intros [|p prices] Hp Hlen; try done; cbn; [by exists []|].
  apply Forall_cons in Hp as [Hp Hps]. injection Hlen as Hlen.
  destruct (unidimensional_step l u p) as (p' & -> & Hs); [done..|].
  destruct (IH prices Hps Hlen) as (ps & -> & Hf & Hl').
  exists (p' :: ps). split; [done|]. cbn. split; [by constructor|by rewrite Hl'].
Qed.

Context (Hcfg : price_config_ok).

Lemma initial_dimensions :
  Forall2 dimension_ok initial_gas_limit (BlockGasInfo.zero initial_gas_limit).
Proof.
  destruct Hcfg as (_ & _ & Hl & _). unfold BlockGasInfo.zero.
  induction Hl as [|l ls [Ht Hok] Hl IH]; cbn; constructor; [|done].
  split_and!; [done|by right|done].
Qed.

Lemma new_info_ok prices :
  Forall (fun p => p <= u128_max) prices -> length prices = length initial_gas_limit ->
  info_ok (BlockGasInfo.new initial_gas_limit prices).
Proof. intros Hp Hl. split; [apply initial_dimensions|done|done]. Qed.

Lemma zip_step_bounds limits used prices ps :
  Forall2 (fun lu pq => price_step (fst lu) (snd lu) (fst pq) (snd pq))
    (zip limits used) (zip prices ps) ->
  length ps = length prices ->
  Forall (fun p => 1 <= p <= u128_max) ps.
Proof.
  revert prices limits used. induction ps as [|p' ps IH]; intros [|p prices] [|l limits] [|u used];
    cbn; intros Hf Hlen; try done; inversion Hf; subst; constructor.
  - match goal with H : price_step _ _ _ _ |- _ => apply H end.
  - eapply IH; [done|]. by injection Hlen.
Qed.

Lemma next_info info :
  info_ok info -> length (BlockGasInfo.gas_limit info) = length initial_gas_limit ->
  exists ps, next_gas_info (Some info) = Some (BlockGasInfo.new initial_gas_limit ps) /\
    Forall (fun p => 1 <= p <= u128_max) ps /\ length ps = length initial_gas_limit.
Proof.
  intros [Hd Hp Hl] Hlen. unfold next_gas_info, compute_base_fee_update_for_slot.
  destruct (update_prices_run _ _ _ Hd Hp Hl) as (ps & -> & Hf & Hlp).
  exists ps. split; [done|]. split; [by eapply zip_step_bounds|]. congruence.
Qed.

Definition prices_ok (ps : list N) : Prop :=
  Forall (fun p => 1 <= p <= u128_max) ps /\ length ps = length initial_gas_limit.

Lemma prices_ok_info ps : prices_ok ps -> info_ok (BlockGasInfo.new initial_gas_limit ps).
Proof.
  intros [Hp Hl]. apply new_info_ok; [|done]. eapply Forall_impl; [done|]. by intros p [].
Qed.

(** The price after any number of slots. *)
Lemma compute_base_fee_ok info n :
  info_ok info -> length (BlockGasInfo.gas_limit info) = length initial_gas_limit ->
  1 <= n -> exists ps, compute_base_fee_per_gas info n = Some ps /\ prices_ok ps.
Proof.
  intros Hinfo Hlen Hn. unfold compute_base_fee_per_gas.
  enough (forall k, exists ps, N.iter (N.succ k) next_gas_info (Some info) =
    Some (BlockGasInfo.new initial_gas_limit ps) /\ prices_ok ps) as Hiter.
  { destruct (Hiter (N.pred n)) as (ps & Hps & Hok). rewrite N.succ_pred in Hps by lia.
    rewrite Hps. by exists ps. }
  induction k as [|k (ps & Hps & Hok)] using N.peano_ind.
  - cbn. by apply next_info.
  - rewrite N.iter_succ, Hps. apply next_info; [by apply prices_ok_info|done].
Qed.

Lemma update_prices_empty limits prices :
  Forall (fun l => 1 <= target l /\ limit_ok l) limits ->
  Forall (fun p => 1 <= p <= u128_max) prices ->
  length prices = length limits ->
  exists ps, update_prices prices limits (BlockGasInfo.zero limits) = Some ps /\
    Forall2 (fun p q => (1 <= q <= u128_max) /\ q <= N.max price_floor (p - 1)) prices ps.
Proof.
  intros Hl. revert prices. induction Hl as [|l limits [Ht Hok] Hl IH];
    intros [|p prices] Hp Hlen; try done; cbn; [exists []; by split|].
  apply Forall_cons in Hp as [Hp Hps]. injection Hlen as Hlen.
  destruct (empty_slot l p Hok Ht Hp) as (p' & -> & Hb & Hq).
  destruct (IH prices Hps Hlen) as (ps & Hrun & Hf). unfold BlockGasInfo.zero in Hrun.
  rewrite Hrun. exists (p' :: ps). split; [done|]. by constructor.
Qed.

(** Empty slots bring the price down to the floor. *)
Lemma empty_slots_decay prices n :
  prices_ok prices ->
  exists ps, compute_base_fee_per_gas (BlockGasInfo.new initial_gas_limit prices) n = Some ps /\
    Forall2 (fun p q => (1 <= q <= u128_max) /\ q <= N.max price_floor (p - n)) prices ps.
Proof.
  intros [Hp Hlen]. destruct Hcfg as (_ & _ & Hl & _). unfold compute_base_fee_per_gas.
  enough (exists ps, N.iter n next_gas_info (Some (BlockGasInfo.new initial_gas_limit prices)) =
    Some (BlockGasInfo.new initial_gas_limit ps) /\
    Forall2 (fun p q => (1 <= q <= u128_max) /\ q <= N.max price_floor (p - n)) prices ps)
    as (ps & -> & Hf) by by exists ps.
  induction n as [|n (ps & Hps & Hf)] using N.peano_ind.
  - exists prices. split; [done|]. clear Hlen. induction Hp; constructor; [|done]. split; [done|lia].
  - rewrite N.iter_succ, Hps. cbn. unfold compute_base_fee_update_for_slot. cbn.
    destruct (update_prices_empty initial_gas_limit ps Hl) as (qs & -> & Hq).
    { apply Forall_forall. intros q Hq. apply list_elem_of_lookup in Hq as [i Hq].
      destruct (Forall2_lookup_r _ _ _ _ _ Hf Hq) as (p & _ & Hb & _). done. }
    { by rewrite <- (Forall2_length _ _ _ Hf). }
    exists qs. split; [done|]. clear Hp Hlen Hps. revert qs Hq.
    induction Hf as [|p q prices ps [_ Hle] Hf IH]; intros qs Hq; inversion Hq; subst; constructor.
    + match goal with H : (_ <= _ <= _) /\ _ |- _ => destruct H end. split; [done|]. lia.
    + by apply IH.
Qed.
End Configured.
End Facts.
End GasPriceFacts.

(** ** Properties *)
Module GasPriceProperties.
Import GasPrice GasPriceFacts.

(** The constants of the demo rollup: EIP-1559's multiplier and denominator and
    two dimensions of gas. *)
#[local] Instance demo_prices : PriceConfig := {|
  ELASTICITY_MULTIPLIER := 2;
  BASE_FEE_MAX_CHANGE_DENOMINATOR := 8;
  initial_gas_limit := [10000; 500];
  initial_base_fee_per_gas := [10; 20]
|}.

Lemma demo_prices_ok : price_config_ok.
Proof. unfold price_config_ok. split_and!; repeat constructor; by vm_compute. Qed.

Section Properties.
Context {Cfg : PriceConfig}.

(** The limb arithmetic of the price change agrees with the exact quotient
    [price * delta / (target * denominator)] up to one unit below, never exceeds
    it, and saturates at [u128::MAX] when the quotient does not fit. *)
Theorem base_fee_delta_exact delta T price
    (Hpos : T * BASE_FEE_MAX_CHANGE_DENOMINATOR <> 0)
    (Hdiv : T * BASE_FEE_MAX_CHANGE_DENOMINATOR <= u64_max)
    (Hdelta : delta <= u64_max) (Hprice : price <= u128_max) :
  exists d, compute_delta_limbs delta T price BASE_FEE_MAX_CHANGE_DENOMINATOR = Some d /\
    d <= exact_delta price delta T /\
    N.min (exact_delta price delta T) u128_max <= d + 1 /\ d <= u128_max.
Proof. by apply limbs_close_delta. Qed.

(** The update of the price of one dimension of gas does not panic for a
    positive target and gives a price of at least 1.  On target the price stays;
    above it the price rises, by at least 1 and at most by the EIP-1559 change,
    unless it is at [u128::MAX]; below it the price does not rise and falls at
    most by the EIP-1559 change, which is at most the fraction
    [1 / BASE_FEE_MAX_CHANGE_DENOMINATOR]. *)
Theorem base_fee_update_exact limit used price
    (Hcfg : price_config_ok) (Hok : limit_ok limit) (Ht : 1 <= target limit)
    (Hused : used <= u64_max) (Hprice : 1 <= price <= u128_max) :
  exists price', compute_base_fee_per_gas_unidimensional limit used price = Some price' /\
    1 <= price' <= u128_max /\
    (used = target limit -> price' = price) /\
    (target limit < used -> price < price' \/ price' = u128_max) /\
    (target limit < used ->
       price' <= price + N.max 1 (exact_delta price (used - target limit) (target limit))) /\
    (used < target limit ->
       price - price / BASE_FEE_MAX_CHANGE_DENOMINATOR <= price' <= price).
Proof.
  destruct Hcfg as ([HE _] & HD & _).
  destruct (unidimensional_step HE HD limit used price) as (p & Hrun & Hs); [done|by right|done|lia|].
  destruct Hs as (Hb & Heq & Hup & Hup' & Hdown & Hdown'). exists p.
  split_and!; [done|lia|lia| |done|done|].
  - intros ->. rewrite Heq by done. lia.
  - intros Hlt. specialize (Hdown Hlt). specialize (Hdown' Hlt). split; [|lia].
    etransitivity; [|exact Hdown']. apply N.sub_le_mono_l. unfold exact_delta.
    transitivity (price * target limit / (target limit * BASE_FEE_MAX_CHANGE_DENOMINATOR)).
    + apply N.Div0.div_le_mono. nia.
    + rewrite (N.mul_comm (target limit)). apply div_bound. lia.
Qed.

(** The price always comes back down.  In any dimension, after as many empty
    slots as the price has units it is below the denominator of the price change
    (or 1), and it stays there however many empty slots follow; it never reaches
    0. *)
Theorem base_fee_settles (prices : list N) (n : N)
    (Hcfg : price_config_ok) (Hp : Forall (fun p => 1 <= p <= u128_max) prices)
    (Hl : length prices = length initial_gas_limit) (Hn : Forall (fun p => p <= n) prices) :
  exists ps, compute_base_fee_per_gas (BlockGasInfo.new initial_gas_limit prices) n = Some ps /\
    length ps = length prices /\
    Forall (fun q => 1 <= q <= N.max 1 (BASE_FEE_MAX_CHANGE_DENOMINATOR - 1)) ps.
Proof.
  pose proof Hcfg as ([HE _] & HD & _).
  destruct (empty_slots_decay HE HD Hcfg prices n) as (ps & Hrun & Hf); [done|].
  exists ps. split_and!; [done|by rewrite (Forall2_length _ _ _ Hf)|].
  clear Hp Hl Hrun. revert Hn. induction Hf as [|p q prices ps [Hb Hle] Hf IH]; intros Hn; [done|].
  apply Forall_cons in Hn as [Hpn Hn]. constructor; [|by apply IH]. unfold price_floor in Hle. lia.
Qed.
End Properties.

(** A price of 2^100 with a slot twice over the target. *)
Lemma base_fee_delta_exact_witness :
  exists d, compute_delta_limbs 5000 5000 (2 ^ 100) 8 = Some d /\
    d <= exact_delta (2 ^ 100) 5000 5000 /\
    N.min (exact_delta (2 ^ 100) 5000 5000) u128_max <= d + 1 /\ d <= u128_max.
Proof. apply (base_fee_delta_exact (Cfg := demo_prices) 5000 5000 (2 ^ 100)); vm_compute; congruence. Defined.

Lemma base_fee_update_exact_witness :
  exists price', compute_base_fee_per_gas_unidimensional 10000 2500 800 = Some price' /\
    (1 <= price' <= u128_max) /\ 800 - 800 / 8 <= price' <= 800.
Proof.
  destruct (base_fee_update_exact (Cfg := demo_prices) 10000 2500 800) as (p & Hrun & Hb & _ & _ & _ & Hdown);
    [exact demo_prices_ok|vm_compute; congruence..|split; vm_compute; congruence|].
  exists p. split; [exact Hrun|]. split; [exact Hb|]. apply Hdown. vm_compute. reflexivity.
Defined.

Lemma base_fee_settles_witness :
  exists ps, compute_base_fee_per_gas (BlockGasInfo.new [10000; 500] [30; 12]) 40 = Some ps /\
    length ps = 2%nat /\ Forall (fun q => 1 <= q <= 7) ps.
Proof.
  apply (base_fee_settles (Cfg := demo_prices) [30; 12] 40 demo_prices_ok).
  - repeat constructor; by vm_compute.
  - reflexivity.
  - repeat constructor; by vm_compute.
Defined.
End GasPriceProperties.
