(* ===== verification/StateAccess.v ===== *)
(** * State accessors: metered access to module state

    A module reads and writes its [StateMap]s and [StateValue]s through a state
    accessor, which couples a gas meter with the storage.  This file models
    - [GasMeter]: the trait of gas/traits.rs, with two implementations,
      [BasicGasMeter] (transactions) and the no-op meter of accessors that do
      not charge ([TxScratchpad], [StateCheckpoint], kernel and genesis
      accessors);
    - the charges of state/traits.rs ([charge_storage_access], [charge_read],
      [charge_write]) and the accesses built on them ([get_inner], [set_inner],
      [delete_inner], [get_decoded], [remove_decoded]);
    - [StateMap] and [StateValue] of containers/map.rs and containers/value.rs;
    - [MeteredHasher] of gas/metered_utils.rs.

    A state item is a lens into the state of its module, because slot keys are
    prefixed by the item's unique prefix.  The byte sizes that the codec gives
    to keys and values are a parameter ([Codec]): the codec is not part of the
    repository.  The metrics the accessors record are left out.

    [wp] is a weakest precondition for programs over an accessor; its rules
    carry the proofs about modules.  [can_fail] says whether the accessor's
    meter may refuse a charge, so that one proof serves both kinds of
    accessor. *)

From stdpp Require Import base numbers list gmap strings option.
From Stdlib Require Import NArith Lia.
From S2P Require Import Prelude Ints Gas.

(** ** The specification of a rollup: its address types, hash function, gas
    constants and codec are parameters of every module. *)

(** Gas constants, [GasSpec] *)
Record GasConstants : Type := mkGasConstants {
  bias_to_charge_for_access : list N;
  gas_to_charge_hash_update : list N;
  gas_to_charge_per_byte_hash_update : list N;
  bias_to_charge_for_read : list N;
  gas_to_charge_per_byte_read : list N;
  gas_to_charge_per_byte_borsh_deserialization : list N;
  bias_to_charge_storage_update : list N;
  gas_to_charge_per_byte_storage_update : list N
}.

(** The byte sizes of encoded keys and values, by the prefix of the item.  No
    encoded key reaches 4 GiB. *)
Record Codec : Type := mkCodec {
  key_size : string -> forall K : Type, K -> N;
  value_size : string -> forall V : Type, V -> N;
  key_size_u32 : forall p K k, key_size p K k <= u32_max
}.

(** [sov_modules_api::Spec] *)
Class Spec : Type := {
  Address : Type;
  DaAddress : Type;
  Address_eq_dec :: EqDecision Address;
  Address_countable :: Countable Address;
  DaAddress_eq_dec :: EqDecision DaAddress;
  DaAddress_countable :: Countable DaAddress;
  address_as_ref : Address -> list N;
  hasher : list N -> list N;
  gas_constants : GasConstants;
  codec : Codec;
  config_gas_token_id : list N
}.

(** [ExecutionContext], rollup-interface, and [SequencerType], common/mod.rs *)
Inductive ExecutionContext : Type := SequencerWarmUp | Sequencer | Node.

Inductive SequencerType : Type := Preferred | NonPreferred.

(** [Context], module/spec.rs, without the credentials of the sender. *)
Record Context {Sp : Spec} : Type := mkContext {
  sender : Address;
  sequencer : Address;
  sequencer_da_address : DaAddress;
  sequencing_data : option (list N);
  gas_refund_recipient : Address;
  execution_context : ExecutionContext;
  sequencer_type : SequencerType
}.
Arguments Context : clear implicits.

(** ** Gas meters *)

(** The [GasMeter] trait. *)
Class GasMeter (G : Type) : Type := {
  charge_gas : list N -> M G GasMeteringError unit;
  charge_linear_gas : list N -> N -> M G GasMeteringError unit
}.

(** What a meter promises to its clients: a charge never panics and keeps the
    meter well formed, and only a meter that [can_fail] refuses a charge. *)
Class GasMeterLaws (G : Type) `{GasMeter G} : Type := {
  meter_wf : G -> Prop;
  can_fail : Prop;
  charge_gas_law : forall g amount, meter_wf g ->
    exists o g', charge_gas amount g = (o, g') /\ meter_wf g' /\
      match o with Ok _ => True | Err _ => can_fail | Panic => False end;
  charge_linear_gas_law : forall g amount p, meter_wf g ->
    exists o g', charge_linear_gas amount p g = (o, g') /\ meter_wf g' /\
      match o with Ok _ => True | Err _ => can_fail | Panic => False end
}.

#[export] Instance basic_gas_meter : GasMeter BasicGasMeter.t := {
  charge_gas := BasicGasMeter.charge_gas;
  charge_linear_gas := BasicGasMeter.charge_linear_gas
}.

(** The default methods of the trait: accessors that do not charge. *)
#[export] Instance unmetered : GasMeter unit := {
  charge_gas := fun _ => ret tt;
  charge_linear_gas := fun _ _ => ret tt
}.

(** ** Accessors *)

Record acc (G S : Type) : Type := Acc { meter : G; store : S }.
Arguments Acc {G S} meter store.
Arguments meter {G S} a.
Arguments store {G S} a.

Inductive Namespace : Type := User | Kernel | Accessory.

(** [StateAccessorError]; the slot key is left out. *)
Inductive StateAccessorError : Type :=
| GetError (inner : GasMeteringError) (namespace : Namespace)
| SetError (inner : GasMeteringError) (namespace : Namespace)
| DecodeError (inner : GasMeteringError) (namespace : Namespace)
| DeleteError (inner : GasMeteringError) (namespace : Namespace).

(** [CoreModuleError], common/error.rs.  The only errors that modules convert
    into [Generic] are metering errors. *)
Inductive CoreModuleError : Type :=
| Generic (e : GasMeteringError)
| StateRead (e : StateAccessorError)
| StateWrite (e : StateAccessorError).

(** A [StateMap] and a [StateValue] of a module whose state is [S]. *)
Record StateMap (S K V : Type) `{Countable K} : Type := mkStateMap {
  map_prefix : string;
  map_namespace : Namespace;
  map_read : S -> gmap K V;
  map_write : gmap K V -> S -> S
}.
Arguments mkStateMap {S K V _ _} map_prefix map_namespace map_read map_write.
Arguments map_prefix {S K V _ _} _.
Arguments map_namespace {S K V _ _} _.
Arguments map_read {S K V _ _} _ _.
Arguments map_write {S K V _ _} _ _ _.

Record StateValue (S V : Type) : Type := mkStateValue {
  val_prefix : string;
  val_namespace : Namespace;
  val_read : S -> option V;
  val_write : option V -> S -> S
}.
Arguments mkStateValue {S V} val_prefix val_namespace val_read val_write.
Arguments val_prefix {S V} _.
Arguments val_namespace {S V} _.
Arguments val_read {S V} _ _.
Arguments val_write {S V} _ _ _.

Section Accessors.
Context {Sp : Spec} {G : Type} `{GasMeter G}.

(** Access to the two halves of an accessor. *)
Definition on_meter {S E A} (m : M G E A) : M (acc G S) E A :=
  fun a => let '(o, g) := m (meter a) in (o, Acc g (store a)).

Definition gets {S E A} (f : S -> A) : M (acc G S) E A :=
  fun a => (Ok (f (store a)), a).

Definition modify {S E} (f : S -> S) : M (acc G S) E unit :=
  fun a => (Ok tt, Acc (meter a) (f (store a))).

(** A function of one module called by another: its accessor is the same and
    its state is a part of the caller's. *)
Definition zoom {S T E A} (get : S -> T) (put : T -> S -> S) (m : M (acc G T) E A)
  : M (acc G S) E A :=
  fun a =>
    let '(o, a') := m (Acc (meter a) (get (store a))) in
    (o, Acc (meter a') (put (store a') (store a))).

Definition charge_storage_access {S} (key_len : N) : M (acc G S) GasMeteringError unit :=
  on_meter (charge_gas (bias_to_charge_for_access gas_constants)) ;;;
  on_meter (charge_gas (gas_to_charge_hash_update gas_constants)) ;;;
  ensure (key_len <=? u32_max) Overflow ;;;
  if 0 <? key_len
  then on_meter (charge_linear_gas (gas_to_charge_per_byte_hash_update gas_constants) key_len)
  else ret tt.

(** [get_size] gives the size of the stored value. *)
Definition charge_read {S} (key_len : N) (get_size : S -> option N)
  : M (acc G S) GasMeteringError unit :=
  charge_storage_access key_len ;;;
  on_meter (charge_gas (bias_to_charge_for_read gas_constants)) ;;;
  let! value_size := gets get_size in
  match value_size with
  | None | Some 0 => ret tt
  | Some value_size =>
      on_meter (charge_linear_gas (gas_to_charge_per_byte_read gas_constants) value_size) ;;;
      on_meter (charge_gas (gas_to_charge_hash_update gas_constants)) ;;;
      on_meter (charge_linear_gas (gas_to_charge_per_byte_hash_update gas_constants) value_size)
  end.

Definition charge_write {S} (key_len value_size : N) : M (acc G S) GasMeteringError unit :=
  charge_storage_access key_len ;;;
  on_meter (charge_gas (bias_to_charge_storage_update gas_constants)) ;;;
  on_meter (charge_linear_gas (gas_to_charge_per_byte_storage_update gas_constants) value_size) ;;;
  on_meter (charge_gas (gas_to_charge_hash_update gas_constants)) ;;;
  on_meter (charge_linear_gas (gas_to_charge_per_byte_hash_update gas_constants) value_size).

(** A slot: how the item at one key is read from and written to the state. *)
Record slot (S V : Type) : Type := mkSlot {
  slot_key_len : N;
  slot_namespace : Namespace;
  slot_size : V -> N;
  slot_read : S -> option V;
  slot_write : option V -> S -> S
}.
#[global] Arguments mkSlot {S V} slot_key_len slot_namespace slot_size slot_read slot_write.
#[global] Arguments slot_key_len {S V} _.
#[global] Arguments slot_namespace {S V} _.
#[global] Arguments slot_size {S V} _ _.
#[global] Arguments slot_read {S V} _ _.
#[global] Arguments slot_write {S V} _ _ _.

Definition get_inner {S V} (k : slot S V) : M (acc G S) GasMeteringError (option V) :=
  charge_read (slot_key_len k) (fun s => option_map (slot_size k) (slot_read k s)) ;;;
  gets (slot_read k).

Definition set_inner {S V} (k : slot S V) (v : V) : M (acc G S) GasMeteringError unit :=
  charge_write (slot_key_len k) (slot_size k v) ;;;
  modify (slot_write k (Some v)).

Definition delete_inner {S V} (k : slot S V) : M (acc G S) GasMeteringError unit :=
  charge_write (slot_key_len k) 0 ;;;
  modify (slot_write k None).

(** [StateReader::get_decoded]: a value that is present is also charged for its
    deserialization. *)
Definition get_decoded {S V} (k : slot S V) : M (acc G S) StateAccessorError (option V) :=
  let! storage_value :=
    map_err (fun e => GetError e (slot_namespace k)) (get_inner k) in
  match storage_value with
  | None => ret None
  | Some v =>
      map_err (fun e => DecodeError e (slot_namespace k))
        (on_meter (charge_linear_gas
           (gas_to_charge_per_byte_borsh_deserialization gas_constants) (slot_size k v))) ;;;
      ret (Some v)
  end.

Definition writer_set {S V} (k : slot S V) (v : V) : M (acc G S) StateAccessorError unit :=
  map_err (fun e => SetError e (slot_namespace k)) (set_inner k v).

Definition writer_delete {S V} (k : slot S V) : M (acc G S) StateAccessorError unit :=
  map_err (fun e => DeleteError e (slot_namespace k)) (delete_inner k).

Definition remove_decoded {S V} (k : slot S V) : M (acc G S) StateAccessorError (option V) :=
  let! value := get_decoded k in
  writer_delete k ;;;
  ret value.

(** ** State maps *)
Section Maps.
Context {S K V : Type} `{Countable K}.
Implicit Types (m : StateMap S K V) (k : K) (v : V).

Definition map_slot m k : slot S V :=
  mkSlot (key_size codec (map_prefix m) K k) (map_namespace m)
    (value_size codec (map_prefix m) V)
    (fun s => map_read m s !! k)
    (fun o s => map_write m (partial_alter (fun _ => o) k (map_read m s)) s).

Definition map_get m k : M (acc G S) StateAccessorError (option V) :=
  get_decoded (map_slot m k).

Definition map_set m k v : M (acc G S) StateAccessorError unit :=
  writer_set (map_slot m k) v.

Definition map_set_if_absent m k v : M (acc G S) StateAccessorError unit :=
  let! cur := get_decoded (map_slot m k) in
  match cur with
  | None => map_set m k v
  | Some _ => ret tt
  end.

Definition map_remove m k : M (acc G S) StateAccessorError (option V) :=
  remove_decoded (map_slot m k).

Definition map_delete m k : M (acc G S) StateAccessorError unit :=
  writer_delete (map_slot m k).
End Maps.

(** ** State values *)
Section Values.
Context {S V : Type}.
Implicit Types (m : StateValue S V) (v : V).

Definition value_slot m : slot S V :=
  mkSlot (key_size codec (val_prefix m) unit tt) (val_namespace m)
    (value_size codec (val_prefix m) V) (val_read m) (val_write m).

Definition value_get m : M (acc G S) StateAccessorError (option V) :=
  get_decoded (value_slot m).

Definition value_set m v : M (acc G S) StateAccessorError unit :=
  writer_set (value_slot m) v.

Definition value_delete m : M (acc G S) StateAccessorError unit :=
  writer_delete (value_slot m).
End Values.

(** ** [MeteredHasher]: the bytes hashed so far, with the charges of each
    update. *)
Definition hasher_update {S} (inner data : list N) : M (acc G S) GasMeteringError (list N) :=
  on_meter (charge_gas (gas_to_charge_hash_update gas_constants)) ;;;
  ensure (N.of_nat (length data) <=? u32_max) Overflow ;;;
  on_meter (charge_linear_gas (gas_to_charge_per_byte_hash_update gas_constants)
              (N.of_nat (length data))) ;;;
  ret (inner ++ data).

Definition hasher_finalize (inner : list N) : list N := hasher inner.
End Accessors.

(** ** Meters: the laws *)

#[export] Instance basic_gas_meter_laws : GasMeterLaws BasicGasMeter.t.
Proof.
  refine {| meter_wf := BasicGasMeter.wf; can_fail := True |}.
  - intros g amount Hg.
    destruct (BasicGasMeterFacts.do_charge_wf (BasicGasMeter.Charge amount) g Hg) as [Hw Hp].
    cbn in *. destruct (BasicGasMeter.charge_gas amount g) as [o g'].
    exists o, g'. split_and!; [done|done|by destruct o].
  - intros g amount p Hg.
    destruct (BasicGasMeterFacts.do_charge_wf (BasicGasMeter.ChargeLinear amount p) g Hg)
      as [Hw Hp].
    cbn in *. destruct (BasicGasMeter.charge_linear_gas amount p g) as [o g'].
    exists o, g'. split_and!; [done|done|by destruct o].
Defined.

#[export] Instance unmetered_laws : GasMeterLaws unit.
Proof.
  refine {| meter_wf := fun _ => True; can_fail := False |};
    intros; eexists _, _; split_and!; done.
Defined.

Lemma unmetered_cannot_fail : ~ can_fail (G := unit).
Proof. by intros []. Qed.

(** ** Weakest preconditions *)

(** [Q] holds of the outcome and of the final state of [m] run from [s], for
    every state of the meter. *)
Definition wp {G S E A : Type} `{GasMeterLaws G} (m : M (acc G S) E A)
    (Q : outcome E A -> S -> Prop) (s : S) : Prop :=
  forall g, meter_wf g ->
    let '(o, a) := m (Acc g s) in meter_wf (meter a) /\ Q o (store a).

(** How postconditions pass through the combinators. *)
Definition on_ok {E A B S} (K : A -> S -> Prop) (Q : outcome E B -> S -> Prop)
    (o : outcome E A) (s : S) : Prop :=
  match o with Ok a => K a s | Err e => Q (Err e) s | Panic => Q Panic s end.

Definition on_err {E E' A S} (f : E -> E') (Q : outcome E' A -> S -> Prop)
    (o : outcome E A) (s : S) : Prop :=
  match o with Ok a => Q (Ok a) s | Err e => Q (Err (f e)) s | Panic => Q Panic s end.

Definition on_expect {E E' A S} (Q : outcome E' A -> S -> Prop)
    (o : outcome E A) (s : S) : Prop :=
  match o with Ok a => Q (Ok a) s | Err _ => Q Panic s | Panic => Q Panic s end.

Definition on_catch {E E' A S} (Q : outcome E' (A + E) -> S -> Prop)
    (o : outcome E A) (s : S) : Prop :=
  match o with Ok a => Q (Ok (inl a)) s | Err e => Q (Ok (inr e)) s | Panic => Q Panic s end.

Section WP.
Context {G : Type} `{GasMeterLaws G}.
Context {S : Type}.
Implicit Types s : S.

Lemma wp_mono {E A} (m : M (acc G S) E A) (Q Q' : outcome E A -> S -> Prop) s :
  wp m Q s -> (forall o s', Q o s' -> Q' o s') -> wp m Q' s.
Proof.
  intros Hm HQ g Hg. specialize (Hm g Hg). destruct (m _) as [o a].
  destruct Hm; split; auto.
Qed.

Lemma wp_ret {E A} (x : A) (Q : outcome E A -> S -> Prop) s : Q (Ok x) s -> wp (ret x) Q s.
Proof. by intros HQ g Hg. Qed.

Lemma wp_throw {E A} (e : E) (Q : outcome E A -> S -> Prop) s : Q (Err e) s -> wp (throw e) Q s.
Proof. by intros HQ g Hg. Qed.

Lemma wp_panic {E A} (Q : outcome E A -> S -> Prop) s : Q Panic s -> wp panic Q s.
Proof. by intros HQ g Hg. Qed.

Lemma wp_bind {E A B} (m : M (acc G S) E A) (k : A -> M (acc G S) E B) Q s :
  wp m (on_ok (fun a => wp (k a) Q) Q) s -> wp (bind m k) Q s.
Proof.
  intros Hm g Hg. specialize (Hm g Hg). unfold bind.
  destruct (m (Acc g s)) as [[a|e|] [g' s']]; cbn in *; destruct Hm as [Hg' HQ]; [|done..].
  by apply HQ.
Qed.

Lemma wp_map_err {E E' A} (f : E -> E') (m : M (acc G S) E A) Q s :
  wp m (on_err f Q) s -> wp (map_err f m) Q s.
Proof.
  intros Hm g Hg. specialize (Hm g Hg). unfold map_err.
  by destruct (m (Acc g s)) as [[a|e|] [g' s']].
Qed.

Lemma wp_expect {E E' A} (m : M (acc G S) E A) (Q : outcome E' A -> S -> Prop) s :
  wp m (on_expect Q) s -> wp (expect m) Q s.
Proof.
  intros Hm g Hg. specialize (Hm g Hg). unfold expect.
  by destruct (m (Acc g s)) as [[a|e|] [g' s']].
Qed.

Lemma wp_try_catch {E E' A} (m : M (acc G S) E A) (Q : outcome E' (A + E) -> S -> Prop) s :
  wp m (on_catch Q) s -> wp (try_catch m) Q s.
Proof.
  intros Hm g Hg. specialize (Hm g Hg). unfold try_catch.
  by destruct (m (Acc g s)) as [[a|e|] [g' s']].
Qed.

Lemma wp_ensure {E} (b : bool) (e : E) (Q : outcome E unit -> S -> Prop) s :
  (b = true -> Q (Ok tt) s) -> (b = false -> Q (Err e) s) -> wp (ensure b e) Q s.
Proof. intros Ht Hf g Hg. destruct b; cbn; auto. Qed.

Lemma wp_assert {E} (b : bool) (Q : outcome E unit -> S -> Prop) s :
  (b = true -> Q (Ok tt) s) -> (b = false -> Q Panic s) -> wp (assert b) Q s.
Proof. intros Ht Hf g Hg. destruct b; cbn; auto. Qed.

Lemma wp_ok_or {E A} (o : option A) (e : E) (Q : outcome E A -> S -> Prop) s :
  (forall a, o = Some a -> Q (Ok a) s) -> (o = None -> Q (Err e) s) -> wp (ok_or o e) Q s.
Proof. intros Ht Hf g Hg. destruct o; cbn; auto. Qed.

Lemma wp_from_sum {E A} (r : A + E) (Q : outcome E A -> S -> Prop) s :
  (forall a, r = inl a -> Q (Ok a) s) -> (forall e, r = inr e -> Q (Err e) s) ->
  wp (from_sum r) Q s.
Proof. intros Ht Hf g Hg. destruct r; cbn; auto. Qed.

Lemma wp_expect_some {E A} (o : option A) (Q : outcome E A -> S -> Prop) s :
  (forall a, o = Some a -> Q (Ok a) s) -> (o = None -> Q Panic s) -> wp (expect_some o) Q s.
Proof. intros Ht Hf g Hg. destruct o; cbn; auto. Qed.

Lemma wp_gets {E A} (f : S -> A) (Q : outcome E A -> S -> Prop) s :
  Q (Ok (f s)) s -> wp (gets f) Q s.
Proof. by intros HQ g Hg. Qed.

Lemma wp_modify {E} (f : S -> S) (Q : outcome E unit -> S -> Prop) s :
  Q (Ok tt) (f s) -> wp (modify f) Q s.
Proof. by intros HQ g Hg. Qed.

Lemma wp_charge_gas amount (Q : outcome GasMeteringError unit -> S -> Prop) s :
  (can_fail -> forall e, Q (Err e) s) -> Q (Ok tt) s -> wp (on_meter (charge_gas amount)) Q s.
Proof.
  intros Hf Hok g Hg. unfold on_meter. cbn.
  destruct (charge_gas_law g amount Hg) as ([[]|e|] & g' & -> & Hg' & Ho); cbn; by auto.
Qed.

Lemma wp_charge_linear_gas amount p (Q : outcome GasMeteringError unit -> S -> Prop) s :
  (can_fail -> forall e, Q (Err e) s) -> Q (Ok tt) s ->
  wp (on_meter (charge_linear_gas amount p)) Q s.
Proof.
  intros Hf Hok g Hg. unfold on_meter. cbn.
  destruct (charge_linear_gas_law g amount p Hg) as ([[]|e|] & g' & -> & Hg' & Ho); cbn; by auto.
Qed.

(** A loop keeps an invariant of the elements already visited. *)
Lemma wp_for_each {E A} (f : A -> M (acc G S) E unit) (I : list A -> S -> Prop)
    (Q : outcome E unit -> S -> Prop) l s :
  I [] s ->
  (forall done x rest s', l = done ++ x :: rest -> I done s' ->
     wp (f x) (on_ok (fun _ => I (done ++ [x])) Q) s') ->
  (forall s', I l s' -> Q (Ok tt) s') ->
  wp (for_each f l) Q s.
Proof.
  intros HI Hstep Hend.
  enough (forall rest done s', l = done ++ rest -> I done s' -> wp (for_each f rest) Q s')
    as Hgen by by apply (Hgen l []).
  induction rest as [|x rest IH]; intros done s' Hl HI'; simpl.
  - apply wp_ret. apply Hend. by rewrite Hl, app_nil_r.
  - apply wp_bind. eapply wp_mono; [by eapply Hstep|].
    intros [[]|e|] s'' Ho; simpl in *; [|done..].
    apply (IH (done ++ [x])); [|done]. by rewrite <- app_assoc.
Qed.

Lemma wp_fold_m {E A B} (f : B -> A -> M (acc G S) E B) (I : list A -> B -> S -> Prop)
    (Q : outcome E B -> S -> Prop) b l s :
  I [] b s ->
  (forall done x rest b' s', l = done ++ x :: rest -> I done b' s' ->
     wp (f b' x) (on_ok (I (done ++ [x])) Q) s') ->
  (forall b' s', I l b' s' -> Q (Ok b') s') ->
  wp (fold_m f b l) Q s.
Proof.
  intros HI Hstep Hend.
  enough (forall rest done b' s', l = done ++ rest -> I done b' s' -> wp (fold_m f b' rest) Q s')
    as Hgen by by apply (Hgen l []).
  induction rest as [|x rest IH]; intros done b' s' Hl HI'; simpl.
  - apply wp_ret. apply Hend. by rewrite Hl, app_nil_r.
  - apply wp_bind. eapply wp_mono; [by eapply Hstep|].
    intros [b''|e|] s'' Ho; simpl in *; [|done..].
    apply (IH (done ++ [x])); [|done]. by rewrite <- app_assoc.
Qed.

(** Running from a concrete meter. *)
Lemma wp_run {E A} (m : M (acc G S) E A) Q s g :
  wp m Q s -> meter_wf g -> meter_wf (meter (snd (m (Acc g s)))) /\
    Q (fst (m (Acc g s))) (store (snd (m (Acc g s)))).
Proof. intros Hm Hg. specialize (Hm g Hg). by destruct (m (Acc g s)). Qed.
End WP.

Lemma wp_zoom {G S T E A : Type} `{GasMeterLaws G} (get : S -> T) (put : T -> S -> S)
    (m : M (acc G T) E A) Q s :
  wp m (fun o t => Q o (put t s)) (get s) -> wp (zoom get put m) Q s.
Proof.
  intros Hm g Hg. specialize (Hm g Hg). unfold zoom. cbn.
  by destruct (m (Acc g (get s))) as [o [g' s']].
Qed.

(** An unmetered program is a function of the state. *)
Lemma wp_unmetered {S E A} (m : M (acc unit S) E A) x t s :
  wp m (fun o s' => o = x /\ s' = t) s -> m (Acc tt s) = (x, Acc tt t).
Proof.
  intros Hm. specialize (Hm tt I). destruct (m (Acc tt s)) as [o [[] s']].
  by destruct Hm as [_ [-> <-]].
Qed.

Lemma wp_result {S E A} (m : M (acc unit S) E A) Q s :
  wp m Q s -> exists o s', m (Acc tt s) = (o, Acc tt s') /\ Q o s'.
Proof.
  intros Hm. specialize (Hm tt I). destruct (m (Acc tt s)) as [o [[] s']].
  exists o, s'. split; [done|]. by destruct Hm as [_ ?].
Qed.

(** One step of symbolic execution: the head of the program selects the rule.
    Side goals about a refused charge are left for the caller when they are not
    immediate. *)
Ltac wp_red := cbn beta iota delta [on_ok on_err on_expect on_catch].
Ltac wp_core :=
  match goal with
  | |- wp (bind _ _) _ _ => apply wp_bind
  | |- wp (map_err _ _) _ _ => apply wp_map_err
  | |- wp (expect _) _ _ => apply wp_expect
  | |- wp (try_catch _) _ _ => apply wp_try_catch
  | |- wp (ret _) _ _ => apply wp_ret
  | |- wp (throw _) _ _ => apply wp_throw
  | |- wp panic _ _ => apply wp_panic
  | |- wp (ensure _ _) _ _ => apply wp_ensure; intros ?
  | |- wp (assert _) _ _ => apply wp_assert; intros ?
  | |- wp (ok_or _ _) _ _ => apply wp_ok_or; [intros ? ?|intros ?]
  | |- wp (from_sum _) _ _ => apply wp_from_sum; [intros ? ?|intros ? ?]
  | |- wp (expect_some _) _ _ => apply wp_expect_some; [intros ? ?|intros ?]
  | |- wp (gets _) _ _ => apply wp_gets
  | |- wp (modify _) _ _ => apply wp_modify
  | |- wp (zoom _ _ _) _ _ => apply wp_zoom
  | |- wp (on_meter (charge_gas _)) _ _ => apply wp_charge_gas; [intros ? ?|]
  | |- wp (on_meter (charge_linear_gas _ _)) _ _ => apply wp_charge_linear_gas; [intros ? ?|]
  end; wp_red.

(** A refused charge is an error that changes nothing. *)
Section AccessRules.
Context {Sp : Spec} {G : Type} `{GasMeterLaws G}.
Context {S V : Type}.
Implicit Types (s : S) (k : slot S V).

Lemma wp_charge_storage_access key_len (Q : outcome GasMeteringError unit -> S -> Prop) s :
  key_len <= u32_max ->
  (can_fail -> forall e, Q (Err e) s) -> Q (Ok tt) s ->
  wp (charge_storage_access key_len) Q s.
Proof.
  intros Hk Hf Hok. unfold charge_storage_access.
  rewrite (proj2 (N.leb_le _ _) Hk).
  repeat wp_core; auto; [|done]. destruct (0 <? key_len); repeat wp_core; auto.
Qed.

Lemma wp_charge_read key_len size (Q : outcome GasMeteringError unit -> S -> Prop) s :
  key_len <= u32_max ->
  (can_fail -> forall e, Q (Err e) s) -> Q (Ok tt) s ->
  wp (charge_read key_len size) Q s.
Proof.
  intros Hk Hf Hok. unfold charge_read.
  apply wp_bind, wp_charge_storage_access; auto; wp_red.
  repeat wp_core; auto. destruct (size s) as [[|p]|]; repeat wp_core; auto.
Qed.

Lemma wp_charge_write key_len size (Q : outcome GasMeteringError unit -> S -> Prop) s :
  key_len <= u32_max ->
  (can_fail -> forall e, Q (Err e) s) -> Q (Ok tt) s ->
  wp (charge_write key_len size) Q s.
Proof.
  intros Hk Hf Hok. unfold charge_write.
  apply wp_bind, wp_charge_storage_access; auto; wp_red.
  repeat wp_core; auto.
Qed.

Lemma wp_get_decoded k (Q : outcome StateAccessorError (option V) -> S -> Prop) s :
  slot_key_len k <= u32_max ->
  (can_fail -> forall e, Q (Err e) s) -> Q (Ok (slot_read k s)) s ->
  wp (get_decoded k) Q s.
Proof.
  intros Hk Hf Hok. unfold get_decoded, get_inner.
  apply wp_bind, wp_map_err, wp_bind, wp_charge_read; wp_red; auto.
  wp_core. destruct (slot_read k s); repeat wp_core; auto.
Qed.

Lemma wp_writer_set k v (Q : outcome StateAccessorError unit -> S -> Prop) s :
  slot_key_len k <= u32_max ->
  (can_fail -> forall e, Q (Err e) s) -> Q (Ok tt) (slot_write k (Some v) s) ->
  wp (writer_set k v) Q s.
Proof.
  intros Hk Hf Hok. unfold writer_set, set_inner.
  apply wp_map_err, wp_bind, wp_charge_write; wp_red; auto. by wp_core.
Qed.

Lemma wp_writer_delete k (Q : outcome StateAccessorError unit -> S -> Prop) s :
  slot_key_len k <= u32_max ->
  (can_fail -> forall e, Q (Err e) s) -> Q (Ok tt) (slot_write k None s) ->
  wp (writer_delete k) Q s.
Proof.
  intros Hk Hf Hok. unfold writer_delete, delete_inner.
  apply wp_map_err, wp_bind, wp_charge_write; wp_red; auto. by wp_core.
Qed.

Lemma wp_remove_decoded k (Q : outcome StateAccessorError (option V) -> S -> Prop) s :
  slot_key_len k <= u32_max ->
  (can_fail -> forall e, Q (Err e) s) ->
  Q (Ok (slot_read k s)) (slot_write k None s) ->
  wp (remove_decoded k) Q s.
Proof.
  intros Hk Hf Hok. unfold remove_decoded.
  apply wp_bind, wp_get_decoded; wp_red; auto.
  apply wp_bind, wp_writer_delete; wp_red; auto. by wp_core.
Qed.

Lemma wp_value_get (m : StateValue S V) (Q : outcome StateAccessorError (option V) -> S -> Prop) s :
  (can_fail -> forall e, Q (Err e) s) -> Q (Ok (val_read m s)) s -> wp (value_get m) Q s.
Proof. intros. apply wp_get_decoded; [apply key_size_u32|done..]. Qed.

Lemma wp_value_set (m : StateValue S V) v (Q : outcome StateAccessorError unit -> S -> Prop) s :
  (can_fail -> forall e, Q (Err e) s) -> Q (Ok tt) (val_write m (Some v) s) ->
  wp (value_set m v) Q s.
Proof. intros. apply wp_writer_set; [apply key_size_u32|done..]. Qed.

Lemma wp_value_delete (m : StateValue S V) (Q : outcome StateAccessorError unit -> S -> Prop) s :
  (can_fail -> forall e, Q (Err e) s) -> Q (Ok tt) (val_write m None s) ->
  wp (value_delete m) Q s.
Proof. intros. apply wp_writer_delete; [apply key_size_u32|done..]. Qed.

Section MapRules.
Context {K : Type} `{Countable K}.
Implicit Types (m : StateMap S K V) (i : K).

Lemma wp_map_get m i (Q : outcome StateAccessorError (option V) -> S -> Prop) s :
  (can_fail -> forall e, Q (Err e) s) -> Q (Ok (map_read m s !! i)) s -> wp (map_get m i) Q s.
Proof. intros. apply wp_get_decoded; [apply key_size_u32|done..]. Qed.

Lemma wp_map_set m i v (Q : outcome StateAccessorError unit -> S -> Prop) s :
  (can_fail -> forall e, Q (Err e) s) ->
  Q (Ok tt) (map_write m (<[i:=v]> (map_read m s)) s) -> wp (map_set m i v) Q s.
Proof. intros. apply wp_writer_set; [apply key_size_u32|done..]. Qed.

Lemma wp_map_delete m i (Q : outcome StateAccessorError unit -> S -> Prop) s :
  (can_fail -> forall e, Q (Err e) s) ->
  Q (Ok tt) (map_write m (delete i (map_read m s)) s) -> wp (map_delete m i) Q s.
Proof. intros. apply wp_writer_delete; [apply key_size_u32|done..]. Qed.

Lemma wp_map_remove m i (Q : outcome StateAccessorError (option V) -> S -> Prop) s :
  (can_fail -> forall e, Q (Err e) s) ->
  Q (Ok (map_read m s !! i)) (map_write m (delete i (map_read m s)) s) ->
  wp (map_remove m i) Q s.
Proof. intros. apply wp_remove_decoded; [apply key_size_u32|done..]. Qed.

Lemma wp_map_set_if_absent m i v (Q : outcome StateAccessorError unit -> S -> Prop) s :
  (can_fail -> forall e, Q (Err e) s) ->
  (forall v', map_read m s !! i = Some v' -> Q (Ok tt) s) ->
  (map_read m s !! i = None -> Q (Ok tt) (map_write m (<[i:=v]> (map_read m s)) s)) ->
  wp (map_set_if_absent m i v) Q s.
Proof.
  intros Hf Hs Hn. unfold map_set_if_absent.
  apply wp_bind, wp_get_decoded; wp_red; [apply key_size_u32|auto|].
  cbn. destruct (map_read m s !! i) as [v'|] eqn:He; [wp_core; eauto|].
  apply wp_map_set; auto.
Qed.
End MapRules.

(** Hashing may also fail on an over-long input. *)
Lemma wp_hasher_update inner data (Q : outcome GasMeteringError (list N) -> S -> Prop) s :
  (forall e, Q (Err e) s) -> Q (Ok (inner ++ data)) s -> wp (hasher_update inner data) Q s.
Proof. intros Hf Hok. unfold hasher_update. repeat wp_core; auto. Qed.

Lemma wp_hasher_update_short inner data (Q : outcome GasMeteringError (list N) -> S -> Prop) s :
  N.of_nat (length data) <= u32_max ->
  (can_fail -> forall e, Q (Err e) s) -> Q (Ok (inner ++ data)) s ->
  wp (hasher_update inner data) Q s.
Proof.
  intros Hd Hf Hok. unfold hasher_update. rewrite (proj2 (N.leb_le _ _) Hd).
  repeat wp_core; by auto.
Qed.
End AccessRules.

(** Symbolic execution of a handler: [wp_step] also covers the state items. *)
Ltac wp_step :=
  first
    [ wp_core
    | match goal with
      | |- wp (map_get _ _) _ _ => apply wp_map_get; [intros ? ?|]
      | |- wp (map_set _ _ _) _ _ => apply wp_map_set; [intros ? ?|]
      | |- wp (map_delete _ _) _ _ => apply wp_map_delete; [intros ? ?|]
      | |- wp (map_remove _ _) _ _ => apply wp_map_remove; [intros ? ?|]
      | |- wp (map_set_if_absent _ _ _) _ _ =>
          apply wp_map_set_if_absent; [intros ? ?|intros ? ?|intros ?]
      | |- wp (value_get _) _ _ => apply wp_value_get; [intros ? ?|]
      | |- wp (value_set _ _) _ _ => apply wp_value_set; [intros ? ?|]
      | |- wp (value_delete _) _ _ => apply wp_value_delete; [intros ? ?|]
      | |- wp (hasher_update _ _) _ _ => apply wp_hasher_update; [intros ?|]
      end; wp_red ].

(** The branches of a refused charge, when none is refused. *)
Ltac no_fail :=
  exfalso; match goal with Hn : ~ can_fail, Hc : can_fail |- _ => exact (Hn Hc) end.

(** ** A concrete rollup, for evaluating the definitions: addresses are numbers,
    hashing pads to 32 bytes, every access costs one unit of gas and every
    encoding has one byte. *)
Definition test_codec : Codec.
Proof.
  refine (mkCodec (fun _ _ _ => 1) (fun _ _ _ => 1) _). intros. unfold u32_max. lia.
Defined.

Definition test_gas_constants : GasConstants :=
  mkGasConstants [1; 1] [0; 0] [0; 0] [0; 0] [0; 0] [0; 0] [0; 0] [0; 0].

Definition test_spec : Spec := {|
  Address := N;
  DaAddress := N;
  address_as_ref := fun a => [a];
  hasher := fun l => take 32 (l ++ repeat 0 32);
  gas_constants := test_gas_constants;
  codec := test_codec;
  config_gas_token_id := repeat 7 32
|}.
