(* ===== verification/StateVec.v ===== *)
(** * Vectors in the state

    sov-modules-api/src/containers/vec.rs: a vector is a length and a map from indices
    to elements.  Each operation is a sequence of metered accesses.  The raw accessors
    differ only in the codec. *)

From Stdlib Require Import NArith Lia.
From stdpp Require Import base numbers gmap option list strings.
From S2P Require Import Prelude Ints Gas StateAccess.

(** [a..b] *)
Definition range (a b : N) : list N := map (fun i => a + N.of_nat i) (seq 0 (N.to_nat (b - a))).

(** [NamespacedStateVec] *)
Record StateVec (S V : Type) : Type := mkStateVec {
  len_value : StateValue S N;
  elems : StateMap S N V
}.
Arguments mkStateVec {S V} len_value elems.
Arguments len_value {S V} _.
Arguments elems {S V} _.

(** [StateVecError] *)
Inductive StateVecError : Type := IndexOutOfBounds (i : N) | MissingValue (i : N).

Module Vec.
Section Vec.
Context {Sp : Spec} {G : Type} `{GasMeter G} {S V : Type}.
Implicit Types vec : StateVec S V.

Definition len vec : M (acc G S) StateAccessorError N :=
  let! n := value_get (len_value vec) in ret (default 0 n).

Definition set_len vec (length : N) : M (acc G S) StateAccessorError unit :=
  value_set (len_value vec) length.

Definition set vec (index : N) (v : V) : M (acc G S) StateAccessorError (unit + StateVecError) :=
  let! n := len vec in
  if index <? n then map_set (elems vec) index v ;;; ret (inl tt)
  else ret (inr (IndexOutOfBounds index)).

Definition get vec (index : N) : M (acc G S) StateAccessorError (option V) := map_get (elems vec) index.

Definition get_or_err vec (index : N) : M (acc G S) StateAccessorError (V + StateVecError) :=
  let! n := len vec in
  if index <? n then
    let! v := map_get (elems vec) index in
    ret (match v with Some v => inl v | None => inr (MissingValue index) end)
  else ret (inr (IndexOutOfBounds index)).

Definition push vec (v : V) : M (acc G S) StateAccessorError unit :=
  let! n := len vec in
  map_set (elems vec) n v ;;;
  let! n := expect_some (checked_add u64_max n 1) in
  set_len vec n.

Definition pop vec : M (acc G S) StateAccessorError (option V) :=
  let! n := len vec in
  match checked_sub n 1 with
  | None => ret None
  | Some last_i =>
      let! elem := map_remove (elems vec) last_i in
      match elem with
      | None => ret None
      | Some elem => set_len vec last_i ;;; ret (Some elem)
      end
  end.

(** The body of the loop of [remove]. *)
Definition shift vec (i : N) : M (acc G S) StateAccessorError unit :=
  let! next_idx := expect_some (checked_add u64_max i 1) in
  let! next_elem := map_remove (elems vec) next_idx in
  match next_elem with
  | Some next_elem => map_set (elems vec) i next_elem
  | None => ret tt
  end.

Definition remove vec (index : N) : M (acc G S) StateAccessorError (option V) :=
  let! n := len vec in
  match checked_sub n 1 with
  | None => ret None
  | Some new_len =>
      if index <? n then
        let! elem := map_remove (elems vec) index in
        match elem with
        | None => ret None
        | Some elem =>
            for_each (shift vec) (range index new_len) ;;;
            set_len vec new_len ;;;
            ret (Some elem)
        end
      else ret None
  end.

(** [StateValue::remove] *)
Definition value_remove {W} (m : StateValue S W) : M (acc G S) StateAccessorError (option W) :=
  remove_decoded (value_slot m).

Definition clear vec : M (acc G S) StateAccessorError unit :=
  let! n := value_remove (len_value vec) in
  for_each (fun i => map_delete (elems vec) i) (range 0 (default 0 n)).

Definition set_all vec (values : list V) : M (acc G S) StateAccessorError unit :=
  let! old_len := len vec in
  let new_len := N.of_nat (length values) in
  for_each (fun i => map_delete (elems vec) i) (range new_len old_len) ;;;
  for_each (fun e => map_set (elems vec) (N.of_nat (fst e)) (snd e)) (imap pair values) ;;;
  set_len vec new_len.

Definition last vec : M (acc G S) StateAccessorError (option V) :=
  let! n := len vec in
  match checked_sub n 1 with
  | None => ret None
  | Some i => map_get (elems vec) i
  end.

(** [StateVecIter]: the indices that are left, from both ends. *)
Record StateVecIter : Type := mkIter { iter_len : N; next_i : N }.

Definition iter vec : M (acc G S) StateAccessorError StateVecIter :=
  let! n := len vec in ret (mkIter n 0).

Definition next vec (it : StateVecIter) : M (acc G S) StateAccessorError (option V * StateVecIter) :=
  if iter_len it <=? next_i it then ret (None, it)
  else
    let! elem := get vec (next_i it) in
    match elem with
    | None => ret (None, it)
    | Some elem => ret (Some elem, mkIter (iter_len it) (next_i it + 1))
    end.

Definition next_back vec (it : StateVecIter) : M (acc G S) StateAccessorError (option V * StateVecIter) :=
  if iter_len it =? next_i it then ret (None, it)
  else
    let! n := expect_some (checked_sub (iter_len it) 1) in
    let! elem := get vec n in
    ret (elem, mkIter n (next_i it)).

(** [collect]: [next] until it is [None], at most [fuel] times. *)
Fixpoint collect_iter vec (fuel : nat) (it : StateVecIter) : M (acc G S) StateAccessorError (list V) :=
  match fuel with
  | O => ret []
  | Datatypes.S fuel =>
      let! r := next vec it in
      match r with
      | (None, _) => ret []
      | (Some v, it) => let! l := collect_iter vec fuel it in ret (v :: l)
      end
  end.

Definition collect vec : M (acc G S) StateAccessorError (list V) :=
  let! it := iter vec in collect_iter vec (Datatypes.S (N.to_nat (iter_len it))) it.
End Vec.
End Vec.

(** ** A vector is a list *)
Module VecFacts.
Import Vec.
Section Facts.
Context {Sp : Spec} {G : Type} `{GasMeterLaws G} {S V : Type}.

(** The length and the elements are different items of the state. *)
Class VecLens (vec : StateVec S V) : Prop := {
  len_len : forall o s, val_read (len_value vec) (val_write (len_value vec) o s) = o;
  elems_elems : forall m s, map_read (elems vec) (map_write (elems vec) m s) = m;
  len_elems : forall m s, val_read (len_value vec) (map_write (elems vec) m s) = val_read (len_value vec) s;
  elems_len : forall o s, map_read (elems vec) (val_write (len_value vec) o s) = map_read (elems vec) s
}.

Context (vec : StateVec S V) {Lens : VecLens vec}.

Definition size_of (l : list V) : N := N.of_nat (length l).

(** The elements are those of the list, and there are no others. *)
Definition cells_are (s : S) (l : list V) : Prop :=
  forall i, map_read (elems vec) s !! i = l !! N.to_nat i.

Definition repr (s : S) (l : list V) : Prop :=
  default 0 (val_read (len_value vec) s) = size_of l /\ cells_are s l.

(** Errors come from the gas meter only, and nothing panics. *)
Definition returns {E A} (Q : A -> S -> Prop) (o : outcome E A) (s : S) : Prop :=
  match o with Ok a => Q a s | Err _ => can_fail (G := G) | Panic => False end.

Lemma wp_len_vec s l Q :
  repr s l -> (can_fail (G := G) -> forall e, Q (Err e) s) -> Q (Ok (size_of l)) s -> wp (len vec) Q s.
Proof. intros [Hl _] Hf Hok. unfold len. repeat wp_step; auto. by rewrite Hl. Qed.

Lemma cells_set s l i v :
  cells_are s l -> (N.to_nat i < length l)%nat ->
  cells_are (map_write (elems vec) (<[i := v]> (map_read (elems vec) s)) s) (<[N.to_nat i := v]> l).
Proof.
  intros Hc Hi j. rewrite elems_elems. destruct (decide (j = i)) as [->|Hne].
  - rewrite lookup_insert_eq, list_lookup_insert_eq; done.
  - rewrite lookup_insert_ne, list_lookup_insert_ne by lia. apply Hc.
Qed.

Lemma cells_push s l v :
  cells_are s l ->
  cells_are (map_write (elems vec) (<[size_of l := v]> (map_read (elems vec) s)) s) (l ++ [v]).
Proof.
  intros Hc j. unfold size_of. rewrite elems_elems. destruct (decide (j = N.of_nat (length l))) as [->|Hne].
  - rewrite lookup_insert_eq, Nat2N.id. by rewrite list_lookup_middle.
  - rewrite lookup_insert_ne by done. rewrite Hc. destruct (decide (N.to_nat j < length l)%nat).
    + by rewrite lookup_app_l.
    + rewrite lookup_ge_None_2 by lia. rewrite lookup_ge_None_2; [done|]. rewrite length_app. cbn. lia.
Qed.

Lemma repr_set_len s l n : cells_are s l -> n = size_of l -> repr (val_write (len_value vec) (Some n) s) l.
Proof. intros Hc ->. split; [by rewrite len_len|]. intros i. rewrite elems_len. apply Hc. Qed.

Lemma repr_cells s m l :
  default 0 (val_read (len_value vec) s) = size_of l -> cells_are (map_write (elems vec) m s) l ->
  repr (map_write (elems vec) m s) l.
Proof. intros Hl Hc. split; [by rewrite len_elems|done]. Qed.

(** Each operation, by what it does to the list. *)

Lemma push_spec s l v :
  repr s l -> size_of l < u64_max ->
  wp (push vec v) (returns (fun _ s' => repr s' (l ++ [v]))) s.
Proof.
  intros Hr Hm. unfold push. apply wp_bind, (wp_len_vec s l); wp_red; [done|auto|].
  wp_step. wp_step; [auto|].
  assert (checked_add u64_max (size_of l) 1 = Some (size_of l + 1)) as -> by (apply checked_add_Some; lia).
  wp_step. apply wp_expect_some; [|done]. intros ? [= <-]. cbn. unfold set_len. wp_step; [auto|].
  cbn. apply repr_set_len; [apply cells_push, Hr|]. unfold size_of. rewrite length_app. cbn. lia.
Qed.

Lemma get_spec s l i : repr s l -> wp (get vec i) (returns (fun r s' => r = l !! N.to_nat i /\ s' = s)) s.
Proof. intros [_ Hc]. unfold get. wp_step; [auto|]. cbn. by rewrite Hc. Qed.

Lemma set_spec s l i v :
  repr s l -> wp (set vec i v)
    (returns (fun r s' => if i <? size_of l then r = inl tt /\ repr s' (<[N.to_nat i := v]> l)
                          else r = inr (IndexOutOfBounds i) /\ s' = s)) s.
Proof.
  intros Hr. unfold set. apply wp_bind, (wp_len_vec s l); wp_red; [done|auto|].
  destruct (N.ltb_spec i (size_of l)) as [Hi|Hi].
  - wp_step. wp_step; [auto|]. wp_step. cbn. split; [done|].
    unfold size_of in Hi. apply repr_cells.
    + rewrite (proj1 Hr). unfold size_of. by rewrite length_insert.
    + apply cells_set; [apply Hr|lia].
  - by wp_step.
Qed.

Lemma get_or_err_spec s l i :
  repr s l -> wp (get_or_err vec i)
    (returns (fun r s' => s' = s /\ r = match l !! N.to_nat i with Some v => inl v | None => inr (IndexOutOfBounds i) end)) s.
Proof.
  intros Hr. unfold get_or_err. apply wp_bind, (wp_len_vec s l); wp_red; [done|auto|].
  destruct (N.ltb_spec i (size_of l)) as [Hi|Hi]; unfold size_of in Hi.
  - wp_step. wp_step; [auto|]. wp_step. cbn. split; [done|]. rewrite (proj2 Hr).
    destruct (lookup_lt_is_Some_2 l (N.to_nat i)) as [v ->]; [lia|done].
  - wp_step. cbn. split; [done|]. by rewrite lookup_ge_None_2 by lia.
Qed.

Lemma last_lookup (l : list V) (n : N) : n = size_of l -> 1 <= n -> l !! N.to_nat (n - 1) = list.last l.
Proof. intros -> Hn. unfold size_of in *. rewrite last_lookup. f_equal. lia. Qed.

Lemma last_spec s l : repr s l -> wp (last vec) (returns (fun r s' => r = list.last l /\ s' = s)) s.
Proof.
  intros Hr. unfold last. apply wp_bind, (wp_len_vec s l); wp_red; [done|auto|].
  unfold checked_sub. destruct (N.leb_spec 1 (size_of l)) as [Hn|Hn].
  - wp_step; [auto|]. cbn. rewrite (proj2 Hr). by rewrite last_lookup.
  - wp_step. cbn. split; [|done]. destruct l; [done|]. unfold size_of in Hn. cbn in Hn. lia.
Qed.

(** The list without its last element. *)
Definition init (l : list V) : list V := take (length l - 1) l.

Lemma cells_pop s l :
  cells_are s l -> (1 <= length l)%nat ->
  cells_are (map_write (elems vec) (delete (size_of l - 1) (map_read (elems vec) s)) s) (init l).
Proof.
  intros Hc Hl j. unfold init, size_of. rewrite elems_elems.
  destruct (decide (j = N.of_nat (length l) - 1)) as [->|Hne].
  - rewrite lookup_delete_eq. rewrite lookup_take_ge by lia. done.
  - rewrite lookup_delete_ne by done. rewrite Hc. destruct (decide (N.to_nat j < length l - 1)%nat).
    + by rewrite lookup_take_lt.
    + rewrite lookup_take_ge by lia. apply lookup_ge_None_2. lia.
Qed.

Lemma pop_spec s l : repr s l -> wp (pop vec) (returns (fun r s' => r = list.last l /\ repr s' (init l))) s.
Proof.
  intros Hr. unfold pop. apply wp_bind, (wp_len_vec s l); wp_red; [done|auto|].
  unfold checked_sub. destruct (N.leb_spec 1 (size_of l)) as [Hn|Hn].
  - wp_step. wp_step; [auto|]. rewrite (proj2 Hr), last_lookup by done.
    assert (1 <= length l)%nat as Hl by (unfold size_of in Hn; lia).
    destruct (list.last l) as [v|] eqn:Hlast; [|by destruct l using rev_ind; [cbn in Hl; lia|rewrite last_snoc in Hlast]].
    unfold set_len. wp_step. wp_step; [auto|]. wp_step. cbn. split; [done|].
    apply repr_set_len; [by apply cells_pop; [apply Hr|]|].
    unfold init, size_of. rewrite length_take. lia.
  - wp_step. cbn. destruct l; [by split|]. unfold size_of in Hn. cbn in Hn. lia.
Qed.

(** *** Loops over indices *)

Lemma range_split a b done x rest :
  range a b = done ++ x :: rest -> x = a + N.of_nat (length done) /\ x < b.
Proof.
  intros Heq. assert (range a b !! length done = Some x) as Hx
    by (rewrite Heq; by apply list_lookup_middle).
  unfold range in Hx. rewrite list_lookup_fmap in Hx.
  destruct (seq 0 (N.to_nat (b - a)) !! length done) as [i|] eqn:Hi; [|done].
  apply lookup_seq in Hi as [-> Hi]. cbn in Hx. simplify_eq. split; [done|lia].
Qed.

Lemma range_length a b : length (range a b) = N.to_nat (b - a).
Proof. unfold range. by rewrite length_map, length_seq. Qed.

(** The elements while those from [i] on are moved down, [k] of them so far. *)
Definition moved (l : list V) (i k : nat) (j : nat) : option V :=
  if decide (j < i)%nat then l !! j
  else if decide (j < i + k)%nat then l !! Datatypes.S j
  else if decide (j = i + k)%nat then None
  else l !! j.

Lemma moved_start l i : (i < length l)%nat -> forall j, moved l i 0 j = if decide (j = i) then None else l !! j.
Proof. intros Hi j. unfold moved. repeat case_decide; (done || lia). Qed.

Lemma moved_step l i k j :
  moved l i (Datatypes.S k) j =
    if decide (j = i + k)%nat then l !! Datatypes.S (i + k)
    else if decide (j = Datatypes.S (i + k)) then None else moved l i k j.
Proof. unfold moved. repeat case_decide; subst; (done || lia). Qed.

Lemma moved_end l i j : (i < length l)%nat -> moved l i (length l - 1 - i) j = delete i l !! j.
Proof.
  intros Hi. unfold moved. repeat case_decide.
  - by rewrite list_lookup_delete_lt.
  - by rewrite list_lookup_delete_ge by lia.
  - rewrite list_lookup_delete_ge by lia. symmetry. apply lookup_ge_None_2. lia.
  - rewrite list_lookup_delete_ge by lia. rewrite !lookup_ge_None_2 by lia. done.
Qed.

Definition moving (s0 : S) (l : list V) (i : N) (ks : list N) (s : S) : Prop :=
  val_read (len_value vec) s = val_read (len_value vec) s0 /\
  forall j, map_read (elems vec) s !! j = moved l (N.to_nat i) (length ks) (N.to_nat j).

Lemma shift_spec s0 l i ks x s :
  (N.to_nat i < length l)%nat -> size_of l <= u64_max ->
  x = i + N.of_nat (length ks) -> x < size_of l - 1 -> moving s0 l i ks s ->
  wp (shift vec x) (returns (fun _ => moving s0 l i (ks ++ [x]))) s.
Proof.
  intros Hi Hm -> Hx [Hlen Hc]. unfold shift, size_of in *.
  assert (checked_add u64_max (i + N.of_nat (length ks)) 1 = Some (i + N.of_nat (length ks) + 1)) as ->
    by (apply checked_add_Some; lia).
  wp_step. apply wp_expect_some; [|done]. intros ? [= <-]. cbn.
  wp_step. wp_step; [auto|].
  assert (moved l (N.to_nat i) (length ks) (N.to_nat (i + N.of_nat (length ks) + 1)) =
    l !! Datatypes.S (N.to_nat i + length ks)) as Hnext.
  { unfold moved. repeat case_decide; try lia. f_equal. lia. }
  rewrite Hc, Hnext.
  destruct (lookup_lt_is_Some_2 l (Datatypes.S (N.to_nat i + length ks))) as [v Hv]; [lia|].
  rewrite Hv. wp_step; [auto|]. cbn. split; [by rewrite !len_elems|].
  intros j. rewrite elems_elems, length_app. cbn [length]. rewrite Nat.add_1_r, moved_step, Hv, elems_elems.
  destruct (decide (j = i + N.of_nat (length ks))) as [->|Hne].
  - rewrite lookup_insert_eq. rewrite decide_True by lia. done.
  - rewrite lookup_insert_ne by done. rewrite (decide_False (P := N.to_nat j = _)) by lia.
    destruct (decide (j = i + N.of_nat (length ks) + 1)) as [->|Hne'].
    + rewrite lookup_delete_eq. rewrite decide_True by lia. done.
    + rewrite lookup_delete_ne by done. rewrite decide_False by lia. apply Hc.
Qed.

Lemma remove_spec s l i :
  repr s l -> size_of l <= u64_max ->
  wp (remove vec i) (returns (fun r s' => r = l !! N.to_nat i /\ repr s' (delete (N.to_nat i) l))) s.
Proof.
  intros Hr Hm. unfold remove. apply wp_bind, (wp_len_vec s l); wp_red; [done|auto|].
  unfold checked_sub. destruct (N.leb_spec 1 (size_of l)) as [Hn|Hn].
  - destruct (N.ltb_spec i (size_of l)) as [Hi|Hi].
    + wp_step. wp_step; [auto|]. rewrite (proj2 Hr). unfold size_of in Hi.
      destruct (lookup_lt_is_Some_2 l (N.to_nat i)) as [v Hv]; [lia|]. rewrite Hv.
      wp_step. eapply (wp_for_each _ (moving s l i)).
      * split; [by rewrite len_elems|]. intros j. rewrite elems_elems. cbn [length].
        rewrite moved_start by lia. destruct (decide (j = i)) as [->|Hne].
        -- by rewrite lookup_delete_eq, decide_True.
        -- rewrite lookup_delete_ne by done. rewrite decide_False by lia. apply Hr.
      * intros ks x rest s' Hks Hmv. destruct (range_split _ _ _ _ _ Hks) as [-> Hx].
        eapply wp_mono; [apply (shift_spec s l i ks); try done; lia|].
        intros [[]|e|] s'' Ho; cbn in *; [done|auto|done].
      * intros s' [Hlen Hc]. cbn. unfold set_len. wp_step. wp_step; [auto|]. wp_step. cbn. split; [done|].
        rewrite range_length in Hc. apply repr_set_len.
        -- intros j. rewrite Hc, <- moved_end by lia. f_equal. unfold size_of in *. lia.
        -- unfold size_of. rewrite length_delete by (by eexists). lia.
    + wp_step. cbn. unfold size_of in Hi. rewrite lookup_ge_None_2 by lia. split; [done|].
      rewrite delete_take_drop, take_ge, drop_ge, app_nil_r by lia. done.
  - wp_step. cbn. destruct l; [by split|]. unfold size_of in Hn. cbn in Hn. lia.
Qed.

(** *** Clearing and filling *)

(** The elements [m] of a state [s0] without those from [a] on, [k] of them. *)
Definition cut (m : N -> option V) (a k : N) (j : N) : option V :=
  if (a <=? j) && (j <? a + k) then None else m j.

Definition cutting (s0 : S) (a : N) (ks : list N) (s : S) : Prop :=
  val_read (len_value vec) s = val_read (len_value vec) s0 /\
  forall j, map_read (elems vec) s !! j = cut (fun j => map_read (elems vec) s0 !! j) a (N.of_nat (length ks)) j.

Lemma cut_step m a k j : cut m a (k + 1) j = if decide (j = a + k) then None else cut m a k j.
Proof.
  unfold cut. case_decide; destruct (N.leb_spec a j), (N.ltb_spec j (a + k)), (N.ltb_spec j (a + (k + 1))); cbn;
    done || lia.
Qed.

(** Deleting the elements of a range, by what is left in the other items. *)
Lemma wp_delete_range s a b (Q : outcome StateAccessorError unit -> S -> Prop) :
  (can_fail (G := G) -> forall e s', Q (Err e) s') ->
  (forall s', val_read (len_value vec) s' = val_read (len_value vec) s ->
     (forall j, map_read (elems vec) s' !! j = cut (fun j => map_read (elems vec) s !! j) a (b - a) j) -> Q (Ok tt) s') ->
  wp (for_each (fun i => map_delete (elems vec) i) (range a b)) Q s.
Proof.
  intros Hf Hok. eapply (wp_for_each _ (cutting s a)).
  - split; [done|]. intros j. unfold cut. cbn [length].
    destruct (N.leb_spec a j), (N.ltb_spec j (a + N.of_nat 0)); done || lia.
  - intros ks x rest s' Hks [Hlen Hc]. destruct (range_split _ _ _ _ _ Hks) as [-> Hx].
    wp_step; [auto|]. cbn. split; [by rewrite len_elems|]. intros j.
    rewrite elems_elems, length_app. cbn [length]. rewrite Nat2N.inj_add, cut_step.
    case_decide as Hj; [subst; apply lookup_delete_eq|]. by rewrite lookup_delete_ne, Hc by done.
  - intros s' [Hlen Hc]. cbn. apply Hok; [done|]. intros j. rewrite Hc, range_length, N2Nat.id. done.
Qed.

Lemma clear_spec s l : repr s l -> wp (clear vec) (returns (fun _ s' => repr s' [])) s.
Proof.
  intros [Hl Hc]. unfold clear, value_remove.
  apply wp_bind, wp_remove_decoded; wp_red; [apply key_size_u32|auto|]. cbn.
  apply wp_delete_range; [auto|]. intros s' Hlen Hm. cbn. split; [by rewrite Hlen, len_len|].
  intros j. rewrite Hm, Hl. unfold cut. rewrite elems_len, Hc. unfold size_of.
  destruct (N.leb_spec 0 j), (N.ltb_spec j (0 + (N.of_nat (length l) - 0))); cbn; try done; try lia;
    apply lookup_ge_None_2; lia.
Qed.

Definition filling (s0 : S) (done : list (nat * V)) (s : S) : Prop :=
  val_read (len_value vec) s = val_read (len_value vec) s0 /\
  forall j, map_read (elems vec) s !! j =
    match done.*2 !! N.to_nat j with Some v => Some v | None => map_read (elems vec) s0 !! j end.

Lemma enumerate_split (values : list V) done x rest :
  imap pair values = done ++ x :: rest -> fst x = length done.
Proof.
  intros Heq. assert (imap pair values !! length done = Some x) as Hx
    by (rewrite Heq; by apply list_lookup_middle).
  rewrite list_lookup_imap in Hx. destruct (values !! length done); cbn in Hx; by simplify_eq.
Qed.

Lemma enumerate_values (values : list V) : (imap pair values).*2 = values.
Proof.
  apply list_eq. intros i. rewrite list_lookup_fmap, list_lookup_imap. by destruct (values !! i).
Qed.

Lemma wp_fill s values (Q : outcome StateAccessorError unit -> S -> Prop) :
  (can_fail (G := G) -> forall e s', Q (Err e) s') ->
  (forall s', filling s (imap pair values) s' -> Q (Ok tt) s') ->
  wp (for_each (fun e => map_set (elems vec) (N.of_nat (fst e)) (snd e)) (imap pair values)) Q s.
Proof.
  intros Hf Hok. eapply (wp_for_each _ (filling s)); [by split| |done].
  intros ks [n v] rest s' Hks [Hlen Hc]. pose proof (enumerate_split _ _ _ _ Hks) as Hn. cbn in Hn. subst n.
  wp_step; [auto|]. cbn. split; [by rewrite len_elems|]. intros j. rewrite elems_elems, fmap_app. cbn.
  destruct (decide (j = N.of_nat (length ks))) as [->|Hne].
  - rewrite lookup_insert_eq, Nat2N.id. rewrite list_lookup_middle; [done|]. by rewrite length_fmap.
  - rewrite lookup_insert_ne, Hc by done. destruct (decide (N.to_nat j < length ks)%nat) as [Hj|Hj].
    + rewrite lookup_app_l by (rewrite length_fmap; lia). done.
    + rewrite (lookup_ge_None_2 ks.*2) by (rewrite length_fmap; lia).
      rewrite lookup_ge_None_2; [done|]. rewrite length_app, length_fmap. cbn. lia.
Qed.

Lemma set_all_spec s l values :
  repr s l -> wp (set_all vec values) (returns (fun _ s' => repr s' values)) s.
Proof.
  intros Hr. unfold set_all. apply wp_bind, (wp_len_vec s l); wp_red; [done|auto|].
  wp_step. apply wp_delete_range; [auto|]. intros s1 Hlen1 Hc1. cbn.
  wp_step. apply wp_fill; [auto|]. intros s2 [Hlen2 Hc2]. cbn. unfold set_len.
  wp_step; [auto|]. cbn. apply repr_set_len; [|done]. intros j.
  rewrite Hc2, enumerate_values, Hc1. destruct (values !! N.to_nat j) as [v|] eqn:Hv; [done|].
  apply lookup_ge_None_1 in Hv. unfold cut. rewrite (proj2 Hr). unfold size_of.
  destruct (N.leb_spec (N.of_nat (length values)) j); [|lia]. cbn.
  destruct (N.ltb_spec j (N.of_nat (length values) + (N.of_nat (length l) - N.of_nat (length values)))); [done|].
  apply lookup_ge_None_2. lia.
Qed.

(** *** Iteration *)

(** An iterator stands for the elements between its two ends. *)
Definition left_over (l : list V) (it : StateVecIter) : list V :=
  drop (N.to_nat (next_i it)) (take (N.to_nat (iter_len it)) l).

Definition iter_ok (l : list V) (it : StateVecIter) : Prop := next_i it <= iter_len it <= size_of l.

Lemma next_spec s l it :
  repr s l -> iter_ok l it ->
  wp (next vec it) (returns (fun r s' => s' = s /\ iter_ok l (snd r) /\
    fst r = head (left_over l it) /\ left_over l (snd r) = tail (left_over l it))) s.
Proof.
  intros [_ Hc] [Hi Hn]. unfold next, size_of in *. destruct (N.leb_spec (iter_len it) (next_i it)) as [Hle|Hlt].
  - wp_step. cbn. unfold left_over. rewrite drop_ge; [by repeat split|]. rewrite length_take. lia.
  - unfold get. wp_step. wp_step; [auto|]. rewrite Hc.
    destruct (lookup_lt_is_Some_2 l (N.to_nat (next_i it))) as [v Hv]; [lia|]. rewrite Hv.
    wp_step. cbn. unfold left_over, iter_ok, size_of. cbn.
    erewrite (drop_S (take _ l) v (N.to_nat (next_i it))) by (rewrite lookup_take_lt; [done|lia]).
    repeat split; [lia..|]. cbn. f_equal. lia.
Qed.

Lemma init_snoc l v : init (l ++ [v]) = l.
Proof. unfold init. rewrite length_app. cbn. rewrite Nat.add_sub. apply take_app_length. Qed.

Lemma next_back_spec s l it :
  repr s l -> iter_ok l it ->
  wp (next_back vec it) (returns (fun r s' => s' = s /\ iter_ok l (snd r) /\
    fst r = list.last (left_over l it) /\ left_over l (snd r) = init (left_over l it))) s.
Proof.
  intros [_ Hc] [Hi Hn]. unfold next_back, size_of in *. destruct (N.eqb_spec (iter_len it) (next_i it)) as [Heq|Hne].
  - wp_step. cbn. unfold left_over. rewrite drop_ge; [by repeat split|]. rewrite length_take. lia.
  - unfold checked_sub. destruct (N.leb_spec 1 (iter_len it)); [|lia].
    wp_step. apply wp_expect_some; [|done]. intros ? [= <-]. cbn.
    unfold get. wp_step. wp_step; [auto|]. rewrite Hc.
    destruct (lookup_lt_is_Some_2 l (N.to_nat (iter_len it - 1))) as [v Hv]; [lia|]. rewrite Hv.
    wp_step. cbn. unfold left_over, iter_ok, size_of. cbn.
    replace (N.to_nat (iter_len it)) with (Datatypes.S (N.to_nat (iter_len it - 1))) by lia.
    rewrite (take_S_r _ _ v) by done. rewrite drop_app_le by (rewrite length_take; lia).
    repeat split; [lia|lia| |].
    + by rewrite last_snoc.
    + by rewrite init_snoc.
Qed.

Lemma collect_iter_spec s l : repr s l -> forall fuel it,
  iter_ok l it -> (length (left_over l it) < fuel)%nat ->
  wp (collect_iter vec fuel it) (returns (fun r s' => r = left_over l it /\ s' = s)) s.
Proof.
  intros Hr. induction fuel as [|fuel IH]; intros it Hit Hf; [lia|]. cbn [collect_iter].
  apply wp_bind. eapply wp_mono; [by apply next_spec|].
  intros [[r it']|e|] s'; [|done..]. cbn. intros (-> & Hit' & -> & Htl).
  destruct (left_over l it) as [|v rest]; cbn in *; [by wp_step|].
  wp_step. eapply wp_mono; [apply IH; [done|]; rewrite Htl; lia|].
  intros [r|e|] s'; [|done..]. intros [-> ->]. cbn. wp_step. cbn. by rewrite Htl.
Qed.

Lemma collect_spec s l : repr s l -> wp (collect vec) (returns (fun r s' => r = l /\ s' = s)) s.
Proof.
  intros Hr. unfold collect, iter. wp_step. apply wp_bind, (wp_len_vec s l); wp_red; [done|auto|].
  wp_step. cbn.
  eapply wp_mono; [apply (collect_iter_spec s l Hr (Datatypes.S (N.to_nat (size_of l))) (mkIter (size_of l) 0))|].
  - split; cbn; lia.
  - unfold left_over. cbn. rewrite drop_0, length_take. lia.
  - intros [r|e|] s'; [|done..]. intros [-> ->]. split; [|done]. unfold left_over. cbn.
    rewrite drop_0, take_ge; [done|]. unfold size_of. lia.
Qed.
End Facts.
End VecFacts.

(** ** The operations as requests *)
Module VecProperties.
Import Vec VecFacts.

Inductive vec_op (V : Type) : Type :=
| OpLen
| OpSet (i : N) (v : V)
| OpGet (i : N)
| OpGetOrErr (i : N)
| OpPush (v : V)
| OpPop
| OpRemove (i : N)
| OpClear
| OpSetAll (values : list V)
| OpLast
| OpIter.
Arguments OpLen {V}. Arguments OpSet {V} _ _. Arguments OpGet {V} _. Arguments OpGetOrErr {V} _.
Arguments OpPush {V} _. Arguments OpPop {V}. Arguments OpRemove {V} _. Arguments OpClear {V}.
Arguments OpSetAll {V} _. Arguments OpLast {V}. Arguments OpIter {V}.

Inductive reply (V : Type) : Type :=
| RUnit
| RLen (n : N)
| ROption (o : option V)
| RResult (r : V + StateVecError)
| RSet (r : unit + StateVecError)
| RList (l : list V).
Arguments RUnit {V}. Arguments RLen {V} _. Arguments ROption {V} _. Arguments RResult {V} _.
Arguments RSet {V} _. Arguments RList {V} _.

Section Refinement.
Context {Sp : Spec} {G : Type} `{GasMeterLaws G} {S V : Type}.
Context (vec : StateVec S V) {Lens : VecLens vec}.

Definition exec (op : vec_op V) : M (acc G S) StateAccessorError (reply V) :=
  match op with
  | OpLen => let! n := len vec in ret (RLen n)
  | OpSet i v => let! r := set vec i v in ret (RSet r)
  | OpGet i => let! o := get vec i in ret (ROption o)
  | OpGetOrErr i => let! r := get_or_err vec i in ret (RResult r)
  | OpPush v => push vec v ;;; ret RUnit
  | OpPop => let! o := pop vec in ret (ROption o)
  | OpRemove i => let! o := remove vec i in ret (ROption o)
  | OpClear => clear vec ;;; ret RUnit
  | OpSetAll values => set_all vec values ;;; ret RUnit
  | OpLast => let! o := last vec in ret (ROption o)
  | OpIter => let! l := collect vec in ret (RList l)
  end.

Fixpoint exec_all (ops : list (vec_op V)) : M (acc G S) StateAccessorError (list (reply V)) :=
  match ops with
  | [] => ret []
  | op :: ops => let! r := exec op in let! rs := exec_all ops in ret (r :: rs)
  end.
End Refinement.

(** What the operations mean on a list. *)
Definition spec_exec {V} (op : vec_op V) (l : list V) : reply V * list V :=
  match op with
  | OpLen => (RLen (size_of l), l)
  | OpSet i v =>
      if i <? size_of l then (RSet (inl tt), <[N.to_nat i := v]> l) else (RSet (inr (IndexOutOfBounds i)), l)
  | OpGet i => (ROption (l !! N.to_nat i), l)
  | OpGetOrErr i => (RResult (match l !! N.to_nat i with Some v => inl v | None => inr (IndexOutOfBounds i) end), l)
  | OpPush v => (RUnit, l ++ [v])
  | OpPop => (ROption (list.last l), take (length l - 1) l)
  | OpRemove i => (ROption (l !! N.to_nat i), delete (N.to_nat i) l)
  | OpClear => (RUnit, [])
  | OpSetAll values => (RUnit, values)
  | OpLast => (ROption (list.last l), l)
  | OpIter => (RList l, l)
  end.

Fixpoint spec_all {V} (ops : list (vec_op V)) (l : list V) : list (reply V) * list V :=
  match ops with
  | [] => ([], l)
  | op :: ops =>
      match spec_exec op l with
      | (r, l) => match spec_all ops l with (rs, l) => (r :: rs, l) end
      end
  end.

(** The elements an operation may add. *)
Definition growth {V} (op : vec_op V) : N :=
  match op with OpPush _ => 1 | OpSetAll values => size_of values | _ => 0 end.

Definition growths {V} (ops : list (vec_op V)) : N := foldr (fun op n => growth op + n) 0 ops.

Lemma growth_bounds {V} (op : vec_op V) l : size_of (snd (spec_exec op l)) <= size_of l + growth op.
Proof.
  destruct op; cbn [spec_exec snd growth]; unfold size_of; cbn [length]; try lia.
  - destruct (_ <? _); cbn; rewrite ?length_insert; lia.
  - rewrite length_app. cbn. lia.
  - rewrite length_take. lia.
  - rewrite delete_take_drop, length_app, length_take, length_drop. lia.
Qed.

Section RefinementProofs.
Context {Sp : Spec} {G : Type} `{GasMeterLaws G} {S V : Type}.
Context (vec : StateVec S V) {Lens : VecLens vec}.

(** The answer and the list after an operation are those of the list. *)
Definition agrees (op : vec_op V) (l : list V) (r : reply V) (s' : S) : Prop :=
  r = fst (spec_exec op l) /\ repr vec s' (snd (spec_exec op l)).

Lemma exec_by {A} (m : M (acc G S) StateAccessorError A) (f : A -> reply V) (Q : A -> S -> Prop) op l s :
  wp m (returns Q) s -> (forall a s', Q a s' -> agrees op l (f a) s') ->
  wp (let! a := m in ret (f a)) (returns (agrees op l)) s.
Proof.
  intros Hm Hq. apply wp_bind. eapply wp_mono; [exact Hm|].
  intros [a|e|] s' Ha; cbn in *; [|done..]. wp_step. by apply Hq.
Qed.

Lemma len_spec s l : repr vec s l -> wp (len vec) (returns (fun r s' => r = size_of l /\ s' = s)) s.
Proof. intros Hr. by apply (wp_len_vec vec s l); [done|cbn; auto|]. Qed.

Lemma exec_spec op s l :
  repr vec s l -> size_of l + growth op <= u64_max -> wp (exec vec op) (returns (agrees op l)) s.
Proof.
  intros Hr Hm. destruct op; cbn [exec growth] in *; (eapply exec_by; [|shelve]).
  - by apply len_spec.
  - by apply set_spec.
  - by apply get_spec.
  - by apply get_or_err_spec.
  - apply push_spec; (done || lia).
  - by apply pop_spec.
  - apply remove_spec; (done || lia).
  - by eapply clear_spec.
  - by eapply set_all_spec.
  - by apply last_spec.
  - by apply collect_spec.
  Unshelve. all: cbn; unfold agrees; cbn.
  all: intros a s' Ha; repeat case_match; destruct_and?; simplify_eq; try done; cbn; auto.
Qed.

Lemma exec_all_spec : forall ops s l,
  repr vec s l -> size_of l + growths ops <= u64_max ->
  wp (exec_all vec ops) (returns (fun rs s' => rs = fst (spec_all ops l) /\ repr vec s' (snd (spec_all ops l)))) s.
Proof.
  induction ops as [|op ops IH]; intros s l Hr Hm; cbn [exec_all spec_all growths foldr] in *; [by wp_step|].
  fold (growths ops) in Hm. wp_step. eapply wp_mono; [apply (exec_spec op s l Hr); lia|].
  intros [r|e|] s' Ha; [|done..]. destruct Ha as [-> Hr']. pose proof (growth_bounds op l) as Hg.
  destruct (spec_exec op l) as [r l']. cbn in *. wp_step. eapply wp_mono; [apply IH; [done|lia]|].
  intros [rs|e|] s'' Ha; [|done..]. destruct Ha as [-> Hr'']. destruct (spec_all ops l') as [rs l'']. cbn. by wp_step.
Qed.

(** C33: a [StateVec] is a list. Any sequence of [len], [set], [get],
    [get_or_err], [push], [pop], [remove], [clear], [set_all], [last] and
    iteration through [iter], run from a state that holds the list [l], answers
    what the same sequence answers on [l] and ends in a state that holds the
    list the sequence ends with: no element is lost when [remove] moves the
    tail down, and none is left behind by [pop], [clear] or a shorter
    [set_all]. The run never panics as long as the vector stays below 2^64
    elements; it stops early only when the gas meter refuses a charge. *)
Theorem state_vec_refines_list (ops : list (vec_op V)) (a : acc G S) (l : list V) :
  meter_wf (meter a) -> repr vec (store a) l -> size_of l + growths ops <= u64_max ->
  match exec_all vec ops a with
  | (Ok rs, a') => rs = fst (spec_all ops l) /\ repr vec (store a') (snd (spec_all ops l))
  | (Err _, _) => can_fail (G := G)
  | (Panic, _) => False
  end.
Proof.
  destruct a as [g s]. intros Hg Hr Hm. pose proof (exec_all_spec ops s l Hr Hm g Hg) as Hwp.
  destruct (exec_all vec ops (Acc g s)) as [[rs|e|] a']; exact (proj2 Hwp).
Qed.
End RefinementProofs.

(** A module whose only state is one vector. *)
Definition demo_cells : Type := option N * gmap N N.
Definition demo_vec : StateVec demo_cells N :=
  mkStateVec (mkStateValue "demo.len"%string User fst (fun o s => (o, snd s)))
             (mkStateMap "demo.elems"%string User snd (fun m s => (fst s, m))).
#[global] Instance demo_vec_lens : VecLens demo_vec.
Proof. by split; intros ? []. Qed.

Definition demo_ops : list (vec_op N) :=
  [OpPush 7; OpPush 8; OpPush 9; OpRemove 0; OpSet 5 1; OpIter; OpSetAll [1]; OpPop; OpPop; OpLen].

Definition demo_cells0 : demo_cells := (None, ∅).

Lemma state_vec_refines_list_witness :
  match exec_all (Sp := test_spec) (G := unit) demo_vec demo_ops (Acc tt demo_cells0) with
  | (Ok rs, a') =>
      rs = [RUnit; RUnit; RUnit; ROption (Some 7); RSet (inr (IndexOutOfBounds 5)); RList [8; 9]; RUnit;
            ROption (Some 1); ROption None; RLen 0] /\ repr demo_vec (store a') []
  | (Err _, _) => can_fail (G := unit)
  | (Panic, _) => False
  end.
Proof.
  apply (state_vec_refines_list (Sp := test_spec) (G := unit) demo_vec demo_ops (Acc tt demo_cells0) []);
    [exact I|by split; [|intros i; apply lookup_empty]|vm_compute; discriminate].
Defined.
End VecProperties.
