(* ===== verification/SafeVec.v ===== *)
(** * Vectors with a limited length

    [SafeVec] of rollup-interface/src/common/safe_vec.rs: a vector that never
    holds, and never asks the allocator for, more than [MAX_SIZE] elements.  It is
    the type of the lists in call messages, so that its decoders bound what a
    transaction can make a node allocate.

    The record keeps the capacity of the underlying [Vec] and, as a ghost, the
    sizes requested from the allocator.  The allocator is a parameter: it may fail
    and may return more than was asked for.  Running out of memory in an operation
    of [Vec] that cannot report it aborts, which is modelled as a panic. *)

From Stdlib Require Import NArith Lia.
From stdpp Require Import base numbers option list.
From S2P Require Import Prelude Ints.

(** [n] elements requested; the capacity obtained, or failure. *)
Class Allocator : Type := {
  allocate : N -> option N;
  allocate_enough : forall n c, allocate n = Some c -> n <= c
}.

(** [std::ops::Bound] *)
Inductive Bound : Type := Included (n : N) | Excluded (n : N) | Unbounded.

Record CapacityError (A : Type) : Type := mkCapacityError { item : A }.
Arguments mkCapacityError {A} item.

Module SafeVec.
Section SafeVec.
(** [size_of] is [std::mem::size_of::<T>()]. *)
Context {Al : Allocator} {T : Type} (size_of MAX_SIZE : N).

Record t : Type := mk { contents : list T; capacity : N; requests : list N }.

Definition new : t := mk [] 0 [].

Definition with_contents (l : list T) (s : t) : t := mk l (capacity s) (requests s).

Definition no_error : CapacityError unit := mkCapacityError tt.

Definition get {E A} (f : t -> A) : M t E A := fun s => (Ok (f s), s).
Definition update {E} (f : list T -> list T) : M t E unit := fun s => (Ok tt, with_contents (f (contents s)) s).

(** ** The operations of [Vec] that allocate *)

Definition request (n : N) : M t (CapacityError unit) unit :=
  fun s => match allocate n with
           | Some c => (Ok tt, mk (contents s) c (requests s ++ [n]))
           | None => (Err no_error, mk (contents s) (capacity s) (requests s ++ [n]))
           end.

Definition vec_try_reserve_exact (additional : N) : M t (CapacityError unit) unit :=
  fun s => if additional <=? capacity s - len (contents s) then (Ok tt, s)
           else request (len (contents s) + additional) s.

(** The smallest capacity a [Vec] grows to by itself. *)
Definition min_non_zero_cap : N := if size_of =? 1 then 8 else if size_of <=? 1024 then 4 else 1.

Definition vec_reserve {E} (additional : N) : M t E unit :=
  fun s => if additional <=? capacity s - len (contents s) then (Ok tt, s)
           else expect (request (N.max min_non_zero_cap (N.max (capacity s * 2) (len (contents s) + additional)))) s.

Definition vec_extend {E} (l : list T) : M t E unit :=
  vec_reserve (len l) ;;; update (fun c => c ++ l).

(** [start..end] of the bounds, as [std::slice::range] computes it for a slice of
    length [n]; it panics when it is not a range of the slice. *)
Definition range_of (n : N) (start_bound end_bound : Bound) : option (nat * nat) :=
  let start := match start_bound with Included a => a | Excluded a => a + 1 | Unbounded => 0 end in
  let stop := match end_bound with Included b => b + 1 | Excluded b => b | Unbounded => n end in
  if (start <=? stop) && (stop <=? n) then Some (N.to_nat start, N.to_nat stop) else None.

Definition slice_range {E} (start_bound end_bound : Bound) : M t E (nat * nat) :=
  let! n := get (fun s => len (contents s)) in
  expect_some (range_of n start_bound end_bound).

(** ** The operations of [SafeVec] *)

Definition try_reserve (items_to_add : N) : M t (CapacityError unit) unit :=
  let! length := get (fun s => len (contents s)) in
  let! cap := get capacity in
  let new_len := saturating_add u64_max length items_to_add in
  if MAX_SIZE <? new_len then throw no_error
  else if new_len <=? cap then ret tt
  else
    let! amount_to_reserve :=
      expect_some (checked_sub (N.max new_len (N.min MAX_SIZE (wrap u64_max (cap * 2)))) length) in
    vec_try_reserve_exact amount_to_reserve.

Definition try_with_capacity (cap : N) : M t (CapacityError unit) unit :=
  (fun _ => (Ok tt, new)) ;;; try_reserve cap.

Definition try_reserve_exact (additional : N) : M t (CapacityError unit) unit :=
  let! length := get (fun s => len (contents s)) in
  if MAX_SIZE <? saturating_add u64_max length additional then throw no_error
  else vec_try_reserve_exact additional.

Definition remaining_capacity (s : t) : N := capacity s - len (contents s).

Definition push_unchecked {E} (x : T) : M t E unit := vec_extend [x].

Definition try_push (value : T) : M t (CapacityError T) unit :=
  map_err (fun _ => mkCapacityError value) (try_reserve 1) ;;; push_unchecked value.

Definition try_insert (index : N) (element : T) : M t (CapacityError T) unit :=
  let! reserved := try_catch (try_reserve 1) in
  let! length := get (fun s => len (contents s)) in
  if match reserved with inr _ => true | inl _ => length <? index end then throw (mkCapacityError element)
  else
    vec_reserve 1 ;;;
    update (fun c => take (N.to_nat index) c ++ element :: drop (N.to_nat index) c).

(** [try_append] and [try_extend_from_slice] *)
Definition try_append (other : list T) : M t (CapacityError unit) unit :=
  try_reserve (len other) ;;; vec_extend other.

Definition try_extend_from_within (start_bound end_bound : Bound) : M t (CapacityError unit) unit :=
  let! length := get (fun s => len (contents s)) in
  let '(start, to_add) :=
    match start_bound with Included start => (start, 1) | Excluded start => (start, 0) | Unbounded => (0, 0) end in
  let '(stop, to_add) :=
    match end_bound with
    | Included stop => (stop, to_add + 1) | Excluded stop => (stop, to_add) | Unbounded => (length, to_add) end in
  let! needed_elements := expect_some (checked_sub stop start) in
  let! _ := ok_or (checked_add u64_max needed_elements to_add) no_error in
  try_reserve needed_elements ;;;
  let! range := slice_range start_bound end_bound in
  let! source := get (fun s => take (snd range - fst range) (drop (fst range) (contents s))) in
  vec_extend source.

(** The items of an iterator that says it has at least [size_hint] of them. *)
Fixpoint push_all (items : list T) : M t (CapacityError unit) unit :=
  match items with
  | [] => ret tt
  | x :: items => map_err (fun _ => no_error) (try_push x) ;;; push_all items
  end.

Definition try_extend (size_hint : N) (items : list T) : M t (CapacityError unit) unit :=
  try_reserve size_hint ;;; push_all items.

Definition clear {E} : M t E unit := update (fun _ => []).

Definition retain {E} (f : T -> bool) : M t E unit := update (List.filter f).

Definition truncate {E} (n : N) : M t E unit := update (take (N.to_nat n)).

Definition remove {E} (index : N) : M t E T :=
  let! l := get contents in
  let! x := expect_some (l !! N.to_nat index) in
  update (fun c => take (N.to_nat index) c ++ drop (S (N.to_nat index)) c) ;;; ret x.

(** The drained elements, once the iterator is consumed or dropped. *)
Definition drain {E} (start_bound end_bound : Bound) : M t E (list T) :=
  let! range := slice_range start_bound end_bound in
  let! source := get (fun s => take (snd range - fst range) (drop (fst range) (contents s))) in
  update (fun c => take (fst range) c ++ drop (snd range) c) ;;; ret source.

(** [dedup_by]: of a run of equal elements the first one stays.  [same x y] is
    [same_bucket y x]: it gets the elements in the opposite order. *)
Fixpoint dedup_run (same : T -> T -> bool) (x : T) (l : list T) : list T :=
  match l with
  | [] => []
  | y :: l => if same x y then dedup_run same x l else y :: dedup_run same y l
  end.

Definition dedup_by {E} (same : T -> T -> bool) : M t E unit :=
  update (fun l => match l with [] => [] | x :: l => x :: dedup_run same x l end).

(** [TryFrom<&[T]>] *)
Definition try_from (value : list T) : option t :=
  if MAX_SIZE <? len value then None else Some (mk value (len value) [len value]).

(** [TryFrom<Vec<T>>], of a vector with capacity [cap]: nothing is allocated. *)
Definition try_from_vec (cap : N) (value : list T) : option t :=
  if MAX_SIZE <? len value then None else Some (mk value cap []).

(** *** The feature [vec-compat]; its other operations unwrap the ones above *)

Definition remaining_max_capacity (s : t) : option N := checked_sub MAX_SIZE (len (contents s)).

(** The loop of [extend], and the assertion after it. *)
Fixpoint extend_loop {E} (remaining : N) (items : list T) : M t E unit :=
  match items with
  | [] => ret tt
  | x :: items => if remaining =? 0 then panic else push_unchecked x ;;; extend_loop (remaining - 1) items
  end.

(** [Extend::extend], of an iterator that says it has at least [size_hint] items. *)
Definition extend {E} (size_hint : N) (items : list T) : M t E unit :=
  expect (try_reserve size_hint) ;;;
  let! remaining := get remaining_max_capacity in
  let! remaining := expect_some remaining in
  extend_loop remaining items.

(** [FromIterator::from_iter]: [Vec::from_iter] collects the items into a vector of some
    capacity [cap]; [None] is the panic of the conversion. *)
Definition from_iter (cap : N) (items : list T) : option t :=
  let? s := try_from_vec (N.max cap (len items)) items in
  Some (mk (contents s) (capacity s) [capacity s]).

(** ** Decoding *)

Definition cautious_num_elts : N := (32 * 1024) / size_of.

Definition cautious_size_hint (size_hint : N) : N := N.min cautious_num_elts size_hint.

Inductive DecodeError : Type := ZstForbidden | UnexpectedLength | OutOfMemory | Io | InvalidLength (n : N).

Definition run {A} (m : M t (CapacityError A) unit) (s : t) : outcome DecodeError t :=
  match m s with
  | (Ok _, s') => Ok s'
  | (Err _, _) => Err OutOfMemory
  | (Panic, _) => Panic
  end.

(** *** borsh *)

(** [T::deserialize_reader] *)
Context (read : list N -> option (T * list N)).

Definition read_u32 (bz : list N) : option (N * list N) :=
  match bz with
  | a :: b :: c :: d :: rest => Some (a + 256 * (b + 256 * (c + 256 * d)), rest)
  | _ => None
  end.

(** The [for] loop that fills the capacity. *)
Fixpoint read_for (k : nat) (output : t) (bz : list N) : outcome DecodeError (t * list N) :=
  match k with
  | O => Ok (output, bz)
  | S k =>
      match read bz with
      | None => Err Io
      | Some (x, bz) =>
          match run (A := unit) (push_unchecked x) output with
          | Ok output => read_for k output bz
          | Err e => Err e
          | Panic => Panic
          end
      end
  end.

(** The [while] loop: [None] when the fuel runs out. *)
Fixpoint read_while (fuel : nat) (remaining_iters : N) (output : t) (bz : list N)
  : option (outcome DecodeError (t * list N)) :=
  if remaining_iters =? 0 then Some (Ok (output, bz))
  else
    match fuel with
    | O => None
    | S fuel =>
        let k := N.min (remaining_capacity output) (remaining_iters - 1) in
        match read_for (N.to_nat k) output bz with
        | Ok (output, bz) =>
            match read bz with
            | None => Some (Err Io)
            | Some (x, bz) =>
                match run (try_push x) output with
                | Ok output => read_while fuel (remaining_iters - k - 1) output bz
                | Err e => Some (Err e)
                | Panic => Some Panic
                end
            end
        | Err e => Some (Err e)
        | Panic => Some Panic
        end
    end.

(** Every round reads at least one element. *)
Definition deserialize_reader (bz : list N) : option (outcome DecodeError (t * list N)) :=
  if size_of =? 0 then Some (Err ZstForbidden)
  else
    match read_u32 bz with
    | None => Some (Err Io)
    | Some (length, bz) =>
        if MAX_SIZE <? length then Some (Err UnexpectedLength)
        else
          match run (try_with_capacity (cautious_size_hint length)) new with
          | Ok output => read_while (N.to_nat length) length output bz
          | Err e => Some (Err e)
          | Panic => Some Panic
          end
    end.

(** *** serde *)

(** What is left of a sequence: its elements, up to one that fails to parse. *)
Definition SeqAccess : Type := list (option T).

(** [seq.next_element()?] *)
Definition next_element (seq : SeqAccess) : outcome DecodeError (option T * SeqAccess) :=
  match seq with
  | [] => Ok (None, [])
  | Some x :: seq => Ok (Some x, seq)
  | None :: _ => Err Io
  end.

(** [inl]: the loop returns the vector because the sequence ended. *)
Fixpoint visit_for (k : nat) (output : t) (seq : SeqAccess) : outcome DecodeError (t + t * SeqAccess) :=
  match k with
  | O => Ok (inr (output, seq))
  | S k =>
      match next_element seq with
      | Ok (None, _) => Ok (inl output)
      | Ok (Some x, seq) =>
          match run (A := unit) (push_unchecked x) output with
          | Ok output => visit_for k output seq
          | Err e => Err e
          | Panic => Panic
          end
      | Err e => Err e
      | Panic => Panic
      end
  end.

Fixpoint visit_while (fuel : nat) (max_iters max_remaining_iters : N) (output : t) (seq : SeqAccess)
  : option (outcome DecodeError t) :=
  if max_remaining_iters =? 0 then
    match next_element seq with
    | Ok (None, _) => Some (Ok output)
    | Ok (Some _, _) => Some (Err (InvalidLength (MAX_SIZE + 1)))
    | Err e => Some (Err e)
    | Panic => Some Panic
    end
  else
    match fuel with
    | O => None
    | S fuel =>
        let k := N.min (remaining_capacity output) (max_remaining_iters - 1) in
        match visit_for (N.to_nat k) output seq with
        | Ok (inl output) => Some (Ok output)
        | Ok (inr (output, seq)) =>
            match next_element seq with
            | Ok (None, _) => Some (Ok output)
            | Ok (Some x, seq) =>
                match run (try_push x) output with
                | Ok output => visit_while fuel max_iters (max_remaining_iters - k - 1) output seq
                | Err _ => Some (Err (InvalidLength (max_iters - (max_remaining_iters - k - 1))))
                | Panic => Some Panic
                end
            | Err e => Some (Err e)
            | Panic => Some Panic
            end
        | Err e => Some (Err e)
        | Panic => Some Panic
        end
    end.

Definition visit_seq (size_hint : option N) (seq : SeqAccess) : option (outcome DecodeError t) :=
  match size_hint with
  | Some hint =>
      if MAX_SIZE <? hint then Some (Err (InvalidLength hint))
      else
        match run (try_reserve (cautious_size_hint hint)) new with
        | Ok output => visit_while (N.to_nat hint) hint hint output seq
        | Err _ => Some (Err (InvalidLength hint))
        | Panic => Some Panic
        end
  | None => visit_while (N.to_nat MAX_SIZE) MAX_SIZE MAX_SIZE new seq
  end.
End SafeVec.
End SafeVec.

(** ** Proofs *)
Module SafeVecFacts.
Import SafeVec.

Lemma filter_le {A} (f : A -> bool) (l : list A) : (length (List.filter f l) <= length l)%nat.
Proof. induction l as [|x l IH]; cbn; [done|]. destruct (f x); cbn; lia. Qed.

Lemma dedup_run_le {A} (same : A -> A -> bool) (l : list A) : forall x, (length (dedup_run same x l) <= length l)%nat.
Proof. induction l as [|y l IH]; intros x; cbn; [done|]. destruct (same x y); cbn; [specialize (IH x)|specialize (IH y)]; lia. Qed.

Section Facts.
Context {Al : Allocator} {T : Type} (size_of MAX_SIZE : N).
(** The limit is a [usize] that no vector reaches. *)
Hypothesis limit_small : MAX_SIZE < u64_max.
Implicit Types (s : t (T := T)) (l : list T).

(** Neither the vector nor any allocation is larger than the limit. *)
Record wf s : Prop := mkWf {
  wf_len : len (contents s) <= MAX_SIZE;
  wf_cap : len (contents s) <= capacity s;
  wf_requests : Forall (fun n => n <= MAX_SIZE) (requests s)
}.

(** An allocation within the limit failed. *)
Definition out_of_memory : Prop := exists n, n <= MAX_SIZE /\ allocate n = None.

Definition post {E A} (m : M (t (T := T)) E A) (Q : outcome E A -> t (T := T) -> Prop) s : Prop :=
  let '(o, s') := m s in Q o s'.

Lemma post_bind {E A B} (m : M t E A) (k : A -> M t E B) Q s :
  post m (fun o s' => match o with Ok a => post (k a) Q s' | Err e => Q (Err e) s' | Panic => Q Panic s' end) s ->
  post (bind m k) Q s.
Proof. unfold post, bind. by destruct (m s) as [[a|e|] s']. Qed.

Lemma post_mono {E A} (m : M t E A) (P Q : outcome E A -> t -> Prop) s :
  post m P s -> (forall o s', P o s' -> Q o s') -> post m Q s.
Proof. unfold post. destruct (m s) as [o s']. auto. Qed.

Lemma post_map_err {E E' A} (f : E -> E') (m : M t E A) Q s :
  post m (fun o s' => match o with Ok a => Q (Ok a) s' | Err e => Q (Err (f e)) s' | Panic => Q Panic s' end) s ->
  post (map_err f m) Q s.
Proof. unfold post, map_err. by destruct (m s) as [[a|e|] s']. Qed.

Lemma wf_new : wf new.
Proof. split; unfold len; cbn; [lia|lia|constructor]. Qed.

(** The contents may be replaced by no more elements than there is room for. *)
Lemma wf_with_contents s l : wf s -> len l <= len (contents s) -> wf (with_contents l s).
Proof. intros [? ? ?] ?. split; cbn; [lia|lia|done]. Qed.

(** *** Reserving *)

Definition reserved s (n : N) (o : outcome (CapacityError unit) unit) s' : Prop :=
  contents s' = contents s /\ wf s' /\
  match o with
  | Ok _ => len (contents s) + n <= MAX_SIZE /\ len (contents s) + n <= capacity s'
  | Err _ => MAX_SIZE < len (contents s) + n \/ out_of_memory
  | Panic => False
  end.

Lemma try_reserve_spec n s : wf s -> post (try_reserve MAX_SIZE n) (reserved s n) s.
Proof.
  intros Hs. unfold post, try_reserve, bind, get, vec_try_reserve_exact, request, expect_some, checked_sub, reserved.
  cbn. assert (Hl := wf_len _ Hs). assert (Hc := wf_cap _ Hs).
  unfold saturating_add. destruct (N.ltb_spec MAX_SIZE (N.min (len (contents s) + n) u64_max)) as [Hm|Hm]; cbn.
  { split_and!; [done|done|]. left. lia. }
  rewrite (N.min_l _ u64_max) in * by lia. destruct (N.leb_spec (len (contents s) + n) (capacity s)) as [Hn|Hn]; cbn.
  { split_and!; [done|done|lia|lia]. }
  set (want := N.max (len (contents s) + n) (N.min MAX_SIZE (wrap u64_max (capacity s * 2)))).
  assert (want <= MAX_SIZE /\ len (contents s) + n <= want) as [Hw1 Hw2] by (unfold want; lia).
  rewrite (proj2 (N.leb_le (len (contents s)) want)) by lia. cbn.
  rewrite (proj2 (N.leb_gt (want - len (contents s)) (capacity s - len (contents s)))) by lia.
  replace (len (contents s) + (want - len (contents s))) with want by lia.
  destruct (allocate want) as [c|] eqn:Ha; cbn.
  - apply allocate_enough in Ha. split_and!; [done| |lia|lia].
    split; cbn; [lia|lia|]. apply Forall_app. split; [apply Hs|by constructor].
  - split_and!; [done| |right; by exists want].
    split; cbn; [lia|lia|]. apply Forall_app. split; [apply Hs|by constructor].
Qed.

Lemma try_reserve_exact_spec n s : wf s -> post (try_reserve_exact MAX_SIZE n) (reserved s n) s.
Proof.
  intros Hs. unfold post, try_reserve_exact, bind, get, vec_try_reserve_exact, request, reserved. cbn.
  assert (Hl := wf_len _ Hs). assert (Hc := wf_cap _ Hs).
  unfold saturating_add. destruct (N.ltb_spec MAX_SIZE (N.min (len (contents s) + n) u64_max)) as [Hm|Hm]; cbn.
  { split_and!; [done|done|]. left. lia. }
  rewrite (N.min_l _ u64_max) in * by lia. destruct (N.leb_spec n (capacity s - len (contents s))) as [Hn|Hn]; cbn.
  { split_and!; [done|done|lia|lia]. }
  destruct (allocate (len (contents s) + n)) as [c|] eqn:Ha; cbn.
  - apply allocate_enough in Ha. split_and!; [done| |lia|lia].
    split; cbn; [lia|lia|]. apply Forall_app. split; [apply Hs|constructor; [lia|constructor]].
  - split_and!; [done| |right; eexists; split; [|done]; lia].
    split; cbn; [lia|lia|]. apply Forall_app. split; [apply Hs|constructor; [lia|constructor]].
Qed.

(** With room for it, extending the vector does not allocate. *)
Lemma vec_extend_spec {E} l s (Q : outcome E unit -> t -> Prop) :
  len (contents s) + len l <= capacity s ->
  Q (Ok tt) (with_contents (contents s ++ l) s) -> post (vec_extend size_of l) Q s.
Proof.
  intros Hc Hq. unfold post, vec_extend, bind, vec_reserve, update.
  rewrite (proj2 (N.leb_le (len l) (capacity s - len (contents s)))) by lia. done.
Qed.

Lemma wf_extended s l : wf s -> len (contents s) + len l <= MAX_SIZE -> len (contents s) + len l <= capacity s ->
  wf (with_contents (contents s ++ l) s).
Proof. intros [? ? ?] ? ?. split; cbn; [|..|done]; unfold len in *; rewrite length_app; lia. Qed.

(** What an operation that appends [l] does: all of it, or nothing and an error. *)
Definition appended {E} s l (o : outcome E unit) s' : Prop :=
  wf s' /\
  match o with
  | Ok _ => contents s' = contents s ++ l /\ len (contents s) + len l <= MAX_SIZE
  | Err _ => contents s' = contents s /\ (MAX_SIZE < len (contents s) + len l \/ out_of_memory)
  | Panic => False
  end.

Lemma reserve_extend {E} (f : CapacityError unit -> E) l s :
  wf s -> post (map_err f (try_reserve MAX_SIZE (len l)) ;;; vec_extend size_of l) (appended s l) s.
Proof.
  intros Hs. apply post_bind, post_map_err. eapply post_mono; [by apply try_reserve_spec|].
  intros [[]|e|] s' (Hc & Hs' & Hr); [|by split_and!|done]. destruct Hr as [Hm Hcap].
  apply vec_extend_spec; [by rewrite Hc|]. split; [|by rewrite Hc].
  apply wf_extended; [done|by rewrite Hc|by rewrite Hc].
Qed.

Lemma try_push_spec x s : wf s -> post (try_push size_of MAX_SIZE x) (appended s [x]) s.
Proof. apply (reserve_extend (fun _ => mkCapacityError x) [x]). Qed.

Lemma try_append_spec l s : wf s -> post (try_append size_of MAX_SIZE l) (appended s l) s.
Proof.
  intros Hs. pose proof (reserve_extend (fun e => e) l s Hs) as Hp. unfold post, try_append, bind, map_err in *.
  destruct (try_reserve MAX_SIZE (len l) s) as [[]]; done.
Qed.

Lemma push_all_spec items : forall s, wf s ->
  post (push_all size_of MAX_SIZE items) (fun o s' => wf s' /\
    match o with
    | Ok _ => contents s' = contents s ++ items
    | Err _ => MAX_SIZE < len (contents s) + len items \/ out_of_memory
    | Panic => False
    end) s.
Proof.
  induction items as [|x items IH]; intros s Hs; cbn [push_all].
  { split; [done|]. by rewrite app_nil_r. }
  apply post_bind, post_map_err. eapply post_mono; [by apply try_push_spec|].
  intros [[]|e|] s1 [Hs1 Ho]; [|split; [done|]|done].
  - destruct Ho as [Hc Hm]. eapply post_mono; [by apply IH|]. intros [[]|e|] s' [Hs' Ho]; (split; [done|]); [|..|done].
    + by rewrite Ho, Hc, <- app_assoc.
    + rewrite Hc in Ho. destruct Ho as [Ho|Ho]; [left|by right]. unfold len in *. rewrite length_app in Ho. cbn in *. lia.
  - destruct Ho as [_ [Ho|Ho]]; [left|by right]. len_lia.
Qed.

Lemma try_insert_spec i x s : wf s ->
  post (try_insert size_of MAX_SIZE i x) (fun o s' => wf s' /\
    match o with
    | Ok _ => i <= len (contents s) /\ len (contents s) + 1 <= MAX_SIZE /\
        contents s' = take (N.to_nat i) (contents s) ++ x :: drop (N.to_nat i) (contents s)
    | Err _ => contents s' = contents s /\ (MAX_SIZE < len (contents s) + 1 \/ len (contents s) < i \/ out_of_memory)
    | Panic => False
    end) s.
Proof.
  intros Hs. unfold try_insert. apply post_bind. pose proof (try_reserve_spec 1 s Hs) as Hr.
  unfold post, try_catch in *. destruct (try_reserve MAX_SIZE 1 s) as [[[]|e|] s1]; destruct Hr as (Hc & Hs1 & Ho);
    [|unfold bind, get, throw; split; [done|]; split; [done|]; tauto|done].
  destruct Ho as [Hm Hcap]. unfold bind, get. rewrite Hc. destruct (N.ltb_spec (len (contents s)) i) as [Hi|Hi].
  { split; [done|]. split; [done|]. by right; left. }
  unfold vec_reserve. rewrite Hc, (proj2 (N.leb_le 1 (capacity s1 - len (contents s)))) by lia.
  unfold update. cbn. rewrite Hc. split; [|by split_and!].
  split; cbn; [..|apply Hs1]; unfold len in *; rewrite length_app; cbn; rewrite length_take, length_drop; lia.
Qed.

Lemma range_of_spec n a b x y : range_of n a b = Some (x, y) -> (x <= y <= N.to_nat n)%nat.
Proof.
  unfold range_of. cbv zeta. match goal with |- context [if ?c then _ else _] => destruct c eqn:Hc end; [|done].
  apply andb_prop in Hc as [H1%N.leb_le H2%N.leb_le]. intros [= <- <-]. lia.
Qed.
End Facts.
End SafeVecFacts.

(** ** What the vector promises *)
Module SafeVecProperties.
Import SafeVec SafeVecFacts.

(** The operations of the vector, with their arguments. *)
Inductive op (T : Type) : Type :=
| TryPush (x : T) | TryInsert (i : N) (x : T) | TryAppend (l : list T) | TryExtend (l : list T)
| TryReserve (n : N) | TryReserveExact (n : N) | Clear | Retain (f : T -> bool) | Truncate (n : N)
| Remove (i : N) | Drain (a b : Bound) | DedupBy (same : T -> T -> bool).
Arguments TryPush {T} x.
Arguments TryInsert {T} i x.
Arguments TryAppend {T} l.
Arguments TryExtend {T} l.
Arguments TryReserve {T} n.
Arguments TryReserveExact {T} n.
Arguments Clear {T}.
Arguments Retain {T} f.
Arguments Truncate {T} n.
Arguments Remove {T} i.
Arguments Drain {T} a b.
Arguments DedupBy {T} same.

Section Ops.
Context {Al : Allocator} {T : Type} (size_of MAX_SIZE : N).

(** Whether an operation succeeded; [None] if it panicked. *)
Definition result {E A} (r : outcome E A * t) : option (bool * t (T := T)) :=
  match r with (Ok _, s) => Some (true, s) | (Err _, s) => Some (false, s) | (Panic, _) => None end.

(** An iterator over a vector knows its length. *)
Definition exec (o : op T) (s : t) : option (bool * t) :=
  match o with
  | TryPush x => result (try_push size_of MAX_SIZE x s)
  | TryInsert i x => result (try_insert size_of MAX_SIZE i x s)
  | TryAppend l => result (try_append size_of MAX_SIZE l s)
  | TryExtend l => result (try_extend size_of MAX_SIZE (len l) l s)
  | TryReserve n => result (try_reserve MAX_SIZE n s)
  | TryReserveExact n => result (try_reserve_exact MAX_SIZE n s)
  | Clear => result (clear (E := unit) s)
  | Retain f => result (retain (E := unit) f s)
  | Truncate n => result (truncate (E := unit) n s)
  | Remove i => result (remove (E := unit) i s)
  | Drain a b => result (drain (E := unit) a b s)
  | DedupBy same => result (dedup_by (E := unit) same s)
  end.

Definition fits (n : N) (l : list T) : bool := len l + n <=? MAX_SIZE.

Definition grow (n : N) (l l' : list T) : option (bool * list T) :=
  if fits n l then Some (true, l') else Some (false, l).

(** The same on lists of at most [MAX_SIZE] elements. *)
Definition spec (o : op T) (l : list T) : option (bool * list T) :=
  match o with
  | TryPush x => grow 1 l (l ++ [x])
  | TryInsert i x =>
      if len l <? i then Some (false, l) else grow 1 l (take (N.to_nat i) l ++ x :: drop (N.to_nat i) l)
  | TryAppend l' | TryExtend l' => grow (len l') l (l ++ l')
  | TryReserve n | TryReserveExact n => grow n l l
  | Clear => Some (true, [])
  | Retain f => Some (true, List.filter f l)
  | Truncate n => Some (true, take (N.to_nat n) l)
  | Remove i => if i <? len l then Some (true, take (N.to_nat i) l ++ drop (S (N.to_nat i)) l) else None
  | Drain a b =>
      let? (x, y) := range_of (len l) a b in Some (true, take x l ++ drop y l)
  | DedupBy same => Some (true, match l with [] => [] | x :: l => x :: dedup_run same x l end)
  end.

Fixpoint run_all {A} (step : op T -> A -> option (bool * A)) (ops : list (op T)) (s : A) : option (list bool * A) :=
  match ops with
  | [] => Some ([], s)
  | o :: ops =>
      let? (b, s) := step o s in
      let? (bs, s) := run_all step ops s in
      Some (b :: bs, s)
  end.

Definition agrees (r : option (bool * t)) (r' : option (bool * list T)) : Prop :=
  match r, r' with
  | Some (b, s), Some (b', l) => b = b' /\ contents s = l /\ wf MAX_SIZE s
  | None, None => True
  | _, _ => False
  end.

Section WellFormed.
Hypothesis limit_small : MAX_SIZE < u64_max.

Definition keeps (r : option (bool * t (T := T))) : Prop := match r with Some (_, s) => wf MAX_SIZE s | None => True end.

Lemma keeps_post {E A} (m : M t E A) (Q : outcome E A -> t -> Prop) s :
  post m Q s -> (forall o s', Q o s' -> wf MAX_SIZE s') -> keeps (result (m s)).
Proof. unfold post. intros H HQ. destruct (m s) as [[a|e|] s']; cbn; [by eapply HQ..|done]. Qed.

Lemma keeps_extend hint l s : wf MAX_SIZE s -> keeps (result (try_extend size_of MAX_SIZE hint l s)).
Proof.
  intros Hs. pose proof (try_reserve_spec MAX_SIZE limit_small hint s Hs) as Hr.
  unfold try_extend, post, bind in *. destruct (try_reserve MAX_SIZE hint s) as [[[]|e|] s1];
    destruct Hr as (_ & Hs1 & Ho); [|done|done].
  eapply keeps_post; [by apply push_all_spec|]. by intros o s' [? _].
Qed.

Lemma exec_keeps o s : wf MAX_SIZE s -> keeps (exec o s).
Proof.
  intros Hs. destruct o; cbn [exec].
  - eapply keeps_post; [by apply try_push_spec|]. by intros o s' [? _].
  - eapply keeps_post; [by apply try_insert_spec|]. by intros o s' [? _].
  - eapply keeps_post; [by apply try_append_spec|]. by intros o s' [? _].
  - by apply keeps_extend.
  - eapply keeps_post; [by apply try_reserve_spec|]. by intros o s' (_ & ? & _).
  - eapply keeps_post; [by apply try_reserve_exact_spec|]. by intros o s' (_ & ? & _).
  - apply wf_with_contents; [done|done|]. len_lia.
  - apply wf_with_contents; [done|done|]. unfold len. pose proof (filter_le f (contents s)). lia.
  - apply wf_with_contents; [done|done|]. len_lia.
  - unfold remove, bind, get, expect_some. destruct (contents s !! N.to_nat i) as [x|] eqn:Hi; [|done].
    apply lookup_lt_Some in Hi. apply wf_with_contents; [done|done|]. unfold len.
    rewrite length_app, length_take, length_drop. lia.
  - unfold drain, slice_range, bind, get. destruct (range_of (len (contents s)) a b) as [[x y]|] eqn:Hr; [|done].
    apply (range_of_spec MAX_SIZE limit_small) in Hr. apply wf_with_contents; [done|done|].
    cbn [fst snd]. len_lia.
  - apply wf_with_contents; [done|done|]. unfold len. destruct (contents s) as [|x l]; [done|].
    pose proof (dedup_run_le same l x). cbn. lia.
Qed.

End WellFormed.

(** ** All operations, with those of [vec-compat] *)

(** [Fallible]: an operation above; [TryExtendHint]: [try_extend] of any iterator.  The conversions start a new vector. *)
Inductive any_op : Type :=
| Fallible (o : op T) | TryExtendHint (size_hint : N) (items : list T) | Extend (size_hint : N) (items : list T)
| TryFrom (value : list T) | TryFromVec (cap : N) (value : list T) | FromIter (cap : N) (items : list T).

(** Only these may allocate more than the limit, as the documentation of the type says. *)
Definition may_overallocate (o : any_op) : bool := match o with Extend _ _ | FromIter _ _ => true | _ => false end.

Definition converted (s : t (T := T)) (r : option (t (T := T))) : option (bool * t (T := T)) :=
  match r with Some s' => Some (true, s') | None => Some (false, s) end.

Definition exec_any (o : any_op) (s : t) : option (bool * t) :=
  match o with
  | Fallible o => exec o s
  | TryExtendHint hint l => result (try_extend size_of MAX_SIZE hint l s)
  | Extend hint l => result (extend (E := Empty_set) size_of MAX_SIZE hint l s)
  | TryFrom l => converted s (try_from MAX_SIZE l)
  | TryFromVec cap l => if cap <? len l then None else converted s (try_from_vec MAX_SIZE cap l)
  | FromIter cap l => let? s' := from_iter MAX_SIZE cap l in Some (true, s')
  end.

(** The log of what each operation requested from the allocator; [None] if one panicked. *)
Fixpoint run_logged (ops : list any_op) (s : t) : option (list (any_op * list N) * t) :=
  match ops with
  | [] => Some ([], s)
  | o :: ops =>
      let? (_, s) := exec_any o (mk (contents s) (capacity s) []) in
      let? (log, s') := run_logged ops s in
      Some ((o, requests s) :: log, s')
  end.

(** The vector is within its limit and its capacity. *)
Definition within (s : t (T := T)) : Prop := len (contents s) <= MAX_SIZE /\ len (contents s) <= capacity s.

Definition logged (o : any_op) (s : t (T := T)) : Prop :=
  within s /\ (may_overallocate o = false -> Forall (fun n => n <= MAX_SIZE) (requests s)).

Section AnyOps.
Hypothesis limit_small : MAX_SIZE < u64_max.

Lemma wf_logged o s : wf MAX_SIZE s -> logged o s.
Proof. intros [? ? ?]. by split. Qed.

Lemma push_unchecked_within {E} x s :
  within s -> len (contents s) < MAX_SIZE ->
  post (push_unchecked (E := E) size_of x) (fun o s' => match o with
    | Ok _ => within s' /\ len (contents s') = len (contents s) + 1 | Err _ => False | Panic => True end) s.
Proof.
  intros [Hl Hc] Hlt. unfold post, push_unchecked, vec_extend, bind, vec_reserve, request, expect, update.
  assert (len (contents s ++ [x]) = len (contents s) + 1) as Hlen by len_lia. change (len [x]) with 1.
  destruct (N.leb_spec 1 (capacity s - len (contents s))) as [Hr|Hr]; cbn.
  - unfold within. cbn. rewrite Hlen. lia.
  - destruct (allocate _) as [c|] eqn:Ha; cbn; [|done]. apply allocate_enough in Ha. unfold within. cbn. rewrite Hlen. lia.
Qed.

Lemma extend_loop_within {E} items : forall remaining s,
  within s -> len (contents s) + remaining <= MAX_SIZE ->
  post (extend_loop (E := E) size_of remaining items) (fun o s' => match o with Ok _ => within s' | _ => True end) s.
Proof.
  induction items as [|x items IH]; intros remaining s Hs Hr; cbn [extend_loop]; [done|].
  destruct (N.eqb_spec remaining 0) as [|Hz]; [done|]. apply post_bind.
  eapply post_mono; [apply push_unchecked_within; [done|lia]|]. intros [u|e|] s'; [|done..]. intros [Hs' Hl]. apply IH; [done|lia].
Qed.

Lemma extend_within hint items s :
  wf MAX_SIZE s -> post (extend (E := Empty_set) size_of MAX_SIZE hint items) (fun o s' => match o with Ok _ => within s' | _ => True end) s.
Proof.
  intros Hs. unfold extend. apply post_bind. unfold post at 1, expect.
  pose proof (try_reserve_spec (T := T) MAX_SIZE limit_small hint s Hs) as Hr. unfold post in Hr.
  destruct (try_reserve MAX_SIZE hint s) as [[u|e|] s1]; cbn; [|done..]. destruct Hr as (_ & Hs1 & _).
  unfold remaining_max_capacity, bind, get, post, expect_some, checked_sub.
  destruct (N.leb_spec (len (contents s1)) MAX_SIZE) as [Hl|Hl]; cbn; [|done].
  apply (extend_loop_within items); [split; apply Hs1|lia].
Qed.

Lemma exec_any_logged o s : wf MAX_SIZE s -> match exec_any o s with Some (_, s') => logged o s' | None => True end.
Proof.
  intros Hs. destruct o as [o|hint l|hint l|l|cap l|cap l]; cbn [exec_any].
  - pose proof (exec_keeps limit_small o s Hs) as Hk. unfold keeps in Hk. destruct (exec o s) as [[b s']|]; [|done]. by apply wf_logged.
  - pose proof (keeps_extend limit_small hint l s Hs) as Hk. unfold keeps in Hk.
    destruct (result _) as [[b s']|]; [|done]. by apply wf_logged.
  - pose proof (extend_within hint l s Hs) as He. unfold post in He. destruct (extend _ _ _ _ s) as [[u|[]|] s']; cbn; [|done]. by split.
  - unfold try_from. destruct (N.ltb_spec MAX_SIZE (len l)) as [Hl|Hl]; cbn; [by apply wf_logged|]. split; [by split; cbn; lia|].
    intros _. by repeat constructor.
  - destruct (N.ltb_spec cap (len l)) as [|Hc]; [done|]. unfold try_from_vec.
    destruct (N.ltb_spec MAX_SIZE (len l)) as [Hl|Hl]; cbn; [by apply wf_logged|]. split; [by split|constructor].
  - unfold from_iter, try_from_vec. destruct (N.ltb_spec MAX_SIZE (len l)) as [Hl|Hl]; cbn; [done|]. split; [|done]. split; cbn; lia.
Qed.

Lemma run_logged_within ops : forall s, within s ->
  match run_logged ops s with
  | Some (log, s') => within s' /\ Forall (fun '(o, rs) => may_overallocate o = false -> Forall (fun n => n <= MAX_SIZE) rs) log
  | None => True
  end.
Proof.
  induction ops as [|o ops IH]; intros s Hs; cbn [run_logged]; [by split|].
  assert (wf MAX_SIZE (mk (contents s) (capacity s) [])) as Hw by (destruct Hs; by split).
  pose proof (exec_any_logged o _ Hw) as Ho. destruct (exec_any o _) as [[b s1]|]; [|done]. cbn.
  destruct Ho as [Hs1 Hreq]. specialize (IH s1 Hs1). destruct (run_logged ops s1) as [[log s2]|]; [|done]. cbn.
  destruct IH as [Hs2 Hlog]. split; [done|]. by constructor.
Qed.
End AnyOps.

Section Refinement.
Hypothesis limit_small : MAX_SIZE < u64_max.
Hypothesis memory : forall n, n <= MAX_SIZE -> allocate n <> None.

Lemma enough_memory : ~ out_of_memory MAX_SIZE.
Proof. intros (n & Hn & Ha). by apply (memory n). Qed.

Lemma agrees_appended {E} l s (m : M t E unit) :
  post m (appended MAX_SIZE s l) s -> agrees (result (m s)) (grow (len l) (contents s) (contents s ++ l)).
Proof.
  unfold post, grow, fits. destruct (m s) as [[[]|e|] s']; intros [Hs Ho]; cbn; [| |done].
  - destruct Ho as [Hc Hm]. rewrite (proj2 (N.leb_le _ _)) by done. done.
  - destruct Ho as [Hc Hm]. rewrite (proj2 (N.leb_gt _ _)) by (destruct Hm as [Hm|Hm]; [done|by apply enough_memory in Hm]).
    done.
Qed.

Lemma agrees_reserved n s (m : M t (CapacityError unit) unit) :
  post m (reserved MAX_SIZE s n) s -> agrees (result (m s)) (grow n (contents s) (contents s)).
Proof.
  unfold post, grow, fits. destruct (m s) as [[[]|e|] s']; intros (Hc & Hs & Ho); cbn; [| |done].
  - rewrite (proj2 (N.leb_le _ _)) by apply Ho. done.
  - rewrite (proj2 (N.leb_gt _ _)) by (destruct Ho as [Ho|Ho]; [done|by apply enough_memory in Ho]). done.
Qed.

Lemma agrees_extend l s :
  wf MAX_SIZE s -> agrees (result (try_extend size_of MAX_SIZE (len l) l s)) (grow (len l) (contents s) (contents s ++ l)).
Proof.
  intros Hs. pose proof (try_reserve_spec MAX_SIZE limit_small (len l) s Hs) as Hr.
  unfold try_extend, post, bind, grow, fits in *. destruct (try_reserve MAX_SIZE (len l) s) as [[[]|e|] s1];
    destruct Hr as (Hc & Hs1 & Ho); [| |done].
  - rewrite (proj2 (N.leb_le _ _)) by apply Ho. pose proof (push_all_spec size_of MAX_SIZE limit_small l s1 Hs1) as Hp.
    unfold post in Hp. destruct (push_all size_of MAX_SIZE l s1) as [[[]|e|] s2]; destruct Hp as [Hs2 Hp]; [| |done].
    + cbn. by rewrite <- Hc.
    + rewrite Hc in Hp. destruct Hp as [Hp|Hp]; [lia|by apply enough_memory in Hp].
  - cbn. rewrite (proj2 (N.leb_gt _ _)) by (destruct Ho as [Ho|Ho]; [done|by apply enough_memory in Ho]). done.
Qed.

Lemma agrees_insert i x s :
  wf MAX_SIZE s -> agrees (result (try_insert size_of MAX_SIZE i x s)) (spec (TryInsert i x) (contents s)).
Proof.
  intros Hs. pose proof (try_insert_spec size_of MAX_SIZE limit_small i x s Hs) as Hp.
  unfold post in Hp. cbn. unfold grow, fits. destruct (try_insert size_of MAX_SIZE i x s) as [[[]|e|] s'];
    destruct Hp as [Hs' Ho]; [| |done]; cbn.
  - destruct Ho as (Hi & Hm & Hc). rewrite (proj2 (N.ltb_ge _ _)), (proj2 (N.leb_le _ _)) by done. done.
  - destruct Ho as [Hc [Ho|[Ho|Ho]]]; [| |by apply enough_memory in Ho].
    + destruct (N.ltb_spec (len (contents s)) i); [done|]. rewrite (proj2 (N.leb_gt _ _)) by done. done.
    + rewrite (proj2 (N.ltb_lt _ _)) by done. done.
Qed.

Lemma exec_refines o s : wf MAX_SIZE s -> agrees (exec o s) (spec o (contents s)).
Proof.
  intros Hs. pose proof (exec_keeps limit_small o s Hs) as Hw. destruct o; cbn [exec] in *.
  - apply (agrees_appended [x]), try_push_spec; done.
  - by apply agrees_insert.
  - apply agrees_appended, try_append_spec; done.
  - by apply agrees_extend.
  - apply agrees_reserved, try_reserve_spec; done.
  - apply agrees_reserved, try_reserve_exact_spec; done.
  - done.
  - done.
  - done.
  - revert Hw. cbn [spec]. unfold remove, bind, get, expect_some. destruct (N.ltb_spec i (len (contents s))) as [Hi|Hi].
    + by destruct (lookup_lt_is_Some_2 (contents s) (N.to_nat i)) as [x ->]; [unfold len in Hi; lia|].
    + by rewrite lookup_ge_None_2 by (unfold len in Hi; lia).
  - revert Hw. cbn [spec]. unfold drain, slice_range, bind, get. by destruct (range_of (len (contents s)) a b) as [[x y]|].
  - done.
Qed.

Lemma run_refines ops : forall s, wf MAX_SIZE s ->
  match run_all exec ops s, run_all spec ops (contents s) with
  | Some (bs, s'), Some (bs', l) => bs = bs' /\ contents s' = l /\ wf MAX_SIZE s'
  | None, None => True
  | _, _ => False
  end.
Proof.
  induction ops as [|o ops IH]; intros s Hs; cbn [run_all]; [done|].
  pose proof (exec_refines o s Hs) as He. unfold agrees in He.
  destruct (exec o s) as [[b s1]|], (spec o (contents s)) as [[b' l1]|]; [|done|done|done].
  destruct He as (-> & <- & Hs1). specialize (IH s1 Hs1).
  destruct (run_all exec ops s1) as [[bs s2]|], (run_all spec ops (contents s1)) as [[bs' l2]|]; [|done|done|done].
  destruct IH as (-> & <- & Hs2). done.
Qed.
End Refinement.
End Ops.

(** *** Decoding *)
Section Decoding.
Context {Al : Allocator} {T : Type} (size_of MAX_SIZE : N) (read : list N -> option (T * list N)).
Implicit Types (s : t (T := T)).

(** [n] elements, one after the other. *)
Fixpoint read_all (n : nat) (bz : list N) : option (list T * list N) :=
  match n with
  | O => Some ([], bz)
  | S n =>
      let? (x, bz) := read bz in
      let? (xs, bz) := read_all n bz in
      Some (x :: xs, bz)
  end.

(** A vector in borsh: its length in four bytes, then its elements. *)
Definition decode_spec (bz : list N) : outcome DecodeError (list T * list N) :=
  if size_of =? 0 then Err ZstForbidden
  else match read_u32 bz with
       | None => Err Io
       | Some (n, bz) =>
           if MAX_SIZE <? n then Err UnexpectedLength
           else match read_all (N.to_nat n) bz with Some r => Ok r | None => Err Io end
       end.

Lemma read_all_add n m bz :
  read_all (n + m) bz =
    (let? (xs, bz) := read_all n bz in let? (ys, bz) := read_all m bz in Some (xs ++ ys, bz)).
Proof.
  revert bz. induction n as [|n IH]; intros bz; cbn; [by destruct (read_all m bz) as [[]|]|].
  destruct (read bz) as [[x bz1]|]; [|done]. rewrite IH. destruct (read_all n bz1) as [[xs bz2]|]; [|done].
  by destruct (read_all m bz2) as [[ys bz3]|].
Qed.

Hypothesis limit_small : MAX_SIZE < u64_max.

Lemma run_push_unchecked x s :
  wf MAX_SIZE s -> len (contents s) + 1 <= MAX_SIZE -> len (contents s) + 1 <= capacity s ->
  exists s', run (A := unit) (push_unchecked size_of x) s = Ok s' /\ wf MAX_SIZE s' /\
    contents s' = contents s ++ [x] /\ capacity s' = capacity s.
Proof.
  intros Hs Hm Hc. exists (with_contents (contents s ++ [x]) s).
  assert (post (E := CapacityError unit) (push_unchecked size_of x) (fun o s' => o = Ok tt /\ s' = with_contents (contents s ++ [x]) s) s)
    as Hp by (by apply (vec_extend_spec size_of MAX_SIZE)).
  unfold post, run in *. destruct (push_unchecked size_of x s) as [o s']. destruct Hp as [-> ->].
  split_and!; [done|by apply wf_extended|done|done].
Qed.

Lemma read_for_spec k : forall s bz, wf MAX_SIZE s ->
  len (contents s) + N.of_nat k <= MAX_SIZE -> len (contents s) + N.of_nat k <= capacity s ->
  match read_all k bz with
  | Some (xs, bz') => exists s', read_for size_of read k s bz = Ok (s', bz') /\ wf MAX_SIZE s' /\
      contents s' = contents s ++ xs /\ length xs = k
  | None => read_for size_of read k s bz = Err Io
  end.
Proof.
  induction k as [|k IH]; intros s bz Hs Hm Hc; cbn [read_all read_for].
  { exists s. rewrite app_nil_r. done. }
  destruct (read bz) as [[x bz1]|]; [|done].
  destruct (run_push_unchecked x s Hs ltac:(lia) ltac:(lia)) as (s1 & -> & Hs1 & Hc1 & Hcap).
  assert (len (contents s1) = len (contents s) + 1) as Hl by (rewrite Hc1; unfold len; rewrite length_app; cbn; lia).
  specialize (IH s1 bz1 Hs1 ltac:(lia) ltac:(lia)). destruct (read_all k bz1) as [[xs bz2]|]; [|done].
  destruct IH as (s' & -> & Hs' & Hc' & Hx). exists s'. split_and!; [done|done| |cbn; lia].
  by rewrite Hc', Hc1, <- app_assoc.
Qed.

(** What a decoder that reads [n] elements into [s] may return. *)
Definition decoded s (n : N) (bz : list N) (r : option (outcome DecodeError (t (T := T) * list N))) : Prop :=
  match r with
  | Some (Ok (s', bz')) => exists xs, read_all (N.to_nat n) bz = Some (xs, bz') /\
      contents s' = contents s ++ xs /\ wf MAX_SIZE s'
  | Some (Err Io) => read_all (N.to_nat n) bz = None
  | Some (Err OutOfMemory) => out_of_memory MAX_SIZE
  | _ => False
  end.

Lemma read_while_spec fuel : forall n s bz, wf MAX_SIZE s -> (N.to_nat n <= fuel)%nat ->
  len (contents s) + n <= MAX_SIZE -> decoded s n bz (read_while size_of MAX_SIZE read fuel n s bz).
Proof.
  induction fuel as [|fuel IH]; intros n s bz Hs Hf Hm; cbn [read_while];
    (destruct (N.eqb_spec n 0) as [->|Hn]; [exists []; by rewrite app_nil_r|]); [lia|].
  cbv zeta. set (k := N.min (remaining_capacity s) (n - 1)).
  assert (k <= capacity s - len (contents s) /\ k + 1 <= n) as [Hk1 Hk2] by (unfold k, remaining_capacity; lia).
  pose proof (wf_cap _ _ Hs) as Hcap.
  pose proof (read_for_spec (N.to_nat k) s bz Hs ltac:(lia) ltac:(lia)) as Hfor.
  assert (N.to_nat n = (N.to_nat k + (1 + N.to_nat (n - k - 1)))%nat) as Hsum by lia.
  unfold decoded. rewrite Hsum, read_all_add.
  destruct (read_all (N.to_nat k) bz) as [[xs bz1]|]; [|by rewrite Hfor].
  destruct Hfor as (s1 & -> & Hs1 & Hc1 & Hx). cbn [read_all Nat.add].
  destruct (read bz1) as [[x bz2]|]; [|done].
  assert (len (contents s1) = len (contents s) + k) as Hl by (rewrite Hc1; unfold len; rewrite length_app; lia).
  pose proof (try_push_spec size_of MAX_SIZE limit_small x s1 Hs1) as Hp. unfold post, run in *.
  destruct (try_push size_of MAX_SIZE x s1) as [[[]|e|] s2]; destruct Hp as [Hs2 Hp]; [| |done].
  - destruct Hp as [Hc2 _]. assert (len (contents s2) = len (contents s) + k + 1) as Hl2
      by (rewrite Hc2; unfold len in *; rewrite length_app; cbn; lia).
    specialize (IH (n - k - 1) s2 bz2 Hs2 ltac:(lia) ltac:(lia)). unfold decoded in IH.
    destruct (read_while _ _ _ fuel _ s2 bz2) as [[[s' bz']|[]|]|]; try done; [|by rewrite IH].
    destruct IH as (ys & -> & Hc' & Hs'). eexists. split; [done|]. split; [|done].
    by rewrite Hc', Hc2, Hc1, <- !app_assoc.
  - destruct Hp as [_ [Hp|Hp]]; [|done]. change (len [x]) with 1 in Hp. lia.
Qed.

(** *** serde *)

(** What a visitor that accepts [n] more elements into [s] may return. *)
Definition visited s (n : N) (seq : SeqAccess (T := T)) (r : option (outcome DecodeError t)) : Prop :=
  match r with
  | Some (Ok s') => exists xs, seq = map Some xs /\ contents s' = contents s ++ xs /\ wf MAX_SIZE s'
  | Some (Err Io) => None ∈ seq
  | Some (Err (InvalidLength _)) => (N.to_nat n < length seq)%nat \/ out_of_memory MAX_SIZE
  | _ => False
  end.

Lemma visit_for_spec k : forall s seq, wf MAX_SIZE s ->
  len (contents s) + N.of_nat k <= MAX_SIZE -> len (contents s) + N.of_nat k <= capacity s ->
  match visit_for size_of k s seq with
  | Ok (inl s') => exists xs, seq = map Some xs /\ contents s' = contents s ++ xs /\ wf MAX_SIZE s'
  | Ok (inr (s', rest)) => exists xs, seq = map Some xs ++ rest /\ contents s' = contents s ++ xs /\
      length xs = k /\ wf MAX_SIZE s'
  | Err e => e = Io /\ None ∈ seq
  | Panic => False
  end.
Proof.
  induction k as [|k IH]; intros s seq Hs Hm Hc; cbn [visit_for].
  { exists []. by rewrite app_nil_r. }
  destruct seq as [|[x|] seq]; cbn [next_element].
  - exists []. by rewrite app_nil_r.
  - destruct (run_push_unchecked x s Hs ltac:(lia) ltac:(lia)) as (s1 & -> & Hs1 & Hc1 & Hcap).
    assert (len (contents s1) = len (contents s) + 1) as Hl by (rewrite Hc1; unfold len; rewrite length_app; cbn; lia).
    specialize (IH s1 seq Hs1 ltac:(lia) ltac:(lia)). destruct (visit_for size_of k s1 seq) as [[s'|[s' rest]]|e|]; [..|done].
    + destruct IH as (xs & -> & Hc' & Hs'). exists (x :: xs). split_and!; [done| |done]. by rewrite Hc', Hc1, <- app_assoc.
    + destruct IH as (xs & -> & Hc' & Hl' & Hs'). exists (x :: xs). split_and!; [done| |cbn; lia|done].
      by rewrite Hc', Hc1, <- app_assoc.
    + destruct IH as [-> IH]. split; [done|]. by right.
  - split; [done|]. by left.
Qed.

Lemma visit_while_spec fuel : forall max n s seq, wf MAX_SIZE s -> (N.to_nat n <= fuel)%nat ->
  len (contents s) + n <= MAX_SIZE -> visited s n seq (visit_while size_of MAX_SIZE fuel max n s seq).
Proof.
  induction fuel as [|fuel IH]; intros max n s seq Hs Hf Hm; cbn [visit_while];
    (destruct (N.eqb_spec n 0) as [->|Hn];
      [destruct seq as [|[x|] seq]; cbn; [exists []; by rewrite app_nil_r|left; lia|by left]|]); [lia|].
  cbv zeta. set (k := N.min (remaining_capacity s) (n - 1)).
  assert (k <= capacity s - len (contents s) /\ k + 1 <= n) as [Hk1 Hk2] by (unfold k, remaining_capacity; lia).
  pose proof (wf_cap _ _ Hs) as Hcap.
  pose proof (visit_for_spec (N.to_nat k) s seq Hs ltac:(lia) ltac:(lia)) as Hfor.
  destruct (visit_for size_of (N.to_nat k) s seq) as [[s1|[s1 rest]]|e|]; [done| |by destruct Hfor as [-> ?]|done].
  destruct Hfor as (xs & -> & Hc1 & Hx & Hs1). destruct rest as [|[x|] rest]; cbn [next_element].
  - exists xs. by rewrite app_nil_r.
  - assert (len (contents s1) = len (contents s) + k) as Hl by (rewrite Hc1; unfold len; rewrite length_app; lia).
    pose proof (try_push_spec size_of MAX_SIZE limit_small x s1 Hs1) as Hp. unfold post, run in *.
    destruct (try_push size_of MAX_SIZE x s1) as [[[]|e|] s2]; destruct Hp as [Hs2 Hp]; [| |done].
    + destruct Hp as [Hc2 _]. assert (len (contents s2) = len (contents s) + k + 1) as Hl2
        by (rewrite Hc2; unfold len in *; rewrite length_app; cbn; lia).
      specialize (IH max (n - k - 1) s2 rest Hs2 ltac:(lia) ltac:(lia)). unfold visited in *.
      destruct (visit_while _ _ fuel _ _ s2 rest) as [[s'|[]|]|]; try done.
      * destruct IH as (ys & -> & Hc' & Hs'). exists (xs ++ x :: ys). rewrite map_app. split_and!; [done| |done].
        by rewrite Hc', Hc2, Hc1, <- !app_assoc.
      * apply elem_of_app. right. by right.
      * destruct IH as [IH|IH]; [left|by right]. rewrite length_app, length_map. cbn. lia.
    + right. destruct Hp as [_ [Hp|Hp]]; [|done]. change (len [x]) with 1 in Hp. lia.
  - cbn. apply elem_of_app. right. by left.
Qed.

(** The serde visitor: the elements of the sequence, all of them, or an error. *)
Lemma visit_seq_spec size_hint (seq : SeqAccess (T := T)) :
  match visit_seq size_of MAX_SIZE size_hint seq with
  | Some (Ok s) => seq = map Some (contents s) /\ wf MAX_SIZE s
  | Some (Err Io) => None ∈ seq
  | Some (Err (InvalidLength _)) =>
      MAX_SIZE < default 0 size_hint \/ (N.to_nat (default MAX_SIZE size_hint) < length seq)%nat \/ out_of_memory MAX_SIZE
  | _ => False
  end.
Proof.
  assert (forall n s, n <= MAX_SIZE -> wf MAX_SIZE s -> contents s = [] ->
    match visit_while size_of MAX_SIZE (N.to_nat n) n n s seq with
    | Some (Ok s') => seq = map Some (contents s') /\ wf MAX_SIZE s'
    | Some (Err Io) => None ∈ seq
    | Some (Err (InvalidLength _)) => (N.to_nat n < length seq)%nat \/ out_of_memory MAX_SIZE
    | _ => False
    end) as Hgo.
  { intros n s Hn Hs Hc. pose proof (visit_while_spec (N.to_nat n) n n s seq Hs ltac:(lia)) as Hw.
    rewrite Hc in Hw. specialize (Hw Hn). unfold visited in Hw.
    destruct (visit_while _ _ _ _ _ s seq) as [[s'|[]|]|]; try done.
    destruct Hw as (xs & -> & Hx & Hs'). rewrite Hx, Hc. done. }
  unfold visit_seq. destruct size_hint as [hint|]; cbn [default].
  - destruct (N.ltb_spec MAX_SIZE hint) as [Hh|Hh]; [by left|].
    pose proof (try_reserve_spec (T := T) MAX_SIZE limit_small (cautious_size_hint size_of hint) new (wf_new _ limit_small)) as Hr.
    unfold run, post in *.
    destruct (try_reserve MAX_SIZE (cautious_size_hint size_of hint) new) as [[[]|e|] s]; destruct Hr as (Hc & Hs & Hr); [| |done].
    + specialize (Hgo hint s Hh Hs Hc). destruct (visit_while _ _ _ _ _ s seq) as [[s'|[]|]|]; tauto.
    + destruct Hr as [Hr|Hr]; [|tauto]. unfold cautious_size_hint in Hr. change (len (contents new)) with 0 in Hr. lia.
  - specialize (Hgo MAX_SIZE new ltac:(lia) (wf_new _ limit_small) eq_refl).
    destruct (visit_while _ _ _ _ _ new seq) as [[s'|[]|]|]; tauto.
Qed.
End Decoding.

(** A [SafeVec] is a list of at most [MAX_SIZE] elements. With an allocator that
    does not fail within the limit, any sequence of operations on a new vector
    succeeds, fails and panics exactly where it does on lists with that limit, and
    leaves the same elements; the vector never holds more than [MAX_SIZE] elements
    and never asks the allocator for more. *)
Theorem safe_vec_refines_list {Al : Allocator} {T : Type} (size_of MAX_SIZE : N) (ops : list (op T)) :
  MAX_SIZE < u64_max -> (forall n, n <= MAX_SIZE -> allocate n <> None) ->
  match run_all (exec size_of MAX_SIZE) ops new, run_all (spec MAX_SIZE) ops [] with
  | Some (bs, s), Some (bs', l) =>
      bs = bs' /\ contents s = l /\ len l <= MAX_SIZE /\ Forall (fun n => n <= MAX_SIZE) (requests s)
  | None, None => True
  | _, _ => False
  end.
Proof.
  intros Hm Ha. pose proof (run_refines size_of MAX_SIZE Hm Ha ops new (wf_new _ Hm)) as Hr.
  destruct (run_all _ ops new) as [[bs s]|], (run_all _ ops (contents new)) as [[bs' l]|] eqn:Hl; cbn in Hl; rewrite Hl; try done.
  destruct Hr as (-> & <- & Hs). split_and!; [done|done|apply Hs|apply Hs].
Qed.

(** C34: the bound of the type. Whatever the allocator does, after any sequence of
    operations and conversions that does not panic, the vector holds at most [MAX_SIZE]
    elements and has room for them; and no operation requested more than [MAX_SIZE] from
    the allocator, but for [extend] and [from_iter] of the feature [vec-compat], which the
    documentation of the type allows to over-allocate. [try_extend_from_within] is not among
    the operations: it breaks the bound ([extend_within_exceeds_limit]). *)
Theorem safe_vec_well_formed {Al : Allocator} {T : Type} (size_of MAX_SIZE : N) (ops : list (any_op (T := T))) :
  MAX_SIZE < u64_max ->
  match run_logged size_of MAX_SIZE ops new with
  | Some (log, s) =>
      len (contents s) <= MAX_SIZE /\ len (contents s) <= capacity s /\
      Forall (fun '(o, requested) => may_overallocate o = false -> Forall (fun n => n <= MAX_SIZE) requested) log
  | None => True
  end.
Proof.
  intros Hm. assert (within (T := T) MAX_SIZE new) as Hn by (split; apply N.le_0_l).
  pose proof (run_logged_within size_of MAX_SIZE Hm ops new Hn) as Hr.
  destruct (run_logged size_of MAX_SIZE ops new) as [[log s]|]; [|done]. destruct Hr as [[Hl Hc] Hf]. by split_and!.
Qed.

(** Decoding a [SafeVec] is exact and bounds the memory. Whatever the bytes, the
    decoder ends without a panic; it returns what reading a length and then that
    many elements returns, and rejects what that rejects, in particular a length
    above [MAX_SIZE]; it fails otherwise only when an allocation within the limit
    fails; and it never asks the allocator for more than [MAX_SIZE] elements. *)
Theorem safe_vec_decodes {Al : Allocator} {T : Type} (size_of MAX_SIZE : N) (read : list N -> option (T * list N))
    (bz : list N) :
  MAX_SIZE < u64_max ->
  match deserialize_reader size_of MAX_SIZE read bz with
  | Some (Ok (s, rest)) => decode_spec size_of MAX_SIZE read bz = Ok (contents s, rest) /\ wf MAX_SIZE s
  | Some (Err OutOfMemory) => out_of_memory MAX_SIZE
  | Some (Err e) => decode_spec size_of MAX_SIZE read bz = Err e
  | Some Panic | None => False
  end.
Proof.
  intros Hm. unfold deserialize_reader, decode_spec. destruct (size_of =? 0); [done|].
  destruct (read_u32 bz) as [[n bz1]|]; [|done]. destruct (N.ltb_spec MAX_SIZE n) as [Hn|Hn]; [done|].
  pose proof (try_reserve_spec (T := T) MAX_SIZE Hm (cautious_size_hint size_of n) new (wf_new _ Hm)) as Hr.
  unfold run, try_with_capacity, bind, post in *.
  destruct (try_reserve MAX_SIZE (cautious_size_hint size_of n) new) as [[[]|e|] s]; destruct Hr as (Hc & Hs & Hr); [| |done].
  - pose proof (read_while_spec size_of MAX_SIZE read Hm (N.to_nat n) n s bz1 Hs ltac:(lia)) as Hw.
    rewrite Hc in Hw. specialize (Hw Hn). unfold decoded in Hw.
    destruct (read_while _ _ _ _ _ s bz1) as [[[s' bz']|[]|]|]; try done; [|by rewrite Hw].
    destruct Hw as (xs & -> & -> & Hs'). by rewrite Hc.
  - destruct Hr as [Hr|Hr]; [|done]. unfold cautious_size_hint in Hr. change (len (contents new)) with 0 in Hr. lia.
Qed.

(** [try_extend_from_within] breaks the limit. It counts the elements of an
    inclusive range and drops the count, so that a full vector accepts a copy of
    its first element: the vector then holds one more than [MAX_SIZE] elements, and
    more than [MAX_SIZE] were requested from the allocator. *)
Theorem extend_within_exceeds_limit {Al : Allocator} {T : Type} (size_of MAX_SIZE : N) (s : t (T := T)) (c : N) :
  0 < MAX_SIZE -> MAX_SIZE < u64_max -> len (contents s) = MAX_SIZE -> capacity s = MAX_SIZE ->
  allocate (N.max (min_non_zero_cap size_of) (N.max (MAX_SIZE * 2) (MAX_SIZE + 1))) = Some c ->
  exists s', try_extend_from_within size_of MAX_SIZE (Included 0) (Included 0) s = (Ok tt, s') /\
    len (contents s') = MAX_SIZE + 1 /\ Exists (fun n => MAX_SIZE < n) (requests s').
Proof.
  intros Hp Hm Hl Hc Ha.
  assert (try_reserve MAX_SIZE 0 s = (Ok tt, s)) as Hr.
  { unfold try_reserve, bind, get, saturating_add. rewrite Hl, Hc, N.add_0_r, N.min_l by lia.
    by rewrite N.ltb_irrefl, N.leb_refl. }
  assert (slice_range (E := CapacityError unit) (Included 0) (Included 0) s = (Ok (0%nat, 1%nat), s)) as Hg.
  { unfold slice_range, bind, get, range_of. cbv zeta. rewrite Hl, (proj2 (N.leb_le (0 + 1) MAX_SIZE)) by lia. done. }
  destruct (contents s) as [|x l] eqn:Hs; [unfold len in Hl; cbn in Hl; lia|].
  assert (try_extend_from_within size_of MAX_SIZE (Included 0) (Included 0) s = vec_extend size_of [x] s) as ->.
  { transitivity ((try_reserve MAX_SIZE 0 ;;;
      let! range := slice_range (Included 0) (Included 0) in
      let! source := get (fun s => take (snd range - fst range) (drop (fst range) (contents s))) in
      vec_extend size_of source) s); [done|].
    unfold bind at 1. rewrite Hr. unfold bind at 1. rewrite Hg. unfold bind, get. by rewrite Hs. }
  unfold vec_extend, bind, vec_reserve, expect, request. rewrite Hc, Hs, Hl, N.sub_diag. change (len [x]) with 1.
  cbn [N.leb N.compare]. rewrite Ha. eexists. split; [done|]. cbn [contents requests update with_contents]. split.
  - len_lia.
  - apply Exists_app. right. constructor. lia.
Qed.

(** An allocator that always returns what was asked for. *)
#[global] Instance exact_allocator : Allocator.
Proof. refine {| allocate := Some |}. intros n c [= <-]. lia. Defined.

Definition demo_ops : list (op N) :=
  [TryPush 7; TryAppend [8; 8; 9]; TryPush 1; TryInsert 1 5; DedupBy N.eqb; TryExtend [3; 4]; Remove 0; Truncate 2].

Lemma safe_vec_refines_list_witness :
  run_all (spec 4) demo_ops [] = Some ([true; true; false; false; true; false; true; true], [8; 9]) /\
  match run_all (exec 8 4) demo_ops new with Some (_, s) => contents s = [8; 9] | None => False end.
Proof.
  split; [by vm_compute|].
  pose proof (safe_vec_refines_list 8 4 demo_ops ltac:(vm_compute; reflexivity) ltac:(done)) as Hr.
  destruct (run_all (exec 8 4) demo_ops new) as [[bs s]|]; vm_compute in Hr; [|done]. apply Hr.
Defined.

Definition demo_read (bz : list N) : option (N * list N) :=
  match bz with b :: rest => Some (b, rest) | [] => None end.

Definition demo_any : list (any_op (T := N)) :=
  [TryFrom [1; 2]; Extend 0 [3; 4]; Fallible (TryPush 5); Fallible (Truncate 1); Fallible (TryReserveExact 3)].

(** The push is refused; the reservation of three more elements is within the limit. *)
Lemma safe_vec_well_formed_witness :
  match run_logged 8 4 demo_any new with
  | Some (log, s) => contents s = [1] /\ len (contents s) <= 4 /\ length log = 5%nat
  | None => False
  end.
Proof.
  pose proof (safe_vec_well_formed 8 4 demo_any ltac:(vm_compute; reflexivity)) as Hw.
  destruct (run_logged 8 4 demo_any new) as [[log s]|] eqn:E; [|vm_compute in E; discriminate].
  split; [vm_compute in E; by simplify_eq|]. split; [apply Hw|]. vm_compute in E. by simplify_eq.
Defined.

Lemma safe_vec_decodes_witness :
  match deserialize_reader 8 4 demo_read [3; 0; 0; 0; 10; 11; 12; 13] with
  | Some (Ok (s, rest)) => decode_spec 8 4 demo_read [3; 0; 0; 0; 10; 11; 12; 13] = Ok (contents s, rest)
  | _ => False
  end.
Proof.
  pose proof (safe_vec_decodes 8 4 demo_read [3; 0; 0; 0; 10; 11; 12; 13] ltac:(vm_compute; reflexivity)) as Hd.
  assert (match deserialize_reader 8 4 demo_read [3; 0; 0; 0; 10; 11; 12; 13] with Some (Ok _) => true | _ => false end = true)
    as Hok by (by vm_compute).
  destruct (deserialize_reader 8 4 demo_read [3; 0; 0; 0; 10; 11; 12; 13]) as [[[s rest]|e|]|]; [apply Hd|discriminate Hok..].
Defined.

Lemma extend_within_exceeds_limit_witness :
  exists s', try_extend_from_within 8 2 (Included 0) (Included 0) (mk [5; 6] 2 [2]) = (Ok tt, s') /\
    len (contents s') = 3.
Proof.
  destruct (extend_within_exceeds_limit 8 2 (mk [5; 6] 2 [2]) 4) as (s' & Hr & Hl & _); [done..|].
  by exists s'.
Defined.
End SafeVecProperties.
