(* ===== verification/StateCache.v ===== *)
(** * The cache of the state

    sov-state/src/cache.rs, storage.rs, pinned_cache.rs and witness.rs, and
    [Delta] and [AccessoryDelta] of sov-modules-api/src/state/accessors/internals.rs.

    A [Delta] is the state that a slot works on: the storage of the last slot, the
    values that were read from it and the values that were written.  The first read of
    a key is recorded, and with the native storage the value goes into the witness, from
    which the storage of the zkVM takes it.  Reads and writes first go to a log that
    can be discarded.

    The methods are functions from the state to the state; [None] is a panic.  The
    code of the two feature sets (native and zkVM) differs in that only the native one
    has the pinned cache and the uncommitted changes, which are [None] in the zkVM.
    A key is its sequence of bytes (SlotKey.v).  Metrics and capacities are left out.
    A [HashMap] is a [gmap]; loops over one do not depend on the order. *)

From Stdlib Require Import NArith Lia.
From stdpp Require Import base numbers gmap option list.
From S2P Require Import Prelude Ints StateAccess SlotKey.

(** ** Values and leaves, sov-db-types/src/lib.rs and storage.rs *)

Notation SlotKey := (list N).
Notation SlotValue := (list N).

(** The hash function of the storage, a parameter. *)
Class Hasher : Type := { digest : list N -> list N }.

(** [ProvableNamespace], namespaces.rs *)
Inductive ProvableNamespace : Type := UserSpace | KernelSpace.

Definition namespace_of (ns : ProvableNamespace) : Namespace :=
  match ns with UserSpace => User | KernelSpace => Kernel end.

#[export] Instance ProvableNamespace_eq_dec : EqDecision ProvableNamespace.
Proof. solve_decision. Defined.

(** [SlotValue::size] panics for more than [u32::MAX] bytes. *)
Definition size (v : SlotValue) : option N := if len v <=? u32_max then Some (len v) else None.

Record NodeLeaf : Type := mkLeaf { leaf_size : N; val_hash : list N }.

#[export] Instance NodeLeaf_eq_dec : EqDecision NodeLeaf.
Proof. solve_decision. Defined.

Inductive ReadType : Type :=
| GetSizeValueNotFetched
| GetSizeValueFetched (v : SlotValue)
| ReadValue (v : SlotValue).

Record NodeLeafAndMaybeValue : Type := mkNode { leaf : NodeLeaf; value : ReadType }.

Section Leaf.
Context {H : Hasher}.

Definition make_leaf (v : SlotValue) : option NodeLeaf :=
  let? n := size v in Some (mkLeaf n (digest v)).

(** [SlotValue::combine_val_hash_and_size] *)
Definition value_hash_and_size (v : SlotValue) : option (list N) :=
  let? n := size v in Some (digest v ++ to_le_bytes 4 n).
End Leaf.

(** [NodeLeaf::combine_val_hash_and_size] *)
Definition combine_val_hash_and_size (l : NodeLeaf) : list N :=
  val_hash l ++ to_le_bytes 4 (leaf_size l).

(** [MaybePresentValue], sequencer_state.rs *)
Inductive MaybePresentValue (A : Type) : Type :=
| Present (v : option A)
| Absent.
Arguments Present {A} v.
Arguments Absent {A}.

Definition or_else {A} (m : MaybePresentValue A) (f : option (option A)) : option (option A) :=
  match m with Present v => Some v | Absent => f end.

(** [StateGetter]: changes that are not committed to the storage yet. *)
Record StateGetter : Type := mkGetter {
  getter_leaf : ProvableNamespace -> SlotKey -> MaybePresentValue NodeLeafAndMaybeValue;
  getter_get : Namespace -> SlotKey -> MaybePresentValue SlotValue
}.

(** [ArrayWitness]: the serialized hints, a queue. *)
Definition ArrayWitness : Type := list (list N).

(** What the code uses of the serialization of hints. *)
Class Hint (T : Type) : Type := {
  to_vec : T -> list N;
  from_slice : list N -> option T
}.

Definition add_hint `{Hint T} (hint : T) (w : ArrayWitness) : ArrayWitness := w ++ [to_vec hint].

(** [None]: the witness is empty or the hint cannot be decoded. *)
Definition get_hint `{Hint T} (w : ArrayWitness) : option (T * ArrayWitness) :=
  match w with
  | [] => None
  | h :: w => let? t := from_slice h in Some (t, w)
  end.

(** ** The log of accesses, cache.rs *)

Inductive Access : Type :=
| AccRead (original : option NodeLeafAndMaybeValue)
| AccWrite (modified : option SlotValue).

Inductive AccessSize : Type := SizeRead (n : N) | SizeWrite (n : N).
Inductive IsValueCached : Type := Yes (a : AccessSize) | No.

(** [value.as_ref().map(|v| v.size()).unwrap_or(0)] *)
Definition size_or_zero (v : option SlotValue) : option N :=
  match v with Some v => size v | None => Some 0 end.

Definition as_access_size (a : Access) : option AccessSize :=
  match a with
  | AccRead original =>
      Some (SizeRead (match original with Some node => leaf_size (leaf node) | None => 0 end))
  | AccWrite modified => let? n := size_or_zero modified in Some (SizeWrite n)
  end.

Module CacheLog.
Record t : Type := mk { revertable_log : gmap SlotKey Access; log : gmap SlotKey Access }.

Definition default : t := mk ∅ ∅.

Definition get (key : SlotKey) (c : t) : option Access :=
  match revertable_log c !! key with Some a => Some a | None => log c !! key end.

(** An assignment through [get_mut], which returned [Some]. *)
Definition set_found (key : SlotKey) (a : Access) (c : t) : t :=
  match revertable_log c !! key with
  | Some _ => mk (<[key := a]> (revertable_log c)) (log c)
  | None => mk (revertable_log c) (<[key := a]> (log c))
  end.

Definition add_read (key : SlotKey) (v : option NodeLeafAndMaybeValue) (c : t) : option t :=
  match revertable_log c !! key with
  | Some _ => None
  | None => Some (mk (<[key := AccRead v]> (revertable_log c)) (log c))
  end.

Definition add_write (key : SlotKey) (v : option SlotValue) (c : t)
  : option (IsValueCached * t) :=
  let? n := size_or_zero v in
  let out := Yes (SizeWrite n) in
  let c' := mk (<[key := AccWrite v]> (revertable_log c)) (log c) in
  match revertable_log c !! key with
  | Some _ => Some (out, c')
  | None => Some (match log c !! key with Some _ => out | None => No end, c')
  end.

(** One round of the loop of [commit_revertable_log]. *)
Definition merge_entry (e : SlotKey * Access) (l : gmap SlotKey Access)
  : option (gmap SlotKey Access) :=
  match e with
  | (k, AccRead v) =>
      match l !! k with Some _ => None | None => Some (<[k := AccRead v]> l) end
  | (k, AccWrite modified) => Some (<[k := AccWrite modified]> l)
  end.

Fixpoint merge_entries (es : list (SlotKey * Access)) (l : gmap SlotKey Access)
  : option (gmap SlotKey Access) :=
  match es with
  | [] => Some l
  | e :: es' => let? l := merge_entry e l in merge_entries es' l
  end.

Definition commit_revertable_log (c : t) : option t :=
  if decide (log c = ∅) then Some (mk ∅ (revertable_log c))
  else
    let? l := merge_entries (map_to_list (revertable_log c)) (log c) in
    Some (mk ∅ l).

Definition discard_revertable_log (c : t) : t := mk ∅ (log c).

Definition write_of (e : SlotKey * Access) : option (SlotKey * option SlotValue) :=
  match e with (k, AccWrite v) => Some (k, v) | _ => None end.

(** [take_writes] and the iterator over the writes: the log that can be reverted must
    be empty. *)
Definition take_writes (c : t) : option (list (SlotKey * option SlotValue)) :=
  if decide (revertable_log c = ∅) then Some (omap write_of (map_to_list (log c))) else None.
End CacheLog.

(** ** The pinned cache, pinned_cache.rs *)

Record BucketStorage : Type := mkBucket {
  items : gmap SlotKey SlotValue;
  current_size : N;
  max_size : N
}.

(** [MaybeDroppedBucket]: [None] is [Dropped]. *)
Record StateItemCache : Type := mkItemCache {
  bucket_key_length : nat;
  buckets : gmap SlotKey (option BucketStorage)
}.

Definition PinnedCache : Type := gmap Prefix StateItemCache.

Module Pinned.
Definition key_prefix (key : SlotKey) : option Prefix :=
  match key with m :: i :: _ => Some (mkPrefix m i) | _ => None end.

(** [SlotKey::truncate_to] *)
Definition truncate_to (n : nat) (key : SlotKey) : option SlotKey :=
  if Nat.leb (n + 2) (length key) then Some (take (n + 2) key) else None.

Definition bucket_id (p : PinnedCache) (key : SlotKey) : option (Prefix * StateItemCache * SlotKey) :=
  let? pre := key_prefix key in
  let? cache := p !! pre in
  let? id := truncate_to (bucket_key_length cache) key in
  Some (pre, cache, id).

Definition bucket_for (p : PinnedCache) (key : SlotKey) : option BucketStorage :=
  let? (pre, cache, id) := bucket_id p key in
  let? bucket := buckets cache !! id in
  bucket.

Definition put_bucket (pre : Prefix) (cache : StateItemCache) (id : SlotKey)
    (b : option BucketStorage) (p : PinnedCache) : PinnedCache :=
  <[pre := mkItemCache (bucket_key_length cache) (<[id := b]> (buckets cache))]> p.

(** [BucketStorage::try_insert]: [None] is the result [false]. *)
Definition try_insert (key : SlotKey) (v : SlotValue) (n : N) (b : BucketStorage)
  : option BucketStorage :=
  if max_size b <? saturating_add u64_max (current_size b) n then None
  else Some (mkBucket (<[key := v]> (items b)) (current_size b + n) (max_size b)).

(** [BucketStorage::delete] checks the new size and does not store it. *)
Definition delete_key (key : SlotKey) (b : BucketStorage) : option BucketStorage :=
  let? n := size_or_zero (items b !! key) in
  let? _ := checked_sub (current_size b) n in
  Some (mkBucket (delete key (items b)) (current_size b) (max_size b)).

(** The part of [ProvableStorageCache::set] about the pinned cache; the bucket is
    dropped if the value does not fit. *)
Definition set_pinned (key : SlotKey) (v : SlotValue) (p : PinnedCache) : option PinnedCache :=
  match bucket_id p key with
  | Some (pre, cache, id) =>
      match buckets cache !! id with
      | Some (Some b) =>
          let? n := size v in
          Some (put_bucket pre cache id (try_insert key v n b) p)
      | _ => Some p
      end
  | None => Some p
  end.

Definition delete_pinned (key : SlotKey) (p : PinnedCache) : option PinnedCache :=
  match bucket_id p key with
  | Some (pre, cache, id) =>
      match buckets cache !! id with
      | Some (Some b) => let? b := delete_key key b in Some (put_bucket pre cache id (Some b) p)
      | _ => Some p
      end
  | None => Some p
  end.

(** [check_pinned_cache] *)
Definition check_pinned_cache (p : option PinnedCache) (key : SlotKey)
  : MaybePresentValue SlotValue :=
  match p with
  | Some p => match bucket_for p key with Some b => Present (items b !! key) | None => Absent end
  | None => Absent
  end.

Inductive LoadBucketOutcome : Type :=
| Loaded | OverSizeLimit | AlreadyPresent | NotSupportedByStorage.

Fixpoint insert_all (id : SlotKey) (l : list (SlotKey * SlotValue)) (b : BucketStorage)
  : option (option BucketStorage) :=
  match l with
  | [] => Some (Some b)
  | (key, v) :: l' =>
      if decide (id = take (length id) key) then
        let? n := size v in
        match try_insert key v n b with Some b => insert_all id l' b | None => Some None end
      else None
  end.

(** [try_load_bucket_if_absent]: [iter] are the values of the storage with the prefix,
    if it can iterate over them; the error is a bucket id without a prefix. *)
Definition try_load_bucket_if_absent (id : SlotKey)
    (iter : option (list (SlotKey * SlotValue))) (limit : N) (p : PinnedCache)
  : option (option LoadBucketOutcome * PinnedCache) :=
  let? pre := key_prefix id in
  if (match p !! pre with Some c => bool_decide (is_Some (buckets c !! id)) | None => false end)
  then Some (Some AlreadyPresent, p)
  else
    match iter with
    | None => Some (Some NotSupportedByStorage, p)
    | Some l =>
        if Nat.ltb (length id) 2 then Some (None, p)
        else
          let cache := default (mkItemCache (length id - 2) ∅) (p !! pre) in
          let p := <[pre := cache]> p in
          let? b := insert_all id l (mkBucket ∅ 0 limit) in
          match b with
          | Some b => Some (Some Loaded, put_bucket pre cache id (Some b) p)
          | None => Some (Some OverSizeLimit, p)
          end
    end.
End Pinned.

(** ** Reads and writes in a definite order *)

Record OrderedReadsAndWrites : Type := mkOrdered {
  ordered_reads : list (SlotKey * option NodeLeaf);
  ordered_writes : list (SlotKey * option SlotValue)
}.

Record StateAccesses : Type := mkAccesses {
  user_accesses : OrderedReadsAndWrites;
  kernel_accesses : OrderedReadsAndWrites
}.

(** The order of byte slices. *)
Fixpoint key_le (k1 k2 : SlotKey) : bool :=
  match k1, k2 with
  | [], _ => true
  | _ :: _, [] => false
  | x :: k1', y :: k2' => (x <? y) || ((x =? y) && key_le k1' k2')
  end.

(** [sort_by(|(k1, _), (k2, _)| k1.cmp(k2))], a stable sort. *)
Fixpoint insert_write {A} (e : SlotKey * A) (l : list (SlotKey * A)) : list (SlotKey * A) :=
  match l with
  | [] => [e]
  | e' :: l' => if key_le (fst e) (fst e') then e :: l else e' :: insert_write e l'
  end.

Definition sort_writes {A} (l : list (SlotKey * A)) : list (SlotKey * A) := foldr insert_write [] l.

(** ** Storages *)

(** The trait [Storage]; its second argument of the methods is the witness. *)
Class Storage (St : Type) : Type := {
  storage_hasher : Hasher;
  Root : Type;
  StateUpdate : Type;
  put_in_witness : St -> option SlotValue -> ArrayWitness -> ArrayWitness;
  get_leaf : St -> ProvableNamespace -> SlotKey -> ArrayWitness ->
    option (option NodeLeafAndMaybeValue * ArrayWitness);
  get_stored : St -> ProvableNamespace -> SlotKey -> ArrayWitness ->
    option (option SlotValue * ArrayWitness);
  get_accessory : St -> SlotKey -> option (option SlotValue);
  compute_state_update : St -> StateAccesses -> ArrayWitness -> Root ->
    outcome unit (Root * StateUpdate * ArrayWitness)
}.
#[export] Existing Instance storage_hasher.

(** ** [ProvableStorageCache] *)
Module Cache.
Record t : Type := mk {
  cache : CacheLog.t;
  pinned_cache : option PinnedCache;
  revertable_ordered_reads : list (SlotKey * option NodeLeafAndMaybeValue);
  ordered_db_reads : list (SlotKey * option NodeLeaf)
}.

Definition default : t := mk CacheLog.default None [] [].

Definition with_log (c : CacheLog.t) (s : t) : t :=
  mk c (pinned_cache s) (revertable_ordered_reads s) (ordered_db_reads s).

(** [get_from_cache]: only values that were written. *)
Definition get_from_cache (key : SlotKey) (s : t) : MaybePresentValue SlotValue :=
  match CacheLog.get key (cache s) with
  | Some (AccWrite modified) => Present modified
  | _ => Absent
  end.

Definition leaf_of_read (e : SlotKey * option NodeLeafAndMaybeValue) : SlotKey * option NodeLeaf :=
  (e.1, leaf <$> e.2).

Definition commit_revertable_storage_cache (s : t) : option t :=
  let? c := CacheLog.commit_revertable_log (cache s) in
  Some (mk c (pinned_cache s) []
          (ordered_db_reads s ++ map leaf_of_read (revertable_ordered_reads s))).

Definition discard_revertable_storage_cache (s : t) : t :=
  mk (CacheLog.discard_revertable_log (cache s)) (pinned_cache s) [] (ordered_db_reads s).

Definition to_ordered_writes_and_reads (s : t) : option OrderedReadsAndWrites :=
  let? s := commit_revertable_storage_cache s in
  let? writes := CacheLog.take_writes (cache s) in
  Some (mkOrdered (ordered_db_reads s) (sort_writes writes)).

Definition is_value_cached (key : SlotKey) (s : t) : option IsValueCached :=
  match CacheLog.get key (cache s) with
  | Some access => let? a := as_access_size access in Some (Yes a)
  | None => Some No
  end.

Definition add_read (key : SlotKey) (node : option NodeLeafAndMaybeValue) (s : t) : option t :=
  let? c := CacheLog.add_read key node (cache s) in
  Some (mk c (pinned_cache s) (revertable_ordered_reads s ++ [(key, node)]) (ordered_db_reads s)).

Fixpoint add_read_if_not_present_in_cache
    (reads : list (SlotKey * option NodeLeafAndMaybeValue)) (s : t) : option t :=
  match reads with
  | [] => Some s
  | (key, node) :: reads' =>
      match CacheLog.get key (cache s) with
      | Some _ => add_read_if_not_present_in_cache reads' s
      | None => let? s := add_read key node s in add_read_if_not_present_in_cache reads' s
      end
  end.

Definition set (key : SlotKey) (v : SlotValue) (s : t) : option t :=
  let? pinned :=
    match pinned_cache s with
    | Some p => let? p := Pinned.set_pinned key v p in Some (Some p)
    | None => Some None
    end in
  let? (_, c) := CacheLog.add_write key (Some v) (cache s) in
  Some (mk c pinned (revertable_ordered_reads s) (ordered_db_reads s)).

Definition delete (key : SlotKey) (s : t) : option t :=
  let? pinned :=
    match pinned_cache s with
    | Some p => let? p := Pinned.delete_pinned key p in Some (Some p)
    | None => Some None
    end in
  let? (_, c) := CacheLog.add_write key None (cache s) in
  Some (mk c pinned (revertable_ordered_reads s) (ordered_db_reads s)).

Section Fetch.
Context {St : Type} {Sto : Storage St}.

(** The result with the new cache and the new witness. *)
Definition fetched (A : Type) : Type := option (A * t * ArrayWitness).

(** The leaf from the uncommitted changes or from the storage. *)
Definition fetch_leaf (st : St) (ns : ProvableNamespace) (u : option StateGetter) (key : SlotKey)
    (w : ArrayWitness) : option (option NodeLeafAndMaybeValue * ArrayWitness) :=
  match u with
  | Some changes =>
      match getter_leaf changes ns key with
      | Present v => Some (v, w)
      | Absent => get_leaf st ns key w
      end
  | None => get_leaf st ns key w
  end.

Definition get_size_or_fetch (st : St) (ns : ProvableNamespace) (u : option StateGetter)
    (key : SlotKey) (s : t) (w : ArrayWitness) : fetched (option N) :=
  match CacheLog.get key (cache s) with
  | Some (AccRead original) =>
      Some ((fun node => leaf_size (leaf node)) <$> original, s, w)
  | Some (AccWrite None) => Some (None, s, w)
  | Some (AccWrite (Some v)) => let? n := size v in Some (Some n, s, w)
  | None =>
      match Pinned.check_pinned_cache (pinned_cache s) key with
      | Present None => Some (None, s, w)
      | Present (Some v) => let? n := size v in Some (Some n, s, w)
      | Absent =>
          let? (maybe_leaf, w) := fetch_leaf st ns u key w in
          let? s := add_read key maybe_leaf s in
          Some ((fun node => leaf_size (leaf node)) <$> maybe_leaf, s, w)
      end
  end.

(** The closure that [get_or_fetch] passes to [get_or_fetch_with_fn]. *)
Definition fetch_value (st : St) (ns : ProvableNamespace) (u : option StateGetter)
    (pinned : option PinnedCache) (key : SlotKey) (w : ArrayWitness)
  : option (option SlotValue * ArrayWitness) :=
  match Pinned.check_pinned_cache pinned key with
  | Present v => Some (v, w)
  | Absent =>
      match u with
      | Some changes =>
          match getter_get changes (namespace_of ns) key with
          | Present v => Some (v, w)
          | Absent => get_stored st ns key w
          end
      | None => get_stored st ns key w
      end
  end.

(** The node of a value that was read. *)
Definition read_node (v : option SlotValue) : option (option NodeLeafAndMaybeValue) :=
  match v with
  | None => Some None
  | Some v => let? l := make_leaf v in Some (Some (mkNode l (ReadValue v)))
  end.

Definition get_or_fetch (st : St) (ns : ProvableNamespace) (u : option StateGetter)
    (key : SlotKey) (s : t) (w : ArrayWitness) : fetched (option SlotValue) :=
  match CacheLog.get key (cache s) with
  | Some (AccRead (Some node)) =>
      match value node with
      | GetSizeValueNotFetched =>
          let? (v, w) := fetch_value st ns u (pinned_cache s) key w in
          let? v := v in
          let? l := make_leaf v in
          if decide (leaf node = l) then
            Some (Some v, with_log (CacheLog.set_found key
                    (AccRead (Some (mkNode (leaf node) (ReadValue v)))) (cache s)) s, w)
          else None
      | GetSizeValueFetched v =>
          Some (Some v, with_log (CacheLog.set_found key
                  (AccRead (Some (mkNode (leaf node) (ReadValue v)))) (cache s)) s,
                put_in_witness st (Some v) w)
      | ReadValue v => Some (Some v, s, w)
      end
  | Some (AccRead None) => Some (None, s, w)
  | Some (AccWrite modified) => Some (modified, s, w)
  | None =>
      let? (v, w) := fetch_value st ns u (pinned_cache s) key w in
      let? node := read_node v in
      let? s := add_read key node s in
      Some (v, s, w)
  end.
End Fetch.
End Cache.

(** ** [Delta], internals.rs *)
Module Delta.
Section Delta.
Context {St : Type} {Sto : Storage St}.

Record t : Type := mk {
  inner : St;
  witness : ArrayWitness;
  uncommitted_changes : option StateGetter;
  kernel_cache : Cache.t;
  user_cache : Cache.t;
  accessory_writes : gmap SlotKey (option SlotValue)
}.

Definition with_witness (st : St) (w : ArrayWitness) : t :=
  mk st w None Cache.default Cache.default ∅.

Definition cache_of (ns : ProvableNamespace) (d : t) : Cache.t :=
  match ns with UserSpace => user_cache d | KernelSpace => kernel_cache d end.

Definition set_cache (ns : ProvableNamespace) (c : Cache.t) (d : t) : t :=
  match ns with
  | UserSpace =>
      mk (inner d) (witness d) (uncommitted_changes d) (kernel_cache d) c (accessory_writes d)
  | KernelSpace =>
      mk (inner d) (witness d) (uncommitted_changes d) c (user_cache d) (accessory_writes d)
  end.

Definition set_witness (w : ArrayWitness) (d : t) : t :=
  mk (inner d) w (uncommitted_changes d) (kernel_cache d) (user_cache d) (accessory_writes d).

Definition set_accessory (a : gmap SlotKey (option SlotValue)) (d : t) : t :=
  mk (inner d) (witness d) (uncommitted_changes d) (kernel_cache d) (user_cache d) a.

Definition commit_revertable_storage_cache (d : t) : option t :=
  let? u := Cache.commit_revertable_storage_cache (user_cache d) in
  let? k := Cache.commit_revertable_storage_cache (kernel_cache d) in
  Some (set_cache UserSpace u (set_cache KernelSpace k d)).

Definition discard_revertable_storage_cache (d : t) : t :=
  set_cache UserSpace (Cache.discard_revertable_storage_cache (user_cache d))
    (set_cache KernelSpace (Cache.discard_revertable_storage_cache (kernel_cache d)) d).

Definition is_value_cached (ns : Namespace) (key : SlotKey) (d : t) : option IsValueCached :=
  match ns with
  | User => Cache.is_value_cached key (user_cache d)
  | Kernel => Cache.is_value_cached key (kernel_cache d)
  | Accessory =>
      match accessory_writes d !! key with
      | Some v => let? n := size_or_zero v in Some (Yes (SizeWrite n))
      | None => Some No
      end
  end.

(** The value of the accessory state that is not in the cache. *)
Definition fetch_accessory (key : SlotKey) (d : t) : option (option SlotValue) :=
  match uncommitted_changes d with
  | Some changes => or_else (getter_get changes Accessory key) (get_accessory (inner d) key)
  | None => get_accessory (inner d) key
  end.

Definition opt_size (v : option SlotValue) : option (option N) :=
  match v with Some v => let? n := size v in Some (Some n) | None => Some None end.

Definition get_size (ns : Namespace) (key : SlotKey) (d : t) : option (option N * t) :=
  let in_cache ns :=
    let? (r, c, w) := Cache.get_size_or_fetch (inner d) ns (uncommitted_changes d) key
                        (cache_of ns d) (witness d) in
    Some (r, set_witness w (set_cache ns c d)) in
  match ns with
  | User => in_cache UserSpace
  | Kernel => in_cache KernelSpace
  | Accessory =>
      match accessory_writes d !! key with
      | Some v => let? n := opt_size v in Some (n, d)
      | None => let? v := fetch_accessory key d in let? n := opt_size v in Some (n, d)
      end
  end.

Definition get (ns : Namespace) (key : SlotKey) (d : t) : option (option SlotValue * t) :=
  let in_cache ns :=
    let? (r, c, w) := Cache.get_or_fetch (inner d) ns (uncommitted_changes d) key
                        (cache_of ns d) (witness d) in
    Some (r, set_witness w (set_cache ns c d)) in
  match ns with
  | User => in_cache UserSpace
  | Kernel => in_cache KernelSpace
  | Accessory =>
      match accessory_writes d !! key with
      | Some v => Some (v, d)
      | None =>
          let? v := fetch_accessory key d in
          match uncommitted_changes d with
          | Some _ => Some (v, d)
          | None => let? _ := opt_size v in Some (v, d)
          end
      end
  end.

Definition set (ns : Namespace) (key : SlotKey) (v : SlotValue) (d : t) : option t :=
  match ns with
  | User => let? c := Cache.set key v (user_cache d) in Some (set_cache UserSpace c d)
  | Kernel => let? c := Cache.set key v (kernel_cache d) in Some (set_cache KernelSpace c d)
  | Accessory => Some (set_accessory (<[key := Some v]> (accessory_writes d)) d)
  end.

(** [delete] forgets the write to an accessory key. *)
Definition delete (ns : Namespace) (key : SlotKey) (d : t) : option t :=
  match ns with
  | User => let? c := Cache.delete key (user_cache d) in Some (set_cache UserSpace c d)
  | Kernel => let? c := Cache.delete key (kernel_cache d) in Some (set_cache KernelSpace c d)
  | Accessory => Some (set_accessory (base.delete key (accessory_writes d)) d)
  end.

(** [freeze]: the accesses, the writes to the accessory state, the witness and the
    storage. *)
Definition freeze (d : t)
  : option (StateAccesses * gmap SlotKey (option SlotValue) * ArrayWitness * St) :=
  let? u := Cache.to_ordered_writes_and_reads (user_cache d) in
  let? k := Cache.to_ordered_writes_and_reads (kernel_cache d) in
  Some (mkAccesses u k, accessory_writes d, witness d, inner d).

(** [StateCheckpoint::materialize_update], checkpoints.rs; an error panics. *)
Definition materialize_update (d : t) (prev_state_root : Root)
  : option (Root * StateUpdate * ArrayWitness) :=
  let? (accesses, _, w, st) := freeze d in
  match compute_state_update st accesses w prev_state_root with Ok r => Some r | _ => None end.
End Delta.
End Delta.
