(* ===== verification/StateCacheProofs.v ===== *)
(** * Lemmas on the cache of the state

    Committing the log is a union of maps, and the writes of a slot do not depend on
    the order in which the hash maps are traversed. *)

From Stdlib Require Import NArith Lia.
From stdpp Require Import base numbers gmap option list sorting.
From S2P Require Import Prelude Ints StateAccess SlotKey StateCache.

Module CacheLogFacts.
Import CacheLog.

(** No key of the log was read from the storage again. *)
Definition reads_fresh (c : t) : Prop :=
  forall k v, revertable_log c !! k = Some (AccRead v) -> log c !! k = None.

Lemma merge_entries_union es l :
  NoDup es.*1 -> (forall k v, (k, AccRead v) ∈ es -> l !! k = None) ->
  merge_entries es l = Some (list_to_map es ∪ l).
Proof.
  revert l. induction es as [|[k a] es IH]; intros l Hd Hf; cbn [merge_entries].
  - cbn. by rewrite (left_id_L ∅ (∪)).
  - rewrite list_to_map_cons. apply NoDup_cons in Hd as [Hk Hd].
    assert (merge_entry (k, a) l = Some (<[k := a]> l)) as ->.
    { destruct a as [v|v]; [|done]. cbn. by rewrite (Hf k v) by set_solver. }
    rewrite IH; [|done|].
    + rewrite <- insert_union_l, <- insert_union_r; [done|].
      by apply not_elem_of_list_to_map_1.
    + intros k' v Hin. rewrite lookup_insert_ne; [apply (Hf k' v); set_solver|].
      intros ->. apply Hk. by apply (list_elem_of_fmap_2 fst) in Hin.
Qed.

Lemma commit_union c :
  reads_fresh c -> commit_revertable_log c = Some (mk ∅ (revertable_log c ∪ log c)).
Proof.
  intros Hf. unfold commit_revertable_log. destruct (decide (log c = ∅)) as [->|Hne].
  - by rewrite (right_id_L ∅ (∪)).
  - rewrite merge_entries_union, list_to_map_to_list; [done|apply NoDup_fst_map_to_list|].
    intros k v Hin. apply elem_of_map_to_list in Hin. by apply (Hf k v).
Qed.

Lemma get_union c k : get k c = (revertable_log c ∪ log c) !! k.
Proof.
  unfold get. destruct (revertable_log c !! k) as [a|] eqn:Hk.
  - by rewrite (lookup_union_Some_l _ _ _ _ Hk).
  - by rewrite lookup_union_r.
Qed.

(** The writes of a log. *)
Definition writes (l : gmap SlotKey Access) : gmap SlotKey (option SlotValue) :=
  omap (fun a => match a with AccWrite v => Some v | AccRead _ => None end) l.

Lemma take_writes_perm l :
  exists ws, take_writes (mk ∅ l) = Some ws /\ ws ≡ₚ map_to_list (writes l).
Proof.
  eexists. split; [reflexivity|]. cbn. induction l as [|k a l Hk IH] using map_ind; [done|].
  rewrite (map_to_list_insert l k a Hk). cbn. unfold writes. destruct a as [v|v]; cbn.
  - rewrite IH. assert (omap (λ a, match a with AccWrite v => Some v | _ => None end)
      (<[k := AccRead v]> l) = writes l) as ->; [|done].
    apply map_eq. intros i. unfold writes. rewrite !lookup_omap. destruct (decide (i = k)) as [->|Hne].
    + by rewrite lookup_insert_eq, Hk.
    + by rewrite lookup_insert_ne.
  - rewrite (omap_insert_Some _ _ _ _ v) by done.
    rewrite map_to_list_insert by (by rewrite lookup_omap, Hk). by rewrite IH.
Qed.
End CacheLogFacts.

(** ** Sorting *)
Module SortFacts.
Lemma key_le_refl k : key_le k k = true.
Proof.
  induction k as [|x k IH]; [done|]. cbn. rewrite N.eqb_refl, IH. by rewrite orb_true_r.
Qed.

Lemma key_le_total k1 k2 : key_le k1 k2 = true \/ key_le k2 k1 = true.
Proof.
  revert k2. induction k1 as [|x k1 IH]; intros [|y k2]; cbn; [by left..|by right|].
  destruct (N.lt_trichotomy x y) as [Hlt|[->|Hgt]].
  - left. by rewrite (proj2 (N.ltb_lt _ _)).
  - rewrite N.ltb_irrefl, N.eqb_refl. apply IH.
  - right. by rewrite (proj2 (N.ltb_lt _ _)).
Qed.

Lemma key_le_cons x y k1 k2 :
  key_le (x :: k1) (y :: k2) = true <-> x < y \/ x = y /\ key_le k1 k2 = true.
Proof. cbn. by rewrite orb_true_iff, andb_true_iff, N.ltb_lt, N.eqb_eq. Qed.

Lemma key_le_antisym k1 k2 : key_le k1 k2 = true -> key_le k2 k1 = true -> k1 = k2.
Proof.
  revert k2. induction k1 as [|x k1 IH]; intros [|y k2]; [done..|].
  rewrite !key_le_cons. intros [H1|[-> H1]] [H2|[? H2]]; try lia. by rewrite (IH k2).
Qed.

Lemma key_le_trans k1 k2 k3 : key_le k1 k2 = true -> key_le k2 k3 = true -> key_le k1 k3 = true.
Proof.
  revert k2 k3. induction k1 as [|x k1 IH]; intros [|y k2] [|z k3]; try done.
  rewrite !key_le_cons. intros [H1|[-> H1]] [H2|[-> H2]]; [left; lia..|].
  right. eauto.
Qed.

Definition entry_le {A} (e1 e2 : SlotKey * A) : Prop := key_le e1.1 e2.1 = true.

Lemma insert_write_perm {A} (e : SlotKey * A) l : insert_write e l ≡ₚ e :: l.
Proof.
  induction l as [|e' l IH]; cbn; [done|]. destruct (key_le e.1 e'.1); [done|].
  rewrite IH. constructor.
Qed.

Lemma sort_writes_perm {A} (l : list (SlotKey * A)) : sort_writes l ≡ₚ l.
Proof. induction l as [|e l IH]; cbn; [done|]. by rewrite insert_write_perm, IH. Qed.

Lemma insert_write_sorted {A} (e : SlotKey * A) l :
  StronglySorted entry_le l -> StronglySorted entry_le (insert_write e l).
Proof.
  induction 1 as [|e' l Hl IH Hall]; cbn; [by repeat constructor|].
  destruct (key_le e.1 e'.1) eqn:Hle.
  - repeat constructor; [done|done|done|]. eapply Forall_impl; [exact Hall|].
    intros e2. by apply key_le_trans.
  - constructor; [done|]. rewrite insert_write_perm. constructor; [|done].
    unfold entry_le. destruct (key_le_total e'.1 e.1); [done|congruence].
Qed.

Lemma sort_writes_sorted {A} (l : list (SlotKey * A)) : StronglySorted entry_le (sort_writes l).
Proof. induction l as [|e l IH]; cbn; [constructor|by apply insert_write_sorted]. Qed.

Lemma NoDup_keys {A} (l : list (SlotKey * A)) k a1 a2 :
  NoDup l.*1 -> (k, a1) ∈ l -> (k, a2) ∈ l -> a1 = a2.
Proof.
  intros Hd H1 H2. apply list_elem_of_lookup in H1 as [i Hi], H2 as [j Hj].
  assert (i = j) as ->; [|congruence].
  apply (NoDup_lookup l.*1 i j k); [done|by rewrite list_lookup_fmap, Hi|by rewrite list_lookup_fmap, Hj].
Qed.

(** The sorted list is determined by the entries if no key repeats. *)
Lemma sort_writes_unique {A} (l1 l2 : list (SlotKey * A)) :
  NoDup l1.*1 -> l1 ≡ₚ l2 -> sort_writes l1 = sort_writes l2.
Proof.
  intros Hd Hp. apply (StronglySorted_unique_strong entry_le).
  - intros [k1 a1] [k2 a2] H1 H2 Hle1 Hle2.
    rewrite sort_writes_perm in H1. rewrite sort_writes_perm, <- Hp in H2.
    assert (k1 = k2) as -> by (by apply key_le_antisym).
    f_equal. by eapply (NoDup_keys l1 k2).
  - apply sort_writes_sorted.
  - apply sort_writes_sorted.
  - by rewrite !sort_writes_perm.
Qed.
End SortFacts.
