(* ===== verification/StateStorage.v ===== *)
(** * The storage of the prover and of the zkVM

    sov-state/src/prover_storage.rs, zk_storage.rs and storage_internals.rs.

    The native storage reads values from the database, records them as hints in the
    witness, and computes the new state root with proofs for what was read and
    written.  The storage of the zkVM has no database: it takes the values from the
    hints and checks the proofs against the previous state root.

    The Merkle tree of the jmt crate, the database and the serialization of hints are
    parameters. *)

From Stdlib Require Import NArith Lia.
From stdpp Require Import base numbers gmap option list.
From S2P Require Import Prelude Ints StateAccess SlotKey StateCache.

(** What the storages use of the jmt crate: a tree at a version, and its proofs. *)
Class Jmt : Type := {
  SparseMerkleProof : Type;
  UpdateMerkleProof : Type;
  Tree : Type;
  get_root_hash : Tree -> list N;
  get_with_proof : Tree -> list N -> option (option (list N) * SparseMerkleProof);
  put_value_set_with_proof : Tree -> list (list N * option (list N)) ->
    option (list N * UpdateMerkleProof * Tree);
  verify_existence : SparseMerkleProof -> list N -> list N -> list N -> bool;
  verify_nonexistence : SparseMerkleProof -> list N -> list N -> bool;
  verify_update : UpdateMerkleProof -> list N -> list N -> list (list N * option (list N)) -> bool
}.

(** The hints of a witness. *)
Class HintCodec `{Jmt} : Type := {
  hint_value :: Hint (option SlotValue);
  hint_leaf :: Hint (option NodeLeafAndMaybeValue);
  hint_proof :: Hint SparseMerkleProof;
  hint_update :: Hint UpdateMerkleProof;
  hint_root :: Hint (list N)
}.

(** [StorageRoot]: 32 bytes for each namespace. *)
Module StorageRoot.
Definition t : Type := list N.
Definition new (user_hash kernel_hash : list N) : t := user_hash ++ kernel_hash.
Definition namespace_root (ns : ProvableNamespace) (r : t) : list N :=
  match ns with UserSpace => take 32 r | KernelSpace => drop 32 r end.
End StorageRoot.

Module StateStorage.
Section Storage.
Context {Hs : Hasher} {J : Jmt} {Codec : HintCodec}.

(** The databases behind a [ProverStorage]: the values and the trees by version. *)
Record StateDb : Type := mkDb {
  get_next_version : N;
  get_value_option_by_key : ProvableNamespace -> N -> SlotKey -> option SlotValue;
  accessory_value : N -> SlotKey -> option SlotValue;
  jmt : ProvableNamespace -> N -> Tree;
  jmt_next : ProvableNamespace -> Tree
}.

Definition get_version_to_use (db : StateDb) (version : option N) : option N :=
  if get_next_version db =? 0 then None
  else
    match version with
    | None => Some (get_next_version db - 1)
    | Some passed => if get_next_version db <=? passed then None else Some passed
    end.

Definition read_value (db : StateDb) (ns : ProvableNamespace) (key : SlotKey) (version : option N)
  : option SlotValue :=
  let? version_to_use := get_version_to_use db version in
  get_value_option_by_key db ns version_to_use key.

(** [do_get_leaf]: the node of the cache has the value, the one in the witness not. *)
Definition do_get_leaf (db : StateDb) (ns : ProvableNamespace) (key : SlotKey) (w : ArrayWitness)
    (version : option N) : option (option NodeLeafAndMaybeValue * ArrayWitness) :=
  match read_value db ns key version with
  | None => Some (None, add_hint (None : option NodeLeafAndMaybeValue) w)
  | Some v =>
      let? l := make_leaf v in
      Some (Some (mkNode l (GetSizeValueFetched v)),
            add_hint (Some (mkNode l GetSizeValueNotFetched)) w)
  end.

(** [.map(|v| v.combine_val_hash_and_size())] *)
Definition opt_hash_and_size (v : option SlotValue) : option (option (list N)) :=
  match v with None => Some None | Some v => let? h := value_hash_and_size v in Some (Some h) end.

(** The loop of [compute_state_update_namespace] over the reads. *)
Fixpoint prove_reads (t : Tree) (reads : list (SlotKey * option NodeLeaf)) (w : ArrayWitness)
  : outcome unit ArrayWitness :=
  match reads with
  | [] => Ok w
  | (key, read) :: reads' =>
      match get_with_proof t (digest key) with
      | None => Err tt
      | Some (value_from_proof, proof) =>
          match opt_hash_and_size value_from_proof with
          | None => Panic
          | Some h =>
              if decide (h = combine_val_hash_and_size <$> read)
              then prove_reads t reads' (add_hint proof w)
              else Err tt
          end
      end
  end.

(** The batch of writes for the tree, which both storages compute. *)
Fixpoint write_batch (writes : list (SlotKey * option SlotValue))
  : option (list (list N * option (list N))) :=
  match writes with
  | [] => Some []
  | (key, v) :: writes' =>
      let? h := opt_hash_and_size v in
      let? rest := write_batch writes' in
      Some ((digest key, h) :: rest)
  end.

(** [ProverStateUpdate]: the new tree, the values and the keys of the writes. *)
Record ProverStateUpdate : Type := mkUpdate {
  new_tree : Tree;
  original_writes : list (list N * option SlotValue);
  key_preimages : list (list N * SlotKey)
}.

(** [compute_state_update_namespace] of the prover.  The tree of the next version is
    built from the one of the latest version, or from the empty one at genesis. *)
Definition prover_update_namespace (db : StateDb) (ns : ProvableNamespace)
    (accesses : OrderedReadsAndWrites) (w : ArrayWitness) (prev_state_root : list N)
  : outcome unit (list N * ProverStateUpdate * ArrayWitness) :=
  let proved :=
    match checked_sub (get_next_version db) 1 with
    | None => Ok w
    | Some latest_version =>
        if decide (get_root_hash (jmt db ns latest_version) = prev_state_root)
        then prove_reads (jmt db ns latest_version) (ordered_reads accesses) w
        else Panic
    end in
  match proved with
  | Err e => Err e
  | Panic => Panic
  | Ok w =>
      match write_batch (ordered_writes accesses) with
      | None => Panic
      | Some batch =>
          match put_value_set_with_proof (jmt_next db ns) batch with
          | None => Panic
          | Some (new_root, update_proof, tree) =>
              Ok (new_root,
                  mkUpdate tree (map (fun e => (digest e.1, e.2)) (ordered_writes accesses))
                    (map (fun e => (digest e.1, e.1)) (ordered_writes accesses)),
                  add_hint new_root (add_hint update_proof w))
          end
      end
  end.

Definition prover_update (db : StateDb) (accesses : StateAccesses) (w : ArrayWitness)
    (prev : StorageRoot.t)
  : outcome unit (StorageRoot.t * (ProverStateUpdate * ProverStateUpdate) * ArrayWitness) :=
  match prover_update_namespace db UserSpace (user_accesses accesses) w
          (StorageRoot.namespace_root UserSpace prev) with
  | Ok (user_root, user_update, w) =>
      match prover_update_namespace db KernelSpace (kernel_accesses accesses) w
              (StorageRoot.namespace_root KernelSpace prev) with
      | Ok (kernel_root, kernel_update, w) =>
          Ok (StorageRoot.new user_root kernel_root, (user_update, kernel_update), w)
      | Err e => Err e
      | Panic => Panic
      end
  | Err e => Err e
  | Panic => Panic
  end.

(** [Storage for ProverStorage] *)
#[export] Instance prover_storage : Storage StateDb := {|
  storage_hasher := Hs;
  Root := StorageRoot.t;
  StateUpdate := ProverStateUpdate * ProverStateUpdate;
  put_in_witness := fun _ v w => add_hint v w;
  get_leaf := fun db ns key w => do_get_leaf db ns key w None;
  get_stored := fun db ns key w =>
    let v := read_value db ns key None in Some (v, add_hint v w);
  get_accessory := fun db key =>
    match get_version_to_use db None with
    | Some v => Some (accessory_value db v key)
    | None => Some None
    end;
  compute_state_update := prover_update
|}.

(** ** The zkVM *)

(** [ZkStorage] has no data. *)
Inductive ZkStorage : Type := zkStorage.

Definition zk_get_leaf (w : ArrayWitness)
  : option (option NodeLeafAndMaybeValue * ArrayWitness) :=
  let? (l, w) := get_hint (T := option NodeLeafAndMaybeValue) w in
  match l with
  | None => Some (None, w)
  | Some node =>
      match value node with GetSizeValueNotFetched => Some (Some node, w) | _ => None end
  end.

(** [jmt_verify_existence] *)
Fixpoint jmt_verify_existence (prev_state_root : list N)
    (reads : list (SlotKey * option NodeLeaf)) (w : ArrayWitness) : outcome unit ArrayWitness :=
  match reads with
  | [] => Ok w
  | (key, read_value) :: reads' =>
      match get_hint (T := SparseMerkleProof) w with
      | None => Panic
      | Some (proof, w) =>
          if (match read_value with
              | Some l => verify_existence proof prev_state_root (digest key)
                            (combine_val_hash_and_size l)
              | None => verify_nonexistence proof prev_state_root (digest key)
              end)
          then jmt_verify_existence prev_state_root reads' w
          else Err tt
      end
  end.

(** [jmt_verify_update] *)
Definition jmt_verify_update (prev_state_root : list N)
    (writes : list (SlotKey * option SlotValue)) (w : ArrayWitness)
  : option (list N * ArrayWitness) :=
  let? batch := write_batch writes in
  let? (update_proof, w) := get_hint (T := UpdateMerkleProof) w in
  let? (new_root, w) := get_hint (T := list N) w in
  if verify_update update_proof prev_state_root new_root batch then Some (new_root, w) else None.

Definition zk_update_namespace (accesses : OrderedReadsAndWrites) (w : ArrayWitness)
    (prev_state_root : list N) : outcome unit (list N * ArrayWitness) :=
  match jmt_verify_existence prev_state_root (ordered_reads accesses) w with
  | Ok w =>
      match jmt_verify_update prev_state_root (ordered_writes accesses) w with
      | Some r => Ok r
      | None => Panic
      end
  | Err e => Err e
  | Panic => Panic
  end.

Definition zk_update (accesses : StateAccesses) (w : ArrayWitness) (prev : StorageRoot.t)
  : outcome unit (StorageRoot.t * unit * ArrayWitness) :=
  match zk_update_namespace (user_accesses accesses) w
          (StorageRoot.namespace_root UserSpace prev) with
  | Ok (user_root, w) =>
      match zk_update_namespace (kernel_accesses accesses) w
              (StorageRoot.namespace_root KernelSpace prev) with
      | Ok (kernel_root, w) => Ok (StorageRoot.new user_root kernel_root, tt, w)
      | Err e => Err e
      | Panic => Panic
      end
  | Err e => Err e
  | Panic => Panic
  end.

(** [Storage for ZkStorage] *)
#[export] Instance zk_storage : Storage ZkStorage := {|
  storage_hasher := Hs;
  Root := StorageRoot.t;
  StateUpdate := unit;
  put_in_witness := fun _ _ w => w;
  get_leaf := fun _ _ _ w => zk_get_leaf w;
  get_stored := fun _ _ _ w => get_hint (T := option SlotValue) w;
  get_accessory := fun _ _ => None;
  compute_state_update := fun _ => zk_update
|}.
End Storage.
End StateStorage.
