(* ===== verification/ZkReplay.v ===== *)
(** * The zkVM computes what the node computes

    A slot is a program that reads and writes the state through a [Delta] and ends with
    the computation of the new state root.  The node runs it on its database and
    records a witness; the zkVM runs the same program on the witness.  The relation
    [cache_rel] between the two caches is kept by every operation, in both directions. *)

From Stdlib Require Import NArith Lia.
From stdpp Require Import base numbers gmap option list sorting.
From S2P Require Import Prelude Ints StateAccess SlotKey StateCache StateCacheProofs StateStorage.

(** ** Programs over the state

    What a state transition may do: read sizes and values of the provable namespaces,
    write and delete in every namespace, and commit or discard the log.  The
    continuation of a read depends on what was read. *)
Inductive prog (A : Type) : Type :=
| Done (a : A)
| GetSize (ns : ProvableNamespace) (key : SlotKey) (k : option N -> prog A)
| GetValue (ns : ProvableNamespace) (key : SlotKey) (k : option SlotValue -> prog A)
| SetValue (ns : Namespace) (key : SlotKey) (v : SlotValue) (p : prog A)
| DeleteValue (ns : Namespace) (key : SlotKey) (p : prog A)
| CommitCache (p : prog A)
| DiscardCache (p : prog A).
Arguments Done {A} a.
Arguments GetSize {A} ns key k.
Arguments GetValue {A} ns key k.
Arguments SetValue {A} ns key v p.
Arguments DeleteValue {A} ns key p.
Arguments CommitCache {A} p.
Arguments DiscardCache {A} p.

Section Run.
Context {St : Type} {Sto : Storage St}.

Fixpoint run {A} (p : prog A) (d : Delta.t) : option (A * Delta.t) :=
  match p with
  | Done a => Some (a, d)
  | GetSize ns key k => let? (r, d) := Delta.get_size (namespace_of ns) key d in run (k r) d
  | GetValue ns key k => let? (r, d) := Delta.get (namespace_of ns) key d in run (k r) d
  | SetValue ns key v p => let? d := Delta.set ns key v d in run p d
  | DeleteValue ns key p => let? d := Delta.delete ns key d in run p d
  | CommitCache p => let? d := Delta.commit_revertable_storage_cache d in run p d
  | DiscardCache p => run p (Delta.discard_revertable_storage_cache d)
  end.

(** A slot: the program on a new checkpoint, then the update of the state. *)
Definition run_slot {A} (st : St) (w : ArrayWitness) (p : prog A) (prev_state_root : Root)
  : option (A * Root * StateUpdate * ArrayWitness) :=
  let? (a, d) := run p (Delta.with_witness st w) in
  let? (root, update, w) := Delta.materialize_update d prev_state_root in
  Some (a, root, update, w).
End Run.

(** The node never discards reads in a slot; the sequencer does. *)
Fixpoint no_discard {A} (p : prog A) : Prop :=
  match p with
  | Done _ => True
  | GetSize _ _ k => forall r, no_discard (k r)
  | GetValue _ _ k => forall r, no_discard (k r)
  | SetValue _ _ _ p | DeleteValue _ _ p | CommitCache p => no_discard p
  | DiscardCache _ => False
  end.

(** The hash has 32 bytes. *)
Class HasherLaws `{Hasher} : Prop := digest_length : forall v, length (digest v) = 32%nat.

(** The types of the fields of a leaf: a hash and a u32. *)
Definition leaf_ok (l : NodeLeaf) : Prop := length (val_hash l) = 32%nat /\ leaf_size l <= u32_max.

Lemma make_leaf_ok `{HasherLaws} v l :
  make_leaf v = Some l -> leaf_ok l /\ value_hash_and_size v = Some (combine_val_hash_and_size l).
Proof.
  unfold make_leaf, value_hash_and_size, size. destruct (N.leb_spec (len v) u32_max); [|done].
  intros Hl. simplify_eq. by split; [split; [apply digest_length|]|].
Qed.

(** The laws of the serialization: a hint is read as it was written. *)
Class HintLaws `{Hint T} : Prop := hint_roundtrip : forall t : T, from_slice (to_vec t) = Some t.

Class HintCodecLaws `{HintCodec} : Prop := {
  hint_value_law :: HintLaws (T := option SlotValue);
  hint_leaf_law : forall o : option NodeLeafAndMaybeValue,
    match o with Some node => leaf_ok (leaf node) | None => True end -> from_slice (to_vec o) = Some o;
  hint_leaf_typed : forall b (node : NodeLeafAndMaybeValue),
    from_slice b = Some (Some node) -> leaf_ok (leaf node);
  hint_proof_law :: HintLaws (T := SparseMerkleProof);
  hint_update_law :: HintLaws (T := UpdateMerkleProof);
  hint_root_law :: HintLaws (T := list N)
}.

Lemma get_add_hint `{HintLaws T} (t : T) (w : ArrayWitness) : get_hint (to_vec t :: w) = Some (t, w).
Proof. cbn. by rewrite hint_roundtrip. Qed.

(** The laws of the jmt crate: a tree is a map from hashes of keys to what is stored
    for them, and the proofs it gives are accepted for its root. *)
Class JmtLaws `{Jmt} : Type := {
  tree_map : Tree -> list N -> option (list N);
  proof_accepted : forall t k v p, get_with_proof t k = Some (v, p) ->
    match tree_map t k with
    | Some h => verify_existence p (get_root_hash t) k h
    | None => verify_nonexistence p (get_root_hash t) k
    end = true;
  update_accepted : forall t batch r p t', put_value_set_with_proof t batch = Some (r, p, t') ->
    verify_update p (get_root_hash t) r batch = true
}.

Lemma get_add_leaf `{HintCodecLaws} (o : option NodeLeafAndMaybeValue) (w : ArrayWitness) :
  match o with Some node => leaf_ok (leaf node) | None => True end ->
  get_hint (to_vec o :: w) = Some (o, w).
Proof. intros Ho. cbn. by rewrite hint_leaf_law. Qed.

Module ZkReplay.
Import CacheLogFacts StateStorage.
Section Replay.
Context {Hs : Hasher} {J : Jmt} {Codec : HintCodec}.

(** ** The relation between the caches *)

(** [base] is the database at the start of the slot.  Where the node has the value of
    a key whose size was read, the zkVM has only the leaf. *)
Inductive access_rel (base : SlotKey -> option SlotValue) (k : SlotKey) : Access -> Access -> Prop :=
| rel_write v : access_rel base k (AccWrite v) (AccWrite v)
| rel_absent : access_rel base k (AccRead None) (AccRead None)
| rel_read l v :
    access_rel base k (AccRead (Some (mkNode l (ReadValue v)))) (AccRead (Some (mkNode l (ReadValue v))))
| rel_size l v : base k = Some v -> make_leaf v = Some l ->
    access_rel base k (AccRead (Some (mkNode l (GetSizeValueFetched v))))
      (AccRead (Some (mkNode l GetSizeValueNotFetched))).

Definition log_rel (base : SlotKey -> option SlotValue) (n z : gmap SlotKey Access) : Prop :=
  forall k, option_Forall2 (access_rel base k) (n !! k) (z !! k).

Record cache_rel (base : SlotKey -> option SlotValue) (n z : Cache.t) : Prop := mkCacheRel {
  cr_revertable : log_rel base (CacheLog.revertable_log (Cache.cache n))
                    (CacheLog.revertable_log (Cache.cache z));
  cr_log : log_rel base (CacheLog.log (Cache.cache n)) (CacheLog.log (Cache.cache z));
  cr_fresh : reads_fresh (Cache.cache n);
  cr_pinned_n : Cache.pinned_cache n = None;
  cr_pinned_z : Cache.pinned_cache z = None;
  cr_reads : map Cache.leaf_of_read (Cache.revertable_ordered_reads n) =
             map Cache.leaf_of_read (Cache.revertable_ordered_reads z);
  cr_db_reads : Cache.ordered_db_reads n = Cache.ordered_db_reads z
}.

Lemma log_rel_insert base n z k a b :
  log_rel base n z -> access_rel base k a b -> log_rel base (<[k := a]> n) (<[k := b]> z).
Proof.
  intros Hl Ha i. destruct (decide (i = k)) as [->|Hne].
  - rewrite !lookup_insert_eq. by constructor.
  - rewrite !lookup_insert_ne by done. apply Hl.
Qed.

Lemma log_rel_union base n1 n2 z1 z2 :
  log_rel base n1 z1 -> log_rel base n2 z2 -> log_rel base (n1 ∪ n2) (z1 ∪ z2).
Proof.
  intros H1 H2 k. rewrite !lookup_union.
  specialize (H1 k). specialize (H2 k). destruct H1, H2; cbn; by constructor.
Qed.

Lemma log_rel_empty base : log_rel base ∅ ∅.
Proof. intros k. rewrite !lookup_empty. constructor. Qed.

Lemma log_rel_writes base n z : log_rel base n z -> writes n = writes z.
Proof.
  intros Hl. apply map_eq. intros k. unfold writes. rewrite !lookup_omap.
  specialize (Hl k). inversion Hl as [a b Hab|]; [|done]. by destruct Hab.
Qed.

Lemma cache_rel_get base n z k :
  cache_rel base n z ->
  option_Forall2 (access_rel base k) (CacheLog.get k (Cache.cache n)) (CacheLog.get k (Cache.cache z)).
Proof. intros Hr. rewrite !get_union. apply log_rel_union; apply Hr. Qed.

Lemma cache_rel_fresh_z base n z : cache_rel base n z -> reads_fresh (Cache.cache z).
Proof.
  intros Hr k v Hz. pose proof (cr_revertable _ _ _ Hr k) as Hk. rewrite Hz in Hk.
  inversion Hk as [a b Hab Ha Hb|]; subst. pose proof (cr_log _ _ _ Hr k) as Hl.
  assert (exists v', a = AccRead v') as [v' ->] by (inversion Hab; eauto).
  rewrite (cr_fresh _ _ _ Hr k v') in Hl by congruence. by inversion Hl.
Qed.

Lemma cache_rel_default base : cache_rel base Cache.default Cache.default.
Proof.
  split; try done; apply log_rel_empty.
Qed.

(** *** Operations without the storage *)

Lemma cache_rel_commit base n z :
  cache_rel base n z ->
  exists n' z', Cache.commit_revertable_storage_cache n = Some n' /\
    Cache.commit_revertable_storage_cache z = Some z' /\ cache_rel base n' z' /\
    CacheLog.revertable_log (Cache.cache n') = ∅ /\ CacheLog.revertable_log (Cache.cache z') = ∅ /\
    Cache.revertable_ordered_reads n' = [] /\ Cache.revertable_ordered_reads z' = [].
Proof.
  intros Hr. unfold Cache.commit_revertable_storage_cache.
  rewrite (commit_union _ (cr_fresh _ _ _ Hr)), (commit_union _ (cache_rel_fresh_z _ _ _ Hr)).
  do 2 eexists. split_and!; [done..| |done|done|done|done]. split; cbn; try apply Hr.
  - apply log_rel_empty.
  - apply log_rel_union; apply Hr.
  - intros k v Hk. cbn in Hk. by rewrite lookup_empty in Hk.
  - done.
  - by rewrite (cr_reads _ _ _ Hr), (cr_db_reads _ _ _ Hr).
Qed.

Lemma cache_rel_discard base n z :
  cache_rel base n z ->
  cache_rel base (Cache.discard_revertable_storage_cache n) (Cache.discard_revertable_storage_cache z).
Proof.
  intros Hr. split; cbn; try apply Hr; [apply log_rel_empty| |done].
  intros k v Hk. cbn in Hk. by rewrite lookup_empty in Hk.
Qed.

(** Writing [v] under [key] in the log that can be reverted. *)
Definition write_entry (key : SlotKey) (v : option SlotValue) (c : Cache.t) : Cache.t :=
  Cache.with_log (CacheLog.mk (<[key := AccWrite v]> (CacheLog.revertable_log (Cache.cache c)))
    (CacheLog.log (Cache.cache c))) c.

Lemma cache_rel_write base n z key v :
  cache_rel base n z -> cache_rel base (write_entry key v n) (write_entry key v z).
Proof.
  intros Hr. split; cbn; try apply Hr.
  - apply log_rel_insert; [apply Hr|constructor].
  - intros k v' Hk. cbn in *. destruct (decide (k = key)) as [->|Hne].
    + by rewrite lookup_insert_eq in Hk.
    + rewrite lookup_insert_ne in Hk by done. by apply (cr_fresh _ _ _ Hr k v').
Qed.

Lemma set_write c key v :
  Cache.pinned_cache c = None ->
  Cache.set key v c = (let? _ := size v in Some (write_entry key (Some v) c)).
Proof.
  intros Hp. unfold Cache.set. rewrite Hp. unfold CacheLog.add_write. cbn [size_or_zero].
  destruct (size v); [|done].
  destruct (CacheLog.revertable_log (Cache.cache c) !! key); unfold write_entry, Cache.with_log;
    by rewrite Hp.
Qed.

Lemma delete_write c key :
  Cache.pinned_cache c = None -> Cache.delete key c = Some (write_entry key None c).
Proof.
  intros Hp. unfold Cache.delete. rewrite Hp. unfold CacheLog.add_write. cbn [size_or_zero].
  destruct (CacheLog.revertable_log (Cache.cache c) !! key); unfold write_entry, Cache.with_log;
    by rewrite Hp.
Qed.

(** *** Reads *)

Lemma cache_rel_add_read base n z key a b :
  cache_rel base n z -> CacheLog.get key (Cache.cache n) = None ->
  access_rel base key (AccRead a) (AccRead b) -> leaf <$> a = leaf <$> b ->
  exists n' z', Cache.add_read key a n = Some n' /\ Cache.add_read key b z = Some z' /\
    cache_rel base n' z'.
Proof.
  intros Hr Hget Hab Hleaf. pose proof (cache_rel_get _ _ _ key Hr) as Hz. rewrite Hget in Hz.
  inversion Hz as [|Hn Hzget]. clear Hz. symmetry in Hzget. unfold CacheLog.get in Hget, Hzget.
  unfold Cache.add_read, CacheLog.add_read.
  destruct (CacheLog.revertable_log (Cache.cache n) !! key) eqn:H1; [done|].
  destruct (CacheLog.revertable_log (Cache.cache z) !! key) eqn:H2; [done|].
  do 2 eexists. split_and!; [done..|]. split; cbn; try apply Hr.
  - apply log_rel_insert; [apply Hr|done].
  - intros k v Hk. cbn in *. destruct (decide (k = key)) as [->|Hne]; [done|].
    rewrite lookup_insert_ne in Hk by done. by apply (cr_fresh _ _ _ Hr k v).
  - rewrite !map_app, (cr_reads _ _ _ Hr). cbn. unfold Cache.leaf_of_read at 2 4. cbn.
    by rewrite Hleaf.
Qed.

Lemma cache_rel_set_found base n z key a b :
  cache_rel base n z -> (exists a0, CacheLog.get key (Cache.cache n) = Some (AccRead a0)) ->
  access_rel base key (AccRead (Some a)) (AccRead (Some b)) ->
  cache_rel base (Cache.with_log (CacheLog.set_found key (AccRead (Some a)) (Cache.cache n)) n)
    (Cache.with_log (CacheLog.set_found key (AccRead (Some b)) (Cache.cache z)) z).
Proof.
  intros Hr [a0 Hget] Hab. unfold CacheLog.get in Hget.
  pose proof (cr_revertable _ _ _ Hr key) as Hk. unfold CacheLog.set_found.
  destruct (CacheLog.revertable_log (Cache.cache n) !! key) as [x|] eqn:H1;
    inversion Hk as [x' y Hxy Hx Hy|Hx Hy]; subst.
  - split; cbn; try apply Hr; [apply log_rel_insert; [apply Hr|done]|].
    intros k v Hkv. cbn in *. destruct (decide (k = key)) as [->|Hne].
    + apply (cr_fresh _ _ _ Hr key a0). congruence.
    + rewrite lookup_insert_ne in Hkv by done. by apply (cr_fresh _ _ _ Hr k v).
  - split; cbn; try apply Hr; [apply log_rel_insert; [apply Hr|done]|].
    intros k v Hkv. cbn in *. destruct (decide (k = key)) as [->|Hne]; [congruence|].
    rewrite lookup_insert_ne by done. by apply (cr_fresh _ _ _ Hr k v).
Qed.

(** ** From the node to the zkVM *)
Section Forward.
Context {HsLaws : HasherLaws} {Laws : HintCodecLaws} (db : StateDb) (ns : ProvableNamespace).
#[local] Notation base := (fun key => read_value db ns key None).

(** An operation [f] of the node is replayed by [g] of the zkVM on its hints. *)
Definition replays {A} (f : Cache.t -> ArrayWitness -> Cache.fetched A)
    (g : Cache.t -> ArrayWitness -> Cache.fetched A) : Prop :=
  forall n z w r n' w', cache_rel base n z -> f n w = Some (r, n', w') ->
  exists h z', w' = w ++ h /\ (forall rest, g z (h ++ rest) = Some (r, z', rest)) /\
    cache_rel base n' z'.

Lemma size_replays key :
  replays (Cache.get_size_or_fetch (Sto := prover_storage) db ns None key)
    (Cache.get_size_or_fetch (Sto := zk_storage) zkStorage ns None key).
Proof.
  intros n z w r n' w' Hr Hn. pose proof (cache_rel_get _ _ _ key Hr) as Hget.
  unfold Cache.get_size_or_fetch in *.
  destruct (CacheLog.get key (Cache.cache n)) as [a|] eqn:Hna;
    inversion Hget as [a' b Hab Ha Hb|Ha Hb]; subst.
  - exists []. destruct Hab as [[v|]| |l v|l v Hv Hl].
    all: try destruct (size v); simplify_eq; exists z; by rewrite app_nil_r.
  - rewrite (cr_pinned_n _ _ _ Hr) in Hn. rewrite (cr_pinned_z _ _ _ Hr).
    cbn [Pinned.check_pinned_cache Cache.fetch_leaf get_leaf prover_storage zk_storage] in *.
    unfold do_get_leaf, zk_get_leaf in *.
    destruct (read_value db ns key None) as [v|] eqn:Hv.
    + destruct (make_leaf v) as [l|] eqn:Hl; [|done]. cbn in Hn.
      destruct (cache_rel_add_read _ n z key (Some (mkNode l (GetSizeValueFetched v)))
        (Some (mkNode l GetSizeValueNotFetched)) Hr Hna (rel_size _ _ l v Hv Hl) eq_refl)
        as (n1 & z1 & Hn1 & Hz1 & Hr1). rewrite Hn1 in Hn. cbn in Hn. simplify_eq.
      exists [to_vec (Some (mkNode l GetSizeValueNotFetched))], z1.
      split_and!; [done| |done]. intros rest. cbn [app]. rewrite get_add_leaf by apply (make_leaf_ok _ _ Hl). cbn.
      by rewrite Hz1.
    + cbn in Hn. destruct (cache_rel_add_read _ n z key None None Hr Hna (rel_absent _ _) eq_refl)
        as (n1 & z1 & Hn1 & Hz1 & Hr1). rewrite Hn1 in Hn. cbn in Hn. simplify_eq.
      exists [to_vec (None : option NodeLeafAndMaybeValue)], z1.
      split_and!; [done| |done]. intros rest. cbn [app]. rewrite get_add_leaf by done. cbn.
      by rewrite Hz1.
Qed.

Lemma value_replays key :
  replays (Cache.get_or_fetch (Sto := prover_storage) db ns None key)
    (Cache.get_or_fetch (Sto := zk_storage) zkStorage ns None key).
Proof.
  intros n z w r n' w' Hr Hn. pose proof (cache_rel_get _ _ _ key Hr) as Hget.
  unfold Cache.get_or_fetch in *.
  destruct (CacheLog.get key (Cache.cache n)) as [a|] eqn:Hna;
    inversion Hget as [a' b Hab Ha Hb|Ha Hb]; subst.
  - destruct Hab as [v| |l v|l v Hv Hl]; cbn [value leaf] in *.
    1-3: simplify_eq; exists [], z; by rewrite app_nil_r.
    simplify_eq. exists [to_vec (Some v)]. eexists. split; [done|]. split.
    + intros rest. unfold Cache.fetch_value. rewrite (cr_pinned_z _ _ _ Hr).
      cbn [Pinned.check_pinned_cache get_stored zk_storage app]. rewrite get_add_hint.
      cbn. change (@make_leaf Hs v) with (make_leaf v). rewrite Hl, decide_True by done. done.
    + apply cache_rel_set_found; [done|by eexists|constructor].
  - unfold Cache.fetch_value in *. rewrite (cr_pinned_n _ _ _ Hr) in Hn. rewrite (cr_pinned_z _ _ _ Hr).
    cbn [Pinned.check_pinned_cache get_stored prover_storage zk_storage] in *.
    destruct (Cache.read_node (read_value db ns key None)) as [node|] eqn:Hnode; [|done].
    assert (access_rel base key (AccRead node) (AccRead node)) as Hrel.
    { unfold Cache.read_node in Hnode. destruct (read_value db ns key None) as [v|]; [|simplify_eq; constructor].
      destruct (make_leaf v); simplify_eq. constructor. }
    destruct (cache_rel_add_read _ n z key node node Hr Hna Hrel eq_refl)
      as (n1 & z1 & Hn1 & Hz1 & Hr1). rewrite Hn1 in Hn. simplify_eq.
    exists [to_vec (read_value db ns key None)], z1. split_and!; [done| |done].
    intros rest. cbn [app]. rewrite get_add_hint.
    rewrite (Hnode : Cache.read_node (Sto := zk_storage) _ = _). by rewrite Hz1.
Qed.
End Forward.

(** *** Programs *)

Record delta_rel (db : StateDb) (n : Delta.t (St := StateDb)) (z : Delta.t (St := ZkStorage))
  : Prop := mkDeltaRel {
  dr_caches : forall ns, cache_rel (fun key => read_value db ns key None)
    (Delta.cache_of ns n) (Delta.cache_of ns z);
  dr_inner : Delta.inner n = db;
  dr_changes_n : Delta.uncommitted_changes n = None;
  dr_changes_z : Delta.uncommitted_changes z = None;
  dr_accessory : Delta.accessory_writes n = Delta.accessory_writes z
}.

Lemma delta_rel_witness db n z w1 w2 :
  delta_rel db n z -> delta_rel db (Delta.set_witness w1 n) (Delta.set_witness w2 z).
Proof. intros Hr. split; apply Hr. Qed.

Lemma delta_rel_cache db n z ns cn cz :
  delta_rel db n z -> cache_rel (fun key => read_value db ns key None) cn cz ->
  delta_rel db (Delta.set_cache ns cn n) (Delta.set_cache ns cz z).
Proof.
  intros Hr Hc. split; [|by destruct ns; apply Hr..].
  intros ns'. destruct ns, ns'; cbn; try done; [apply (dr_caches _ _ _ Hr KernelSpace)
    |apply (dr_caches _ _ _ Hr UserSpace)].
Qed.

Lemma delta_rel_fresh db w1 w2 :
  delta_rel db (Delta.with_witness db w1) (Delta.with_witness zkStorage w2).
Proof. split; try done. intros ns. destruct ns; apply cache_rel_default. Qed.

Lemma delta_rel_commit db n z :
  delta_rel db n z -> exists n' z', Delta.commit_revertable_storage_cache n = Some n' /\
    Delta.commit_revertable_storage_cache z = Some z' /\ delta_rel db n' z'.
Proof.
  intros Hr. unfold Delta.commit_revertable_storage_cache.
  destruct (cache_rel_commit _ _ _ (dr_caches _ _ _ Hr UserSpace)) as (u & u' & Hu & Hu' & Hur & _).
  destruct (cache_rel_commit _ _ _ (dr_caches _ _ _ Hr KernelSpace)) as (k & k' & Hk & Hk' & Hkr & _).
  cbn [Delta.cache_of] in *. rewrite Hu, Hu', Hk, Hk'. do 2 eexists. split_and!; [done..|].
  apply delta_rel_cache; [apply delta_rel_cache|]; done.
Qed.

Lemma delta_rel_discard db n z :
  delta_rel db n z ->
  delta_rel db (Delta.discard_revertable_storage_cache n) (Delta.discard_revertable_storage_cache z).
Proof.
  intros Hr. unfold Delta.discard_revertable_storage_cache.
  apply delta_rel_cache; [apply delta_rel_cache; [done|]|]; apply cache_rel_discard;
    [apply (dr_caches _ _ _ Hr KernelSpace)|apply (dr_caches _ _ _ Hr UserSpace)].
Qed.

(** A write to a namespace, when there is no pinned cache. *)
Definition delta_write {St} (ns : Namespace) (key : SlotKey) (v : option SlotValue)
    (d : Delta.t (St := St)) : Delta.t :=
  match ns with
  | User => Delta.set_cache UserSpace (write_entry key v (Delta.user_cache d)) d
  | Kernel => Delta.set_cache KernelSpace (write_entry key v (Delta.kernel_cache d)) d
  | Accessory =>
      Delta.set_accessory (match v with
        | Some _ => <[key := v]> (Delta.accessory_writes d)
        | None => delete key (Delta.accessory_writes d)
        end) d
  end.

Definition no_pinned {St} (d : Delta.t (St := St)) : Prop :=
  forall ns, Cache.pinned_cache (Delta.cache_of ns d) = None.

Lemma delta_set {St} `{Storage St} ns key v (d : Delta.t (St := St)) :
  no_pinned d -> Delta.set ns key v d =
    (let? _ := match ns with Accessory => Some 0 | _ => size v end in
     Some (delta_write ns key (Some v) d)).
Proof.
  intros Hp. pose proof (Hp UserSpace) as Hu. pose proof (Hp KernelSpace) as Hk. cbn in Hu, Hk.
  destruct ns; cbn [Delta.set delta_write]; [| |done]; rewrite set_write by done; by destruct (size v).
Qed.

Lemma delta_delete {St} `{Storage St} ns key (d : Delta.t (St := St)) :
  no_pinned d -> Delta.delete ns key d = Some (delta_write ns key None d).
Proof.
  intros Hp. pose proof (Hp UserSpace) as Hu. pose proof (Hp KernelSpace) as Hk. cbn in Hu, Hk.
  by destruct ns; cbn [Delta.delete delta_write]; [rewrite delete_write..|].
Qed.

Lemma delta_rel_pinned db n z : delta_rel db n z -> no_pinned n /\ no_pinned z.
Proof. intros Hr. split; intros ns; by apply (dr_caches _ _ _ Hr ns). Qed.

Lemma delta_rel_write db n z ns key v :
  delta_rel db n z -> delta_rel db (delta_write ns key v n) (delta_write ns key v z).
Proof.
  intros Hr. destruct ns; cbn [delta_write].
  - apply delta_rel_cache, cache_rel_write; [done|apply (dr_caches _ _ _ Hr UserSpace)].
  - apply delta_rel_cache, cache_rel_write; [done|apply (dr_caches _ _ _ Hr KernelSpace)].
  - rewrite (dr_accessory _ _ _ Hr). by destruct Hr.
Qed.

Lemma delta_write_witness {St} ns key v (d : Delta.t (St := St)) w :
  Delta.witness (delta_write ns key v d) = Delta.witness d /\
  delta_write ns key v (Delta.set_witness w d) = Delta.set_witness w (delta_write ns key v d).
Proof. by destruct ns. Qed.

Lemma delta_get_size {St} `{Storage St} ns key w (d : Delta.t (St := St)) :
  Delta.get_size (namespace_of ns) key (Delta.set_witness w d) =
    (let? (r, c, w) := Cache.get_size_or_fetch (Delta.inner d) ns (Delta.uncommitted_changes d) key
                         (Delta.cache_of ns d) w in
     Some (r, Delta.set_witness w (Delta.set_cache ns c d))).
Proof. destruct ns; cbn; by destruct (Cache.get_size_or_fetch _ _ _ _ _ _) as [[[??]?]|]. Qed.

Lemma delta_get {St} `{Storage St} ns key w (d : Delta.t (St := St)) :
  Delta.get (namespace_of ns) key (Delta.set_witness w d) =
    (let? (r, c, w) := Cache.get_or_fetch (Delta.inner d) ns (Delta.uncommitted_changes d) key
                         (Delta.cache_of ns d) w in
     Some (r, Delta.set_witness w (Delta.set_cache ns c d))).
Proof. destruct ns; cbn; by destruct (Cache.get_or_fetch _ _ _ _ _ _) as [[[??]?]|]. Qed.

Lemma set_witness_same {St} (d : Delta.t (St := St)) : Delta.set_witness (Delta.witness d) d = d.
Proof. by destruct d. Qed.

Section ForwardRun.
Context {HsLaws : HasherLaws} {Laws : HintCodecLaws} (db : StateDb).

(** What the node does with [f], the zkVM does with [g] on the hints the node adds. *)
Definition delta_replays {A} (f : Delta.t (St := StateDb) -> option (A * Delta.t))
    (g : Delta.t (St := ZkStorage) -> option (A * Delta.t)) : Prop :=
  forall n z r n', delta_rel db n z -> f n = Some (r, n') ->
  exists h z', Delta.witness n' = Delta.witness n ++ h /\ delta_rel db n' z' /\
    forall rest, g (Delta.set_witness (h ++ rest) z) = Some (r, Delta.set_witness rest z').

Lemma lift_replays {A} ns (f g : Cache.t -> ArrayWitness -> Cache.fetched A) n z r n' :
  replays db ns f g -> delta_rel db n z ->
  (let? (r, c, w) := f (Delta.cache_of ns n) (Delta.witness n) in
   Some (r, Delta.set_witness w (Delta.set_cache ns c n))) = Some (r, n') ->
  exists h z', Delta.witness n' = Delta.witness n ++ h /\ delta_rel db n' z' /\
    forall rest,
      (let? (r, c, w) := g (Delta.cache_of ns z) (h ++ rest) in
       Some (r, Delta.set_witness w (Delta.set_cache ns c z))) = Some (r, Delta.set_witness rest z').
Proof.
  intros Hfg Hr Hn. destruct (f _ _) as [[[r0 c] w]|] eqn:Hf; [|done]. simplify_eq.
  destruct (Hfg _ _ _ _ _ _ (dr_caches _ _ _ Hr ns) Hf) as (h & cz & -> & Hg & Hc).
  exists h, (Delta.set_cache ns cz z). split_and!; [by destruct ns| |].
  - rewrite <- (set_witness_same (Delta.set_cache ns cz z)). apply delta_rel_witness.
    by apply delta_rel_cache.
  - intros rest. by rewrite Hg.
Qed.

Lemma get_size_replays ns key :
  delta_replays (Delta.get_size (namespace_of ns) key) (Delta.get_size (namespace_of ns) key).
Proof.
  intros n z r n' Hr Hn. rewrite <- (set_witness_same n), delta_get_size in Hn.
  rewrite (dr_inner _ _ _ Hr), (dr_changes_n _ _ _ Hr) in Hn.
  destruct (lift_replays ns _ _ n z r n' (size_replays db ns key) Hr Hn) as (h & z' & Hw & Hr' & Hz).
  exists h, z'. split_and!; [done..|]. intros rest.
  rewrite delta_get_size, (dr_changes_z _ _ _ Hr). destruct (Delta.inner z). apply Hz.
Qed.

Lemma get_replays ns key :
  delta_replays (Delta.get (namespace_of ns) key) (Delta.get (namespace_of ns) key).
Proof.
  intros n z r n' Hr Hn. rewrite <- (set_witness_same n), delta_get in Hn.
  rewrite (dr_inner _ _ _ Hr), (dr_changes_n _ _ _ Hr) in Hn.
  destruct (lift_replays ns _ _ n z r n' (value_replays db ns key) Hr Hn) as (h & z' & Hw & Hr' & Hz).
  exists h, z'. split_and!; [done..|]. intros rest.
  rewrite delta_get, (dr_changes_z _ _ _ Hr). destruct (Delta.inner z). apply Hz.
Qed.

(** Reads replay one after the other. *)
Lemma bind_replays {A B} f g (kn : A -> Delta.t -> option (B * Delta.t))
    (kz : A -> Delta.t -> option (B * Delta.t)) :
  delta_replays f g -> (forall r, delta_replays (kn r) (kz r)) ->
  delta_replays (fun d => let? (r, d) := f d in kn r d) (fun d => let? (r, d) := g d in kz r d).
Proof.
  intros Hfg Hk n z b n' Hr Hn. destruct (f n) as [[r n1]|] eqn:Hf; [|done].
  destruct (Hfg _ _ _ _ Hr Hf) as (h1 & z1 & Hw1 & Hr1 & Hz1).
  destruct (Hk r _ _ _ _ Hr1 Hn) as (h2 & z2 & Hw2 & Hr2 & Hz2).
  exists (h1 ++ h2), z2. split_and!; [by rewrite Hw2, Hw1, app_assoc|done|].
  intros rest. rewrite <- app_assoc, Hz1. apply Hz2.
Qed.

(** An operation that leaves the witness alone is done before its continuation. *)
Lemma step_replays {B} f g (kn : Delta.t -> option (B * Delta.t)) (kz : Delta.t -> option (B * Delta.t)) :
  (forall n z n', delta_rel db n z -> f n = Some n' ->
     exists z', delta_rel db n' z' /\ Delta.witness n' = Delta.witness n /\
       forall w, g (Delta.set_witness w z) = Some (Delta.set_witness w z')) ->
  delta_replays kn kz ->
  delta_replays (fun d => let? d := f d in kn d) (fun d => let? d := g d in kz d).
Proof.
  intros Hfg Hk n z b n' Hr Hn. destruct (f n) as [n1|] eqn:Hf; [|done].
  destruct (Hfg _ _ _ Hr Hf) as (z1 & Hr1 & Hw1 & Hz1).
  destruct (Hk _ _ _ _ Hr1 Hn) as (h & z2 & Hw2 & Hr2 & Hz2).
  exists h, z2. split_and!; [by rewrite Hw2, Hw1|done|]. intros rest. rewrite Hz1. apply Hz2.
Qed.

Lemma run_replays {A} (p : prog A) : delta_replays (run p) (run p).
Proof.
  induction p as [a0|ns key k IH|ns key k IH|ns key v p IH|ns key p IH|p IH|p IH]; cbn [run].
  - intros n z a n' Hr Hn. simplify_eq. exists [], z. rewrite app_nil_r. by split_and!.
  - by apply bind_replays; [apply get_size_replays|].
  - by apply bind_replays; [apply get_replays|].
  - apply step_replays; [|done]. intros n z n' Hr Hn.
    destruct (delta_rel_pinned _ _ _ Hr) as [Hpn Hpz]. rewrite delta_set in Hn by done.
    exists (delta_write ns key (Some v) z).
    destruct (match ns with Accessory => Some 0 | _ => size v end) as [x|] eqn:Hx; [|done]. simplify_eq.
    split_and!; [by apply delta_rel_write|apply (delta_write_witness ns key (Some v) n [])|].
    intros w. rewrite delta_set by exact Hpz. rewrite Hx. f_equal. apply delta_write_witness.
  - apply step_replays; [|done]. intros n z n' Hr Hn.
    destruct (delta_rel_pinned _ _ _ Hr) as [Hpn Hpz]. rewrite delta_delete in Hn by done. simplify_eq.
    exists (delta_write ns key None z).
    split_and!; [by apply delta_rel_write|apply (delta_write_witness ns key None n [])|].
    intros w. rewrite delta_delete by exact Hpz. f_equal. apply delta_write_witness.
  - apply step_replays; [|done]. intros n z n' Hr Hn.
    destruct (delta_rel_commit _ _ _ Hr) as (n1 & z1 & Hn1 & Hz1 & Hr1).
    rewrite Hn1 in Hn. injection Hn as <-. exists z1. split_and!; [done| |].
    + unfold Delta.commit_revertable_storage_cache in Hn1.
      repeat (match type of Hn1 with match ?m with _ => _ end = _ => destruct m; [|done] end). by simplify_eq.
    + intros w. unfold Delta.commit_revertable_storage_cache in *. cbn in *.
      repeat (match type of Hz1 with match ?m with _ => _ end = _ => destruct m; [|done] end). by simplify_eq.
  - intros n z a n' Hr Hn.
    destruct (IH _ _ _ _ (delta_rel_discard _ _ _ Hr) Hn) as (h & z' & Hw & Hr' & Hz).
    exists h, z'. split_and!; [done..|]. intros rest. apply (Hz rest).
Qed.

(** *** The end of the slot *)

Lemma accesses_replay base n z :
  cache_rel base n z ->
  exists a, Cache.to_ordered_writes_and_reads n = Some a /\ Cache.to_ordered_writes_and_reads z = Some a.
Proof.
  intros Hr. destruct (cache_rel_commit _ _ _ Hr) as (n' & z' & Hn & Hz & Hr' & En & Ez & _).
  unfold Cache.to_ordered_writes_and_reads. rewrite Hn, Hz.
  destruct (Cache.cache n') as [rn ln] eqn:Hcn, (Cache.cache z') as [rz lz] eqn:Hcz. cbn in En, Ez. subst.
  destruct (take_writes_perm ln) as (wn & -> & Hpn), (take_writes_perm lz) as (wz & -> & Hpz).
  eexists. split; [done|]. rewrite (cr_db_reads _ _ _ Hr'). do 2 f_equal.
  apply SortFacts.sort_writes_unique.
  - rewrite Hpz. apply NoDup_fst_map_to_list.
  - rewrite Hpz, Hpn. pose proof (cr_log _ _ _ Hr') as Hl. rewrite Hcn, Hcz in Hl. cbn in Hl.
    by rewrite (log_rel_writes _ _ _ Hl).
Qed.

Context {JLaws : JmtLaws}.

(** The database after genesis: the trees have what the database has. *)
Record db_ok : Prop := mkDbOk {
  ok_version : 1 <= get_next_version db;
  ok_next : forall ns, jmt_next db ns = jmt db ns (get_next_version db - 1);
  ok_proof : forall ns key, exists p,
    get_with_proof (jmt db ns (get_next_version db - 1)) (digest key) =
      Some (read_value db ns key None, p);
  ok_tree : forall ns key,
    opt_hash_and_size (read_value db ns key None) =
      Some (tree_map (jmt db ns (get_next_version db - 1)) (digest key))
}.

Lemma ok_latest : db_ok -> checked_sub (get_next_version db) 1 = Some (get_next_version db - 1).
Proof. intros Hok. unfold checked_sub. by rewrite (proj2 (N.leb_le _ _) (ok_version Hok)). Qed.

Lemma prove_reads_replays ns reads : db_ok -> forall w w',
  prove_reads (jmt db ns (get_next_version db - 1)) reads w = Ok w' ->
  exists h, w' = w ++ h /\ forall rest,
    jmt_verify_existence (get_root_hash (jmt db ns (get_next_version db - 1))) reads (h ++ rest) = Ok rest.
Proof.
  intros Hok. set (t := jmt db ns (get_next_version db - 1)).
  induction reads as [|[key read] reads IH]; intros w w' Hp; cbn [prove_reads] in Hp.
  - simplify_eq. exists []. by rewrite app_nil_r.
  - destruct (ok_proof Hok ns key) as [p Hg]. fold t in Hg. rewrite Hg in Hp.
    pose proof (ok_tree Hok ns key) as Ht. fold t in Ht. rewrite Ht in Hp.
    destruct (decide _) as [Hread|]; [|done].
    destruct (IH _ _ Hp) as (h & -> & Hz). exists (to_vec p :: h).
    split; [unfold add_hint; by rewrite <- app_assoc|]. intros rest.
    cbn [app jmt_verify_existence]. rewrite get_add_hint.
    pose proof (proof_accepted _ _ _ _ Hg) as Hacc. rewrite Hread in Hacc.
    destruct read as [l|]; cbn in Hacc; by rewrite Hacc.
Qed.

Lemma namespace_replays ns acc w prev r u w' : db_ok ->
  prover_update_namespace db ns acc w prev = Ok (r, u, w') ->
  exists h, w' = w ++ h /\ forall rest, zk_update_namespace acc (h ++ rest) prev = Ok (r, rest).
Proof.
  intros Hok. unfold prover_update_namespace. rewrite (ok_latest Hok).
  destruct (decide _) as [<-|]; [|done].
  destruct (prove_reads _ _ _) as [w1| |] eqn:Hp; [|done..].
  destruct (write_batch _) as [batch|] eqn:Hb; [|done].
  destruct (put_value_set_with_proof _ _) as [[[r1 up] t']|] eqn:Hput; [|done].
  intros Hu. simplify_eq. destruct (prove_reads_replays _ _ Hok _ _ Hp) as (h & -> & Hz).
  exists (h ++ [to_vec up; to_vec r]).
  split; [unfold add_hint; by rewrite <- !app_assoc|]. intros rest.
  unfold zk_update_namespace, jmt_verify_update. rewrite <- app_assoc, Hz, Hb.
  cbn [app]. rewrite get_add_hint. rewrite get_add_hint.
  rewrite ok_next in Hput by done. by rewrite (update_accepted _ _ _ _ _ Hput).
Qed.

Lemma update_replays accs w prev r u w' : db_ok ->
  prover_update db accs w prev = Ok (r, u, w') ->
  exists h, w' = w ++ h /\ forall rest, zk_update accs (h ++ rest) prev = Ok (r, tt, rest).
Proof.
  intros Hok. unfold prover_update, zk_update.
  destruct (prover_update_namespace db UserSpace _ _ _) as [[[r1 u1] w1]| |] eqn:H1; [|done..].
  destruct (prover_update_namespace db KernelSpace _ _ _) as [[[r2 u2] w2]| |] eqn:H2; [|done..].
  intros Hu. simplify_eq.
  destruct (namespace_replays _ _ _ _ _ _ _ Hok H1) as (h1 & -> & Hz1).
  destruct (namespace_replays _ _ _ _ _ _ _ Hok H2) as (h2 & -> & Hz2).
  exists (h1 ++ h2). split; [by rewrite app_assoc|]. intros rest.
  by rewrite <- app_assoc, Hz1, Hz2.
Qed.

Lemma slot_replays {A} (p : prog A) prev a r u w : db_ok ->
  run_slot db [] p prev = Some (a, r, u, w) -> run_slot zkStorage w p prev = Some (a, r, tt, []).
Proof.
  intros Hok. unfold run_slot.
  destruct (run p (Delta.with_witness db [])) as [[a0 n]|] eqn:Hn; [|done].
  destruct (run_replays p _ _ _ _ (delta_rel_fresh db [] []) Hn) as (h & z & Hw & Hr & Hz).
  unfold Delta.materialize_update, Delta.freeze.
  destruct (accesses_replay _ _ _ (dr_caches _ _ _ Hr UserSpace)) as (au & Hnu & Hau).
  destruct (accesses_replay _ _ _ (dr_caches _ _ _ Hr KernelSpace)) as (ak & Hnk & Hak).
  cbn [Delta.cache_of] in *. rewrite Hnu, Hnk.
  rewrite (dr_inner _ _ _ Hr). cbn [compute_state_update prover_storage].
  destruct (prover_update _ _ _ _) as [[[r0 u0] w0]| |] eqn:Hu; [|done..].
  intros Hslot. simplify_eq. destruct (update_replays _ _ _ _ _ _ Hok Hu) as (h' & -> & Hzu).
  rewrite Hw. cbn [Delta.witness Delta.with_witness app].
  specialize (Hz h'). cbn [Delta.set_witness Delta.with_witness] in Hz.
  change (Delta.set_witness (h ++ h') (Delta.with_witness zkStorage [])) with
    (Delta.with_witness zkStorage (h ++ h')) in Hz.
  rewrite Hz. cbn [Delta.cache_of Delta.user_cache Delta.kernel_cache Delta.set_witness] in *.
  rewrite Hau, Hak. cbn [compute_state_update zk_storage Delta.witness].
  specialize (Hzu []). rewrite app_nil_r in Hzu. cbn [Delta.witness Delta.set_witness]. by rewrite Hzu.
Qed.
End ForwardRun.
End Replay.
End ZkReplay.
