(* ===== verification/ZkSound.v ===== *)
(** * What the zkVM accepts is what the node computes

    The witness of the zkVM comes from a prover that nobody trusts.  Whatever it is, a
    slot that the zkVM accepts has the result and the state root of the node, as long as
    the proofs and the hashes in the witness are not forged. *)

From Stdlib Require Import NArith Lia.
From stdpp Require Import base numbers gmap option list sorting.
From S2P Require Import Prelude Ints StateAccess SlotKey StateCache StateCacheProofs StateStorage ZkReplay.

Module ZkSound.
Import CacheLogFacts StateStorage ZkReplay.
Section Sound.
Context {Hs : Hasher} {J : Jmt} {Codec : HintCodec}.
Context {HsLaws : HasherLaws} {Laws : HintCodecLaws} {JLaws : JmtLaws}.
Context (db : StateDb).

Definition base (ns : ProvableNamespace) (key : SlotKey) : option SlotValue := read_value db ns key None.

(** The tree whose root is the previous state root. *)
Definition tree (ns : ProvableNamespace) : Tree := jmt db ns (get_next_version db - 1).

(** The assumption on the witness: no hint in it is a value with the hash of another
    stored value, or a proof of something that is not in the tree, or of an update that
    is not the one of the tree. *)
Record unforgeable (w : ArrayWitness) : Prop := mkUnforgeable {
  uf_value : forall h v ns key v', h ∈ w -> from_slice h = Some (Some v) ->
    base ns key = Some v' -> digest v = digest v' -> v = v';
  uf_exists : forall h proof ns key x, h ∈ w -> from_slice h = Some proof ->
    verify_existence proof (get_root_hash (tree ns)) (digest key) x = true ->
    tree_map (tree ns) (digest key) = Some x;
  uf_absent : forall h proof ns key, h ∈ w -> from_slice h = Some proof ->
    verify_nonexistence proof (get_root_hash (tree ns)) (digest key) = true ->
    tree_map (tree ns) (digest key) = None;
  uf_update : forall h proof ns r batch, h ∈ w -> from_slice h = Some proof ->
    verify_update proof (get_root_hash (tree ns)) r batch = true ->
    exists p t, put_value_set_with_proof (tree ns) batch = Some (r, p, t)
}.

(** ** The reads that the proofs are for *)

Definition claims (c : Cache.t) : list (SlotKey * option NodeLeaf) :=
  Cache.ordered_db_reads c ++ map Cache.leaf_of_read (Cache.revertable_ordered_reads c).

Definition leaf_opt (v : option SlotValue) : option (option NodeLeaf) :=
  match v with None => Some None | Some v => let? l := make_leaf v in Some (Some l) end.

(** A read is true if it is the leaf of what the database has. *)
Definition claim_true (ns : ProvableNamespace) (c : SlotKey * option NodeLeaf) : Prop :=
  leaf_opt (base ns c.1) = Some c.2.

Lemma combine_inj l1 l2 :
  leaf_ok l1 -> leaf_ok l2 -> combine_val_hash_and_size l1 = combine_val_hash_and_size l2 -> l1 = l2.
Proof.
  intros [H1 S1] [H2 S2] Heq. destruct l1 as [s1 h1], l2 as [s2 h2]. cbn in *.
  apply app_inj_1 in Heq as [-> Hs12]; [|congruence]. f_equal.
  apply (to_le_bytes_inj 4); [| |done]; unfold u32_max in *; cbn; lia.
Qed.

Lemma claim_hash ns key ol :
  claim_true ns (key, ol) -> opt_hash_and_size (base ns key) = Some (combine_val_hash_and_size <$> ol).
Proof.
  unfold claim_true. cbn. destruct (base ns key) as [v|]; cbn; [|by intros [= <-]].
  destruct (make_leaf v) as [l|] eqn:Hl; [|done]. intros [= <-].
  by rewrite (proj2 (make_leaf_ok _ _ Hl)).
Qed.

Lemma claim_of_tree ns key ol :
  db_ok db -> match ol with Some l => leaf_ok l | None => True end ->
  tree_map (tree ns) (digest key) = combine_val_hash_and_size <$> ol -> claim_true ns (key, ol).
Proof.
  intros Hok Hl Ht. pose proof (ok_tree _ Hok ns key) as Htree.
  fold (tree ns) (base ns key) in Htree. unfold claim_true. cbn [fst snd].
  destruct (base ns key) as [v|]; cbn in *.
  - destruct (value_hash_and_size v) as [h|] eqn:Hv; [|done]. simplify_eq.
    destruct (make_leaf v) as [l'|] eqn:Hl'; [|unfold make_leaf, value_hash_and_size in *; by destruct (size v)].
    destruct (make_leaf_ok _ _ Hl') as [Hok' Hv']. destruct ol as [l|]; cbn in *; [|congruence].
    do 2 f_equal. apply combine_inj; [done..|]. congruence.
  - destruct ol; cbn in *; congruence.
Qed.

(** ** The zkVM only adds reads and consumes hints *)

Definition claim_ok (c : SlotKey * option NodeLeaf) : Prop :=
  match c.2 with Some l => leaf_ok l | None => True end.

Definition grows (z : Cache.t) (w : ArrayWitness) (z' : Cache.t) (w' : ArrayWitness) : Prop :=
  Cache.pinned_cache z' = None /\
  (exists new, claims z' = claims z ++ new /\ Forall claim_ok new) /\ w' `suffix_of` w.

Lemma grows_refl z w z' :
  Cache.pinned_cache z' = None -> claims z' = claims z -> grows z w z' w.
Proof. intros Hp Hc. split_and!; [done| |done]. exists []. by rewrite app_nil_r, Hc. Qed.

Lemma get_hint_spec `{Hint T} (w : ArrayWitness) (t : T) w' :
  get_hint w = Some (t, w') -> exists h, w = h :: w' /\ from_slice h = Some t.
Proof. destruct w as [|h w]; cbn; [done|]. destruct (from_slice h) eqn:Hh; [|done]. intros [= -> ->]. eauto. Qed.

Lemma zk_leaf_spec w node w' :
  zk_get_leaf w = Some (node, w') -> exists h, w = h :: w' /\ from_slice h = Some node /\
    match node with Some nd => value nd = GetSizeValueNotFetched | None => True end.
Proof.
  unfold zk_get_leaf. destruct (get_hint w) as [[[nd|] w1]|] eqn:Hh; [| |done].
  - destruct (value nd) eqn:Hv; [|done..]. intros [= <- <-].
    destruct (get_hint_spec _ _ _ Hh) as (h & -> & Hs1). by exists h.
  - intros [= <- <-]. destruct (get_hint_spec _ _ _ Hh) as (h & -> & Hs1). by exists h.
Qed.

Lemma add_read_claims key node z z' :
  Cache.add_read key node z = Some z' ->
  Cache.pinned_cache z' = Cache.pinned_cache z /\ claims z' = claims z ++ [(key, leaf <$> node)].
Proof.
  unfold Cache.add_read. destruct (CacheLog.add_read _ _ _); [|done]. intros [= <-].
  split; [done|]. unfold claims. cbn. by rewrite map_app, app_assoc.
Qed.

Lemma with_log_claims c z : claims (Cache.with_log c z) = claims z.
Proof. done. Qed.

Lemma read_node_ok v node :
  Cache.read_node (Sto := zk_storage) v = Some node ->
  leaf_opt v = Some (leaf <$> node) /\ claim_ok ([], leaf <$> node).
Proof.
  destruct v as [v|]; cbn; [|by intros [= <-]].
  destruct (make_leaf v) as [l|] eqn:Hl; [|done]. intros [= <-]. cbn.
  split; [done|]. apply (make_leaf_ok _ _ Hl).
Qed.

Lemma size_grows ns key z w r z' w' :
  Cache.pinned_cache z = None ->
  Cache.get_size_or_fetch zkStorage ns None key z w = Some (r, z', w') -> grows z w z' w'.
Proof.
  intros Hp. unfold Cache.get_size_or_fetch.
  destruct (CacheLog.get key (Cache.cache z)) as [[o|[v|]]|].
  - intros [= <- <- <-]. by apply grows_refl.
  - destruct (size v); [|done]. intros [= <- <- <-]. by apply grows_refl.
  - intros [= <- <- <-]. by apply grows_refl.
  - rewrite Hp. cbn [Pinned.check_pinned_cache Cache.fetch_leaf get_leaf zk_storage].
    destruct (zk_get_leaf w) as [[node w1]|] eqn:Hl; [|done].
    destruct (Cache.add_read key node z) as [z1|] eqn:Ha; [|done]. intros [= <- <- <-].
    destruct (zk_leaf_spec _ _ _ Hl) as (h & -> & Hh & _).
    destruct (add_read_claims _ _ _ _ Ha) as [Hp' Hc].
    split_and!; [congruence| |by exists [h]]. exists [(key, leaf <$> node)]. split; [done|].
    repeat constructor. destruct node as [nd|]; [|done]. apply (hint_leaf_typed _ _ Hh).
Qed.

Lemma value_grows ns key z w r z' w' :
  Cache.pinned_cache z = None ->
  Cache.get_or_fetch zkStorage ns None key z w = Some (r, z', w') -> grows z w z' w'.
Proof.
  intros Hp. unfold Cache.get_or_fetch, Cache.fetch_value. rewrite Hp.
  cbn [Pinned.check_pinned_cache get_stored put_in_witness zk_storage].
  destruct (CacheLog.get key (Cache.cache z)) as [[[node|]|m]|].
  - destruct (value node).
    + destruct (get_hint w) as [[[v|] w1]|] eqn:Hh; [|done..].
      destruct (make_leaf v) as [l|]; [|done]. destruct (decide _); [|done]. intros [= <- <- <-].
      destruct (get_hint_spec _ _ _ Hh) as (h & -> & _).
      split_and!; [done| |by exists [h]]. exists []. by rewrite app_nil_r.
    + intros [= <- <- <-]. by apply grows_refl.
    + intros [= <- <- <-]. by apply grows_refl.
  - intros [= <- <- <-]. by apply grows_refl.
  - intros [= <- <- <-]. by apply grows_refl.
  - destruct (get_hint w) as [[v w1]|] eqn:Hh; [|done].
    destruct (Cache.read_node v) as [node|] eqn:Hnode; [|done].
    destruct (Cache.add_read key node z) as [z1|] eqn:Ha; [|done]. intros [= <- <- <-].
    destruct (get_hint_spec _ _ _ Hh) as (h & -> & _).
    destruct (add_read_claims _ _ _ _ Ha) as [Hp' Hc].
    split_and!; [congruence| |by exists [h]]. exists [(key, leaf <$> node)]. split; [done|].
    repeat constructor. apply (read_node_ok _ _ Hnode).
Qed.

(** ** From the zkVM to the node *)

Lemma last_claim ns c cs : Forall (claim_true ns) (cs ++ [c]) -> claim_true ns c.
Proof. rewrite Forall_app. intros [_ Hc]. by inversion Hc. Qed.

Lemma size_back ns key n z w r z' w' wn :
  cache_rel (base ns) n z ->
  Cache.get_size_or_fetch zkStorage ns None key z w = Some (r, z', w') ->
  Forall (claim_true ns) (claims z') ->
  exists n' wn', Cache.get_size_or_fetch db ns None key n wn = Some (r, n', wn') /\
    cache_rel (base ns) n' z'.
Proof.
  intros Hr. unfold Cache.get_size_or_fetch.
  pose proof (cache_rel_get _ _ _ key Hr) as Hget.
  destruct (CacheLog.get key (Cache.cache n)) as [a|] eqn:Hna;
    inversion Hget as [a' b Hab Ha Hb|Ha Hb]; subst.
  - destruct Hab as [[v|]| |l v|l v Hv Hl]; cbn [fmap option_fmap option_map leaf].
    1: destruct (size v); [|done].
    all: intros [= <- <- <-] _; eauto.
  - rewrite (cr_pinned_z _ _ _ Hr), (cr_pinned_n _ _ _ Hr).
    cbn [Pinned.check_pinned_cache Cache.fetch_leaf get_leaf zk_storage prover_storage].
    destruct (zk_get_leaf w) as [[node w1]|] eqn:Hl; [|done].
    destruct (Cache.add_read key node z) as [z1|] eqn:Hadd; [|done]. intros [= <- <- <-] Hclaims.
    destruct (zk_leaf_spec _ _ _ Hl) as (h & -> & Hh & Hty).
    rewrite (proj2 (add_read_claims _ _ _ _ Hadd)) in Hclaims. apply last_claim in Hclaims.
    unfold claim_true, base in Hclaims. cbn [fst snd] in Hclaims. unfold do_get_leaf.
    destruct (read_value db ns key None) as [v|] eqn:Hv; cbn [leaf_opt] in Hclaims.
    + destruct (make_leaf v) as [l|] eqn:Hmk; [|done]. destruct node as [[l' rt]|]; [|done].
      cbn in Hclaims, Hty. simplify_eq.
      destruct (cache_rel_add_read (base ns) n z key (Some (mkNode l' (GetSizeValueFetched v)))
        (Some (mkNode l' GetSizeValueNotFetched)) Hr Hna) as (n2 & z2 & -> & Hz2 & Hr2); [|done|].
      { by constructor. }
      rewrite Hadd in Hz2. injection Hz2 as <-. by eauto.
    + destruct node as [nd|]; [done|].
      destruct (cache_rel_add_read (base ns) n z key None None Hr Hna) as (n2 & z2 & -> & Hz2 & Hr2);
        [constructor|done|].
      rewrite Hadd in Hz2. injection Hz2 as <-. by eauto.
Qed.

(** A value with the leaf of the stored value is the stored value. *)
Lemma leaf_value w h ns key (v : SlotValue) v' l :
  unforgeable w -> h ∈ w -> from_slice h = Some (Some v) -> base ns key = Some v' ->
  make_leaf v = Some l -> make_leaf v' = Some l -> v = v'.
Proof.
  intros Huf Hin Hh Hb H1 H2. apply (uf_value _ Huf h v ns key v'); try done.
  unfold make_leaf in *. destruct (size v), (size v'); congruence.
Qed.

Lemma value_back ns key n z w r z' w' wn :
  unforgeable w -> cache_rel (base ns) n z ->
  Cache.get_or_fetch zkStorage ns None key z w = Some (r, z', w') ->
  Forall (claim_true ns) (claims z') ->
  exists n' wn', Cache.get_or_fetch db ns None key n wn = Some (r, n', wn') /\
    cache_rel (base ns) n' z'.
Proof.
  intros Huf Hr. unfold Cache.get_or_fetch.
  pose proof (cache_rel_get _ _ _ key Hr) as Hget.
  destruct (CacheLog.get key (Cache.cache n)) as [a|] eqn:Hna;
    inversion Hget as [a' b Hab Ha Hb|Ha Hb]; subst.
  - destruct Hab as [v| |l v|l v Hv Hl]; cbn [value leaf].
    1-3: intros [= <- <- <-] _; by eauto.
    unfold Cache.fetch_value. rewrite (cr_pinned_z _ _ _ Hr).
    cbn [Pinned.check_pinned_cache get_stored zk_storage].
    destruct (get_hint w) as [[[v1|] w1]|] eqn:Hh; [|done..].
    destruct (get_hint_spec _ _ _ Hh) as (h & -> & Hfs).
    change (@make_leaf (storage_hasher (St := ZkStorage)) v1) with (make_leaf v1).
    destruct (make_leaf v1) as [l1|] eqn:Hl1; [|done].
    destruct (decide _) as [->|]; [|done]. intros [= <- <- <-] _.
    assert (v1 = v) as -> by (by eapply leaf_value; [done|apply list_elem_of_here|done..]).
    do 2 eexists. split; [done|]. apply cache_rel_set_found; [done|by eexists|constructor].
  - unfold Cache.fetch_value. rewrite (cr_pinned_z _ _ _ Hr), (cr_pinned_n _ _ _ Hr).
    cbn [Pinned.check_pinned_cache get_stored prover_storage zk_storage].
    destruct (get_hint w) as [[v w1]|] eqn:Hh; [|done].
    destruct (get_hint_spec _ _ _ Hh) as (h & -> & Hfs).
    destruct (Cache.read_node v) as [node|] eqn:Hnode; [|done].
    destruct (Cache.add_read key node z) as [z1|] eqn:Hadd; [|done]. intros [= <- <- <-] Hclaims.
    rewrite (proj2 (add_read_claims _ _ _ _ Hadd)) in Hclaims. apply last_claim in Hclaims.
    pose proof (proj1 (read_node_ok _ _ Hnode)) as Hleaf. unfold claim_true in Hclaims. cbn [fst snd] in Hclaims.
    assert (read_value db ns key None = v) as ->.
    { change (base ns key = v). destruct v as [v|], (base ns key) as [v'|] eqn:Hbase; cbn in *; try done.
      - destruct (make_leaf v) as [l|] eqn:H1, (make_leaf v') as [l'|] eqn:H2; simplify_eq.
        f_equal. symmetry. eapply leaf_value; [done|apply list_elem_of_here|done..|]. congruence.
      - destruct (make_leaf v) as [l|]; [|done]. rewrite <- Hleaf in Hclaims. done.
      - destruct (make_leaf v') as [l|]; [|done]. rewrite <- Hleaf in Hclaims. done. }
    rewrite (Hnode : Cache.read_node (Sto := prover_storage) v = Some node).
    assert (access_rel (base ns) key (AccRead node) (AccRead node)) as Hrel.
    { unfold Cache.read_node in Hnode. destruct v as [v|]; [|simplify_eq; constructor].
      destruct (make_leaf v); simplify_eq. constructor. }
    destruct (cache_rel_add_read _ n z key node node Hr Hna Hrel eq_refl)
      as (n2 & z2 & -> & Hz2 & Hr2). rewrite Hadd in Hz2. injection Hz2 as <-. by eauto.
Qed.

(** ** Programs *)

Notation zdelta := (Delta.t (St := ZkStorage)).
Notation ndelta := (Delta.t (St := StateDb)).

Definition delta_grows (z z' : zdelta) : Prop :=
  Delta.uncommitted_changes z' = None /\
  forall ns, grows (Delta.cache_of ns z) (Delta.witness z) (Delta.cache_of ns z') (Delta.witness z').

Lemma delta_grows_trans z1 z2 z3 : delta_grows z1 z2 -> delta_grows z2 z3 -> delta_grows z1 z3.
Proof.
  intros [_ H12] [Hu H23]. split; [done|]. intros ns.
  destruct (H12 ns) as (_ & (new1 & Hc1 & Hok1) & Hw1), (H23 ns) as (Hp & (new2 & Hc2 & Hok2) & Hw2).
  split_and!; [done| |by trans (Delta.witness z2)].
  exists (new1 ++ new2). rewrite Hc2, Hc1, app_assoc. split; [done|]. by apply Forall_app.
Qed.

Lemma delta_grows_same z z' :
  Delta.uncommitted_changes z' = None -> no_pinned z' -> Delta.witness z' = Delta.witness z ->
  (forall ns, claims (Delta.cache_of ns z') = claims (Delta.cache_of ns z)) -> delta_grows z z'.
Proof. intros Hu Hp Hw Hc. split; [done|]. intros ns. rewrite Hw. apply grows_refl; [apply Hp|apply Hc]. Qed.

Lemma delta_grows_read ns z c w :
  Delta.uncommitted_changes z = None -> no_pinned z ->
  grows (Delta.cache_of ns z) (Delta.witness z) c w ->
  delta_grows z (Delta.set_witness w (Delta.set_cache ns c z)).
Proof.
  intros Hu Hp Hg. split; [by destruct ns|]. pose proof (proj2 (proj2 Hg)) as Hw.
  intros ns'. pose proof (Hp ns') as Hp'.
  destruct ns, ns'; cbn in *; try done; (split_and!; [done| |done]; exists []; by rewrite app_nil_r).
Qed.

Lemma get_size_grows ns key z r z' :
  Delta.uncommitted_changes z = None -> no_pinned z ->
  Delta.get_size (namespace_of ns) key z = Some (r, z') -> delta_grows z z'.
Proof.
  intros Hu Hp. rewrite <- (set_witness_same z) at 1. rewrite delta_get_size, Hu. destruct (Delta.inner z).
  destruct (Cache.get_size_or_fetch _ _ _ _ _ _) as [[[r1 c] w]|] eqn:Hg; [|done]. intros [= <- <-].
  apply delta_grows_read; [done..|]. by eapply size_grows.
Qed.

Lemma get_grows ns key z r z' :
  Delta.uncommitted_changes z = None -> no_pinned z ->
  Delta.get (namespace_of ns) key z = Some (r, z') -> delta_grows z z'.
Proof.
  intros Hu Hp. rewrite <- (set_witness_same z) at 1. rewrite delta_get, Hu. destruct (Delta.inner z).
  destruct (Cache.get_or_fetch _ _ _ _ _ _) as [[[r1 c] w]|] eqn:Hg; [|done]. intros [= <- <-].
  apply delta_grows_read; [done..|]. by eapply value_grows.
Qed.

Lemma write_grows ns key v z :
  Delta.uncommitted_changes z = None -> no_pinned z -> delta_grows z (delta_write ns key v z).
Proof.
  intros Hu Hp. pose proof (Hp UserSpace) as Hpu. pose proof (Hp KernelSpace) as Hpk.
  apply delta_grows_same; destruct ns; try done; by intros [].
Qed.

Lemma commit_claims c c' :
  Cache.commit_revertable_storage_cache c = Some c' ->
  claims c' = claims c /\ Cache.pinned_cache c' = Cache.pinned_cache c.
Proof.
  unfold Cache.commit_revertable_storage_cache. destruct (CacheLog.commit_revertable_log _); [|done].
  intros [= <-]. split; [|done]. unfold claims. cbn. by rewrite app_nil_r.
Qed.

Lemma commit_grows z z' :
  Delta.uncommitted_changes z = None -> no_pinned z ->
  Delta.commit_revertable_storage_cache z = Some z' -> delta_grows z z'.
Proof.
  intros Hu Hp. unfold Delta.commit_revertable_storage_cache.
  destruct (Cache.commit_revertable_storage_cache (Delta.user_cache z)) as [u|] eqn:H1; [|done].
  destruct (Cache.commit_revertable_storage_cache (Delta.kernel_cache z)) as [k|] eqn:H2; [|done].
  intros [= <-]. apply commit_claims in H1 as [H1 P1], H2 as [H2 P2].
  pose proof (Hp UserSpace) as Hpu. pose proof (Hp KernelSpace) as Hpk. cbn in Hpu, Hpk.
  apply delta_grows_same; [done| |done|]; intros []; cbn; congruence.
Qed.

Lemma grows_pinned z z' : delta_grows z z' -> no_pinned z'.
Proof. intros [_ Hg] ns. apply Hg. Qed.

Lemma grows_then z z1 z' :
  delta_grows z z1 -> (Delta.uncommitted_changes z1 = None -> no_pinned z1 -> delta_grows z1 z') ->
  delta_grows z z'.
Proof.
  intros Hg Hk. eapply delta_grows_trans; [exact Hg|]. apply Hk; [apply Hg|by eapply grows_pinned].
Qed.

Lemma run_grows {A} (p : prog A) : forall z a z',
  Delta.uncommitted_changes z = None -> no_pinned z -> no_discard p ->
  run p z = Some (a, z') -> delta_grows z z'.
Proof.
  induction p as [a0|ns key k IH|ns key k IH|ns key v p IH|ns key p IH|p IH|p IH];
    intros z a z' Hu Hp Hnd; cbn [run no_discard] in *; [| | | | | |done].
  - intros [= <- <-]. by apply delta_grows_same.
  - destruct (Delta.get_size _ _ _) as [[r z1]|] eqn:Hg; [|done]. intros Hrun.
    eapply grows_then; [by eapply get_size_grows|]. intros. by eapply IH.
  - destruct (Delta.get _ _ _) as [[r z1]|] eqn:Hg; [|done]. intros Hrun.
    eapply grows_then; [by eapply get_grows|]. intros. by eapply IH.
  - rewrite delta_set by done. destruct (match ns with Accessory => _ | _ => _ end); [|done].
    intros Hrun. eapply grows_then; [by apply write_grows|]. intros. by eapply IH.
  - rewrite delta_delete by done. intros Hrun.
    eapply grows_then; [by apply write_grows|]. intros. by eapply IH.
  - destruct (Delta.commit_revertable_storage_cache z) as [z1|] eqn:Hc; [|done]. intros Hrun.
    eapply grows_then; [by apply commit_grows|]. intros. by eapply IH.
Qed.

Definition claims_true (z : zdelta) : Prop :=
  forall ns, Forall (claim_true ns) (claims (Delta.cache_of ns z)).

Lemma claims_true_grows z z' : delta_grows z z' -> claims_true z' -> claims_true z.
Proof.
  intros [_ Hg] Ht ns. destruct (Hg ns) as (_ & (new & Hc & _) & _). specialize (Ht ns).
  rewrite Hc in Ht. by apply Forall_app in Ht as [? _].
Qed.

Lemma unforgeable_suffix w w' : w' `suffix_of` w -> unforgeable w -> unforgeable w'.
Proof.
  intros [pre ->] Huf. split; intros h; intros.
  - eapply (uf_value _ Huf h); [set_solver|done..].
  - eapply (uf_exists _ Huf h); [set_solver|done..].
  - eapply (uf_absent _ Huf h); [set_solver|done..].
  - eapply (uf_update _ Huf h); [set_solver|done..].
Qed.

(** The node can do with [f] what the zkVM did with [g]. *)
Definition delta_back {A} (f : ndelta -> option (A * ndelta)) (g : zdelta -> option (A * zdelta)) : Prop :=
  forall n z r z', delta_rel db n z -> g z = Some (r, z') -> unforgeable (Delta.witness z) ->
    claims_true z' -> exists n', f n = Some (r, n') /\ delta_rel db n' z'.

Lemma get_size_back ns key :
  delta_back (Delta.get_size (namespace_of ns) key) (Delta.get_size (namespace_of ns) key).
Proof.
  intros n z r z' Hr Hz Huf Ht. rewrite <- (set_witness_same z), delta_get_size in Hz.
  rewrite (dr_changes_z _ _ _ Hr) in Hz. destruct (Delta.inner z).
  destruct (Cache.get_size_or_fetch _ _ _ _ _ _) as [[[r1 c] w]|] eqn:Hg; [|done]. simplify_eq.
  destruct (size_back ns key (Delta.cache_of ns n) _ _ _ _ _ (Delta.witness n)
    (dr_caches _ _ _ Hr ns) Hg) as (c' & w' & Hn & Hc); [specialize (Ht ns); by destruct ns|].
  rewrite <- (set_witness_same n), delta_get_size, (dr_inner _ _ _ Hr), (dr_changes_n _ _ _ Hr), Hn.
  eexists. split; [done|]. apply delta_rel_witness. by apply delta_rel_cache.
Qed.

Lemma get_back ns key :
  delta_back (Delta.get (namespace_of ns) key) (Delta.get (namespace_of ns) key).
Proof.
  intros n z r z' Hr Hz Huf Ht. rewrite <- (set_witness_same z), delta_get in Hz.
  rewrite (dr_changes_z _ _ _ Hr) in Hz. destruct (Delta.inner z).
  destruct (Cache.get_or_fetch _ _ _ _ _ _) as [[[r1 c] w]|] eqn:Hg; [|done]. simplify_eq.
  destruct (value_back ns key (Delta.cache_of ns n) _ _ _ _ _ (Delta.witness n) Huf
    (dr_caches _ _ _ Hr ns) Hg) as (c' & w' & Hn & Hc); [specialize (Ht ns); by destruct ns|].
  rewrite <- (set_witness_same n), delta_get, (dr_inner _ _ _ Hr), (dr_changes_n _ _ _ Hr), Hn.
  eexists. split; [done|]. apply delta_rel_witness. by apply delta_rel_cache.
Qed.

(** A read, and then the rest of the program. *)
Lemma bind_back {A B} f g (k : A -> prog B) n z b z' :
  delta_back f g -> (forall r, no_discard (k r)) -> (forall r, delta_back (run (k r)) (run (k r))) ->
  (forall r z1, g z = Some (r, z1) -> delta_grows z z1) ->
  delta_rel db n z -> (let? (r, z1) := g z in run (k r) z1) = Some (b, z') ->
  unforgeable (Delta.witness z) -> claims_true z' ->
  exists n', (let? (r, n1) := f n in run (k r) n1) = Some (b, n') /\ delta_rel db n' z'.
Proof.
  intros Hfg Hnd Hk Hgr Hr Hz Huf Ht. destruct (g z) as [[r z1]|] eqn:Hg; [|done].
  specialize (Hgr _ _ eq_refl).
  assert (claims_true z1) as Ht1.
  { eapply claims_true_grows; [|done].
    eapply run_grows; [apply Hgr|by eapply grows_pinned|apply Hnd|done]. }
  destruct (Hfg _ _ _ _ Hr Hg Huf Ht1) as (n1 & -> & Hr1).
  eapply Hk; [done..| |done]. eapply unforgeable_suffix; [apply (proj2 Hgr UserSpace)|done].
Qed.

Lemma run_back {A} (p : prog A) : no_discard p -> delta_back (run p) (run p).
Proof.
  induction p as [a0|ns key k IH|ns key k IH|ns key v p IH|ns key p IH|p IH|p IH];
    intros Hnd n z a z' Hr Hz Huf Ht; cbn [run no_discard] in *; [| | | | | |done];
    pose proof (dr_changes_z _ _ _ Hr) as Hu; pose proof (delta_rel_pinned _ _ _ Hr) as [Hpn Hpz].
  - simplify_eq. by exists n.
  - eapply bind_back; [apply get_size_back|done|eauto|by intros; eapply get_size_grows|done..].
  - eapply bind_back; [apply get_back|done|eauto|by intros; eapply get_grows|done..].
  - rewrite delta_set in Hz by done. rewrite delta_set by done. destruct (match ns with Accessory => _ | _ => _ end); [|done].
    eapply IH; [done|by apply delta_rel_write|done| |done].
    by rewrite (proj1 (delta_write_witness ns key (Some v) z [])).
  - rewrite delta_delete in Hz by done. rewrite delta_delete by done.
    eapply IH; [done|by apply delta_rel_write|done| |done].
    by rewrite (proj1 (delta_write_witness ns key None z [])).
  - destruct (delta_rel_commit _ _ _ Hr) as (n1 & z1 & -> & Hz1 & Hr1). rewrite Hz1 in Hz.
    eapply IH; [done..| |done]. eapply unforgeable_suffix; [|done].
    apply (proj2 (commit_grows _ _ Hu Hpz Hz1) UserSpace).
Qed.

(** ** The end of the slot *)

Definition root_of_db (prev : StorageRoot.t) : Prop :=
  forall ns, StorageRoot.namespace_root ns prev = get_root_hash (tree ns).

(** The proofs that the zkVM accepts make the reads true. *)
Lemma verified_claims ns reads : db_ok db -> Forall claim_ok reads -> forall w w',
  unforgeable w -> jmt_verify_existence (get_root_hash (tree ns)) reads w = Ok w' ->
  Forall (claim_true ns) reads /\ w' `suffix_of` w.
Proof.
  intros Hok. induction 1 as [|[key ol] reads Hc Hcs IH]; intros w w' Huf; cbn [jmt_verify_existence].
  - intros [= <-]. by split.
  - destruct (get_hint w) as [[proof w1]|] eqn:Hh; [|done].
    destruct (get_hint_spec _ _ _ Hh) as (h & -> & Hfs).
    destruct (match ol with Some _ => _ | None => _ end) eqn:Hv; [|done]. intros Hrest.
    destruct (IH _ _ (unforgeable_suffix (h :: w1) w1 ltac:(by exists [h]) Huf) Hrest) as [Hall Hsuf].
    split; [|by trans w1; [|exists [h]]]. constructor; [|done].
    apply claim_of_tree; [done|done|]. destruct ol as [l|]; cbn.
    + eapply (uf_exists _ Huf h); [set_solver|done..].
    + eapply (uf_absent _ Huf h); [set_solver|done..].
Qed.

Lemma true_claims_proved ns reads : db_ok db -> Forall (claim_true ns) reads -> forall w,
  exists w', prove_reads (tree ns) reads w = Ok w'.
Proof.
  intros Hok. induction 1 as [|[key ol] reads Hc Hcs IH]; intros w; cbn [prove_reads]; [by eexists|].
  destruct (ok_proof _ Hok ns key) as [p Hp]. fold (tree ns) (base ns key) in Hp.
  rewrite Hp, (claim_hash _ _ _ Hc), decide_True by done. apply IH.
Qed.

Lemma namespace_back ns acc w wn prev r w' :
  db_ok db -> unforgeable w -> Forall claim_ok (ordered_reads acc) ->
  StorageRoot.namespace_root ns prev = get_root_hash (tree ns) ->
  zk_update_namespace acc w (StorageRoot.namespace_root ns prev) = Ok (r, w') ->
  Forall (claim_true ns) (ordered_reads acc) /\ w' `suffix_of` w /\
  exists u wn', prover_update_namespace db ns acc wn (StorageRoot.namespace_root ns prev) = Ok (r, u, wn').
Proof.
  intros Hok Huf Hcs ->. unfold zk_update_namespace, prover_update_namespace, jmt_verify_update.
  destruct (jmt_verify_existence _ _ _) as [w1| |] eqn:Hex; [|done..].
  destruct (verified_claims _ _ Hok Hcs _ _ Huf Hex) as [Ht Hsuf].
  destruct (write_batch _) as [batch|]; [|done].
  destruct (get_hint w1) as [[up w2]|] eqn:Hh1; [|done].
  destruct (get_hint w2) as [[r1 w3]|] eqn:Hh2; [|done].
  destruct (verify_update _ _ _ _) eqn:Hv; [|done]. intros [= <- <-].
  destruct (get_hint_spec _ _ _ Hh1) as (h & -> & Hfs).
  destruct (get_hint_spec _ _ _ Hh2) as (h2 & -> & Hfs2).
  split_and!; [done|trans (h :: h2 :: w3); [by exists [h; h2]|done]|].
  destruct (uf_update _ (unforgeable_suffix _ _ Hsuf Huf) h up ns r1 batch) as (p & t & Hput);
    [set_solver|done..|].
  rewrite (ok_latest _ Hok). fold (tree ns). rewrite decide_True by done.
  destruct (true_claims_proved _ _ Hok Ht wn) as [wn1 ->].
  rewrite (ok_next _ Hok). fold (tree ns). rewrite Hput. by do 2 eexists.
Qed.

Lemma ordered_reads_claims c acc :
  Cache.to_ordered_writes_and_reads c = Some acc -> ordered_reads acc = claims c.
Proof.
  unfold Cache.to_ordered_writes_and_reads.
  destruct (Cache.commit_revertable_storage_cache c) as [c'|] eqn:Hc; [|done].
  destruct (CacheLog.take_writes _); [|done]. intros [= <-].
  rewrite <- (proj1 (commit_claims _ _ Hc)). unfold claims. cbn.
  unfold Cache.commit_revertable_storage_cache in Hc.
  destruct (CacheLog.commit_revertable_log _); [|done]. simplify_eq. cbn. by rewrite app_nil_r.
Qed.

Lemma update_back accs w wn prev r w' :
  db_ok db -> unforgeable w -> root_of_db prev ->
  Forall claim_ok (ordered_reads (user_accesses accs)) ->
  Forall claim_ok (ordered_reads (kernel_accesses accs)) ->
  zk_update accs w prev = Ok (r, tt, w') ->
  Forall (claim_true UserSpace) (ordered_reads (user_accesses accs)) /\
  Forall (claim_true KernelSpace) (ordered_reads (kernel_accesses accs)) /\
  exists u wn', prover_update db accs wn prev = Ok (r, u, wn').
Proof.
  intros Hok Huf Hroot Hcu Hck. unfold zk_update, prover_update.
  destruct (zk_update_namespace (user_accesses accs) _ _) as [[ru wu]| |] eqn:Hu; [|done..].
  destruct (namespace_back _ _ _ wn _ _ _ Hok Huf Hcu (Hroot UserSpace) Hu)
    as (Htu & Hsuf & uu & wn1 & ->).
  destruct (zk_update_namespace (kernel_accesses accs) _ _) as [[rk wk]| |] eqn:Hk; [|done..].
  destruct (namespace_back _ _ _ wn1 _ _ _ Hok (unforgeable_suffix _ _ Hsuf Huf) Hck
    (Hroot KernelSpace) Hk) as (Htk & _ & uk & wn2 & ->).
  intros [= <- _]. split_and!; [done..|]. by do 2 eexists.
Qed.

Lemma fresh_claims_ok (z : zdelta) w ns :
  delta_grows (Delta.with_witness zkStorage w) z -> Forall claim_ok (claims (Delta.cache_of ns z)).
Proof. intros [_ Hg]. destruct (Hg ns) as (_ & (new & -> & Hok) & _). by destruct ns. Qed.

Lemma slot_back {A} (p : prog A) w prev a r rest :
  no_discard p -> db_ok db -> root_of_db prev -> unforgeable w ->
  run_slot zkStorage w p prev = Some (a, r, tt, rest) ->
  exists u w', run_slot db [] p prev = Some (a, r, u, w').
Proof.
  intros Hnd Hok Hroot Huf. unfold run_slot.
  destruct (run p (Delta.with_witness zkStorage w)) as [[a0 z]|] eqn:Hz; [|done].
  assert (delta_grows (Delta.with_witness zkStorage w) z) as Hg.
  { eapply run_grows; [done| |done|done]. by intros []. }
  unfold Delta.materialize_update, Delta.freeze.
  destruct (Cache.to_ordered_writes_and_reads (Delta.user_cache z)) as [au|] eqn:Hau; [|done].
  destruct (Cache.to_ordered_writes_and_reads (Delta.kernel_cache z)) as [ak|] eqn:Hak; [|done].
  cbn [compute_state_update zk_storage].
  destruct (zk_update _ _ _) as [[[r0 []] w0]| |] eqn:Hup; [|done..]. intros [= -> -> _].
  pose proof (ordered_reads_claims _ _ Hau) as Hru. pose proof (ordered_reads_claims _ _ Hak) as Hrk.
  assert (forall wn, Forall (claim_true UserSpace) (ordered_reads au) /\
    Forall (claim_true KernelSpace) (ordered_reads ak) /\
    exists u wn', prover_update db (mkAccesses au ak) wn prev = Ok (r, u, wn')) as Hback.
  { intros wn. eapply (update_back (mkAccesses au ak)); [done| |done| | |exact Hup]; cbn.
    - eapply unforgeable_suffix; [apply (proj2 Hg UserSpace)|done].
    - rewrite Hru. by apply (fresh_claims_ok _ w UserSpace).
    - rewrite Hrk. by apply (fresh_claims_ok _ w KernelSpace). }
  assert (claims_true z) as Ht.
  { intros []; cbn; [rewrite <- Hru|rewrite <- Hrk]; apply (Hback []). }
  destruct (run_back p Hnd _ _ _ _ (delta_rel_fresh db [] w) Hz Huf Ht) as (n & -> & Hr).
  destruct (accesses_replay _ _ _ (dr_caches _ _ _ Hr UserSpace)) as (au' & Hnu & Hzu).
  destruct (accesses_replay _ _ _ (dr_caches _ _ _ Hr KernelSpace)) as (ak' & Hnk & Hzk).
  cbn [Delta.cache_of] in *. rewrite Hnu, Hnk.
  assert (au' = au /\ ak' = ak) as [-> ->] by (split; congruence).
  rewrite (dr_inner _ _ _ Hr). cbn [compute_state_update prover_storage].
  destruct (Hback (Delta.witness n)) as (_ & _ & u & wn' & ->). by do 2 eexists.
Qed.
End Sound.
End ZkSound.
