(* ===== verification/StateRefines.v ===== *)
(** * The cache of the state is a map

    A program over the cache of a node computes what it computes over a plain map with
    a committed and a current version, and the writes that it leaves for the storage
    are the changes of that map. *)

From Stdlib Require Import NArith Lia.
From stdpp Require Import base numbers gmap option list sorting.
From S2P Require Import Prelude Ints StateAccess SlotKey StateCache StateCacheProofs StateStorage ZkReplay.

(** ** The specification *)

Definition state_map : Type := ProvableNamespace -> SlotKey -> option SlotValue.

Definition put (ns : ProvableNamespace) (key : SlotKey) (v : option SlotValue) (m : state_map) : state_map :=
  fun ns' key' => if decide ((ns', key') = (ns, key)) then v else m ns' key'.

Definition put_in (ns : Namespace) (key : SlotKey) (v : option SlotValue) (m : state_map) : state_map :=
  match ns with
  | User => put UserSpace key v m
  | Kernel => put KernelSpace key v m
  | Accessory => m
  end.

(** The result, and the committed and the current map at the end. *)
Fixpoint spec_run {A} (p : prog A) (committed current : state_map) : A * state_map * state_map :=
  match p with
  | Done a => (a, committed, current)
  | GetSize ns key k => spec_run (k (len <$> current ns key)) committed current
  | GetValue ns key k => spec_run (k (current ns key)) committed current
  | SetValue ns key v p => spec_run p committed (put_in ns key (Some v) current)
  | DeleteValue ns key p => spec_run p committed (put_in ns key None current)
  | CommitCache p => spec_run p current current
  | DiscardCache p => spec_run p committed committed
  end.

(** Values that a [SlotValue] may have. *)
Definition fits (v : SlotValue) : Prop := len v <= u32_max.

Fixpoint writes_fit {A} (p : prog A) : Prop :=
  match p with
  | Done _ => True
  | GetSize _ _ k => forall r, writes_fit (k r)
  | GetValue _ _ k => forall r, writes_fit (k r)
  | SetValue _ _ v p => fits v /\ writes_fit p
  | DeleteValue _ _ p | CommitCache p | DiscardCache p => writes_fit p
  end.

Lemma size_fits v : fits v -> size v = Some (len v).
Proof. intros Hf. unfold size. by rewrite (proj2 (N.leb_le _ _) Hf). Qed.

Module StateRefines.
Import CacheLogFacts StateStorage ZkReplay.
Section Refines.
Context {Hs : Hasher} {J : Jmt} {Codec : HintCodec}.
Context (db : StateDb).

Section Namespace.
Context (ns : ProvableNamespace).
Notation base := (fun key => read_value db ns key None).

Definition read_ok (key : SlotKey) (o : option NodeLeafAndMaybeValue) : Prop :=
  match o with
  | None => base key = None
  | Some node => exists v, base key = Some v /\ make_leaf v = Some (leaf node) /\
      (value node = ReadValue v \/ value node = GetSizeValueFetched v)
  end.

Definition overlay (l : gmap SlotKey Access) (key : SlotKey) : option SlotValue :=
  match l !! key with Some (AccWrite v) => v | _ => base key end.

Definition log_ok (l : gmap SlotKey Access) : Prop :=
  forall key o, l !! key = Some (AccRead o) -> read_ok key o.

(** The cache stands for the two maps. *)
Record cache_is (c : Cache.t) (committed current : SlotKey -> option SlotValue) : Prop := mkCacheIs {
  ci_pinned : Cache.pinned_cache c = None;
  ci_fresh : reads_fresh (Cache.cache c);
  ci_revertable : log_ok (CacheLog.revertable_log (Cache.cache c));
  ci_log : log_ok (CacheLog.log (Cache.cache c));
  ci_committed : forall key, committed key = overlay (CacheLog.log (Cache.cache c)) key;
  ci_current : forall key,
    current key = overlay (CacheLog.revertable_log (Cache.cache c) ∪ CacheLog.log (Cache.cache c)) key
}.

Lemma log_ok_insert l key o : log_ok l -> read_ok key o -> log_ok (<[key := AccRead o]> l).
Proof.
  intros Hl Ho k o' Hk. destruct (decide (k = key)) as [->|Hne].
  - rewrite lookup_insert_eq in Hk. by simplify_eq.
  - rewrite lookup_insert_ne in Hk by done. by apply Hl.
Qed.

Lemma log_ok_write l key v : log_ok l -> log_ok (<[key := AccWrite v]> l).
Proof.
  intros Hl k o' Hk. destruct (decide (k = key)) as [->|Hne].
  - by rewrite lookup_insert_eq in Hk.
  - rewrite lookup_insert_ne in Hk by done. by apply Hl.
Qed.

Lemma log_ok_union l1 l2 : log_ok l1 -> log_ok l2 -> log_ok (l1 ∪ l2).
Proof. intros H1 H2 k o Hk. apply lookup_union_Some_raw in Hk as [?|[_ ?]]; eauto. Qed.

Lemma log_ok_empty : log_ok ∅.
Proof. intros k o Hk. by rewrite lookup_empty in Hk. Qed.

Lemma overlay_insert_read l key o k :
  (forall v, l !! key <> Some (AccWrite v)) -> overlay (<[key := AccRead o]> l) k = overlay l k.
Proof.
  intros Hw. unfold overlay. destruct (decide (k = key)) as [->|Hne].
  - rewrite lookup_insert_eq. destruct (l !! key) as [[?|v]|] eqn:Hk; [done| |done]. by destruct (Hw v).
  - by rewrite lookup_insert_ne.
Qed.

Lemma overlay_insert_write l key v k :
  overlay (<[key := AccWrite v]> l) k = if decide (k = key) then v else overlay l k.
Proof.
  unfold overlay. destruct (decide (k = key)) as [->|Hne].
  - by rewrite lookup_insert_eq.
  - by rewrite lookup_insert_ne.
Qed.

Lemma cache_is_default : cache_is Cache.default base base.
Proof. split; cbn; try done; apply log_ok_empty. Qed.

Lemma cache_is_commit c committed current :
  cache_is c committed current ->
  exists c', Cache.commit_revertable_storage_cache c = Some c' /\ cache_is c' current current /\
    CacheLog.revertable_log (Cache.cache c') = ∅.
Proof.
  intros Hc. unfold Cache.commit_revertable_storage_cache. rewrite (commit_union _ (ci_fresh _ _ _ Hc)).
  eexists. split_and!; [done| |done]. split; cbn; try done; try apply Hc.
  - apply log_ok_union; apply Hc.
  - intros key. rewrite (left_id_L ∅ (∪)). apply Hc.
Qed.

Lemma cache_is_discard c committed current :
  cache_is c committed current -> cache_is (Cache.discard_revertable_storage_cache c) committed committed.
Proof.
  intros Hc. split; cbn; try done; try apply Hc. intros key. rewrite (left_id_L ∅ (∪)). apply Hc.
Qed.

Lemma cache_is_write c committed current key v :
  cache_is c committed current ->
  cache_is (write_entry key v c) committed (fun k => if decide (k = key) then v else current k).
Proof.
  intros Hc. split; cbn; try apply Hc.
  - intros k o Hk. cbn in *. destruct (decide (k = key)) as [->|Hne].
    + by rewrite lookup_insert_eq in Hk.
    + rewrite lookup_insert_ne in Hk by done. by apply (ci_fresh _ _ _ Hc k o).
  - apply log_ok_write, Hc.
  - intros k. rewrite <- insert_union_l, overlay_insert_write. by rewrite (ci_current _ _ _ Hc).
Qed.

Lemma cache_is_read c committed current key node :
  cache_is c committed current -> CacheLog.get key (Cache.cache c) = None -> read_ok key node ->
  exists c', Cache.add_read key node c = Some c' /\ cache_is c' committed current.
Proof.
  intros Hc Hget Hok. pose proof Hget as Hlog. rewrite get_union in Hget.
  unfold Cache.add_read, CacheLog.add_read. unfold CacheLog.get in Hlog.
  destruct (CacheLog.revertable_log (Cache.cache c) !! key) eqn:Hk; [done|].
  eexists. split; [done|]. split; cbn; try apply Hc.
  - intros k o Hko. cbn in *. destruct (decide (k = key)) as [->|Hne]; [done|].
    rewrite lookup_insert_ne in Hko by done. by apply (ci_fresh _ _ _ Hc k o).
  - apply log_ok_insert; [apply Hc|done].
  - intros k. rewrite <- insert_union_l, overlay_insert_read by congruence. apply Hc.
Qed.

Lemma cache_is_found c committed current key o node :
  cache_is c committed current -> CacheLog.get key (Cache.cache c) = Some (AccRead o) ->
  read_ok key node ->
  cache_is (Cache.with_log (CacheLog.set_found key (AccRead node) (Cache.cache c)) c) committed current.
Proof.
  intros Hc Hget Hok. pose proof Hget as Hu. rewrite get_union in Hu. unfold CacheLog.get in Hget.
  unfold CacheLog.set_found. destruct (CacheLog.revertable_log (Cache.cache c) !! key) eqn:Hk.
  - split; cbn; try apply Hc.
    + intros k o' Hko. cbn in *. destruct (decide (k = key)) as [->|Hne].
      * apply (ci_fresh _ _ _ Hc key o). congruence.
      * rewrite lookup_insert_ne in Hko by done. by apply (ci_fresh _ _ _ Hc k o').
    + apply log_ok_insert; [apply Hc|done].
    + intros k. rewrite <- insert_union_l, overlay_insert_read by congruence. apply Hc.
  - split; cbn; try apply Hc.
    + intros k o' Hko. cbn in *. destruct (decide (k = key)) as [->|Hne]; [congruence|].
      rewrite lookup_insert_ne by done. by apply (ci_fresh _ _ _ Hc k o').
    + apply log_ok_insert; [apply Hc|done].
    + intros k. rewrite overlay_insert_read by congruence. apply Hc.
    + intros k. rewrite <- insert_union_r, overlay_insert_read by congruence. apply Hc.
Qed.

(** What is in the cache for a key. *)
Lemma cached_current c committed current key a :
  cache_is c committed current -> CacheLog.get key (Cache.cache c) = Some a ->
  match a with
  | AccWrite v => current key = v
  | AccRead o => current key = base key /\ read_ok key o
  end.
Proof.
  intros Hc Hget. rewrite get_union in Hget. pose proof (ci_current _ _ _ Hc key) as Hcur.
  unfold overlay in Hcur. rewrite Hget in Hcur. destruct a as [o|v]; [|done].
  split; [done|]. exact (log_ok_union _ _ (ci_revertable _ _ _ Hc) (ci_log _ _ _ Hc) key o Hget).
Qed.

Lemma uncached_current c committed current key :
  cache_is c committed current -> CacheLog.get key (Cache.cache c) = None -> current key = base key.
Proof.
  intros Hc Hget. rewrite get_union in Hget. rewrite (ci_current _ _ _ Hc). unfold overlay. by rewrite Hget.
Qed.

Context (Hfits : forall key v, base key = Some v -> fits v).

Lemma base_leaf key v : base key = Some v -> make_leaf v = Some (mkLeaf (len v) (digest v)).
Proof. intros Hv. unfold make_leaf. by rewrite (size_fits _ (Hfits _ _ Hv)). Qed.

Lemma size_is c committed current key w :
  cache_is c committed current -> (forall v, current key = Some v -> fits v) ->
  exists c' w', Cache.get_size_or_fetch db ns None key c w = Some (len <$> current key, c', w') /\
    cache_is c' committed current.
Proof.
  intros Hc Hf. unfold Cache.get_size_or_fetch.
  destruct (CacheLog.get key (Cache.cache c)) as [a|] eqn:Hget.
  - pose proof (cached_current _ _ _ _ _ Hc Hget) as Ha. destruct a as [[node|]|[v|]].
    + destruct node as [l rt], Ha as [Hcur (v & Hv & Hl & _)]. rewrite (base_leaf _ _ Hv) in Hl.
      cbn in Hl. simplify_eq. rewrite Hcur, Hv. by do 2 eexists.
    + destruct Ha as [Hcur Hv]. cbn in Hv. rewrite Hcur, Hv. by do 2 eexists.
    + rewrite (size_fits v) by (by apply Hf). rewrite Ha. by do 2 eexists.
    + rewrite Ha. by do 2 eexists.
  - rewrite (ci_pinned _ _ _ Hc), (uncached_current _ _ _ _ Hc Hget).
    cbn [Pinned.check_pinned_cache Cache.fetch_leaf get_leaf prover_storage]. unfold do_get_leaf.
    destruct (read_value db ns key None) as [v|] eqn:Hv.
    + rewrite (base_leaf _ _ Hv).
      destruct (cache_is_read _ _ _ key (Some (mkNode (mkLeaf (len v) (digest v)) (GetSizeValueFetched v)))
        Hc Hget) as (c' & -> & Hc'); [|by do 2 eexists].
      exists v. split_and!; [done|by apply (base_leaf key)|by right].
    + destruct (cache_is_read _ _ _ key None Hc Hget Hv) as (c' & -> & Hc'). by do 2 eexists.
Qed.

Lemma value_is c committed current key w :
  cache_is c committed current ->
  exists c' w', Cache.get_or_fetch db ns None key c w = Some (current key, c', w') /\
    cache_is c' committed current.
Proof.
  intros Hc. unfold Cache.get_or_fetch.
  destruct (CacheLog.get key (Cache.cache c)) as [a|] eqn:Hget.
  - pose proof (cached_current _ _ _ _ _ Hc Hget) as Ha. destruct a as [[node|]|m].
    + destruct Ha as [Hcur (v & Hv & Hl & [Hval|Hval])]; rewrite Hval, Hcur, Hv; do 2 eexists;
        (split; [done|]); [done|].
      eapply cache_is_found; [done..|]. exists v. by split_and!; [| |left].
    + destruct Ha as [Hcur Hv]. cbn in Hv. rewrite Hcur, Hv. by do 2 eexists.
    + rewrite Ha. by do 2 eexists.
  - unfold Cache.fetch_value. rewrite (ci_pinned _ _ _ Hc), (uncached_current _ _ _ _ Hc Hget).
    cbn [Pinned.check_pinned_cache get_stored prover_storage Cache.read_node].
    destruct (read_value db ns key None) as [v|] eqn:Hv.
    + cbn [Cache.read_node]. change (@make_leaf (storage_hasher (St := StateDb)) v) with (make_leaf v).
      rewrite (base_leaf _ _ Hv).
      destruct (cache_is_read _ _ _ key (Some (mkNode (mkLeaf (len v) (digest v)) (ReadValue v)))
        Hc Hget) as (c' & -> & Hc'); [|by do 2 eexists].
      exists v. split_and!; [done|by apply (base_leaf key)|by left].
    + cbn [Cache.read_node]. destruct (cache_is_read _ _ _ key None Hc Hget Hv) as (c' & -> & Hc'). by do 2 eexists.
Qed.

(** The writes of the cache are the changes of the map. *)
Lemma writes_are c committed current :
  cache_is c committed current ->
  exists acc, Cache.to_ordered_writes_and_reads c = Some acc /\
    forall key, current key = default (base key) ((list_to_map (ordered_writes acc) : gmap _ _) !! key).
Proof.
  intros Hc. destruct (cache_is_commit _ _ _ Hc) as (c' & Hcommit & Hc' & He).
  unfold Cache.to_ordered_writes_and_reads. rewrite Hcommit.
  destruct (Cache.cache c') as [r l] eqn:Hl. cbn in He. subst r.
  destruct (take_writes_perm l) as (ws & -> & Hp). eexists. split; [done|]. intros key. cbn [ordered_writes].
  assert (NoDup ws.*1) as Hd by (rewrite Hp; apply NoDup_fst_map_to_list).
  rewrite (list_to_map_proper (sort_writes ws) ws) by
    (try rewrite SortFacts.sort_writes_perm; done).
  rewrite (list_to_map_proper ws (map_to_list (writes l))), list_to_map_to_list by done.
  rewrite (ci_committed _ _ _ Hc'), Hl. cbn. unfold overlay, writes. rewrite lookup_omap.
  by destruct (l !! key) as [[]|].
Qed.
End Namespace.

(** ** Programs *)

Definition stored : state_map := fun ns key => read_value db ns key None.

Record delta_is (d : Delta.t (St := StateDb)) (committed current : state_map) : Prop := mkDeltaIs {
  di_caches : forall ns, cache_is ns (Delta.cache_of ns d) (committed ns) (current ns);
  di_inner : Delta.inner d = db;
  di_changes : Delta.uncommitted_changes d = None;
  di_committed : forall ns key v, committed ns key = Some v -> fits v;
  di_current : forall ns key v, current ns key = Some v -> fits v
}.

Lemma cache_is_ext ns c cm cm' cu cu' :
  cache_is ns c cm cu -> (forall k, cm' k = cm k) -> (forall k, cu' k = cu k) -> cache_is ns c cm' cu'.
Proof.
  intros Hc H1 H2. split; try apply Hc; intros k; [rewrite H1|rewrite H2]; apply Hc.
Qed.

Lemma delta_is_pinned d cm cu : delta_is d cm cu -> no_pinned d.
Proof. intros Hd ns. apply (di_caches _ _ _ Hd ns). Qed.

Lemma delta_is_cache d cm cu ns c w :
  delta_is d cm cu -> cache_is ns c (cm ns) (cu ns) ->
  delta_is (Delta.set_witness w (Delta.set_cache ns c d)) cm cu.
Proof.
  intros Hd Hc. split; try (by destruct ns; apply Hd). intros ns'.
  pose proof (di_caches _ _ _ Hd ns'). by destruct ns, ns'.
Qed.

Lemma put_fits ns key v (m : state_map) :
  (forall x, v = Some x -> fits x) -> (forall ns' k x, m ns' k = Some x -> fits x) ->
  forall ns' k x, put ns key v m ns' k = Some x -> fits x.
Proof. intros Hv Hm ns' k x. unfold put. case_decide; eauto. Qed.

Lemma delta_is_write d cm cu ns key v :
  delta_is d cm cu -> (forall x, v = Some x -> fits x) ->
  delta_is (delta_write ns key v d) cm (put_in ns key v cu).
Proof.
  intros Hd Hv. destruct ns; (split; [|apply Hd..|try apply Hd]); cbn.
  1,3,5: intros ns'; pose proof (di_caches _ _ _ Hd ns') as Hc; destruct ns'; cbn in *;
    first [done|eapply cache_is_ext; [by apply cache_is_write|done|]|eapply cache_is_ext; [done..|]];
    intros k; unfold put; repeat case_decide; congruence.
  all: apply put_fits; [done|apply Hd].
Qed.

Lemma delta_is_commit d cm cu :
  delta_is d cm cu -> exists d', Delta.commit_revertable_storage_cache d = Some d' /\ delta_is d' cu cu.
Proof.
  intros Hd. unfold Delta.commit_revertable_storage_cache.
  destruct (cache_is_commit _ _ _ _ (di_caches _ _ _ Hd UserSpace)) as (u & Hu & Hcu & _).
  destruct (cache_is_commit _ _ _ _ (di_caches _ _ _ Hd KernelSpace)) as (k & Hk & Hck & _).
  cbn [Delta.cache_of] in *. rewrite Hu, Hk. eexists. split; [done|].
  split; try apply Hd. by intros [].
Qed.

Lemma delta_is_discard d cm cu :
  delta_is d cm cu -> delta_is (Delta.discard_revertable_storage_cache d) cm cm.
Proof.
  intros Hd. split; try apply Hd. intros ns. pose proof (di_caches _ _ _ Hd ns) as Hc.
  destruct ns; by eapply cache_is_discard.
Qed.

Context (Hfits : forall ns key v, stored ns key = Some v -> fits v).

Lemma delta_is_fresh w : delta_is (Delta.with_witness db w) stored stored.
Proof. split; try done. intros []; apply cache_is_default. Qed.

Lemma delta_is_get_size d cm cu ns key : delta_is d cm cu ->
  exists d', Delta.get_size (namespace_of ns) key d = Some (len <$> cu ns key, d') /\ delta_is d' cm cu.
Proof.
  intros Hd. pose proof (delta_get_size ns key (Delta.witness d) d) as Hg.
  rewrite set_witness_same, (di_inner _ _ _ Hd), (di_changes _ _ _ Hd) in Hg. rewrite Hg.
  destruct (size_is ns (Hfits ns) _ _ _ key (Delta.witness d) (di_caches _ _ _ Hd ns)
    (di_current _ _ _ Hd ns key)) as (c & w & -> & Hc).
  eexists. split; [done|]. by apply delta_is_cache.
Qed.

Lemma delta_is_get d cm cu ns key : delta_is d cm cu ->
  exists d', Delta.get (namespace_of ns) key d = Some (cu ns key, d') /\ delta_is d' cm cu.
Proof.
  intros Hd. pose proof (delta_get ns key (Delta.witness d) d) as Hg.
  rewrite set_witness_same, (di_inner _ _ _ Hd), (di_changes _ _ _ Hd) in Hg. rewrite Hg.
  destruct (value_is ns (Hfits ns) _ _ _ key (Delta.witness d) (di_caches _ _ _ Hd ns)) as (c & w & -> & Hc).
  eexists. split; [done|]. by apply delta_is_cache.
Qed.

Lemma delta_is_set d cm cu ns key v : delta_is d cm cu -> fits v ->
  exists d', Delta.set ns key v d = Some d' /\ delta_is d' cm (put_in ns key (Some v) cu).
Proof.
  intros Hd Hv. rewrite delta_set by (by eapply delta_is_pinned).
  replace (match ns with Accessory => Some 0 | _ => size v end)
    with (Some (match ns with Accessory => 0 | _ => len v end)) by (destruct ns; by rewrite ?size_fits).
  eexists. split; [done|]. apply delta_is_write; [done|]. by intros x [= <-].
Qed.

Lemma delta_is_delete d cm cu ns key : delta_is d cm cu ->
  exists d', Delta.delete ns key d = Some d' /\ delta_is d' cm (put_in ns key None cu).
Proof.
  intros Hd. rewrite delta_delete by (by eapply delta_is_pinned).
  eexists. split; [done|]. by apply delta_is_write.
Qed.

Lemma run_is {A} (p : prog A) : forall d cm cu a cm' cu',
  delta_is d cm cu -> writes_fit p -> spec_run p cm cu = (a, cm', cu') ->
  exists d', run p d = Some (a, d') /\ delta_is d' cm' cu'.
Proof.
  induction p as [a0|ns key k IH|ns key k IH|ns key v p IH|ns key p IH|p IH|p IH];
    intros d cm cu a cm' cu' Hd Hf Hs1; cbn [run spec_run writes_fit] in *.
  - simplify_eq. by eexists.
  - destruct (delta_is_get_size _ _ _ ns key Hd) as (d1 & -> & Hd1). by eapply IH.
  - destruct (delta_is_get _ _ _ ns key Hd) as (d1 & -> & Hd1). by eapply IH.
  - destruct Hf as [Hv Hf]. destruct (delta_is_set _ _ _ ns key v Hd Hv) as (d1 & -> & Hd1). by eapply IH.
  - destruct (delta_is_delete _ _ _ ns key Hd) as (d1 & -> & Hd1). by eapply IH.
  - destruct (delta_is_commit _ _ _ Hd) as (d1 & -> & Hd1). by eapply IH.
  - eapply IH; [by eapply delta_is_discard|done|done].
Qed.
End Refines.
End StateRefines.
