(* ===== verification/ZkProperties.v ===== *)
(** * What the state storage guarantees

    The cache of the state is a map; the zkVM accepts every slot of the node, and what
    it accepts is what the node computes.  The hypotheses on the hash, the tree and the
    serialization are met by the small instance at the end of the section. *)

From Stdlib Require Import NArith Lia.
From stdpp Require Import base numbers gmap option list sorting countable.
From S2P Require Import Prelude Ints StateAccess SlotKey StateCache StateCacheProofs StateStorage ZkReplay ZkSound StateRefines.

(** ** An instance of the parameters *)
Module ZkDemo.

(** A number that stands for a value of a countable type. *)
Definition code `{Countable A} (a : A) : N := Npos (encode a).
Definition uncode `{Countable A} (n : N) : option A :=
  match n with Npos p => decode p | N0 => None end.

Lemma uncode_code `{Countable A} (a : A) : uncode (code a) = Some a.
Proof. apply decode_encode. Qed.

Lemma code_inj `{Countable A} (a b : A) : code a = code b -> a = b.
Proof. intros [= Hab]. by apply (inj encode). Qed.

#[export] Instance demo_hasher : Hasher := {| digest := fun v => code v :: replicate 31 0 |}.

#[export] Instance demo_hasher_laws : HasherLaws.
Proof. done. Qed.

Lemma demo_digest_inj v1 v2 : digest v1 = digest v2 -> v1 = v2.
Proof. cbn -[code]. intros [Hc _]%cons_eq_inj. by apply code_inj. Qed.

(** The tree keeps what is proved and the values. *)
Record demo_tree : Type := mkDemoTree {
  hashes : gmap (list N) (list N);
  values : gmap (list N) SlotValue
}.

Fixpoint put_all (batch : list (list N * option (list N))) (m : gmap (list N) (list N))
  : gmap (list N) (list N) :=
  match batch with
  | [] => m
  | (k, Some h) :: batch => put_all batch (<[k := h]> m)
  | (k, None) :: batch => put_all batch (delete k m)
  end.

Definition hashes_of (root : list N) : option (gmap (list N) (list N)) :=
  match root with n :: _ => uncode n | _ => None end.

Definition root_of (m : gmap (list N) (list N)) : list N := code m :: replicate 31 0.

(** The root has all of the tree, so that no proof is needed. *)
#[export] Instance demo_jmt : Jmt := {|
  SparseMerkleProof := unit;
  UpdateMerkleProof := unit;
  Tree := demo_tree;
  get_root_hash := fun t => root_of (hashes t);
  get_with_proof := fun t k => Some (values t !! k, tt);
  put_value_set_with_proof := fun t batch =>
    Some (root_of (put_all batch (hashes t)), tt, mkDemoTree (put_all batch (hashes t)) (values t));
  verify_existence := fun _ root k h =>
    match hashes_of root with Some m => bool_decide (m !! k = Some h) | None => false end;
  verify_nonexistence := fun _ root k =>
    match hashes_of root with Some m => bool_decide (m !! k = None) | None => false end;
  verify_update := fun _ root root' batch =>
    match hashes_of root with Some m => bool_decide (root' = root_of (put_all batch m)) | None => false end
|}.

#[export] Instance demo_jmt_laws : JmtLaws.
Proof.
  refine {| tree_map := fun t k => hashes t !! k |}.
  - intros t k v p _. cbn -[code uncode]. rewrite uncode_code.
    destruct (hashes t !! k) eqn:Hk; by rewrite bool_decide_eq_true.
  - intros t batch r p t' [= <- _ _]. cbn -[code uncode]. rewrite uncode_code. by rewrite bool_decide_eq_true.
Defined.

(** The hints. *)
Definition hint_of `{Countable A} : Hint A := {|
  to_vec := fun a => [code a];
  from_slice := fun b => match b with [n] => uncode n | _ => None end
|}.

Lemma hint_of_laws `{Countable A} : HintLaws (H := hint_of (A := A)).
Proof. intros a. cbn -[code uncode]. apply uncode_code. Qed.

(** A leaf as a tuple, and back if the fields have their types. *)
Definition node_tuple (node : NodeLeafAndMaybeValue) : N * list N * option (bool * list N) :=
  (leaf_size (leaf node), val_hash (leaf node),
   match value node with
   | GetSizeValueNotFetched => None
   | GetSizeValueFetched v => Some (false, v)
   | ReadValue v => Some (true, v)
   end).

Definition tuple_node (t : N * list N * option (bool * list N)) : option NodeLeafAndMaybeValue :=
  match t with
  | (n, h, r) =>
      if bool_decide (length h = 32%nat /\ n <= u32_max) then
        Some (mkNode (mkLeaf n h)
          (match r with
           | None => GetSizeValueNotFetched
           | Some (false, v) => GetSizeValueFetched v
           | Some (true, v) => ReadValue v
           end))
      else None
  end.

Lemma tuple_node_tuple node : leaf_ok (leaf node) -> tuple_node (node_tuple node) = Some node.
Proof.
  destruct node as [[n h] r]. intros Hok. unfold node_tuple, tuple_node. cbn in *.
  rewrite bool_decide_true by apply Hok. by destruct r.
Qed.

Lemma tuple_node_ok t node : tuple_node t = Some node -> leaf_ok (leaf node).
Proof.
  destruct t as [[n h] r]. cbn. case_bool_decide as Hok; [|done]. by intros [= <-].
Qed.

#[export] Instance demo_codec : HintCodec := {|
  hint_value := hint_of;
  hint_leaf := {|
    to_vec := fun o => [code (node_tuple <$> o)];
    from_slice := fun b =>
      match b with
      | [n] =>
          match uncode (A := option (N * list N * option (bool * list N))) n with
          | Some (Some t) => let? node := tuple_node t in Some (Some node)
          | Some None => Some None
          | None => None
          end
      | _ => None
      end
  |};
  hint_proof := hint_of (A := unit);
  hint_update := hint_of (A := unit);
  hint_root := hint_of
|}.

#[export] Instance demo_codec_laws : HintCodecLaws.
Proof.
  split; try apply hint_of_laws.
  - intros [node|] Hok; cbn -[code uncode]; rewrite uncode_code; [|done].
    by rewrite tuple_node_tuple.
  - intros [|n [|]] node; cbn -[uncode]; [done| |done].
    destruct (uncode n) as [[t|]|]; [|done..]. destruct (tuple_node t) eqn:Ht; [|done].
    intros [= <-]. by eapply tuple_node_ok.
Qed.

(** A database after genesis with one key of the user space. *)
Definition demo_key : SlotKey := [1; 2].
Definition demo_value : SlotValue := [7; 8; 9].

Definition demo_user_tree : demo_tree :=
  mkDemoTree {[ digest demo_key := digest demo_value ++ to_le_bytes 4 3 ]}
    {[ digest demo_key := demo_value ]}.

Definition demo_trees (ns : ProvableNamespace) : demo_tree :=
  match ns with UserSpace => demo_user_tree | KernelSpace => mkDemoTree ∅ ∅ end.

Definition demo_db : StateStorage.StateDb :=
  StateStorage.mkDb 1
    (fun ns _ key =>
       match ns with UserSpace => if decide (key = demo_key) then Some demo_value else None
       | KernelSpace => None end)
    (fun _ _ => None) (fun ns _ => demo_trees ns) demo_trees.

Definition demo_root : StorageRoot.t :=
  StorageRoot.new (get_root_hash demo_user_tree) (get_root_hash (mkDemoTree ∅ ∅)).

Lemma demo_lookup {A} key (a : A) :
  ({[ digest demo_key := a ]} : gmap (list N) A) !! digest key =
  if decide (key = demo_key) then Some a else None.
Proof.
  case_decide as Hk; [subst; apply lookup_singleton_eq|].
  apply lookup_singleton_ne. intros Hd. by apply demo_digest_inj in Hd.
Qed.

Lemma demo_db_ok : ZkReplay.db_ok demo_db.
Proof.
  split; [done|done| |]; intros [] key.
  - exists tt. change (Some (values demo_user_tree !! digest key, tt) =
      Some (if decide (key = demo_key) then Some demo_value else None, tt)).
    unfold demo_user_tree. cbn [values]. by rewrite demo_lookup.
  - by exists tt.
  - change (StateStorage.opt_hash_and_size (if decide (key = demo_key) then Some demo_value else None) =
      Some (hashes demo_user_tree !! digest key)).
    unfold demo_user_tree. cbn [hashes]. rewrite demo_lookup. by case_decide.
  - done.
Qed.

(** With hashes and roots that have all of the data, nothing can be forged. *)
Lemma demo_unforgeable w : ZkSound.unforgeable demo_db w.
Proof.
  split.
  - intros h v ns key v' _ _ _ Hd. by apply demo_digest_inj.
  - intros h [] ns key x _ _. cbn -[code uncode digest demo_trees]. rewrite uncode_code.
    by rewrite bool_decide_eq_true.
  - intros h [] ns key _ _. cbn -[code uncode digest demo_trees]. rewrite uncode_code.
    by rewrite bool_decide_eq_true.
  - intros h [] ns r batch _ _. cbn -[code uncode digest demo_trees]. rewrite uncode_code.
    rewrite bool_decide_eq_true. intros ->. by do 2 eexists.
Qed.

Lemma demo_root_ok : ZkSound.root_of_db demo_db demo_root.
Proof. by intros []. Qed.

(** Reads of a size, of a value and of a key that is absent, a write that depends on
    them, and a deletion in the kernel space. *)
Definition demo_prog : prog (option N * option SlotValue) :=
  GetSize UserSpace demo_key (fun n =>
  GetValue UserSpace demo_key (fun v =>
  GetValue KernelSpace [5] (fun absent =>
  CommitCache (
  SetValue User [3] (match n with Some n => [n] | None => [] end) (
  SetValue Accessory [4] [0] (
  DeleteValue Kernel [5] (
  GetSize UserSpace [3] (fun m => Done (m, v))))))))).
End ZkDemo.

(** ** The theorems *)
Module ZkProperties.
Import StateStorage.
Section Properties.
Context {Hs : Hasher} {J : Jmt} {Codec : HintCodec}.

Definition accesses_in (ns : ProvableNamespace) (accs : StateAccesses) : OrderedReadsAndWrites :=
  match ns with UserSpace => user_accesses accs | KernelSpace => kernel_accesses accs end.

(** C22: the cache of the state refines a map.  A program of reads, writes, deletions,
    commits and discards over a [Delta] does not panic, has the result that it has over
    a plain map, and [freeze] leaves for the storage, in each namespace, the writes that
    turn the stored map into the current one.  The values have at most [u32::MAX] bytes. *)
Theorem state_refines_map {A} (db : StateDb) (p : prog A) :
  (forall ns key v, read_value db ns key None = Some v -> fits v) -> writes_fit p ->
  exists d accs accessory w,
    run p (Delta.with_witness db []) =
      Some ((spec_run p (StateRefines.stored db) (StateRefines.stored db)).1.1, d) /\
    Delta.freeze d = Some (accs, accessory, w, db) /\
    forall ns key,
      (spec_run p (StateRefines.stored db) (StateRefines.stored db)).2 ns key =
      default (read_value db ns key None)
        ((list_to_map (ordered_writes (accesses_in ns accs)) : gmap _ _) !! key).
Proof.
  intros Hf Hp. destruct (spec_run p _ _) as [[a cm] cu] eqn:Hspec.
  destruct (StateRefines.run_is db Hf p _ _ _ _ _ _ (StateRefines.delta_is_fresh db Hf []) Hp Hspec)
    as (d & Hrun & Hd).
  destruct (StateRefines.writes_are db _ _ _ _ (StateRefines.di_caches _ _ _ _ Hd UserSpace)) as (u & Hu & Hcu).
  destruct (StateRefines.writes_are db _ _ _ _ (StateRefines.di_caches _ _ _ _ Hd KernelSpace)) as (k & Hk & Hck).
  exists d, (mkAccesses u k), (Delta.accessory_writes d), (Delta.witness d). split_and!; [done| |].
  - unfold Delta.freeze. cbn [Delta.cache_of] in *. by rewrite Hu, Hk, (StateRefines.di_inner _ _ _ _ Hd).
  - intros []; cbn; [apply Hcu|apply Hck].
Qed.

Context {HsLaws : HasherLaws} {JLaws : JmtLaws} {CodecLaws : HintCodecLaws}.

(** C5: completeness of the witness.  When the node executes a slot from an empty
    witness and computes the new state root, the same slot in the zkVM, with the
    recorded witness, has the same result and the same root, and uses up the witness. *)
Theorem zk_complete {A} (db : StateDb) (p : prog A) prev a root update w :
  ZkReplay.db_ok db -> run_slot db [] p prev = Some (a, root, update, w) ->
  run_slot zkStorage w p prev = Some (a, root, tt, []).
Proof. apply ZkReplay.slot_replays. Qed.

(** C2: soundness of the zkVM.  Whatever the witness, if the zkVM accepts a slot that
    starts from the root of the database, then the node executes the slot too, with the
    same result and the same new state root.  The witness must not have a forged proof
    or a value whose hash collides with the one of a stored value. *)
Theorem zk_sound {A} (db : StateDb) (p : prog A) w prev a root rest :
  no_discard p -> ZkReplay.db_ok db -> ZkSound.root_of_db db prev -> ZkSound.unforgeable db w ->
  run_slot zkStorage w p prev = Some (a, root, tt, rest) ->
  exists update w', run_slot db [] p prev = Some (a, root, update, w').
Proof. apply ZkSound.slot_back. Qed.
End Properties.

(** *** Witnesses *)
Import ZkDemo.

Lemma demo_stored_fits ns key v : read_value demo_db ns key None = Some v -> fits v.
Proof.
  intros Hv. cbn in Hv. destruct ns; [|done]. case_decide; [|done]. simplify_eq. unfold fits. by vm_compute.
Qed.

Notation run_node := (run_slot (Sto := prover_storage)).
Notation run_zk := (run_slot (Sto := zk_storage)).

Lemma demo_runs : exists a root update w,
  run_node demo_db [] demo_prog demo_root = Some (a, root, update, w).
Proof.
  assert (bool_decide (is_Some (run_node demo_db [] demo_prog demo_root)) = true) as Hd by (by vm_compute).
  destruct (run_node demo_db [] demo_prog demo_root) as [[[[a root] update] w]|]; [by eauto|done].
Qed.

Lemma state_refines_map_witness :
  exists d accs accessory w,
    run demo_prog (Delta.with_witness demo_db []) = Some ((Some 1, Some demo_value), d) /\
    Delta.freeze d = Some (accs, accessory, w, demo_db).
Proof.
  destruct (state_refines_map demo_db demo_prog demo_stored_fits) as (d & accs & accessory & w & Hrun & Hf & _).
  - cbn. intros [n|] v absent; (split; [by vm_compute|split; [by vm_compute|done]]).
  - exists d, accs, accessory, w. split; [exact Hrun|exact Hf].
Defined.

Lemma zk_complete_witness :
  exists a root w, run_zk zkStorage w demo_prog demo_root = Some (a, root, tt, []).
Proof.
  destruct demo_runs as (a & root & update & w & Hrun). exists a, root, w.
  exact (zk_complete demo_db demo_prog demo_root a root update w demo_db_ok Hrun).
Defined.

Lemma zk_sound_witness :
  exists w a root rest, run_zk zkStorage w demo_prog demo_root = Some (a, root, tt, rest) /\
  exists update w', run_node demo_db [] demo_prog demo_root = Some (a, root, update, w').
Proof.
  destruct demo_runs as (a & root & update & w & Hrun).
  pose proof (ZkReplay.slot_replays demo_db demo_prog demo_root a root update w demo_db_ok Hrun) as Hz.
  exists w, a, root, []. split; [exact Hz|].
  refine (zk_sound demo_db demo_prog w demo_root a root [] _ demo_db_ok demo_root_ok (demo_unforgeable w) Hz).
  by cbn.
Defined.
End ZkProperties.
