(* ===== verification/StateLayers.v ===== *)
(** * The layers of state accessors

    sov-modules-api/src/state/accessors: the checkpoint of a slot, the scratchpad and
    the working sets of a transaction, and the temporary cache that goes with them.
    Each layer keeps its writes in a map over the layer below, and is committed to it or
    dropped.  The metrics of the accessors are left out. *)

From Stdlib Require Import NArith Lia.
From stdpp Require Import base numbers gmap option list fin_maps.
From S2P Require Import Prelude Ints Gas StateAccess SlotKey StateCache StateCacheProofs StateStorage ZkReplay StateRefines.

#[export] Instance Namespace_eq_dec : EqDecision Namespace.
Proof. solve_decision. Defined.

#[export] Instance Namespace_countable : Countable Namespace.
Proof.
  refine (inj_countable' (fun ns => match ns with User => 0 | Kernel => 1 | Accessory => 2 end)
    (fun n => match n with 0 => User | 1 => Kernel | _ => Accessory end) _).
  by intros [].
Defined.

(** [seal::UniversalStateAccessor]; [None] is a panic. *)
Class UniversalStateAccessor (T : Type) : Type := {
  get_size : Namespace -> SlotKey -> T -> option (option N * T);
  get_value : Namespace -> SlotKey -> T -> option (option SlotValue * T);
  set_value : Namespace -> SlotKey -> SlotValue -> T -> option T;
  delete_value : Namespace -> SlotKey -> T -> option T
}.

(** ** The temporary cache, temp_cache.rs

    A value of any type is kept under its type and an optional key, with its size.  The
    types are a parameter. *)
Class AnyType : Type := {
  TypeId : Type;
  Any : Type;
  type_id : Any -> TypeId;
  serialized_size : Any -> N;
  TypeId_eq_dec :: EqDecision TypeId;
  TypeId_countable :: Countable TypeId
}.

Inductive CacheLookup (T : Type) : Type := Hit (v : option T) | Miss.
Arguments Hit {T} v.
Arguments Miss {T}.

Module TempCache.
Notation key := (TypeId * option SlotKey)%type.

Section TempCache.
Context {A : AnyType}.

Record t : Type := mk {
  cache : gmap key (option (Any * N));
  memory_size : N
}.

Definition new : t := mk ∅ 0.

(** [downcast_ref] expects that the value has the type of its key. *)
Definition get (ty : TypeId) (slot_key : option SlotKey) (c : t) : option (CacheLookup Any) :=
  match cache c !! (ty, slot_key) with
  | None => Some Miss
  | Some None => Some (Hit None)
  | Some (Some (v, _)) => if decide (type_id v = ty) then Some (Hit (Some v)) else None
  end.

(** [self.memory_size -= prev_size] for the entry that was replaced. *)
Definition release (prev : option (option (Any * N))) (size : N) : option N :=
  match prev with Some (Some (_, prev_size)) => checked_sub size prev_size | _ => Some size end.

(** [self.memory_size += size], of the type usize. *)
Definition grow (n size : N) : option N := checked_add u64_max size n.

Definition set (slot_key : option SlotKey) (v : Any) (c : t) : option t :=
  let k := (type_id v, slot_key) in
  let? m := release (cache c !! k) (memory_size c) in
  let? m := grow (serialized_size v) m in
  Some (mk (<[k := Some (v, serialized_size v)]> (cache c)) m).

Definition delete (ty : TypeId) (slot_key : option SlotKey) (c : t) : option t :=
  let? m := release (cache c !! (ty, slot_key)) (memory_size c) in
  Some (mk (<[(ty, slot_key) := None]> (cache c)) m).

Fixpoint update_entries (es : list (key * option (Any * N))) (c : t) : option t :=
  match es with
  | [] => Some c
  | (k, v) :: es' =>
      let new_size := match v with Some (_, n) => n | None => 0 end in
      let? m := release (cache c !! k) (memory_size c) in
      let? m := grow new_size m in
      update_entries es' (mk (<[k := v]> (cache c)) m)
  end.

Definition update_with (other c : t) : option t := update_entries (map_to_list (cache other)) c.

Definition prune (c : t) : t := mk (filter (fun e => is_Some e.2) (cache c)) (memory_size c).
End TempCache.
End TempCache.

(** [PerBlockCache], traits.rs *)
Class PerBlockCache `{AnyType} (T : Type) : Type := {
  get_cached : TypeId -> option SlotKey -> T -> option (option Any);
  put_cached : option SlotKey -> Any -> T -> option T;
  delete_cached : TypeId -> option SlotKey -> T -> option T;
  update_cache_with : TempCache.t -> T -> option T
}.

(** [EventContainer], sov-state/src/event.rs *)
Class EventContainer (Event T : Type) : Type := { add_type_erased_event : Event -> T -> T }.

(** ** [RevertableWriter], internals.rs *)
Module RevertableWriter.
Section RevertableWriter.
Context {A : AnyType} {T : Type} {Acc : UniversalStateAccessor T} {PBC : PerBlockCache T}.

Record t : Type := mk {
  inner : T;
  writes : gmap (SlotKey * Namespace) (option SlotValue);
  cache_writes : TempCache.t
}.

Definition new (inner : T) : t := mk inner ∅ TempCache.new.

Definition commit_entry (ns : Namespace) (key : SlotKey) (v : option SlotValue) (inner : T) : option T :=
  match v with Some v => set_value ns key v inner | None => delete_value ns key inner end.

(** The loop of [commit], over the entries of the map in some order. *)
Fixpoint commit_entries (es : list ((SlotKey * Namespace) * option SlotValue)) (inner : T) : option T :=
  match es with
  | [] => Some inner
  | ((key, ns), v) :: es' => let? inner := commit_entry ns key v inner in commit_entries es' inner
  end.

Definition commit (w : t) : option T :=
  let? inner := commit_entries (map_to_list (writes w)) (inner w) in
  update_cache_with (cache_writes w) inner.

Definition revert (w : t) : T := inner w.

Definition with_inner (w : t) (i : T) : t := mk i (writes w) (cache_writes w).

#[global] Instance accessor : UniversalStateAccessor t := {|
  get_size := fun ns key w =>
    match writes w !! (key, ns) with
    | Some v => let? n := Delta.opt_size v in Some (n, w)
    | None => let? (n, i) := get_size ns key (inner w) in Some (n, with_inner w i)
    end;
  get_value := fun ns key w =>
    match writes w !! (key, ns) with
    | Some v => Some (v, w)
    | None => let? (v, i) := get_value ns key (inner w) in Some (v, with_inner w i)
    end;
  set_value := fun ns key v w => Some (mk (inner w) (<[(key, ns) := Some v]> (writes w)) (cache_writes w));
  delete_value := fun ns key w => Some (mk (inner w) (<[(key, ns) := None]> (writes w)) (cache_writes w))
|}.

(** [PerBlockCache] of the layers above a [RevertableWriter]: the scratchpad and the
    working set. *)
#[global] Instance per_block_cache : PerBlockCache t := {|
  get_cached := fun ty key w =>
    let? r := TempCache.get ty key (cache_writes w) in
    match r with Hit v => Some v | Miss => get_cached ty key (inner w) end;
  put_cached := fun key v w =>
    let? c := TempCache.set key v (cache_writes w) in Some (mk (inner w) (writes w) c);
  delete_cached := fun ty key w =>
    let? c := TempCache.delete ty key (cache_writes w) in Some (mk (inner w) (writes w) c);
  update_cache_with := fun other w =>
    let? c := TempCache.update_with other (cache_writes w) in Some (mk (inner w) (writes w) c)
|}.
End RevertableWriter.
Arguments t {A} T.
End RevertableWriter.

(** ** [StateCheckpoint], checkpoints.rs *)
Module StateCheckpoint.
Section StateCheckpoint.
Context {A : AnyType} {St : Type} {Sto : Storage St}.

Record t : Type := mk {
  delta : Delta.t (St := St);
  visible_slot_num : N;
  rollup_height : N;
  cache : TempCache.t
}.

Definition with_delta (c : t) (d : Delta.t) : t := mk d (visible_slot_num c) (rollup_height c) (cache c).
Definition with_cache (c : t) (tc : TempCache.t) : t := mk (delta c) (visible_slot_num c) (rollup_height c) tc.

Definition commit_revertable_storage_cache (c : t) : option t :=
  let? d := Delta.commit_revertable_storage_cache (delta c) in Some (with_delta c d).

Definition discard_revertable_storage_cache (c : t) : t :=
  with_delta c (Delta.discard_revertable_storage_cache (delta c)).

#[global] Instance accessor : UniversalStateAccessor t := {|
  get_size := fun ns key c => let? (n, d) := Delta.get_size ns key (delta c) in Some (n, with_delta c d);
  get_value := fun ns key c => let? (v, d) := Delta.get ns key (delta c) in Some (v, with_delta c d);
  set_value := fun ns key v c => let? d := Delta.set ns key v (delta c) in Some (with_delta c d);
  delete_value := fun ns key c => let? d := Delta.delete ns key (delta c) in Some (with_delta c d)
|}.

#[global] Instance per_block_cache : PerBlockCache t := {|
  get_cached := fun ty key c =>
    let? r := TempCache.get ty key (cache c) in
    match r with Hit v => Some v | Miss => Some None end;
  put_cached := fun key v c => let? t := TempCache.set key v (cache c) in Some (with_cache c t);
  delete_cached := fun ty key c => let? t := TempCache.delete ty key (cache c) in Some (with_cache c t);
  update_cache_with := fun other c =>
    let? t := TempCache.update_with other (cache c) in Some (with_cache c (TempCache.prune t))
|}.

(** [apply_changes] and [apply_tx_changes] *)
Fixpoint apply_changes (changes : list ((SlotKey * Namespace) * option SlotValue)) (c : t) : option t :=
  match changes with
  | [] => Some c
  | ((key, ns), v) :: changes' =>
      let? c := match v with Some v => set_value ns key v c | None => delete_value ns key c end in
      apply_changes changes' c
  end.
End StateCheckpoint.
Arguments t {A} St.
End StateCheckpoint.

(** ** The layers of a transaction, scratchpad/ *)
Module Tx.
Section Tx.
Context {A : AnyType} {I : Type} {Acc : UniversalStateAccessor I} {PBC : PerBlockCache I}.

(** [TxScratchpad]; its accessors delegate to the [RevertableWriter]. *)
Definition TxScratchpad : Type := RevertableWriter.t I.
Definition to_tx_scratchpad (i : I) : TxScratchpad := RevertableWriter.new i.
Definition commit (s : TxScratchpad) : option I := RevertableWriter.commit s.
Definition revert (s : TxScratchpad) : I := RevertableWriter.revert s.

(** [PreExecWorkingSet] *)
Record PreExecWorkingSet : Type := mkPre { pre_inner : TxScratchpad; pre_gas_meter : BasicGasMeter.t }.

Definition to_pre_exec_working_set (m : BasicGasMeter.t) (s : TxScratchpad) : PreExecWorkingSet := mkPre s m.

Definition to_scratchpad_and_gas_meter (p : PreExecWorkingSet) : TxScratchpad * BasicGasMeter.t :=
  (pre_inner p, pre_gas_meter p).

Definition pre_commit (p : PreExecWorkingSet) : option PreExecWorkingSet :=
  let? i := commit (pre_inner p) in
  Some (to_pre_exec_working_set (pre_gas_meter p) (to_tx_scratchpad i)).

Definition pre_revert (p : PreExecWorkingSet) : TxScratchpad * BasicGasMeter.t :=
  (to_tx_scratchpad (revert (pre_inner p)), pre_gas_meter p).

#[global] Instance pre_accessor : UniversalStateAccessor PreExecWorkingSet := {|
  get_size := fun ns key p =>
    let? (n, s) := get_size ns key (pre_inner p) in Some (n, mkPre s (pre_gas_meter p));
  get_value := fun ns key p =>
    let? (v, s) := get_value ns key (pre_inner p) in Some (v, mkPre s (pre_gas_meter p));
  set_value := fun ns key v p =>
    let? s := set_value ns key v (pre_inner p) in Some (mkPre s (pre_gas_meter p));
  delete_value := fun ns key p =>
    let? s := delete_value ns key (pre_inner p) in Some (mkPre s (pre_gas_meter p))
|}.

(** [WorkingSet] *)
Record WorkingSet (Event : Type) : Type := mkWs {
  ws_delta : RevertableWriter.t TxScratchpad;
  ws_events : list Event;
  ws_gas_meter : BasicGasMeter.t;
  ws_max_fee : N;
  ws_max_priority_fee_bips : N
}.
Arguments mkWs {Event} _ _ _ _ _.
Arguments ws_delta {Event} _.
Arguments ws_events {Event} _.
Arguments ws_gas_meter {Event} _.
Arguments ws_max_fee {Event} _.
Arguments ws_max_priority_fee_bips {Event} _.

Context {Event : Type}.

Definition create_working_set (scratchpad : TxScratchpad) (max_fee max_priority_fee_bips : N)
    (meter : BasicGasMeter.t) : WorkingSet Event :=
  mkWs (RevertableWriter.new scratchpad) [] meter max_fee max_priority_fee_bips.

Definition ws_consumption (ws : WorkingSet Event) : option TransactionConsumption :=
  transaction_consumption (ws_gas_meter ws) (ws_max_fee ws) (ws_max_priority_fee_bips ws).

Definition finalize (ws : WorkingSet Event) : option (TxScratchpad * TransactionConsumption * list Event) :=
  let? reward := ws_consumption ws in
  let? s := RevertableWriter.commit (ws_delta ws) in
  Some (s, reward, ws_events ws).

Definition ws_revert (ws : WorkingSet Event) : option (TxScratchpad * TransactionConsumption) :=
  let? c := ws_consumption ws in
  Some (RevertableWriter.revert (ws_delta ws), c).

Definition with_ws_delta (ws : WorkingSet Event) d : WorkingSet Event :=
  mkWs d (ws_events ws) (ws_gas_meter ws) (ws_max_fee ws) (ws_max_priority_fee_bips ws).

#[global] Instance ws_accessor : UniversalStateAccessor (WorkingSet Event) := {|
  get_size := fun ns key ws =>
    let? (n, d) := get_size ns key (ws_delta ws) in Some (n, with_ws_delta ws d);
  get_value := fun ns key ws =>
    let? (v, d) := get_value ns key (ws_delta ws) in Some (v, with_ws_delta ws d);
  set_value := fun ns key v ws =>
    let? d := set_value ns key v (ws_delta ws) in Some (with_ws_delta ws d);
  delete_value := fun ns key ws =>
    let? d := delete_value ns key (ws_delta ws) in Some (with_ws_delta ws d)
|}.

#[global] Instance ws_cache : PerBlockCache (WorkingSet Event) := {|
  get_cached := fun ty key ws => get_cached ty key (ws_delta ws);
  put_cached := fun key v ws =>
    let? d := put_cached key v (ws_delta ws) in Some (with_ws_delta ws d);
  delete_cached := fun ty key ws =>
    let? d := delete_cached ty key (ws_delta ws) in Some (with_ws_delta ws d);
  update_cache_with := fun other ws =>
    let? d := update_cache_with other (ws_delta ws) in Some (with_ws_delta ws d)
|}.

#[global] Instance ws_events_container : EventContainer Event (WorkingSet Event) := {|
  add_type_erased_event := fun e ws =>
    mkWs (ws_delta ws) (ws_events ws ++ [e]) (ws_gas_meter ws) (ws_max_fee ws) (ws_max_priority_fee_bips ws)
|}.
End Tx.
Arguments TxScratchpad {A} I.
Arguments WorkingSet {A} I Event.
Arguments mkWs {A I Event} _ _ _ _ _.
Arguments ws_delta {A I Event} _.
Arguments ws_events {A I Event} _.
Arguments ws_gas_meter {A I Event} _.
Arguments ws_max_fee {A I Event} _.
Arguments ws_max_priority_fee_bips {A I Event} _.
Arguments PreExecWorkingSet {A} I.
End Tx.

(** [RevertableTxState], revertable_tx_state.rs *)
Module RevertableTxState.
Section RevertableTxState.
Context {A : AnyType} {Event I : Type} {Acc : UniversalStateAccessor I} {PBC : PerBlockCache I}
  {Events : EventContainer Event I}.

Record t : Type := mk {
  inner : I;
  events : list Event;
  temp_cache : TempCache.t;
  writes : gmap (Namespace * SlotKey) (option SlotValue)
}.

Definition new (i : I) : t := mk i [] TempCache.new ∅.

Fixpoint commit_writes (es : list ((Namespace * SlotKey) * option SlotValue)) (i : I) : option I :=
  match es with
  | [] => Some i
  | ((ns, key), v) :: es' =>
      let? i := match v with Some v => set_value ns key v i | None => delete_value ns key i end in
      commit_writes es' i
  end.

Definition commit (s : t) : option I :=
  let i := foldl (fun i e => add_type_erased_event e i) (inner s) (events s) in
  let? i := commit_writes (map_to_list (writes s)) i in
  update_cache_with (temp_cache s) i.

Definition revert (s : t) : I := inner s.

Definition with_inner (s : t) (i : I) : t := mk i (events s) (temp_cache s) (writes s).

#[global] Instance accessor : UniversalStateAccessor t := {|
  get_size := fun ns key s =>
    match writes s !! (ns, key) with
    | Some v => let? n := Delta.opt_size v in Some (n, s)
    | None => let? (n, i) := get_size ns key (inner s) in Some (n, with_inner s i)
    end;
  get_value := fun ns key s =>
    match writes s !! (ns, key) with
    | Some v => Some (v, s)
    | None => let? (v, i) := get_value ns key (inner s) in Some (v, with_inner s i)
    end;
  set_value := fun ns key v s => Some (mk (inner s) (events s) (temp_cache s) (<[(ns, key) := Some v]> (writes s)));
  delete_value := fun ns key s => Some (mk (inner s) (events s) (temp_cache s) (<[(ns, key) := None]> (writes s)))
|}.

Definition with_temp_cache (s : t) (c : TempCache.t) : t := mk (inner s) (events s) c (writes s).

#[global] Instance per_block_cache : PerBlockCache t := {|
  get_cached := fun ty key s =>
    let? r := TempCache.get ty key (temp_cache s) in
    match r with Hit v => Some v | Miss => get_cached ty key (inner s) end;
  put_cached := fun key v s => let? c := TempCache.set key v (temp_cache s) in Some (with_temp_cache s c);
  delete_cached := fun ty key s => let? c := TempCache.delete ty key (temp_cache s) in Some (with_temp_cache s c);
  update_cache_with := fun other s =>
    let? c := TempCache.update_with other (temp_cache s) in Some (with_temp_cache s c)
|}.

#[global] Instance container : EventContainer Event t := {|
  add_type_erased_event := fun e s => mk (inner s) (events s ++ [e]) (temp_cache s) (writes s)
|}.
End RevertableTxState.
Arguments t {A} Event I.
End RevertableTxState.

(** ** [AccessoryDelta], internals.rs *)
Module AccessoryDelta.
Section AccessoryDelta.
Context {St : Type} {Sto : Storage St}.

Record t : Type := mk {
  writes : gmap SlotKey (option SlotValue);
  uncommitted_changes : option StateGetter;
  storage : St
}.

(** [Delta::freeze] and [take_accessory_delta] move the writes into it. *)
Definition of_delta (d : Delta.t (St := St)) : t :=
  mk (Delta.accessory_writes d) (Delta.uncommitted_changes d) (Delta.inner d).

Definition freeze (d : t) : list (SlotKey * option SlotValue) := map_to_list (writes d).

Definition fetch (ns : Namespace) (key : SlotKey) (d : t) : option (option SlotValue) :=
  match uncommitted_changes d with
  | Some changes => or_else (getter_get changes ns key) (get_accessory (storage d) key)
  | None => get_accessory (storage d) key
  end.

#[global] Instance accessor : UniversalStateAccessor t := {|
  get_size := fun ns key d =>
    match writes d !! key with
    | Some v => let? n := Delta.opt_size v in Some (n, d)
    | None => let? v := fetch ns key d in let? n := Delta.opt_size v in Some (n, d)
    end;
  get_value := fun ns key d =>
    match writes d !! key with
    | Some v => Some (v, d)
    | None => let? v := fetch ns key d in let? _ := Delta.opt_size v in Some (v, d)
    end;
  set_value := fun _ key v d => Some (mk (<[key := Some v]> (writes d)) (uncommitted_changes d) (storage d));
  delete_value := fun _ key d => Some (mk (<[key := None]> (writes d)) (uncommitted_changes d) (storage d))
|}.
End AccessoryDelta.
Arguments t St : clear implicits.
End AccessoryDelta.
