(* ===== verification/StateLayersProofs.v ===== *)
(** * What the layers of accessors promise

    [LayerLaws] is the contract of a layer: it stands for a map of values and a map of
    cached values, of which its operations are the obvious ones.  The checkpoint meets
    it, and every [RevertableWriter] over a layer that meets it does; committing keeps
    what the writer stands for, and reverting goes back to the layer below. *)

From Stdlib Require Import NArith Lia.
From stdpp Require Import base numbers gmap option list fin_maps.
From S2P Require Import Prelude Ints Gas StateAccess SlotKey StateCache StateCacheProofs StateStorage ZkReplay StateRefines StateLayers.

Definition full_map : Type := Namespace -> SlotKey -> option SlotValue.

Definition put_full (ns : Namespace) (key : SlotKey) (v : option SlotValue) (m : full_map) : full_map :=
  fun ns' key' => if decide ((ns', key') = (ns, key)) then v else m ns' key'.

(** ** The temporary cache *)
Module TempCacheFacts.
Section Facts.
Context {A : AnyType}.
Import TempCache.

Definition cache_map : Type := TypeId -> option SlotKey -> option Any.

Definition put_cache (ty : TypeId) (key : option SlotKey) (v : option Any) (m : cache_map) : cache_map :=
  fun ty' key' => if decide ((ty', key') = (ty, key)) then v else m ty' key'.

Definition entry_size (_ : key) (e : option (Any * N)) : N :=
  match e with Some (_, n) => n | None => 0 end.

Definition entry_ok (k : key) (e : option (Any * N)) : Prop :=
  match e with Some (v, n) => type_id v = k.1 | None => True end.

(** The counter is the size of the values, and values have the types of their keys. *)
Record tc_ok (c : t) : Prop := mkTcOk {
  tc_size : memory_size c = map_sum entry_size (cache c);
  tc_types : map_Forall entry_ok (cache c);
  tc_fits : memory_size c <= u64_max
}.

(** What the cache has for a key: nothing, or a value that may be deleted. *)
Definition lookup_tc (c : t) (ty : TypeId) (k : option SlotKey) : option (option Any) :=
  match cache c !! (ty, k) with
  | None => None
  | Some None => Some None
  | Some (Some (v, _)) => Some (Some v)
  end.

Lemma tc_new_ok : tc_ok new.
Proof. split; cbn; [by rewrite map_sum_empty|apply map_Forall_empty|lia]. Qed.

Lemma get_ok c ty k : tc_ok c ->
  get ty k c = Some (match lookup_tc c ty k with Some v => Hit v | None => Miss end).
Proof.
  intros Hc. unfold get, lookup_tc. destruct (cache c !! (ty, k)) as [[[v n]|]|] eqn:Hk; cbn; [|done..].
  pose proof (tc_types _ Hc _ _ Hk) as Ht. cbn in Ht. by rewrite decide_True.
Qed.

Lemma insert_ok c k e : tc_ok c -> entry_ok k e -> memory_size c + entry_size k e <= u64_max ->
  exists m, release (cache c !! k) (memory_size c) = Some m /\
    grow (entry_size k e) m = Some (m + entry_size k e) /\
    tc_ok (mk (<[k := e]> (cache c)) (m + entry_size k e)) /\ m <= memory_size c.
Proof.
  intros Hc He Hsize. pose proof (map_sum_insert entry_size (cache c) k e) as Hsum.
  pose proof (map_sum_opt_val_le entry_size (cache c) k) as Hle. rewrite <- (tc_size _ Hc) in Hle, Hsum.
  assert (exists m, release (cache c !! k) (memory_size c) = Some m /\
    m + opt_val entry_size (cache c) k = memory_size c) as (m & Hm & Hadd).
  { unfold release, opt_val in *. destruct (cache c !! k) as [[[v n]|]|]; cbn in *.
    - unfold checked_sub. rewrite (proj2 (N.leb_le _ _)) by lia. eexists. split; [done|]. lia.
    - eexists. split; [done|]. lia.
    - eexists. split; [done|]. lia. }
  exists m. split_and!; [done| |split; cbn|lia].
  - unfold grow, checked_add. rewrite (proj2 (N.leb_le _ _)) by lia. by rewrite N.add_comm.
  - lia.
  - apply map_Forall_insert_2; [done|apply Hc].
  - lia.
Qed.

Lemma lookup_tc_insert c k e m ty key :
  lookup_tc (mk (<[k := e]> (cache c)) m) ty key =
  if decide ((ty, key) = k) then Some (match e with Some (v, _) => Some v | None => None end)
  else lookup_tc c ty key.
Proof.
  unfold lookup_tc. cbn. case_decide as Hk.
  - subst k. rewrite lookup_insert_eq. by destruct e as [[]|].
  - by rewrite lookup_insert_ne.
Qed.

Lemma set_ok c k v : tc_ok c -> memory_size c + serialized_size v <= u64_max ->
  exists c', set k v c = Some c' /\ tc_ok c' /\ memory_size c' <= memory_size c + serialized_size v /\
    forall ty key, lookup_tc c' ty key =
      if decide ((ty, key) = (type_id v, k)) then Some (Some v) else lookup_tc c ty key.
Proof.
  intros Hc Hs. destruct (insert_ok c (type_id v, k) (Some (v, serialized_size v)) Hc) as (m & Hm & Hg & Hok & Hle);
    [done|done|]. unfold set. cbv zeta. rewrite Hm. cbn in Hg. rewrite Hg. eexists. split_and!; [done|done|cbn in *; lia|].
  intros ty key. by rewrite lookup_tc_insert.
Qed.

Lemma delete_ok c ty k : tc_ok c ->
  exists c', delete ty k c = Some c' /\ tc_ok c' /\ memory_size c' <= memory_size c /\
    forall ty' key, lookup_tc c' ty' key =
      if decide ((ty', key) = (ty, k)) then Some None else lookup_tc c ty' key.
Proof.
  intros Hc. pose proof (tc_fits _ Hc) as Hf.
  destruct (insert_ok c (ty, k) None Hc) as (m & Hm & Hg & Hok & Hle); [done|cbn; lia|].
  unfold delete. rewrite Hm. cbn in Hok. rewrite N.add_0_r in Hok. eexists. split_and!; [done|done|done|].
  intros ty' key. by rewrite lookup_tc_insert.
Qed.

Definition entries_size (es : list (key * option (Any * N))) : N :=
  foldr (fun e acc => entry_size e.1 e.2 + acc) 0 es.

Lemma update_entries_ok es : forall c,
  Forall (fun e => entry_ok e.1 e.2) es -> NoDup es.*1 -> tc_ok c ->
  memory_size c + entries_size es <= u64_max ->
  exists c', update_entries es c = Some c' /\ tc_ok c' /\
    memory_size c' <= memory_size c + entries_size es /\ cache c' = list_to_map es ∪ cache c.
Proof.
  induction es as [|[k e] es IH]; intros c Hes Hd Hc Hs; cbn [update_entries entries_size foldr] in *.
  - exists c. split_and!; [done|done|lia|]. cbn. by rewrite (left_id_L ∅ (∪)).
  - apply Forall_cons in Hes as [He Hes]. apply NoDup_cons in Hd as [Hk Hd]. cbn [fst snd] in *.
    destruct (insert_ok c k e Hc He) as (m & Hm & Hg & Hok & Hle);
      [unfold entries_size in Hs; lia|].
    rewrite Hm. cbv zeta. unfold entry_size in Hg. rewrite Hg.
    destruct (IH _ Hes Hd Hok) as (c' & Hc' & Hok' & Hle' & Heq);
      [cbn [memory_size]; unfold entries_size in *; lia|].
    exists c'. split_and!; [done|done|cbn [memory_size] in *; unfold entries_size in *; lia|].
    rewrite Heq, list_to_map_cons. cbn [cache].
    rewrite <- insert_union_l, <- insert_union_r; [done|]. by apply not_elem_of_list_to_map_1.
Qed.

Lemma update_ok c other : tc_ok c -> tc_ok other -> memory_size c + memory_size other <= u64_max ->
  exists c', update_with other c = Some c' /\ tc_ok c' /\
    memory_size c' <= memory_size c + memory_size other /\
    forall ty k, lookup_tc c' ty k =
      match lookup_tc other ty k with Some v => Some v | None => lookup_tc c ty k end.
Proof.
  intros Hc Ho Hs. unfold update_with.
  assert (entries_size (map_to_list (cache other)) = memory_size other) as Hsize.
  { rewrite (tc_size _ Ho). unfold map_sum. rewrite map_fold_foldr. unfold entries_size.
    induction (map_to_list (cache other)) as [|[k e] l IH]; [done|]. cbn in *. by rewrite IH. }
  destruct (update_entries_ok (map_to_list (cache other)) c) as (c' & Hc' & Hok & Hle & Heq).
  - apply Forall_forall. intros [k e] Hin. apply elem_of_map_to_list in Hin. by apply (tc_types _ Ho).
  - apply NoDup_fst_map_to_list.
  - done.
  - by rewrite Hsize.
  - exists c'. rewrite Hsize in Hle. split_and!; [done..|]. intros ty k. unfold lookup_tc.
    rewrite Heq, list_to_map_to_list. rewrite lookup_union.
    destruct (cache other !! (ty, k)) as [[[]|]|], (cache c !! (ty, k)) as [[[]|]|]; done.
Qed.

Lemma prune_ok c : tc_ok c ->
  tc_ok (prune c) /\ forall ty k, lookup_tc (prune c) ty k =
    match lookup_tc c ty k with Some (Some v) => Some (Some v) | _ => None end.
Proof.
  intros Hc. split; [split|].
  - cbn. rewrite (tc_size _ Hc). generalize (cache c). intros m.
    induction m as [|k e m Hk IH] using map_ind; [by rewrite map_filter_empty|].
    rewrite map_sum_insert_new by done. destruct e as [[v n]|].
    + rewrite map_filter_insert_True by (by eexists).
      rewrite map_sum_insert_new by (apply map_lookup_filter_None; by left). by rewrite IH.
    + rewrite map_filter_insert_False by (cbn; intros [? ?]; done).
      rewrite delete_id by done. cbn. exact IH.
  - intros k e Hk. cbn in Hk. apply map_lookup_filter_Some in Hk as [Hk _]. by apply (tc_types _ Hc).
  - apply (tc_fits _ Hc).
  - intros ty k. unfold lookup_tc. cbn. rewrite map_lookup_filter.
    destruct (cache c !! (ty, k)) as [[[v n]|]|] eqn:Hk; cbn; [|done|done].
    by rewrite option_guard_True by (by eexists).
Qed.
End Facts.
End TempCacheFacts.
Import TempCacheFacts.

(** ** The contract of a layer

    [reads t t'] says that [t'] is [t] after some reads. *)
Class LayerLaws {A : AnyType} (T : Type) {Acc : UniversalStateAccessor T} {PBC : PerBlockCache T} : Type := {
  valid : T -> Prop;
  covered : Namespace -> Prop;
  view : T -> full_map;
  cview : T -> cache_map;
  mem : T -> N;
  same : T -> T -> Prop := fun t t' => valid t' /\ mem t' <= mem t /\
    (forall ns k, covered ns -> view t' ns k = view t ns k) /\ (forall ty k, cview t' ty k = cview t ty k);
  reads : T -> T -> Prop;
  reads_same : forall t t', valid t -> reads t t' -> same t t';
  reads_refl : forall t, valid t -> reads t t;
  reads_trans : forall t1 t2 t3, reads t1 t2 -> reads t2 t3 -> reads t1 t3;
  size_law : forall t ns key, valid t -> covered ns ->
    exists t', get_size ns key t = Some (len <$> view t ns key, t') /\ reads t t';
  value_law : forall t ns key, valid t -> covered ns ->
    exists t', get_value ns key t = Some (view t ns key, t') /\ reads t t';
  set_law : forall t ns key v, valid t -> fits v ->
    exists t', set_value ns key v t = Some t' /\ valid t' /\ mem t' <= mem t /\
      (forall ns' k, covered ns' -> view t' ns' k = put_full ns key (Some v) (view t) ns' k) /\
      (forall ty k, cview t' ty k = cview t ty k);
  delete_law : forall t ns key, valid t ->
    exists t', delete_value ns key t = Some t' /\ valid t' /\ mem t' <= mem t /\
      (forall ns' k, covered ns' -> view t' ns' k = put_full ns key None (view t) ns' k) /\
      (forall ty k, cview t' ty k = cview t ty k);
  cached_law : forall t ty k, valid t -> get_cached ty k t = Some (cview t ty k);
  put_law : forall t k v, valid t -> mem t + serialized_size v <= u64_max ->
    exists t', put_cached k v t = Some t' /\ valid t' /\ mem t' <= mem t + serialized_size v /\
      (forall ns' k', covered ns' -> view t' ns' k' = view t ns' k') /\
      (forall ty k', cview t' ty k' = put_cache (type_id v) k (Some v) (cview t) ty k');
  uncache_law : forall t ty k, valid t ->
    exists t', delete_cached ty k t = Some t' /\ valid t' /\ mem t' <= mem t /\
      (forall ns' k', covered ns' -> view t' ns' k' = view t ns' k') /\
      (forall ty' k', cview t' ty' k' = put_cache ty k None (cview t) ty' k');
  update_law : forall t other, valid t -> tc_ok other -> mem t + TempCache.memory_size other <= u64_max ->
    exists t', update_cache_with other t = Some t' /\ valid t' /\
      mem t' <= mem t + TempCache.memory_size other /\
      (forall ns' k', covered ns' -> view t' ns' k' = view t ns' k') /\
      (forall ty k', cview t' ty k' = match lookup_tc other ty k' with Some v => v | None => cview t ty k' end)
}.

Lemma put_full_ext ns key v (m1 m2 : full_map) ns' k :
  m1 ns' k = m2 ns' k -> put_full ns key v m1 ns' k = put_full ns key v m2 ns' k.
Proof. unfold put_full. by case_decide. Qed.

Lemma put_cache_ext `{AnyType} ty key v (m1 m2 : cache_map) ty' k :
  m1 ty' k = m2 ty' k -> put_cache ty key v m1 ty' k = put_cache ty key v m2 ty' k.
Proof. unfold put_cache. by case_decide. Qed.

(** ** A writer over a layer *)
Module WriterLaws.
Section Writer.
Context {A : AnyType} {T : Type} {Acc : UniversalStateAccessor T} {PBC : PerBlockCache T} {L : LayerLaws T}.
Import RevertableWriter.

Definition w_valid (w : t T) : Prop :=
  valid (inner w) /\ tc_ok (cache_writes w) /\ mem (inner w) + TempCache.memory_size (cache_writes w) <= u64_max /\
  forall k v, writes w !! k = Some (Some v) -> fits v.

Definition w_view (w : t T) : full_map :=
  fun ns key => match writes w !! (key, ns) with Some v => v | None => view (inner w) ns key end.

Definition w_cview (w : t T) : cache_map :=
  fun ty key => match lookup_tc (cache_writes w) ty key with Some v => v | None => cview (inner w) ty key end.

Definition w_mem (w : t T) : N := mem (inner w) + TempCache.memory_size (cache_writes w).

Lemma w_write_fits (w : t T) k v :
  (forall k v, writes w !! k = Some (Some v) -> fits v) -> (forall x, v = Some x -> fits x) ->
  forall k' x, <[k := v]> (writes w) !! k' = Some (Some x) -> fits x.
Proof.
  intros Hw Hv k' x. destruct (decide (k' = k)) as [->|Hne].
  - rewrite lookup_insert_eq. intros [= ->]. by apply Hv.
  - rewrite lookup_insert_ne by done. apply Hw.
Qed.

Lemma w_view_write (i : T) m c ns key v ns' k :
  w_view (mk i (<[(key, ns) := v]> m) c) ns' k = put_full ns key v (w_view (mk i m c)) ns' k.
Proof.
  unfold w_view, put_full. cbn. case_decide as Hk.
  - simplify_eq. by rewrite lookup_insert_eq.
  - rewrite lookup_insert_ne; [done|]. intros ?. simplify_eq.
Qed.

(** The writes of a writer do not change with a read. *)
Definition w_reads (w w' : t T) : Prop :=
  writes w' = writes w /\ cache_writes w' = cache_writes w /\ reads (inner w) (inner w').

Lemma w_inner (w : t T) t' :
  w_valid w -> reads (inner w) t' ->
  w_valid (with_inner w t') /\ w_mem (with_inner w t') <= w_mem w /\
  (forall ns k, covered ns -> w_view (with_inner w t') ns k = w_view w ns k) /\
  (forall ty k, w_cview (with_inner w t') ty k = w_cview w ty k).
Proof.
  intros (Hi & Hc & Hm & Hf) Hrd. destruct (reads_same _ _ Hi Hrd) as (Hv & Hle & Hvw & Hcv).
  unfold w_mem. cbn. split_and!.
  - split_and!; cbn; [done|done|lia|done].
  - lia.
  - intros ns k Hns. unfold w_view. cbn. destruct (writes w !! (k, ns)); [done|]. by apply Hvw.
  - intros ty k. unfold w_cview. cbn. by rewrite Hcv.
Qed.

#[global] Program Instance writer_laws : LayerLaws (t T) := {|
  valid := w_valid; covered := covered; view := w_view; cview := w_cview; mem := w_mem; reads := w_reads
|}.
Next Obligation.
  intros w w' Hw (Hwr & Hcw & Hrd). destruct w' as [i ws cs]. cbn in *. subst ws cs. by apply (w_inner w i).
Qed.
Next Obligation. intros w (Hi & _). split_and!; [done..|]. by apply reads_refl. Qed.
Next Obligation.
  intros w1 w2 w3 (H1 & H2 & H3) (H4 & H5 & H6). split_and!; [congruence..|]. by eapply reads_trans.
Qed.
Next Obligation.
  intros w ns key Hw Hns. cbn. unfold w_view at 1. destruct (writes w !! (key, ns)) as [v|] eqn:Hk.
  - exists w. destruct Hw as (Hi & Hc & Hm & Hf). assert (Delta.opt_size v = Some (len <$> v)) as ->.
    { destruct v as [v|]; [|done]. cbn. by rewrite size_fits by (by eapply Hf). }
    split; [done|]. split_and!; [done..|]. by apply reads_refl.
  - destruct (size_law _ ns key (proj1 Hw) Hns) as (t' & -> & Hs). eexists. split; [done|]. by split_and!.
Qed.
Next Obligation.
  intros w ns key Hw Hns. cbn. unfold w_view at 1. destruct (writes w !! (key, ns)) as [v|] eqn:Hk.
  - exists w. split; [done|]. split; [done|]. split; [done|]. apply reads_refl, Hw.
  - destruct (value_law _ ns key (proj1 Hw) Hns) as (t' & -> & Hs). eexists. split; [done|]. by split_and!.
Qed.
Next Obligation.
  intros w ns key v (Hi & Hc & Hm & Hf) Hv. eexists. split; [done|]. split_and!; [split_and!| |..]; try done.
  - apply w_write_fits; [done|]. by intros x [= <-].
  - intros ns' k _. destruct w. apply w_view_write.
Qed.
Next Obligation.
  intros w ns key (Hi & Hc & Hm & Hf). eexists. split; [done|]. split_and!; [split_and!| |..]; try done.
  - by apply w_write_fits.
  - intros ns' k _. destruct w. apply w_view_write.
Qed.
Next Obligation.
  intros w ty k (Hi & Hc & Hm & Hf). cbn. rewrite (get_ok _ _ _ Hc). unfold w_cview.
  destruct (lookup_tc (cache_writes w) ty k); [done|]. by apply cached_law.
Qed.
Next Obligation.
  intros w k v (Hi & Hc & Hm & Hf) Hs. cbn in *. unfold w_mem in *.
  destruct (set_ok (cache_writes w) k v Hc) as (c' & -> & Hc' & Hle & Hl); [lia|].
  eexists. split; [done|]. split_and!; [split_and!; cbn; try done; lia|cbn; lia|done|].
  intros ty k'. unfold w_cview, put_cache. cbn. rewrite Hl. by case_decide.
Qed.
Next Obligation.
  intros w ty k (Hi & Hc & Hm & Hf). cbn in *. unfold w_mem in *.
  destruct (delete_ok (cache_writes w) ty k Hc) as (c' & -> & Hc' & Hle & Hl).
  eexists. split; [done|]. split_and!; [split_and!; cbn; try done; lia|cbn; lia|done|].
  intros ty' k'. unfold w_cview, put_cache. cbn. rewrite Hl. by case_decide.
Qed.
Next Obligation.
  intros w other (Hi & Hc & Hm & Hf) Ho Hs. cbn in *. unfold w_mem in *.
  destruct (update_ok (cache_writes w) other Hc Ho) as (c' & -> & Hc' & Hle & Hl); [lia|].
  eexists. split; [done|]. split_and!; [split_and!; cbn; try done; lia|cbn; lia|done|].
  intros ty k'. unfold w_cview. cbn. rewrite Hl. by destruct (lookup_tc other ty k').
Qed.

(** *** Committing and reverting *)

Lemma commit_entries_ok es : forall i : T, valid i -> NoDup es.*1 ->
  (forall k v, (k, Some v) ∈ es -> fits v) ->
  exists i', commit_entries es i = Some i' /\ valid i' /\ mem i' <= mem i /\
    (forall ns k, covered ns -> view i' ns k =
       match (list_to_map es : gmap _ _) !! (k, ns) with Some v => v | None => view i ns k end) /\
    (forall ty k, cview i' ty k = cview i ty k).
Proof.
  induction es as [|[[key ns] v] es IH]; intros i Hi Hd Hf; cbn [commit_entries].
  - exists i. by split_and!.
  - apply NoDup_cons in Hd as [Hk Hd].
    assert (exists i1, commit_entry ns key v i = Some i1 /\ valid i1 /\ mem i1 <= mem i /\
      (forall ns' k, covered ns' -> view i1 ns' k = put_full ns key v (view i) ns' k) /\
      (forall ty k, cview i1 ty k = cview i ty k)) as (i1 & -> & Hi1 & Hm1 & Hv1 & Hc1).
    { destruct v as [v|]; [apply set_law|apply delete_law]; try done. eapply Hf. apply list_elem_of_here. }
    destruct (IH i1 Hi1 Hd) as (i' & -> & Hi' & Hm' & Hv' & Hc').
    { intros k x Hin. eapply Hf. by apply list_elem_of_further. }
    exists i'. split_and!; [done|done|lia| |].
    + intros ns' k Hns. rewrite Hv' by done. rewrite list_to_map_cons.
      destruct (decide ((k, ns') = (key, ns))) as [Heq|Hne].
      * simplify_eq. rewrite lookup_insert_eq, (not_elem_of_list_to_map_1 es) by done.
        rewrite Hv1 by done. unfold put_full. by rewrite decide_True.
      * rewrite lookup_insert_ne by congruence.
        destruct (list_to_map es !! (k, ns')) as [x|]; [done|]. rewrite Hv1 by done.
        unfold put_full. rewrite decide_False; [done|]. intros ?. by simplify_eq.
    + intros ty k. by rewrite Hc', Hc1.
Qed.

(** The entries may come in any order. *)
Lemma commit_any_order (w : t T) es : valid w -> es ≡ₚ map_to_list (writes w) ->
  exists i', commit_entries es (inner w) = Some i' /\ valid i' /\ mem i' <= mem (inner w) /\
    (forall ns k, covered ns -> view i' ns k = view w ns k) /\
    (forall ty k, cview i' ty k = cview (inner w) ty k).
Proof.
  intros (Hi & Hc & Hm & Hf) Hes.
  destruct (commit_entries_ok es (inner w) Hi) as (i' & Hci & Hv' & Hm' & Hvw & Hcv).
  - rewrite Hes. apply NoDup_fst_map_to_list.
  - intros k v Hin. apply (Hf k). rewrite Hes in Hin. by apply elem_of_map_to_list in Hin.
  - exists i'. split_and!; [done..| |done]. intros ns k Hns. rewrite Hvw by done.
    rewrite (list_to_map_proper es (map_to_list (writes w))), list_to_map_to_list; [done| |done].
    rewrite Hes. apply NoDup_fst_map_to_list.
Qed.

Lemma commit_ok (w : t T) : valid w ->
  exists i', commit w = Some i' /\ valid i' /\ mem i' <= mem w /\
    (forall ns k, covered ns -> view i' ns k = view w ns k) /\
    (forall ty k, cview i' ty k = cview w ty k).
Proof.
  intros Hw. destruct (commit_any_order w _ Hw (reflexivity _)) as (i1 & Hci & Hv1 & Hm1 & Hvw1 & Hcv1).
  destruct Hw as (Hi & Hc & Hm & Hf). unfold commit. rewrite Hci.
  destruct (update_law i1 (cache_writes w) Hv1 Hc) as (i' & Hu & Hv' & Hm' & Hvw' & Hcv'); [lia|].
  exists i'. split_and!; [done|done|cbn; unfold w_mem; lia| |].
  - intros ns k Hns. rewrite Hvw' by done. by apply Hvw1.
  - intros ty k. rewrite Hcv'. cbn. unfold w_cview. by rewrite Hcv1.
Qed.

Lemma new_ok (i : T) : valid i -> mem i <= u64_max ->
  valid (new i) /\ mem (new i) = mem i /\
  (forall ns k, view (new i) ns k = view i ns k) /\ (forall ty k, cview (new i) ty k = cview i ty k).
Proof.
  intros Hi Hm. split_and!; [split_and!; cbn; [done|apply tc_new_ok|lia|]|cbn; unfold w_mem; cbn; lia| |].
  - intros k v Hk. by rewrite lookup_empty in Hk.
  - intros ns k. cbn. unfold w_view. cbn. by rewrite lookup_empty.
  - intros ty k. cbn. unfold w_cview, lookup_tc. cbn. by rewrite lookup_empty.
Qed.
End Writer.
End WriterLaws.

(** ** The checkpoint of a node is a layer *)
Module CheckpointLaws.
Section Checkpoint.
Import StateStorage StateRefines ZkReplay.
Context {A : AnyType} {Hs : Hasher} {J : Jmt} {Codec : HintCodec}.
Context (db : StateDb) (Hfits : forall ns key v, read_value db ns key None = Some v -> fits v).
Notation checkpoint := (StateCheckpoint.t StateDb).

(** The current map of a namespace. *)
Definition cache_view (ns : ProvableNamespace) (c : Cache.t) (key : SlotKey) : option SlotValue :=
  overlay db ns (CacheLog.revertable_log (Cache.cache c) ∪ CacheLog.log (Cache.cache c)) key.

Definition c_view (c : checkpoint) : full_map := fun ns key =>
  match ns with
  | User => cache_view UserSpace (Delta.user_cache (StateCheckpoint.delta c)) key
  | Kernel => cache_view KernelSpace (Delta.kernel_cache (StateCheckpoint.delta c)) key
  | Accessory => None
  end.

Definition c_valid (c : checkpoint) : Prop :=
  (exists cm cu, delta_is db (StateCheckpoint.delta c) cm cu) /\ tc_ok (StateCheckpoint.cache c).

Definition c_cview (c : checkpoint) : cache_map :=
  fun ty key => match lookup_tc (StateCheckpoint.cache c) ty key with Some v => v | None => None end.

Definition c_mem (c : checkpoint) : N := TempCache.memory_size (StateCheckpoint.cache c).

(** The namespaces of the state root. *)
Definition provable (ns : Namespace) : Prop := ns <> Accessory.

Lemma delta_is_view c cm cu ns key :
  delta_is db (StateCheckpoint.delta c) cm cu -> c_view c (namespace_of ns) key = cu ns key.
Proof.
  intros Hd. pose proof (ci_current _ _ _ _ _ (di_caches _ _ _ _ Hd ns) key) as Hc.
  destruct ns; cbn in *; by rewrite Hc.
Qed.

Lemma provable_of ns : provable ns -> exists pns, ns = namespace_of pns.
Proof. intros Hp. destruct ns; [by exists UserSpace|by exists KernelSpace|done]. Qed.

Lemma put_in_view ns key v (cu : state_map) (m : full_map) pns k :
  (forall k, m (namespace_of pns) k = cu pns k) ->
  put_in ns key v cu pns k = put_full ns key v m (namespace_of pns) k.
Proof.
  intros Hm. unfold put_full. destruct ns, pns; cbn; unfold put; rewrite ?Hm;
    repeat case_decide; congruence.
Qed.

(** A step of the delta that changes the current map is a step of the checkpoint. *)
Definition c_reads (c c' : checkpoint) : Prop :=
  c_valid c' /\ c_mem c' <= c_mem c /\ (forall ns k, provable ns -> c_view c' ns k = c_view c ns k) /\
  (forall ty k, c_cview c' ty k = c_cview c ty k).

Lemma c_read c d' cm cu :
  c_valid c -> delta_is db (StateCheckpoint.delta c) cm cu -> delta_is db d' cm cu ->
  c_reads c (StateCheckpoint.with_delta c d').
Proof.
  intros [_ Ht] Hd Hd'. split_and!; [by split; [do 2 eexists|]|done| |done].
  intros ns k [pns ->]%provable_of. rewrite (delta_is_view _ _ _ _ _ Hd).
  by rewrite (delta_is_view (StateCheckpoint.with_delta c d') _ _ _ _ Hd').
Qed.

Lemma c_write c d' cm cu ns key v :
  c_valid c -> delta_is db (StateCheckpoint.delta c) cm cu -> delta_is db d' cm (put_in ns key v cu) ->
  c_valid (StateCheckpoint.with_delta c d') /\ c_mem (StateCheckpoint.with_delta c d') <= c_mem c /\
  (forall ns' k, provable ns' ->
     c_view (StateCheckpoint.with_delta c d') ns' k = put_full ns key v (c_view c) ns' k) /\
  (forall ty k, c_cview (StateCheckpoint.with_delta c d') ty k = c_cview c ty k).
Proof.
  intros [_ Ht] Hd Hd'. split_and!; [by split; [do 2 eexists|]|done| |done].
  intros ns' k [pns ->]%provable_of.
  rewrite (delta_is_view (StateCheckpoint.with_delta c d') _ _ _ _ Hd').
  apply put_in_view. intros k'. by apply delta_is_view with (cm := cm).
Qed.

(** A step of the temporary cache. *)
Lemma c_cache c tc :
  c_valid c -> tc_ok tc -> c_valid (StateCheckpoint.with_cache c tc).
Proof. intros [Hd _] Ht. by split. Qed.

Program Definition checkpoint_laws : LayerLaws checkpoint := {|
  valid := c_valid; covered := provable; view := c_view; cview := c_cview; mem := c_mem; reads := c_reads
|}.
Next Obligation. intros c c' _ Hrd. exact Hrd. Qed.
Next Obligation. intros c Hc. by split_and!. Qed.
Next Obligation.
  intros c1 c2 c3 (V1 & M1 & W1 & C1) (V2 & M2 & W2 & C2). split_and!; [done|lia| |].
  - intros ns k Hns. rewrite W2 by done. by apply W1.
  - intros ty k. by rewrite C2, C1.
Qed.
Next Obligation.
  intros c ns key Hc [pns ->]%provable_of. destruct Hc as [(cm & cu & Hd) Ht].
  destruct (delta_is_get_size db Hfits _ _ _ pns key Hd) as (d' & Hg & Hd'). cbn. rewrite Hg.
  rewrite (delta_is_view _ _ _ _ _ Hd). eexists. split; [done|].
  eapply c_read; [by split; [do 2 eexists|]|done..].
Qed.
Next Obligation.
  intros c ns key Hc [pns ->]%provable_of. destruct Hc as [(cm & cu & Hd) Ht].
  destruct (delta_is_get db Hfits _ _ _ pns key Hd) as (d' & Hg & Hd'). cbn. rewrite Hg.
  rewrite (delta_is_view _ _ _ _ _ Hd). eexists. split; [done|].
  eapply c_read; [by split; [do 2 eexists|]|done..].
Qed.
Next Obligation.
  intros c ns key v Hc Hv. pose proof Hc as [(cm & cu & Hd) Ht].
  destruct (delta_is_set db _ _ _ ns key v Hd Hv) as (d' & Hg & Hd'). cbn. rewrite Hg.
  eexists. split; [done|]. by eapply c_write.
Qed.
Next Obligation.
  intros c ns key Hc. pose proof Hc as [(cm & cu & Hd) Ht].
  destruct (delta_is_delete db _ _ _ ns key Hd) as (d' & Hg & Hd'). cbn. rewrite Hg.
  eexists. split; [done|]. by eapply c_write.
Qed.
Next Obligation.
  intros c ty k [_ Ht]. cbn. rewrite (get_ok _ _ _ Ht). unfold c_cview. by destruct (lookup_tc _ ty k).
Qed.
Next Obligation.
  intros c k v Hc Hs1. cbn in *. destruct (set_ok _ k v (proj2 Hc) Hs1) as (tc & -> & Ht & Hle & Hl).
  eexists. split_and!; [done|by apply c_cache|done|done|].
  intros ty k'. unfold c_cview, put_cache. cbn. rewrite Hl. by case_decide.
Qed.
Next Obligation.
  intros c ty k Hc. cbn in *. destruct (delete_ok _ ty k (proj2 Hc)) as (tc & -> & Ht & Hle & Hl).
  eexists. split_and!; [done|by apply c_cache|done|done|].
  intros ty' k'. unfold c_cview, put_cache. cbn. rewrite Hl. by case_decide.
Qed.
Next Obligation.
  intros c other Hc Ho Hs1. cbn in *. destruct (update_ok _ other (proj2 Hc) Ho Hs1) as (tc & -> & Ht & Hle & Hl).
  destruct (prune_ok tc Ht) as [Hp Hpl].
  eexists. split_and!; [done|by apply c_cache|done|done|].
  intros ty k'. unfold c_cview. cbn. rewrite Hpl, Hl.
  destruct (lookup_tc other ty k') as [[]|], (lookup_tc (StateCheckpoint.cache c) ty k') as [[]|]; done.
Qed.
End Checkpoint.
End CheckpointLaws.
