(* ===== verification/StateLayersProperties.v ===== *)
(** * A transaction is atomic

    What the code of a transaction reads and writes through a working set, over a
    scratchpad, over the checkpoint of a slot: it sees a map, and in the end all of its
    changes are in the checkpoint or none. *)

From Stdlib Require Import NArith Lia.
From stdpp Require Import base numbers gmap option list fin_maps.
From S2P Require Import Prelude Ints Gas StateAccess SlotKey StateCache StateCacheProofs StateStorage ZkReplay StateRefines StateLayers StateLayersProofs ZkProperties.

(** ** Programs over a layer *)
Inductive tx_prog `{AnyType} (R : Type) : Type :=
| TDone (r : R)
| TGetSize (ns : Namespace) (key : SlotKey) (k : option N -> tx_prog R)
| TGetValue (ns : Namespace) (key : SlotKey) (k : option SlotValue -> tx_prog R)
| TSet (ns : Namespace) (key : SlotKey) (v : SlotValue) (p : tx_prog R)
| TDelete (ns : Namespace) (key : SlotKey) (p : tx_prog R)
| TGetCached (ty : TypeId) (key : option SlotKey) (k : option Any -> tx_prog R)
| TPutCached (key : option SlotKey) (v : Any) (p : tx_prog R)
| TDeleteCached (ty : TypeId) (key : option SlotKey) (p : tx_prog R).
Arguments TDone {_ R} r.
Arguments TGetSize {_ R} ns key k.
Arguments TGetValue {_ R} ns key k.
Arguments TSet {_ R} ns key v p.
Arguments TDelete {_ R} ns key p.
Arguments TGetCached {_ R} ty key k.
Arguments TPutCached {_ R} key v p.
Arguments TDeleteCached {_ R} ty key p.

Section Programs.
Context {A : AnyType}.
Import TempCacheFacts.

Fixpoint run_tx {R T} `{UniversalStateAccessor T} `{!PerBlockCache T} (p : tx_prog R) (t : T)
  : option (R * T) :=
  match p with
  | TDone r => Some (r, t)
  | TGetSize ns key k => let? (n, t) := get_size ns key t in run_tx (k n) t
  | TGetValue ns key k => let? (v, t) := get_value ns key t in run_tx (k v) t
  | TSet ns key v p => let? t := set_value ns key v t in run_tx p t
  | TDelete ns key p => let? t := delete_value ns key t in run_tx p t
  | TGetCached ty key k => let? v := get_cached ty key t in run_tx (k v) t
  | TPutCached key v p => let? t := put_cached key v t in run_tx p t
  | TDeleteCached ty key p => let? t := delete_cached ty key t in run_tx p t
  end.

(** The same program over two maps. *)
Fixpoint spec_tx {R} (p : tx_prog R) (m : full_map) (c : cache_map) : R * full_map * cache_map :=
  match p with
  | TDone r => (r, m, c)
  | TGetSize ns key k => spec_tx (k (len <$> m ns key)) m c
  | TGetValue ns key k => spec_tx (k (m ns key)) m c
  | TSet ns key v p => spec_tx p (put_full ns key (Some v) m) c
  | TDelete ns key p => spec_tx p (put_full ns key None m) c
  | TGetCached ty key k => spec_tx (k (c ty key)) m c
  | TPutCached key v p => spec_tx p m (put_cache (type_id v) key (Some v) c)
  | TDeleteCached ty key p => spec_tx p m (put_cache ty key None c)
  end.

(** Values fit a slot, at most [budget] bytes go into the temporary cache, and only the
    state that is proved is read. *)
Fixpoint tx_ok {R} (p : tx_prog R) (budget : N) : Prop :=
  match p with
  | TDone _ => True
  | TGetSize ns _ k => ns <> Accessory /\ forall r, tx_ok (k r) budget
  | TGetValue ns _ k => ns <> Accessory /\ forall r, tx_ok (k r) budget
  | TSet _ _ v p => fits v /\ tx_ok p budget
  | TDelete _ _ p => tx_ok p budget
  | TGetCached _ _ k => forall r, tx_ok (k r) budget
  | TPutCached _ v p => serialized_size v <= budget /\ tx_ok p (budget - serialized_size v)
  | TDeleteCached _ _ p => tx_ok p budget
  end.

Section Layer.
Context {T : Type} {Acc : UniversalStateAccessor T} {PBC : PerBlockCache T} {L : LayerLaws T}.
Context (Hcov : forall ns, covered ns <-> ns <> Accessory).

(** A layer stands for the maps [m] and [c]. *)
Definition stands (t : T) (m : full_map) (c : cache_map) : Prop :=
  valid t /\ (forall ns k, covered ns -> view t ns k = m ns k) /\ (forall ty k, cview t ty k = c ty k).

Lemma stands_reads t t' m c : reads t t' -> stands t m c -> stands t' m c /\ mem t' <= mem t + 0.
Proof.
  intros Hrd (Hv0 & Hm0 & Hc0). destruct (reads_same _ _ Hv0 Hrd) as (Hv & Hle & Hm & Hc).
  split; [|lia]. split_and!; [done| |].
  - intros ns k Hns. rewrite Hm by done. by apply Hm0.
  - intros ty k. by rewrite Hc.
Qed.

(** The program has on the layer the result that it has on the maps. *)
Definition runs {R} (p : tx_prog R) : Prop := forall budget t m c r m' c',
  stands t m c -> tx_ok p budget -> mem t + budget <= u64_max -> spec_tx p m c = (r, m', c') ->
  exists t', run_tx p t = Some (r, t') /\ stands t' m' c' /\ mem t' <= mem t + budget.

Lemma go_on {R} (p : tx_prog R) used budget t t1 m c r m' c' :
  runs p -> stands t1 m c -> mem t1 <= mem t + used -> used <= budget -> tx_ok p (budget - used) ->
  mem t + budget <= u64_max -> spec_tx p m c = (r, m', c') ->
  exists t', run_tx p t1 = Some (r, t') /\ stands t' m' c' /\ mem t' <= mem t + budget.
Proof.
  intros Hp Hst Hle Hu Hok Hmem Hspec.
  destruct (Hp (budget - used) t1 m c r m' c' Hst Hok) as (t' & Hr & Hst' & Hle'); [lia|done|].
  exists t'. split_and!; [done|done|lia].
Qed.

Lemma stands_put t t1 m c ns key v :
  stands t m c -> valid t1 ->
  (forall ns' k, covered ns' -> view t1 ns' k = put_full ns key v (view t) ns' k) ->
  (forall ty k, cview t1 ty k = cview t ty k) -> stands t1 (put_full ns key v m) c.
Proof.
  intros (Hv & Hm & Hc) Hv1 Hm1 Hc1. split_and!; [done| |intros ty k; by rewrite Hc1].
  intros ns' k Hns. rewrite Hm1 by done. apply put_full_ext. by apply Hm.
Qed.

Lemma stands_cache t t1 m c ty key v :
  stands t m c -> valid t1 -> (forall ns' k, covered ns' -> view t1 ns' k = view t ns' k) ->
  (forall ty' k, cview t1 ty' k = put_cache ty key v (cview t) ty' k) -> stands t1 m (put_cache ty key v c).
Proof.
  intros (Hv & Hm & Hc) Hv1 Hm1 Hc1. split_and!; [done| |].
  - intros ns' k Hns. rewrite Hm1 by done. by apply Hm.
  - intros ty' k. rewrite Hc1. by apply put_cache_ext.
Qed.

Lemma run_stands {R} (p : tx_prog R) : runs p.
Proof.
  induction p as [r0|ns key k IH|ns key k IH|ns key v p IH|ns key p IH|ty key k IH|key v p IH|ty key p IH];
    intros budget t m c r m' c' Hst Hok Hmem Hspec; cbn [run_tx spec_tx tx_ok] in *;
    pose proof Hst as (Hv & Hm & Hc).
  - simplify_eq. exists t. split_and!; [done|done|lia].
  - destruct Hok as [Hns Hok]. apply Hcov in Hns. destruct (size_law t ns key Hv Hns) as (t1 & -> & Hs).
    rewrite Hm by done.
    destruct (stands_reads _ _ _ _ Hs Hst) as [Hst1 Hle1].
    eapply (go_on _ 0); [done|done|done|lia|by rewrite N.sub_0_r|done|done].
  - destruct Hok as [Hns Hok]. apply Hcov in Hns. destruct (value_law t ns key Hv Hns) as (t1 & -> & Hs).
    rewrite Hm by done.
    destruct (stands_reads _ _ _ _ Hs Hst) as [Hst1 Hle1].
    eapply (go_on _ 0); [done|done|done|lia|by rewrite N.sub_0_r|done|done].
  - destruct Hok as [Hf Hok]. destruct (set_law t ns key v Hv Hf) as (t1 & -> & Hv1 & Hle1 & Hm1 & Hc1).
    eapply (go_on _ 0); [done|by eapply stands_put|lia|lia|by rewrite N.sub_0_r|done|done].
  - destruct (delete_law t ns key Hv) as (t1 & -> & Hv1 & Hle1 & Hm1 & Hc1).
    eapply (go_on _ 0); [done|by eapply stands_put|lia|lia|by rewrite N.sub_0_r|done|done].
  - rewrite (cached_law t ty key Hv), Hc. by eapply IH.
  - destruct Hok as [Hsz Hok]. destruct (put_law t key v Hv) as (t1 & -> & Hv1 & Hle1 & Hm1 & Hc1); [lia|].
    eapply (go_on _ (serialized_size v)); [done|by eapply stands_cache|done..].
  - destruct (uncache_law t ty key Hv) as (t1 & -> & Hv1 & Hle1 & Hm1 & Hc1).
    eapply (go_on _ 0); [done|by eapply stands_cache|lia|lia|by rewrite N.sub_0_r|done|done].
Qed.
End Layer.
End Programs.

(** ** Over a writer *)
Section Writer.
Context {A : AnyType} {T : Type} {Acc : UniversalStateAccessor T} {PBC : PerBlockCache T} {L : LayerLaws T}.
Context (Hcov : forall ns, covered ns <-> ns <> Accessory).
Import RevertableWriter WriterLaws.

(** The layer below a writer is only read until the commit. *)
Lemma run_reads_inner {R} (p : tx_prog R) : forall budget (w : t T) r w',
  valid w -> tx_ok p budget -> mem w + budget <= u64_max -> run_tx p w = Some (r, w') ->
  reads (inner w) (inner w').
Proof.
  induction p as [r0|ns key k IH|ns key k IH|ns key v p IH|ns key p IH|ty key k IH|key v p IH|ty key p IH];
    intros budget w r w' Hv Hok Hmem Hrun; cbn [run_tx tx_ok] in *.
  - simplify_eq. apply reads_refl, Hv.
  - destruct Hok as [Hns Hok]. destruct (size_law w ns key Hv) as (w1 & Hg & Hrd); [by apply Hcov|].
    rewrite Hg in Hrun. destruct (reads_same _ _ Hv Hrd) as (Hv1 & Hle & _).
    eapply reads_trans; [apply Hrd|]. eapply IH; [done|done| |done]. lia.
  - destruct Hok as [Hns Hok]. destruct (value_law w ns key Hv) as (w1 & Hg & Hrd); [by apply Hcov|].
    rewrite Hg in Hrun. destruct (reads_same _ _ Hv Hrd) as (Hv1 & Hle & _).
    eapply reads_trans; [apply Hrd|]. eapply IH; [done|done| |done]. lia.
  - destruct Hok as [Hf Hok]. destruct (set_law w ns key v Hv Hf) as (w1 & Hs & Hv1 & Hle & _).
    rewrite Hs in Hrun. injection Hs as <-. eapply (IH budget _ r w' Hv1 Hok); [|done]. cbn in *. lia.
  - destruct (delete_law w ns key Hv) as (w1 & Hs & Hv1 & Hle & _).
    rewrite Hs in Hrun. injection Hs as <-. eapply (IH budget _ r w' Hv1 Hok); [|done]. cbn in *. lia.
  - rewrite (cached_law w ty key Hv) in Hrun. by eapply IH.
  - destruct Hok as [Hsz Hok]. destruct (put_law w key v Hv) as (w1 & Hs & Hv1 & Hle & _); [lia|].
    rewrite Hs in Hrun. cbn in Hs. destruct (TempCache.set _ _ _); [|done]. injection Hs as <-.
    eapply (IH _ _ r w' Hv1 Hok); [|done]. lia.
  - destruct (uncache_law w ty key Hv) as (w1 & Hs & Hv1 & Hle & _).
    rewrite Hs in Hrun. cbn in Hs. destruct (TempCache.delete _ _ _); [|done]. injection Hs as <-.
    eapply (IH budget _ r w' Hv1 Hok); [|done]. lia.
Qed.
End Writer.

(** The working set runs its program in its writer. *)
Lemma run_working_set {A : AnyType} {I Event} `{UniversalStateAccessor I} `{!PerBlockCache I} {R} (p : tx_prog R) :
  forall ws : Tx.WorkingSet I Event,
  run_tx p ws = (let? (r, d) := run_tx p (Tx.ws_delta ws) in Some (r, Tx.with_ws_delta ws d)).
Proof.
  induction p as [r0|ns key k IH|ns key k IH|ns key v p IH|ns key p IH|ty key k IH|key v p IH|ty key p IH];
    intros ws; cbn [run_tx].
  - by destruct ws.
  - cbn [get_size Tx.ws_accessor]. destruct (get_size ns key (Tx.ws_delta ws)) as [[n d]|]; [|done].
    by rewrite IH.
  - cbn [get_value Tx.ws_accessor]. destruct (get_value ns key (Tx.ws_delta ws)) as [[n d]|]; [|done].
    by rewrite IH.
  - cbn [set_value Tx.ws_accessor]. destruct (set_value ns key v (Tx.ws_delta ws)); [|done]. by rewrite IH.
  - cbn [delete_value Tx.ws_accessor]. destruct (delete_value ns key (Tx.ws_delta ws)); [|done]. by rewrite IH.
  - cbn [get_cached Tx.ws_cache]. destruct (get_cached ty key (Tx.ws_delta ws)); [|done]. by rewrite IH.
  - cbn [put_cached Tx.ws_cache]. destruct (put_cached key v (Tx.ws_delta ws)); [|done]. by rewrite IH.
  - cbn [delete_cached Tx.ws_cache]. destruct (delete_cached ty key (Tx.ws_delta ws)); [|done]. by rewrite IH.
Qed.

(** ** The theorems *)
Module LayerProperties.
Section Properties.
Import StateStorage TempCacheFacts CheckpointLaws.
Context {A : AnyType} {Hs : Hasher} {J : Jmt} {Codec : HintCodec} {Event : Type}.
Context (db : StateDb).

(** C15: a transaction is atomic on the user and kernel state and on the temporary
    cache.  It may read, write and delete in these namespaces and in the cache, and
    write accessory state without reading it; the sizes of the values fit their
    width.  It sees the state of the checkpoint with its own changes; finalizing the
    working set and committing the scratchpad puts exactly these changes into the user
    and kernel namespaces and the cache of the checkpoint, and reverting both leaves
    them as they were.  Nothing panics, and both give the consumption of the gas meter.
    Nothing is said about the accessory namespace, whose deletions are lost
    ([accessory_delete_lost]). *)
Theorem transaction_atomic {R} (p : tx_prog R) budget (c : StateCheckpoint.t StateDb)
    max_fee bips meter consumption :
  (forall ns key v, read_value db ns key None = Some v -> fits v) ->
  c_valid db c -> tx_ok p budget -> c_mem c + budget <= u64_max ->
  transaction_consumption meter max_fee bips = Some consumption ->
  exists ws s c1 s2 c2,
    run_tx p (Tx.create_working_set (Event := Event) (Tx.to_tx_scratchpad c) max_fee bips meter) =
      Some ((spec_tx p (c_view db c) (c_cview c)).1.1, ws) /\
    Tx.finalize ws = Some (s, consumption, []) /\ Tx.commit s = Some c1 /\ c_valid db c1 /\
    (forall ns k, provable ns -> c_view db c1 ns k = (spec_tx p (c_view db c) (c_cview c)).1.2 ns k) /\
    (forall ty k, c_cview c1 ty k = (spec_tx p (c_view db c) (c_cview c)).2 ty k) /\
    Tx.ws_revert ws = Some (s2, consumption) /\ Tx.revert s2 = c2 /\ c_valid db c2 /\
    (forall ns k, provable ns -> c_view db c2 ns k = c_view db c ns k) /\
    (forall ty k, c_cview c2 ty k = c_cview c ty k).
Proof.
  intros Hfits Hc Hok Hmem Hcons. pose (L0 := checkpoint_laws db Hfits).
  destruct (WriterLaws.new_ok (L := L0) c Hc) as (Hv1 & Hm1 & Hw1 & Hcw1); [cbn; lia|].
  destruct (WriterLaws.new_ok (RevertableWriter.new c) Hv1) as (Hv2 & Hm2 & Hw2 & Hcw2); [rewrite Hm1; cbn; lia|].
  assert (forall ns, covered (LayerLaws := WriterLaws.writer_laws (L := WriterLaws.writer_laws (L := L0))) ns
    <-> ns <> Accessory) as Hcov by done.
  destruct (spec_tx p (c_view db c) (c_cview c)) as [[r m'] c'] eqn:Hspec.
  destruct (run_stands Hcov p budget (RevertableWriter.new (RevertableWriter.new c)) (c_view db c) (c_cview c) r m' c')
    as (w & Hrun & (Hvw & Hmw & Hcw) & Hlew); [|done| |done|].
  { split_and!; [done| |].
    - intros ns k _. rewrite Hw2, Hw1. done.
    - intros ty k. rewrite Hcw2, Hcw1. done. }
  { rewrite Hm2, Hm1. cbn. lia. }
  destruct (WriterLaws.commit_ok w Hvw) as (s & Hs1 & Hvs & Hms & Hvws & Hcws).
  destruct (WriterLaws.commit_ok s Hvs) as (c1 & Hc1 & Hvc1 & Hmc1 & Hvwc1 & Hcwc1).
  pose proof (run_reads_inner (L := WriterLaws.writer_laws (L := L0)) Hcov p budget _ r w Hv2 Hok) as Hrd.
  destruct Hrd as (_ & _ & Hrd); [rewrite Hm2, Hm1; cbn; lia|done|].
  destruct (reads_same (LayerLaws := L0) _ _ Hc Hrd) as (Hv3 & _ & Hw3 & Hcw3).
  exists (Tx.with_ws_delta (Tx.create_working_set (Tx.to_tx_scratchpad c) max_fee bips meter) w), s, c1,
    (RevertableWriter.inner w), (RevertableWriter.inner (RevertableWriter.inner w)).
  split_and!; try done.
  - rewrite run_working_set.
    exact (f_equal (fun o => let? (r, d) := o in Some (r, Tx.with_ws_delta _ d)) Hrun).
  - unfold Tx.finalize, Tx.ws_consumption. cbn. rewrite Hcons.
    exact (f_equal (fun o => let? s := o in Some (s, consumption, [])) Hs1).
  - intros ns k Hns. exact (eq_trans (Hvwc1 ns k Hns) (eq_trans (Hvws ns k Hns) (Hmw ns k Hns))).
  - intros ty k. exact (eq_trans (Hcwc1 ty k) (eq_trans (Hcws ty k) (Hcw ty k))).
  - unfold Tx.ws_revert, Tx.ws_consumption. cbn. by rewrite Hcons.
Qed.

(** Deleting a stored value of the accessory state has no effect.  The scratchpad of
    the transaction shows the deletion, but the commit to the checkpoint only forgets
    the write of the slot, and the stored value is there again; an [AccessoryDelta]
    records the deletion. *)
Theorem accessory_delete_lost (c : StateCheckpoint.t StateDb) key v :
  Delta.inner (StateCheckpoint.delta c) = db -> Delta.uncommitted_changes (StateCheckpoint.delta c) = None ->
  get_accessory db key = Some (Some v) -> fits v -> tc_ok (StateCheckpoint.cache c) ->
  exists s s1 c1 d,
    delete_value Accessory key (Tx.to_tx_scratchpad c) = Some s /\
    get_value Accessory key s = Some (None, s1) /\
    Tx.commit s = Some c1 /\ get_value Accessory key c1 = Some (Some v, c1) /\
    delete_value Accessory key (AccessoryDelta.of_delta (StateCheckpoint.delta c)) = Some d /\
    get_value Accessory key d = Some (None, d).
Proof.
  intros Hi Hu Hg Hv Ht. eexists. eexists.
  eexists (StateCheckpoint.with_cache (StateCheckpoint.with_delta c
    (Delta.set_accessory (delete key (Delta.accessory_writes (StateCheckpoint.delta c)))
      (StateCheckpoint.delta c))) (TempCache.prune (StateCheckpoint.cache c))).
  eexists. split; [done|]. split; [|split; [|split; [|split; [done|]]]].
  - cbn [get_value RevertableWriter.accessor RevertableWriter.writes]. by rewrite lookup_insert_eq.
  - unfold Tx.commit, RevertableWriter.commit. cbn [RevertableWriter.writes].
    change (RevertableWriter.writes (Tx.to_tx_scratchpad c)) with (∅ : gmap (SlotKey * Namespace) (option SlotValue)).
    rewrite insert_empty, map_to_list_singleton. cbn. unfold TempCache.update_with. cbn.
    by rewrite map_to_list_empty.
  - cbn. rewrite lookup_delete_eq. unfold Delta.fetch_accessory. cbn in Hg |- *. rewrite Hu, Hi, Hg. cbn.
    by rewrite size_fits.
  - cbn. by rewrite lookup_insert_eq.
Qed.
End Properties.

(** *** Witnesses *)
Import StateStorage ZkDemo TempCacheFacts CheckpointLaws.

(** A type with its number, and its values. *)
#[local] Instance demo_any : AnyType := {|
  TypeId := N; Any := N * N; type_id := fst; serialized_size := fun _ => 8
|}.

Definition demo_checkpoint : StateCheckpoint.t StateDb :=
  StateCheckpoint.mk (Delta.with_witness demo_db []) 0 0 TempCache.new.

Lemma demo_checkpoint_valid : c_valid demo_db demo_checkpoint.
Proof.
  split; [|apply tc_new_ok]. do 2 eexists. apply StateRefines.delta_is_fresh.
  apply ZkProperties.demo_stored_fits.
Qed.

Definition demo_tx : tx_prog (option SlotValue) :=
  TGetSize User demo_key (fun n =>
  TPutCached None (1, 5) (
  TSet User [3] (match n with Some n => [n] | None => [] end) (
  TDelete Kernel [4] (
  TGetCached 1 None (fun x =>
  TGetValue User [3] (fun v => TDone v)))))).

Lemma transaction_atomic_witness :
  exists consumption ws s c1,
    run_tx demo_tx (Tx.create_working_set (Event := unit) (Tx.to_tx_scratchpad demo_checkpoint) 0 0
      (BasicGasMeter.new_with_gas [10] [1])) = Some (Some [3], ws) /\
    Tx.finalize ws = Some (s, consumption, []) /\ Tx.commit s = Some c1 /\ c_valid demo_db c1.
Proof.
  destruct (transaction_consumption (BasicGasMeter.new_with_gas [10] [1]) 0 0) as [consumption|] eqn:Hcons.
  - destruct (transaction_atomic (Event := unit) demo_db demo_tx 8 demo_checkpoint 0 0
      (BasicGasMeter.new_with_gas [10] [1]) consumption ZkProperties.demo_stored_fits demo_checkpoint_valid)
      as (ws & s & c1 & s2 & c2 & Hrun & Hf & Hc & Hv & _).
    + split; [done|]. intros n. split; [cbn; lia|]. cbn. split; [destruct n; by vm_compute|].
      intros x. by split.
    + vm_compute. discriminate.
    + exact Hcons.
    + exists consumption, ws, s, c1. split; [exact Hrun|]. split; [exact Hf|]. split; [exact Hc|exact Hv].
  - exfalso. vm_compute in Hcons. discriminate Hcons.
Defined.

Definition accessory_db : StateDb :=
  mkDb 1 (fun _ _ _ => None) (fun _ key => if decide (key = [9]) then Some [1] else None)
    (fun ns _ => demo_trees ns) demo_trees.

Lemma accessory_delete_lost_witness :
  exists s c1, delete_value Accessory [9] (Tx.to_tx_scratchpad (StateCheckpoint.mk
      (Delta.with_witness accessory_db []) 0 0 TempCache.new)) = Some s /\
    Tx.commit s = Some c1 /\ get_value Accessory [9] c1 = Some (Some [1], c1).
Proof.
  destruct (accessory_delete_lost accessory_db
    (StateCheckpoint.mk (Delta.with_witness accessory_db []) 0 0 TempCache.new) [9] [1])
    as (s & s1 & c1 & d & Hd & _ & Hc & Hg & _); [reflexivity|reflexivity|reflexivity|by vm_compute|apply tc_new_ok|].
  exists s, c1. split; [exact Hd|]. split; [exact Hc|exact Hg].
Defined.
End LayerProperties.
