(* ===== verification/SequencerState.v ===== *)
(** * The changes of blocks that are not committed yet

    sov-state/src/sequencer_state.rs.  The sequencer executes blocks on top of blocks
    that the node has not processed; it keeps the changes of each of them, newest first,
    and looks them up before the storage. *)

From Stdlib Require Import NArith Lia.
From stdpp Require Import base numbers gmap option list sorting.
From S2P Require Import Prelude Ints StateAccess SlotKey StateCache StateCacheProofs.

(** [RawStateChanges]; [CachedWrites] is a log of accesses. *)
Record RawStateChanges : Type := mkRaw {
  raw_user : CacheLog.t;
  raw_kernel : CacheLog.t;
  raw_accessory : gmap SlotKey (option SlotValue);
  raw_rollup_height : N
}.

Module CachedWrites.
Section CachedWrites.
Context {Hs : Hasher}.

(** [get_writes]: the iterator of the log asserts that nothing can be reverted. *)
Definition get_writes (c : CacheLog.t) : option (list (SlotKey * option SlotValue)) :=
  CacheLog.take_writes c.

Definition get_from_cache (key : SlotKey) (c : CacheLog.t) : MaybePresentValue SlotValue :=
  match CacheLog.get key c with
  | Some (AccWrite modified) => Present modified
  | _ => Absent
  end.

Definition get_leaf_from_cache (key : SlotKey) (c : CacheLog.t)
  : option (MaybePresentValue NodeLeafAndMaybeValue) :=
  match CacheLog.get key c with
  | Some (AccWrite None) => Some (Present None)
  | Some (AccWrite (Some v)) => let? l := make_leaf v in Some (Present (Some (mkNode l (ReadValue v))))
  | _ => Some Absent
  end.
End CachedWrites.
End CachedWrites.

Module SequencerStateChanges.
Section SequencerStateChanges.
Context {Hs : Hasher}.

(** The changes, from newest to oldest. *)
Definition t : Type := option (list RawStateChanges).

Definition default : t := None.

Definition changes (s : t) : list RawStateChanges := match s with Some l => l | None => [] end.

Definition push_front (c : RawStateChanges) (s : t) : t := Some (c :: changes s).

Definition prune_changes_through (rollup_height : N) (s : t) : t :=
  match s with
  | Some l => Some (filter (fun c => rollup_height < raw_rollup_height c) l)
  | None => None
  end.

Definition ignore_changes_after_height (rollup_height : N) (s : t) : t :=
  match s with
  | Some l => Some (filter (fun c => raw_rollup_height c <= rollup_height) l)
  | None => None
  end.

Definition latest_rollup_height (s : t) : option N :=
  match s with Some (c :: _) => Some (raw_rollup_height c) | _ => None end.

Definition cache_in (ns : ProvableNamespace) (c : RawStateChanges) : CacheLog.t :=
  match ns with UserSpace => raw_user c | KernelSpace => raw_kernel c end.

(** [StateGetter::get], of one block and of all. *)
Definition get_in (ns : Namespace) (key : SlotKey) (c : RawStateChanges) : MaybePresentValue SlotValue :=
  match ns with
  | User => CachedWrites.get_from_cache key (raw_user c)
  | Kernel => CachedWrites.get_from_cache key (raw_kernel c)
  | Accessory => match raw_accessory c !! key with Some v => Present v | None => Absent end
  end.

Fixpoint get_from (ns : Namespace) (key : SlotKey) (l : list RawStateChanges) : MaybePresentValue SlotValue :=
  match l with
  | [] => Absent
  | c :: l' => match get_in ns key c with Present v => Present v | Absent => get_from ns key l' end
  end.

Definition get (ns : Namespace) (key : SlotKey) (s : t) : MaybePresentValue SlotValue :=
  get_from ns key (changes s).

Fixpoint get_leaf_from (ns : ProvableNamespace) (key : SlotKey) (l : list RawStateChanges)
  : option (MaybePresentValue NodeLeafAndMaybeValue) :=
  match l with
  | [] => Some Absent
  | c :: l' =>
      let? r := CachedWrites.get_leaf_from_cache key (cache_in ns c) in
      match r with Present v => Some (Present v) | Absent => get_leaf_from ns key l' end
  end.

Definition get_leaf (ns : ProvableNamespace) (key : SlotKey) (s : t)
  : option (MaybePresentValue NodeLeafAndMaybeValue) :=
  get_leaf_from ns key (changes s).

(** [to_state_accesses]: the writes of all blocks, newest first. *)
Fixpoint all_writes (ns : ProvableNamespace) (l : list RawStateChanges)
  : option (list (SlotKey * option SlotValue)) :=
  match l with
  | [] => Some []
  | c :: l' =>
      let? ws := CachedWrites.get_writes (cache_in ns c) in
      let? rest := all_writes ns l' in
      Some (ws ++ rest)
  end.

(** [dedup_by]: of entries with the same key next to each other the first one stays. *)
Fixpoint dedup_after {A} (p : SlotKey * A) (l : list (SlotKey * A)) : list (SlotKey * A) :=
  match l with
  | [] => []
  | e :: l' => if decide (e.1 = p.1) then dedup_after p l' else e :: dedup_after e l'
  end.

Definition dedup_by_key {A} (l : list (SlotKey * A)) : list (SlotKey * A) :=
  match l with [] => [] | e :: l' => e :: dedup_after e l' end.

Definition latest_writes (ns : ProvableNamespace) (s : t) : option (list (SlotKey * option SlotValue)) :=
  let? ws := all_writes ns (changes s) in Some (dedup_by_key (sort_writes ws)).

Definition to_state_accesses (s : t) : option StateAccesses :=
  let? u := latest_writes UserSpace s in
  let? k := latest_writes KernelSpace s in
  Some (mkAccesses (mkOrdered [] u) (mkOrdered [] k)).

(** [RawStateChanges::to_state_accesses_for_sequencer_state_root_computation] *)
Definition raw_state_accesses (c : RawStateChanges) : option StateAccesses :=
  let? u := CachedWrites.get_writes (raw_user c) in
  let? k := CachedWrites.get_writes (raw_kernel c) in
  Some (mkAccesses (mkOrdered [] u) (mkOrdered [] k)).
End SequencerStateChanges.
End SequencerStateChanges.

(** ** Lemmas *)
Module SequencerStateFacts.
Import SequencerStateChanges CacheLogFacts SortFacts.
Section Facts.
Context {A : Type}.
Implicit Types l : list (SlotKey * A).

Lemma key_le_neq k1 k2 : key_le k1 k2 = false -> k1 <> k2.
Proof. intros Hle ->. by rewrite key_le_refl in Hle. Qed.

(** Sorting is stable: it keeps the first entry of a key. *)
Lemma insert_write_map e l :
  (list_to_map (insert_write e l) : gmap SlotKey A) = <[e.1 := e.2]> (list_to_map l).
Proof.
  induction l as [|e' l IH]; cbn [insert_write].
  - by destruct e.
  - destruct (key_le e.1 e'.1) eqn:Hle.
    + by destruct e.
    + destruct e' as [k' v']. rewrite !list_to_map_cons, IH. cbn [fst] in Hle.
      apply insert_insert_ne. intros ->. by rewrite key_le_refl in Hle.
Qed.

Lemma sort_writes_map l : (list_to_map (sort_writes l) : gmap SlotKey A) = list_to_map l.
Proof.
  induction l as [|[k v] l IH]; [done|]. cbn [sort_writes foldr].
  change (foldr insert_write [] l) with (sort_writes l). by rewrite insert_write_map, IH.
Qed.

Lemma dedup_after_map p l :
  <[p.1 := p.2]> (list_to_map (dedup_after p l) : gmap SlotKey A) = <[p.1 := p.2]> (list_to_map l).
Proof.
  revert p. induction l as [|[k v] l IH]; intros p; cbn [dedup_after]; [done|]. case_decide as Hk.
  - cbn in Hk. subst k. rewrite IH, list_to_map_cons. by rewrite insert_insert_eq.
  - rewrite !list_to_map_cons. f_equal. apply (IH (k, v)).
Qed.

Lemma dedup_map l : (list_to_map (dedup_by_key l) : gmap SlotKey A) = list_to_map l.
Proof. destruct l as [|[k v] l]; [done|]. cbn [dedup_by_key]. rewrite !list_to_map_cons. apply (dedup_after_map (k, v)). Qed.

(** After sorting, no key repeats. *)
Lemma dedup_after_keys p l :
  StronglySorted entry_le (p :: l) -> p.1 ∉ (dedup_after p l).*1 /\ NoDup (dedup_after p l).*1 /\
  Forall (entry_le p) (dedup_after p l) /\ StronglySorted entry_le (dedup_after p l).
Proof.
  revert p. induction l as [|e l IH]; intros p Hs; cbn [dedup_after].
  - split_and!; [set_solver|constructor|constructor|constructor].
  - inversion Hs as [|? ? Hl Hall]; subst. inversion Hall as [|? ? Hpe Hpl]; subst. case_decide as Hk.
    + apply (IH p). constructor; [|done]. by inversion Hl.
    + destruct (IH e Hl) as (Hn & Hd & Hf & Hss). rewrite fmap_cons. split_and!.
      * rewrite not_elem_of_cons. split; [congruence|]. intros Hin.
        apply list_elem_of_fmap in Hin as (x & Hx & Hin).
        rewrite Forall_forall in Hf. specialize (Hf x Hin). unfold entry_le in *.
        rewrite <- Hx in Hf. apply Hk. by apply key_le_antisym.
      * by constructor.
      * constructor; [done|]. eapply Forall_impl; [exact Hf|]. intros x Hx. by eapply key_le_trans.
      * by constructor.
Qed.

Lemma dedup_keys l :
  StronglySorted entry_le l -> NoDup (dedup_by_key l).*1 /\ StronglySorted entry_le (dedup_by_key l).
Proof.
  destruct l as [|e l]; [split; constructor|]. intros Hs.
  destruct (dedup_after_keys e l Hs) as (Hn & Hd & Hf & Hss).
  cbn [dedup_by_key]. rewrite fmap_cons. split; by constructor.
Qed.
End Facts.

(** The block is finished: its log can not be reverted any more. *)
Definition committed (c : RawStateChanges) : Prop :=
  forall ns, CacheLog.revertable_log (cache_in ns c) = ∅.

Definition present {A} (o : option (option A)) : MaybePresentValue A :=
  match o with Some v => Present v | None => Absent end.

Lemma get_in_writes ns key c : committed c ->
  get_in (namespace_of ns) key c = present (writes (CacheLog.log (cache_in ns c)) !! key).
Proof.
  intros Hc. specialize (Hc ns). unfold writes. rewrite lookup_omap.
  destruct ns; cbn in *; unfold CachedWrites.get_from_cache, CacheLog.get; rewrite Hc, lookup_empty;
    by destruct (CacheLog.log _ !! key) as [[]|].
Qed.

Lemma get_writes_map ns c : committed c ->
  exists ws, CachedWrites.get_writes (cache_in ns c) = Some ws /\
    (list_to_map ws : gmap _ _) = writes (CacheLog.log (cache_in ns c)).
Proof.
  intros Hc. specialize (Hc ns). destruct (cache_in ns c) as [r l]. cbn in Hc. subst r.
  destruct (take_writes_perm l) as (ws & Hws & Hp). exists ws. split; [done|].
  rewrite (list_to_map_proper ws (map_to_list (writes l))); [apply list_to_map_to_list| |done].
  rewrite Hp. apply NoDup_fst_map_to_list.
Qed.

Lemma all_writes_map ns l : Forall committed l ->
  exists ws, all_writes ns l = Some ws /\
    forall key, get_from (namespace_of ns) key l = present ((list_to_map ws : gmap _ _) !! key).
Proof.
  induction 1 as [|c l Hc Hl (rest & Hrest & Hget)]; cbn [all_writes get_from]; [by eexists|].
  destruct (get_writes_map ns c Hc) as (ws & -> & Hmap). rewrite Hrest. eexists. split; [done|].
  intros key. rewrite (get_in_writes ns key c Hc), Hget, list_to_map_app, Hmap, lookup_union.
  destruct (writes _ !! key) as [v|]; cbn; [by destruct (list_to_map rest !! key)|].
  by destruct (list_to_map rest !! key).
Qed.

(** The value of a key in the changes, or else in the state below. *)
Definition over (ns : Namespace) (l : list RawStateChanges) (below : SlotKey -> option SlotValue)
    (key : SlotKey) : option SlotValue :=
  match get_from ns key l with Present v => v | Absent => below key end.

Lemma over_app ns l1 l2 below key : over ns (l1 ++ l2) below key = over ns l1 (over ns l2 below) key.
Proof.
  unfold over. induction l1 as [|c l1 IH]; cbn [get_from app]; [done|]. by destruct (get_in ns key c).
Qed.

Definition newer (c1 c2 : RawStateChanges) : Prop := raw_rollup_height c2 < raw_rollup_height c1.

(** The changes above a height come first. *)
Lemma split_at_height h l : StronglySorted newer l ->
  l = filter (fun c => h < raw_rollup_height c) l ++ filter (fun c => raw_rollup_height c <= h) l.
Proof.
  induction 1 as [|c l Hl IH Hall]; [done|]. rewrite !filter_cons.
  destruct (decide (h < raw_rollup_height c)) as [Hlt|Hge].
  - rewrite decide_False by lia. cbn. by f_equal.
  - rewrite decide_True by lia.
    assert (filter (fun c => h < raw_rollup_height c) l = []) as Hnil.
    { clear -Hall Hge. induction Hall as [|x l Hx _ IH]; [done|].
      unfold newer in Hx. rewrite filter_cons_False by lia. exact IH. }
    rewrite Hnil in *. cbn in *. by f_equal.
Qed.
End SequencerStateFacts.

(** ** The theorem *)
Module SequencerStateProperties.
Import SequencerStateChanges SequencerStateFacts.
(** C32: the changes of uncommitted blocks act as one state.  [to_state_accesses] does not
    panic and has exactly one write for each key that some block wrote, the one that
    reading the changes gives.  And when the node has processed the blocks up to a
    height, so that the state below has their changes, pruning them changes no read. *)
Theorem uncommitted_changes_consistent (s : t) :
  Forall committed (changes s) -> StronglySorted newer (changes s) ->
  (exists accs, to_state_accesses s = Some accs /\
    forall ns, exists ws, ws = ordered_writes (match ns with UserSpace => user_accesses accs
                                              | KernelSpace => kernel_accesses accs end) /\
      NoDup ws.*1 /\ StronglySorted (fun e1 e2 => key_le e1.1 e2.1 = true) ws /\
      forall key, get (namespace_of ns) key s =
        match (list_to_map ws : gmap _ _) !! key with Some v => Present v | None => Absent end) /\
  forall ns h below key,
    over ns (changes (prune_changes_through h s))
      (over ns (changes (ignore_changes_after_height h s)) below) key =
    over ns (changes s) below key.
Proof.
  intros Hc Hn. split.
  - assert (forall ns, exists ws, latest_writes ns s = Some ws /\ NoDup ws.*1 /\
      StronglySorted SortFacts.entry_le ws /\
      forall key, get (namespace_of ns) key s = present ((list_to_map ws : gmap _ _) !! key)) as Hws.
    { intros ns. destruct (all_writes_map ns (changes s) Hc) as (ws & Hall & Hget).
      unfold latest_writes. rewrite Hall. eexists. split; [done|].
      destruct (dedup_keys (sort_writes ws) (SortFacts.sort_writes_sorted ws)) as [Hd Hss].
      split_and!; [done..|]. intros key. by rewrite dedup_map, sort_writes_map, <- Hget. }
    destruct (Hws UserSpace) as (u & Hu & Hus), (Hws KernelSpace) as (k & Hk & Hks).
    unfold to_state_accesses. rewrite Hu, Hk. eexists. split; [done|].
    intros []; [by exists u|by exists k].
  - intros ns h below key. destruct s as [l|]; [|done]. cbn [changes] in *.
    rewrite (split_at_height h l Hn) at 3. by rewrite over_app.
Qed.

(** Two blocks that write the same key; the newer write counts. *)
Definition demo_block (h v : N) : RawStateChanges :=
  mkRaw (CacheLog.mk ∅ {[ [1] := AccWrite (Some [v]) ]}) (CacheLog.mk ∅ ∅) ∅ h.

Lemma uncommitted_changes_consistent_witness :
  get User [1] (Some [demo_block 5 8; demo_block 4 7]) = Present (Some [8]) /\
  exists accs, to_state_accesses (Some [demo_block 5 8; demo_block 4 7]) = Some accs.
Proof.
  destruct (uncommitted_changes_consistent (Some [demo_block 5 8; demo_block 4 7])) as [(accs & Hacc & _) _].
  - repeat constructor; by intros [].
  - repeat constructor; unfold newer; cbn; lia.
  - split; [by vm_compute|]. exists accs. exact Hacc.
Defined.
End SequencerStateProperties.
