(* ===== verification/Bank.v ===== *)
(** * The bank module (sov-bank)

    Tokens, balances, the call messages of the module and the gas reservation
    used by transaction processing.
    - data: [TokenHolder] (utils.rs), [Coins], [Token] (token.rs), [CallMessage]
      (call.rs), the configuration of genesis.rs, the errors of error.rs;
    - state: [Bank.t], the two state maps of lib.rs and the events emitted;
    - operations: every function of call.rs, [init_module] of genesis.rs,
      [reserve_gas] of capability.rs, [get_token_id] and [get_token_id_metered]
      of utils.rs, and the dispatcher [call] of lib.rs.

    [TokenHolder] and the borrowed [TokenHolderRef] are one type here.  Error
    values keep the source's variants with identifiers instead of their printed
    form; messages are left out.

    The invariant [Bank.inv]: for each token the balances add up to the total
    supply, which does not exceed the supply cap; no balance exists for a token
    that does not; the admins of a token are distinct. *)

From Stdlib Require Import NArith Lia.
From stdpp Require Import base numbers gmap strings option countable list.
From S2P Require Import Prelude Ints Gas StateAccess.

(** 32-byte identifiers. *)
Abbreviation TokenId := (list N).
Abbreviation ModuleId := (list N).
Abbreviation DerivedHolder := (list N).

Section Holders.
Context {Sp : Spec}.

(** [TokenHolder] *)
Inductive TokenHolder : Type :=
| HolderUser (addr : Address)
| HolderModule (id : ModuleId)
| HolderDerived (dh : DerivedHolder).

#[global] Instance TokenHolder_eq_dec : EqDecision TokenHolder.
Proof. solve_decision. Defined.

Definition holder_enc (h : TokenHolder) : Address + (list N + list N) :=
  match h with
  | HolderUser a => inl a
  | HolderModule m => inr (inl m)
  | HolderDerived d => inr (inr d)
  end.

Definition holder_dec (x : Address + (list N + list N)) : TokenHolder :=
  match x with
  | inl a => HolderUser a
  | inr (inl m) => HolderModule m
  | inr (inr d) => HolderDerived d
  end.

#[global] Instance TokenHolder_countable : Countable TokenHolder.
Proof. apply (inj_countable' holder_enc holder_dec). by intros []. Defined.

(** [TokenHolderRef::as_bytes] *)
Definition holder_as_bytes (h : TokenHolder) : list N :=
  match h with
  | HolderUser a => address_as_ref a
  | HolderModule id => id
  | HolderDerived dh => dh
  end.
End Holders.

(** [BalanceKey] *)
Abbreviation BalanceKey := (TokenHolder * TokenId)%type.

Module Bank.
Section BankModule.
Context {Sp : Spec}.

Record Coins : Type := mkCoins { amount : N; token_id : TokenId }.

Record Token : Type := mkToken {
  name : string;
  total_supply : N;
  supply_cap : N;
  admins : list TokenHolder
}.

(** ** Errors, error.rs *)
Inductive ArithmeticError : Type :=
| OverflowError (base addend : N)
| UnderflowError (base subtrahend : N).

Inductive CommonError : Type :=
| CoreError (e : CoreModuleError)
| Arithmetic (e : ArithmeticError)
| NotAdmin (caller : TokenHolder) (token_name : string)
| TokenNotFound (id : TokenId)
| TokenFrozenError (token_name : string).

Inductive CreateTokenError : Type :=
| CreateCommon (e : CommonError)
| TooManyDecimals (provided max_allowed : N)
| InitialBalanceExceedsSupplyCap (initial_balance cap : N)
| TokenAlreadyExists (id : TokenId) (token_name : string) (minter : TokenHolder).

Inductive TransferTokenError : Type :=
| TransferCommon (e : CommonError)
| InsufficientBalance (amt balance : N) (from to : TokenHolder) (id : TokenId).

Inductive MintTokenError : Type :=
| MintCommon (e : CommonError)
| SupplyCapExceeded (cap new_supply : N) (token_name : string).

Inductive UpdateAdminError : Type :=
| UpdateCommon (e : CommonError)
| AdminDoesNotExist (admin_to_replace : Address) (token_name : string)
| AdminAlreadyExists (new_admin : Address) (token_name : string).

(** [FreezeTokenError] and [BurnTokenError] have the single variant [Common]. *)
Inductive Error : Type :=
| CreateToken (e : CreateTokenError)
| TransferToken (e : TransferTokenError)
| FreezeToken (e : CommonError)
| BurnToken (e : CommonError)
| MintToken (e : MintTokenError)
| UpdateAdmin (e : UpdateAdminError).

Definition state_read (e : StateAccessorError) : CommonError := CoreError (StateRead e).
Definition state_write (e : StateAccessorError) : CommonError := CoreError (StateWrite e).

(** ** Events, event.rs *)
Inductive Event : Type :=
| TokenCreated (token_name : string) (coins : Coins) (mint_to_address minter : TokenHolder)
    (cap : N) (admin_list : list TokenHolder)
| TokenTransferred (from to : TokenHolder) (coins : Coins) (memo : option string)
| TokenBurned (owner : TokenHolder) (coins : Coins)
| TokenFrozen (freezer : TokenHolder) (id : TokenId)
| TokenMinted (authorizer mint_to_identity : TokenHolder) (coins : Coins).

(** ** State, lib.rs *)
Record t : Type := mk {
  id : ModuleId;
  tokens : gmap TokenId Token;
  balances : gmap BalanceKey N;
  events : list Event
}.

Definition tokens_map : StateMap t TokenId Token :=
  mkStateMap "sov_bank/Bank/tokens" User tokens
    (fun m s => mk (id s) m (balances s) (events s)).

Definition balances_map : StateMap t BalanceKey N :=
  mkStateMap "sov_bank/Bank/balances" User balances
    (fun m s => mk (id s) (tokens s) m (events s)).

(** ** Call messages, call.rs *)
Inductive CallMessage : Type :=
| CallCreateToken (token_name : string) (token_decimals : option N) (initial_balance : N)
    (mint_to_address : Address) (admin_list : list Address) (cap : option N)
| CallTransfer (to : Address) (coins : Coins)
| CallBurn (coins : Coins)
| CallMint (coins : Coins) (mint_to_address : Address)
| CallFreeze (tid : TokenId)
| CallUpdateAdmin (new_admin : option Address) (tid : TokenId)
| CallTransferWithMemo (to : Address) (coins : Coins) (memo : string).

(** ** Genesis configuration, genesis.rs *)
Record TokenConfig : Type := mkTokenConfig {
  cfg_token_name : string;
  cfg_token_decimals : option N;
  cfg_token_id : TokenId;
  address_and_balances : list (Address * N);
  cfg_admins : list Address;
  cfg_supply_cap : option N
}.

Record GasTokenConfig : Type := mkGasTokenConfig {
  gas_token_name : string;
  gas_token_decimals : option N;
  gas_address_and_balances : list (Address * N);
  gas_admins : list Address;
  gas_supply_cap : option N
}.

Record BankConfig : Type := mkBankConfig {
  gas_token_config : option GasTokenConfig;
  token_configs : list TokenConfig
}.

Definition token_config_from (c : GasTokenConfig) : TokenConfig :=
  mkTokenConfig (gas_token_name c) (gas_token_decimals c) config_gas_token_id
    (gas_address_and_balances c) (gas_admins c) (gas_supply_cap c).

(** ** Tokens, token.rs *)

(** The loop of [unique_holders]: [indices] are the holders seen so far. *)
Fixpoint unique_holders_from (indices : list TokenHolder) (holders : list TokenHolder)
  : list TokenHolder :=
  match holders with
  | [] => []
  | item :: rest =>
      if bool_decide (item ∈ indices) then unique_holders_from indices rest
      else item :: unique_holders_from (item :: indices) rest
  end.

Definition unique_holders (holders : list TokenHolder) : list TokenHolder :=
  unique_holders_from [] holders.

Definition is_admin (self : Token) (h : TokenHolder) : bool :=
  bool_decide (h ∈ admins self).

(** [assert_is_admin]; [None] is [Ok(())]. *)
Definition assert_is_admin (self : Token) (sender : TokenHolder) : option CommonError :=
  if is_admin self sender then None else Some (NotAdmin sender (name self)).

Definition token_freeze (self : Token) (sender : TokenHolder) : Token + CommonError :=
  match admins self with
  | [] => inr (TokenFrozenError (name self))
  | _ =>
      match assert_is_admin self sender with
      | Some e => inr e
      | None => inl (mkToken (name self) (total_supply self) (supply_cap self) [])
      end
  end.

Definition find_admin_index (self : Token) (admin : Address) : option nat :=
  fst <$> list_find (fun a => a = HolderUser admin) (admins self).

Definition set_admins (self : Token) (l : list TokenHolder) : Token :=
  mkToken (name self) (total_supply self) (supply_cap self) l.

Definition token_update_admin (self : Token) (new_admin : option Address)
    (admin_to_replace : Address) : Token + UpdateAdminError :=
  match find_admin_index self admin_to_replace with
  | None => inr (AdminDoesNotExist admin_to_replace (name self))
  | Some current_admin_pos =>
      match new_admin with
      | Some new_admin =>
          match find_admin_index self new_admin with
          | Some _ => inr (AdminAlreadyExists new_admin (name self))
          | None =>
              inl (set_admins self (<[current_admin_pos := HolderUser new_admin]> (admins self)))
          end
      | None => inl (set_admins self (delete current_admin_pos (admins self)))
      end
  end.

Definition update_for_mint_if_allowed (self : Token) (authorizer : TokenHolder) (amt : N)
  : Token + MintTokenError :=
  match admins self with
  | [] => inr (MintCommon (TokenFrozenError (name self)))
  | _ =>
      match assert_is_admin self authorizer with
      | Some e => inr (MintCommon e)
      | None =>
          match Amount.checked_add (total_supply self) amt with
          | None => inr (MintCommon (Arithmetic (OverflowError (total_supply self) amt)))
          | Some new_supply =>
              if supply_cap self <? new_supply
              then inr (SupplyCapExceeded (supply_cap self) new_supply (name self))
              else inl (mkToken (name self) new_supply (supply_cap self) (admins self))
          end
      end
  end.

Section Operations.
Context {G : Type} `{GasMeter G}.

Definition emit_event {E} (e : Event) : M (acc G t) E unit :=
  modify (fun s => mk (id s) (tokens s) (balances s) (events s ++ [e])).

(** ** Token ids, utils.rs *)
Definition DEFAULT_TOKEN_DECIMALS : N := 8.

Definition get_token_id (token_name : list N) (token_decimals : option N)
    (originator : TokenHolder) : TokenId :=
  let token_decimals := default DEFAULT_TOKEN_DECIMALS token_decimals in
  let hash := hasher ((holder_as_bytes originator ++ token_name) ++ [token_decimals]) in
  <[31%nat := token_decimals]> hash.

Definition get_token_id_metered (token_name : list N) (token_decimals : option N)
    (originator : TokenHolder) : M (acc G t) GasMeteringError TokenId :=
  let token_decimals := default DEFAULT_TOKEN_DECIMALS token_decimals in
  let! h := hasher_update [] (holder_as_bytes originator) in
  let! h := hasher_update h token_name in
  let! h := hasher_update h [token_decimals] in
  let hash := hasher_finalize h in
  ret (<[31%nat := token_decimals]> hash).

(** The UTF-8 bytes of a token name. *)
Definition string_bytes (s : string) : list N :=
  map (fun c => Ascii.N_of_ascii c) (String.list_ascii_of_string s).

(** ** Operations, call.rs *)

Definition create_token (token_name : string) (token_decimals : option N)
    (initial_balance : N) (mint_to_address : TokenHolder) (admin_list : list TokenHolder)
    (cap : option N) (minter : TokenHolder) : M (acc G t) CreateTokenError TokenId :=
  match token_decimals with
  | Some decimals =>
      ensure (negb (Amount.MAX_DECIMALS <? decimals))
        (TooManyDecimals decimals Amount.MAX_DECIMALS)
  | None => ret tt
  end ;;;
  let cap := default Amount.MAX cap in
  ensure (negb (cap <? initial_balance))
    (InitialBalanceExceedsSupplyCap initial_balance cap) ;;;
  let! token_id :=
    map_err (fun e => CreateCommon (CoreError (Generic e)))
      (get_token_id_metered (string_bytes token_name) token_decimals minter) in
  let admin_list := unique_holders admin_list in
  let token := mkToken token_name initial_balance cap admin_list in
  let! existing :=
    map_err (fun e => CreateCommon (state_read e)) (map_get tokens_map token_id) in
  ensure (negb (bool_decide (is_Some existing)))
    (TokenAlreadyExists token_id token_name minter) ;;;
  map_err (fun e => CreateCommon (state_write e))
    (map_set balances_map (mint_to_address, token_id) initial_balance) ;;;
  map_err (fun e => CreateCommon (state_write e)) (map_set tokens_map token_id token) ;;;
  emit_event (TokenCreated token_name (mkCoins initial_balance token_id)
    mint_to_address minter cap admin_list) ;;;
  ret token_id.

Definition decrease_balance_checked (tid : TokenId) (from : TokenHolder) (amt : N)
  : M (acc G t) CommonError N :=
  let! balance := map_err state_read (map_get balances_map (from, tid)) in
  let balance := default Amount.ZERO balance in
  let! new_balance :=
    ok_or (Amount.checked_sub balance amt) (Arithmetic (UnderflowError balance amt)) in
  map_err state_write (map_set balances_map (from, tid) new_balance) ;;;
  ret new_balance.

Definition do_transfer (from to : TokenHolder) (tid : TokenId) (amt : N)
  : M (acc G t) TransferTokenError unit :=
  if bool_decide (from = to) then
    let! balance :=
      map_err (fun e => TransferCommon (state_read e)) (map_get balances_map (from, tid)) in
    let balance := default Amount.ZERO balance in
    ensure (negb (balance <? amt)) (InsufficientBalance amt balance from to tid)
  else if amt =? 0 then ret tt
  else
    let! from_balance := map_err TransferCommon (decrease_balance_checked tid from amt) in
    let! current_to_balance :=
      map_err (fun e => TransferCommon (state_read e)) (map_get balances_map (to, tid)) in
    let current_to_balance := default Amount.ZERO current_to_balance in
    let! to_balance :=
      ok_or (Amount.checked_add current_to_balance amt)
        (TransferCommon (Arithmetic (OverflowError current_to_balance amt))) in
    map_err (fun e => TransferCommon (state_write e))
      (map_set balances_map (from, tid) from_balance) ;;;
    map_err (fun e => TransferCommon (state_write e))
      (map_set balances_map (to, tid) to_balance).

Definition transfer_from (from to : TokenHolder) (coins : Coins)
  : M (acc G t) TransferTokenError unit :=
  do_transfer from to (token_id coins) (amount coins).

Definition transfer_from_with_memo (from to : TokenHolder) (coins : Coins)
    (memo : option string) : M (acc G t) TransferTokenError unit :=
  do_transfer from to (token_id coins) (amount coins) ;;;
  emit_event (TokenTransferred from to coins memo).

Definition transfer_with_memo (to : TokenHolder) (coins : Coins) (memo : option string)
    (context : Context Sp) : M (acc G t) TransferTokenError unit :=
  transfer_from (HolderUser (sender context)) to coins ;;;
  emit_event (TokenTransferred (HolderUser (sender context)) to coins memo).

Definition transfer (to : TokenHolder) (coins : Coins) (context : Context Sp)
  : M (acc G t) TransferTokenError unit :=
  transfer_with_memo to coins None context.

Definition burn (coins : Coins) (owner : TokenHolder) : M (acc G t) CommonError unit :=
  let! token := map_err state_read (map_get tokens_map (token_id coins)) in
  let! token := ok_or token (TokenNotFound (token_id coins)) in
  let! new_supply :=
    ok_or (Amount.checked_sub (total_supply token) (amount coins))
      (Arithmetic (UnderflowError (total_supply token) (amount coins))) in
  let token := mkToken (name token) new_supply (supply_cap token) (admins token) in
  map_err state_write (map_set tokens_map (token_id coins) token) ;;;
  let! _ := decrease_balance_checked (token_id coins) owner (amount coins) in
  emit_event (TokenBurned owner coins).

Definition burn_from_eoa (coins : Coins) (context : Context Sp)
  : M (acc G t) CommonError unit :=
  burn coins (HolderUser (sender context)).

Definition mint (coins : Coins) (mint_to_identity authorizer : TokenHolder)
  : M (acc G t) MintTokenError unit :=
  let! token :=
    map_err (fun e => MintCommon (state_read e)) (map_get tokens_map (token_id coins)) in
  let! token := ok_or token (MintCommon (TokenNotFound (token_id coins))) in
  let! token := from_sum (update_for_mint_if_allowed token authorizer (amount coins)) in
  map_err (fun e => MintCommon (state_write e)) (map_set tokens_map (token_id coins) token) ;;;
  let! current_to_balance :=
    map_err (fun e => MintCommon (state_read e))
      (map_get balances_map (mint_to_identity, token_id coins)) in
  let current_to_balance := default Amount.ZERO current_to_balance in
  let! to_balance :=
    ok_or (Amount.checked_add current_to_balance (amount coins))
      (MintCommon (Arithmetic (OverflowError current_to_balance (amount coins)))) in
  map_err (fun e => MintCommon (state_write e))
    (map_set balances_map (mint_to_identity, token_id coins) to_balance) ;;;
  emit_event (TokenMinted authorizer mint_to_identity coins).

Definition mint_from_eoa (coins : Coins) (mint_to_identity : TokenHolder)
    (context : Context Sp) : M (acc G t) MintTokenError unit :=
  mint coins mint_to_identity (HolderUser (sender context)).

Definition override_gas_balance (balance : N) (address : TokenHolder)
  : M (acc G t) StateAccessorError unit :=
  map_set balances_map (address, config_gas_token_id) balance.

Definition freeze (tid : TokenId) (context : Context Sp) : M (acc G t) CommonError unit :=
  let sender := HolderUser (sender context) in
  let! token := map_err state_read (map_get tokens_map tid) in
  let! token := ok_or token (TokenNotFound tid) in
  let! token := from_sum (token_freeze token sender) in
  map_err state_write (map_set tokens_map tid token) ;;;
  emit_event (TokenFrozen sender tid).

Definition update_admin_address (new_address : option Address) (tid : TokenId)
    (context : Context Sp) : M (acc G t) UpdateAdminError unit :=
  let! token := map_err (fun e => UpdateCommon (state_read e)) (map_get tokens_map tid) in
  let! token := ok_or token (UpdateCommon (TokenNotFound tid)) in
  let! token := from_sum (token_update_admin token new_address (sender context)) in
  map_err (fun e => UpdateCommon (state_write e)) (map_set tokens_map tid token).

Definition get_token (tid : TokenId) : M (acc G t) StateAccessorError (option Token) :=
  map_get tokens_map tid.

Definition get_balance_of (user_address : TokenHolder) (tid : TokenId)
  : M (acc G t) StateAccessorError (option N) :=
  map_get balances_map (user_address, tid).

Definition get_token_name (tid : TokenId) : M (acc G t) StateAccessorError (option string) :=
  let! token := map_get tokens_map tid in
  ret (name <$> token).

Definition get_total_supply_of (tid : TokenId) : M (acc G t) StateAccessorError (option N) :=
  let! token := map_get tokens_map tid in
  ret (total_supply <$> token).

(** ** The dispatcher, lib.rs *)
Definition call (msg : CallMessage) (context : Context Sp) : M (acc G t) Error unit :=
  match msg with
  | CallCreateToken token_name token_decimals initial_balance mint_to_address admin_list cap =>
      let! _ :=
        map_err CreateToken
          (create_token token_name token_decimals initial_balance
             (HolderUser mint_to_address) (map HolderUser admin_list) cap
             (HolderUser (sender context))) in
      ret tt
  | CallTransfer to coins => map_err TransferToken (transfer (HolderUser to) coins context)
  | CallTransferWithMemo to coins memo =>
      map_err TransferToken (transfer_with_memo (HolderUser to) coins (Some memo) context)
  | CallBurn coins => map_err BurnToken (burn_from_eoa coins context)
  | CallMint coins mint_to_address =>
      map_err MintToken (mint_from_eoa coins (HolderUser mint_to_address) context)
  | CallFreeze tid => map_err FreezeToken (freeze tid context)
  | CallUpdateAdmin new_admin tid =>
      map_err UpdateAdmin (update_admin_address new_admin tid context)
  end.

(** ** Genesis, genesis.rs *)
Inductive GenesisError : Type :=
| GenesisState (e : StateAccessorError)
| OverflowedTokenSupply
| SupplyExceedsCap (supply cap : N)
| TokenIdExists (tid : TokenId).

(** The loop over [address_and_balances]. *)
Definition genesis_balance (tid : TokenId) (supply : N) (entry : Address * N)
  : M (acc G t) GenesisError N :=
  let '(address, balance) := entry in
  map_err GenesisState (map_set balances_map (HolderUser address, tid) balance) ;;;
  ok_or (Amount.checked_add supply balance) OverflowedTokenSupply.

Definition genesis_token (c : TokenConfig) : M (acc G t) GenesisError unit :=
  let tid := cfg_token_id c in
  let! supply := fold_m (genesis_balance tid) Amount.ZERO (address_and_balances c) in
  let cap := default Amount.MAX (cfg_supply_cap c) in
  ensure (negb (cap <? supply)) (SupplyExceedsCap supply cap) ;;;
  let token := mkToken (cfg_token_name c) supply cap
    (unique_holders (map HolderUser (cfg_admins c))) in
  let! existing := map_err GenesisState (map_get tokens_map tid) in
  ensure (negb (bool_decide (is_Some existing))) (TokenIdExists tid) ;;;
  map_err GenesisState (map_set tokens_map tid token).

Definition init_module (config : BankConfig) : M (acc G t) GenesisError unit :=
  for_each genesis_token
    (option_list (token_config_from <$> gas_token_config config) ++ token_configs config).

(** ** Gas reservation, capability.rs *)
Inductive ReserveGasError : Type :=
| AccountDoesNotExist
| InsufficientBalanceToReserveGas
| CurrentGasPriceTooHigh
| MaxGasLimitExceeded
| ImpossibleToTransferGas (e : TransferTokenError)
| StateAccessError (e : StateAccessorError).

Definition reserve_gas (tx : TxDetails) (gas_price : list N) (payer : Address)
  : M (acc G t) ReserveGasError unit :=
  let! balance :=
    map_err StateAccessError (get_balance_of (HolderUser payer) config_gas_token_id) in
  let balance := default Amount.ZERO balance in
  ensure (negb (balance <? max_fee tx)) InsufficientBalanceToReserveGas ;;;
  match gas_limit tx with
  | Some gas_limit =>
      let! gas_value :=
        ok_or (GasArray.checked_value gas_limit gas_price) CurrentGasPriceTooHigh in
      ensure (negb (max_fee tx <? gas_value)) CurrentGasPriceTooHigh
  | None => ret tt
  end ;;;
  let! bank_id := gets id in
  map_err ImpossibleToTransferGas
    (transfer_from (HolderUser payer) (HolderModule bank_id)
       (mkCoins (max_fee tx) config_gas_token_id)).
End Operations.

(** ** The invariant and the abstract view of the state *)

Definition balance (s : t) (h : TokenHolder) (tid : TokenId) : N :=
  default 0 (balances s !! (h, tid)).

Definition supply (s : t) (tid : TokenId) : N :=
  match tokens s !! tid with Some tk => total_supply tk | None => 0 end.

(** The sum of all balances of a token. *)
Definition circulating (tid : TokenId) (m : gmap BalanceKey N) : N :=
  map_sum (fun k v => if bool_decide (k.2 = tid) then v else 0) m.

Definition token_wf (tk : Token) : Prop :=
  total_supply tk <= supply_cap tk /\ supply_cap tk <= u128_max /\ NoDup (admins tk).

Record inv (s : t) : Prop := mkInv {
  inv_supply : forall tid, circulating tid (balances s) = supply s tid;
  inv_tokens : forall tid tk, tokens s !! tid = Some tk -> token_wf tk
}.

(** The amounts of a message are [u128]s. *)
Definition opt_u128 (o : option N) : Prop := default 0 o <= u128_max.

Definition msg_wf (msg : CallMessage) : Prop :=
  match msg with
  | CallCreateToken _ _ initial_balance _ _ cap => initial_balance <= u128_max /\ opt_u128 cap
  | CallTransfer _ coins | CallBurn coins | CallMint coins _
  | CallTransferWithMemo _ coins _ => amount coins <= u128_max
  | CallFreeze _ | CallUpdateAdmin _ _ => True
  end.

(** The effect of a transfer that succeeds. *)
Definition set_balances (m : gmap BalanceKey N) (s : t) : t :=
  mk (id s) (tokens s) m (events s).

Definition transferred (s : t) (from to : TokenHolder) (tid : TokenId) (amt : N) : t :=
  if bool_decide (from = to \/ amt = 0) then s
  else set_balances
    (<[(to, tid) := balance s to tid + amt]>
       (<[(from, tid) := balance s from tid - amt]> (balances s))) s.

(** The effects of the other operations when they succeed. *)
Definition with_token (s : t) (tid : TokenId) (tk : Token) (ev : list Event) : t :=
  mk (id s) (<[tid := tk]> (tokens s)) (balances s) (events s ++ ev).

Definition with_supply (tk : Token) (n : N) : Token :=
  mkToken (name tk) n (supply_cap tk) (admins tk).

Definition minted (s : t) (tk : Token) (coins : Coins) (to authorizer : TokenHolder) : t :=
  let tid := token_id coins in
  set_balances (<[(to, tid) := balance s to tid + amount coins]> (balances s))
    (with_token s tid (with_supply tk (total_supply tk + amount coins))
       [TokenMinted authorizer to coins]).

Definition burned (s : t) (tk : Token) (coins : Coins) (owner : TokenHolder) : t :=
  let tid := token_id coins in
  set_balances (<[(owner, tid) := balance s owner tid - amount coins]> (balances s))
    (with_token s tid (with_supply tk (total_supply tk - amount coins))
       [TokenBurned owner coins]).

Definition created (s : t) (tid : TokenId) (tk : Token) (to minter : TokenHolder) : t :=
  set_balances (<[(to, tid) := total_supply tk]> (balances s))
    (with_token s tid tk
       [TokenCreated (name tk) (mkCoins (total_supply tk) tid) to minter
          (supply_cap tk) (admins tk)]).

Definition emitted (ev : Event) (s : t) : t :=
  mk (id s) (tokens s) (balances s) (events s ++ [ev]).

(** The abstract specification of the call messages: what a call that succeeds
    requires of the state and of the sender, and the state it leads to. *)
Inductive effect (c : Context Sp) (s : t) : CallMessage -> t -> Prop :=
| effect_create nm dec initial to adm cap :
    let minter := HolderUser (sender c) in
    let tid := get_token_id (string_bytes nm) dec minter in
    tokens s !! tid = None ->
    initial <= default Amount.MAX cap ->
    default 0 dec <= Amount.MAX_DECIMALS ->
    effect c s (CallCreateToken nm dec initial to adm cap)
      (created s tid (mkToken nm initial (default Amount.MAX cap)
         (unique_holders (map HolderUser adm))) (HolderUser to) minter)
| effect_transfer to coins :
    let from := HolderUser (sender c) in
    amount coins <= balance s from (token_id coins) ->
    effect c s (CallTransfer to coins)
      (emitted (TokenTransferred from (HolderUser to) coins None)
         (transferred s from (HolderUser to) (token_id coins) (amount coins)))
| effect_transfer_with_memo to coins memo :
    let from := HolderUser (sender c) in
    amount coins <= balance s from (token_id coins) ->
    effect c s (CallTransferWithMemo to coins memo)
      (emitted (TokenTransferred from (HolderUser to) coins (Some memo))
         (transferred s from (HolderUser to) (token_id coins) (amount coins)))
| effect_burn coins tk :
    let owner := HolderUser (sender c) in
    tokens s !! token_id coins = Some tk ->
    amount coins <= total_supply tk ->
    amount coins <= balance s owner (token_id coins) ->
    effect c s (CallBurn coins) (burned s tk coins owner)
| effect_mint coins to tk :
    let authorizer := HolderUser (sender c) in
    tokens s !! token_id coins = Some tk ->
    authorizer ∈ admins tk ->
    total_supply tk + amount coins <= supply_cap tk ->
    effect c s (CallMint coins to) (minted s tk coins (HolderUser to) authorizer)
| effect_freeze tid tk :
    let freezer := HolderUser (sender c) in
    tokens s !! tid = Some tk ->
    freezer ∈ admins tk ->
    effect c s (CallFreeze tid) (with_token s tid (set_admins tk []) [TokenFrozen freezer tid])
| effect_update_admin new tid tk i :
    tokens s !! tid = Some tk ->
    admins tk !! i = Some (HolderUser (sender c)) ->
    match new with Some n => HolderUser n ∉ admins tk | None => True end ->
    effect c s (CallUpdateAdmin new tid)
      (with_token s tid (set_admins tk (match new with
         | Some n => <[i := HolderUser n]> (admins tk)
         | None => delete i (admins tk) end)) []).

(** What a message mints and burns of each token when it succeeds. *)
Definition mints (c : Context Sp) (msg : CallMessage) (tid : TokenId) : N :=
  match msg with
  | CallCreateToken nm dec initial _ _ _ =>
      if bool_decide (tid = get_token_id (string_bytes nm) dec (HolderUser (sender c)))
      then initial else 0
  | CallMint coins _ => if bool_decide (tid = token_id coins) then amount coins else 0
  | _ => 0
  end.

Definition burns (msg : CallMessage) (tid : TokenId) : N :=
  match msg with
  | CallBurn coins => if bool_decide (tid = token_id coins) then amount coins else 0
  | _ => 0
  end.

(** Genesis: what a token is configured to be, and the configurations that
    genesis is meant for. *)
Definition config_list (config : BankConfig) : list TokenConfig :=
  option_list (token_config_from <$> gas_token_config config) ++ token_configs config.

Definition configured (s : t) (c : TokenConfig) : Prop :=
  tokens s !! cfg_token_id c = Some (mkToken (cfg_token_name c)
    (sum_N (map snd (address_and_balances c))) (default Amount.MAX (cfg_supply_cap c))
    (unique_holders (map HolderUser (cfg_admins c)))) /\
  forall a b, (a, b) ∈ address_and_balances c -> balance s (HolderUser a) (cfg_token_id c) = b.

Definition config_wf (c : TokenConfig) : Prop :=
  NoDup (map fst (address_and_balances c)) /\ opt_u128 (cfg_supply_cap c).

Definition empty (bank_id : ModuleId) : t := mk bank_id ∅ ∅ [].

(** The outcome of the checks of [reserve_gas] in a state. *)
Definition reserve_check (tx : TxDetails) (gas_price : list N) (available : N)
  : option ReserveGasError :=
  if available <? max_fee tx then Some InsufficientBalanceToReserveGas
  else match gas_limit tx with
       | None => None
       | Some l =>
           match GasArray.checked_value l gas_price with
           | None => Some CurrentGasPriceTooHigh
           | Some v => if max_fee tx <? v then Some CurrentGasPriceTooHigh else None
           end
       end.

(** The inputs of the token id hash are shorter than 4 GiB. *)
Definition hash_input_short (c : Context Sp) (msg : CallMessage) : Prop :=
  match msg with
  | CallCreateToken nm _ _ _ _ _ =>
      N.of_nat (length (address_as_ref (sender c))) <= u32_max /\
      N.of_nat (length (string_bytes nm)) <= u32_max
  | _ => True
  end.

(** A transaction: its writes are kept when the call succeeds and reverted
    otherwise. *)
Definition exec {G : Type} `{GasMeter G} (g : G) (msg : CallMessage) (context : Context Sp)
    (s : t) : t :=
  match call msg context (Acc g s) with
  | (Ok _, a) => store a
  | _ => s
  end.

(** States that transactions lead to from [s]. *)
Inductive steps {G : Type} `{GasMeterLaws G} (s : t) : t -> Prop :=
| steps_refl : steps s s
| steps_call s' g msg context :
    steps s s' -> meter_wf g -> msg_wf msg -> steps s (exec g msg context s').
End BankModule.
End Bank.

(** ** Lemmas *)

Module BankFacts.
Import Bank.
(** Reads and writes of the two state maps, in terms of the record. *)
Ltac bank_simpl :=
  change Amount.ZERO with 0 in *; unfold balances_map, tokens_map in *;
  cbn [map_read map_write balances tokens id events] in *;
  repeat match goal with
  | H : context [from_option Datatypes.id 0 (balances ?s !! (?h, ?tid))] |- _ =>
      change (from_option Datatypes.id 0 (balances s !! (h, tid))) with (balance s h tid) in H
  | |- context [from_option Datatypes.id 0 (balances ?s !! (?h, ?tid))] =>
      change (from_option Datatypes.id 0 (balances s !! (h, tid))) with (balance s h tid)
  end; checked_simpl; subst.

Section Facts.
Context {Sp : Spec}.
Implicit Types (h from to : TokenHolder) (tid : TokenId) (v amt : N) (s : t).

(** *** Sums of balances *)

Lemma circulating_insert tid h tid' v (m : gmap BalanceKey N) :
  circulating tid (<[(h, tid'):=v]> m)
    + (if bool_decide (tid' = tid) then default 0 (m !! (h, tid')) else 0)
  = circulating tid m + (if bool_decide (tid' = tid) then v else 0).
Proof.
  unfold circulating.
  pose proof (map_sum_insert (fun (k : BalanceKey) v => if bool_decide (k.2 = tid) then v else 0)
    m (h, tid') v) as Hs.
  unfold opt_val in Hs. cbn [snd] in Hs.
  destruct (bool_decide (tid' = tid)), (m !! (h, tid')); cbn in *; lia.
Qed.

Lemma circulating_insert_ne tid h tid' v (m : gmap BalanceKey N) :
  tid' <> tid -> circulating tid (<[(h, tid'):=v]> m) = circulating tid m.
Proof.
  intros Hne. pose proof (circulating_insert tid h tid' v m) as Hs.
  rewrite (bool_decide_eq_false_2 (tid' = tid)) in Hs by done. lia.
Qed.

Lemma circulating_insert_eq tid h v (m : gmap BalanceKey N) :
  circulating tid (<[(h, tid):=v]> m) + default 0 (m !! (h, tid)) = circulating tid m + v.
Proof.
  pose proof (circulating_insert tid h tid v m) as Hs.
  by rewrite !(bool_decide_eq_true_2 (tid = tid)) in Hs.
Qed.

Lemma opt_val_balance s h tid :
  opt_val (fun (k : BalanceKey) v => if bool_decide (k.2 = tid) then v else 0)
    (balances s) (h, tid) = balance s h tid.
Proof.
  unfold opt_val, balance. destruct (balances s !! (h, tid)); [|done]. cbn.
  by rewrite bool_decide_eq_true_2.
Qed.

Lemma balance_le_circulating s h tid : balance s h tid <= circulating tid (balances s).
Proof. rewrite <- opt_val_balance. apply map_sum_opt_val_le. Qed.

Lemma two_balances_le s h1 h2 tid :
  h1 <> h2 -> balance s h1 tid + balance s h2 tid <= circulating tid (balances s).
Proof.
  intros Hne. rewrite <- !opt_val_balance. apply map_sum_two_le. congruence.
Qed.

(** *** Consequences of the invariant *)

Lemma supply_bound s tid : inv s -> supply s tid <= u128_max.
Proof.
  intros Hinv. unfold supply. destruct (tokens s !! tid) as [tk|] eqn:Htk; [|done].
  destruct (inv_tokens s Hinv _ _ Htk) as (? & ? & _). lia.
Qed.

Lemma balance_bound s h tid : inv s -> balance s h tid <= supply s tid.
Proof. intros Hinv. rewrite <- (inv_supply s Hinv). apply balance_le_circulating. Qed.

(** Two balances of one token cannot overflow: the check in [do_transfer] never
    fires on a reachable state. *)
Lemma no_overflow s from to tid amt :
  inv s -> from <> to -> amt <= balance s from tid -> balance s to tid + amt <= u128_max.
Proof.
  intros Hinv Hne Hamt. pose proof (two_balances_le s from to tid Hne) as Hle.
  rewrite (inv_supply s Hinv) in Hle. pose proof (supply_bound s tid Hinv). lia.
Qed.

(** *** Transfers as a function of the state *)

Lemma balance_transferred s from to tid amt h tid' :
  amt <= balance s from tid ->
  balance (transferred s from to tid amt) h tid' =
    if bool_decide (tid' = tid /\ from <> to) then
      if bool_decide (h = from) then balance s from tid - amt
      else if bool_decide (h = to) then balance s to tid + amt
      else balance s h tid'
    else balance s h tid'.
Proof.
  intros Hamt. unfold transferred.
  destruct (decide (from = to)) as [->|Hne].
  { rewrite bool_decide_eq_true_2 by auto. by rewrite bool_decide_eq_false_2 by naive_solver. }
  destruct (decide (amt = 0)) as [->|Hnz].
  { rewrite bool_decide_eq_true_2 by auto. repeat case_bool_decide; naive_solver lia. }
  rewrite bool_decide_eq_false_2 by naive_solver.
  unfold balance at 1. cbn.
  destruct (decide (tid' = tid)) as [->|Ht].
  - rewrite bool_decide_eq_true_2 by done.
    destruct (decide (h = from)) as [->|Hf].
    { rewrite bool_decide_eq_true_2 by done.
      rewrite lookup_insert_ne by congruence. by rewrite lookup_insert_eq. }
    rewrite bool_decide_eq_false_2 by done.
    destruct (decide (h = to)) as [->|Htt].
    { rewrite bool_decide_eq_true_2 by done. by rewrite lookup_insert_eq. }
    rewrite bool_decide_eq_false_2 by done. by rewrite !lookup_insert_ne by congruence.
  - rewrite bool_decide_eq_false_2 by naive_solver.
    by rewrite !lookup_insert_ne by congruence.
Qed.

Lemma circulating_transferred s from to tid amt tid' :
  amt <= balance s from tid ->
  circulating tid' (balances (transferred s from to tid amt)) = circulating tid' (balances s).
Proof.
  intros Hamt. unfold transferred. case_bool_decide as Hc; [done|].
  assert (from <> to) as Hne by tauto. cbn.
  destruct (decide (tid = tid')) as [<-|Ht]; [|by rewrite !circulating_insert_ne by done].
  pose proof (circulating_insert_eq tid from (balance s from tid - amt) (balances s)) as H1.
  pose proof (circulating_insert_eq tid to (balance s to tid + amt)
    (<[(from, tid):=balance s from tid - amt]> (balances s))) as H2.
  rewrite lookup_insert_ne in H2 by congruence.
  fold (balance s from tid) in H1. fold (balance s to tid) in H2. lia.
Qed.

Lemma tokens_transferred s from to tid amt :
  tokens (transferred s from to tid amt) = tokens s.
Proof. unfold transferred. by case_bool_decide. Qed.

Lemma id_transferred s from to tid amt : id (transferred s from to tid amt) = id s.
Proof. unfold transferred. by case_bool_decide. Qed.

Lemma supply_transferred s from to tid amt tid' :
  supply (transferred s from to tid amt) tid' = supply s tid'.
Proof. unfold supply. by rewrite tokens_transferred. Qed.

Lemma inv_transferred s from to tid amt :
  inv s -> amt <= balance s from tid -> inv (transferred s from to tid amt).
Proof.
  intros Hinv Hamt. split.
  - intros tid'. rewrite circulating_transferred, supply_transferred by done. by apply inv_supply.
  - intros tid' tk. rewrite tokens_transferred. by apply inv_tokens.
Qed.

(** Emitting an event does not change what the invariant is about. *)
Lemma inv_eq s s' :
  tokens s' = tokens s -> balances s' = balances s -> inv s -> inv s'.
Proof.
  intros Ht Hb [Hs Hw]. split; unfold supply in *.
  - intros tid. by rewrite Hb, Ht.
  - intros tid tk. rewrite Ht. apply Hw.
Qed.

(** *** The rules of the operations *)

Section Rules.
Context {G : Type} `{GasMeterLaws G}.

(** A transfer succeeds exactly when the balance suffices; a transfer that fails
    for lack of balance changes nothing.  A refused charge may leave the sender
    debited: undoing that is left to the transaction's revert. *)
Lemma wp_do_transfer from to tid amt (Q : outcome TransferTokenError unit -> t -> Prop) s :
  inv s ->
  (can_fail -> forall e s', tokens s' = tokens s -> id s' = id s -> Q (Err e) s') ->
  (balance s from tid < amt -> forall e, Q (Err e) s) ->
  (amt <= balance s from tid -> Q (Ok tt) (transferred s from to tid amt)) ->
  wp (do_transfer from to tid amt) Q s.
Proof.
  intros Hinv Hf Hlow Hok. unfold do_transfer, transferred in *.
  destruct (bool_decide (from = to)) eqn:Hft; checked_simpl.
  { rewrite bool_decide_eq_true_2 in Hok by auto.
    repeat wp_step; [by apply Hf|..]; bank_simpl; auto. }
  destruct (N.eqb_spec amt 0) as [->|Hnz].
  { rewrite bool_decide_eq_true_2 in Hok by auto. wp_step. apply Hok. lia. }
  rewrite bool_decide_eq_false_2 in Hok by naive_solver.
  unfold decrease_balance_checked.
  repeat wp_step; try (by apply Hf); bank_simpl;
    rewrite ?lookup_insert_ne in * by congruence; bank_simpl.
  - rewrite insert_insert_eq. auto.
  - exfalso. pose proof (no_overflow s from to tid amt Hinv Hft). lia.
  - auto.
Qed.
Lemma wp_mint coins to auth (Q : outcome MintTokenError unit -> t -> Prop) s :
  (forall e s', Q (Err e) s') ->
  (forall tk, tokens s !! token_id coins = Some tk -> auth ∈ admins tk ->
     total_supply tk + amount coins <= supply_cap tk -> Q (Ok tt) (minted s tk coins to auth)) ->
  wp (mint coins to auth) Q s.
Proof.
  intros He Hok. unfold mint, emit_event. repeat wp_step; auto. bank_simpl.
  rename a into tk, a0 into tk'.
  match goal with H : update_for_mint_if_allowed _ _ _ = _ |- _ => rename H into Hu end.
  unfold update_for_mint_if_allowed, assert_is_admin, is_admin in Hu.
  destruct (admins tk) eqn:Hadm; [done|]. rewrite <- Hadm in *.
  destruct (bool_decide _) eqn:Hin in Hu; [|done].
  destruct (Amount.checked_add _ _) eqn:Hadd in Hu; [|done].
  destruct (supply_cap tk <? n) eqn:Hcap; [done|]. bank_simpl. simplify_eq. by apply Hok.
Qed.

Lemma wp_burn coins owner (Q : outcome CommonError unit -> t -> Prop) s :
  (forall e s', Q (Err e) s') ->
  (forall tk, tokens s !! token_id coins = Some tk -> amount coins <= total_supply tk ->
     amount coins <= balance s owner (token_id coins) ->
     Q (Ok tt) (burned s tk coins owner)) ->
  wp (burn coins owner) Q s.
Proof.
  intros He Hok. unfold burn, decrease_balance_checked, emit_event.
  repeat wp_step; auto. bank_simpl. by apply Hok.
Qed.

Lemma wp_get_token_id_metered nm dec orig (Q : outcome GasMeteringError TokenId -> t -> Prop) s :
  (forall e, Q (Err e) s) -> Q (Ok (get_token_id nm dec orig)) s ->
  wp (get_token_id_metered nm dec orig) Q s.
Proof. intros He Hok. unfold get_token_id_metered. repeat wp_step; auto. Qed.

Lemma wp_create_token nm dec initial to adm cap minter
    (Q : outcome CreateTokenError TokenId -> t -> Prop) s :
  (forall e s', Q (Err e) s') ->
  (let tid := get_token_id (string_bytes nm) dec minter in
   tokens s !! tid = None -> initial <= default Amount.MAX cap ->
   default 0 dec <= Amount.MAX_DECIMALS ->
   Q (Ok tid) (created s tid
     (mkToken nm initial (default Amount.MAX cap) (unique_holders adm)) to minter)) ->
  wp (create_token nm dec initial to adm cap minter) Q s.
Proof.
  intros He Hok. unfold create_token.
  apply wp_bind. apply (wp_mono _ (fun o s' => s' = s /\
    match o with Ok _ => default 0 dec <= Amount.MAX_DECIMALS | Err _ => True | Panic => False end)).
  { destruct dec as [d|]; repeat wp_step; bank_simpl; auto. split; [done|].
    unfold Amount.MAX_DECIMALS. cbn. lia. }
  intros [[]|e|] s' [-> Hd]; wp_red; [|auto|done].
  wp_step. wp_step; [|auto]. bank_simpl.
  apply wp_bind, wp_map_err, wp_get_token_id_metered; wp_red; auto.
  unfold emit_event. repeat wp_step; auto. bank_simpl. apply Hok; [|done..].
  by apply eq_None_not_Some.
Qed.

Lemma wp_freeze tid c (Q : outcome CommonError unit -> t -> Prop) s :
  (forall e s', Q (Err e) s') ->
  (forall tk, tokens s !! tid = Some tk -> HolderUser (sender c) ∈ admins tk ->
     Q (Ok tt) (with_token s tid (set_admins tk []) [TokenFrozen (HolderUser (sender c)) tid])) ->
  wp (freeze tid c) Q s.
Proof.
  intros He Hok. unfold freeze, emit_event. repeat wp_step; auto. bank_simpl.
  rename a into tk, a0 into tk'.
  match goal with H : token_freeze _ _ = _ |- _ => rename H into Hu end.
  unfold token_freeze, assert_is_admin, is_admin in Hu.
  destruct (admins tk) eqn:Hadm; [done|]. rewrite <- Hadm in *.
  destruct (bool_decide _) eqn:Hin in Hu; [|done]. bank_simpl. simplify_eq. by apply Hok.
Qed.

(** [token_update_admin] replaces or removes exactly the sender's entry. *)
Lemma token_update_admin_inl tk new old tk' :
  token_update_admin tk new old = inl tk' ->
  exists i, admins tk !! i = Some (HolderUser old) /\
    tk' = set_admins tk (match new with
      | Some n => <[i := HolderUser n]> (admins tk) | None => delete i (admins tk) end) /\
    match new with Some n => HolderUser n ∉ admins tk | None => True end.
Proof.
  unfold token_update_admin, find_admin_index. intros Hu.
  destruct (list_find _ (admins tk)) as [[i x]|] eqn:Hf; [|done]. cbn in Hu.
  apply list_find_Some in Hf as (Hi & -> & _).
  destruct new as [n|]; [|simplify_eq; eauto].
  destruct (list_find (fun a => a = HolderUser n) (admins tk)) as [[j y]|] eqn:Hf;
    cbn in Hu; [done|].
  exists i. simplify_eq. split_and!; [done|done|].
  intros Hin. apply list_find_None in Hf. rewrite Forall_forall in Hf. by apply (Hf _ Hin).
Qed.

Lemma wp_update_admin_address new tid c (Q : outcome UpdateAdminError unit -> t -> Prop) s :
  (forall e s', Q (Err e) s') ->
  (forall tk tk', tokens s !! tid = Some tk ->
     token_update_admin tk new (sender c) = inl tk' ->
     Q (Ok tt) (with_token s tid tk' [])) ->
  wp (update_admin_address new tid c) Q s.
Proof.
  intros He Hok. unfold update_admin_address. repeat wp_step; auto. bank_simpl.
  rename a into tk, a0 into tk'. unfold with_token in Hok. rewrite <- (app_nil_r (events s)). by apply (Hok tk).
Qed.

Lemma wp_transfer_with_memo to coins memo c (Q : outcome TransferTokenError unit -> t -> Prop) s :
  inv s ->
  (forall e s', Q (Err e) s') ->
  (let from := HolderUser (sender c) in
   amount coins <= balance s from (token_id coins) ->
   let s' := transferred s from to (token_id coins) (amount coins) in
   Q (Ok tt) (mk (id s') (tokens s') (balances s')
     (events s' ++ [TokenTransferred from to coins memo]))) ->
  wp (transfer_with_memo to coins memo c) Q s.
Proof.
  intros Hinv He Hok. unfold transfer_with_memo, transfer_from, emit_event.
  wp_step. apply wp_do_transfer; wp_red; auto. intros Hamt. wp_step. auto.
Qed.
(** The call messages implement their specification. *)
Lemma wp_call msg c (Q : outcome Error unit -> t -> Prop) s :
  inv s ->
  (forall e s', Q (Err e) s') ->
  (forall s', effect c s msg s' -> Q (Ok tt) s') ->
  wp (call msg c) Q s.
Proof.
  intros Hinv He Hok. destruct msg; unfold call, transfer, burn_from_eoa, mint_from_eoa.
  - apply wp_bind, wp_map_err, wp_create_token; wp_red; auto.
    intros. wp_step. apply Hok. by constructor.
  - apply wp_map_err, wp_transfer_with_memo; wp_red; auto.
    intros. apply Hok. by constructor.
  - apply wp_map_err, wp_burn; wp_red; auto. intros. apply Hok. by constructor.
  - apply wp_map_err, wp_mint; wp_red; auto. intros. apply Hok. by constructor.
  - apply wp_map_err, wp_freeze; wp_red; auto. intros. apply Hok. by constructor.
  - apply wp_map_err, wp_update_admin_address; wp_red; auto. intros tk tk' Htk Hu. apply Hok.
    apply token_update_admin_inl in Hu as (i & Hi & -> & Hn). by constructor.
  - apply wp_map_err, wp_transfer_with_memo; wp_red; auto.
    intros. apply Hok. by constructor.
Qed.
End Rules.

(** *** Every effect preserves the invariant *)

Lemma inv_update s tid tk m ev :
  inv s -> token_wf tk -> circulating tid m = total_supply tk ->
  (forall tid', tid' <> tid -> circulating tid' m = circulating tid' (balances s)) ->
  inv (set_balances m (with_token s tid tk ev)).
Proof.
  intros Hinv Hwf Heq Hne. split; cbn.
  - intros tid'. unfold supply. cbn. destruct (decide (tid' = tid)) as [->|Ht].
    + by rewrite lookup_insert_eq.
    + rewrite lookup_insert_ne by done. rewrite Hne by done. by apply inv_supply.
  - intros tid' tk'. destruct (decide (tid' = tid)) as [->|Ht].
    + rewrite lookup_insert_eq. by intros [= <-].
    + rewrite lookup_insert_ne by done. by apply inv_tokens.
Qed.

(** Setting one balance of a token and its supply by the same amount. *)
Lemma inv_update_one s tid tk h v ev :
  inv s -> token_wf tk ->
  supply s tid + v = total_supply tk + balance s h tid ->
  inv (set_balances (<[(h, tid) := v]> (balances s)) (with_token s tid tk ev)).
Proof.
  intros Hinv Hwf Heq. apply inv_update; [done|done| |].
  - pose proof (circulating_insert_eq tid h v (balances s)) as Hc.
    rewrite (inv_supply s Hinv) in Hc. fold (balance s h tid) in Hc. lia.
  - intros tid' Ht. by apply circulating_insert_ne.
Qed.

Lemma supply_token s tid tk : tokens s !! tid = Some tk -> supply s tid = total_supply tk.
Proof. unfold supply. by intros ->. Qed.

Lemma inv_minted s tk coins to auth :
  inv s -> tokens s !! token_id coins = Some tk ->
  total_supply tk + amount coins <= supply_cap tk -> inv (minted s tk coins to auth).
Proof.
  intros Hinv Htk Hcap. destruct (inv_tokens s Hinv _ _ Htk) as (? & ? & ?).
  apply inv_update_one; [done|by split_and!|].
  rewrite (supply_token _ _ _ Htk). cbn. lia.
Qed.

Lemma inv_burned s tk coins owner :
  inv s -> tokens s !! token_id coins = Some tk ->
  amount coins <= total_supply tk -> amount coins <= balance s owner (token_id coins) ->
  inv (burned s tk coins owner).
Proof.
  intros Hinv Htk Hs Hb. destruct (inv_tokens s Hinv _ _ Htk) as (? & ? & ?).
  apply inv_update_one; [done|split_and!; [cbn; lia|done..]|].
  rewrite (supply_token _ _ _ Htk). cbn. lia.
Qed.

Lemma inv_created s tid tk to minter :
  inv s -> tokens s !! tid = None -> token_wf tk -> inv (created s tid tk to minter).
Proof.
  intros Hinv Htk Hwf. apply inv_update_one; [done|done|].
  pose proof (balance_bound s to tid Hinv) as Hb.
  unfold supply in *. rewrite Htk in *. lia.
Qed.

(** Changing the admins only. *)
Lemma inv_set_admins s tid tk l ev :
  inv s -> tokens s !! tid = Some tk -> NoDup l -> inv (with_token s tid (set_admins tk l) ev).
Proof.
  intros Hinv Htk Hl. destruct (inv_tokens s Hinv _ _ Htk) as (? & ? & ?).
  apply (inv_update s tid (set_admins tk l) (balances s) ev); [done|by split_and!| |done].
  rewrite (inv_supply s Hinv). by rewrite (supply_token _ _ _ Htk).
Qed.

Lemma unique_holders_from_spec seen l :
  NoDup (unique_holders_from seen l) /\
  forall h, h ∈ unique_holders_from seen l <-> h ∈ l /\ h ∉ seen.
Proof.
  revert seen. induction l as [|x l IH]; intros seen; cbn.
  { split; [constructor|]. set_solver. }
  case_bool_decide as Hx.
  - destruct (IH seen) as [Hn He]. split; [done|]. set_solver.
  - destruct (IH (x :: seen)) as [Hn He]. split.
    + constructor; [|done]. rewrite He. set_solver.
    + intros h. rewrite elem_of_cons, He, elem_of_cons.
      destruct (decide (h = x)) as [->|]; set_solver.
Qed.

Lemma inv_effect c s msg s' : inv s -> msg_wf msg -> effect c s msg s' -> inv s'.
Proof.
  intros Hinv Hmsg Heff. destruct Heff.
  - apply inv_created; [done|done|]. destruct Hmsg as [_ Hcap]. unfold opt_u128 in Hcap.
    split_and!; cbn; [done| |apply unique_holders_from_spec].
    destruct cap; cbn in *; [done|unfold Amount.MAX; lia].
  - by eapply inv_eq, inv_transferred.
  - by eapply inv_eq, inv_transferred.
  - by apply inv_burned.
  - by apply inv_minted.
  - apply inv_set_admins; [done|done|constructor].
  - apply inv_set_admins; [done|done|].
    destruct (inv_tokens s Hinv _ _ H) as (_ & _ & Hnd).
    destruct new as [n|].
    + by apply NoDup_list_insert.
    + by apply NoDup_list_delete.
Qed.
End Facts.
End BankFacts.

(** ** Consequences *)
Module BankTheorems.
Import Bank BankFacts.
Section Theorems.
Context {Sp : Spec}.
Implicit Types (h from to : TokenHolder) (tid : TokenId) (s : t).

(** The balance of a holder after an update of one entry. *)
Lemma balance_update s tid tk h v ev h' tid' :
  balance (set_balances (<[(h, tid) := v]> (balances s)) (with_token s tid tk ev)) h' tid' =
    if bool_decide (h' = h /\ tid' = tid) then v else balance s h' tid'.
Proof.
  unfold balance. cbn. case_bool_decide as Hc.
  - destruct Hc as [-> ->]. by rewrite lookup_insert_eq.
  - rewrite lookup_insert_ne by naive_solver. done.
Qed.

Lemma supply_update s tid tk m ev tid' :
  supply (set_balances m (with_token s tid tk ev)) tid' =
    if bool_decide (tid' = tid) then total_supply tk else supply s tid'.
Proof.
  unfold supply. cbn. case_bool_decide as Hc.
  - subst. by rewrite lookup_insert_eq.
  - by rewrite lookup_insert_ne.
Qed.

Lemma effect_supply c s msg s' tid :
  effect c s msg s' -> supply s' tid + burns msg tid = supply s tid + mints c msg tid.
Proof.
  intros []; cbn -[supply get_token_id].
  - unfold created. rewrite supply_update. subst tid0 minter. case_bool_decide; [|lia].
    subst tid. unfold supply. rewrite H. cbn. lia.
  - unfold supply. cbn. rewrite tokens_transferred. lia.
  - unfold supply. cbn. rewrite tokens_transferred. lia.
  - unfold burned. rewrite supply_update. case_bool_decide; [|lia]. subst tid.
    rewrite (supply_token _ _ _ H). cbn. lia.
  - unfold minted. rewrite supply_update. case_bool_decide; [|lia]. subst tid.
    rewrite (supply_token _ _ _ H). cbn. lia.
  - destruct (decide (tid = tid0)) as [->|Hne];
      unfold supply; cbn; rewrite ?lookup_insert_eq, ?lookup_insert_ne, ?H by done; cbn; lia.
  - destruct (decide (tid = tid0)) as [->|Hne];
      unfold supply; cbn; rewrite ?lookup_insert_eq, ?lookup_insert_ne, ?H by done; cbn; lia.
Qed.

(** A message never takes tokens from a holder other than its sender. *)
Lemma effect_balance_other c s msg s' h tid :
  inv s -> effect c s msg s' -> h <> HolderUser (sender c) -> balance s h tid <= balance s' h tid.
Proof.
  intros Hinv Heff Hh. destruct Heff; try done.
  - unfold created. rewrite balance_update. case_bool_decide as Hc; [|done].
    destruct Hc as [-> ->]. pose proof (balance_bound s (HolderUser to) tid0 Hinv) as Hb.
    unfold supply in Hb. rewrite H in Hb. lia.
  - change (balance s h tid <= balance (transferred s from (HolderUser to) (token_id coins)
      (amount coins)) h tid).
    rewrite balance_transferred by done. repeat case_bool_decide; naive_solver lia.
  - change (balance s h tid <= balance (transferred s from (HolderUser to) (token_id coins)
      (amount coins)) h tid).
    rewrite balance_transferred by done. repeat case_bool_decide; naive_solver lia.
  - unfold burned. rewrite balance_update. case_bool_decide; naive_solver.
  - unfold minted. rewrite balance_update. case_bool_decide as Hc; [|done].
    destruct Hc as [-> ->]. lia.
Qed.

(** A token that is frozen stays frozen, and its supply can only shrink. *)
Lemma effect_frozen c s msg s' tid tk :
  effect c s msg s' -> tokens s !! tid = Some tk -> admins tk = [] ->
  exists tk', tokens s' !! tid = Some tk' /\ admins tk' = [] /\
    total_supply tk' <= total_supply tk.
Proof.
  intros Heff Htk Hadm. destruct Heff; cbn in *; rewrite ?tokens_transferred;
    try (by exists tk).
  - exists tk. rewrite lookup_insert_ne; [done|]. congruence.
  - destruct (decide (token_id coins = tid)) as [<-|Hne].
    + rewrite lookup_insert_eq. eexists. split_and!; [done|naive_solver|].
      simplify_eq. cbn. lia.
    + rewrite lookup_insert_ne by done. by exists tk.
  - rewrite lookup_insert_ne; [by exists tk|]. intros <-. simplify_eq.
    rewrite Hadm in *. set_solver.
  - rewrite lookup_insert_ne; [by exists tk|]. intros <-. simplify_eq.
    rewrite Hadm in *. set_solver.
  - rewrite lookup_insert_ne; [by exists tk|]. intros <-. simplify_eq.
    rewrite Hadm in *. done.
Qed.

Section Metered.
Context {G : Type} `{GasMeterLaws G}.

(** A call from a state of the invariant does not panic, and one that succeeds
    has its effect. *)
Lemma call_run (g : G) msg c s :
  inv s -> meter_wf g ->
  match call msg c (Acc g s) with
  | (Ok _, a) => effect c s msg (store a)
  | (Err _, _) => True
  | (Panic, _) => False
  end.
Proof.
  intros Hinv Hg.
  pose proof (wp_call msg c (fun o s' =>
    match o with Ok _ => effect c s msg s' | Err _ => True | Panic => False end) s Hinv) as Hwp.
  specialize (Hwp ltac:(done) ltac:(done) g Hg).
  destruct (call msg c (Acc g s)) as [[]]; tauto.
Qed.

Lemma exec_inv (g : G) msg c s : inv s -> meter_wf g -> msg_wf msg -> inv (exec g msg c s).
Proof.
  intros Hinv Hg Hmsg. pose proof (call_run g msg c s Hinv Hg) as Hr. unfold exec.
  destruct (call msg c (Acc g s)) as [[]]; [|done..]. by eapply inv_effect.
Qed.

Lemma steps_inv s s' : inv s -> steps (G := G) s s' -> inv s'.
Proof. intros Hinv Hs. induction Hs; [done|]. by apply exec_inv. Qed.

Lemma steps_frozen s s' tid tk :
  inv s -> steps (G := G) s s' -> tokens s !! tid = Some tk -> admins tk = [] ->
  exists tk', tokens s' !! tid = Some tk' /\ admins tk' = [] /\
    total_supply tk' <= total_supply tk.
Proof.
  intros Hinv Hs Htk Hadm. induction Hs as [|s' g msg c Hs IH Hg Hmsg]; [by exists tk|].
  destruct IH as (tk1 & Htk1 & Hadm1 & Hle).
  pose proof (call_run g msg c s' (steps_inv _ _ Hinv Hs) Hg) as Hr. unfold exec.
  destruct (call msg c (Acc g s')) as [[]]; [|by exists tk1..].
  destruct (effect_frozen _ _ _ _ _ _ Hr Htk1 Hadm1) as (tk2 & ? & ? & ?).
  exists tk2. split_and!; [done|done|lia].
Qed.

(** *** Completeness: without a meter that refuses, the effects happen *)
Section Unmetered.
Context (Hcf : ~ can_fail).

Lemma do_transfer_complete from to tid amt s :
  inv s -> amt <= balance s from tid ->
  wp (do_transfer (G := G) from to tid amt)
    (fun o s' => o = Ok tt /\ s' = transferred s from to tid amt) s.
Proof.
  intros Hinv Hamt. apply wp_do_transfer; [done|by intros ?%Hcf| |done]. lia.
Qed.

Lemma get_token_id_complete nm dec orig s :
  N.of_nat (length (holder_as_bytes orig)) <= u32_max ->
  N.of_nat (length nm) <= u32_max ->
  wp (get_token_id_metered (G := G) nm dec orig)
    (fun o s' => o = Ok (get_token_id nm dec orig) /\ s' = s) s.
Proof.
  intros H1 H2. unfold get_token_id_metered.
  do 3 (wp_step; apply wp_hasher_update_short; wp_red; [done|by intros ?%Hcf|]).
  by wp_step.
Qed.

Lemma create_complete (c : Context Sp) s nm dec initial (to : Address) adm cap :
  let minter := HolderUser (sender c) in
  let tid := get_token_id (string_bytes nm) dec minter in
  hash_input_short c (CallCreateToken nm dec initial to adm cap) ->
  tokens s !! tid = None -> initial <= default Amount.MAX cap ->
  default 0 dec <= Amount.MAX_DECIMALS ->
  wp (create_token (G := G) nm dec initial (HolderUser to) (map HolderUser adm) cap minter)
    (fun o s' => o = Ok tid /\ s' = created s tid
       (mkToken nm initial (default Amount.MAX cap) (unique_holders (map HolderUser adm)))
       (HolderUser to) minter) s.
Proof.
  intros minter tid [Ha Hn] Htk Hcap Hdec. unfold create_token.
  apply wp_bind, (wp_mono _ (fun o s' => o = Ok tt /\ s' = s)).
  { destruct dec as [d|]; repeat wp_step; try done. bank_simpl. cbn in Hdec. lia. }
  intros o s' [-> ->]. wp_red. wp_step. wp_step; bank_simpl; [|lia].
  apply wp_bind, wp_map_err. eapply wp_mono; [by apply get_token_id_complete|].
  intros o s' [-> ->]. wp_red. fold tid. unfold emit_event.
  repeat wp_step; try (by exfalso; apply Hcf); [done|].
  bank_simpl. by rewrite Htk in *.
Qed.

Lemma update_admin_complete (c : Context Sp) s new tid tk i :
  inv s -> tokens s !! tid = Some tk -> admins tk !! i = Some (HolderUser (sender c)) ->
  match new with Some n => HolderUser n ∉ admins tk | None => True end ->
  token_update_admin tk new (sender c) = inl (set_admins tk (match new with
    | Some n => <[i := HolderUser n]> (admins tk) | None => delete i (admins tk) end)).
Proof.
  intros Hinv Htk Hi Hn. unfold token_update_admin, find_admin_index.
  destruct (inv_tokens s Hinv _ _ Htk) as (_ & _ & Hnd).
  destruct (list_find (fun a => a = HolderUser (sender c)) (admins tk)) as [[j x]|] eqn:Hf.
  - apply list_find_Some in Hf as (Hj & -> & _). cbn.
    assert (j = i) as -> by (by eapply NoDup_lookup).
    destruct new as [n|]; [|done].
    destruct (list_find (fun a => a = HolderUser n) (admins tk)) as [[k y]|] eqn:Hf2; [|done].
    apply list_find_Some in Hf2 as (Hk & -> & _). destruct Hn. by eapply list_elem_of_lookup_2.
  - apply list_find_None in Hf. eapply Forall_lookup_1 in Hf; [|done]. done.
Qed.

Lemma call_complete c s msg s' :
  inv s -> hash_input_short c msg -> effect c s msg s' ->
  wp (call (G := G) msg c) (fun o s2 => o = Ok tt /\ s2 = s') s.
Proof.
  intros Hinv Hshort Heff.
  destruct Heff; repeat match goal with x := _ |- _ => subst x end; unfold call, transfer, transfer_with_memo, transfer_from, burn_from_eoa,
    mint_from_eoa, emit_event in *.
  - apply wp_bind, wp_map_err. eapply wp_mono; [by apply create_complete|].
    intros o s2 [-> ->]. wp_red. by wp_step.
  - apply wp_map_err, wp_bind. eapply wp_mono; [by apply do_transfer_complete|].
    intros o s2 [-> ->]. wp_red. by wp_step.
  - apply wp_map_err, wp_bind. eapply wp_mono; [by apply do_transfer_complete|].
    intros o s2 [-> ->]. wp_red. by wp_step.
  - unfold burn, decrease_balance_checked, emit_event.
    repeat wp_step; try (by exfalso; apply Hcf); bank_simpl; simplify_eq; try done.
    all: lia.
  - unfold mint, emit_event. pose proof (balance_bound s (HolderUser to) (token_id coins) Hinv).
    rewrite (supply_token _ _ _ H1) in *.
    destruct (inv_tokens s Hinv _ _ H1) as (_ & ? & _).
    assert (update_for_mint_if_allowed tk (HolderUser (sender c)) (amount coins) =
      inl (with_supply tk (total_supply tk + amount coins))) as Hup.
    { unfold update_for_mint_if_allowed, assert_is_admin, is_admin.
      rewrite bool_decide_eq_true_2 by done.
      assert (Amount.checked_add (total_supply tk) (amount coins) =
        Some (total_supply tk + amount coins)) as -> by (apply checked_add_Some; lia).
      rewrite (proj2 (N.ltb_ge _ _)) by done. unfold with_supply.
      destruct (admins tk); [set_solver|done]. }
    repeat wp_step; try (by exfalso; apply Hcf); bank_simpl; simplify_eq; try congruence; [|lia].
    by assert (a0 = with_supply tk (total_supply tk + amount coins)) as -> by congruence.
  - unfold freeze, emit_event.
    assert (token_freeze tk (HolderUser (sender c)) = inl (set_admins tk [])) as Hfz.
    { unfold token_freeze, assert_is_admin, is_admin. rewrite bool_decide_eq_true_2 by done.
      destruct (admins tk); [set_solver|done]. }
    repeat wp_step; try (by exfalso; apply Hcf); bank_simpl; simplify_eq; try congruence.
    by assert (a0 = set_admins tk []) as -> by congruence.
  - unfold update_admin_address.
    pose proof (update_admin_complete c s new tid tk i Hinv H1 H2 H3) as Hup.
    repeat wp_step; try (by exfalso; apply Hcf); bank_simpl; simplify_eq; try congruence.
    split; [done|]. unfold with_token. rewrite app_nil_r. congruence.
Qed.

Lemma reserve_gas_complete tx price payer s :
  inv s ->
  let available := balance s (HolderUser payer) config_gas_token_id in
  wp (reserve_gas (G := G) tx price payer)
    (fun o s' =>
       match reserve_check tx price available with
       | Some e => o = Err e /\ s' = s
       | None => o = Ok tt /\
           s' = transferred s (HolderUser payer) (HolderModule (id s)) config_gas_token_id
                  (max_fee tx)
       end) s.
Proof.
  intros Hinv available. unfold reserve_gas, reserve_check, get_balance_of, transfer_from.
  assert (max_fee tx <= available ->
    wp (let! bank_id := gets id in
        map_err ImpossibleToTransferGas
          (do_transfer (G := G) (HolderUser payer) (HolderModule bank_id)
             config_gas_token_id (max_fee tx)))
      (fun r s' => r = Ok tt /\
           s' = transferred s (HolderUser payer) (HolderModule (id s)) config_gas_token_id
                  (max_fee tx)) s) as Hfin.
  { intros Hav. wp_step. wp_step. apply wp_map_err.
    eapply wp_mono; [by apply do_transfer_complete|]. by intros r s' [-> ->]. }
  wp_step. wp_step. wp_step; [by exfalso; apply Hcf|]. wp_step. bank_simpl. fold available.
  destruct (N.ltb_spec available (max_fee tx)) as [Hav|Hav]; wp_step; try done.
  specialize (Hfin Hav). wp_step.
  destruct (gas_limit tx) as [l|]; [|by wp_step].
  wp_step. destruct (GasArray.checked_value l price) as [v|]; cbn [ok_or]; [|by wp_step].
  wp_step. destruct (max_fee tx <? v); wp_step; done.
Qed.
End Unmetered.
End Metered.
End Theorems.
End BankTheorems.

(** ** Genesis *)
Module GenesisFacts.
Import Bank BankFacts BankTheorems.
Section Genesis.
Context {Sp : Spec} {G : Type} `{GasMeterLaws G}.
Implicit Types (s : t) (tid : TokenId).

(** The state of the loop over [address_and_balances] after the entries [ab]. *)
Record loop_inv (s : t) (tid : TokenId) (ab : list (Address * N)) (sum : N) (s' : t) : Prop := {
  li_id : id s' = id s;
  li_tokens : tokens s' = tokens s;
  li_sum : sum = sum_N (map snd ab);
  li_circ : circulating tid (balances s') = sum;
  li_other : forall tid' h, tid' <> tid -> balance s' h tid' = balance s h tid';
  li_circ_other : forall tid', tid' <> tid ->
    circulating tid' (balances s') = circulating tid' (balances s);
  li_in : forall a b, (a, b) ∈ ab -> balance s' (HolderUser a) tid = b;
  li_out : forall a, a ∉ map fst ab -> balance s' (HolderUser a) tid = 0
}.

Lemma loop_step s tid ab a b sum s' :
  loop_inv s tid ab sum s' -> a ∉ map fst ab ->
  loop_inv s tid (ab ++ [(a, b)]) (sum + b)
    (set_balances (<[(HolderUser a, tid) := b]> (balances s')) s').
Proof.
  intros [] Ha. split; cbn; try done.
  - rewrite map_app, sum_N_app. cbn. lia.
  - pose proof (circulating_insert_eq tid (HolderUser a) b (balances s')) as Hc.
    change (default 0 (balances s' !! (HolderUser a, tid)))
      with (balance s' (HolderUser a) tid) in Hc.
    rewrite li_out0 in Hc by done. lia.
  - intros tid' h Ht. rewrite <- li_other0 by done. unfold balance. cbn.
    by rewrite lookup_insert_ne by congruence.
  - intros tid' Ht. rewrite circulating_insert_ne by done. by apply li_circ_other0.
  - intros a' b' Hin. apply elem_of_app in Hin as [Hin|Hin].
    + rewrite <- (li_in0 a' b' Hin). unfold balance. cbn. rewrite lookup_insert_ne; [done|].
      intros [= ->]. destruct Ha. by apply (list_elem_of_fmap_2 fst) in Hin.
    + apply list_elem_of_singleton in Hin. simplify_eq. unfold balance. cbn.
      by rewrite lookup_insert_eq.
  - intros a' Ha'. rewrite map_app in Ha'. cbn in Ha'.
    rewrite <- (li_out0 a'); [|set_solver]. unfold balance. cbn.
    rewrite lookup_insert_ne; [done|]. set_solver.
Qed.

Lemma wp_genesis_balances s tid ab (Q : outcome GenesisError N -> t -> Prop) :
  NoDup (map fst ab) -> inv s -> tokens s !! tid = None ->
  (forall e s', Q (Err e) s') ->
  (forall sum s', sum <= u128_max -> loop_inv s tid ab sum s' -> Q (Ok sum) s') ->
  wp (fold_m (genesis_balance tid) Amount.ZERO ab) Q s.
Proof.
  intros Hnd Hinv Htk He Hok.
  assert (circulating tid (balances s) = 0) as Hz.
  { rewrite (inv_supply s Hinv). unfold supply. by rewrite Htk. }
  apply (wp_fold_m _ (fun ab sum s' => sum <= u128_max /\ loop_inv s tid ab sum s')).
  - split; [done|]. split; try done; [set_solver|].
    intros a _. pose proof (balance_le_circulating s (HolderUser a) tid) as Hle. lia.
  - intros pre [a b] rest sum s' Hab [Hsum Hli]. unfold genesis_balance.
    repeat wp_step; auto. bank_simpl. split; [done|].
    apply loop_step; [done|]. rewrite map_app in Hnd. cbn in Hnd.
    apply NoDup_app in Hnd as (_ & Hd & _). intros Hin. apply (Hd a Hin). set_solver.
  - intros sum s' [Hsum Hli]. by apply Hok.
Qed.

Lemma wp_genesis_balances_any tid ab (Q : outcome GenesisError N -> t -> Prop) s :
  (forall e s', Q (Err e) s') ->
  (forall sum s', tokens s' = tokens s -> Q (Ok sum) s') ->
  wp (fold_m (genesis_balance tid) Amount.ZERO ab) Q s.
Proof.
  intros He Hok. apply (wp_fold_m _ (fun _ _ s' => tokens s' = tokens s)); [done| |auto].
  intros pre [a b] rest sum s' _ Ht. unfold genesis_balance. repeat wp_step; auto.
Qed.

Lemma wp_genesis_token c (Q : outcome GenesisError unit -> t -> Prop) s :
  inv s -> config_wf c ->
  (forall e s', Q (Err e) s') ->
  (forall s', inv s' -> configured s' c -> tokens s !! cfg_token_id c = None ->
     id s' = id s ->
     (forall tid, tid <> cfg_token_id c -> tokens s' !! tid = tokens s !! tid /\
        forall h, balance s' h tid = balance s h tid) -> Q (Ok tt) s') ->
  wp (genesis_token c) Q s.
Proof.
  intros Hinv [Hnd Hcap] He Hok. unfold genesis_token.
  destruct (tokens s !! cfg_token_id c) as [tk|] eqn:Htk.
  { wp_step. apply wp_genesis_balances_any; wp_red; [auto|]. intros sum s' Ht.
    repeat wp_step; auto. bank_simpl. rewrite Ht, Htk in *. destruct H2. by eexists. }
  wp_step. apply wp_genesis_balances; wp_red; [done..|auto|].
  intros sum s' Hsum Hli. repeat wp_step; auto. bank_simpl.
  set (tid := cfg_token_id c) in *. destruct Hli.
  set (tk := mkToken _ _ _ _).
  apply Hok; [|split|done|done|]; cbn.
  - change (inv (mk (id s') (<[tid:=tk]> (tokens s')) (balances s') (events s'))).
    eapply (inv_eq (set_balances (balances s') (with_token s tid tk [])));
      [by cbn; rewrite li_tokens0|done|].
    apply inv_update; [done| |by rewrite li_circ0|done].
    split_and!; [done| |apply unique_holders_from_spec].
    unfold tk, opt_u128 in *. destruct (cfg_supply_cap c); cbn in *; [done|].
    unfold Amount.MAX. lia.
  - rewrite lookup_insert_eq. unfold tk. congruence.
  - intros a b Hab. by rewrite <- (li_in0 a b Hab).
  - intros tid' Ht. rewrite lookup_insert_ne by done. rewrite li_tokens0. split; [done|].
    intros h. by rewrite <- (li_other0 tid' h Ht).
Qed.

Lemma wp_init_module config (Q : outcome GenesisError unit -> t -> Prop) bank_id :
  Forall config_wf (config_list config) ->
  (forall e s', Q (Err e) s') ->
  (forall s', inv s' -> Forall (configured s') (config_list config) -> Q (Ok tt) s') ->
  wp (init_module config) Q (empty bank_id).
Proof.
  intros Hwf He Hok. unfold init_module. fold (config_list config).
  apply (wp_for_each _ (fun pre s' => inv s' /\ Forall (configured s') pre)).
  - split; [|constructor]. split; [|intros ??; cbn; by rewrite lookup_empty].
    intros tid. unfold circulating, supply. cbn. by rewrite map_sum_empty, lookup_empty.
  - intros pre c rest s' Hl [Hinv Hpre]. apply wp_genesis_token; wp_red; [done| |auto|].
    { rewrite Hl in Hwf. apply Forall_app in Hwf as [_ Hwf]. by inversion Hwf. }
    intros s'' Hinv' Hc Hnew _ Hframe. split; [done|].
    apply Forall_app. split; [|by constructor].
    eapply Forall_impl; [done|]. intros c' [Htk Hb].
    assert (cfg_token_id c' <> cfg_token_id c) as Hne by congruence.
    destruct (Hframe _ Hne) as [Hft Hfb]. split; [by rewrite Hft|].
    intros a b Hab. rewrite Hfb. by apply Hb.
  - intros s' [Hinv Hall]. by apply Hok.
Qed.
End Genesis.
End GenesisFacts.

(** ** A concrete bank, for the witnesses *)
Module BankDemo.
Import Bank.

Definition demo_token : TokenConfig (Sp := test_spec) :=
  @mkTokenConfig test_spec "demo" (Some 6) (repeat 9 32) [(1, 600); (2, 400)] [1; 1; 2]
    (Some 2000).

Definition demo_config : BankConfig (Sp := test_spec) :=
  @mkBankConfig test_spec
    (Some (@mkGasTokenConfig test_spec "gas" None [(1, 1000); (2, 500)] [1] None))
    [demo_token].

Definition demo : t (Sp := test_spec) :=
  store (snd (init_module (G := unit) demo_config (Acc tt (empty (Sp := test_spec) (repeat 3 32))))).

Definition user (a : N) : TokenHolder (Sp := test_spec) := @HolderUser test_spec a.
Definition gas_id : TokenId := repeat 7 32.
Definition demo_id : TokenId := repeat 9 32.
Definition pay (a amt : N) (tid : TokenId) : CallMessage (Sp := test_spec) :=
  @CallTransfer test_spec a (mkCoins amt tid).
Definition mint_to (a amt : N) (tid : TokenId) : CallMessage (Sp := test_spec) :=
  @CallMint test_spec (mkCoins amt tid) a.
Definition burn_some (amt : N) (tid : TokenId) : CallMessage (Sp := test_spec) :=
  @CallBurn test_spec (mkCoins amt tid).

Definition demo_context (a : N) : Context test_spec :=
  @mkContext test_spec a 50 60 None a Node NonPreferred.

Definition demo_meter : BasicGasMeter.t :=
  BasicGasMeter.new_with_funds_and_gas 100000 [1000; 1000] [1; 1].

(** The demo bank with its second token frozen. *)
Definition frozen : t (Sp := test_spec) :=
  exec demo_meter (CallFreeze demo_id) (demo_context 1) demo.

(** A configuration that lists an address twice. *)
Definition duplicate_config : BankConfig :=
  @mkBankConfig test_spec
    (Some (@mkGasTokenConfig test_spec "gas" None [(1, 10); (1, 20)] [1] None)) [].

Lemma demo_config_wf : Forall (config_wf (Sp := test_spec)) (config_list demo_config).
Proof.
  repeat constructor; try (vm_compute; discriminate);
    rewrite ?elem_of_cons, ?elem_of_nil; cbn; rewrite ?elem_of_cons; set_solver.
Qed.

Lemma demo_inv : inv demo.
Proof.
  assert (fst (init_module (G := unit) demo_config
    (Acc tt (empty (Sp := test_spec) (repeat 3 32)))) = Ok tt) as Hok by (vm_compute; done).
  assert (wp (G := unit) (init_module (Sp := test_spec) demo_config)
    (fun o s' => o = Ok tt -> inv s') (empty (repeat 3 32))) as Hwp.
  { apply GenesisFacts.wp_init_module; [apply demo_config_wf|done|done]. }
  destruct (wp_run _ _ _ tt Hwp I) as [_ Hinv]. by apply Hinv.
Qed.

Lemma demo_meter_wf : meter_wf demo_meter.
Proof. apply BasicGasMeterFacts.new_wf. Qed.
End BankDemo.

(** ** Properties *)
Module BankProperties.
Import Bank BankFacts BankTheorems BankDemo.
Section Properties.
Context {Sp : Spec}.

(** C4: in every state that transactions can lead to, whatever their messages,
    senders and gas, the balances of each token add up to its total supply,
    the supply respects its cap and the admins are distinct; and no call
    panics there. *)
Theorem bank_invariant_reachable {G : Type} `{GasMeterLaws G} (s s' : t)
    (Hinv : inv s) (Hsteps : steps (G := G) s s') :
  inv s' /\ forall (g : G) msg c, meter_wf g -> fst (call msg c (Acc g s')) <> Panic.
Proof.
  pose proof (steps_inv s s' Hinv Hsteps) as Hinv'. split; [done|].
  intros g msg c Hg. pose proof (call_run g msg c s' Hinv' Hg) as Hr.
  by destruct (call msg c (Acc g s')) as [[]].
Qed.

(** C26: a call that succeeds, on any accessor, has exactly the effect its
    specification states and met the specification's requirements. *)
Theorem bank_call_refines_spec {G : Type} `{GasMeterLaws G} (g : G) (s : t) msg c a
    (Hinv : inv s) (Hg : meter_wf g) (Hcall : call msg c (Acc g s) = (Ok tt, a)) :
  effect c s msg (store a).
Proof. pose proof (call_run g msg c s Hinv Hg) as Hr. by rewrite Hcall in Hr. Qed.

(** On an accessor that does not charge, a call succeeds exactly when the
    specification allows it, and then leads exactly to the specified state. *)
Theorem bank_call_complete (s s' : t) msg c
    (Hinv : inv s) (Hshort : hash_input_short c msg) :
  call msg c (Acc tt s) = (Ok tt, Acc tt s') <-> effect c s msg s'.
Proof.
  split.
  - intros Hcall. pose proof (call_run tt msg c s Hinv I) as Hr. by rewrite Hcall in Hr.
  - intros Heff. apply wp_unmetered. by apply (call_complete unmetered_cannot_fail).
Qed.

(** The supply of every token changes exactly by what the message mints and
    burns, whoever sends it. *)
Theorem bank_supply_exact {G : Type} `{GasMeterLaws G} (g : G) (s : t) msg c a tid
    (Hinv : inv s) (Hg : meter_wf g) (Hcall : call msg c (Acc g s) = (Ok tt, a)) :
  supply (store a) tid + burns msg tid = supply s tid + mints c msg tid.
Proof.
  pose proof (call_run g msg c s Hinv Hg) as Hr. rewrite Hcall in Hr. by apply effect_supply.
Qed.

(** No message takes tokens from a holder other than its sender. *)
Theorem bank_no_theft {G : Type} `{GasMeterLaws G} (g : G) (s : t) msg c a h tid
    (Hinv : inv s) (Hg : meter_wf g) (Hcall : call msg c (Acc g s) = (Ok tt, a))
    (Hh : h <> HolderUser (sender c)) :
  balance s h tid <= balance (store a) h tid.
Proof.
  pose proof (call_run g msg c s Hinv Hg) as Hr. rewrite Hcall in Hr.
  by eapply effect_balance_other.
Qed.

(** A frozen token stays frozen through any sequence of transactions, and
    its supply never grows again. *)
Theorem bank_frozen_forever {G : Type} `{GasMeterLaws G} (s s' : t) tid tk
    (Hinv : inv s) (Hsteps : steps (G := G) s s')
    (Htk : tokens s !! tid = Some tk) (Hfrozen : admins tk = []) :
  exists tk', tokens s' !! tid = Some tk' /\ admins tk' = [] /\
    total_supply tk' <= total_supply tk.
Proof. by eapply steps_frozen. Qed.

(** A transfer on an accessor that does not charge always returns.  It
    succeeds exactly when the sender's balance suffices and then moves the
    amount and touches nothing else; otherwise it reports an error and changes
    nothing. *)
Theorem bank_transfer_exact (s : t) (from to : TokenHolder) (coins : Coins) (Hinv : inv s) :
  let tid := token_id coins in
  exists o s', transfer_from from to coins (Acc tt s) = (o, Acc tt s') /\
    if amount coins <=? balance s from tid then
      o = Ok tt /\ inv s' /\
      (from <> to -> balance s' from tid + amount coins = balance s from tid /\
                     balance s' to tid = balance s to tid + amount coins) /\
      (forall h tid', tid' <> tid \/ (h <> from /\ h <> to) \/ from = to ->
         balance s' h tid' = balance s h tid') /\
      tokens s' = tokens s
    else (exists e, o = Err e) /\ s' = s.
Proof.
  intros tid. destruct (N.leb_spec (amount coins) (balance s from tid)) as [Hle|Hlt].
  - exists (Ok tt), (transferred s from to tid (amount coins)). split.
    { apply wp_unmetered. by apply (do_transfer_complete unmetered_cannot_fail). }
    split_and!; [done|by apply inv_transferred| | |apply tokens_transferred].
    + intros Hne. rewrite !balance_transferred by done.
      repeat case_bool_decide; naive_solver lia.
    + intros h tid' Hc. rewrite balance_transferred by done.
      repeat case_bool_decide; naive_solver.
  - assert (wp (G := unit) (do_transfer from to tid (amount coins))
      (fun o s' => (exists e, o = Err e) /\ s' = s) s) as Hwp.
    { apply wp_do_transfer; [done|by intros []|by eauto|lia]. }
    specialize (Hwp tt I).
    unfold transfer_from. destruct (do_transfer _ _ _ _ _) as [o [[] s']].
    exists o, s'. naive_solver.
Qed.

(** Genesis.  When no token's configuration lists an address twice, a
    genesis that succeeds establishes the invariant, and every configured token
    exists with the configured supply cap and admins and gives every configured
    address its configured balance. *)
Theorem bank_genesis_establishes_config {G : Type} `{GasMeterLaws G} (g : G) config bank_id a
    (Hwf : Forall config_wf (config_list config)) (Hg : meter_wf g)
    (Hgen : init_module config (Acc g (empty bank_id)) = (Ok tt, a)) :
  inv (store a) /\ Forall (configured (store a)) (config_list config).
Proof.
  assert (wp (init_module config) (fun o s' => o = Ok tt ->
    inv s' /\ Forall (configured s') (config_list config)) (empty bank_id)) as Hwp.
  { by apply GenesisFacts.wp_init_module. }
  specialize (Hwp g Hg). rewrite Hgen in Hwp. by apply Hwp.
Qed.

(** Gas reservation.  On an accessor that does not charge, [reserve_gas]
    either reports the failed check and changes nothing, or moves exactly
    [max_fee] of the gas token from the payer to the bank module, and then the
    value of the gas limit at the current price is covered by [max_fee]. *)
Theorem reserve_gas_exact (s : t) tx price payer (Hinv : inv s) :
  let bank := HolderModule (id s) in
  let gas := config_gas_token_id in
  exists o s', reserve_gas tx price payer (Acc tt s) = (o, Acc tt s') /\
    match reserve_check tx price (balance s (HolderUser payer) gas) with
    | Some e => o = Err e /\ s' = s
    | None =>
        o = Ok tt /\ inv s' /\
        balance s' (HolderUser payer) gas + max_fee tx = balance s (HolderUser payer) gas /\
        balance s' bank gas = balance s bank gas + max_fee tx /\
        match gas_limit tx with
        | Some l => exists v, GasArray.checked_value l price = Some v /\ v <= max_fee tx
        | None => True
        end
    end.
Proof.
  intros bank gas.
  pose proof (reserve_gas_complete unmetered_cannot_fail tx price payer s Hinv tt I) as Hwp.
  destruct (reserve_gas tx price payer (Acc tt s)) as [o [[] s']]. destruct Hwp as [_ Hwp].
  exists o, s'. split; [done|]. cbn in Hwp. fold gas in Hwp.
  destruct (reserve_check tx price _) as [e|] eqn:Hc; [done|]. destruct Hwp as [-> ->].
  unfold reserve_check in Hc. destruct (N.ltb_spec (balance s (HolderUser payer) gas) (max_fee tx));
    [done|].
  split_and!; [done|by apply inv_transferred| | |].
  - rewrite balance_transferred by done. repeat case_bool_decide; naive_solver lia.
  - rewrite balance_transferred by done. repeat case_bool_decide; naive_solver lia.
  - destruct (gas_limit tx) as [l|]; [|done].
    destruct (GasArray.checked_value l price) as [v|]; [|done]. exists v.
    destruct (N.ltb_spec (max_fee tx) v); [done|]. split; [done|lia].
Qed.

(** The metered computation of a token id, whenever its charges are
    accepted, returns the id that the unmetered one computes, with the number
    of decimals in its last byte. *)
Theorem token_id_metered_agrees {G : Type} `{GasMeterLaws G} (g : G) (s : t) nm dec orig a tid
    (Hlen : forall l, length (hasher l) = 32%nat) (Hg : meter_wf g)
    (Hrun : get_token_id_metered nm dec orig (Acc g s) = (Ok tid, a)) :
  tid = get_token_id nm dec orig /\ store a = s /\
  tid !! 31%nat = Some (default DEFAULT_TOKEN_DECIMALS dec).
Proof.
  assert (wp (get_token_id_metered nm dec orig)
    (fun o s' => forall t, o = Ok t -> t = get_token_id nm dec orig /\ s' = s) s) as Hwp.
  { apply wp_get_token_id_metered; naive_solver. }
  specialize (Hwp g Hg). rewrite Hrun in Hwp. destruct Hwp as [_ Hwp].
  destruct (Hwp tid eq_refl) as [-> ->]. split_and!; [done|done|].
  unfold get_token_id. rewrite list_lookup_insert_eq; [done|]. rewrite Hlen. lia.
Qed.
End Properties.

Lemma bank_invariant_reachable_witness :
  inv (exec demo_meter (pay 2 100 gas_id)
         (demo_context 1) demo) /\
  forall g msg c, meter_wf (G := BasicGasMeter.t) g ->
    fst (call msg c
      (Acc g (exec demo_meter (pay 2 100 gas_id)
         (demo_context 1) demo))) <> Panic.
Proof.
  apply (bank_invariant_reachable (G := BasicGasMeter.t) demo).
  - exact demo_inv.
  - apply steps_call; [apply steps_refl|exact demo_meter_wf|vm_compute; discriminate].
Defined.

Lemma bank_call_refines_spec_witness :
  effect (demo_context 2) demo (mint_to 5 10 demo_id)
    (store (snd (call (mint_to 5 10 demo_id) (demo_context 2)
      (Acc demo_meter demo)))).
Proof.
  apply (bank_call_refines_spec demo_meter).
  - exact demo_inv.
  - exact demo_meter_wf.
  - apply run_ok. vm_compute. reflexivity.
Defined.

Lemma bank_call_complete_witness :
  call (burn_some 10 demo_id) (demo_context 2) (Acc tt demo) =
    (Ok tt, Acc tt (store (snd (call (burn_some 10 demo_id)
      (demo_context 2) (Acc tt demo))))) <->
  effect (demo_context 2) demo (burn_some 10 demo_id)
    (store (snd (call (burn_some 10 demo_id)
      (demo_context 2) (Acc tt demo)))).
Proof.
  apply (bank_call_complete (Sp := test_spec)); [exact demo_inv|exact I].
Defined.

Lemma bank_supply_exact_witness :
  supply (store (snd (call (mint_to 5 10 demo_id)
    (demo_context 2) (Acc demo_meter demo)))) demo_id
    + burns (mint_to 5 10 demo_id) demo_id
  = supply demo demo_id
    + mints (demo_context 2) (mint_to 5 10 demo_id) demo_id.
Proof.
  apply (bank_supply_exact demo_meter).
  - exact demo_inv.
  - exact demo_meter_wf.
  - apply run_ok. vm_compute. reflexivity.
Defined.

Lemma bank_no_theft_witness :
  balance demo (user 2) gas_id <=
  balance (store (snd (call (pay 5 10 gas_id)
    (demo_context 1) (Acc demo_meter demo)))) (user 2) gas_id.
Proof.
  apply (bank_no_theft demo_meter demo
    (pay 5 10 gas_id) (demo_context 1)).
  - exact demo_inv.
  - exact demo_meter_wf.
  - apply run_ok. vm_compute. reflexivity.
  - discriminate.
Defined.

Lemma bank_frozen_forever_witness :
  exists tk', tokens (exec demo_meter (mint_to 5 10 demo_id)
    (demo_context 2) frozen) !! demo_id = Some tk' /\ admins tk' = [] /\
    total_supply tk' <= 1000.
Proof.
  apply (bank_frozen_forever (G := BasicGasMeter.t) frozen _ demo_id
    (@mkToken test_spec "demo" 1000 2000 [])).
  - apply exec_inv; [exact demo_inv|exact demo_meter_wf|exact I].
  - apply steps_call; [apply steps_refl|exact demo_meter_wf|vm_compute; discriminate].
  - vm_cast_no_check (@eq_refl (option (@Token test_spec))
      (Some (@mkToken test_spec "demo" 1000 2000 []))).
  - reflexivity.
Defined.

Lemma bank_transfer_exact_witness :
  exists s', transfer_from (user 1) (user 4) (mkCoins 250 demo_id) (Acc tt demo) =
      (Ok tt, Acc tt s') /\
    balance s' (user 1) demo_id = 350 /\ balance s' (user 4) demo_id = 250 /\
    balance s' (user 2) demo_id = 400.
Proof.
  destruct (bank_transfer_exact demo (user 1) (user 4) (mkCoins 250 demo_id) demo_inv)
    as (o & s' & Hrun & Hpost).
  replace (amount (mkCoins 250 demo_id) <=? balance demo (user 1) (token_id (mkCoins 250 demo_id)))
    with true in Hpost by (vm_compute; reflexivity).
  destruct Hpost as (-> & _ & Hmove & Hframe & _).
  exists s'. destruct (Hmove ltac:(discriminate)) as [H1 H4]. cbn [amount token_id] in *.
  replace (balance demo (user 1) demo_id) with 600 in H1 by (vm_compute; reflexivity).
  replace (balance demo (user 4) demo_id) with 0 in H4 by (vm_compute; reflexivity).
  split; [exact Hrun|]. split; [lia|]. split; [lia|].
  rewrite Hframe by (right; left; split; discriminate). vm_compute. reflexivity.
Defined.

Lemma bank_genesis_establishes_config_witness :
  inv demo /\ Forall (configured demo) (config_list demo_config).
Proof.
  apply (bank_genesis_establishes_config tt demo_config (repeat 3 32)
    (snd (init_module (G := unit) demo_config (Acc tt (@empty test_spec (repeat 3 32)))))).
  - exact demo_config_wf.
  - exact I.
  - apply run_ok. vm_compute. reflexivity.
Defined.

Lemma reserve_gas_exact_witness :
  exists s', reserve_gas (Sp := test_spec) (mkTxDetails 0 300 (Some [50; 50]) 1) [2; 3] 2
      (Acc tt demo) = (Ok tt, Acc tt s') /\
    balance s' (user 2) gas_id + 300 = 500 /\
    balance s' (HolderModule (repeat 3 32)) gas_id = 300.
Proof.
  destruct (reserve_gas_exact demo (mkTxDetails 0 300 (Some [50; 50]) 1) [2; 3] 2 demo_inv)
    as (o & s' & Hrun & Hpost).
  change (@HolderUser test_spec 2) with (user 2) in Hpost.
  change (@config_gas_token_id test_spec) with gas_id in Hpost.
  replace (balance demo (user 2) gas_id) with 500 in Hpost by (vm_compute; reflexivity).
  destruct Hpost as (-> & _ & H2 & Hb & _). exists s'. split; [exact Hrun|].
  split; [exact H2|].
  transitivity (balance s' (HolderModule (id demo)) gas_id).
  - f_equal; f_equal.
  - rewrite Hb. vm_compute. reflexivity.
Defined.

Lemma token_id_metered_agrees_witness :
  let r := get_token_id_metered [100; 101] (Some 6) (user 1) (Acc demo_meter demo) in
  get_token_id [100; 101] (Some 6) (user 1) = get_token_id [100; 101] (Some 6) (user 1) /\
  store (snd r) = demo /\
  get_token_id [100; 101] (Some 6) (user 1) !! 31%nat = Some 6.
Proof.
  intros r.
  refine (token_id_metered_agrees (Sp := test_spec) demo_meter demo [100; 101] (Some 6)
    (user 1) (snd r) (get_token_id [100; 101] (Some 6) (user 1)) _ demo_meter_wf _).
  - intros l. cbn -[take repeat app]. rewrite length_take, length_app, repeat_length. lia.
  - apply injective_projections; [vm_compute; reflexivity|reflexivity].
Defined.

(** Genesis accepts [duplicate_config], keeps only the last balance and counts
    both in the total supply, so the supply exceeds what circulates. *)
Theorem genesis_duplicate_address_breaks_supply :
  let r := init_module (G := unit) duplicate_config (Acc tt (@empty test_spec [])) in
  is_ok (fst r) = true /\
  supply (store (snd r)) gas_id = 30 /\ circulating gas_id (balances (store (snd r))) = 20.
Proof. vm_compute. repeat split. Qed.
End BankProperties.
