(* ===== verification/Paymaster.v ===== *)
(** * The paymaster module

    module-implementations/sov-paymaster: third parties that pay the gas of
    transactions, by the policy they registered.

    - policies and what they authorize (policies.rs);
    - registration, updates of a policy and the choice of a payer by a sequencer
      (call.rs, genesis.rs), the messages built by [PolicyUpdate] and
      [AllowedSequencerUpdate];
    - the reservation of gas through the payer of the sequencer, with the sender
      as the fallback (lib.rs), and [is_safe_for_sequencer].

    Lists of messages are [SafeVec]s of 20 elements: lists here, extended as
    [SafeVecProperties.spec] says. *)

From Stdlib Require Import NArith Lia.
From stdpp Require Import base numbers gmap strings option sorting list.
From S2P Require Import Prelude Ints Gas StateAccess SafeVec Bank.

(** [Ord] of the addresses. *)
Class AddressOrd {Sp : Spec} : Type := {
  address_le : relation Address;
  address_le_dec :: RelDecision address_le;
  address_le_total :: TotalOrder address_le;
  da_address_le : relation DaAddress;
  da_address_le_dec :: RelDecision da_address_le;
  da_address_le_total :: TotalOrder da_address_le
}.

Definition DEFAULT_SAFE_VEC_LEN : N := 20.

(** [SafeVec::try_extend] *)
Definition try_extend {A} (l l' : list A) : option (list A) :=
  if len l + len l' <=? DEFAULT_SAFE_VEC_LEN then Some (l ++ l') else None.

(** ** [remove_elts_from_list], call.rs *)
Section RemoveElts.
Context {A : Type} `{EqDecision A} (le : relation A) `{!RelDecision le}.

(** [while to_remove.peek().is_some_and(|contents| *contents < item) { to_remove.next(); }] *)
Fixpoint advance (item : A) (to_remove : list A) : list A :=
  match to_remove with
  | contents :: rest =>
      if bool_decide (le contents item) && negb (bool_decide (contents = item)) then advance item rest else to_remove
  | [] => []
  end.

(** The body of the loop at [idx]; [None] is an index out of bounds. *)
Definition remove_step (idx : nat) (st : list A * list A * nat) : option (list A * list A * nat) :=
  let '(original, to_remove, next_idx_to_fill) := st in
  let? item := original !! idx in
  let to_remove := advance item to_remove in
  if bool_decide (head to_remove = Some item) then Some (original, to_remove, next_idx_to_fill)
  else
    let original := if bool_decide (idx = next_idx_to_fill) then original else <[next_idx_to_fill := item]> original in
    Some (original, to_remove, S next_idx_to_fill).

Fixpoint remove_loop (idxs : list nat) (st : list A * list A * nat) : option (list A * list A * nat) :=
  match idxs with
  | [] => Some st
  | idx :: idxs => let? st := remove_step idx st in remove_loop idxs st
  end.

Definition remove_elts_from_list (to_remove original : list A) : option (list A) :=
  let to_remove := merge_sort le to_remove in
  let original := merge_sort le original in
  let? (original, _, output_len) := remove_loop (seq 0 (length original)) (original, to_remove, 0%nat) in
  Some (take output_len original).
End RemoveElts.

Module Paymaster.
Section Paymaster.
Context {Sp : Spec} {Ord : AddressOrd}.

(** ** Policies, policies.rs *)

(** A [NonZeroU64] is a [positive]. *)
Inductive PayeePolicy : Type :=
| Allow (max_fee : option N) (gas_limit : option (list N)) (max_gas_price : option (list N)) (transaction_limit : option positive)
| Deny.

#[export] Instance PayeePolicy_eq_dec : EqDecision PayeePolicy.
Proof. solve_decision. Defined.

Inductive AuthorizedSequencers : Type := All | Only (addresses : list DaAddress).

Definition covers (self : AuthorizedSequencers) (address : DaAddress) : bool :=
  match self with All => true | Only addresses => bool_decide (address ∈ addresses) end.

Definition authorizes_max_fee (self : PayeePolicy) (tx_max_fee : N) : bool :=
  match self with
  | Allow (Some max_fee) _ _ _ => tx_max_fee <=? max_fee
  | Allow None _ _ _ => true
  | Deny => false
  end.

Definition authorizes_gas_price (self : PayeePolicy) (current_gas_price : list N) : bool :=
  match self with
  | Allow _ _ (Some max_gas_price) _ => GasArray.dim_is_less_or_eq current_gas_price max_gas_price
  | Allow _ _ None _ => true
  | Deny => false
  end.

Definition authorizes_gas_limit (self : PayeePolicy) (tx_gas_limit : option (list N)) : bool :=
  match self with
  | Allow _ (Some policy_gas_limit) _ _ =>
      match tx_gas_limit with
      | None => false
      | Some tx_gas_limit => GasArray.dim_is_less_or_eq tx_gas_limit policy_gas_limit
      end
  | Allow _ None _ _ => true
  | Deny => false
  end.

(** The new policy, when it changes. *)
Definition maybe_decrement_allowance (self : PayeePolicy) : option PayeePolicy :=
  match self with
  | Allow max_fee gas_limit max_gas_price (Some txs_left) =>
      match saturating_sub (N.pos txs_left) 1 with
      | N0 => Some Deny
      | N.pos txs_left => Some (Allow max_fee gas_limit max_gas_price (Some txs_left))
      end
  | _ => None
  end.

Definition authorize_transaction (self : PayeePolicy) (tx : TxDetails) (gas_price : list N)
  : option PayeePolicy + Bank.ReserveGasError :=
  if match self with Deny => true | _ => false end then inr Bank.InsufficientBalanceToReserveGas
  else if negb (authorizes_max_fee self (max_fee tx)) then inr Bank.InsufficientBalanceToReserveGas
  else if negb (authorizes_gas_price self gas_price) then inr Bank.CurrentGasPriceTooHigh
  else if negb (authorizes_gas_limit self (gas_limit tx)) then inr Bank.MaxGasLimitExceeded
  else inl (maybe_decrement_allowance self).

Record PaymasterPolicyInitializer : Type := mkInitializer {
  init_default_payee_policy : PayeePolicy;
  payees : list (Address * PayeePolicy);
  init_authorized_updaters : list Address;
  init_authorized_sequencers : AuthorizedSequencers
}.

Record PaymasterPolicy : Type := mkPolicy {
  default_payee_policy : PayeePolicy;
  authorized_updaters : list Address;
  authorized_sequencers : AuthorizedSequencers
}.

(** ** Messages, call.rs *)

Record AllowedSequencerUpdate : Type := mkSequencerUpdate {
  to_add : option (list DaAddress);
  to_remove : option (list DaAddress)
}.

Inductive SequencerSetUpdate : Type := AllowAll | UpdateList (u : AllowedSequencerUpdate).

Record PolicyUpdate : Type := mkUpdate {
  sequencer_update : option SequencerSetUpdate;
  updaters_to_add : option (list Address);
  updaters_to_remove : option (list Address);
  payee_policies_to_set : option (list (Address * PayeePolicy));
  payee_policies_to_delete : option (list Address);
  default_policy : option PayeePolicy
}.

Inductive CallMessage : Type :=
| RegisterPaymaster (policy : PaymasterPolicyInitializer)
| SetPayerForSequencer (payer : Address)
| UpdatePolicy (payer : Address) (update : PolicyUpdate).

(** *** The builders of updates *)

Definition retain_elts_if {A} (collection : option (list A)) (f : A -> bool) : option (list A) :=
  match collection with
  | Some contents =>
      match List.filter f contents with [] => None | contents => Some contents end
  | None => None
  end.

(** [collection.get_or_insert(SafeVec::new()).try_push(x)] *)
Definition get_or_insert_push {A} (collection : option (list A)) (x : A) : option (list A) :=
  try_extend (default [] collection) [x].

(** [add_sequencer], [remove_sequencer]: [None] is the [CapacityError]. *)
Definition add_sequencer (self : AllowedSequencerUpdate) (sequencer_to_add : DaAddress) : option AllowedSequencerUpdate :=
  let remove := retain_elts_if (to_remove self) (fun a => negb (bool_decide (a = sequencer_to_add))) in
  let? remove := get_or_insert_push remove sequencer_to_add in
  Some (mkSequencerUpdate (to_add self) (Some remove)).

Definition remove_sequencer (self : AllowedSequencerUpdate) (sequencer_to_remove : DaAddress)
  : option AllowedSequencerUpdate :=
  let add := retain_elts_if (to_add self) (fun a => negb (bool_decide (a = sequencer_to_remove))) in
  let? remove := get_or_insert_push (to_remove self) sequencer_to_remove in
  Some (mkSequencerUpdate add (Some remove)).

(** The builders of [PolicyUpdate] unwrap the [CapacityError]: [None] is the panic. *)
Definition add_updater (self : PolicyUpdate) (a : Address) : option PolicyUpdate :=
  let removed := retain_elts_if (updaters_to_remove self) (fun b => negb (bool_decide (b = a))) in
  let? added := get_or_insert_push (updaters_to_add self) a in
  Some (mkUpdate (sequencer_update self) (Some added) removed (payee_policies_to_set self)
          (payee_policies_to_delete self) (default_policy self)).

Definition remove_updater (self : PolicyUpdate) (a : Address) : option PolicyUpdate :=
  let added := retain_elts_if (updaters_to_add self) (fun b => negb (bool_decide (b = a))) in
  let? removed := get_or_insert_push (updaters_to_remove self) a in
  Some (mkUpdate (sequencer_update self) added (Some removed) (payee_policies_to_set self)
          (payee_policies_to_delete self) (default_policy self)).

Definition add_payee_policy (self : PolicyUpdate) (a : Address) (policy : PayeePolicy) : option PolicyUpdate :=
  let deleted := retain_elts_if (payee_policies_to_delete self) (fun b => negb (bool_decide (b = a))) in
  let? set := get_or_insert_push (payee_policies_to_set self) (a, policy) in
  Some (mkUpdate (sequencer_update self) (updaters_to_add self) (updaters_to_remove self) (Some set) deleted
          (default_policy self)).

Definition remove_payee_policy (self : PolicyUpdate) (a : Address) : option PolicyUpdate :=
  let set := retain_elts_if (payee_policies_to_set self) (fun p => negb (bool_decide (fst p = a))) in
  let? deleted := get_or_insert_push (payee_policies_to_delete self) a in
  Some (mkUpdate (sequencer_update self) (updaters_to_add self) (updaters_to_remove self) set (Some deleted)
          (default_policy self)).

(** [update_allowed_sequencers] of the builder sorts the lists. *)
Definition build_update_allowed_sequencers (self : PolicyUpdate) (u : AllowedSequencerUpdate) : PolicyUpdate :=
  mkUpdate (Some (UpdateList (mkSequencerUpdate (merge_sort da_address_le <$> to_add u) (merge_sort da_address_le <$> to_remove u))))
    (updaters_to_add self) (updaters_to_remove self) (payee_policies_to_set self) (payee_policies_to_delete self)
    (default_policy self).

(** ** The module, lib.rs *)

Inductive Event : Type :=
| RegisteredPaymaster (address : Address)
| SetPayerForSequencerEvent (sequencer : DaAddress) (payer : Address)
| RemovedPayerForSequencer (sequencer : DaAddress) (payer : Address)
| RemovedPayeePolicy (payer payee : Address)
| AddedPayeePolicy (payer payee : Address) (policy : PayeePolicy)
| SetDefaultPayeePolicy (payer : Address) (policy : PayeePolicy).

(** A key of [policies] is a payer and a payee, [PolicyKey]. *)
Record t : Type := mk {
  payers : gmap Address PaymasterPolicy;
  policies : gmap (Address * Address) PayeePolicy;
  sequencer_to_payer : gmap DaAddress Address;
  events : list Event;
  bank : Bank.t
}.

Definition payers_map : StateMap t Address PaymasterPolicy :=
  mkStateMap "paymaster.payers" User payers
    (fun m s => mk m (policies s) (sequencer_to_payer s) (events s) (bank s)).
Definition policies_map : StateMap t (Address * Address) PayeePolicy :=
  mkStateMap "paymaster.policies" User policies
    (fun m s => mk (payers s) m (sequencer_to_payer s) (events s) (bank s)).
Definition sequencer_map : StateMap t DaAddress Address :=
  mkStateMap "paymaster.sequencer_to_payer" User sequencer_to_payer
    (fun m s => mk (payers s) (policies s) m (events s) (bank s)).
Definition put_bank (b : Bank.t) (s : t) : t := mk (payers s) (policies s) (sequencer_to_payer s) (events s) b.

Inductive Error : Type :=
| AlreadyRegistered (payer : Address)
| NotRegistered (payer : Address)
| SequencerNotAuthorized (sequencer : DaAddress) (payer : Address)
| NotAnUpdater (sender payer : Address)
| MappedToOtherPayer (sequencer : DaAddress) (payer current : Address)
| NotMapped (sequencer : DaAddress) (payer : Address)
| TooManyUpdaters (payer : Address)
| TooManySequencers (payer : Address)
| StateE (e : StateAccessorError).

Section Operations.
Context {G : Type} `{GasMeter G}.

Definition emit_event {E} (e : Event) : M (acc G t) E unit :=
  modify (fun s => mk (payers s) (policies s) (sequencer_to_payer s) (events s ++ [e]) (bank s)).

(** ** Calls, call.rs *)

Definition add_payee_policies (payer : Address) (to_add : list (Address * PayeePolicy)) : M (acc G t) Error unit :=
  for_each (fun '(address, policy) =>
    map_err StateE (map_set policies_map (payer, address) policy) ;;;
    emit_event (AddedPayeePolicy payer address policy)) to_add.

Definition remove_payee_policies (payer : Address) (to_remove : option (list Address)) : M (acc G t) Error unit :=
  match to_remove with
  | None => ret tt
  | Some to_remove =>
      for_each (fun payee =>
        let! removed := map_err StateE (map_remove policies_map (payer, payee)) in
        if bool_decide (is_Some removed) then emit_event (RemovedPayeePolicy payer payee) else ret tt) to_remove
  end.

Definition do_registration (new_payer : Address) (sequencer_addresses_to_register : list DaAddress)
    (policy : PaymasterPolicyInitializer) : M (acc G t) Error unit :=
  let! existing := map_err StateE (map_get payers_map new_payer) in
  ensure (negb (bool_decide (is_Some existing))) (AlreadyRegistered new_payer) ;;;
  emit_event (RegisteredPaymaster new_payer) ;;;
  emit_event (SetDefaultPayeePolicy new_payer (init_default_payee_policy policy)) ;;;
  add_payee_policies new_payer (payees policy) ;;;
  let policy :=
    mkPolicy (init_default_payee_policy policy) (init_authorized_updaters policy) (init_authorized_sequencers policy) in
  map_err StateE (map_set payers_map new_payer policy) ;;;
  for_each (fun sequencer =>
    if covers (authorized_sequencers policy) sequencer then
      map_err StateE (map_set sequencer_map sequencer new_payer) ;;;
      emit_event (SetPayerForSequencerEvent sequencer new_payer)
    else ret tt) sequencer_addresses_to_register.

Definition register_paymaster (policy : PaymasterPolicyInitializer) (context : Context Sp) : M (acc G t) Error unit :=
  do_registration (sender context) [sequencer_da_address context] policy.

Definition set_payer_for_sequencer (payer : Address) (context : Context Sp) : M (acc G t) Error unit :=
  let! policy := map_err StateE (map_get payers_map payer) in
  let! policy := ok_or policy (NotRegistered payer) in
  ensure (covers (authorized_sequencers policy) (sequencer_da_address context))
    (SequencerNotAuthorized (sequencer_da_address context) payer) ;;;
  map_err StateE (map_set sequencer_map (sequencer_da_address context) payer) ;;;
  emit_event (SetPayerForSequencerEvent (sequencer_da_address context) payer).

(** One address of [to_remove]. *)
Definition remove_payer_for (payer : Address) (sequencer : DaAddress) : M (acc G t) Error unit :=
  let! current_payer := map_err StateE (map_remove sequencer_map sequencer) in
  match current_payer with
  | Some current_payer =>
      if bool_decide (current_payer = payer) then emit_event (RemovedPayerForSequencer sequencer payer)
      else throw (MappedToOtherPayer sequencer payer current_payer)
  | None => throw (NotMapped sequencer payer)
  end.

(** The policy is passed by reference: the new one is returned. *)
Definition with_sequencers (policy : PaymasterPolicy) (a : AuthorizedSequencers) : PaymasterPolicy :=
  mkPolicy (default_payee_policy policy) (authorized_updaters policy) a.
Definition with_updaters (policy : PaymasterPolicy) (l : list Address) : PaymasterPolicy :=
  mkPolicy (default_payee_policy policy) l (authorized_sequencers policy).

Definition update_allowed_sequencers (payer : Address) (update : option SequencerSetUpdate) (policy : PaymasterPolicy)
    (context : Context Sp) : M (acc G t) Error PaymasterPolicy :=
  match update with
  | None => ret policy
  | Some AllowAll => ret (with_sequencers policy All)
  | Some (UpdateList sequencer_update_list) =>
      let to_remove := default [] (to_remove sequencer_update_list) in
      for_each (remove_payer_for payer) to_remove ;;;
      let sequencers_to_add := default [] (to_add sequencer_update_list) in
      match authorized_sequencers policy with
      | All => ret (with_sequencers policy (Only sequencers_to_add))
      | Only existing_list =>
          let! existing_list := expect_some (remove_elts_from_list da_address_le to_remove existing_list) in
          (if bool_decide (sequencer_da_address context ∈ sequencers_to_add) then
             map_err StateE (map_set sequencer_map (sequencer_da_address context) payer) ;;;
             emit_event (SetPayerForSequencerEvent (sequencer_da_address context) payer)
           else ret tt) ;;;
          let! existing_list := ok_or (try_extend existing_list sequencers_to_add) (TooManySequencers payer) in
          ret (with_sequencers policy (Only existing_list))
      end
  end.

Definition remove_allowed_updaters (to_remove : option (list Address)) (policy : PaymasterPolicy)
  : M (acc G t) Error PaymasterPolicy :=
  match to_remove with
  | None => ret policy
  | Some to_remove =>
      let! l := expect_some (remove_elts_from_list address_le to_remove (authorized_updaters policy)) in
      ret (with_updaters policy l)
  end.

Definition add_allowed_updaters (payer : Address) (to_add : option (list Address)) (policy : PaymasterPolicy)
  : M (acc G t) Error PaymasterPolicy :=
  match to_add with
  | None => ret policy
  | Some to_add =>
      let! l := ok_or (try_extend (authorized_updaters policy) to_add) (TooManyUpdaters payer) in
      ret (with_updaters policy l)
  end.

Definition update_policy_if_authorized (policy_update : PolicyUpdate) (context : Context Sp) (payer : Address)
  : M (acc G t) Error unit :=
  let! policy := map_err StateE (map_get payers_map payer) in
  let! policy := ok_or policy (NotRegistered payer) in
  ensure (bool_decide (sender context ∈ authorized_updaters policy)) (NotAnUpdater (sender context) payer) ;;;
  let! policy := update_allowed_sequencers payer (sequencer_update policy_update) policy context in
  let! policy := remove_allowed_updaters (updaters_to_remove policy_update) policy in
  let! policy := add_allowed_updaters payer (updaters_to_add policy_update) policy in
  remove_payee_policies payer (payee_policies_to_delete policy_update) ;;;
  match payee_policies_to_set policy_update with
  | Some policies_to_add => add_payee_policies payer policies_to_add
  | None => ret tt
  end ;;;
  let! policy :=
    match default_policy policy_update with
    | Some default_policy =>
        emit_event (SetDefaultPayeePolicy payer default_policy) ;;;
        ret (mkPolicy default_policy (authorized_updaters policy) (authorized_sequencers policy))
    | None => ret policy
    end in
  map_err StateE (map_set payers_map payer policy).

Definition call (msg : CallMessage) (context : Context Sp) : M (acc G t) Error unit :=
  match msg with
  | RegisterPaymaster policy => register_paymaster policy context
  | SetPayerForSequencer payer => set_payer_for_sequencer payer context
  | UpdatePolicy payer update => update_policy_if_authorized update context payer
  end.

(** ** Genesis, genesis.rs *)
Record PayerGenesisConfig : Type := mkPayerConfig {
  payer_address : Address;
  cfg_policy : PaymasterPolicyInitializer;
  sequencers_to_register : list DaAddress
}.

Definition init_module (config : list PayerGenesisConfig) : M (acc G t) Error unit :=
  for_each (fun c => do_registration (payer_address c) (sequencers_to_register c) (cfg_policy c)) config.

(** ** Gas, lib.rs *)

Definition get_payee_policy_if_sequencer_authorized (payer : Address) (context : Context Sp)
  : M (acc G t) Bank.ReserveGasError (option PayeePolicy) :=
  let! policy := map_err Bank.StateAccessError (map_get payers_map payer) in
  match policy with
  | None => ret None
  | Some policy =>
      if negb (covers (authorized_sequencers policy) (sequencer_da_address context)) then ret None
      else
        let! payee := map_err Bank.StateAccessError (map_get policies_map (payer, sender context)) in
        ret (Some (default (default_payee_policy policy) payee))
  end.

Definition try_purchase_paymaster_gas (tx : TxDetails) (gas_price : list N) (payer : Address) (policy : PayeePolicy)
  : M (acc G t) Bank.ReserveGasError (option PayeePolicy) :=
  let! maybe_mutated_policy := from_sum (authorize_transaction policy tx gas_price) in
  zoom bank put_bank (Bank.reserve_gas tx gas_price payer) ;;;
  ret maybe_mutated_policy.

Definition gas_from_paymaster (tx : TxDetails) (gas_price : list N) (context : Context Sp)
  : M (acc G t) Bank.ReserveGasError (option Address) :=
  let! payer := map_err Bank.StateAccessError (map_get sequencer_map (sequencer_da_address context)) in
  match payer with
  | None => ret None
  | Some payer =>
      let! payee_policy := get_payee_policy_if_sequencer_authorized payer context in
      match payee_policy with
      | Some payee_policy =>
          let! purchased := try_catch (try_purchase_paymaster_gas tx gas_price payer payee_policy) in
          match purchased with
          | inl (Some mutated_policy) =>
              map_err Bank.StateAccessError (map_set policies_map (payer, sender context) mutated_policy) ;;;
              ret (Some payer)
          | inl None => ret (Some payer)
          | inr _ => ret None
          end
      | None =>
          let! _ := map_err Bank.StateAccessError (map_remove sequencer_map (sequencer_da_address context)) in
          ret None
      end
  end.

(** The new refund recipient of the context. *)
Definition try_reserve_gas (tx : TxDetails) (gas_price : list N) (context : Context Sp)
  : M (acc G t) Bank.ReserveGasError Address :=
  let! payer := gas_from_paymaster tx gas_price context in
  match payer with
  | Some payer => ret payer
  | None =>
      zoom bank put_bank (Bank.reserve_gas tx gas_price (sender context)) ;;;
      ret (sender context)
  end.
End Operations.

(** [is_safe_for_sequencer] on a message of the module. *)
Definition is_safe_for_sequencer (msg : CallMessage) (sequencer_address : DaAddress) : bool :=
  match msg with
  | RegisterPaymaster policy => negb (covers (init_authorized_sequencers policy) sequencer_address)
  | SetPayerForSequencer _ | UpdatePolicy _ _ => false
  end.
End Paymaster.
End Paymaster.
