(* ===== verification/PaymasterProperties.v ===== *)
(** * The paymaster module: what it promises

    - the in-place removal from sorted lists computes the difference;
    - who pays for a transaction, and what changes when gas is reserved;
    - a payer pays for a payee at most as many transactions as its policy says;
    - the messages that [is_safe_for_sequencer] lets through do not change the
      payer of the sequencer;
    - two flaws of the updates of authorized sequencers. *)

From Stdlib Require Import NArith Lia.
From stdpp Require Import base numbers gmap strings option sorting list.
From S2P Require Import Prelude Ints Gas StateAccess SafeVec Bank Paymaster.

(** ** Removal from sorted lists *)
Module RemoveFacts.
Section Facts.
Context {A : Type} `{EqDecision A} (le : relation A) `{!RelDecision le} `{!TotalOrder le}.

Lemma le_total x y : le x y \/ le y x.
Proof. destruct (trichotomy (strict le) x y) as [[? _]|[->|[? _]]]; [by left|left; reflexivity|by right]. Qed.

#[local] Instance le_is_total : Total le.
Proof. intros x y. apply le_total. Qed.

Lemma sorted_sort l : StronglySorted le (merge_sort le l).
Proof. apply (StronglySorted_merge_sort le). Qed.

Lemma elem_of_sort x l : x ∈ merge_sort le l <-> x ∈ l.
Proof. by rewrite (merge_sort_Permutation le l). Qed.

Definition lt x y : Prop := le x y /\ x <> y.

Lemma lt_le x y z : lt x y -> le y z -> lt x z.
Proof.
  intros [Hxy Hne] Hyz. split; [by transitivity y|]. intros ->. apply Hne. by apply (anti_symm le).
Qed.

(** What [advance] drops is smaller than the item; what it keeps starts with the
    item if it contains it. *)
Lemma advance_spec item r :
  StronglySorted le r ->
  StronglySorted le (advance le item r) /\
  (forall x, x ∈ advance le item r -> x ∈ r) /\
  (forall x, x ∈ r -> x ∈ advance le item r \/ lt x item) /\
  (head (advance le item r) = Some item <-> item ∈ r).
Proof.
  induction r as [|y r IH]; intros Hr; cbn [advance].
  - split_and!; [constructor|done|set_solver|]. split; [done|]. by intros ?%not_elem_of_nil.
  - apply StronglySorted_cons in Hr as [Hy Hr]. destruct (bool_decide (le y item) && negb (bool_decide (y = item))) eqn:Hb.
    + apply andb_prop in Hb as [Hle%bool_decide_eq_true Hne%negb_true_iff]. apply bool_decide_eq_false in Hne.
      destruct (IH Hr) as (H1 & H2 & H3 & H4). split_and!; [done|set_solver| |].
      * intros x [->|Hx]%elem_of_cons; [right; by split|auto].
      * rewrite H4. set_solver.
    + split_and!; [by constructor|done|auto|]. cbn. split; [intros [= ->]; by left|].
      intros [->|Hi]%elem_of_cons; [done|]. rewrite Forall_forall in Hy. specialize (Hy item Hi).
      rewrite (bool_decide_eq_true_2 (le y item)) in Hb by done. cbn in Hb. apply negb_false_iff, bool_decide_eq_true in Hb.
      by subst.
Qed.

(** The state of the loop before [idx]. *)
Record looped (r l : list A) (idx : nat) (st : list A * list A * nat) : Prop := mkLooped {
  lo_sorted : StronglySorted le (snd (fst st));
  lo_subset : forall x, x ∈ snd (fst st) -> x ∈ r;
  lo_dropped : forall x, x ∈ r -> x ∈ snd (fst st) \/ (forall y, y ∈ drop idx l -> lt x y);
  lo_next : (snd st <= idx)%nat;
  lo_kept : take (snd st) (fst (fst st)) = filter (fun x => x ∉ r) (take idx l);
  lo_rest : drop idx (fst (fst st)) = drop idx l;
  lo_length : length (fst (fst st)) = length l
}.

Lemma drop_idx {B} (l : list B) i x : l !! i = Some x -> drop i l = x :: drop (S i) l.
Proof. intros Hx. by rewrite <- (drop_S l x i Hx). Qed.

Lemma remove_step_spec r l idx st :
  StronglySorted le l -> (idx < length l)%nat -> looped r l idx st ->
  exists st', remove_step le idx st = Some st' /\ looped r l (S idx) st'.
Proof.
  intros Hl Hidx [Hs Hsub Hd Hn Hk Hrest Hlen]. destruct st as [[o tr] next]. cbn in *.
  destruct (lookup_lt_is_Some_2 l idx Hidx) as [item Hitem].
  assert (o !! idx = Some item) as Ho.
  { rewrite <- (Nat.add_0_r idx), <- lookup_drop, Hrest, lookup_drop, Nat.add_0_r. done. }
  destruct (advance_spec item tr Hs) as (Has & Hasub & Hadr & Hah).
  assert (forall y, y ∈ drop (S idx) l -> le item y) as Hlater.
  { intros y Hy. rewrite <- (take_drop idx l), (drop_idx l idx item Hitem) in Hl. apply StronglySorted_app in Hl as (_ & _ & Hl).
    apply StronglySorted_cons in Hl as [Hl _]. rewrite Forall_forall in Hl. auto. }
  assert (item ∈ r <-> head (advance le item tr) = Some item) as Hin.
  { rewrite Hah. split; [|auto]. intros Hr. destruct (Hd item Hr) as [?|Hlt]; [done|].
    destruct (Hlt item) as [_ []]; [|done]. rewrite (drop_idx l idx item Hitem). by left. }
  assert (forall x, x ∈ r -> x ∈ advance le item tr \/ (forall y, y ∈ drop (S idx) l -> lt x y)) as Hdrop.
  { intros x Hx. destruct (Hd x Hx) as [Hx'|Hlt].
    - destruct (Hadr x Hx') as [?|Hlt]; [by left|right]. intros y Hy. eapply lt_le; [done|auto].
    - right. intros y Hy. apply Hlt. rewrite (drop_idx l idx item Hitem). by right. }
  assert (forall x, x ∈ advance le item tr -> x ∈ r) as Hsub' by auto.
  assert (drop (S idx) o = drop (S idx) l) as Hrest'.
  { rewrite (drop_idx o idx item Ho), (drop_idx l idx item Hitem) in Hrest. by injection Hrest. }
  unfold remove_step. rewrite Ho. cbn. case_bool_decide as Hh.
  - eexists. split; [done|]. split; cbn; try done; [lia|].
    rewrite (take_S_r l idx item Hitem), filter_app, Hk, filter_cons_False, app_nil_r; [done|]. rewrite Hin. auto.
  - eexists. split; [done|]. rewrite <- Hin in Hh. split; cbn; try done; [lia| | |].
    + rewrite (take_S_r l idx item Hitem), filter_app, <- Hk, filter_cons_True by done. cbn.
      case_bool_decide as He; [subst next; by apply take_S_r|].
      rewrite (take_S_r _ next item) by (apply list_lookup_insert_eq; lia). f_equal. by apply take_insert_ge.
    + case_bool_decide; [done|]. by rewrite drop_insert_lt by lia.
    + case_bool_decide; [done|by rewrite length_insert].
Qed.

Lemma remove_loop_spec r l n : forall idx st,
  StronglySorted le l -> (idx + n = length l)%nat -> looped r l idx st ->
  exists st', remove_loop le (seq idx n) st = Some st' /\ looped r l (length l) st'.
Proof.
  induction n as [|n IH]; intros idx st Hl Hn Hst; cbn [seq remove_loop].
  - exists st. split; [done|]. by replace (length l) with idx by lia.
  - destruct (remove_step_spec r l idx st Hl ltac:(lia) Hst) as (st' & -> & Hst'). apply IH; [done|lia|done].
Qed.

Lemma remove_elts_filter to_remove original :
  remove_elts_from_list le to_remove original = Some (filter (fun x => x ∉ to_remove) (merge_sort le original)).
Proof.
  unfold remove_elts_from_list.
  destruct (remove_loop_spec (merge_sort le to_remove) (merge_sort le original) (length (merge_sort le original)) 0
    (merge_sort le original, merge_sort le to_remove, 0%nat)) as ([[o tr] next] & -> & Hl);
    [apply sorted_sort|done| |].
  - split; cbn; try done; [apply sorted_sort|]. auto.
  - f_equal. pose proof (lo_kept _ _ _ _ Hl) as Hk. cbn in Hk. rewrite Hk, firstn_all.
    apply list_filter_iff. intros x. by rewrite elem_of_sort.
Qed.
End Facts.
End RemoveFacts.

(** ** Calls *)
Module PaymasterFacts.
Import Paymaster.
Section Facts.
Context {Sp : Spec} {Ord : AddressOrd}.
Context {G : Type} `{GasMeterLaws G}.

(** What is stored of the payer [p] is as in [s0], and so are the balances. *)
Definition payer_kept (p : Address) (s0 s : t) : Prop :=
  payers s !! p = payers s0 !! p /\ (forall u, policies s !! (p, u) = policies s0 !! (p, u)) /\ bank s = bank s0.

(** A postcondition of the executions that succeed. *)
Definition on_success {E A} (Q : t -> Prop) (o : outcome E A) (s : t) : Prop :=
  match o with Ok _ => Q s | _ => True end.

Lemma payer_kept_set_payers p q P s0 s m e :
  p <> q -> payer_kept p s0 s -> payer_kept p s0 (mk (<[q := P]> (payers s)) (policies s) m e (bank s)).
Proof. intros Hne (H1 & H2 & H3). split_and!; cbn; [by rewrite lookup_insert_ne|done|done]. Qed.

Lemma payer_kept_set_policy p q u v s0 s m e :
  p <> q -> payer_kept p s0 s ->
  payer_kept p s0 (mk (payers s) (<[(q, u) := v]> (policies s)) m e (bank s)).
Proof.
  intros Hne (H1 & H2 & H3). split_and!; cbn; [done| |done]. intros u'. rewrite lookup_insert_ne; [done|congruence].
Qed.

Lemma payer_kept_delete_policy p q u s0 s m e :
  p <> q -> payer_kept p s0 s ->
  payer_kept p s0 (mk (payers s) (delete (q, u) (policies s)) m e (bank s)).
Proof.
  intros Hne (H1 & H2 & H3). split_and!; cbn; [done| |done]. intros u'. rewrite lookup_delete_ne; [done|congruence].
Qed.

Lemma payer_kept_other p s0 s m e :
  payer_kept p s0 s -> payer_kept p s0 (mk (payers s) (policies s) m e (bank s)).
Proof. done. Qed.

#[local] Hint Resolve payer_kept_set_payers payer_kept_set_policy payer_kept_delete_policy payer_kept_other : paymaster.

(** One step of a handler whose failures do not matter. *)
Ltac pm_step := wp_step; wp_red; try exact I.

Lemma wp_add_payee_policies p q l s0 s :
  p <> q -> payer_kept p s0 s ->
  wp (add_payee_policies (G := G) q l) (on_success (payer_kept p s0)) s.
Proof.
  intros Hne Hk. apply (wp_for_each _ (fun _ => payer_kept p s0)); [done| |done].
  intros done [u v] rest s' _ Hk'. unfold emit_event. repeat pm_step. cbn. by auto with paymaster.
Qed.

Lemma wp_remove_payee_policies p q l s0 s :
  p <> q -> payer_kept p s0 s ->
  wp (remove_payee_policies (G := G) q l) (on_success (payer_kept p s0)) s.
Proof.
  intros Hne Hk. destruct l as [l|]; cbn; [|by pm_step]. apply (wp_for_each _ (fun _ => payer_kept p s0)); [done| |done].
  intros done u rest s' _ Hk'. unfold emit_event. repeat pm_step.
  destruct (bool_decide _); repeat pm_step; cbn; by auto with paymaster.
Qed.

Lemma wp_do_registration p q l i s :
  is_Some (payers s !! p) -> wp (do_registration (G := G) q l i) (on_success (payer_kept p s)) s.
Proof.
  intros [P HP]. unfold do_registration, emit_event. do 5 pm_step.
  assert (p <> q) as Hne. { intros ->. cbn in *. rewrite HP in *. by rewrite bool_decide_eq_true_2 in *. }
  do 4 pm_step. apply wp_bind. eapply wp_mono; [by apply (wp_add_payee_policies p q _ s)|].
  intros [[]|e|] s1 Hs1; cbn in *; [|done..]. repeat pm_step. cbn.
  apply (wp_for_each _ (fun _ => payer_kept p s)); [by auto with paymaster| |done].
  intros done x rest s' _ Hk'. destruct (covers _ _); repeat pm_step; cbn; by auto with paymaster.
Qed.

Lemma wp_remove_payers p q l s0 s :
  payer_kept p s0 s -> wp (for_each (remove_payer_for (G := G) q) l) (on_success (payer_kept p s0)) s.
Proof.
  intros Hk. apply (wp_for_each _ (fun _ => payer_kept p s0)); [done| |done].
  intros done x rest s' _ Hk'. unfold remove_payer_for, emit_event. repeat pm_step. cbn.
  destruct (sequencer_to_payer s' !! x) as [cur|]; [|by pm_step].
  destruct (bool_decide _); repeat pm_step; cbn; by auto with paymaster.
Qed.

Lemma wp_update_allowed_sequencers p q u P c s0 s :
  payer_kept p s0 s -> wp (update_allowed_sequencers (G := G) q u P c) (on_success (payer_kept p s0)) s.
Proof.
  intros Hk. destruct u as [[|u]|]; cbn; [by pm_step| |by pm_step].
  apply wp_bind. eapply wp_mono; [by apply (wp_remove_payers p q _ s0)|].
  intros [[]|e|] s1 Hs1; cbn in *; [|done..]. destruct (authorized_sequencers P); [by pm_step|].
  unfold emit_event. do 3 pm_step. destruct (bool_decide _); repeat pm_step; cbn; by auto with paymaster.
Qed.

Lemma wp_remove_allowed_updaters l P s0 s :
  s = s0 -> wp (remove_allowed_updaters (G := G) l P) (on_success (eq s0)) s.
Proof. intros ->. destruct l; cbn; repeat pm_step; done. Qed.

Lemma wp_add_allowed_updaters q l P s0 s :
  s = s0 -> wp (add_allowed_updaters (G := G) q l P) (on_success (eq s0)) s.
Proof. intros ->. destruct l; cbn; repeat pm_step; done. Qed.

Lemma wp_update_policy p q u c s :
  p <> q -> wp (update_policy_if_authorized (G := G) u c q) (on_success (payer_kept p s)) s.
Proof.
  intros Hne. unfold update_policy_if_authorized, emit_event. repeat pm_step.
  eapply wp_mono; [by apply (wp_update_allowed_sequencers p q _ _ _ s)|].
  intros [P1|e|] s1 Hs1; cbn in *; [|done..]. pm_step.
  eapply wp_mono; [by apply wp_remove_allowed_updaters|]. intros [P2|e|] s2 Hs2; cbn in *; [|done..]. subst s2. pm_step.
  eapply wp_mono; [by apply wp_add_allowed_updaters|]. intros [P3|e|] s3 Hs3; cbn in *; [|done..]. subst s3. pm_step.
  eapply wp_mono; [by apply (wp_remove_payee_policies p q _ s)|]. intros [[]|e|] s4 Hs4; cbn in *; [|done..]. pm_step.
  assert (wp (match payee_policies_to_set u with Some l => add_payee_policies (G := G) q l | None => ret tt end)
            (on_success (payer_kept p s)) s4) as Hset.
  { destruct (payee_policies_to_set u); [by apply wp_add_payee_policies|by pm_step]. }
  eapply wp_mono; [exact Hset|]. intros [[]|e|] s5 Hs5; cbn in *; [|done..]. pm_step.
  destruct (default_policy u); repeat pm_step; cbn; by auto with paymaster.
Qed.

(** A caller who is not an updater of a payer changes nothing of it. *)
Lemma wp_call_kept msg c p P s :
  payers s !! p = Some P -> sender c ∉ authorized_updaters P ->
  wp (call (G := G) msg c) (on_success (payer_kept p s)) s.
Proof.
  intros HP Hc. destruct msg as [i|q|q u]; cbn [call].
  - by apply wp_do_registration; exists P.
  - unfold set_payer_for_sequencer, emit_event. repeat pm_step. cbn. by auto with paymaster.
  - destruct (decide (p = q)) as [->|Hne]; [|by apply wp_update_policy].
    unfold update_policy_if_authorized. do 8 pm_step. cbn in *. exfalso. simplify_eq.
    match goal with H : bool_decide _ = true |- _ => by apply bool_decide_eq_true in H end.
Qed.

(** ** The payer of a sequencer *)

Lemma wp_safe_call msg c da s :
  is_safe_for_sequencer msg da = true ->
  wp (call (G := G) msg c) (on_success (fun s' => sequencer_to_payer s' !! da = sequencer_to_payer s !! da)) s.
Proof.
  destruct msg as [i|q|q u]; cbn [is_safe_for_sequencer]; [|done..]. intros Hs%negb_true_iff. cbn [call].
  unfold register_paymaster, do_registration, emit_event. do 9 pm_step.
  set (K := fun s' => sequencer_to_payer s' !! da = sequencer_to_payer s !! da). apply wp_bind.
  eapply wp_mono with (Q := on_success K).
  { apply (wp_for_each _ (fun _ => K)); [done| |done]. intros done [x v] rest s' _ HK. unfold emit_event. by repeat pm_step. }
  intros [[]|e|] s1 Hs1; cbn in *; [|done..]. repeat pm_step. cbn.
  destruct (covers (init_authorized_sequencers i) (sequencer_da_address c)) eqn:Hc; repeat pm_step; cbn; [|done].
  unfold K. cbn. rewrite lookup_insert_ne; [done|]. intros <-. congruence.
Qed.

(** ** Revocation *)

(** An update that removes a sequencer which the payer does not serve fails. *)
Lemma wp_remove_payers_fails p l x s :
  x ∈ l -> sequencer_to_payer s !! x <> Some p ->
  wp (for_each (remove_payer_for (G := G) p) l) (on_success (fun _ => False)) s.
Proof.
  intros Hx. revert s. induction l as [|y l IH]; intros s Hs; [by apply not_elem_of_nil in Hx|].
  cbn [for_each]. unfold remove_payer_for at 1, emit_event. repeat pm_step. cbn.
  destruct (sequencer_to_payer s !! y) as [cur|] eqn:Hy; [|by pm_step].
  case_bool_decide as Hcur; [subst cur|by pm_step]. repeat pm_step.
  assert (x <> y) by congruence. apply IH; [set_solver|]. cbn. by rewrite lookup_delete_ne.
Qed.

Lemma wp_revocation_fails p u c su l x s :
  sequencer_update u = Some (UpdateList su) -> to_remove su = Some l -> x ∈ l -> sequencer_to_payer s !! x <> Some p ->
  wp (update_policy_if_authorized (G := G) u c p) (on_success (fun _ => False)) s.
Proof.
  intros Hu Hl Hx Hs. unfold update_policy_if_authorized. repeat pm_step. rewrite Hu. cbn [update_allowed_sequencers].
  pm_step. rewrite Hl. cbn [default]. eapply wp_mono; [by eapply wp_remove_payers_fails|].
  by intros [[]|e|] s' Hs'.
Qed.

(** ** Reservation of gas *)

(** The payer of a transaction and its new policy for the sender, if a paymaster pays. *)
Definition sponsor (s : t) (tx : TxDetails) (price : list N) (c : Context Sp) : option (Address * option PayeePolicy) :=
  let? payer := sequencer_to_payer s !! sequencer_da_address c in
  let? policy := payers s !! payer in
  if covers (authorized_sequencers policy) (sequencer_da_address c) then
    match authorize_transaction (default (default_payee_policy policy) (policies s !! (payer, sender c))) tx price with
    | inl mutated =>
        match Bank.reserve_check tx price (Bank.balance (bank s) (HolderUser payer) config_gas_token_id) with
        | None => Some (payer, mutated)
        | Some _ => None
        end
    | inr _ => None
    end
  else None.

(** The sequencer is registered with a payer that does not cover it any more. *)
Definition stale (s : t) (c : Context Sp) : bool :=
  match sequencer_to_payer s !! sequencer_da_address c with
  | Some payer =>
      match payers s !! payer with
      | Some policy => negb (covers (authorized_sequencers policy) (sequencer_da_address c))
      | None => true
      end
  | None => false
  end.

Definition forget_stale (s : t) (c : Context Sp) : gmap DaAddress Address :=
  if stale s c then delete (sequencer_da_address c) (sequencer_to_payer s) else sequencer_to_payer s.

Definition fee_paid (s : t) (payer : Address) (tx : TxDetails) : Bank.t :=
  Bank.transferred (bank s) (HolderUser payer) (HolderModule (Bank.id (bank s))) config_gas_token_id (max_fee tx).

Definition policy_used (s : t) (payer payee : Address) (mutated : option PayeePolicy) : gmap (Address * Address) PayeePolicy :=
  match mutated with Some p => <[(payer, payee) := p]> (policies s) | None => policies s end.

(** The result of a reservation. *)
Definition reserved (s : t) (tx : TxDetails) (price : list N) (c : Context Sp)
    (o : outcome Bank.ReserveGasError Address) (s' : t) : Prop :=
  match sponsor s tx price c with
  | Some (payer, mutated) =>
      o = Ok payer /\
      s' = mk (payers s) (policy_used s payer (sender c) mutated) (sequencer_to_payer s) (events s) (fee_paid s payer tx)
  | None =>
      match Bank.reserve_check tx price (Bank.balance (bank s) (HolderUser (sender c)) config_gas_token_id) with
      | None => o = Ok (sender c) /\ s' = mk (payers s) (policies s) (forget_stale s c) (events s) (fee_paid s (sender c) tx)
      | Some e => o = Err e /\ s' = mk (payers s) (policies s) (forget_stale s c) (events s) (bank s)
      end
  end.

Context (Hcf : ~ can_fail (G := G)).

(** The part a paymaster plays. *)
Definition sponsored (s : t) (tx : TxDetails) (price : list N) (c : Context Sp)
    (o : outcome Bank.ReserveGasError (option Address)) (s' : t) : Prop :=
  match sponsor s tx price c with
  | Some (payer, mutated) =>
      o = Ok (Some payer) /\
      s' = mk (payers s) (policy_used s payer (sender c) mutated) (sequencer_to_payer s) (events s) (fee_paid s payer tx)
  | None => o = Ok None /\ s' = mk (payers s) (policies s) (forget_stale s c) (events s) (bank s)
  end.

Lemma wp_gas_from_paymaster tx price c s :
  Bank.inv (bank s) -> wp (gas_from_paymaster (G := G) tx price c) (sponsored s tx price c) s.
Proof.
  intros Hinv. unfold gas_from_paymaster, get_payee_policy_if_sequencer_authorized, sponsored, sponsor, forget_stale, stale.
  do 3 pm_step; [no_fail|]. cbn. destruct (sequencer_to_payer s !! _) as [payer|]; cbn; [|pm_step; split; [done|by destruct s]].
  do 4 pm_step; [no_fail|]. cbn. destruct (payers s !! payer) as [policy|]; cbn; [|do 4 pm_step; [no_fail|by pm_step]].
  destruct (covers _ _); cbn; [|do 4 pm_step; [no_fail|by pm_step]].
  do 3 pm_step; [no_fail|]. do 3 pm_step. unfold try_purchase_paymaster_gas. cbn.
  destruct (authorize_transaction _ tx price) as [mutated|e]; do 2 pm_step;
    match goal with H : _ = _ |- _ => injection H as <- || discriminate H end.
  all: try (pm_step; split; [done|by destruct s]).
  do 2 pm_step. eapply wp_mono; [by apply (BankTheorems.reserve_gas_complete Hcf)|].
  intros o s' Ho. cbn in *. destruct (Bank.reserve_check _ _ _); destruct Ho as [-> ->]; cbn.
  - pm_step. done.
  - pm_step. destruct mutated; [do 3 pm_step; [no_fail|by pm_step]|by pm_step].
Qed.

Lemma wp_try_reserve_gas tx price c s :
  Bank.inv (bank s) -> wp (try_reserve_gas (G := G) tx price c) (reserved s tx price c) s.
Proof.
  intros Hinv. unfold try_reserve_gas. apply wp_bind. eapply wp_mono; [by apply wp_gas_from_paymaster|].
  intros o s' Hs'. unfold reserved, sponsored in *.
  destruct (sponsor s tx price c) as [[payer mutated]|]; destruct Hs' as [-> ->]; cbn; [by pm_step|].
  pm_step. apply wp_zoom. eapply wp_mono; [by apply (BankTheorems.reserve_gas_complete Hcf)|].
  intros o s' Ho. cbn in *. destruct (Bank.reserve_check _ _ _); destruct Ho as [-> ->]; cbn; by repeat pm_step.
Qed.
End Facts.
End PaymasterFacts.

(** ** Histories *)
Module PaymasterHistory.
Import Paymaster PaymasterFacts.
Section History.
Context {Sp : Spec} {Ord : AddressOrd}.

(** How many transactions a policy can still pay. *)
Definition allowance (policy : PayeePolicy) : option N :=
  match policy with
  | Allow _ _ _ (Some limit) => Some (N.pos limit)
  | Allow _ _ _ None => None
  | Deny => Some 0
  end.

(** What a step did: a reservation paid by [payer] for a transaction of [payee],
    a call of [caller], or something else. *)
Inductive label : Type := Reserved (payer payee : Address) | Called (caller : Address) | Other.

#[export] Instance label_eq_dec : EqDecision label.
Proof. solve_decision. Defined.

Definition reservation (o : outcome Bank.ReserveGasError Address) (payee : Address) : label :=
  match o with Ok payer => Reserved payer payee | _ => Other end.

(** Reservations are unmetered, calls run on any meter and are reverted unless
    they succeed, and other modules move tokens as they like within the bank's
    invariant. *)
Inductive step {G : Type} `{GasMeterLaws G} (s : t) : label -> t -> Prop :=
| step_reserve tx price c o s' :
    try_reserve_gas tx price c (Acc tt s) = (o, Acc tt s') -> step s (reservation o (sender c)) s'
| step_call msg c g g' s' :
    meter_wf g -> call (G := G) msg c (Acc g s) = (Ok tt, Acc g' s') -> step s (Called (sender c)) s'
| step_bank b : Bank.inv b -> step s Other (put_bank b s).

Inductive steps {G : Type} `{GasMeterLaws G} : t -> list label -> t -> Prop :=
| steps_refl s : steps s [] s
| steps_step s l s' ls s'' : step s l s' -> steps s' ls s'' -> steps s (l :: ls) s''.

Definition payments (p u : Address) (ls : list label) : N := len (filter (fun l => l = Reserved p u) ls).

(** The policy of the payer [p] for [u] is [policy], its own or the default one. *)
Definition policy_for (s : t) (p u : Address) (P : PaymasterPolicy) (policy : PayeePolicy) : Prop :=
  payers s !! p = Some P /\ policy = default (default_payee_policy P) (policies s !! (p, u)).

Lemma authorized_allowance policy tx price mutated n :
  authorize_transaction policy tx price = inl mutated -> allowance policy = Some n ->
  exists policy', mutated = Some policy' /\ allowance policy' = Some (n - 1) /\ 1 <= n.
Proof.
  unfold authorize_transaction. intros Ha Hn. destruct policy as [f l g [limit|]|]; [|done|done].
  repeat (destruct (negb _) in Ha; [done|]). apply (inj inl) in Ha as <-. apply (inj Some) in Hn as <-.
  unfold maybe_decrement_allowance, saturating_sub. destruct (N.pos limit - 1) as [|limit'] eqn:Hl.
  - exists Deny. split_and!; [done|done|lia].
  - eexists. split_and!; [done|done|lia].
Qed.

Lemma fee_paid_inv s payer tx price :
  Bank.inv (bank s) -> Bank.reserve_check tx price (Bank.balance (bank s) (HolderUser payer) config_gas_token_id) = None ->
  Bank.inv (fee_paid s payer tx).
Proof.
  intros Hinv Hc. apply BankFacts.inv_transferred; [done|]. unfold Bank.reserve_check in Hc.
  by destruct (N.ltb_spec (Bank.balance (bank s) (HolderUser payer) config_gas_token_id) (max_fee tx)).
Qed.

(** [payer] paid [fee] to the bank and no other balance changed. *)
Definition charged (b b' : Bank.t) (payer : Address) (fee : N) : Prop :=
  Bank.balance b' (HolderUser payer) config_gas_token_id + fee = Bank.balance b (HolderUser payer) config_gas_token_id /\
  Bank.balance b' (HolderModule (Bank.id b)) config_gas_token_id =
    Bank.balance b (HolderModule (Bank.id b)) config_gas_token_id + fee /\
  (forall h tid, h <> HolderUser payer /\ h <> HolderModule (Bank.id b) \/ tid <> config_gas_token_id ->
     Bank.balance b' h tid = Bank.balance b h tid).

Lemma fee_paid_charged s payer tx price :
  Bank.reserve_check tx price (Bank.balance (bank s) (HolderUser payer) config_gas_token_id) = None ->
  charged (bank s) (fee_paid s payer tx) payer (max_fee tx).
Proof.
  unfold Bank.reserve_check.
  destruct (N.ltb_spec (Bank.balance (bank s) (HolderUser payer) config_gas_token_id) (max_fee tx)); [done|]. intros _.
  unfold fee_paid. split_and!; [| |intros h tid Hh]; rewrite BankFacts.balance_transferred by done;
    repeat case_bool_decide; naive_solver lia.
Qed.

Lemma sponsor_inv s tx price c payer mutated :
  sponsor s tx price c = Some (payer, mutated) ->
  exists P, sequencer_to_payer s !! sequencer_da_address c = Some payer /\ payers s !! payer = Some P /\
    covers (authorized_sequencers P) (sequencer_da_address c) = true /\
    authorize_transaction (default (default_payee_policy P) (policies s !! (payer, sender c))) tx price = inl mutated /\
    Bank.reserve_check tx price (Bank.balance (bank s) (HolderUser payer) config_gas_token_id) = None.
Proof.
  unfold sponsor. intros Hs. destruct (sequencer_to_payer s !! _) as [q|] eqn:Hq; cbn in Hs; [|done].
  destruct (payers s !! q) as [P|] eqn:HP; cbn in Hs; [|done]. destruct (covers _ _) eqn:Hc; [|done].
  destruct (authorize_transaction _ _ _) as [m|] eqn:Ha; [|done]. destruct (Bank.reserve_check _ _ _) eqn:Hr; [done|].
  injection Hs as <- <-. by exists P.
Qed.

Lemma reserved_inv s tx price c o s' :
  Bank.inv (bank s) -> reserved s tx price c o s' -> Bank.inv (bank s') /\ payers s' = payers s.
Proof.
  unfold reserved. intros Hinv. destruct (sponsor _ _ _ _) as [[q m]|] eqn:Hs.
  - intros [-> ->]. split; [|done]. apply sponsor_inv in Hs as (P & _ & _ & _ & _ & Hr). by eapply fee_paid_inv.
  - destruct (Bank.reserve_check _ _ _) eqn:Hr; intros [-> ->]; (split; [|done]); [done|by eapply fee_paid_inv].
Qed.

Section Metered.
Context {G : Type} `{GasMeterLaws G}.

Lemma step_spec s l s' p u P policy n :
  p <> u -> step (G := G) s l s' -> Bank.inv (bank s) -> policy_for s p u P policy -> allowance policy = Some n ->
  (forall a, l = Called a -> a ∉ authorized_updaters P) ->
  Bank.inv (bank s') /\ exists policy' n', policy_for s' p u P policy' /\ allowance policy' = Some n' /\
    payments p u [l] + n' <= n.
Proof.
  intros Hpu Hstep Hinv [HP Hpol] Hn Hcall. destruct Hstep as [tx price c o s' Hrun|msg c g g' s' Hg Hrun|b Hb].
  - destruct (wp_run _ _ _ tt (wp_try_reserve_gas unmetered_cannot_fail tx price c s Hinv) I) as [_ Hres].
    rewrite Hrun in Hres. cbn in Hres. destruct (reserved_inv _ _ _ _ _ _ Hinv Hres) as [Hinv' HP'].
    split; [done|]. unfold reserved in Hres. unfold policy_for. rewrite HP'.
    destruct (sponsor s tx price c) as [[q m]|] eqn:Hs.
    + destruct Hres as [-> ->]. apply sponsor_inv in Hs as (Q & _ & HQ & _ & Ha & _). cbn.
      destruct (decide (q = p /\ sender c = u)) as [[-> Hu]|Hne].
      * rewrite Hu in *. assert (Q = P) as -> by congruence. rewrite <- Hpol in Ha.
        destruct (authorized_allowance _ _ _ _ _ Ha Hn) as (pol' & -> & Hn' & Hle). exists pol', (n - 1). cbn.
        rewrite lookup_insert_eq. split_and!; [done|done|done|]. unfold payments. rewrite filter_cons_True by done.
        len_lia.
      * exists policy, n. split_and!; [done| |done|].
        -- rewrite Hpol. f_equal. destruct m; [|done]. cbn. rewrite lookup_insert_ne; [done|]. intros Heq. apply Hne. split; congruence.
        -- unfold payments. rewrite filter_cons_False; [done|]. intros Heq. apply Hne. split; congruence.
    + exists policy, n. destruct (Bank.reserve_check _ _ _); destruct Hres as [-> ->]; cbn; split_and!; try done.
      unfold payments. rewrite filter_cons_False; [done|]. intros Heq. apply Hpu. congruence.
  - destruct (wp_run _ _ _ g (wp_call_kept msg c p P s HP (Hcall _ eq_refl)) Hg) as [_ Hk].
    rewrite Hrun in Hk. cbn in Hk. destruct Hk as (H1 & H2 & H3). rewrite H3. split; [done|]. exists policy, n.
    unfold policy_for. rewrite H1, H2. split_and!; [done|done|done|]. unfold payments. by rewrite filter_cons_False.
  - split; [done|]. exists policy, n. split_and!; [by split|done|]. unfold payments. by rewrite filter_cons_False.
Qed.

Lemma payments_cons p u l ls : payments p u (l :: ls) = payments p u [l] + payments p u ls.
Proof. unfold payments. rewrite (filter_app _ [l] ls). len_lia. Qed.

Lemma steps_bound s ls s' p u P policy n :
  p <> u -> steps (G := G) s ls s' -> Bank.inv (bank s) -> policy_for s p u P policy -> allowance policy = Some n ->
  (forall a, Called a ∈ ls -> a ∉ authorized_updaters P) ->
  exists policy' n', policy_for s' p u P policy' /\ allowance policy' = Some n' /\ payments p u ls + n' <= n.
Proof.
  intros Hpu Hsteps. revert policy n. induction Hsteps as [s|s l s1 ls s2 Hstep Hsteps IH]; intros policy n Hinv Hpol Hn Hcall.
  - exists policy, n. done.
  - destruct (step_spec s l s1 p u P policy n) as (Hinv1 & pol1 & n1 & Hpol1 & Hn1 & Hle1); try done.
    { intros a ->. apply Hcall. by left. }
    destruct (IH pol1 n1) as (pol2 & n2 & Hpol2 & Hn2 & Hle2); try done.
    { intros a Ha. apply Hcall. by right. }
    exists pol2, n2. split_and!; [done|done|]. rewrite payments_cons. lia.
Qed.
End Metered.
End History.
End PaymasterHistory.

(** ** A concrete paymaster *)
Module PaymasterDemo.
Import Paymaster PaymasterHistory.

#[export] Instance N_le_total : TotalOrder N.le.
Proof.
  split; [split; [split; [intros x; reflexivity|intros x y z; apply N.le_trans]|intros x y; apply N.le_antisymm]|].
  intros x y. destruct (N.lt_trichotomy x y) as [?|[->|?]]; [left|right; by left|right; right]; split; lia.
Qed.

#[export] Instance test_address_ord : AddressOrd (Sp := test_spec) :=
  @Build_AddressOrd test_spec N.le N.le_dec N_le_total N.le N.le_dec N_le_total.

Definition demo_policy : PaymasterPolicy (Sp := test_spec) :=
  @mkPolicy test_spec (Allow (Some 400) None None (Some 1%positive)) [2] (@Only test_spec [60; 70]).

(** The user 2 pays for the transactions sequenced by 60, one for each sender. *)
Definition demo : t (Sp := test_spec) :=
  @mk test_spec {[2%N := demo_policy]} ∅ {[60%N := 2%N]} [] BankDemo.demo.

Definition demo_tx : TxDetails := mkTxDetails 0 300 (Some [50; 50]) 1.

(** A reservation for the user 1. *)
Definition reserve (s : t (Sp := test_spec)) : outcome Bank.ReserveGasError N * t (Sp := test_spec) :=
  let '(o, a) := try_reserve_gas (Sp := test_spec) (G := unit) demo_tx [2; 3] (BankDemo.demo_context 1) (Acc tt s) in
  (o, store a).

Lemma reserve_step s : step (Sp := test_spec) (G := unit) s (reservation (fst (reserve s)) 1) (snd (reserve s)).
Proof.
  unfold reserve. destruct (try_reserve_gas _ _ _ _) as [o [[] s']] eqn:Hrun. cbn.
  exact (step_reserve (Sp := test_spec) (G := unit) s demo_tx [2; 3] (BankDemo.demo_context 1) o s' Hrun).
Qed.

(** The update by which the user 2 revokes the sequencer 70. *)
Definition revoke : PolicyUpdate (Sp := test_spec) :=
  @mkUpdate test_spec (Some (UpdateList (@mkSequencerUpdate test_spec None (Some [70%N])))) None None None None None.

Definition other_registration : CallMessage (Sp := test_spec) :=
  @RegisterPaymaster test_spec (@mkInitializer test_spec (@Deny) [] [5%N] (@Only test_spec [61%N])).
End PaymasterDemo.

(** ** Properties *)
Module PaymasterProperties.
Import Paymaster PaymasterFacts PaymasterHistory.
Section Properties.
Context {Sp : Spec} {Ord : AddressOrd}.

(** Removing from the lists of a policy in place, by walking both sorted lists
    once, never indexes out of bounds and leaves exactly the elements that are not
    to be removed, in order and with their repetitions. *)
Theorem remove_elts_exact {A} `{EqDecision A} (le : relation A) `{!RelDecision le} `{!TotalOrder le}
    (to_remove original : list A) :
  remove_elts_from_list le to_remove original = Some (filter (fun x => x ∉ to_remove) (merge_sort le original)).
Proof. by apply RemoveFacts.remove_elts_filter. Qed.

(** C23: reserving the gas of a transaction. The paymaster of the sequencer pays
    exactly the maximum fee when its policy covers the sequencer and authorizes the
    transaction of this sender and its balance suffices: it then gets the refund,
    and its allowance for the sender is used once. Otherwise the sender pays, or the
    reservation fails as the bank's check says. Whoever pays, nobody else's balance
    changes but the bank's own, which gets the fee. *)
Theorem paymaster_reserve_exact (s : t) tx price c (Hinv : Bank.inv (bank s)) :
  exists o s', try_reserve_gas tx price c (Acc tt s) = (o, Acc tt s') /\
    reserved s tx price c o s' /\ Bank.inv (bank s') /\
    match o with
    | Ok payer => charged (bank s) (bank s') payer (max_fee tx)
    | Err _ => bank s' = bank s
    | Panic => False
    end.
Proof.
  destruct (wp_result _ _ _ (wp_try_reserve_gas unmetered_cannot_fail tx price c s Hinv)) as (o & s' & Hrun & Hres).
  exists o, s'. destruct (reserved_inv _ _ _ _ _ _ Hinv Hres) as [Hinv' _]. split_and!; [done..|].
  unfold reserved in Hres. destruct (sponsor s tx price c) as [[q m]|] eqn:Hs.
  - destruct Hres as [Ho ->]. apply sponsor_inv in Hs as (P & _ & _ & _ & _ & Hr). rewrite Ho. by eapply fee_paid_charged.
  - destruct (Bank.reserve_check _ _ _) eqn:Hr; destruct Hres as [Ho ->]; [by rewrite Ho|rewrite Ho; by eapply fee_paid_charged].
Qed.

(** C31: a payer whose policy for a payee, its own or the payer's default, has a
    transaction limit pays for at most that many transactions of the payee, whatever
    reservations are made, whatever callers other than the payer's updaters call, on
    any gas meter, and however balances move in between. *)
Theorem transaction_limit_respected {G} `{GasMeterLaws G} (s s' : t) ls payer payee P policy limit
    (Hinv : Bank.inv (bank s)) (Hsteps : steps (G := G) s ls s') (Hne : payer <> payee)
    (Hpol : policy_for s payer payee P policy) (Hlimit : allowance policy = Some limit)
    (Hcalls : forall a, Called a ∈ ls -> a ∉ authorized_updaters P) :
  payments payer payee ls <= limit /\
  exists policy' left, policy_for s' payer payee P policy' /\ allowance policy' = Some left /\
    payments payer payee ls + left <= limit.
Proof.
  destruct (steps_bound s ls s' payer payee P policy limit) as (pol' & n' & Hpol' & Hn' & Hle); try done.
  split; [lia|]. by exists pol', n'.
Qed.

(** A message that is judged safe for a sequencer does not change the payer that
    serves the sequencer, whoever sends it. *)
Theorem safe_message_keeps_payer {G} `{GasMeterLaws G} (s s' : t) msg c da (g g' : G)
    (Hg : meter_wf g) (Hsafe : is_safe_for_sequencer msg da = true)
    (Hrun : call msg c (Acc g s) = (Ok tt, Acc g' s')) :
  sequencer_to_payer s' !! da = sequencer_to_payer s !! da.
Proof. pose proof (wp_run _ _ _ g (wp_safe_call msg c da s Hsafe) Hg) as [_ Hk]. by rewrite Hrun in Hk. Qed.

(** Building an update that adds a sequencer leaves the list of sequencers to add
    as it was and asks for the sequencer to be removed. *)
Theorem add_sequencer_removes (u u' : AllowedSequencerUpdate) da (Hadd : add_sequencer u da = Some u') :
  to_add u' = to_add u /\ exists l, to_remove u' = Some l /\ da ∈ l.
Proof.
  unfold add_sequencer, get_or_insert_push, try_extend in Hadd. destruct (_ <=? _); [|done]. cbn in Hadd.
  injection Hadd as <-. split; [done|]. eexists. split; [done|]. set_solver.
Qed.

(** An updater cannot revoke a sequencer that has chosen another payer, or none:
    the whole update fails. *)
Theorem revocation_blocked {G} `{GasMeterLaws G} (s : t) c payer u su l da (g : G)
    (Hg : meter_wf g) (Hu : sequencer_update u = Some (UpdateList su)) (Hl : to_remove su = Some l)
    (Hda : da ∈ l) (Hs : sequencer_to_payer s !! da <> Some payer) :
  fst (call (UpdatePolicy payer u) c (Acc g s)) <> Ok tt.
Proof.
  pose proof (wp_run _ _ _ g (wp_revocation_fails payer u c su l da s Hu Hl Hda Hs) Hg) as [_ Hk].
  cbn [call]. by destruct (update_policy_if_authorized _ _ _ _) as [[[]|e|] a].
Qed.
End Properties.

Import PaymasterDemo.

Lemma remove_elts_exact_witness : remove_elts_from_list N.le [2; 5] [3; 2; 1; 2] = Some [1; 3].
Proof. rewrite (remove_elts_exact N.le [2; 5] [3; 2; 1; 2]). vm_compute. reflexivity. Defined.

Lemma paymaster_reserve_exact_witness :
  exists s', try_reserve_gas demo_tx [2; 3] (BankDemo.demo_context 1) (Acc tt demo) = (Ok 2%N, Acc tt s') /\
    policies s' !! (2%N, 1%N) = Some Deny /\ charged (Sp := test_spec) (bank demo) (bank s') 2%N 300.
Proof.
  destruct (paymaster_reserve_exact demo demo_tx [2; 3] (BankDemo.demo_context 1) BankDemo.demo_inv)
    as (o & s' & Hrun & Hres & _ & Hch).
  assert (sponsor demo demo_tx [2; 3] (BankDemo.demo_context 1) = Some (2%N, Some Deny)) as Hs by (vm_compute; reflexivity).
  unfold reserved in Hres. rewrite Hs in Hres. destruct Hres as [-> ->]. eexists. split; [exact Hrun|].
  split; [apply lookup_insert_eq|exact Hch].
Defined.

Lemma transaction_limit_respected_witness :
  payments (Sp := test_spec) 2%N 1%N
    [reservation (fst (reserve demo)) 1%N; reservation (fst (reserve (snd (reserve demo)))) 1%N] <= 1 /\
  fst (reserve demo) = Ok 2%N /\ fst (reserve (snd (reserve demo))) = Ok 1%N.
Proof.
  split; [|split; vm_compute; reflexivity].
  apply (transaction_limit_respected (Sp := test_spec) (G := unit) demo (snd (reserve (snd (reserve demo)))) _ 2%N 1%N
           demo_policy (Allow (Some 400) None None (Some 1%positive)) 1).
  - exact BankDemo.demo_inv.
  - eapply steps_step; [apply reserve_step|]. eapply steps_step; [apply reserve_step|]. apply steps_refl.
  - lia.
  - split; [vm_compute; reflexivity|vm_compute; reflexivity].
  - reflexivity.
  - intros a Ha. exfalso. apply elem_of_cons in Ha as [Ha|Ha]; [|apply elem_of_cons in Ha as [Ha|Ha%not_elem_of_nil]; [|done]];
      unfold reservation in Ha; by destruct (fst _) in Ha.
Defined.

Lemma safe_message_keeps_payer_witness :
  exists a, call (G := unit) other_registration (BankDemo.demo_context 5) (Acc tt demo) = (Ok tt, a) /\
    sequencer_to_payer (store a) !! 60%N = Some 2%N.
Proof.
  destruct (call (G := unit) other_registration (BankDemo.demo_context 5) (Acc tt demo)) as [o [[] s']] eqn:Hrun.
  assert (o = Ok tt) as ->.
  { change o with (fst (o, Acc tt s')). rewrite <- Hrun. vm_compute. reflexivity. }
  exists (Acc tt s'). split; [reflexivity|]. cbn [store].
  transitivity (sequencer_to_payer demo !! 60%N); [|vm_compute; reflexivity].
  eapply (safe_message_keeps_payer (Sp := test_spec) (G := unit) demo s' other_registration (BankDemo.demo_context 5));
    [exact I|reflexivity|exact Hrun].
Defined.

Lemma add_sequencer_removes_witness :
  exists u', add_sequencer (@mkSequencerUpdate test_spec None None) 70%N = Some u' /\
    to_add u' = None /\ exists l, to_remove u' = Some l /\ 70%N ∈ l.
Proof.
  eexists. split; [reflexivity|].
  apply (add_sequencer_removes (Sp := test_spec) (@mkSequencerUpdate test_spec None None) _ 70%N eq_refl).
Defined.

Lemma revocation_blocked_witness :
  fst (call (G := unit) (@UpdatePolicy test_spec 2%N revoke) (BankDemo.demo_context 2) (Acc tt demo)) <> Ok tt.
Proof.
  apply (revocation_blocked (Sp := test_spec) (G := unit) demo (BankDemo.demo_context 2) 2%N revoke
           (@mkSequencerUpdate test_spec None (Some [70%N])) [70%N] 70%N tt).
  - exact I.
  - reflexivity.
  - reflexivity.
  - by left.
  - vm_compute. discriminate.
Defined.
End PaymasterProperties.
