(* ===== verification/Keccak.v ===== *)
(** * Keccak-256

    The hash function of Ethereum, written from its specification (the Keccak
    reference, capacity 512, the original padding).  The bridge takes its hash
    function from the crate sha3; its theorems hold for any function.  This
    instance shows that what they assume of it can hold, and settles what
    depends on the hash values themselves: the table of zero hashes. *)

From Stdlib Require Import NArith Lia.
From stdpp Require Import base numbers list.
From S2P Require Import Prelude Ints.

Module Keccak.

Definition lane_mask : N := 18446744073709551615.

Definition rotl (x n : N) : N := N.lor (N.land (N.shiftl x n) lane_mask) (N.shiftr x (64 - n)).

Definition lane (st : list N) (i : nat) : N := nth i st 0.

Definition round_constants : list N :=
  [0x1; 0x8082; 0x800000000000808A; 0x8000000080008000; 0x808B; 0x80000001; 0x8000000080008081;
   0x8000000000008009; 0x8A; 0x88; 0x80008009; 0x8000000A; 0x8000808B; 0x800000000000008B;
   0x8000000000008089; 0x8000000000008003; 0x8000000000008002; 0x8000000000000080; 0x800A;
   0x800000008000000A; 0x8000000080008081; 0x8000000000008080; 0x80000001; 0x8000000080008008].

(** The rotation of the lane at [x + 5 y]. *)
Definition rotations : list N :=
  [0; 1; 62; 28; 27; 36; 44; 6; 55; 20; 3; 10; 43; 25; 39; 41; 45; 15; 21; 8; 18; 2; 61; 56; 14].

Definition theta (st : list N) : list N :=
  let column x := fold_left N.lxor (map (fun y => lane st (x + 5 * y)%nat) (seq 0 5)) 0 in
  let columns := map column (seq 0 5) in
  let d x := N.lxor (lane columns ((x + 4) mod 5)%nat) (rotl (lane columns ((x + 1) mod 5)%nat) 1) in
  let ds := map d (seq 0 5) in
  map (fun i => N.lxor (lane st i) (lane ds (i mod 5)%nat)) (seq 0 25).

Definition rho_pi (st : list N) : list N :=
  map (fun i => let X := (i mod 5)%nat in let Y := (i / 5)%nat in
                let j := ((X + 3 * Y) mod 5 + 5 * X)%nat in rotl (lane st j) (nth j rotations 0))
      (seq 0 25).

Definition chi (st : list N) : list N :=
  map (fun i => let X := (i mod 5)%nat in let row := (i - X)%nat in
                N.lxor (lane st i)
                  (N.land (N.lxor (lane st (row + (X + 1) mod 5)%nat) lane_mask)
                          (lane st (row + (X + 2) mod 5)%nat)))
      (seq 0 25).

Definition iota (rc : N) (st : list N) : list N :=
  match st with [] => [] | x :: st => N.lxor x rc :: st end.

Definition keccak_f (st : list N) : list N :=
  fold_left (fun st rc => iota rc (chi (rho_pi (theta st)))) round_constants st.

(** ** The sponge: blocks of 136 bytes *)

Definition rate : nat := 136.

Definition pad (l : list N) : list N :=
  let r := (rate - length l mod rate)%nat in
  if (r =? 1)%nat then l ++ [0x81] else l ++ 0x01 :: repeat 0 (r - 2) ++ [0x80].

Fixpoint lanes_of (fuel : nat) (l : list N) : list N :=
  match fuel with
  | O => []
  | S fuel => foldr (fun b acc => acc * 256 + b) 0 (take 8 l) :: lanes_of fuel (drop 8 l)
  end.

Definition absorb (st block : list N) : list N :=
  keccak_f (zip_with N.lxor st (lanes_of 17 block ++ repeat 0 8)).

Fixpoint absorb_all (fuel : nat) (st l : list N) : list N :=
  match fuel with
  | O => st
  | S fuel => match l with [] => st | _ => absorb_all fuel (absorb st (take rate l)) (drop rate l) end
  end.

Definition keccak256 (l : list N) : list N :=
  let l := pad l in
  let st := absorb_all (length l) (repeat 0 25) l in
  to_le_bytes 8 (lane st 0) ++ to_le_bytes 8 (lane st 1) ++ to_le_bytes 8 (lane st 2) ++ to_le_bytes 8 (lane st 3).

Lemma keccak256_length l : length (keccak256 l) = 32%nat.
Proof. unfold keccak256. by rewrite !length_app, !to_le_bytes_length. Qed.

(** The published hash of the empty string. *)
Lemma keccak256_empty :
  keccak256 [] =
  [0xc5; 0xd2; 0x46; 0x01; 0x86; 0xf7; 0x23; 0x3c; 0x92; 0x7e; 0x7d; 0xb2; 0xdc; 0xc7; 0x03; 0xc0;
   0xe5; 0x00; 0xb6; 0x53; 0xca; 0x82; 0x27; 0x3b; 0x7b; 0xfa; 0xd8; 0x04; 0x5d; 0x85; 0xa4; 0x70].
Proof. vm_compute. reflexivity. Qed.
End Keccak.
