(* ===== verification/Hyperlane.v ===== *)
(** * The Hyperlane bridge: messages, hashes and security modules

    - bytes: big-endian integers and slices of byte strings;
    - types.rs: [Message] with its encoding, [message_id];
    - crypto.rs: the gas charged for hashing, [keccak256_hash],
      [keccak256_concat], the domain, multisig, announcement and EIP-191
      hashes, [decode_signature], [ec_recover], [eth_address_from_public_key];
    - ism.rs: [Ism], the metadata of the multisig module, [verify];
    - lib.rs: [HyperlaneAddress] and its implementations.

    Keccak and ECDSA come from the crates sha3 and k256: they are parameters
    ([HyperlaneSpec]), with the lengths of what they return.  The errors are
    [anyhow] errors, told apart here by their cause; contexts added to them are
    left out.  Byte strings ([HexString], [HexHash], [EthAddress]) are lists of
    bytes. *)

From Stdlib Require Import NArith Lia.
From stdpp Require Import base numbers gmap strings option list.
From S2P Require Import Prelude Ints Gas StateAccess Bank.

Abbreviation HexString := (list N).
Abbreviation HexHash := (list N).
Abbreviation EthAddress := (list N).
Abbreviation Domain := N.

(** ** Bytes *)

Definition len {A} (l : list A) : N := N.of_nat (length l).

(** [l[from..to]], for a range within [l]. *)
Definition slice {A} (from to : nat) (l : list A) : list A := take (to - from) (drop from l).

Definition to_be_bytes (n : nat) (x : N) : list N := rev (to_le_bytes n x).

Definition from_be_bytes (l : list N) : N := fold_left (fun acc b => acc * 256 + b) l 0.

Definition byte (b : N) : Prop := b < 256.
Definition bytes (l : list N) : Prop := Forall byte l.

(** ** What comes from outside of the repository *)

Class HyperlaneSpec {Sp : Spec} : Type := {
  (** [Keccak256::digest] *)
  keccak : list N -> list N;
  keccak_length : forall l, length (keccak l) = 32%nat;
  (** [k256::ecdsa::Signature], [Signature::from_bytes] *)
  Signature : Type;
  signature_from_bytes : list N -> option Signature;
  (** [VerifyingKey::recover_from_prehash], and the key as an uncompressed
      point: a tag and 64 bytes. *)
  recover_from_prehash : list N -> Signature -> N -> option (list N);
  recover_length : forall d s r k, recover_from_prehash d s r = Some k -> length k = 65%nat;
  (** The constant of [GasSpec] that only signatures use. *)
  fixed_gas_to_charge_per_signature_verification : list N;
  (** [HyperlaneAddress], lib.rs *)
  to_sender : Address -> HexHash;
  from_sender : HexHash -> option Address;
  (** The borsh encoding of addresses. *)
  borsh_address : Address -> list N;
  (** The constants of [config_value!]. *)
  HYPERLANE_BRIDGE_DOMAIN : N;
  HYPERLANE_METER_DELIVERY_COUNTER_AFTER_HEIGHT : N
}.

(** What the documentation of [HyperlaneAddress] asks of an implementation:
    addresses are represented unambiguously in 32 bytes. *)
Class HyperlaneAddressLaws {Sp : Spec} (HS : HyperlaneSpec) : Prop := {
  from_to_sender : forall a, from_sender (to_sender a) = Some a;
  to_from_sender : forall h a, from_sender h = Some a -> to_sender a = h
}.

(** The reads of [VersionReader] the bridge makes. *)
Record VersionReader : Type := mkVersion {
  rollup_height_to_access : N;
  current_visible_slot_number : N
}.

(** The causes of the [anyhow] errors of the crate. *)
Inductive anyhow {Sp : Spec} : Type :=
| GasE (e : GasMeteringError)
| StateE (e : StateAccessorError)
| TransferE (e : Bank.TransferTokenError)
| MintE (e : Bank.MintTokenError)
| BurnE (e : Bank.CommonError)
| CreateE (e : Bank.CreateTokenError)
| HashGasOverflow
| MessageTooShort
| BadSignatureLength
| InvalidRecoveryId (v : N)
| InvalidSignatureBytes
| RecoveryFailed
| UntrustedRelayer
| MetadataLengthOverflow
| InvalidMetadataLength (expected got : N)
| SignedTwice (a : EthAddress)
| NotAValidator (a : EthAddress)
| TreeFull
| InvalidVersion (v : N)
| InvalidDestination (d : N)
| AlreadyProcessed (id : HexHash)
| NoIsm
| NoRelayer
| AlreadyAnnounced
| AnnouncementMismatch (recovered : EthAddress)
| InvalidAddress
| OracleNotSet
| DefaultGasNotSet
| DefaultGasZero
| BadOracleData
| DuplicateKey
| RequiredGasOverflow
| AmountTooLarge
| InsufficientPayment (limit required : N)
| FundsOverflow
| NoBeneficiary
| AccessDenied
| RouteExists
| RouteNotFound
| RouteImmutable
| NotRouteOwner
| EmptyUpdate
| RouterAlreadyEnrolled
| DomainNotEnrolled
| RouterNotFound
| RouterMismatch
| InvalidTransferBody
| ScaleOverflow
| LimitExceeded (transferred limit : N).

(** ** Messages, types.rs *)

Record Message : Type := mkMessage {
  version : N;
  nonce : N;
  origin_domain : Domain;
  msg_sender : HexHash;
  dest_domain : Domain;
  recipient : HexHash;
  body : HexString
}.

#[export] Instance Message_eq_dec : EqDecision Message.
Proof. solve_decision. Defined.

(** The fields have the widths of their types. *)
Definition message_wf (m : Message) : Prop :=
  version m <= u8_max /\ nonce m <= u32_max /\ origin_domain m <= u32_max /\ dest_domain m <= u32_max /\
  length (msg_sender m) = 32%nat /\ bytes (msg_sender m) /\
  length (recipient m) = 32%nat /\ bytes (recipient m) /\ bytes (body m).

Section Messages.
Context {Sp : Spec}.

Definition message_decode (message : list N) : Message + anyhow :=
  if 77 <=? len message then
    inl (mkMessage (from_be_bytes (slice 0 1 message)) (from_be_bytes (slice 1 5 message))
           (from_be_bytes (slice 5 9 message)) (slice 9 41 message)
           (from_be_bytes (slice 41 45 message)) (slice 45 77 message) (drop 77 message))
  else inr MessageTooShort.

Definition message_encode (m : Message) : HexString :=
  to_be_bytes 1 (version m) ++ to_be_bytes 4 (nonce m) ++ to_be_bytes 4 (origin_domain m) ++
  msg_sender m ++ to_be_bytes 4 (dest_domain m) ++ recipient m ++ body m.
End Messages.

(** ** Hashing, crypto.rs *)
Section Crypto.
Context {Sp : Spec} {HS : HyperlaneSpec} {G : Type} `{GasMeter G} {S : Type}.

(** A [usize] always fits the gas scalar, a [u64]. *)
Definition charge_gas_for_hashing (bytes_to_hash : N) : M (acc G S) anyhow unit :=
  map_err GasE (on_meter (charge_gas (gas_to_charge_hash_update gas_constants))) ;;;
  let! amount :=
    ok_or (GasArray.checked_scalar_product u64_max (gas_to_charge_per_byte_hash_update gas_constants) bytes_to_hash)
      HashGasOverflow in
  map_err GasE (on_meter (charge_gas amount)).

Definition keccak256_hash (bz : list N) : M (acc G S) anyhow HexHash :=
  charge_gas_for_hashing (len bz) ;;; ret (keccak bz).

Definition keccak256_concat (a b : HexHash) : M (acc G S) anyhow HexHash :=
  charge_gas_for_hashing (len a + len b) ;;; ret (keccak (a ++ b)).

(** [Message::id] *)
Definition message_id (m : Message) : M (acc G S) anyhow HexHash := keccak256_hash (message_encode m).

Inductive HashKind : Type := HyperlaneAnnouncement | HyperlaneKind.

Definition kind_bytes (k : HashKind) : list N :=
  match k with
  | HyperlaneAnnouncement => Bank.string_bytes "HYPERLANE_ANNOUNCEMENT"
  | HyperlaneKind => Bank.string_bytes "HYPERLANE"
  end.

(** [DomainHash::new] *)
Definition domain_hash_new (domain : N) (mailbox_addr : list N) (kind : HashKind) : M (acc G S) anyhow HexHash :=
  let domain := to_be_bytes 4 domain in
  let kind := kind_bytes kind in
  charge_gas_for_hashing (len domain + len mailbox_addr + len kind) ;;;
  ret (keccak (domain ++ mailbox_addr ++ kind)).

(** [MultisigHash::new] *)
Definition multisig_hash_new (domain_hash merkle_root : HexHash) (index : N) (message_id : HexHash)
  : M (acc G S) anyhow HexHash :=
  let index := to_be_bytes 4 index in
  charge_gas_for_hashing (len domain_hash + len merkle_root + len index + len message_id) ;;;
  ret (keccak (domain_hash ++ merkle_root ++ index ++ message_id)).

(** [ETH_SIGNED_MESSAGE_PREFIX], after its first byte: the tail is text and a
    line feed. *)
Definition ETH_SIGNED_MESSAGE_PREFIX : list N := 25 :: Bank.string_bytes "Ethereum Signed Message:" ++ [10].

(** [value.len().to_string()] of a 32-byte value. *)
Definition hash_len_string : list N := Bank.string_bytes "32".

(** [EthSignHash::new], whose argument is always a 32-byte hash. *)
Definition eth_sign_hash_new (value : HexHash) : M (acc G S) anyhow HexHash :=
  charge_gas_for_hashing (len ETH_SIGNED_MESSAGE_PREFIX + len hash_len_string + len value) ;;;
  ret (keccak (ETH_SIGNED_MESSAGE_PREFIX ++ hash_len_string ++ value)).

(** [AnnouncementHash::new] *)
Definition announcement_hash_new (domain_hash : HexHash) (location : list N) : M (acc G S) anyhow HexHash :=
  charge_gas_for_hashing (len domain_hash + len location) ;;;
  ret (keccak (domain_hash ++ location)).

Definition compute_hash_for_signatures (message : Message) (origin_merkle_tree merkle_root : HexHash)
    (merkle_index : N) : M (acc G S) anyhow HexHash :=
  let! domain_hash := domain_hash_new (origin_domain message) origin_merkle_tree HyperlaneKind in
  let! id := message_id message in
  let! multisig_hash := multisig_hash_new domain_hash merkle_root merkle_index id in
  eth_sign_hash_new multisig_hash.

Record RecoverableSignature : Type := mkRecoverable { signature : Signature; recovery_id : N }.

Definition decode_signature (bz : list N) : RecoverableSignature + anyhow :=
  if len bz =? 65 then
    let recovery_id := default 0 (bz !! 64%nat) in
    let recovery_id := if (recovery_id =? 27) || (recovery_id =? 28) then recovery_id - 27 else recovery_id in
    if 1 <? recovery_id then inr (InvalidRecoveryId recovery_id)
    else match signature_from_bytes (take 64 bz) with
         | Some s => inl (mkRecoverable s recovery_id)
         | None => inr InvalidSignatureBytes
         end
  else inr BadSignatureLength.

(** [ec_recover] with the conversion into [EcdsaPubKeyBytes]. *)
Definition ec_recover (digest : HexHash) (s : RecoverableSignature) : M (acc G S) anyhow (list N) :=
  map_err GasE (on_meter (charge_gas fixed_gas_to_charge_per_signature_verification)) ;;;
  let! encoded := ok_or (recover_from_prehash digest (signature s) (recovery_id s)) RecoveryFailed in
  assert (len (tail encoded) =? 64) ;;;
  ret (tail encoded).

Definition eth_address_from_public_key (pub_key : list N) : M (acc G S) anyhow EthAddress :=
  let! hash := keccak256_hash pub_key in
  ret (drop 12 hash).
End Crypto.
Arguments RecoverableSignature {Sp HS}.

(** ** Interchain security modules, ism.rs *)

Definition ADDRESS_SIZE : N := 32.
Definition MERKLE_ROOT_SIZE : N := 32.
Definition MERKLE_INDEX_SIZE : N := 4.
Definition SIGNATURE_SIZE : N := 65.
Definition MERKLE_INDEX_OFFSET : N := ADDRESS_SIZE + MERKLE_ROOT_SIZE.
Definition SIGNATURES_OFFSET : N := MERKLE_INDEX_OFFSET + MERKLE_INDEX_SIZE.

Inductive Ism : Type :=
| AlwaysTrust
| TrustedRelayer (relayer : HexHash)
| MessageIdMultisig (validators : list EthAddress) (threshold : N).

#[export] Instance Ism_eq_dec : EqDecision Ism.
Proof. solve_decision. Defined.

Inductive IsmKind : Type :=
| IsmUnused | IsmRouting | IsmAggregation | IsmLegacyMultisig | IsmMerkleRootMultisig
| IsmMessageIdMultisig | IsmNull | IsmCcipRead.

Definition ism_kind (i : Ism) : IsmKind :=
  match i with
  | AlwaysTrust | TrustedRelayer _ => IsmNull
  | MessageIdMultisig _ _ => IsmMessageIdMultisig
  end.

(** A [usize] has 64 bits. *)
Definition expected_len_check_overflow_u32 (num_signatures : N) : option N :=
  let? total_sig_size := checked_mul u64_max num_signatures SIGNATURE_SIZE in
  let? n := checked_add u64_max ADDRESS_SIZE MERKLE_ROOT_SIZE in
  let? n := checked_add u64_max n MERKLE_INDEX_SIZE in
  let? expected_len := checked_add u64_max n total_sig_size in
  if expected_len <=? u32_max then Some expected_len else None.

(** [chunks_exact(k)]: a shorter rest is dropped. *)
Fixpoint chunks_exact {A} (fuel k : nat) (l : list A) : list (list A) :=
  match fuel with
  | O => []
  | S fuel => if (length l <? k)%nat then [] else take k l :: chunks_exact fuel k (drop k l)
  end.

Section Ism.
Context {Sp : Spec} {HS : HyperlaneSpec}.

Record MessageIdMultisigIsmMetadata : Type := mkMetadata {
  origin_merkle_tree : HexHash;
  merkle_root : HexHash;
  merkle_index : N;
  signatures : list RecoverableSignature
}.

(** [map(decode_signature).collect::<Result<Vec<_>>>()]: the first error. *)
Fixpoint decode_signatures (l : list (list N)) : list RecoverableSignature + anyhow :=
  match l with
  | [] => inl []
  | bz :: l =>
      match decode_signature bz with
      | inr e => inr e
      | inl s => match decode_signatures l with inl ss => inl (s :: ss) | inr e => inr e end
      end
  end.

(** [MessageIdMultisigIsmMetadata::decode]; the [assert_eq!] panics. *)
Definition metadata_decode (metadata : list N) (num_signatures : N)
  : outcome anyhow MessageIdMultisigIsmMetadata :=
  match expected_len_check_overflow_u32 num_signatures with
  | None => Err MetadataLengthOverflow
  | Some expected_len =>
      if len metadata =? expected_len then
        match decode_signatures (chunks_exact (length metadata) (N.to_nat SIGNATURE_SIZE)
                (drop (N.to_nat SIGNATURES_OFFSET) metadata)) with
        | inr e => Err e
        | inl signatures =>
            if len signatures =? num_signatures then
              Ok (mkMetadata (slice 0 (N.to_nat ADDRESS_SIZE) metadata)
                    (slice (N.to_nat ADDRESS_SIZE) (N.to_nat MERKLE_INDEX_OFFSET) metadata)
                    (from_be_bytes (slice (N.to_nat MERKLE_INDEX_OFFSET) (N.to_nat SIGNATURES_OFFSET) metadata))
                    signatures)
            else Panic
        end
      else Err (InvalidMetadataLength expected_len (len metadata))
  end.

Context {G : Type} `{GasMeter G} {S : Type}.

(** An outcome computed without the state. *)
Definition from_outcome {E A} (o : outcome E A) : M (acc G S) E A := fun a => (o, a).

(** The loop of [verify] over the signatures, with the validators not seen yet. *)
Fixpoint verify_signatures (original_validators : list EthAddress) (hash : HexHash)
    (signatures : list RecoverableSignature) (validators : gset EthAddress) : M (acc G S) anyhow unit :=
  match signatures with
  | [] => ret tt
  | s :: signatures =>
      let! pubkey_bytes := ec_recover hash s in
      let! addr := eth_address_from_public_key pubkey_bytes in
      if bool_decide (addr ∈ validators) then
        verify_signatures original_validators hash signatures (validators ∖ {[ addr ]})
      else if bool_decide (addr ∈ original_validators) then throw (SignedTwice addr)
      else throw (NotAValidator addr)
  end.

Definition ism_verify (self : Ism) (context : Context Sp) (message : Message) (metadata : HexString)
  : M (acc G S) anyhow unit :=
  match self with
  | AlwaysTrust => ret tt
  | TrustedRelayer relayer => ensure (bool_decide (to_sender (sender context) = relayer)) UntrustedRelayer
  | MessageIdMultisig original_validators threshold =>
      let! metadata := from_outcome (metadata_decode metadata threshold) in
      let! hash :=
        compute_hash_for_signatures message (origin_merkle_tree metadata) (merkle_root metadata)
          (merkle_index metadata) in
      verify_signatures original_validators hash (signatures metadata) (list_to_set original_validators)
  end.
End Ism.

(** ** [HyperlaneAddress] for byte addresses, lib.rs *)

(** [sov_modules_api::Address] has 28 bytes, [EthereumAddress] 20. *)
Definition padded_to_sender (addr : list N) : HexHash := repeat 0 (32 - length addr) ++ addr.

Definition padded_from_sender (LENGTH : nat) (h : HexHash) : option (list N) :=
  if forallb (fun b => b =? 0) (take (32 - LENGTH) h) then Some (drop (32 - LENGTH) h) else None.
