(* ===== verification/HyperlaneProperties.v ===== *)
(** * The Hyperlane bridge: encodings and the multisig security module

    - the byte encodings of integers and messages are inverse to their
      decodings, so that the id of a message, the hash of its encoding, is also
      the hash of the bytes it was received as;
    - [Ism::verify] for a multisig accepts exactly the messages that enough
      distinct validators signed. *)

From Stdlib Require Import NArith Lia.
From stdpp Require Import base numbers gmap strings option list.
From S2P Require Import Prelude Ints Gas StateAccess Bank Hyperlane.

Module ByteFacts.

Definition from_le_bytes (l : list N) : N := foldr (fun b acc => acc * 256 + b) 0 l.

Lemma from_be_rev l : from_be_bytes (rev l) = from_le_bytes l.
Proof.
  unfold from_be_bytes, from_le_bytes. rewrite <- (rev_involutive l) at 2.
  symmetry. apply (fold_left_rev_right (fun b acc => acc * 256 + b)).
Qed.

Lemma from_to_le n x : x < 256 ^ N.of_nat n -> from_le_bytes (to_le_bytes n x) = x.
Proof.
  revert x. induction n as [|n IH]; intros x Hx; [cbn in *; lia|].
  rewrite Nat2N.inj_succ, N.pow_succ_r' in Hx. cbn [to_le_bytes from_le_bytes foldr].
  fold (from_le_bytes (to_le_bytes n (x / 256))). rewrite IH by (apply N.Div0.div_lt_upper_bound; lia).
  rewrite N.mul_comm. symmetry. apply N.div_mod'.
Qed.

Lemma to_from_le l : bytes l -> to_le_bytes (length l) (from_le_bytes l) = l.
Proof.
  induction 1 as [|b l Hb Hl IH]; [done|]. cbn [length to_le_bytes from_le_bytes foldr].
  fold (from_le_bytes l). unfold byte in Hb.
  rewrite N.add_comm, N.Div0.mod_add, N.mod_small by done.
  rewrite N.div_add, N.div_small, N.add_0_l by (done || lia). by rewrite IH.
Qed.

Lemma from_to_be n x : x < 256 ^ N.of_nat n -> from_be_bytes (to_be_bytes n x) = x.
Proof. intros. unfold to_be_bytes. rewrite from_be_rev. by apply from_to_le. Qed.

Lemma to_from_be n l : length l = n -> bytes l -> to_be_bytes n (from_be_bytes l) = l.
Proof.
  intros <- Hl. unfold to_be_bytes. rewrite <- (rev_involutive l) at 2. rewrite from_be_rev.
  rewrite <- length_rev, to_from_le; [apply rev_involutive|]. by apply Forall_rev.
Qed.

Lemma to_be_length n x : length (to_be_bytes n x) = n.
Proof. unfold to_be_bytes. by rewrite length_rev, to_le_bytes_length. Qed.

Lemma to_le_bytes_bytes n x : bytes (to_le_bytes n x).
Proof.
  revert x. induction n as [|n IH]; intros x; cbn; constructor; [|apply IH].
  unfold byte. apply N.mod_lt. lia.
Qed.

Lemma to_be_bytes_bytes n x : bytes (to_be_bytes n x).
Proof. apply Forall_rev, to_le_bytes_bytes. Qed.

Lemma from_le_bound l : bytes l -> from_le_bytes l < 256 ^ N.of_nat (length l).
Proof.
  induction 1 as [|b l Hb Hl IH]; [cbn; lia|]. cbn [length from_le_bytes foldr]. fold (from_le_bytes l).
  unfold byte in Hb. rewrite Nat2N.inj_succ, N.pow_succ_r'. lia.
Qed.

Lemma from_be_bound n l : bytes l -> length l = n -> from_be_bytes l < 256 ^ N.of_nat n.
Proof.
  intros Hl <-. rewrite <- (rev_involutive l) at 1. rewrite from_be_rev, <- length_rev.
  by apply from_le_bound, Forall_rev.
Qed.

(** *** Slices *)

Lemma slice_length {A} a b (l : list A) : (a <= b <= length l)%nat -> length (slice a b l) = (b - a)%nat.
Proof. intros. unfold slice. rewrite length_take, length_drop. lia. Qed.

Lemma bytes_slice a b l : bytes l -> bytes (slice a b l).
Proof. intros. by apply Forall_take, Forall_drop. Qed.

(** A slice of a concatenation, by the length of its first part. *)
Lemma slice_here {A} (x y : list A) b : length x = b -> slice 0 b (x ++ y) = x.
Proof. intros <-. unfold slice. rewrite drop_0, Nat.sub_0_r. apply take_app_length. Qed.

Lemma slice_skip {A} (x y : list A) a b :
  (length x <= a)%nat -> slice a b (x ++ y) = slice (a - length x) (b - length x) y.
Proof.
  intros Ha. unfold slice. rewrite drop_app_ge by done. f_equal. lia.
Qed.

(** Consecutive slices put together. *)
Lemma slice_of_app {A} a b c (l : list A) : (a <= b <= c)%nat -> slice a b l ++ slice b c l = slice a c l.
Proof.
  intros Hb. unfold slice. replace (c - a)%nat with ((b - a) + (c - b))%nat by lia.
  rewrite <- (take_drop (b - a) (drop a l)) at 2. rewrite drop_drop.
  replace (a + (b - a))%nat with b by lia.
  destruct (decide (b - a <= length (drop a l))%nat) as [Hle|Hle].
  - rewrite take_app_ge by (rewrite length_take; lia). f_equal. rewrite length_take.
    f_equal. lia.
  - rewrite length_drop in Hle. rewrite (drop_ge l b), take_nil, !app_nil_r by lia.
    rewrite take_take. f_equal. lia.
Qed.

Lemma slice_rest {A} b (l : list A) : slice 0 b l ++ drop b l = l.
Proof. unfold slice. rewrite drop_0, Nat.sub_0_r. apply take_drop. Qed.

(** *** Addresses in 32 bytes *)

Lemma padded_roundtrip n (addr : list N) :
  length addr = n -> (n <= 32)%nat ->
  length (padded_to_sender addr) = 32%nat /\ padded_from_sender n (padded_to_sender addr) = Some addr.
Proof.
  intros Hl Hn. unfold padded_to_sender, padded_from_sender. rewrite Hl. split.
  - rewrite length_app, repeat_length. lia.
  - rewrite take_app_le, drop_app_ge by (rewrite repeat_length; lia).
    rewrite repeat_length, Nat.sub_diag, drop_0, firstn_all2 by (rewrite repeat_length; lia).
    rewrite (proj2 (forallb_forall _ _)); [done|]. intros x Hx%repeat_spec. by subst.
Qed.

Lemma padded_injective n (h addr : list N) :
  length h = 32%nat -> (n <= 32)%nat -> padded_from_sender n h = Some addr -> padded_to_sender addr = h.
Proof.
  intros Hh Hn. unfold padded_from_sender, padded_to_sender. destruct (forallb _ _) eqn:Hz; [|done]. intros [= <-].
  rewrite length_drop, Hh. replace (32 - (32 - (32 - n)))%nat with (32 - n)%nat by lia.
  rewrite <- (take_drop (32 - n) h) at 2. f_equal. rewrite forallb_forall in Hz.
  apply list_eq_same_length with (n := (32 - n)%nat); [rewrite length_take; lia|by rewrite repeat_length|].
  intros i x y Hi Hx Hy. apply list_elem_of_lookup_2, list_elem_of_In, repeat_spec in Hx.
  apply list_elem_of_lookup_2, list_elem_of_In, Hz, N.eqb_eq in Hy. congruence.
Qed.
End ByteFacts.

(** ** Messages *)
Module MessageFacts.
Import ByteFacts.

Lemma u8_pow : u8_max < 256 ^ N.of_nat 1. Proof. done. Qed.
Lemma u32_pow x : x <= u32_max <-> x < 256 ^ N.of_nat 4.
Proof. change (256 ^ N.of_nat 4) with (u32_max + 1). lia. Qed.

Ltac skip_slices :=
  repeat (rewrite slice_skip by (rewrite ?to_be_length; lia); rewrite ?to_be_length;
          repeat match goal with H : length _ = 32%nat |- _ => rewrite H end; cbn [Nat.sub]).

Lemma slice_is {A} a b (l x : list A) : slice a b l = x -> slice a b l = x.
Proof. done. Qed.

Section Roundtrip.
Context {Sp : Spec}.

Lemma decode_encode m : message_wf m -> message_decode (message_encode m) = inl m.
Proof.
  destruct m as [v n o s d r b]. unfold message_wf.
  cbn [version nonce origin_domain msg_sender dest_domain recipient body].
  intros (Hv & Hn & Ho & Hd & Hs & _ & Hr & _ & _).
  unfold message_decode, message_encode. cbn [version nonce origin_domain msg_sender dest_domain recipient body].
  rewrite (proj2 (N.leb_le _ _)).
  - assert (drop 77 (to_be_bytes 1 v ++ to_be_bytes 4 n ++ to_be_bytes 4 o ++ s ++ to_be_bytes 4 d ++ r ++ b) = b) as ->.
    { rewrite !app_assoc. apply drop_app_length'. rewrite !length_app, !to_be_length. lia. }
    do 2 f_equal; (erewrite slice_is; [|skip_slices; apply slice_here; rewrite ?to_be_length; done]).
    + apply from_to_be. pose proof u8_pow. lia.
    + by apply from_to_be, u32_pow.
    + by apply from_to_be, u32_pow.
    + done.
    + by apply from_to_be, u32_pow.
    + done.
  - unfold len. rewrite !length_app, !to_be_length. lia.
Qed.

Lemma encode_decode l m : bytes l -> message_decode l = inl m -> message_wf m /\ message_encode m = l.
Proof.
  intros Hl. unfold message_decode, len. destruct (N.leb_spec 77 (N.of_nat (length l))) as [Hn|]; [|done].
  intros [= <-]. assert (forall a b, (a <= b <= 77)%nat -> length (slice a b l) = (b - a)%nat) as Hlen
    by (intros; apply slice_length; lia).
  assert (forall a b, bytes (slice a b l)) as Hb by (intros; by apply bytes_slice).
  split.
  - unfold message_wf. cbn [version nonce origin_domain msg_sender dest_domain recipient body]. split_and!; try (apply Hlen; lia); try apply Hb.
    + apply N.lt_succ_r. apply (from_be_bound 1); [apply Hb|rewrite Hlen; lia].
    + apply u32_pow, (from_be_bound 4); [apply Hb|rewrite Hlen; lia].
    + apply u32_pow, (from_be_bound 4); [apply Hb|rewrite Hlen; lia].
    + apply u32_pow, (from_be_bound 4); [apply Hb|rewrite Hlen; lia].
    + by apply Forall_drop.
  - unfold message_encode. cbn [version nonce origin_domain msg_sender dest_domain recipient body].
    rewrite !to_from_be by (done || (rewrite Hlen; lia)).
    rewrite !app_assoc, !slice_of_app by lia. apply slice_rest.
Qed.
End Roundtrip.
End MessageFacts.

Module MessageProperties.
Import MessageFacts.
Section Claims.
Context {Sp : Spec}.

(** C36: the encoding of messages is a bijection. A message whose fields have
    the widths of their types is decoded back from its encoding, and a byte
    string that decodes at all (77 bytes or more) is the encoding of the message
    it decodes to. Hence the id under which [process] records a delivery, a hash
    of the bytes it received, is the hash of the message: no second byte string
    stands for the same message, and none is refused for its form but the ones
    that are too short. *)
Theorem message_roundtrip (m : Message) (l : list N) (Hm : message_wf m) (Hl : bytes l) :
  message_decode (message_encode m) = inl m /\
  (forall m', message_decode l = inl m' -> message_wf m' /\ message_encode m' = l) /\
  (message_decode l = inr MessageTooShort <-> len l < 77).
Proof.
  split; [by apply decode_encode|]. split; [intros m'; by apply encode_decode|].
  unfold message_decode. destruct (N.leb_spec 77 (len l)); split; intros; (done || lia).
Qed.
End Claims.

Definition demo_message : Message := mkMessage 3 8528 44787 (repeat 1 32) 5555 (repeat 2 32) [72; 101].

Lemma message_roundtrip_witness :
  message_decode (Sp := test_spec) (message_encode demo_message) = inl demo_message /\
  length (message_encode demo_message) = 79%nat.
Proof.
  split; [|done].
  apply (message_roundtrip (Sp := test_spec) demo_message []); [|constructor].
  unfold message_wf, u8_max, u32_max, bytes, byte. cbn.
  split_and!; try done; repeat constructor.
Defined.
End MessageProperties.

(** ** The rules of hashing and signatures *)
Module CryptoFacts.
Section Rules.
Context {Sp : Spec} {HS : HyperlaneSpec} {G : Type} `{GasMeterLaws G} {S : Type}.
Implicit Types s : S.

(** How hashing may fail: the meter refuses, or the price of the bytes is not a
    gas amount. *)
Definition hash_error (e : anyhow) : Prop := can_fail (G := G) \/ e = HashGasOverflow.

Lemma wp_charge_hashing n (Q : outcome anyhow unit -> S -> Prop) s :
  (forall e, hash_error e -> Q (Err e) s) -> Q (Ok tt) s -> wp (charge_gas_for_hashing n) Q s.
Proof.
  intros He Hok. unfold charge_gas_for_hashing, hash_error in *. repeat wp_core; auto.
Qed.

Lemma wp_keccak256_hash bz (Q : outcome anyhow HexHash -> S -> Prop) s :
  (forall e, hash_error e -> Q (Err e) s) -> Q (Ok (keccak bz)) s -> wp (keccak256_hash bz) Q s.
Proof. intros He Hok. apply wp_bind, wp_charge_hashing; wp_red; [done|]. by wp_core. Qed.

Lemma wp_keccak256_concat a b (Q : outcome anyhow HexHash -> S -> Prop) s :
  (forall e, hash_error e -> Q (Err e) s) -> Q (Ok (keccak (a ++ b))) s -> wp (keccak256_concat a b) Q s.
Proof. intros He Hok. apply wp_bind, wp_charge_hashing; wp_red; [done|]. by wp_core. Qed.

(** The hashes without their charges. *)
Definition domain_digest (domain : N) (mailbox : HexHash) (kind : HashKind) : HexHash :=
  keccak (to_be_bytes 4 domain ++ mailbox ++ kind_bytes kind).

Definition eth_sign_digest (value : HexHash) : HexHash :=
  keccak (ETH_SIGNED_MESSAGE_PREFIX ++ hash_len_string ++ value).

Definition signing_digest (message : Message) (tree root : HexHash) (index : N) : HexHash :=
  eth_sign_digest (keccak (domain_digest (origin_domain message) tree HyperlaneKind ++ root ++
    to_be_bytes 4 index ++ keccak (message_encode message))).

Lemma wp_compute_hash message tree root index (Q : outcome anyhow HexHash -> S -> Prop) s :
  (forall e, hash_error e -> Q (Err e) s) -> Q (Ok (signing_digest message tree root index)) s ->
  wp (compute_hash_for_signatures message tree root index) Q s.
Proof.
  intros He Hok. unfold compute_hash_for_signatures, domain_hash_new, multisig_hash_new, eth_sign_hash_new, message_id.
  wp_core. apply wp_bind, wp_charge_hashing; wp_red; [done|]. wp_core.
  apply wp_bind, wp_keccak256_hash; wp_red; [done|].
  wp_core. apply wp_bind, wp_charge_hashing; wp_red; [done|]. wp_core.
  apply wp_bind, wp_charge_hashing; wp_red; [done|]. by wp_core.
Qed.

(** The address a signature recovers to. *)
Definition eth_address_of (pub_key : list N) : EthAddress := drop 12 (keccak pub_key).

Definition signer (hash : HexHash) (sig : RecoverableSignature) : option EthAddress :=
  eth_address_of ∘ tail <$> recover_from_prehash hash (signature sig) (recovery_id sig).

Lemma wp_recover_address hash sig {A} (k : EthAddress -> M (acc G S) anyhow A) (Q : outcome anyhow A -> S -> Prop) s :
  (forall e, hash_error e -> Q (Err e) s) ->
  (signer hash sig = None -> Q (Err RecoveryFailed) s) ->
  (forall addr, signer hash sig = Some addr -> wp (k addr) Q s) ->
  wp (let! pubkey_bytes := ec_recover hash sig in
      let! addr := eth_address_from_public_key pubkey_bytes in k addr) Q s.
Proof.
  unfold signer. intros He Hn Hok. unfold ec_recover, eth_address_from_public_key.
  wp_core. wp_core. wp_core. wp_core; [apply He; by left|].
  wp_core. wp_core; [|apply Hn; by match goal with Hr : recover_from_prehash _ _ _ = _ |- _ => rewrite Hr end].
  rename a into key. match goal with Hr : recover_from_prehash _ _ _ = _ |- _ => rename Hr into Hkey end.
  wp_core. wp_core.
  - wp_core. wp_core. apply wp_bind, wp_keccak256_hash; wp_red; [done|]. wp_core.
    apply Hok. by rewrite Hkey.
  - exfalso. apply recover_length in Hkey. destruct key; [done|].
    match goal with Hl : _ = false |- _ => apply N.eqb_neq in Hl; apply Hl end.
    unfold len. cbn in *. lia.
Qed.
End Rules.
End CryptoFacts.

(** ** The multisig security module *)
Module IsmFacts.
Import CryptoFacts.

Lemma chunks_length {A} k (l : list A) n fuel :
  (0 < k)%nat -> length l = (n * k)%nat -> (length l <= fuel)%nat -> length (chunks_exact fuel k l) = n.
Proof.
  intros Hk. revert l fuel. induction n as [|n IH]; intros l fuel Hl Hf.
  - destruct l; [|done]. destruct fuel; [done|]. cbn. by destruct k; [lia|].
  - destruct fuel as [|fuel]; [lia|]. cbn [chunks_exact].
    destruct (Nat.ltb_spec (length l) k); [lia|]. cbn. f_equal. apply IH; rewrite length_drop; lia.
Qed.

Section Decode.
Context {Sp : Spec} {HS : HyperlaneSpec}.

Lemma decode_signatures_length l ss : decode_signatures l = inl ss -> length ss = length l.
Proof.
  revert ss. induction l as [|bz l IH]; intros ss; cbn; [by intros [= <-]|].
  destruct (decode_signature bz); [|done]. destruct (decode_signatures l) as [ss'|]; [|done].
  intros [= <-]. cbn. by rewrite (IH ss').
Qed.

Lemma expected_len_Some n k : expected_len_check_overflow_u32 n = Some k -> k = 68 + n * 65.
Proof.
  unfold expected_len_check_overflow_u32. repeat case_match; intros; simplify_eq; checked_simpl.
  unfold ADDRESS_SIZE, MERKLE_ROOT_SIZE, MERKLE_INDEX_SIZE, SIGNATURE_SIZE in *. lia.
Qed.

(** The number of signatures is always the threshold: the assertion holds. *)
Lemma metadata_decode_cases md n :
  match metadata_decode md n with
  | Ok m => len (signatures m) = n
  | Err _ => True
  | Panic => False
  end.
Proof.
  unfold metadata_decode. destruct (expected_len_check_overflow_u32 n) as [k|] eqn:Hk; [|done].
  apply expected_len_Some in Hk. destruct (N.eqb_spec (len md) k) as [Hl|]; [|done].
  destruct (decode_signatures _) as [ss|] eqn:Hs; [|done]. apply decode_signatures_length in Hs.
  rewrite (chunks_length _ _ (N.to_nat n)) in Hs.
  - destruct (N.eqb_spec (len ss) n) as [Hn|Hn]; [done|]. unfold len in Hn. lia.
  - unfold SIGNATURE_SIZE. lia.
  - rewrite length_drop. change (N.to_nat SIGNATURES_OFFSET) with 68%nat. change (N.to_nat SIGNATURE_SIZE) with 65%nat.
    unfold len in Hl. lia.
  - rewrite length_drop. lia.
Qed.
End Decode.

Section Verify.
Context {Sp : Spec} {HS : HyperlaneSpec}.

(** Every signature is by a different one of the validators. *)
Definition accepted (hash : HexHash) (sigs : list RecoverableSignature) (vs : gset EthAddress) : Prop :=
  exists addrs, mapM (signer hash) sigs = Some addrs /\ NoDup addrs /\ forall a, a ∈ addrs -> a ∈ vs.

Lemma accepted_cons hash sig sigs vs :
  accepted hash (sig :: sigs) vs <->
  exists addr, signer hash sig = Some addr /\ addr ∈ vs /\ accepted hash sigs (vs ∖ {[ addr ]}).
Proof.
  unfold accepted. cbn. split.
  - intros (addrs & Hm & Hnd & Hin). destruct (signer hash sig) as [addr|]; [|done]. cbn in Hm.
    destruct (mapM (signer hash) sigs) as [rest|]; [|done]. cbn in Hm. injection Hm as <-.
    inversion_clear Hnd as [|? ? Hni Hnd']. exists addr. split_and!; [done|set_solver|].
    exists rest. split_and!; [done|done|]. set_solver.
  - intros (addr & -> & Hv & rest & Hm & Hnd & Hin). cbn. rewrite Hm. exists (addr :: rest). cbn.
    split_and!; [done|constructor; [set_solver|done]|set_solver].
Qed.

(** At most as many as there are validators. *)
Lemma accepted_bound hash sigs vs : accepted hash sigs vs -> (length sigs <= size vs)%nat.
Proof.
  intros (addrs & Hm & Hnd & Hin). apply length_mapM in Hm. rewrite Hm, <- (size_list_to_set (C := gset EthAddress)) by done.
  apply subseteq_size. intros a Ha. apply Hin. by apply elem_of_list_to_set in Ha.
Qed.

Context {G : Type} `{GasMeterLaws G} {S : Type}.

Lemma wp_verify_signatures orig hash : forall sigs vs (Q : outcome anyhow unit -> S -> Prop) s,
  (forall e, hash_error (G := G) e \/ ~ accepted hash sigs vs -> Q (Err e) s) ->
  (accepted hash sigs vs -> Q (Ok tt) s) ->
  wp (verify_signatures orig hash sigs vs) Q s.
Proof.
  induction sigs as [|sig sigs IH]; intros vs Q s He Hok; cbn [verify_signatures].
  - wp_core. apply Hok. exists []. split_and!; [done|constructor|]. intros a Ha. by apply elem_of_nil in Ha.
  - apply wp_recover_address; [by auto|..].
    + intros Hn. apply He. right. rewrite accepted_cons. rewrite Hn. by intros (? & ? & _).
    + intros addr Ha. case_bool_decide as Hv.
      * apply IH.
        -- intros e [Hh|Hna]; apply He; [by left|right]. rewrite accepted_cons. intros (a' & ? & ? & ?). by simplify_eq.
        -- intros Hacc. apply Hok. apply accepted_cons. eauto.
      * assert (~ accepted hash (sig :: sigs) vs).
        { rewrite accepted_cons. intros (a' & ? & ? & ?). by simplify_eq. }
        case_bool_decide; wp_core; auto.
Qed.

(** A quorum of the validators signed the message: the metadata holds exactly
    [threshold] signatures of the checkpoint it names, by different validators. *)
Definition quorum (validators : list EthAddress) (threshold : N) (message : Message) (metadata : HexString) : Prop :=
  exists md, metadata_decode metadata threshold = Ok md /\ len (signatures md) = threshold /\
    accepted (signing_digest message (origin_merkle_tree md) (merkle_root md) (merkle_index md))
      (signatures md) (list_to_set validators).

Lemma wp_multisig validators threshold context message metadata (Q : outcome anyhow unit -> S -> Prop) s :
  (forall e, hash_error (G := G) e \/ ~ quorum validators threshold message metadata -> Q (Err e) s) ->
  (quorum validators threshold message metadata -> Q (Ok tt) s) ->
  wp (ism_verify (MessageIdMultisig validators threshold) context message metadata) Q s.
Proof.
  intros He Hok. cbn [ism_verify]. wp_core. intros g Hg. unfold from_outcome.
  split; [done|]. pose proof (metadata_decode_cases metadata threshold) as Hmd. unfold quorum in *.
  destruct (metadata_decode metadata threshold) as [md|e|]; cbn; [|apply He; right; by intros (? & ? & _)|done].
  wp_core. apply wp_compute_hash; wp_red; [by auto|].
  apply wp_verify_signatures.
  - intros e [Hh|Hna]; apply He; [by left|right]. intros (md' & Hd & _ & Hacc). by simplify_eq.
  - intros Hacc. apply Hok. eauto.
Qed.
End Verify.
End IsmFacts.

Module IsmProperties.
Import CryptoFacts IsmFacts.
Section Claims.
Context {Sp : Spec} {HS : HyperlaneSpec} {G : Type} `{GasMeterLaws G} {S : Type}.

(** C16: the multisig module accepts a message exactly when a quorum signed it.
    [verify] succeeds only if the metadata carries exactly [threshold] signatures
    over the hash of the message and its checkpoint that recover to pairwise
    different addresses, all of them validators, so that a threshold above the
    number of different validators accepts nothing; the state is not touched.
    Conversely a refusal means that there was no such quorum, unless hashing
    could not be paid for. The assertion on the number of signatures never
    fails. *)
Theorem multisig_quorum (validators : list EthAddress) (threshold : N) context message metadata (a : acc G S) :
  meter_wf (meter a) ->
  match ism_verify (MessageIdMultisig validators threshold) context message metadata a with
  | (Ok _, a') => store a' = store a /\ quorum validators threshold message metadata /\
      threshold <= N.of_nat (size (list_to_set validators : gset EthAddress))
  | (Err e, a') => store a' = store a /\
      (hash_error (G := G) e \/ ~ quorum validators threshold message metadata)
  | (Panic, _) => False
  end.
Proof.
  destruct a as [g s]. intros Hg.
  assert (wp (ism_verify (MessageIdMultisig validators threshold) context message metadata)
    (fun o s' => match o with
       | Ok _ => s' = s /\ quorum validators threshold message metadata
       | Err e => s' = s /\ (hash_error (G := G) e \/ ~ quorum validators threshold message metadata)
       | Panic => False end) s) as Hwp by (apply wp_multisig; auto).
  specialize (Hwp g Hg). destruct (ism_verify _ _ _ _ _) as [[[]|e|] a']; cbn in *; [|tauto..].
  destruct Hwp as (_ & -> & Hq). split_and!; [done|done|].
  destruct Hq as (md & _ & Hn & Hacc). apply accepted_bound in Hacc. unfold len in Hn. lia.
Qed.
End Claims.

(** A toy instance: a signature is the 64 bytes it is read from, and the key it
    recovers to starts with the byte it starts with. *)
Definition pad32 (l : list N) : list N := take 32 (l ++ repeat 0 32).

Lemma pad32_length l : length (pad32 l) = 32%nat.
Proof. unfold pad32. rewrite length_take, length_app, repeat_length. lia. Qed.

Definition demo_from_sender (h : HexHash) : option N :=
  match list.last h with
  | Some a => if decide (h = repeat 0 31 ++ [a]) then Some a else None
  | None => None
  end.

#[global] Instance demo_hyperlane : HyperlaneSpec (Sp := test_spec).
Proof.
  refine (@Build_HyperlaneSpec test_spec (fun l => pad32 (rev l)) (fun l => pad32_length (rev l))
    (list N) Some (fun d s r => Some (4 :: repeat 0 32 ++ default 0 (head s) :: repeat 0 31)) _
    [1; 1] (fun a => repeat 0 31 ++ [a]) demo_from_sender (fun a => [a]) 5555 0).
  intros d s r k [= <-]. done.
Defined.

#[global] Instance demo_hyperlane_address : HyperlaneAddressLaws (Sp := test_spec) demo_hyperlane.
Proof.
  split.
  - intros a. change (demo_from_sender (repeat 0 31 ++ [a]) = Some a). unfold demo_from_sender.
    rewrite last_snoc. by rewrite decide_True.
  - intros h a. change (demo_from_sender h = Some a -> repeat 0 31 ++ [a] = h). unfold demo_from_sender.
    destruct (list.last h) as [b|]; [|done]. case_decide as Hb; [|done]. by intros [= <-].
Qed.

Definition demo_signature (b : N) : list N := b :: repeat 0 64.

Definition demo_metadata (signers : list N) : list N := repeat 9 68 ++ concat (map demo_signature signers).

Definition demo_validator (b : N) : EthAddress := repeat 0 19 ++ [b].

Definition demo_caller : Context test_spec := @mkContext test_spec 8 50 60 None 8 Node NonPreferred.

Lemma multisig_quorum_witness :
  match ism_verify (Sp := test_spec) (G := unit) (MessageIdMultisig [demo_validator 5] 1) demo_caller
    MessageProperties.demo_message (demo_metadata [5]) (Acc tt tt) with
  | (Ok _, a') => store a' = tt /\
      quorum (Sp := test_spec) [demo_validator 5] 1 MessageProperties.demo_message (demo_metadata [5]) /\
      1 <= N.of_nat (size (list_to_set [demo_validator 5] : gset EthAddress))
  | (Err e, a') => False
  | (Panic, _) => False
  end /\
  fst (ism_verify (Sp := test_spec) (G := unit) (MessageIdMultisig [demo_validator 5; demo_validator 6] 2) demo_caller
    MessageProperties.demo_message (demo_metadata [5; 5]) (Acc tt tt)) = Err (SignedTwice (demo_validator 5)).
Proof.
  split; [|by vm_compute].
  pose proof (multisig_quorum (Sp := test_spec) (G := unit) [demo_validator 5] 1 demo_caller
    MessageProperties.demo_message (demo_metadata [5]) (Acc tt tt) I) as Hq.
  assert (fst (ism_verify (Sp := test_spec) (G := unit) (MessageIdMultisig [demo_validator 5] 1) demo_caller
    MessageProperties.demo_message (demo_metadata [5]) (Acc tt tt)) = Ok tt) as Hok by (by vm_compute).
  destruct (ism_verify _ _ _ _ _) as [[[]|e|] a']; [exact Hq|discriminate Hok|discriminate Hok].
Defined.
End IsmProperties.
