(* ===== verification/HyperlaneMerkle.v ===== *)
(** * The incremental Merkle tree of the bridge (hyperlane/src/merkle)

    Every dispatched message id is inserted into a tree of depth 32, of which
    only the count and one hash per level are kept.
    - tree.rs: the table [ZERO_HASHES], [MerkleTree], [insert], [root_with_ctx],
      [root], [branch_root];
    - mod.rs: the hook [post_dispatch].

    The reference is the full binary tree over the leaves, [node].  The theorems:
    the root computed from the stored hashes is the root of the full tree; a leaf
    with its siblings computes the root; and only they do, unless two different
    pairs on the path have the same hash. *)

From Stdlib Require Import NArith Lia.
From stdpp Require Import base numbers gmap strings option list.
From S2P Require Import Prelude Ints Gas StateAccess Bank Keccak Hyperlane HyperlaneProperties.

Definition TREE_DEPTH : nat := 32.
Definition ZERO_BYTES : HexHash := repeat 0 32.
Definition ZERO_HASHES : list HexHash :=
  [ZERO_BYTES;
   [173; 50; 40; 182; 118; 247; 211; 205; 66; 132; 165; 68; 63; 23; 241; 150;
    43; 54; 228; 145; 179; 10; 64; 178; 64; 88; 73; 229; 151; 186; 95; 181];
   [180; 193; 25; 81; 149; 124; 111; 143; 100; 44; 74; 246; 28; 214; 178; 70;
    64; 254; 198; 220; 127; 198; 7; 238; 130; 6; 169; 158; 146; 65; 13; 48];
   [33; 221; 185; 163; 86; 129; 92; 63; 172; 16; 38; 182; 222; 197; 223; 49;
    36; 175; 186; 219; 72; 92; 155; 165; 163; 227; 57; 138; 4; 183; 186; 133];
   [229; 135; 105; 179; 42; 27; 234; 241; 234; 39; 55; 90; 68; 9; 90; 13;
    31; 182; 100; 206; 45; 211; 88; 231; 252; 191; 183; 140; 38; 161; 147; 68];
   [14; 176; 30; 191; 201; 237; 39; 80; 12; 212; 223; 201; 121; 39; 45; 31;
    9; 19; 204; 159; 102; 84; 13; 126; 128; 5; 129; 17; 9; 225; 207; 45];
   [136; 124; 34; 189; 135; 80; 211; 64; 22; 172; 60; 102; 181; 255; 16; 45;
    172; 221; 115; 246; 176; 20; 231; 16; 181; 30; 128; 34; 175; 154; 25; 104];
   [255; 215; 1; 87; 228; 128; 99; 252; 51; 201; 122; 5; 15; 127; 100; 2;
    51; 191; 100; 108; 201; 141; 149; 36; 198; 185; 43; 207; 58; 181; 111; 131];
   [152; 103; 204; 95; 127; 25; 107; 147; 186; 225; 226; 126; 99; 32; 116; 36;
    69; 210; 144; 242; 38; 56; 39; 73; 139; 84; 254; 197; 57; 247; 86; 175];
   [206; 250; 212; 229; 8; 192; 152; 185; 167; 225; 216; 254; 177; 153; 85; 251;
    2; 186; 150; 117; 88; 80; 120; 113; 9; 105; 211; 68; 15; 80; 84; 224];
   [249; 220; 62; 127; 224; 22; 224; 80; 239; 242; 96; 51; 79; 24; 165; 212;
    254; 57; 29; 130; 9; 35; 25; 245; 150; 79; 46; 46; 183; 193; 195; 165];
   [248; 177; 58; 73; 226; 130; 246; 9; 195; 23; 168; 51; 251; 141; 151; 109;
    17; 81; 124; 87; 29; 18; 33; 162; 101; 210; 90; 247; 120; 236; 248; 146];
   [52; 144; 198; 206; 235; 69; 10; 236; 220; 130; 226; 130; 147; 3; 29; 16;
    199; 215; 59; 248; 94; 87; 191; 4; 26; 151; 54; 10; 162; 197; 217; 156];
   [193; 223; 130; 217; 196; 184; 116; 19; 234; 226; 239; 4; 143; 148; 180; 211;
    85; 76; 234; 115; 217; 43; 15; 122; 249; 110; 2; 113; 198; 145; 226; 187];
   [92; 103; 173; 215; 198; 202; 243; 2; 37; 106; 222; 223; 122; 177; 20; 218;
    10; 207; 232; 112; 212; 73; 163; 164; 137; 247; 129; 214; 89; 232; 190; 204];
   [218; 123; 206; 159; 78; 134; 24; 182; 189; 47; 65; 50; 206; 121; 140; 220;
    122; 96; 231; 225; 70; 10; 114; 153; 227; 198; 52; 42; 87; 150; 38; 210];
   [39; 51; 229; 15; 82; 110; 194; 250; 25; 162; 43; 49; 232; 237; 80; 242;
    60; 209; 253; 249; 76; 145; 84; 237; 58; 118; 9; 162; 241; 255; 152; 31];
   [225; 211; 181; 200; 7; 178; 129; 228; 104; 60; 198; 214; 49; 92; 249; 91;
    154; 222; 134; 65; 222; 252; 179; 35; 114; 241; 193; 38; 227; 152; 239; 122];
   [90; 45; 206; 10; 138; 127; 104; 187; 116; 86; 15; 143; 113; 131; 124; 44;
    46; 187; 203; 247; 255; 251; 66; 174; 24; 150; 241; 63; 124; 116; 121; 160];
   [180; 106; 40; 182; 245; 85; 64; 248; 148; 68; 246; 61; 224; 55; 142; 61;
    18; 27; 224; 158; 6; 204; 157; 237; 28; 32; 230; 88; 118; 211; 106; 160];
   [198; 94; 150; 69; 100; 71; 134; 182; 32; 226; 221; 42; 214; 72; 221; 252;
    191; 74; 126; 91; 26; 58; 78; 207; 231; 246; 70; 103; 163; 240; 183; 226];
   [244; 65; 133; 136; 237; 53; 162; 69; 140; 255; 235; 57; 185; 61; 38; 241;
    141; 42; 177; 59; 220; 230; 174; 229; 142; 123; 153; 53; 158; 194; 223; 217];
   [90; 156; 22; 220; 0; 214; 239; 24; 183; 147; 58; 111; 141; 198; 92; 203;
    85; 102; 113; 56; 119; 111; 125; 234; 16; 16; 112; 220; 135; 150; 227; 119];
   [77; 248; 79; 64; 174; 12; 130; 41; 208; 214; 6; 158; 92; 143; 57; 167;
    194; 153; 103; 122; 9; 211; 103; 252; 123; 5; 227; 188; 56; 14; 230; 82];
   [205; 199; 37; 149; 247; 76; 123; 16; 67; 208; 225; 255; 186; 183; 52; 100;
    140; 131; 141; 251; 5; 39; 217; 113; 182; 2; 188; 33; 108; 150; 25; 239];
   [10; 191; 90; 201; 116; 161; 237; 87; 244; 5; 10; 165; 16; 221; 156; 116;
    245; 8; 39; 123; 57; 215; 151; 59; 178; 223; 204; 197; 238; 176; 97; 141];
   [184; 205; 116; 4; 111; 243; 55; 240; 167; 191; 44; 142; 3; 225; 15; 100;
    44; 24; 134; 121; 141; 113; 128; 106; 177; 232; 136; 217; 229; 238; 135; 208];
   [131; 140; 86; 85; 203; 33; 198; 203; 131; 49; 59; 90; 99; 17; 117; 223;
    244; 150; 55; 114; 204; 233; 16; 129; 136; 179; 74; 200; 124; 129; 196; 30];
   [102; 46; 228; 221; 45; 215; 178; 188; 112; 121; 97; 177; 230; 70; 196; 4;
    118; 105; 220; 182; 88; 79; 13; 141; 119; 13; 175; 93; 126; 125; 235; 46];
   [56; 138; 178; 14; 37; 115; 209; 113; 168; 129; 8; 231; 157; 130; 14; 152;
    242; 108; 11; 132; 170; 139; 47; 74; 164; 150; 141; 187; 129; 142; 163; 34];
   [147; 35; 124; 80; 186; 117; 238; 72; 95; 76; 34; 173; 242; 247; 65; 64;
    11; 223; 141; 106; 156; 199; 223; 126; 202; 229; 118; 34; 22; 101; 215; 53];
   [132; 72; 129; 139; 180; 174; 69; 98; 132; 158; 148; 158; 23; 172; 22; 224;
    190; 22; 104; 142; 21; 107; 92; 241; 94; 9; 140; 98; 124; 0; 86; 169]].

Module MerkleTree.
Section MerkleTree.
Context {Sp : Spec} {HS : HyperlaneSpec} {G : Type} `{GasMeter G} {S : Type}.

Record t : Type := mk { branch : list HexHash; count : N }.

(** [Default for MerkleTree] *)
Definition empty : t := mk ZERO_HASHES 0.

(** The loop of [insert] over the levels that are left. *)
Fixpoint insert_loop (branch : list HexHash) (current_node : HexHash) (size : N)
  : M (acc G S) anyhow (list HexHash) :=
  match branch with
  | [] => panic
  | branch_node :: rest =>
      if N.land size 1 =? 1 then ret (current_node :: rest)
      else
        let! current_node := keccak256_concat branch_node current_node in
        let! rest := insert_loop rest current_node (N.shiftr size 1) in
        ret (branch_node :: rest)
  end.

Definition insert (self : t) (node : HexHash) : M (acc G S) anyhow t :=
  let! count := ok_or (checked_add u32_max (count self) 1) TreeFull in
  let! branch := insert_loop (branch self) node count in
  ret (mk branch count).

(** The loop of [root_with_ctx] from level [i]. *)
Fixpoint root_loop (self : t) (zeroes : list HexHash) (i : nat) (current : HexHash)
  : M (acc G S) anyhow HexHash :=
  match zeroes with
  | [] => ret current
  | zero :: zeroes =>
      let ith_bit := N.land (N.shiftr (count self) (N.of_nat i)) 1 in
      let! next := expect_some (branch self !! i) in
      let! current :=
        if ith_bit =? 1 then keccak256_concat next current else keccak256_concat current zero in
      root_loop self zeroes (Datatypes.S i) current
  end.

Definition root_with_ctx (self : t) (zeroes : list HexHash) : M (acc G S) anyhow HexHash :=
  root_loop self zeroes 0 ZERO_BYTES.

Definition root (self : t) : M (acc G S) anyhow HexHash := root_with_ctx self ZERO_HASHES.

(** The loop of [branch_root] from level [i]. *)
Fixpoint branch_root_loop (item : HexHash) (branch : list HexHash) (idx : N) (i : nat)
  : M (acc G S) anyhow HexHash :=
  match branch with
  | [] => ret item
  | next :: branch =>
      let! item :=
        if N.land (N.shiftr idx (N.of_nat i)) 1 =? 1 then keccak256_concat next item
        else keccak256_concat item next in
      branch_root_loop item branch idx (Datatypes.S i)
  end.

Definition branch_root (item : HexHash) (branch : list HexHash) (idx : N) : M (acc G S) anyhow HexHash :=
  branch_root_loop item branch idx 0.
End MerkleTree.
End MerkleTree.

(** ** The hook, mod.rs *)
Module MerkleTreeHook.

Inductive Event : Type := InsertedIntoTree (id : HexHash) (index : N).

Record t : Type := mk { tree : option MerkleTree.t; events : list Event }.

Definition tree_value : StateValue t MerkleTree.t :=
  mkStateValue "merkle_tree_hook.tree" User tree (fun o s => mk o (events s)).

Section Hook.
Context {Sp : Spec} {HS : HyperlaneSpec} {G : Type} `{GasMeter G}.

Definition genesis : M (acc G t) anyhow unit := map_err StateE (value_set tree_value MerkleTree.empty).

Definition post_dispatch (message_id : HexHash) : M (acc G t) anyhow unit :=
  let! tree := map_err StateE (value_get tree_value) in
  let tree := default MerkleTree.empty tree in
  let index := MerkleTree.count tree in
  let! tree := MerkleTree.insert tree message_id in
  map_err StateE (value_set tree_value tree) ;;;
  modify (fun s => mk (MerkleTreeHook.tree s) (events s ++ [InsertedIntoTree message_id index])).

(** [get_checkpoint], api.rs: the root and the index of the last insertion,
    [None] where the API answers that there is none. *)
Definition checkpoint : M (acc G t) anyhow (option (HexHash * N)) :=
  let! tree := map_err StateE (value_get tree_value) in
  match tree with
  | None => ret None
  | Some tree =>
      match checked_sub (MerkleTree.count tree) 1 with
      | None => ret None
      | Some index => let! root := expect (MerkleTree.root tree) in ret (Some (root, index))
      end
  end.
End Hook.
End MerkleTreeHook.

(** ** The full tree *)
Module MerkleFacts.
Import CryptoFacts MerkleTree.
Section Reference.
Context {Sp : Spec} {HS : HyperlaneSpec}.
Implicit Types l : list HexHash.

Definition leaf l (k : N) : HexHash := default ZERO_BYTES (l !! N.to_nat k).

(** The node at height [d] and position [k] of the tree over [l], whose other
    leaves are zero. *)
Fixpoint node l (d : nat) (k : N) : HexHash :=
  match d with
  | O => leaf l k
  | Datatypes.S d => keccak (node l d (2 * k) ++ node l d (2 * k + 1))
  end.

Definition full_root l : HexHash := node l TREE_DEPTH 0.

(** The roots of the trees without leaves. *)
Fixpoint zero_root (d : nat) : HexHash :=
  match d with O => ZERO_BYTES | Datatypes.S d => keccak (zero_root d ++ zero_root d) end.

Definition zeroes_ok : Prop := forall i, (i < TREE_DEPTH)%nat -> ZERO_HASHES !! i = Some (zero_root i).

Definition pow2 (d : nat) : N := 2 ^ N.of_nat d.

Lemma pow2_S d : pow2 (Datatypes.S d) = 2 * pow2 d.
Proof. unfold pow2. by rewrite Nat2N.inj_succ, N.pow_succ_r'. Qed.

Lemma pow2_pos d : 0 < pow2 d.
Proof. unfold pow2. apply N.neq_0_lt_0, N.pow_nonzero. lia. Qed.

Lemma node_zero l d : forall k, len l <= k * pow2 d -> node l d k = zero_root d.
Proof.
  induction d as [|d IH]; intros k Hk; cbn [node zero_root].
  - change (pow2 0) with 1 in Hk. unfold leaf, len in *. rewrite lookup_ge_None_2; [done|]. lia.
  - rewrite pow2_S in Hk. rewrite !IH by lia. done.
Qed.

Lemma node_app l x d : forall k, (k + 1) * pow2 d <= len l -> node (l ++ x) d k = node l d k.
Proof.
  induction d as [|d IH]; intros k Hk; cbn [node].
  - change (pow2 0) with 1 in Hk. unfold leaf, len in *. rewrite lookup_app_l; [done|]. lia.
  - rewrite pow2_S in Hk. rewrite !IH by lia. done.
Qed.

Lemma node_snoc l x : node (l ++ [x]) 0 (len l) = x.
Proof. cbn. unfold leaf, len. rewrite Nat2N.id. by rewrite list_lookup_middle. Qed.

(** *** Shifts *)

Lemma shiftr_pow2 n d : N.shiftr n (N.of_nat d) = n / pow2 d.
Proof. apply N.shiftr_div_pow2. Qed.

Lemma shiftr_S n d : N.shiftr n (N.of_nat (Datatypes.S d)) = N.shiftr n (N.of_nat d) / 2.
Proof.
  rewrite Nat2N.inj_succ, <- N.add_1_r, <- N.shiftr_shiftr. apply (N.shiftr_div_pow2 _ 1).
Qed.

Lemma land_1 n : N.land n 1 = n mod 2.
Proof. change 1 with (N.ones 1) at 1. by rewrite N.land_ones. Qed.

Lemma mod_even n : n mod 2 <> 1 -> n mod 2 = 0.
Proof. intros Hn. pose proof (N.mod_lt n 2 ltac:(done)) as Hlt. generalize dependent (n mod 2). intros r ? ?. lia. Qed.

Lemma shiftr_mul n d : N.shiftr n (N.of_nat d) * pow2 d <= n.
Proof. rewrite shiftr_pow2, N.mul_comm. apply N.Div0.mul_div_le. Qed.

Lemma shiftr_below n m d : n + 1 = m * pow2 d -> N.shiftr n (N.of_nat d) = m - 1.
Proof.
  intros Hn. rewrite shiftr_pow2. pose proof (pow2_pos d). symmetry.
  assert (1 <= m) by nia. apply (N.div_unique _ _ _ (pow2 d - 1)); [lia|].
  replace n with (m * pow2 d - 1) by lia. rewrite N.mul_sub_distr_l. nia.
Qed.

(** The bits above the lowest one of [n + 1] are those of [n]. *)
Lemma shiftr_carry n m d j :
  n + 1 = m * pow2 d -> m mod 2 = 1 ->
  N.shiftr n (N.of_nat (d + Datatypes.S j)) = N.shiftr m (N.of_nat (Datatypes.S j)).
Proof.
  intros Hn Hodd. rewrite Nat2N.inj_add, <- N.shiftr_shiftr, (shiftr_below n m d Hn).
  rewrite Nat2N.inj_succ, <- N.add_1_l, <- !N.shiftr_shiftr. f_equal.
  rewrite !N.shiftr_div_pow2. change (2 ^ 1) with 2.
  pose proof (N.div_mod' m 2) as Hm. rewrite Hodd in Hm.
  symmetry. apply (N.div_unique _ _ _ 0); lia.
Qed.
End Reference.

Section Proofs.
Context {Sp : Spec} {HS : HyperlaneSpec} {G : Type} `{GasMeterLaws G} {S : Type}.
Implicit Types (l : list HexHash) (s : S).

(** The stored hash of every level whose bit of the count is set is the last
    complete node of that level. *)
Definition levels l (n : N) (i : nat) (br : list HexHash) : Prop :=
  forall j b, br !! j = Some b -> N.shiftr n (N.of_nat (i + j)) mod 2 = 1 ->
    b = node l (i + j) (N.shiftr n (N.of_nat (i + j)) - 1).

Definition tree_ok l (tr : t) : Prop :=
  count tr = len l /\ len l <= u32_max /\ length (branch tr) = TREE_DEPTH /\ levels l (len l) 0 (branch tr).

Lemma levels_cons l n i b br :
  levels l n i (b :: br) <->
  (N.shiftr n (N.of_nat i) mod 2 = 1 -> b = node l i (N.shiftr n (N.of_nat i) - 1)) /\ levels l n (Datatypes.S i) br.
Proof.
  unfold levels. split.
  - intros Hl. split.
    + intros Hb. specialize (Hl 0%nat b eq_refl). rewrite Nat.add_0_r in Hl. auto.
    + intros j b' Hj. specialize (Hl (Datatypes.S j) b' Hj).
      replace (i + Datatypes.S j)%nat with (Datatypes.S i + j)%nat in Hl by lia. done.
  - intros [Hb Hl] [|j] b' Hj Hbit; cbn in Hj.
    + simplify_eq. rewrite Nat.add_0_r in *. auto.
    + replace (i + Datatypes.S j)%nat with (Datatypes.S i + j)%nat in * by lia. auto.
Qed.

(** The levels above the one that is filled are the same for one leaf more. *)
Lemma levels_carry l x m i br :
  len l + 1 = m * pow2 i -> m mod 2 = 1 ->
  levels l (len l) (Datatypes.S i) br -> levels (l ++ [x]) (m * pow2 i) (Datatypes.S i) br.
Proof.
  intros Hn Hodd Hl j b Hj Hbit.
  assert (N.shiftr (m * pow2 i) (N.of_nat (Datatypes.S i + j)) = N.shiftr m (N.of_nat (Datatypes.S j))) as Heq.
  { replace (Datatypes.S i + j)%nat with (i + Datatypes.S j)%nat by lia.
    rewrite Nat2N.inj_add, <- N.shiftr_shiftr, (shiftr_pow2 _ i), N.div_mul; [done|]. pose proof (pow2_pos i). lia. }
  assert (N.shiftr (len l) (N.of_nat (Datatypes.S i + j)) = N.shiftr m (N.of_nat (Datatypes.S j))) as Heq'.
  { replace (Datatypes.S i + j)%nat with (i + Datatypes.S j)%nat by lia. by apply shiftr_carry. }
  rewrite Heq in *. rewrite (Hl j b Hj); rewrite Heq'; [|done]. rewrite node_app; [done|].
  assert (1 <= N.shiftr m (N.of_nat (Datatypes.S j))).
  { destruct (N.shiftr m (N.of_nat (Datatypes.S j))); [done|lia]. }
  rewrite N.sub_add by done. rewrite <- Heq'. apply shiftr_mul.
Qed.

Lemma insert_loop_spec l x : forall br i m cur s,
  len l + 1 = m * pow2 i -> m < pow2 (length br) ->
  cur = node (l ++ [x]) i (m - 1) -> levels l (len l) i br ->
  wp (insert_loop br cur m) (fun o s' => s' = s /\
    match o with
    | Ok br' => length br' = length br /\ levels (l ++ [x]) (m * pow2 i) i br'
    | Err e => hash_error (G := G) e
    | Panic => False
    end) s.
Proof.
  induction br as [|b br IH]; intros i m cur s Hn Hm Hcur Hl; cbn [insert_loop].
  { assert (m < 1) as Hm1 by exact Hm. assert (m = 0) as -> by lia. lia. }
  assert (m <> 0) as Hm0 by (intros ->; lia).
  apply levels_cons in Hl as [Hb Hl]. rewrite land_1. cbn [length] in Hm. rewrite pow2_S in Hm.
  pose proof (pow2_pos i) as Hp. destruct (N.eqb_spec (m mod 2) 1) as [Hodd|Heven].
  - wp_core. split; [done|]. split; [done|]. apply levels_cons. split; [|by apply levels_carry].
    intros _. rewrite shiftr_pow2, N.div_mul by lia. done.
  - pose proof (mod_even m Heven) as Hmod.
    pose proof (N.div_mod' m 2) as Hdiv. rewrite Hmod, N.add_0_r in Hdiv.
    apply wp_bind, wp_keccak256_concat; wp_red; [by auto|]. wp_core.
    eapply wp_mono; [apply (IH (Datatypes.S i) (N.shiftr m 1))|].
    + rewrite N.shiftr_div_pow2, pow2_S. change (2 ^ 1) with 2. nia.
    + rewrite N.shiftr_div_pow2. change (2 ^ 1) with 2. apply N.Div0.div_lt_upper_bound. lia.
    + rewrite N.shiftr_div_pow2. change (2 ^ 1) with 2. cbn [node]. rewrite (shiftr_below _ _ _ Hn) in Hb.
      rewrite Hb, Hcur.
      * rewrite <- (node_app l [x]) by nia. do 3 f_equal; lia.
      * replace (m - 1) with (1 + (m / 2 - 1) * 2) by lia. by rewrite N.Div0.mod_add.
    + done.
    + intros [br'|e|] s'; cbn; [|done..]. intros (-> & Hlen & Hl'). wp_core. split; [done|].
      split; [cbn; by rewrite Hlen|]. apply levels_cons. split.
      * rewrite shiftr_pow2, N.div_mul by lia. lia.
      * rewrite N.shiftr_div_pow2, pow2_S in Hl'. change (2 ^ 1) with 2 in Hl'.
        by replace (m / 2 * (2 * pow2 i)) with (m * pow2 i) in Hl' by nia.
Qed.

Lemma insert_spec l tr x s :
  tree_ok l tr ->
  wp (insert tr x) (fun o s' => s' = s /\
    match o with
    | Ok tr' => tree_ok (l ++ [x]) tr'
    | Err e => hash_error (G := G) e \/ (e = TreeFull /\ u32_max <= len l)
    | Panic => False
    end) s.
Proof.
  intros (Hc & Hu & Hlen & Hl). unfold insert. wp_core. wp_core.
  - checked_simpl. subst. rewrite Hc in *. wp_core.
    eapply wp_mono; [apply (insert_loop_spec l x (branch tr) 0 (len l + 1))|].
    + change (pow2 0) with 1. lia.
    + rewrite Hlen. change (pow2 TREE_DEPTH) with (u32_max + 1). lia.
    + replace (len l + 1 - 1) with (len l) by lia. symmetry. apply node_snoc.
    + done.
    + change (pow2 0) with 1. rewrite N.mul_1_r.
      intros [br|e|] s'; cbn; [|naive_solver..]. intros (-> & Hlen' & Hl'). wp_core. split; [done|].
      assert (len (l ++ [x]) = len l + 1) as Hn by (unfold len; rewrite length_app; cbn; lia).
      split; [done|]. rewrite Hn. split; [done|]. split; [cbn; congruence|done].
  - checked_simpl. split; [done|]. right. split; [done|]. lia.
Qed.

Lemma empty_ok : tree_ok [] empty.
Proof.
  split; [done|]. split; [done|]. split; [done|]. intros j b _ Hb. change (len (@nil HexHash)) with 0 in Hb.
  by rewrite N.shiftr_0_l in Hb.
Qed.

Definition insert_all (tr : t) l : M (acc G S) anyhow t := fold_m insert tr l.

Lemma insert_all_spec l tr l' s :
  tree_ok l tr -> len l + len l' <= u32_max ->
  wp (insert_all tr l') (fun o s' => s' = s /\
    match o with Ok tr' => tree_ok (l ++ l') tr' | Err e => hash_error (G := G) e | Panic => False end) s.
Proof.
  intros Hok Hn. apply (wp_fold_m _ (fun ls tr' s' => s' = s /\ tree_ok (l ++ ls) tr')).
  - by rewrite app_nil_r.
  - intros ls x rest tr' s' Heq [-> Hls]. eapply wp_mono; [by apply insert_spec|].
    intros [tr''|e|] s'; cbn; [|..].
    + intros [-> Hok']. by rewrite app_assoc.
    + intros [-> [He|[_ Hfull]]]; [done|]. exfalso. subst l'.
      unfold len in *. rewrite !length_app in *. cbn in *. lia.
    + by intros [].
  - by intros tr' s' [-> Hok'].
Qed.

(** *** The root *)

Lemma frontier_step l n i :
  node l (Datatypes.S i) (N.shiftr n (N.of_nat (Datatypes.S i))) =
    if N.shiftr n (N.of_nat i) mod 2 =? 1
    then keccak (node l i (N.shiftr n (N.of_nat i) - 1) ++ node l i (N.shiftr n (N.of_nat i)))
    else keccak (node l i (N.shiftr n (N.of_nat i)) ++ node l i (N.shiftr n (N.of_nat i) + 1)).
Proof.
  cbn [node]. rewrite shiftr_S. set (k := N.shiftr n (N.of_nat i)).
  pose proof (N.div_mod' k 2) as Hk. destruct (N.eqb_spec (k mod 2) 1) as [Ho|He].
  - rewrite Ho in Hk. do 3 f_equal; lia.
  - rewrite (mod_even k He) in Hk. do 3 f_equal; lia.
Qed.

Lemma root_loop_spec l tr : zeroes_ok -> tree_ok l tr -> forall zs i current s,
  zs = drop i ZERO_HASHES -> current = node l i (N.shiftr (len l) (N.of_nat i)) ->
  wp (root_loop tr zs i current) (fun o s' => s' = s /\
    match o with
    | Ok r => r = node l (i + length zs) (N.shiftr (len l) (N.of_nat (i + length zs)))
    | Err e => hash_error (G := G) e
    | Panic => False
    end) s.
Proof.
  intros Hz (Hc & Hu & Hlen & Hl). induction zs as [|z zs IH]; intros i cur s Hzs Hcur; cbn [root_loop length].
  { wp_core. by rewrite Nat.add_0_r. }
  assert (ZERO_HASHES !! i = Some z) as Hi.
  { rewrite <- (Nat.add_0_r i), <- lookup_drop, <- Hzs. done. }
  assert (i < TREE_DEPTH)%nat as Hid by (change TREE_DEPTH with (length ZERO_HASHES); by eapply lookup_lt_Some).
  rewrite (drop_S _ _ _ Hi) in Hzs. injection Hzs as Hzs.
  rewrite (Hz i Hid) in Hi. injection Hi as <-.
  destruct (lookup_lt_is_Some_2 (branch tr) i) as [b Hb]; [lia|]. rewrite Hb, land_1, Hc.
  wp_core. apply wp_expect_some; [|done]. intros ? [= <-]. cbn beta iota delta [on_ok].
  wp_core. pose proof (frontier_step l (len l) i) as Hstep.
  replace (i + Datatypes.S (length zs))%nat with (Datatypes.S i + length zs)%nat by lia.
  destruct (N.eqb_spec (N.shiftr (len l) (N.of_nat i) mod 2) 1) as [Ho|He].
  - apply wp_keccak256_concat; wp_red; [by auto|]. apply IH; [done|].
    rewrite Hstep, Hcur. by rewrite (Hl i b Hb Ho).
  - apply wp_keccak256_concat; wp_red; [by auto|]. apply IH; [done|]. rewrite Hstep, Hcur. do 2 f_equal.
    symmetry. apply node_zero. rewrite shiftr_pow2. pose proof (pow2_pos i).
    pose proof (N.mul_succ_div_gt (len l) (pow2 i)). lia.
Qed.

Lemma root_spec l tr s :
  zeroes_ok -> tree_ok l tr ->
  wp (root tr) (fun o s' => s' = s /\
    match o with Ok r => r = full_root l | Err e => hash_error (G := G) e | Panic => False end) s.
Proof.
  intros Hz Hok. assert (len l <= u32_max) as Hu by apply Hok.
  unfold root, root_with_ctx. eapply wp_mono; [apply (root_loop_spec l tr Hz Hok ZERO_HASHES 0); [done|]|].
  - change (N.of_nat 0) with 0. rewrite N.shiftr_0_r. symmetry. apply (node_zero l 0).
    change (pow2 0) with 1. lia.
  - intros [r|e|] s'; [|done..]. intros [-> ->]. split; [done|]. unfold full_root.
    change (0 + length ZERO_HASHES)%nat with TREE_DEPTH. f_equal.
    rewrite shiftr_pow2. apply N.div_small. change (pow2 TREE_DEPTH) with (u32_max + 1). lia.
Qed.

(** *** Proofs of inclusion *)

(** [branch_root] without its charges. *)
Fixpoint climb (item : HexHash) (path : list HexHash) (idx : N) (i : nat) : HexHash :=
  match path with
  | [] => item
  | next :: path =>
      climb (if N.shiftr idx (N.of_nat i) mod 2 =? 1 then keccak (next ++ item) else keccak (item ++ next))
        path idx (Datatypes.S i)
  end.

Lemma branch_root_spec idx : forall path item i s,
  wp (branch_root_loop item path idx i) (fun o s' => s' = s /\
    match o with Ok r => r = climb item path idx i | Err e => hash_error (G := G) e | Panic => False end) s.
Proof.
  induction path as [|next path IH]; intros item i s; cbn [branch_root_loop climb]; [by wp_core|].
  rewrite land_1. wp_core. destruct (_ =? 1); apply wp_keccak256_concat; wp_red; by auto.
Qed.

(** The siblings of the nodes above a leaf. *)
Definition sibling (l : list HexHash) (idx : N) (i : nat) : HexHash :=
  node l i (if N.shiftr idx (N.of_nat i) mod 2 =? 1 then N.shiftr idx (N.of_nat i) - 1
            else N.shiftr idx (N.of_nat i) + 1).

Definition inclusion_path (l : list HexHash) (idx : N) : list HexHash :=
  map (sibling l idx) (seq 0 TREE_DEPTH).

Lemma climb_complete l idx : forall d i,
  climb (node l i (N.shiftr idx (N.of_nat i))) (map (sibling l idx) (seq i d)) idx i =
  node l (i + d) (N.shiftr idx (N.of_nat (i + d))).
Proof.
  induction d as [|d IH]; intros i; cbn [seq map climb]; [by rewrite Nat.add_0_r|].
  replace (i + Datatypes.S d)%nat with (Datatypes.S i + d)%nat by lia. rewrite <- IH. f_equal.
  rewrite frontier_step. unfold sibling. by destruct (_ =? 1).
Qed.

(** What is hashed at level [i] above the index [idx]: a node and its sibling, in order. *)
Definition ordered_pair (idx : N) (i : nat) (item sib : HexHash) : list N :=
  if N.shiftr idx (N.of_nat i) mod 2 =? 1 then sib ++ item else item ++ sib.

Definition tree_pair (l : list HexHash) (idx : N) (i : nat) : list N :=
  ordered_pair idx i (node l i (N.shiftr idx (N.of_nat i))) (sibling l idx i).

(** At some level of the climb from [item] along [path], the proof and the tree hash
    different pairs to the same hash. *)
Fixpoint path_collides (l : list HexHash) (item : HexHash) (path : list HexHash) (idx : N) (i : nat) : Prop :=
  match path with
  | [] => False
  | next :: path =>
      let pair := ordered_pair idx i item next in
      (pair <> tree_pair l idx i /\ keccak pair = keccak (tree_pair l idx i)) \/
      path_collides l (keccak pair) path idx (Datatypes.S i)
  end.

Definition hash_sized (l : list HexHash) : Prop := Forall (fun h => length h = 32%nat) l.

Lemma node_length l d k : hash_sized l -> length (node l d k) = 32%nat.
Proof.
  intros Hl. destruct d as [|d]; cbn; [|apply keccak_length]. unfold leaf.
  destruct (l !! N.to_nat k) as [h|] eqn:Hh; cbn; [|done].
  unfold hash_sized in Hl. rewrite Forall_lookup in Hl. by apply (Hl _ _ Hh).
Qed.

Lemma climb_cons item next path idx i :
  climb item (next :: path) idx i = climb (keccak (ordered_pair idx i item next)) path idx (Datatypes.S i).
Proof. unfold ordered_pair. cbn [climb]. by destruct (_ =? 1). Qed.

Lemma node_pair l idx i :
  node l (Datatypes.S i) (N.shiftr idx (N.of_nat (Datatypes.S i))) = keccak (tree_pair l idx i).
Proof. rewrite frontier_step. unfold tree_pair, ordered_pair, sibling. by destruct (_ =? 1). Qed.

Lemma ordered_pair_inj idx i (a b c d : HexHash) :
  length a = length c -> length b = length d -> ordered_pair idx i a b = ordered_pair idx i c d -> a = c /\ b = d.
Proof.
  intros Ha Hb. unfold ordered_pair. destruct (_ =? 1); intros He; apply app_inj_1 in He; naive_solver.
Qed.

(** A climb to the root starts at the leaf and passes its siblings, or collides on the way. *)
Lemma climb_sound l idx : hash_sized l -> forall path item i,
  length item = 32%nat -> hash_sized path ->
  climb item path idx i = node l (i + length path) (N.shiftr idx (N.of_nat (i + length path))) ->
  (item = node l i (N.shiftr idx (N.of_nat i)) /\ path = map (sibling l idx) (seq i (length path))) \/
  path_collides l item path idx i.
Proof.
  intros Hl. induction path as [|next path IH]; intros item i Hi Hp.
  { cbn. rewrite Nat.add_0_r. auto. }
  apply Forall_cons_1 in Hp as [Hnext Hp]. rewrite climb_cons. cbn [length path_collides seq map].
  replace (i + Datatypes.S (length path))%nat with (Datatypes.S i + length path)%nat by lia. intros Hc.
  apply IH in Hc as [[Hk Hpath]|Hc]; [|by auto|apply keccak_length|done]. rewrite node_pair in Hk.
  destruct (decide (ordered_pair idx i item next = tree_pair l idx i)) as [He|]; [left|by auto].
  apply ordered_pair_inj in He as [-> ->]; [by rewrite <- Hpath|by rewrite node_length|by unfold sibling; rewrite node_length].
Qed.

(** *** From the empty tree *)

Lemma insert_all_empty l s :
  len l <= u32_max ->
  wp (insert_all empty l) (fun o s' => s' = s /\
    match o with Ok tr' => tree_ok l tr' | Err e => hash_error (G := G) e | Panic => False end) s.
Proof.
  intros Hn. apply (insert_all_spec [] empty l s empty_ok). change (len (@nil HexHash)) with 0. lia.
Qed.

Lemma root_after l s :
  zeroes_ok -> len l <= u32_max ->
  wp (let! tr := insert_all empty l in root tr) (fun o s' =>
    match o with
    | Ok r => r = full_root l /\ s' = s
    | Err e => hash_error (G := G) e /\ s' = s
    | Panic => False
    end) s.
Proof.
  intros Hz Hn. apply wp_bind. eapply wp_mono; [by apply insert_all_empty|].
  intros [tr|e|] s'; wp_red; [|by intros [-> ?]|by intros [_ ?]]. intros [-> Hok].
  eapply wp_mono; [by apply root_spec|]. intros [r|e|] s' [-> ?]; by auto.
Qed.

Lemma insert_after l x s :
  len l <= u32_max ->
  wp (let! tr := insert_all empty l in insert tr x) (fun o s' =>
    match o with
    | Ok tr => count tr = len l + 1 /\ len l < u32_max
    | Err e => hash_error (G := G) e \/ (e = TreeFull /\ len l = u32_max)
    | Panic => False
    end) s.
Proof.
  intros Hn. apply wp_bind. eapply wp_mono; [by apply insert_all_empty|].
  intros [tr|e|] s'; wp_red; [|by intros [_ ?]; left|by intros [_ ?]]. intros [-> Hok].
  eapply wp_mono; [by apply insert_spec|]. intros [tr'|e|] s'.
  - intros (_ & Hc & Hu & _). unfold len in *. rewrite length_app in *. cbn in *. lia.
  - intros [_ [He|[He Hfull]]]; [by left|right]. split; [done|lia].
  - by intros [_ ?].
Qed.
End Proofs.
End MerkleFacts.

Module MerkleProperties.
Import CryptoFacts MerkleTree MerkleFacts.
Section Claims.
Context {Sp : Spec} {HS : HyperlaneSpec} {G : Type} `{GasMeterLaws G} {S : Type}.

(** C17: the incremental tree computes the root of the full tree. Inserting the
    ids [l] one by one into the empty tree, which keeps 32 hashes and a count,
    and asking for the root gives the root of the binary tree of depth 32 whose
    leaves are [l] followed by zeros, for every list of up to 2^32 - 1 ids. The
    loop of [insert] always returns and never reaches its panic; one more id is
    refused as [TreeFull]. Only hashing that cannot be paid for makes it fail,
    and the state is not touched. (The table of zero hashes is assumed to hold
    the roots of the empty trees; [zero_hashes_table] shows that it does.) *)
Theorem merkle_root_correct (l : list HexHash) (x : HexHash) (a : acc G S) :
  zeroes_ok -> meter_wf (meter a) -> len l <= u32_max ->
  match (let! tr := insert_all empty l in root tr) a with
  | (Ok r, a') => r = full_root l /\ store a' = store a
  | (Err e, a') => hash_error (G := G) e /\ store a' = store a
  | (Panic, _) => False
  end /\
  match (let! tr := insert_all empty l in insert tr x) a with
  | (Ok tr, _) => count tr = len l + 1 /\ len l < u32_max
  | (Err e, _) => hash_error (G := G) e \/ (e = TreeFull /\ len l = u32_max)
  | (Panic, _) => False
  end.
Proof.
  intros Hz Hg Hn. split.
  - pose proof (root_after l (store a) Hz Hn (meter a) Hg) as Hwp. destruct a as [g s]. cbn [meter store] in Hwp |- *.
    destruct (bind _ _ _) as [[r|e|] a']; [exact (proj2 Hwp)|exact (proj2 Hwp)|exact (proj2 Hwp)].
  - pose proof (insert_after l x (store a) Hn (meter a) Hg) as Hwp. destruct a as [g s]. cbn [meter store] in Hwp |- *.
    destruct (bind _ _ _) as [[r|e|] a']; [exact (proj2 Hwp)|exact (proj2 Hwp)|exact (proj2 Hwp)].
Qed.

(** C18: inclusion proofs are complete and sound. Whenever [branch_root] returns a
    hash, it is the root of the tree over [l] if it was given the leaf of [idx]
    and its siblings; and if that hash is the root of the tree, the item was the
    leaf of [idx] and the path its siblings, unless at some level of this very path
    the proof and the tree hash two different pairs to the same hash. *)
Theorem merkle_proof_sound (l path : list HexHash) (item : HexHash) (idx : N) (a a' : acc G S) r :
  meter_wf (meter a) -> idx <= u32_max -> hash_sized l -> hash_sized (item :: path) -> length path = TREE_DEPTH ->
  branch_root item path idx a = (Ok r, a') ->
  (item = leaf l idx -> path = inclusion_path l idx -> r = full_root l) /\
  (r = full_root l ->
    (item = leaf l idx /\ path = inclusion_path l idx) \/ path_collides l item path idx 0).
Proof.
  destruct a as [g s]. intros Hg Hidx Hl Hp Hlen Hrun.
  pose proof (branch_root_spec (G := G) idx path item 0 s g Hg) as Hwp.
  unfold branch_root in Hrun. rewrite Hrun in Hwp. destruct Hwp as (_ & _ & ->).
  assert (node l TREE_DEPTH (N.shiftr idx (N.of_nat TREE_DEPTH)) = full_root l) as Hroot.
  { unfold full_root. f_equal. rewrite shiftr_pow2. apply N.div_small.
    change (pow2 TREE_DEPTH) with (u32_max + 1). lia. }
  assert (N.shiftr idx (N.of_nat 0) = idx) as Hs0 by apply N.shiftr_0_r.
  split.
  - intros -> ->. rewrite <- Hroot. pose proof (climb_complete l idx TREE_DEPTH 0) as Hc. rewrite Hs0 in Hc. exact Hc.
  - intros Hr. apply Forall_cons_1 in Hp as [Hitem Hp].
    pose proof (climb_sound l idx Hl path item 0 Hitem Hp) as Hs. rewrite Hs0, Hlen in Hs.
    change (0 + TREE_DEPTH)%nat with TREE_DEPTH in Hs. apply Hs. by rewrite Hr, Hroot.
Qed.
End Claims.

(** ** The instance with Keccak-256 *)

#[global] Instance keccak_hyperlane : HyperlaneSpec (Sp := test_spec).
Proof.
  refine (@Build_HyperlaneSpec test_spec Keccak.keccak256 Keccak.keccak256_length
    (list N) Some (fun d s r => Some (4 :: repeat 0 32 ++ default 0 (head s) :: repeat 0 31)) _
    [1; 1] (fun a => repeat 0 31 ++ [a]) IsmProperties.demo_from_sender (fun a => [a]) 5555 0).
  intros d s r k [= <-]. done.
Defined.

(** The roots of the first [n] trees without leaves, each from the one before. *)
Fixpoint zero_chain (n : nat) (z : HexHash) : list HexHash :=
  match n with O => [] | Datatypes.S n => z :: zero_chain n (keccak (HyperlaneSpec := keccak_hyperlane) (z ++ z)) end.

Lemma zero_chain_lookup n i d :
  (i < n)%nat -> zero_chain n (zero_root (HS := keccak_hyperlane) d) !! i = Some (zero_root (HS := keccak_hyperlane) (d + i)).
Proof.
  revert i d. induction n as [|n IH]; intros i d Hi; [lia|]. destruct i as [|i]; cbn [zero_chain].
  - by rewrite Nat.add_0_r.
  - cbn. rewrite <- Nat.add_succ_comm. apply (IH i (Datatypes.S d)). lia.
Qed.

Lemma keccak_zeroes_ok : zeroes_ok (HS := keccak_hyperlane).
Proof.
  intros i Hi. rewrite <- (Nat.add_0_l i) at 2. rewrite <- (zero_chain_lookup TREE_DEPTH i 0 Hi).
  assert (ZERO_HASHES = zero_chain TREE_DEPTH (zero_root (HS := keccak_hyperlane) 0)) as <- by (by vm_compute). done.
Qed.

(** The 32 hashes hard-coded in [ZERO_HASHES] are right: for Keccak-256, the
    hash function of the bridge, each is the root of the tree without leaves of
    its height. *)
Theorem zero_hashes_table (i : nat) :
  ZERO_HASHES !! i = if decide (i < 32)%nat then Some (zero_root (HS := keccak_hyperlane) i) else None.
Proof.
  case_decide as Hi; [by apply keccak_zeroes_ok|]. apply lookup_ge_None_2. change (length ZERO_HASHES) with 32%nat. lia.
Qed.

(** The siblings of the only leaf of a tree are the zero hashes. *)
Lemma first_path {Sp : Spec} {HS : HyperlaneSpec} x : zeroes_ok -> inclusion_path [x] 0 = ZERO_HASHES.
Proof.
  intros Hz. apply list_eq. intros i. unfold inclusion_path. rewrite list_lookup_fmap.
  destruct (decide (i < TREE_DEPTH)%nat) as [Hi|Hi].
  - rewrite (Hz i Hi), lookup_seq_lt by done. cbn. f_equal. unfold sibling. rewrite N.shiftr_0_l. cbn.
    apply node_zero. pose proof (pow2_pos i). change (1 <= 1 * pow2 i). lia.
  - rewrite lookup_seq_ge by lia. cbn. symmetry. apply lookup_ge_None_2.
    change (length ZERO_HASHES) with TREE_DEPTH. lia.
Qed.

Definition demo_ids : list HexHash := [repeat 1 32; repeat 2 32; repeat 3 32].

Lemma merkle_root_correct_witness :
  match (let! tr := insert_all (HS := keccak_hyperlane) (G := unit) empty demo_ids in
         root (HS := keccak_hyperlane) tr) (Acc tt tt) with
  | (Ok r, a') => r = full_root (HS := keccak_hyperlane) demo_ids /\ store a' = store (Acc tt tt)
  | (Err e, a') => hash_error (Sp := test_spec) (G := unit) e /\ store a' = store (Acc tt tt)
  | (Panic, _) => False
  end.
Proof.
  assert (len demo_ids <= u32_max) as Hn by (vm_compute; discriminate).
  pose proof (merkle_root_correct (HS := keccak_hyperlane) (G := unit) demo_ids [] (Acc tt tt)
    keccak_zeroes_ok I Hn) as [Hr _]. exact Hr.
Defined.

(** A one-leaf tree: all the siblings are zero hashes. *)
Lemma merkle_proof_sound_witness :
  fst (branch_root (HS := keccak_hyperlane) (G := unit) (repeat 1 32) ZERO_HASHES 0 (Acc tt tt)) =
    Ok (full_root (HS := keccak_hyperlane) [repeat 1 32]).
Proof.
  destruct (branch_root (HS := keccak_hyperlane) (G := unit) (repeat 1 32) ZERO_HASHES 0 (Acc tt tt))
    as [o a'] eqn:Hrun.
  assert (bool_decide (is_Some (match o with Ok r => Some r | _ => None end)) = true) as Ho.
  { change o with (fst (o, a')). rewrite <- Hrun. by vm_compute. }
  destruct o as [r|e|]; [|discriminate Ho..].
  pose proof (merkle_proof_sound (HS := keccak_hyperlane) (G := unit) [repeat 1 32] ZERO_HASHES (repeat 1 32) 0
    (Acc tt tt) a' r I) as [Hc _]; [done|repeat constructor|repeat constructor|done|exact Hrun|].
  cbn [fst]. f_equal. apply Hc; [done|]. symmetry. apply first_path, keccak_zeroes_ok.
Defined.
End MerkleProperties.
