(* ===== verification/HyperlaneIgp.v ===== *)
(** * The interchain gas paymaster of the bridge (hyperlane/src/igp)

    A sender pays the relayer of its choice for the delivery of a message; the
    payments are held by the module until the beneficiary of the relayer claims
    them.
    - metadata.rs: [IGPMetadata::deserialize];
    - mod.rs: [required_gas], [quote_gas_price], [default_gas], [prepare_quote],
      [vec_to_hashmap], the dispatcher [call];
    - call.rs: [set_relayer_config], [update_oracle_value], [claim];
    - hooks.rs: [post_dispatch], [quote_dispatch].

    The hash maps built by [vec_to_hashmap] are lists without duplicate keys: the
    order in which a [HashMap] is visited is not defined, and only the order of
    events and of errors depends on it.

    The invariant [solvent]: the claimable funds of all relayers are covered by
    the gas tokens the module holds. *)

From Stdlib Require Import NArith Lia.
From stdpp Require Import base numbers gmap strings option list.
From S2P Require Import Prelude Ints Gas StateAccess Bank Hyperlane.

Definition u256_max : N := 2 ^ 256 - 1.

Definition TOKEN_EXCHANGE_RATE_SCALE : N := 10 ^ 19.

Record ExchangeRateAndGasPrice : Type := mkOracle { gas_price : N; token_exchange_rate : N }.

Module Igp.
Section Igp.
Context {Sp : Spec}.

(** [RelayerWithDomainKey] *)
Abbreviation RelayerWithDomainKey := (Address * N)%type.

Inductive Event : Type :=
| RelayerConfigSet (relayer : Address) (domain_custom_gas : list (Domain * N)) (default_gas : N)
    (beneficiary : option Address)
| OracleDataUpdated (relayer : Address) (domain : Domain) (oracle_data : ExchangeRateAndGasPrice)
| GasPayment (relayer : Address) (dest_domain : Domain) (message_id : HexHash) (gas_limit payment : N)
| RewardsClaimed (relayer beneficiary : Address).

(** The state of the module, [InterchainGasPaymaster]. *)
Record t : Type := mk {
  id : ModuleId;
  domain_oracle_data : gmap (Address * N) ExchangeRateAndGasPrice;
  domain_default_gas : gmap (Address * N) N;
  relayer_default_gas : gmap Address N;
  funds : gmap Address N;
  beneficiary : gmap Address (option Address);
  events : list Event
}.

(** With the bank it calls. *)
Record st : Type := mkSt { cells : t; bank : Bank.t }.

Definition set_cells (c : t) (s : st) : st := mkSt c (bank s).
Definition set_bank (b : Bank.t) (s : st) : st := mkSt (cells s) b.

Definition oracle_map : StateMap st (Address * N) ExchangeRateAndGasPrice :=
  mkStateMap "igp.domain_oracle_data" User (fun s => domain_oracle_data (cells s))
    (fun m s => let c := cells s in
       set_cells (mk (id c) m (domain_default_gas c) (relayer_default_gas c) (funds c) (beneficiary c) (events c)) s).

Definition default_gas_map : StateMap st (Address * N) N :=
  mkStateMap "igp.domain_default_gas" User (fun s => domain_default_gas (cells s))
    (fun m s => let c := cells s in
       set_cells (mk (id c) (domain_oracle_data c) m (relayer_default_gas c) (funds c) (beneficiary c) (events c)) s).

Definition relayer_gas_map : StateMap st Address N :=
  mkStateMap "igp.relayer_default_gas" User (fun s => relayer_default_gas (cells s))
    (fun m s => let c := cells s in
       set_cells (mk (id c) (domain_oracle_data c) (domain_default_gas c) m (funds c) (beneficiary c) (events c)) s).

Definition funds_map : StateMap st Address N :=
  mkStateMap "igp.funds" User (fun s => funds (cells s))
    (fun m s => let c := cells s in
       set_cells (mk (id c) (domain_oracle_data c) (domain_default_gas c) (relayer_default_gas c) m (beneficiary c)
         (events c)) s).

Definition beneficiary_map : StateMap st Address (option Address) :=
  mkStateMap "igp.beneficiary" User (fun s => beneficiary (cells s))
    (fun m s => let c := cells s in
       set_cells (mk (id c) (domain_oracle_data c) (domain_default_gas c) (relayer_default_gas c) (funds c) m
         (events c)) s).

Inductive CallMessage : Type :=
| SetRelayerConfig (oracle_data : list (Domain * ExchangeRateAndGasPrice)) (default_gas : list (Domain * N))
    (relayer_default : N) (beneficiary : option Address)
| UpdateOracleData (domain : Domain) (oracle_data : ExchangeRateAndGasPrice)
| ClaimRewards (relayer_address : Address).

(** ** Quotes *)

(** [IGPMetadata::deserialize]; the callers only ask whether it fails. *)
Definition igp_metadata_deserialize (buf : list N) : option N :=
  if len buf <? 66 then None
  else if negb (forallb (fun b => b =? 0) (slice 34 50 buf)) then None
  else
    let gas_limit := from_be_bytes (slice 50 66 buf) in
    if gas_limit =? 0 then None else Some gas_limit.

(** The product of two [u128]s does not overflow a [U256]. *)
Definition required_gas (fees gas_price token_exchange_rate : N) : N + anyhow :=
  let dest_gas_cost := wrap u256_max (fees * gas_price) in
  match checked_mul u256_max dest_gas_cost token_exchange_rate with
  | None => inr RequiredGasOverflow
  | Some p =>
      match checked_div p TOKEN_EXCHANGE_RATE_SCALE with
      | None => inr RequiredGasOverflow
      | Some gas_required => if gas_required <=? u128_max then inl gas_required else inr AmountTooLarge
      end
  end.

(** [vec_to_hashmap] *)
Fixpoint vec_to_hashmap {V} (seen : list N) (vec : list (N * V)) : list (N * V) + anyhow :=
  match vec with
  | [] => inl []
  | (key, value) :: vec =>
      if bool_decide (key ∈ seen) then inr DuplicateKey
      else match vec_to_hashmap (key :: seen) vec with
           | inl map => inl ((key, value) :: map)
           | inr e => inr e
           end
  end.

Section Operations.
Context {G : Type} `{GasMeter G}.

Definition emit_event {E} (e : Event) : M (acc G st) E unit :=
  modify (fun s => let c := cells s in
    set_cells (mk (id c) (domain_oracle_data c) (domain_default_gas c) (relayer_default_gas c) (funds c)
      (beneficiary c) (events c ++ [e])) s).

Definition quote_gas_price (key : Address * N) (fees : N) : M (acc G st) anyhow N :=
  let! data := map_err StateE (map_get oracle_map key) in
  let! data := ok_or data OracleNotSet in
  from_sum (required_gas fees (gas_price data) (token_exchange_rate data)).

Definition default_gas (key : Address * N) : M (acc G st) anyhow N :=
  let! amount := map_err StateE (map_get default_gas_map key) in
  match amount with
  | Some amount => ret amount
  | None =>
      let! amount := map_err StateE (map_get relayer_gas_map (fst key)) in
      match amount with
      | Some amount => if 0 <? amount then ret amount else throw DefaultGasZero
      | None => throw DefaultGasNotSet
      end
  end.

(** The gas limit of the metadata and the payment it requires. *)
Record Quote : Type := mkQuote { quote_gas_limit : N; gas_required : N }.

Definition prepare_quote (key : Address * N) (metadata : HexString) : M (acc G st) anyhow Quote :=
  let! gas_limit :=
    if len metadata <? 66 then default_gas key
    else match igp_metadata_deserialize metadata with
         | Some parsed => ret parsed
         | None => default_gas key
         end in
  let! gas_required := quote_gas_price key gas_limit in
  ret (mkQuote gas_limit gas_required).

Definition native_gas_coins (amount : N) : Bank.Coins := Bank.mkCoins amount config_gas_token_id.

(** ** The hook, hooks.rs *)

Definition post_dispatch (message_id : HexHash) (message : Message) (metadata : HexString) (relayer : Address)
    (gas_payment_limit : N) (context : Context Sp) : M (acc G st) anyhow unit :=
  let key := (relayer, dest_domain message) in
  let! quote := prepare_quote key metadata in
  if gas_payment_limit <? gas_required quote then
    throw (InsufficientPayment (quote_gas_limit quote) (gas_required quote))
  else
    let! holder := gets (fun s => HolderModule (id (cells s))) in
    map_err TransferE
      (zoom bank set_bank (Bank.transfer holder (native_gas_coins (gas_required quote)) context)) ;;;
    let! relayer_funds := map_err StateE (map_get funds_map relayer) in
    let relayer_funds := default 0 relayer_funds in
    let! relayer_funds := ok_or (Amount.checked_add relayer_funds (gas_required quote)) FundsOverflow in
    map_err StateE (map_set funds_map relayer relayer_funds) ;;;
    emit_event (GasPayment relayer (dest_domain message) message_id (quote_gas_limit quote) (gas_required quote)).

Definition quote_dispatch (message : Message) (metadata : HexString) (relayer : Address) : M (acc G st) anyhow N :=
  let! quote := prepare_quote (relayer, dest_domain message) metadata in
  ret (gas_required quote).

(** ** Calls, call.rs *)

Definition set_oracle_data (relayer : Address) (e : Domain * ExchangeRateAndGasPrice) : M (acc G st) anyhow unit :=
  let '(domain, oracle_data) := e in
  if (gas_price oracle_data =? 0) || (token_exchange_rate oracle_data =? 0) then throw BadOracleData
  else
    map_err StateE (map_set oracle_map (relayer, domain) oracle_data) ;;;
    emit_event (OracleDataUpdated relayer domain oracle_data).

Definition set_default_gas (relayer : Address) (e : Domain * N) : M (acc G st) anyhow unit :=
  let '(domain, amount) := e in
  if amount =? 0 then throw DefaultGasZero
  else map_err StateE (map_set default_gas_map (relayer, domain) amount).

(** The source iterates over hash maps, in an order that is not specified: the
    lists are one such order.  It only shows in the order of the events and in
    which error is reported. *)
Definition set_relayer_config (oracle_data : list (Domain * ExchangeRateAndGasPrice)) (domain_gas : list (Domain * N))
    (default_gas : N) (beneficiary : option Address) (context : Context Sp) : M (acc G st) anyhow unit :=
  let relayer := sender context in
  if default_gas =? 0 then throw DefaultGasZero
  else
    map_err StateE (map_set relayer_gas_map relayer default_gas) ;;;
    for_each (set_oracle_data relayer) oracle_data ;;;
    for_each (set_default_gas relayer) domain_gas ;;;
    map_err StateE (map_set beneficiary_map relayer beneficiary) ;;;
    emit_event (RelayerConfigSet relayer domain_gas default_gas beneficiary).

Definition update_oracle_value (domain : Domain) (oracle_data : ExchangeRateAndGasPrice) (context : Context Sp)
  : M (acc G st) anyhow unit :=
  map_err StateE (map_set oracle_map (sender context, domain) oracle_data) ;;;
  emit_event (OracleDataUpdated (sender context) domain oracle_data).

Definition claim (relayer : Address) (context : Context Sp) : M (acc G st) anyhow unit :=
  let! beneficiary := map_err StateE (map_get beneficiary_map relayer) in
  let! beneficiary := ok_or beneficiary NoBeneficiary in
  let! beneficiary := ok_or beneficiary AccessDenied in
  ensure (bool_decide (sender context = beneficiary)) AccessDenied ;;;
  let! balance := map_err StateE (map_get funds_map relayer) in
  let balance := default 0 balance in
  if balance =? 0 then ret tt
  else
    let! holder := gets (fun s => HolderModule (id (cells s))) in
    map_err TransferE
      (zoom bank set_bank (Bank.transfer_from holder (HolderUser beneficiary) (native_gas_coins balance))) ;;;
    map_err StateE (map_set funds_map relayer 0) ;;;
    emit_event (RewardsClaimed relayer beneficiary).

Definition call (msg : CallMessage) (context : Context Sp) : M (acc G st) anyhow unit :=
  match msg with
  | ClaimRewards relayer_address => claim relayer_address context
  | SetRelayerConfig oracle_data default_gas relayer_default beneficiary =>
      let! oracle_data := from_sum (vec_to_hashmap [] oracle_data) in
      let! default_gas := from_sum (vec_to_hashmap [] default_gas) in
      set_relayer_config oracle_data default_gas relayer_default beneficiary context
  | UpdateOracleData domain oracle_data => update_oracle_value domain oracle_data context
  end.
End Operations.
End Igp.
End Igp.

(** ** The effects of the operations *)
Module IgpFacts.
Import Igp.
Section Facts.
Context {Sp : Spec}.
Implicit Types (s : st) (c : t).

Definition with_funds (f : gmap Address N) c : t :=
  mk (id c) (domain_oracle_data c) (domain_default_gas c) (relayer_default_gas c) f (beneficiary c) (events c).

Definition with_event (e : Event) c : t :=
  mk (id c) (domain_oracle_data c) (domain_default_gas c) (relayer_default_gas c) (funds c) (beneficiary c)
    (events c ++ [e]).

(** What a quote comes to. *)
Definition gas_limit_of c (key : Address * N) (metadata : HexString) : option N :=
  match igp_metadata_deserialize metadata with
  | Some parsed => Some parsed
  | None =>
      match domain_default_gas c !! key with
      | Some amount => Some amount
      | None => match relayer_default_gas c !! fst key with Some a => if 0 <? a then Some a else None | None => None end
      end
  end.

Definition quote_of c (key : Address * N) (metadata : HexString) : option Quote :=
  let? gas_limit := gas_limit_of c key metadata in
  let? data := domain_oracle_data c !! key in
  match required_gas gas_limit (gas_price data) (token_exchange_rate data) with
  | inl required => Some (mkQuote gas_limit required)
  | inr _ => None
  end.

Lemma short_metadata metadata : len metadata <? 66 = true -> igp_metadata_deserialize metadata = None.
Proof. intros Hl. unfold igp_metadata_deserialize. by rewrite Hl. Qed.

Definition held s : N := Bank.balance (bank s) (HolderModule (id (cells s))) config_gas_token_id.

Definition claimable s : N := map_sum (fun _ v => v) (funds (cells s)).

(** The module can pay every relayer. *)
Definition solvent s : Prop := claimable s <= held s.

(** The state after a payment of [amount] for [relayer]. *)
Definition paid s (c : Context Sp) (relayer : Address) (amount : N) (ev : Event) : st :=
  let holder := HolderModule (id (cells s)) in
  let from := HolderUser (sender c) in
  mkSt (with_event ev (with_funds (<[relayer := default 0 (funds (cells s) !! relayer) + amount]> (funds (cells s))) (cells s)))
    (Bank.emitted (Bank.TokenTransferred from holder (native_gas_coins amount) None)
       (Bank.transferred (bank s) from holder config_gas_token_id amount)).

(** The state after [b] claimed the funds of [relayer]. *)
Definition claimed s (relayer b : Address) : st :=
  let amount := default 0 (funds (cells s) !! relayer) in
  if amount =? 0 then s
  else
    mkSt (with_event (RewardsClaimed relayer b) (with_funds (<[relayer := 0]> (funds (cells s))) (cells s)))
      (Bank.transferred (bank s) (HolderModule (id (cells s))) (HolderUser b) config_gas_token_id amount).

(** The configuration changes, nothing else does. *)
Definition same_money s s' : Prop :=
  bank s' = bank s /\ id (cells s') = id (cells s) /\ funds (cells s') = funds (cells s).

#[global] Instance same_money_refl : Reflexive same_money.
Proof. intros s. by split_and!. Qed.

#[global] Instance same_money_trans : Transitive same_money.
Proof. intros s1 s2 s3 (? & ? & ?) (? & ? & ?). split_and!; congruence. Qed.

Section Rules.
Context {G : Type} `{GasMeterLaws G}.

Lemma wp_default_gas key (Q : outcome anyhow N -> st -> Prop) s :
  (forall e, Q (Err e) s) ->
  (forall n, (forall md, igp_metadata_deserialize md = None -> gas_limit_of (cells s) key md = Some n) -> Q (Ok n) s) ->
  wp (default_gas key) Q s.
Proof.
  intros He Hok. unfold default_gas. wp_step. wp_step. wp_step; [auto|]. cbn [map_read default_gas_map].
  destruct (domain_default_gas (cells s) !! key) as [n|] eqn:Hd.
  - wp_step. apply Hok. intros md Hmd. unfold gas_limit_of. by rewrite Hmd, Hd.
  - wp_step. wp_step. wp_step; [auto|]. cbn [map_read relayer_gas_map].
    destruct (relayer_default_gas (cells s) !! key.1) as [n|] eqn:Hr; [|by wp_step].
    destruct (0 <? n) eqn:Hn; wp_step; [|auto]. apply Hok. intros md Hmd. unfold gas_limit_of. by rewrite Hmd, Hd, Hr, Hn.
Qed.

Lemma wp_prepare_quote key metadata (Q : outcome anyhow Quote -> st -> Prop) s :
  (forall e, Q (Err e) s) ->
  (forall q, quote_of (cells s) key metadata = Some q -> Q (Ok q) s) ->
  wp (prepare_quote key metadata) Q s.
Proof.
  intros He Hok. unfold prepare_quote.
  assert (forall n, gas_limit_of (cells s) key metadata = Some n ->
    wp (let! gas_required := quote_gas_price key n in ret (mkQuote n gas_required)) Q s) as Hrest.
  { intros n Hn. unfold quote_gas_price. wp_step. wp_step. wp_step. wp_step; [auto|]. wp_step.
    wp_step; [|auto]. wp_step; [|auto]. wp_step. apply Hok. unfold quote_of.
    cbn [map_read oracle_map] in *. rewrite Hn.
    repeat match goal with H' : _ = Some _ |- _ => rewrite H' | H' : _ = inl _ |- _ => rewrite H' end. done. }
  wp_step. destruct (len metadata <? 66) eqn:Hl.
  - apply wp_default_gas; wp_red; [auto|]. intros n Hn. by apply Hrest, Hn, short_metadata.
  - destruct (igp_metadata_deserialize metadata) as [n|] eqn:Hd.
    + wp_step. apply Hrest. unfold gas_limit_of. by rewrite Hd.
    + apply wp_default_gas; wp_red; [auto|]. intros n Hn. by apply Hrest, Hn.
Qed.

Lemma wp_post_dispatch mid message metadata relayer limit (c : Context Sp) (Q : outcome anyhow unit -> st -> Prop) s :
  Bank.inv (bank s) ->
  (forall e s', Q (Err e) s') ->
  (forall q, quote_of (cells s) (relayer, dest_domain message) metadata = Some q -> gas_required q <= limit ->
     gas_required q <= Bank.balance (bank s) (HolderUser (sender c)) config_gas_token_id ->
     default 0 (funds (cells s) !! relayer) + gas_required q <= u128_max ->
     Q (Ok tt) (paid s c relayer (gas_required q)
       (GasPayment relayer (dest_domain message) mid (quote_gas_limit q) (gas_required q)))) ->
  wp (post_dispatch mid message metadata relayer limit c) Q s.
Proof.
  intros Hinv He Hok. unfold post_dispatch. wp_step. apply wp_prepare_quote; wp_red; [auto|]. intros q Hq.
  destruct (N.ltb_spec limit (gas_required q)) as [Hl|Hl]; [by wp_step|].
  wp_step. wp_step. wp_step. wp_step. wp_step. unfold Bank.transfer.
  apply BankFacts.wp_transfer_with_memo; wp_red; [done|auto|]. cbv zeta. intros Hb.
  wp_step. wp_step. wp_step; [auto|]. wp_step. wp_step; [|auto]. checked_simpl. subst.
  wp_step. wp_step. wp_step; [auto|]. unfold emit_event. wp_step. by apply Hok.
Qed.

Lemma wp_claim relayer (c : Context Sp) (Q : outcome anyhow unit -> st -> Prop) s :
  Bank.inv (bank s) ->
  (can_fail (G := G) \/ beneficiary (cells s) !! relayer <> Some (Some (sender c)) \/
     held s < default 0 (funds (cells s) !! relayer) -> forall e s', Q (Err e) s') ->
  (beneficiary (cells s) !! relayer = Some (Some (sender c)) ->
     default 0 (funds (cells s) !! relayer) <= held s -> Q (Ok tt) (claimed s relayer (sender c))) ->
  wp (claim relayer c) Q s.
Proof.
  intros Hinv He Hok. unfold claim. wp_step. wp_step. wp_step; [auto|]. cbn [map_read beneficiary_map].
  destruct (beneficiary (cells s) !! relayer) as [[b|]|] eqn:Hb.
  2: { wp_step. apply wp_ok_or; [|done]. intros ? [= <-]. wp_red. wp_step.
       apply wp_ok_or; [done|]. intros _. apply He. right. by left. }
  2: { wp_step. apply wp_ok_or; [done|]. intros _. apply He. right. by left. }
  wp_step. apply wp_ok_or; [|done]. intros ? [= <-]. wp_red. wp_step. apply wp_ok_or; [|done]. intros ? [= <-]. wp_red.
  wp_step. wp_step; checked_simpl; [|apply He; right; left; congruence]. subst b.
  wp_step. wp_step. wp_step; [auto|]. cbn [map_read funds_map]. unfold claimed in Hok.
  destruct (N.eqb_spec (default 0 (funds (cells s) !! relayer)) 0) as [Hz|Hz].
  - wp_step. apply Hok; [done|]. lia.
  - wp_step. wp_step. wp_step. wp_step. wp_step. unfold Bank.transfer_from. cbn [native_gas_coins Bank.token_id Bank.amount].
    apply BankFacts.wp_do_transfer; wp_red; [done|auto|auto|]. intros Hbal.
    wp_step. wp_step. wp_step; [auto|]. unfold emit_event. wp_step. by apply Hok.
Qed.

Lemma wp_set_oracle_data relayer e (Q : outcome anyhow unit -> st -> Prop) s :
  (forall e s', Q (Err e) s') -> (forall s', same_money s s' -> Q (Ok tt) s') ->
  wp (set_oracle_data relayer e) Q s.
Proof.
  intros He Hok. destruct e as [d o]. unfold set_oracle_data, emit_event.
  destruct (_ || _); repeat wp_step; auto. by apply Hok.
Qed.

Lemma wp_set_default_gas relayer e (Q : outcome anyhow unit -> st -> Prop) s :
  (forall e s', Q (Err e) s') -> (forall s', same_money s s' -> Q (Ok tt) s') ->
  wp (set_default_gas relayer e) Q s.
Proof.
  intros He Hok. destruct e as [d n]. unfold set_default_gas.
  destruct (_ =? _); repeat wp_step; auto. by apply Hok.
Qed.

(** A loop of configuration steps. *)
Lemma wp_config_loop {A} (f : A -> M (acc G st) anyhow unit) l (Q : outcome anyhow unit -> st -> Prop) s :
  (forall x s1 (Q1 : outcome anyhow unit -> st -> Prop),
     (forall e s', Q1 (Err e) s') -> (forall s', same_money s1 s' -> Q1 (Ok tt) s') -> wp (f x) Q1 s1) ->
  (forall e s', Q (Err e) s') -> (forall s', same_money s s' -> Q (Ok tt) s') ->
  wp (for_each f l) Q s.
Proof.
  intros Hf He Hok. apply (wp_for_each _ (fun _ s' => same_money s s')); [done| |auto].
  intros done x rest s1 _ Hs1. apply Hf; wp_red; [auto|]. intros s' Hs'. by transitivity s1.
Qed.

Lemma wp_set_relayer_config oracle gas d b (c : Context Sp) (Q : outcome anyhow unit -> st -> Prop) s :
  (forall e s', Q (Err e) s') -> (forall s', same_money s s' -> Q (Ok tt) s') ->
  wp (set_relayer_config oracle gas d b c) Q s.
Proof.
  intros He Hok. unfold set_relayer_config. destruct (d =? 0); [by wp_step|].
  wp_step. wp_step. wp_step; [auto|]. wp_step.
  apply wp_config_loop; wp_red; [intros; by apply wp_set_oracle_data|auto|]. intros s1 Hs1. wp_step.
  apply wp_config_loop; wp_red; [intros; by apply wp_set_default_gas|auto|]. intros s2 Hs2.
  unfold emit_event. repeat wp_step; auto. apply Hok. transitivity s2; [|done]. by transitivity s1.
Qed.

Lemma wp_igp_update_oracle d o (c : Context Sp) (Q : outcome anyhow unit -> st -> Prop) s :
  (forall e s', Q (Err e) s') -> (forall s', same_money s s' -> Q (Ok tt) s') ->
  wp (update_oracle_value d o c) Q s.
Proof.
  intros He Hok. unfold update_oracle_value, emit_event. repeat wp_step; auto. by apply Hok.
Qed.
End Rules.

(** *** Solvency *)

Lemma inv_igp_emitted ev b : Bank.inv b -> Bank.inv (Bank.emitted ev b).
Proof. by apply BankFacts.inv_eq. Qed.

Lemma balance_emitted ev b h tid : Bank.balance (Bank.emitted ev b) h tid = Bank.balance b h tid.
Proof. done. Qed.

Definition ok s : Prop := Bank.inv (bank s) /\ solvent s.

Lemma opt_val_funds c relayer : opt_val (fun _ v => v) (funds c) relayer = default 0 (funds c !! relayer).
Proof. unfold opt_val. by destruct (funds c !! relayer). Qed.

Lemma ok_same_money s s' : same_money s s' -> ok s -> ok s'.
Proof.
  intros (Hb & Hi & Hf) [Hinv Hs]. split; [by rewrite Hb|].
  unfold solvent, claimable, held in *. by rewrite Hb, Hi, Hf.
Qed.

Lemma ok_paid s (c : Context Sp) relayer amount ev :
  ok s -> amount <= Bank.balance (bank s) (HolderUser (sender c)) config_gas_token_id ->
  ok (paid s c relayer amount ev).
Proof.
  intros [Hinv Hs] Hamt. split.
  - cbn. by apply inv_igp_emitted, BankFacts.inv_transferred.
  - unfold solvent, claimable, held in *. cbn.
    pose proof (map_sum_insert (fun _ v => v) (funds (cells s)) relayer
      (default 0 (funds (cells s) !! relayer) + amount)) as Hsum. rewrite opt_val_funds in Hsum.
    rewrite balance_emitted, BankFacts.balance_transferred by done.
    rewrite (bool_decide_eq_true_2 (_ /\ _)), (bool_decide_eq_false_2 (HolderModule _ = HolderUser _)),
      bool_decide_eq_true_2 by (done || split; done).
    lia.
Qed.

Lemma ok_claimed s relayer b :
  ok s -> default 0 (funds (cells s) !! relayer) <= held s -> ok (claimed s relayer b).
Proof.
  intros [Hinv Hs] Hamt. unfold claimed. destruct (N.eqb_spec (default 0 (funds (cells s) !! relayer)) 0) as [Hz|Hz].
  { by split. }
  split.
  - cbn. by apply BankFacts.inv_transferred.
  - unfold solvent, claimable in *. unfold held at 1. cbn.
    pose proof (map_sum_insert (fun _ v => v) (funds (cells s)) relayer 0) as Hsum. rewrite opt_val_funds in Hsum.
    rewrite BankFacts.balance_transferred by done.
    rewrite (bool_decide_eq_true_2 (_ /\ _)), bool_decide_eq_true_2 by (done || split; done).
    unfold held in *. lia.
Qed.

Lemma claimable_ge s relayer : default 0 (funds (cells s) !! relayer) <= claimable s.
Proof. rewrite <- opt_val_funds. apply map_sum_opt_val_le. Qed.

(** A call changes the configuration, or pays out the funds of one relayer. *)
Lemma wp_igp_call {G : Type} `{GasMeterLaws G} msg (c : Context Sp) (Q : outcome anyhow unit -> st -> Prop) s :
  ok s -> (forall e s', Q (Err e) s') ->
  (forall s', same_money s s' -> Q (Ok tt) s') ->
  (forall relayer, default 0 (funds (cells s) !! relayer) <= held s -> Q (Ok tt) (claimed s relayer (sender c))) ->
  wp (call msg c) Q s.
Proof.
  intros Hok He Hm Hc. destruct msg; cbn [call].
  - wp_step. wp_step; [|auto]. wp_step. wp_step; [|auto]. by apply wp_set_relayer_config.
  - by apply wp_igp_update_oracle.
  - apply wp_claim; [apply Hok|auto|auto].
Qed.
End Facts.
End IgpFacts.
