(* ===== verification/HyperlaneMailbox.v ===== *)
(** * The mailbox of the bridge (hyperlane/src/lib.rs, call.rs)

    Messages leave the rollup through [dispatch] and enter it through [process];
    validators announce where they publish their signatures with [announce].
    The mailbox is generic in the module that receives messages: the class
    [Recipient] is the trait of the same name.

    The state [Mailbox.t] holds the items of the mailbox, the state of its two
    hooks (the Merkle tree and the gas paymaster), of the recipient, and of the
    bank, which paymaster and recipient share.  Reading the rollup height and the
    visible slot is a parameter of the calls ([VersionReader]). *)

From Stdlib Require Import NArith Lia.
From stdpp Require Import base numbers gmap strings option list.
From S2P Require Import Prelude Ints Gas StateAccess Bank Hyperlane HyperlaneMerkle HyperlaneIgp.

(** The state a recipient works on: its own and that of the bank. *)
Record rstate {Sp : Spec} (R : Type) : Type := mkR { r_self : R; r_bank : Bank.t }.
Arguments mkR {Sp R} r_self r_bank.
Arguments r_self {Sp R} _.
Arguments r_bank {Sp R} _.

(** [Recipient], lib.rs *)
Class Recipient {Sp : Spec} {HS : HyperlaneSpec} (R : Type) : Type := {
  ism : forall {G : Type} `{GasMeter G}, HexHash -> M (acc G (rstate R)) anyhow (option Ism);
  default_ism : forall {G : Type} `{GasMeter G}, M (acc G (rstate R)) anyhow (option Ism);
  handle : forall {G : Type} `{GasMeter G}, VersionReader -> N -> HexHash -> HexHash -> HexString ->
    M (acc G (rstate R)) anyhow unit;
  handle_validator_announce : forall {G : Type} `{GasMeter G}, EthAddress -> list N ->
    M (acc G (rstate R)) anyhow unit;
  default_relayer : forall {G : Type} `{GasMeter G}, HexHash -> M (acc G (rstate R)) anyhow (option Address)
}.

Definition MESSAGE_VERSION : N := 3.
Definition MAILBOX_ADDR : list N := repeat 0 32.

Module Mailbox.

Record DispatchState : Type := mkDispatchState { next_nonce : N; last_dispatched_id : HexHash }.

Record Delivery : Type := mkDelivery { delivery_sender : HexHash; block_number : N }.

Inductive Event : Type :=
| Dispatch (sender : HexHash) (destination_domain : Domain) (recipient_address : HexHash) (message : HexString)
| DispatchId (id : HexHash)
| Process (origin_domain : Domain) (sender_address recipient_address : HexHash)
| ProcessId (id : HexHash)
| ValidatorAnnouncement (address : EthAddress) (storage_location : list N).

(** The state items of the mailbox. *)
Record cells_t : Type := mkCells {
  dispatch_state : option DispatchState;
  deliveries : gmap HexHash Delivery;
  validators : gmap EthAddress (list (list N));
  deliveries_count : option N;
  events : list Event
}.

Section Mailbox.
Context {Sp : Spec} {HS : HyperlaneSpec} {R : Type} {Rec : Recipient R}.

Record t : Type := mk {
  cells : cells_t;
  merkle_tree_hook : MerkleTreeHook.t;
  igp : Igp.t;
  recipients : R;
  bank : Bank.t
}.

Definition set_cells (c : cells_t) (s : t) : t := mk c (merkle_tree_hook s) (igp s) (recipients s) (bank s).
Definition set_merkle (m : MerkleTreeHook.t) (s : t) : t := mk (cells s) m (igp s) (recipients s) (bank s).

(** The paymaster and the recipient share the bank. *)
Definition get_igp (s : t) : Igp.st := Igp.mkSt (igp s) (bank s).
Definition put_igp (i : Igp.st) (s : t) : t :=
  mk (cells s) (merkle_tree_hook s) (Igp.cells i) (recipients s) (Igp.bank i).
Definition get_recipient (s : t) : rstate R := mkR (recipients s) (bank s).
Definition put_recipient (r : rstate R) (s : t) : t :=
  mk (cells s) (merkle_tree_hook s) (igp s) (r_self r) (r_bank r).

Definition dispatch_value : StateValue t DispatchState :=
  mkStateValue "mailbox.dispatch_state" User (fun s => dispatch_state (cells s))
    (fun o s => let c := cells s in
       set_cells (mkCells o (deliveries c) (validators c) (deliveries_count c) (events c)) s).

Definition deliveries_map : StateMap t HexHash Delivery :=
  mkStateMap "mailbox.deliveries" User (fun s => deliveries (cells s))
    (fun m s => let c := cells s in
       set_cells (mkCells (dispatch_state c) m (validators c) (deliveries_count c) (events c)) s).

Definition validators_map : StateMap t EthAddress (list (list N)) :=
  mkStateMap "mailbox.validators" User (fun s => validators (cells s))
    (fun m s => let c := cells s in
       set_cells (mkCells (dispatch_state c) (deliveries c) m (deliveries_count c) (events c)) s).

Definition count_value : StateValue t N :=
  mkStateValue "mailbox.deliveries_count" User (fun s => deliveries_count (cells s))
    (fun o s => let c := cells s in
       set_cells (mkCells (dispatch_state c) (deliveries c) (validators c) o (events c)) s).

Inductive CallMessage : Type :=
| CallDispatch (domain : Domain) (recipient : HexHash) (body : HexString) (metadata : option HexString)
    (relayer : option Address) (gas_payment_limit : N)
| CallProcess (metadata message : HexString)
| CallAnnounce (validator_address : EthAddress) (storage_location : list N) (signature : list N).

Section Operations.
Context {G : Type} `{GasMeter G}.

Definition emit_event {E} (e : Event) : M (acc G t) E unit :=
  modify (fun s => let c := cells s in
    set_cells (mkCells (dispatch_state c) (deliveries c) (validators c) (deliveries_count c) (events c ++ [e])) s).

Definition on_recipient {E A} (m : M (acc G (rstate R)) E A) : M (acc G t) E A :=
  zoom get_recipient put_recipient m.

Definition with_default_relayer (preselected_relayer : option Address) (recipient_address : HexHash)
  : M (acc G t) anyhow Address :=
  match preselected_relayer with
  | Some relayer => ret relayer
  | None =>
      let! default_relayer := on_recipient (default_relayer recipient_address) in
      ok_or default_relayer NoRelayer
  end.

Definition dispatch (destination_domain : Domain) (recipient_address sender : HexHash) (message_body : HexString)
    (metadata : option HexString) (relayer : option Address) (gas_payment_limit : N) (context : Context Sp)
  : M (acc G t) anyhow HexString :=
  let! ds := map_err StateE (value_get dispatch_value) in
  let ds := default (mkDispatchState 0 (repeat 0 32)) ds in
  let message :=
    mkMessage MESSAGE_VERSION (next_nonce ds) HYPERLANE_BRIDGE_DOMAIN sender destination_domain recipient_address
      message_body in
  let! mid := message_id message in
  map_err StateE (value_set dispatch_value (mkDispatchState (wrap u32_max (next_nonce ds + 1)) mid)) ;;;
  let message_hex := message_encode message in
  emit_event (Dispatch (msg_sender message) destination_domain recipient_address message_hex) ;;;
  emit_event (DispatchId mid) ;;;
  let metadata := default [] metadata in
  let! relayer := with_default_relayer relayer recipient_address in
  zoom merkle_tree_hook set_merkle (MerkleTreeHook.post_dispatch mid) ;;;
  zoom get_igp put_igp (Igp.post_dispatch mid message metadata relayer gas_payment_limit context) ;;;
  ret message_hex.

Definition process (vr : VersionReader) (metadata message : HexString) (context : Context Sp)
  : M (acc G t) anyhow unit :=
  let! mid := keccak256_hash message in
  let! message := from_sum (message_decode message) in
  ensure (version message =? MESSAGE_VERSION) (InvalidVersion (version message)) ;;;
  ensure (dest_domain message =? HYPERLANE_BRIDGE_DOMAIN) (InvalidDestination (dest_domain message)) ;;;
  let! delivery := map_err StateE (map_get deliveries_map mid) in
  ensure (negb (bool_decide (is_Some delivery))) (AlreadyProcessed mid) ;;;
  (if HYPERLANE_METER_DELIVERY_COUNTER_AFTER_HEIGHT <? rollup_height_to_access vr then
     let! count := map_err StateE (value_get count_value) in
     map_err StateE (value_set count_value (wrap u64_max (default 0 count + 1)))
   else ret tt) ;;;
  map_err StateE
    (map_set deliveries_map mid (mkDelivery (msg_sender message) (current_visible_slot_number vr))) ;;;
  emit_event (Process (origin_domain message) (msg_sender message) (recipient message)) ;;;
  emit_event (ProcessId mid) ;;;
  let! dedicated := on_recipient (ism (recipient message)) in
  let! the_ism :=
    match dedicated with
    | Some i => ret i
    | None => let! d := on_recipient default_ism in ok_or d NoIsm
    end in
  ism_verify the_ism context message metadata ;;;
  on_recipient (handle vr (origin_domain message) (msg_sender message) (recipient message) (body message)).

Definition validate_validator_announcement (validator_address : EthAddress) (location signature : list N)
  : M (acc G t) anyhow unit :=
  let! domain_hash := domain_hash_new HYPERLANE_BRIDGE_DOMAIN MAILBOX_ADDR HyperlaneAnnouncement in
  let! announcement_hash := announcement_hash_new domain_hash location in
  let! digest := eth_sign_hash_new announcement_hash in
  let! s := from_sum (decode_signature signature) in
  let! pub_key := ec_recover digest s in
  let! eth_address := eth_address_from_public_key pub_key in
  ensure (bool_decide (validator_address = eth_address)) (AnnouncementMismatch eth_address).

Definition announce (validator_address : EthAddress) (storage_location signature : list N) : M (acc G t) anyhow unit :=
  let! locations := map_err StateE (map_get validators_map validator_address) in
  let locations := default [] locations in
  ensure (negb (bool_decide (storage_location ∈ locations))) AlreadyAnnounced ;;;
  validate_validator_announcement validator_address storage_location signature ;;;
  map_err StateE (map_set validators_map validator_address (locations ++ [storage_location])) ;;;
  on_recipient (handle_validator_announce validator_address storage_location) ;;;
  emit_event (ValidatorAnnouncement validator_address storage_location).

Definition call (vr : VersionReader) (msg : CallMessage) (context : Context Sp) : M (acc G t) anyhow unit :=
  match msg with
  | CallDispatch domain recipient body metadata relayer gas_payment_limit =>
      let! _ :=
        dispatch domain recipient (to_sender (sender context)) body metadata relayer gas_payment_limit context in
      ret tt
  | CallProcess metadata message => process vr metadata message context
  | CallAnnounce validator_address storage_location signature =>
      announce validator_address storage_location signature
  end.
End Operations.
End Mailbox.
Arguments t {Sp} R.
End Mailbox.
