(* ===== verification/HyperlaneWarp.v ===== *)
(** * Warp routes: tokens over the bridge (hyperlane/src/warp)

    A warp route moves one token between the rollup and remote chains.  A
    synthetic token is minted when it arrives and burned when it leaves; a
    collateral or native token is locked with the route when it leaves and
    released when it comes back.
    - types.rs: [TokenKind], [StoredTokenKind] with the conversion of decimals,
      [RateLimiter], [Admin], [WarpRouteInstance];
    - mod.rs: the calls [register], [update], [enroll_remote_router],
      [unenroll_remote_router], [transfer_remote], and the implementation of
      [Recipient] with [handle].

    Left out: the metrics hook. *)

From Stdlib Require Import NArith Lia.
From stdpp Require Import base numbers gmap strings option list.
From S2P Require Import Prelude Ints Gas StateAccess Bank Hyperlane HyperlaneMerkle HyperlaneIgp HyperlaneMailbox.

(** ** Token kinds, types.rs *)

Inductive TokenKind : Type :=
| Synthetic (remote_token_id : HexHash) (remote_decimals : N) (local_decimals : option N)
| Collateral (token : TokenId)
| Native.

Inductive StoredTokenKind : Type :=
| StoredSynthetic (remote_token_id : HexHash) (local_decimals remote_decimals : N) (local_token_id : TokenId)
| StoredCollateral (token : TokenId)
| StoredNative.

Section Conversion.
Context {Sp : Spec}.

(** [U256::from(10).checked_pow(n)] *)
Definition checked_pow10 (n : N) : option N := if 10 ^ n <=? u256_max then Some (10 ^ n) else None.

Definition convert_decimals (amount from_decimals to_decimals : N) : N + anyhow :=
  match from_decimals ?= to_decimals with
  | Gt =>
      match checked_pow10 (from_decimals - to_decimals) with
      | None => inr ScaleOverflow
      | Some divisor => inl (amount / divisor)
      end
  | Lt =>
      match checked_pow10 (to_decimals - from_decimals) with
      | None => inr ScaleOverflow
      | Some multiplier =>
          match checked_mul u256_max amount multiplier with
          | Some n => inl n
          | None => inr ScaleOverflow
          end
      end
  | Eq => inl amount
  end.

(** (local, remote) *)
Definition conversion_decimals (token : StoredTokenKind) : N * N :=
  match token with
  | StoredSynthetic _ local_decimals remote_decimals _ => (local_decimals, remote_decimals)
  | _ => (1, 1)
  end.

Definition outbound_amount (self : StoredTokenKind) (local_amount : N) : list N + anyhow :=
  let '(local_decimals, remote_decimals) := conversion_decimals self in
  match convert_decimals local_amount local_decimals remote_decimals with
  | inl res => inl (to_be_bytes 32 res)
  | inr e => inr e
  end.

Definition inbound_amount (self : StoredTokenKind) (amount : list N) : N + anyhow :=
  let amount := from_be_bytes amount in
  let '(local_decimals, remote_decimals) := conversion_decimals self in
  match convert_decimals amount remote_decimals local_decimals with
  | inl scaled => if scaled <=? u128_max then inl scaled else inr AmountTooLarge
  | inr e => inr e
  end.

(** [id_and_kind]; the kind is its borsh discriminant. *)
Definition id_and_kind (self : TokenKind) : HexHash * N :=
  match self with
  | Synthetic remote_token_id _ _ => (remote_token_id, 0)
  | Collateral token => (token, 1)
  | Native => (config_gas_token_id, 2)
  end.
End Conversion.

(** ** The rate limiter: a token bucket *)
Module RateLimiter.

Record t : Type := mk {
  max_transferrable_tokens : N;
  current_transferrable_tokens : N;
  limit_replenishment_per_slot : N;
  last_seen_visible_slot : N
}.

#[export] Instance t_eq_dec : EqDecision t.
Proof. solve_decision. Defined.

Definition new (transferrable_tokens_limit limit_replenishment_per_slot : N) (vr : VersionReader) : t :=
  mk transferrable_tokens_limit limit_replenishment_per_slot limit_replenishment_per_slot
    (current_visible_slot_number vr).

(** The subtraction of slots is guarded by the comparison before it. *)
Definition current_limit_with_replenishment (self : t) (visible_slot : N) : N :=
  if (visible_slot <=? last_seen_visible_slot self)
     || (current_transferrable_tokens self =? max_transferrable_tokens self)
  then current_transferrable_tokens self
  else
    let slots_since_last_update := visible_slot - last_seen_visible_slot self in
    let replenish_amount := Amount.saturating_mul (limit_replenishment_per_slot self) slots_since_last_update in
    N.min (max_transferrable_tokens self)
      (Amount.saturating_add (current_transferrable_tokens self) replenish_amount).

Definition replenish (self : t) (visible_slot : N) : t :=
  mk (max_transferrable_tokens self) (current_limit_with_replenishment self visible_slot)
    (limit_replenishment_per_slot self) visible_slot.

Definition on_transfer {Sp : Spec} (self : t) (transferred visible_slot : N) : t + anyhow :=
  let self := replenish self visible_slot in
  match Amount.checked_sub (current_transferrable_tokens self) transferred with
  | Some current =>
      inl (mk (max_transferrable_tokens self) current (limit_replenishment_per_slot self)
             (last_seen_visible_slot self))
  | None => inr (LimitExceeded transferred (current_transferrable_tokens self))
  end.

Definition update_limit_replenishment_per_slot (self : t) (new_replenishment visible_slot : N) : t :=
  let self := replenish self visible_slot in
  mk (max_transferrable_tokens self) (current_transferrable_tokens self) new_replenishment
    (last_seen_visible_slot self).

Definition update_max_limit (self : t) (new_limit : N) : t :=
  mk new_limit (N.min (current_transferrable_tokens self) new_limit) (limit_replenishment_per_slot self)
    (last_seen_visible_slot self).
End RateLimiter.

(** ** The module, mod.rs *)
Module Warp.
Section Warp.
Context {Sp : Spec}.

Inductive Admin : Type := NoAdmin | InsecureOwner (a : Address).

Record WarpRouteInstance : Type := mkRoute {
  token_source : StoredTokenKind;
  admin : Admin;
  route_ism : Ism;
  enrolled_destinations : list N;
  inbound_rate_limiter : RateLimiter.t;
  outbound_rate_limiter : RateLimiter.t
}.

Inductive Event : Type :=
| RouteRegistered (route_id : HexHash) (token_source : StoredTokenKind) (ism : Ism) (admin : Admin)
    (inbound_limit inbound_replenishment outbound_limit outbound_replenishment : N)
| RouteUpdated (route_id : HexHash) (updated_ism : option Ism) (updated_admin : option Admin)
| RouteInboundLimitsUpdated (route_id : HexHash) (limit replenishment : option N)
| RouteOutboundLimitsUpdated (route_id : HexHash) (limit replenishment : option N)
| RouterEnrolled (route_id : HexHash) (domain : Domain) (router : HexHash)
| RouterUnEnrolled (route_id : HexHash) (domain : Domain)
| TokenTransferredRemote (route_id : HexHash) (to_domain : Domain) (recipient : HexHash) (amount : list N)
| TokenTransferReceived (route_id : HexHash) (from_domain : Domain) (recipient : HexHash) (amount : N).

(** The state items of the module. *)
Record t : Type := mk {
  warp_routes : gmap HexHash WarpRouteInstance;
  routers : gmap (HexHash * N) HexHash;
  events : list Event
}.

Definition set_self (w : t) (s : rstate t) : rstate t := mkR w (r_bank s).
Definition set_bank (b : Bank.t) (s : rstate t) : rstate t := mkR (r_self s) b.

Definition routes_map : StateMap (rstate t) HexHash WarpRouteInstance :=
  mkStateMap "warp.warp_routes" User (fun s => warp_routes (r_self s))
    (fun m s => set_self (mk m (routers (r_self s)) (events (r_self s))) s).

Definition routers_map : StateMap (rstate t) (HexHash * N) HexHash :=
  mkStateMap "warp.routers" User (fun s => routers (r_self s))
    (fun m s => set_self (mk (warp_routes (r_self s)) m (events (r_self s))) s).

Inductive CallMessage : Type :=
| Register (admin : Admin) (token_source : TokenKind) (ism : Ism) (remote_routers : list (Domain * HexHash))
    (inbound_limit inbound_replenishment outbound_limit outbound_replenishment : N)
| Update (warp_route : HexHash) (admin : option Admin) (ism : option Ism)
    (inbound_limit inbound_replenishment outbound_limit outbound_replenishment : option N)
| EnrollRemoteRouter (warp_route : HexHash) (remote_domain : Domain) (remote_router_address : HexHash)
| UnEnrollRemoteRouter (warp_route : HexHash) (remote_domain : Domain)
| TransferRemote (warp_route : HexHash) (destination_domain : Domain) (recipient : HexHash) (amount : N)
    (relayer : option Address) (gas_payment_limit : N).

(** The printed form of a hash. *)
Definition hex_digit (n : N) : Ascii.ascii :=
  Ascii.ascii_of_N (if n <? 10 then 48 + n else 87 + n).

Fixpoint hex_string (l : list N) : string :=
  match l with
  | [] => EmptyString
  | b :: l => String (hex_digit (b / 16)) (String (hex_digit (b mod 16)) (hex_string l))
  end.

Definition synthetic_name (route : HexHash) : string := ("Synthetic token for 0x" ++ hex_string route)%string.

Section Operations.
Context {HS : HyperlaneSpec} {G : Type} `{GasMeter G}.

Definition emit_event {E} (e : Event) : M (acc G (rstate t)) E unit :=
  modify (fun s => set_self (mk (warp_routes (r_self s)) (routers (r_self s)) (events (r_self s) ++ [e])) s).

Definition on_bank {E A} (m : M (acc G Bank.t) E A) : M (acc G (rstate t)) E A := zoom r_bank set_bank m.

Definition generate_route_id (token_source : TokenKind) (deployer : Address) : M (acc G (rstate t)) anyhow HexHash :=
  let '(token_id, token_kind) := id_and_kind token_source in
  let deployer_bytes := borsh_address deployer in
  charge_gas_for_hashing (len token_id + 1 + len deployer_bytes) ;;;
  ret (hasher (token_id ++ [token_kind] ++ deployer_bytes)).

Definition deploy_synthetic_token (warp_route : HexHash) (decimals : N) : M (acc G (rstate t)) anyhow TokenId :=
  let holder := HolderDerived warp_route in
  map_err CreateE
    (on_bank (Bank.create_token (synthetic_name warp_route) (Some decimals) 0 holder [holder] None holder)).

(** The instance is passed by reference: it is returned with the new destination. *)
Definition enroll_remote_router_unchecked (warp_route : HexHash) (remote_domain : N) (remote_router_address : HexHash)
    (route : WarpRouteInstance) : M (acc G (rstate t)) anyhow WarpRouteInstance :=
  let router_key := (warp_route, remote_domain) in
  let! existing := map_err StateE (map_get routers_map router_key) in
  ensure (negb (bool_decide (is_Some existing))) RouterAlreadyEnrolled ;;;
  map_err StateE (map_set routers_map router_key remote_router_address) ;;;
  emit_event (RouterEnrolled warp_route remote_domain remote_router_address) ;;;
  ret (mkRoute (token_source route) (admin route) (route_ism route) (enrolled_destinations route ++ [remote_domain])
         (inbound_rate_limiter route) (outbound_rate_limiter route)).

Definition register (vr : VersionReader) (admin : Admin) (token_source : TokenKind) (ism : Ism)
    (remote_routers : list (Domain * HexHash))
    (inbound_limit inbound_replenishment outbound_limit outbound_replenishment : N) (context : Context Sp)
  : M (acc G (rstate t)) anyhow unit :=
  let! route_id := generate_route_id token_source (sender context) in
  let! existing := map_err StateE (map_get routes_map route_id) in
  ensure (negb (bool_decide (is_Some existing))) RouteExists ;;;
  let! stored_token_kind :=
    match token_source with
    | Synthetic remote_token_id remote_decimals local_decimals =>
        let local_decimals := default remote_decimals local_decimals in
        let! local_token_id := deploy_synthetic_token route_id local_decimals in
        ret (StoredSynthetic remote_token_id local_decimals remote_decimals local_token_id)
    | Collateral token => ret (StoredCollateral token)
    | Native => ret StoredNative
    end in
  let route :=
    mkRoute stored_token_kind admin ism [] (RateLimiter.new inbound_limit inbound_replenishment vr)
      (RateLimiter.new outbound_limit outbound_replenishment vr) in
  emit_event (RouteRegistered route_id stored_token_kind ism admin inbound_limit inbound_replenishment
    outbound_limit outbound_replenishment) ;;;
  let! route :=
    fold_m (fun route '(domain, router_address) =>
      enroll_remote_router_unchecked route_id domain router_address route) route remote_routers in
  map_err StateE (map_set routes_map route_id route).

(** The owner of a route, for the calls that change it. *)
Definition check_admin (route : WarpRouteInstance) (context : Context Sp) : M (acc G (rstate t)) anyhow unit :=
  match admin route with
  | NoAdmin => throw RouteImmutable
  | InsecureOwner a => ensure (bool_decide (a = sender context)) NotRouteOwner
  end.

(** The new limits of one direction. *)
Definition update_limiter (vr : VersionReader) (limiter : RateLimiter.t) (limit replenishment : option N)
  : RateLimiter.t :=
  let limiter := match limit with Some n => RateLimiter.update_max_limit limiter n | None => limiter end in
  match replenishment with
  | Some n => RateLimiter.update_limit_replenishment_per_slot limiter n (current_visible_slot_number vr)
  | None => limiter
  end.

Definition is_some {A} (o : option A) : bool := match o with Some _ => true | None => false end.

Definition update (vr : VersionReader) (route_id : HexHash) (new_admin : option Admin) (new_ism : option Ism)
    (inbound_limit inbound_replenishment outbound_limit outbound_replenishment : option N) (context : Context Sp)
  : M (acc G (rstate t)) anyhow unit :=
  let! route := map_err StateE (map_get routes_map route_id) in
  let! route := ok_or route RouteNotFound in
  let admin_or_ism_updated := is_some new_admin || is_some new_ism in
  let inbound_rate_limit_updated := is_some inbound_limit || is_some inbound_replenishment in
  let outbound_rate_limit_updated := is_some outbound_limit || is_some outbound_replenishment in
  ensure (admin_or_ism_updated || inbound_rate_limit_updated || outbound_rate_limit_updated) EmptyUpdate ;;;
  check_admin route context ;;;
  let route :=
    mkRoute (token_source route) (default (admin route) new_admin) (default (route_ism route) new_ism)
      (enrolled_destinations route)
      (update_limiter vr (inbound_rate_limiter route) inbound_limit inbound_replenishment)
      (update_limiter vr (outbound_rate_limiter route) outbound_limit outbound_replenishment) in
  map_err StateE (map_set routes_map route_id route) ;;;
  (if admin_or_ism_updated then emit_event (RouteUpdated route_id new_ism new_admin) else ret tt) ;;;
  (if inbound_rate_limit_updated
   then emit_event (RouteInboundLimitsUpdated route_id inbound_limit inbound_replenishment) else ret tt) ;;;
  (if outbound_rate_limit_updated
   then emit_event (RouteOutboundLimitsUpdated route_id outbound_limit outbound_replenishment) else ret tt).

Definition enroll_remote_router (warp_route : HexHash) (remote_domain : N) (remote_router_address : HexHash)
    (context : Context Sp) : M (acc G (rstate t)) anyhow unit :=
  let! route := map_err StateE (map_get routes_map warp_route) in
  let! route := ok_or route RouteNotFound in
  check_admin route context ;;;
  let! route := enroll_remote_router_unchecked warp_route remote_domain remote_router_address route in
  map_err StateE (map_set routes_map warp_route route).

Definition unenroll_remote_router (warp_route : HexHash) (remote_domain : N) (context : Context Sp)
  : M (acc G (rstate t)) anyhow unit :=
  let! route := map_err StateE (map_get routes_map warp_route) in
  let! route := ok_or route RouteNotFound in
  check_admin route context ;;;
  let! route_position :=
    ok_or (fst <$> list_find (fun d => d = remote_domain) (enrolled_destinations route)) DomainNotEnrolled in
  let route :=
    mkRoute (token_source route) (admin route) (route_ism route) (delete route_position (enrolled_destinations route))
      (inbound_rate_limiter route) (outbound_rate_limiter route) in
  map_err StateE (map_set routes_map warp_route route) ;;;
  let! existing := map_err StateE (map_get routers_map (warp_route, remote_domain)) in
  ensure (bool_decide (is_Some existing)) RouterNotFound ;;;
  let! _ := map_err StateE (map_remove routers_map (warp_route, remote_domain)) in
  emit_event (RouterUnEnrolled warp_route remote_domain).

(** ** Transfers *)

Definition pack_transfer_body (recipient : HexHash) (local_amount : N) (token_source : StoredTokenKind)
  : list N + anyhow :=
  match outbound_amount token_source local_amount with
  | inl amount => inl (recipient ++ amount)
  | inr e => inr e
  end.

(** The recipient and the amount. *)
Definition unpack_transfer_body (body : list N) (token_source : StoredTokenKind) : HexHash * N + anyhow :=
  if 64 <=? len body then
    match inbound_amount token_source (slice 32 64 body) with
    | inl amount => inl (slice 0 32 body, amount)
    | inr e => inr e
    end
  else inr InvalidTransferBody.

(** [transfer_remote] up to the dispatch: the router and the body to send. *)
Definition send_tokens (vr : VersionReader) (warp_route : HexHash) (destination_domain : N) (recipient : HexHash)
    (amount : N) (context : Context Sp) : M (acc G (rstate t)) anyhow (HexHash * HexString) :=
  let! route := map_err StateE (map_get routes_map warp_route) in
  let! route := ok_or route RouteNotFound in
  let! limiter :=
    from_sum (RateLimiter.on_transfer (outbound_rate_limiter route) amount (current_visible_slot_number vr)) in
  map_err StateE
    (map_set routes_map warp_route
       (mkRoute (token_source route) (admin route) (route_ism route) (enrolled_destinations route)
          (inbound_rate_limiter route) limiter)) ;;;
  let! remote := map_err StateE (map_get routers_map (warp_route, destination_domain)) in
  let! remote := ok_or remote RouterNotFound in
  let holder := HolderDerived warp_route in
  match token_source route with
  | StoredSynthetic _ _ _ local_token_id =>
      map_err BurnE (on_bank (Bank.burn (Bank.mkCoins amount local_token_id) (HolderUser (sender context))))
  | StoredCollateral token =>
      map_err TransferE (on_bank (Bank.transfer holder (Bank.mkCoins amount token) context))
  | StoredNative =>
      map_err TransferE (on_bank (Bank.transfer holder (Bank.mkCoins amount config_gas_token_id) context))
  end ;;;
  let! body := from_sum (pack_transfer_body recipient amount (token_source route)) in
  let! remote_amount := from_sum (outbound_amount (token_source route) amount) in
  emit_event (TokenTransferredRemote warp_route destination_domain recipient remote_amount) ;;;
  ret (remote, body).

(** ** The recipient of messages *)

Definition warp_ism (recipient : HexHash) : M (acc G (rstate t)) anyhow (option Ism) :=
  let! route := map_err StateE (map_get routes_map recipient) in
  ret (route_ism <$> route).

Definition warp_handle (vr : VersionReader) (origin : N) (sender : HexHash) (route_id : HexHash) (body : HexString)
  : M (acc G (rstate t)) anyhow unit :=
  let! route := map_err StateE (map_get routes_map route_id) in
  let! route := ok_or route RouteNotFound in
  let! router := map_err StateE (map_get routers_map (route_id, origin)) in
  let! router := ok_or router RouterNotFound in
  ensure (bool_decide (router = sender)) RouterMismatch ;;;
  let! transfer := from_sum (unpack_transfer_body body (token_source route)) in
  let '(token_recipient_hex, amount) := transfer in
  let! limiter :=
    from_sum (RateLimiter.on_transfer (inbound_rate_limiter route) amount (current_visible_slot_number vr)) in
  map_err StateE
    (map_set routes_map route_id
       (mkRoute (token_source route) (admin route) (route_ism route) (enrolled_destinations route)
          limiter (outbound_rate_limiter route))) ;;;
  let! token_recipient := ok_or (from_sender token_recipient_hex) InvalidAddress in
  let holder := HolderDerived route_id in
  match token_source route with
  | StoredSynthetic _ _ _ local_token_id =>
      map_err MintE (on_bank (Bank.mint (Bank.mkCoins amount local_token_id) (HolderUser token_recipient) holder))
  | StoredCollateral token =>
      map_err TransferE
        (on_bank (Bank.transfer_from holder (HolderUser token_recipient) (Bank.mkCoins amount token)))
  | StoredNative =>
      map_err TransferE
        (on_bank (Bank.transfer_from holder (HolderUser token_recipient) (Bank.mkCoins amount config_gas_token_id)))
  end ;;;
  emit_event (TokenTransferReceived route_id origin token_recipient_hex amount).
End Operations.

#[global] Instance warp_recipient {HS : HyperlaneSpec} : Recipient t := {
  ism := fun G H => warp_ism;
  default_ism := fun G H => ret None;
  handle := fun G H => warp_handle;
  handle_validator_announce := fun G H _ _ => ret tt;
  default_relayer := fun G H _ => ret None
}.

Section Calls.
Context {HS : HyperlaneSpec} {G : Type} `{GasMeter G}.

Definition transfer_remote (vr : VersionReader) (warp_route : HexHash) (destination_domain : N) (recipient : HexHash)
    (amount : N) (relayer : option Address) (gas_payment_limit : N) (context : Context Sp)
  : M (acc G (Mailbox.t t)) anyhow unit :=
  let! sent :=
    Mailbox.on_recipient (send_tokens vr warp_route destination_domain recipient amount context) in
  let '(remote, body) := sent in
  let! _ :=
    Mailbox.dispatch destination_domain remote warp_route body None relayer gas_payment_limit context in
  ret tt.

Definition call (vr : VersionReader) (msg : CallMessage) (context : Context Sp)
  : M (acc G (Mailbox.t t)) anyhow unit :=
  match msg with
  | Register admin token_source ism remote_routers il ir ol or =>
      Mailbox.on_recipient (register vr admin token_source ism remote_routers il ir ol or context)
  | Update warp_route admin ism il ir ol or =>
      Mailbox.on_recipient (update vr warp_route admin ism il ir ol or context)
  | EnrollRemoteRouter warp_route remote_domain remote_router_address =>
      Mailbox.on_recipient (enroll_remote_router warp_route remote_domain remote_router_address context)
  | UnEnrollRemoteRouter warp_route remote_domain =>
      Mailbox.on_recipient (unenroll_remote_router warp_route remote_domain context)
  | TransferRemote warp_route destination_domain recipient amount relayer gas_payment_limit =>
      transfer_remote vr warp_route destination_domain recipient amount relayer gas_payment_limit context
  end.
End Calls.
End Warp.
End Warp.
