(* ===== verification/HyperlaneLimits.v ===== *)
(** * Warp routes: amounts and rate limits

    - the conversion of amounts between the decimals of the two chains loses at
      most what the smaller number of decimals cannot express, and never creates
      tokens;
    - the rate limiter of a route is a token bucket: what it lets through in a
      span of slots is bounded by its level and its replenishment;
    - the first slot of a route is not bounded by the configured limit. *)

From Stdlib Require Import NArith Lia.
From stdpp Require Import base numbers gmap strings option list.
From S2P Require Import Prelude Ints Gas StateAccess Bank Hyperlane HyperlaneProperties HyperlaneIgp HyperlaneMailbox.
From S2P Require Import HyperlaneWarp.

Module AmountFacts.
Import ByteFacts.
Section Amounts.
Context {Sp : Spec}.

Lemma pow10_pos n : 0 < 10 ^ n.
Proof. apply N.neq_0_lt_0, N.pow_nonzero. lia. Qed.

Lemma convert_there_and_back x l r y :
  x <= u128_max -> convert_decimals x l r = inl y ->
  y <= u256_max /\
  exists z, convert_decimals y r l = inl z /\ z <= x /\ x - z < 10 ^ (l - r) /\ (l <= r -> z = x).
Proof.
  intros Hx. unfold convert_decimals, checked_pow10. rewrite (N.compare_antisym l r).
  assert (u128_max <= u256_max) as Hw by (vm_compute; discriminate).
  destruct (N.compare_spec l r) as [->|Hlt|Hgt]; cbn [CompOpp].
  - intros [= <-]. split; [lia|]. exists x. rewrite N.sub_diag. split_and!; try done; lia.
  - destruct (N.leb_spec (10 ^ (r - l)) u256_max) as [Hp|]; [|done].
    destruct (checked_mul u256_max x (10 ^ (r - l))) as [n|] eqn:Hm; [|done]. intros [= <-]. checked_simpl. subst.
    split; [done|]. exists x. pose proof (pow10_pos (r - l)). rewrite N.div_mul by lia.
    replace (l - r) with 0 by lia. split_and!; try done; lia.
  - destruct (N.leb_spec (10 ^ (l - r)) u256_max) as [Hp|]; [|done]. intros [= <-].
    pose proof (pow10_pos (l - r)) as Hpos. pose proof (N.Div0.mul_div_le x (10 ^ (l - r))) as Hle.
    pose proof (N.div_mod' x (10 ^ (l - r))) as Hdm. pose proof (N.mod_lt x (10 ^ (l - r)) ltac:(lia)) as Hml.
    split; [apply N.le_trans with x; [apply N.Div0.div_le_upper_bound; nia|lia]|].
    unfold checked_mul. rewrite (proj2 (N.leb_le _ _)) by lia.
    eexists. split_and!; [done|lia|lia|lia].
Qed.
(** The 32 bytes of an amount, read back. *)
Lemma amount_there_and_back (k : StoredTokenKind) (x : N) (bz : list N) :
  x <= u128_max -> outbound_amount k x = inl bz ->
  length bz = 32%nat /\ bytes bz /\
  exists y, inbound_amount k bz = inl y /\ y <= x /\
    x - y < 10 ^ (fst (conversion_decimals k) - snd (conversion_decimals k)) /\
    (fst (conversion_decimals k) <= snd (conversion_decimals k) -> y = x).
Proof.
  unfold outbound_amount, inbound_amount. destruct (conversion_decimals k) as [l r]. intros Hx.
  destruct (convert_decimals x l r) as [n|] eqn:Hc; [|done]. intros [= <-].
  destruct (convert_there_and_back x l r n Hx Hc) as (Hn & z & Hz & Hle & Hd & He).
  split; [apply ByteFacts.to_be_length|]. split; [apply ByteFacts.to_be_bytes_bytes|]. exists z.
  rewrite ByteFacts.from_to_be by (change (256 ^ N.of_nat 32) with (u256_max + 1); lia).
  rewrite Hz, (proj2 (N.leb_le _ _)) by lia. by cbn.
Qed.
End Amounts.
End AmountFacts.

(** ** The bucket *)
Module LimiterFacts.
Import RateLimiter.
Section Limiter.
Context {Sp : Spec}.

(** The transfers a route sees, with their slots: a refused one is reverted. *)
Fixpoint run (l : t) (ts : list (N * N)) : N * t :=
  match ts with
  | [] => (0, l)
  | (amount, slot) :: ts =>
      match on_transfer l amount slot with
      | inl l' => let '(total, l'') := run l' ts in (amount + total, l'')
      | inr _ => run l ts
      end
  end.

(** The slots never go back, and end at [last]. *)
Fixpoint ordered (first last : N) (ts : list (N * N)) : Prop :=
  match ts with
  | [] => first <= last
  | (_, slot) :: ts => first <= slot /\ ordered slot last ts
  end.

Lemma ordered_weaken first first' last ts : first' <= first -> ordered first last ts -> ordered first' last ts.
Proof. destruct ts as [|[a slot] ts]; cbn; [lia|]. intros ? [? ?]. split; [lia|done]. Qed.

Lemma ordered_le first last ts : ordered first last ts -> first <= last.
Proof.
  revert first. induction ts as [|[a slot] ts IH]; intros first; cbn; [done|].
  intros [H1 H2]. specialize (IH slot H2). lia.
Qed.

Lemma replenished l slot :
  last_seen_visible_slot l <= slot ->
  current_limit_with_replenishment l slot <=
    current_transferrable_tokens l + limit_replenishment_per_slot l * (slot - last_seen_visible_slot l).
Proof.
  intros Hs. unfold current_limit_with_replenishment. destruct (_ || _); [apply N.le_add_r|].
  unfold Amount.saturating_add, Amount.saturating_mul, saturating_add, saturating_mul.
  generalize (limit_replenishment_per_slot l * (slot - last_seen_visible_slot l)). lia.
Qed.

Lemma replenished_max l slot :
  current_transferrable_tokens l <= max_transferrable_tokens l ->
  current_limit_with_replenishment l slot <= max_transferrable_tokens l.
Proof. intros Hm. unfold current_limit_with_replenishment. destruct (_ || _); [done|lia]. Qed.

Lemma on_transfer_inl l amount slot l' :
  on_transfer l amount slot = inl l' ->
  amount + current_transferrable_tokens l' = current_limit_with_replenishment l slot /\
  max_transferrable_tokens l' = max_transferrable_tokens l /\
  limit_replenishment_per_slot l' = limit_replenishment_per_slot l /\ last_seen_visible_slot l' = slot.
Proof.
  unfold on_transfer. cbn. destruct (Amount.checked_sub _ _) eqn:Hs; [|done]. intros [= <-]. cbn.
  checked_simpl. split_and!; try done. lia.
Qed.

Lemma run_bound ts : forall l last,
  ordered (last_seen_visible_slot l) last ts ->
  fst (run l ts) + current_transferrable_tokens (snd (run l ts)) <=
    current_transferrable_tokens l + limit_replenishment_per_slot l * (last - last_seen_visible_slot l).
Proof.
  induction ts as [|[amount slot] ts IH]; intros l last Ho; cbn [run]; [cbn; apply N.le_add_r|]. cbn in Ho. destruct Ho as [H1 H2].
  pose proof (ordered_le _ _ _ H2) as Hle. destruct (on_transfer l amount slot) as [l'|e] eqn:Ht.
  - apply on_transfer_inl in Ht as (Hc & Hm & Hr & Hl). specialize (IH l' last). rewrite Hl, Hr in IH.
    specialize (IH H2). destruct (run l' ts) as [total l'']. cbn in *. pose proof (replenished l slot H1) as Hp.
    replace (last - last_seen_visible_slot l) with ((slot - last_seen_visible_slot l) + (last - slot)) by lia.
    rewrite N.mul_add_distr_l. revert Hp IH.
    generalize (limit_replenishment_per_slot l * (last - slot)).
    generalize (limit_replenishment_per_slot l * (slot - last_seen_visible_slot l)). lia.
  - apply IH. by eapply ordered_weaken.
Qed.

Lemma run_max ts : forall l,
  current_transferrable_tokens l <= max_transferrable_tokens l ->
  current_transferrable_tokens (snd (run l ts)) <= max_transferrable_tokens l /\
  max_transferrable_tokens (snd (run l ts)) = max_transferrable_tokens l.
Proof.
  induction ts as [|[amount slot] ts IH]; intros l Hl; cbn [run]; [done|].
  destruct (on_transfer l amount slot) as [l'|e] eqn:Ht; [|by apply IH].
  apply on_transfer_inl in Ht as (Hc & Hm & _). pose proof (replenished_max l slot Hl).
  specialize (IH l'). rewrite Hm in IH. destruct (run l' ts) as [total l'']. cbn in *. apply IH. lia.
Qed.
End Limiter.
End LimiterFacts.

Module LimitProperties.
Import AmountFacts LimiterFacts RateLimiter.
Section Claims.
Context {Sp : Spec}.

(** Converting an amount for the remote chain and back never creates tokens.
    The 32 bytes sent for a local amount are read back, with the same token, as
    an amount that is no larger; the difference is less than one unit of the
    remote token, and there is none unless the local token has more decimals. *)
Theorem warp_amount_roundtrip (k : StoredTokenKind) (x : N) (bz : list N) :
  x <= u128_max -> outbound_amount k x = inl bz ->
  length bz = 32%nat /\ bytes bz /\
  exists y, inbound_amount k bz = inl y /\ y <= x /\
    x - y < 10 ^ (fst (conversion_decimals k) - snd (conversion_decimals k)) /\
    (fst (conversion_decimals k) <= snd (conversion_decimals k) -> y = x).
Proof. apply amount_there_and_back. Qed.

(** C35: the rate limiter bounds what a route lets through. Over any sequence of
    transfers in slots that do not go back, the transfers that are accepted add up
    to at most the level at the start plus the replenishment of the slots that
    passed; if the level was within the limit it stays there, so that any span of
    slots lets through at most the limit plus its replenishment, and a single slot
    at most the limit. *)
Theorem rate_limit_bound (l : t) (ts : list (N * N)) (last : N) :
  ordered (last_seen_visible_slot l) last ts ->
  fst (run l ts) <=
    current_transferrable_tokens l + limit_replenishment_per_slot l * (last - last_seen_visible_slot l) /\
  (current_transferrable_tokens l <= max_transferrable_tokens l ->
     current_transferrable_tokens (snd (run l ts)) <= max_transferrable_tokens (snd (run l ts)) /\
     fst (run l ts) <= max_transferrable_tokens l + limit_replenishment_per_slot l * (last - last_seen_visible_slot l)).
Proof.
  intros Ho. pose proof (run_bound ts l last Ho) as Hb. revert Hb.
  generalize (limit_replenishment_per_slot l * (last - last_seen_visible_slot l)). intros replenished Hb.
  split; [lia|]. intros Hm. destruct (run_max ts l Hm) as [Hc He]. rewrite He. split; [done|lia].
Qed.

(** The limit does not bind in the slot of the registration. The documentation
    of [Register] says that no more than the transferrable tokens limit can be
    transferred in a single slot; a new limiter starts at its replenishment
    instead, whatever the limit, and accepts a transfer of that amount in the slot
    it was created in. *)
Theorem first_slot_exceeds_limit (limit replenishment : N) (vr : VersionReader) :
  limit < replenishment -> replenishment <= u128_max ->
  on_transfer (new limit replenishment vr) replenishment (current_visible_slot_number vr) =
    inl (mk limit 0 replenishment (current_visible_slot_number vr)).
Proof.
  intros Hl Hr. unfold on_transfer. cbn. unfold current_limit_with_replenishment. cbn.
  rewrite N.leb_refl. cbn. unfold Amount.checked_sub, checked_sub. rewrite N.leb_refl. by rewrite N.sub_diag.
Qed.
End Claims.

Definition demo_kind : StoredTokenKind := StoredSynthetic (repeat 3 32) 9 6 (repeat 4 32).

Lemma warp_amount_roundtrip_witness :
  exists y, inbound_amount (Sp := test_spec) demo_kind (to_be_bytes 32 12) = inl y /\ y <= 12345.
Proof.
  destruct (warp_amount_roundtrip (Sp := test_spec) demo_kind 12345 (to_be_bytes 32 12))
    as (_ & _ & y & Hy & Hle & _); [vm_compute; discriminate|by vm_compute|]. by exists y.
Defined.

Lemma rate_limit_bound_witness :
  fst (run (Sp := test_spec) (mk 100 50 10 3) [(50, 3); (20, 4); (5, 5); (100, 9)]) <= 50 + 10 * (9 - 3).
Proof. apply (rate_limit_bound (Sp := test_spec)). cbn. lia. Defined.

Lemma first_slot_exceeds_limit_witness :
  exists l, on_transfer (Sp := test_spec) (new 100 1000 (mkVersion 1 7)) 1000 7 = inl l.
Proof.
  pose proof (first_slot_exceeds_limit (Sp := test_spec) 100 1000 (mkVersion 1 7) ltac:(lia) ltac:(vm_compute; discriminate)) as Ho.
  by eexists.
Defined.
End LimitProperties.
