(* ===== verification/HyperlaneWarpProofs.v ===== *)
(** * Warp routes: the effects of the operations

    - [keeps]: what every step of the bank promises to the routes, whose tokens
      are held by derived holders and whose synthetic tokens have no user among
      their admins;
    - the rate limiter: what it lets through;
    - the rules of the calls of the warp module, of the mailbox and of the gas
      paymaster, in terms of [keeps] and of the state items they change. *)

From Stdlib Require Import NArith Lia.
From stdpp Require Import base numbers gmap strings option list.
From S2P Require Import Prelude Ints Gas StateAccess Bank Hyperlane HyperlaneProperties HyperlaneMerkle HyperlaneIgp.
From S2P Require Import HyperlaneMailbox HyperlaneWarp.

(** ** The bank, seen from the routes *)
Module RouteBank.
Import Bank BankFacts BankTheorems.
Section Keeps.
Context {Sp : Spec}.
Implicit Types (b : Bank.t) (rid : HexHash).

(** No holder in [P] loses tokens, and a token whose only admin is a derived
    holder keeps that admin and gets no new supply. *)
Record keeps (P : TokenHolder -> Prop) b b' : Prop := mkKeeps {
  keeps_balance : forall h tid, P h -> balance b h tid <= balance b' h tid;
  keeps_token : forall rid tid tk, tokens b !! tid = Some tk -> admins tk = [HolderDerived rid] ->
    exists tk', tokens b' !! tid = Some tk' /\ admins tk' = [HolderDerived rid] /\ total_supply tk' <= total_supply tk
}.

(** The holders that are not users, and those of the routes. *)
Definition not_user (h : TokenHolder) : Prop := forall a, h <> HolderUser a.
Definition derived (h : TokenHolder) : Prop := exists rid, h = HolderDerived rid.

Lemma derived_not_user h : derived h -> not_user h.
Proof. by intros [rid ->]. Qed.

Lemma route_keeps_weaken (P P' : TokenHolder -> Prop) b b' : (forall h, P' h -> P h) -> keeps P b b' -> keeps P' b b'.
Proof. intros HP [Hb Ht]. split; auto. Qed.

#[global] Instance keeps_refl P : Reflexive (keeps P).
Proof. intros b. split; [done|]. intros rid tid tk Ht Ha. by exists tk. Qed.

#[global] Instance keeps_trans P : Transitive (keeps P).
Proof.
  intros b1 b2 b3 [H1 T1] [H2 T2]. split.
  - intros h tid Hh. specialize (H1 h tid Hh). specialize (H2 h tid Hh). lia.
  - intros rid tid tk Ht Ha. destruct (T1 rid tid tk Ht Ha) as (tk2 & Ht2 & Ha2 & Hs2).
    destruct (T2 rid tid tk2 Ht2 Ha2) as (tk3 & Ht3 & Ha3 & Hs3). exists tk3. split_and!; [done|done|lia].
Qed.

Lemma keeps_transferred (P : TokenHolder -> Prop) b from to tid amt :
  ~ P from -> amt <= balance b from tid -> keeps P b (transferred b from to tid amt).
Proof.
  intros Hf Hamt. split.
  - intros h tid' Hh. rewrite balance_transferred by done. repeat case_bool_decide; naive_solver lia.
  - intros rid tid' tk Ht Ha. rewrite tokens_transferred. by exists tk.
Qed.

Lemma user_not_kept a : ~ not_user (HolderUser a).
Proof. intros Hn. by apply (Hn a). Qed.

Lemma keeps_emitted P b ev : keeps P b (emitted ev b).
Proof. split; [done|]. intros rid tid tk Ht Ha. by exists tk. Qed.

(** An update of one token that leaves its admins and does not raise its supply. *)
Lemma keeps_update b tid tk tk' a v ev :
  tokens b !! tid = Some tk -> admins tk' = admins tk -> total_supply tk' <= total_supply tk ->
  keeps not_user b (set_balances (<[(HolderUser a, tid) := v]> (balances b)) (with_token b tid tk' ev)).
Proof.
  intros Htk Ha Hs. split.
  - intros h tid' Hh. rewrite balance_update. case_bool_decide as Hc; [|done]. destruct Hc as [-> ->].
    exfalso. by apply (Hh a).
  - intros rid tid' tk0 Ht0 Ha0. cbn. destruct (decide (tid' = tid)) as [->|Hne].
    + rewrite lookup_insert_eq. exists tk'. simplify_eq. split_and!; congruence || done.
    + rewrite lookup_insert_ne by done. by exists tk0.
Qed.

Lemma keeps_burned b tk coins a :
  tokens b !! token_id coins = Some tk -> keeps not_user b (burned b tk coins (HolderUser a)).
Proof. intros Htk. apply (keeps_update _ _ tk); [done|done|cbn; lia]. Qed.

Lemma keeps_created P b tid tk to minter :
  inv b -> tokens b !! tid = None -> keeps P b (created b tid tk to minter).
Proof.
  intros Hinv Htk. split.
  - intros h tid' _. unfold created. rewrite balance_update. case_bool_decide as Hc; [|done]. destruct Hc as [-> ->].
    pose proof (balance_bound b to tid Hinv) as Hb. unfold supply in Hb. rewrite Htk in Hb. lia.
  - intros rid tid' tk0 Ht0 Ha0. cbn. rewrite lookup_insert_ne by congruence. by exists tk0.
Qed.

(** Calls of users have no other effect on the routes. *)
Lemma keeps_effect c b msg b' : inv b -> effect c b msg b' -> keeps not_user b b'.
Proof.
  intros Hinv Heff. split; [intros h tid Hh; eapply effect_balance_other; [done|done|apply Hh]|].
  intros rid tid tk Ht Ha. destruct Heff; cbn; rewrite ?tokens_transferred; try (by exists tk).
  - exists tk. rewrite lookup_insert_ne; [done|]. congruence.
  - destruct (decide (token_id coins = tid)) as [<-|Hne]; [|rewrite lookup_insert_ne by done; by exists tk].
    simplify_eq. rewrite lookup_insert_eq. eexists. split_and!; [done|exact Ha|cbn; lia].
  - destruct (decide (token_id coins = tid)) as [<-|Hne]; [|rewrite lookup_insert_ne by done; by exists tk].
    exfalso. simplify_eq. rewrite Ha in *. set_solver.
  - destruct (decide (tid0 = tid)) as [<-|Hne]; [|rewrite lookup_insert_ne by done; by exists tk].
    exfalso. simplify_eq. rewrite Ha in *. set_solver.
  - destruct (decide (tid0 = tid)) as [<-|Hne]; [|rewrite lookup_insert_ne by done; by exists tk].
    exfalso. simplify_eq. rewrite Ha in *. destruct i; cbn in *; [congruence|done].
Qed.

(** *** What [handle] does to the bank *)

(** The token a route moves. *)
Definition moved_token (k : StoredTokenKind) : TokenId :=
  match k with StoredSynthetic _ _ _ tid => tid | StoredCollateral tid => tid | StoredNative => config_gas_token_id end.

(** [b'] is [b] after [amount] of the route's token went to the user [to]. *)
Definition paid_out (k : StoredTokenKind) rid (to : Address) (amount : N) b b' : Prop :=
  match k with
  | StoredSynthetic _ _ _ tid =>
      exists tk, tokens b !! tid = Some tk /\ HolderDerived rid ∈ admins tk /\
        total_supply tk + amount <= supply_cap tk /\
        b' = minted b tk (mkCoins amount tid) (HolderUser to) (HolderDerived rid)
  | _ =>
      amount <= balance b (HolderDerived rid) (moved_token k) /\
      b' = transferred b (HolderDerived rid) (HolderUser to) (moved_token k) amount
  end.

Lemma paid_out_received k rid to amount b b' :
  paid_out k rid to amount b b' ->
  balance b' (HolderUser to) (moved_token k) = balance b (HolderUser to) (moved_token k) + amount.
Proof.
  destruct k as [r l d tid|tid|]; cbn.
  - intros (tk & Htk & _ & _ & ->). unfold minted. rewrite balance_update. by rewrite bool_decide_eq_true_2.
  - intros (Hb & ->). rewrite balance_transferred by done. repeat case_bool_decide; naive_solver.
  - intros (Hb & ->). rewrite balance_transferred by done. repeat case_bool_decide; naive_solver.
Qed.

(** What left the route between two states: new supply of a synthetic token,
    or tokens the route held. *)
Definition outflow (k : StoredTokenKind) rid b b' : N :=
  match k with
  | StoredSynthetic _ _ _ tid => supply b' tid - supply b tid
  | StoredCollateral tid => balance b (HolderDerived rid) tid - balance b' (HolderDerived rid) tid
  | StoredNative =>
      balance b (HolderDerived rid) config_gas_token_id - balance b' (HolderDerived rid) config_gas_token_id
  end.

(** The token of a synthetic route has the route as its only admin. *)
Definition route_token (k : StoredTokenKind) rid b : Prop :=
  match k with
  | StoredSynthetic _ _ _ tid => exists tk, tokens b !! tid = Some tk /\ admins tk = [HolderDerived rid]
  | _ => True
  end.

Lemma outflow_keeps k rid b b' : route_token k rid b -> keeps derived b b' -> outflow k rid b b' = 0.
Proof.
  intros Hr [Hb Ht]. destruct k as [r l d tid|tid|]; cbn.
  - destruct Hr as (tk & Htk & Ha). destruct (Ht _ _ _ Htk Ha) as (tk' & Htk' & _ & Hs).
    rewrite (supply_token _ _ _ Htk), (supply_token _ _ _ Htk'). lia.
  - specialize (Hb (HolderDerived rid) tid (ex_intro _ rid eq_refl)). lia.
  - specialize (Hb (HolderDerived rid) config_gas_token_id (ex_intro _ rid eq_refl)). lia.
Qed.

Lemma route_token_keeps P k rid b b' : keeps P b b' -> route_token k rid b -> route_token k rid b'.
Proof.
  intros [_ Ht] Hr. destruct k as [r l d tid|tid|]; cbn in *; [|done..].
  destruct Hr as (tk & Htk & Ha). destruct (Ht _ _ _ Htk Ha) as (tk' & Htk' & Ha' & _). by exists tk'.
Qed.

Lemma inv_route_paid_out k rid to amount b b' : inv b -> paid_out k rid to amount b b' -> inv b'.
Proof.
  intros Hinv. destruct k; cbn.
  - intros (tk & Htk & _ & Hcap & ->). by apply inv_minted.
  - intros (Hb & ->). by apply inv_transferred.
  - intros (Hb & ->). by apply inv_transferred.
Qed.

Lemma route_token_paid_out k rid to amount b b' k' rid' :
  paid_out k rid to amount b b' -> route_token k' rid' b -> route_token k' rid' b'.
Proof.
  intros Hp. destruct k' as [r' l' d' tid'|tid'|]; cbn; [|done..]. intros (tk' & Htk' & Ha').
  destruct k as [r l d tid|tid|]; cbn in Hp.
  - destruct Hp as (tk & Htk & _ & _ & ->). cbn. destruct (decide (tid' = tid)) as [->|Hne].
    + rewrite lookup_insert_eq. eexists. split; [done|]. cbn. congruence.
    + rewrite lookup_insert_ne by done. by exists tk'.
  - destruct Hp as (_ & ->). rewrite tokens_transferred. by exists tk'.
  - destruct Hp as (_ & ->). rewrite tokens_transferred. by exists tk'.
Qed.

(** Modules lose nothing. *)
Lemma paid_out_module k rid to amount b b' m tid :
  paid_out k rid to amount b b' -> balance b (HolderModule m) tid <= balance b' (HolderModule m) tid.
Proof.
  destruct k as [r l d tid'|tid'|]; cbn.
  - intros (tk & Htk & _ & _ & ->). unfold minted. rewrite balance_update.
    rewrite bool_decide_eq_false_2 by naive_solver. lia.
  - intros (Hb & ->). rewrite balance_transferred by done. repeat case_bool_decide; naive_solver lia.
  - intros (Hb & ->). rewrite balance_transferred by done. repeat case_bool_decide; naive_solver lia.
Qed.

(** A payment is an outflow of its own route, and of no other. *)
Lemma outflow_paid_out k rid to amount b b' k' rid' :
  route_token k rid b -> route_token k' rid' b -> paid_out k rid to amount b b' ->
  outflow k' rid' b b' = 0 \/ (rid' = rid /\ outflow k' rid' b b' = amount).
Proof.
  intros Hr Hr' Hp. destruct k as [r l d tid|tid|]; cbn in Hp.
  - destruct Hp as (tk & Htk & Hadm & _ & ->). destruct k' as [r' l' d' tid'|tid'|]; cbn [outflow].
    + destruct Hr' as (tk' & Htk' & Ha'). unfold minted. rewrite supply_update. case_bool_decide as Hc; [|left; lia].
      cbn in Hc. subst tid'. simplify_eq. right. rewrite (supply_token _ _ _ Htk'). cbn.
      rewrite Ha' in Hadm. apply list_elem_of_singleton in Hadm. injection Hadm as ->. split; [done|lia].
    + left. unfold minted. rewrite balance_update. rewrite bool_decide_eq_false_2 by naive_solver. lia.
    + left. unfold minted. rewrite balance_update. rewrite bool_decide_eq_false_2 by naive_solver. lia.
  - destruct Hp as (Hb & ->). destruct k' as [r' l' d' tid'|tid'|]; cbn [outflow].
    + left. rewrite supply_transferred. lia.
    + rewrite balance_transferred by done. repeat case_bool_decide; naive_solver lia.
    + rewrite balance_transferred by done. repeat case_bool_decide; naive_solver lia.
  - destruct Hp as (Hb & ->). destruct k' as [r' l' d' tid'|tid'|]; cbn [outflow].
    + left. rewrite supply_transferred. lia.
    + rewrite balance_transferred by done. repeat case_bool_decide; naive_solver lia.
    + rewrite balance_transferred by done. repeat case_bool_decide; naive_solver lia.
Qed.
End Keeps.
End RouteBank.

(** ** The routes and their routers *)
Module RouteFacts.
Import Warp RouteBank.
Section Routes.
Context {Sp : Spec}.
Implicit Types (w : Warp.t) (s : rstate Warp.t) (rid : HexHash).

(** The destinations of a route in the state. *)
Definition enrolled_of w rid : list N :=
  match warp_routes w !! rid with Some r => enrolled_destinations r | None => [] end.

(** There is a router for exactly the destinations in [f]. *)
Definition routers_are w (f : HexHash -> list N) : Prop :=
  (forall rid d, is_Some (routers w !! (rid, d)) <-> d ∈ f rid) /\ forall rid, NoDup (f rid).

Definition tokens_ok s : Prop :=
  forall rid r, warp_routes (r_self s) !! rid = Some r -> route_token (token_source r) rid (r_bank s).

(** The invariant of the module and its bank. *)
Record warp_ok s : Prop := mkWarpOk {
  wo_bank : Bank.inv (r_bank s);
  wo_routers : routers_are (r_self s) (enrolled_of (r_self s));
  wo_tokens : tokens_ok s
}.

Definition with_routes (m : gmap HexHash WarpRouteInstance) w : Warp.t := mk m (routers w) (events w).

Lemma routers_are_ext w w' f g :
  routers w' = routers w -> (forall rid, f rid = g rid) -> routers_are w f -> routers_are w' g.
Proof.
  intros Hr Hfg [Hi Hn]. split.
  - intros rid d. by rewrite Hr, <- Hfg.
  - intros rid. by rewrite <- Hfg.
Qed.

Definition plus (f : HexHash -> list N) rid (d : N) : HexHash -> list N :=
  fun x => if decide (x = rid) then f rid ++ [d] else f x.

Lemma routers_are_enroll w w' f rid d a :
  routers_are w f -> routers w !! (rid, d) = None -> routers w' = <[(rid, d) := a]> (routers w) ->
  routers_are w' (plus f rid d).
Proof.
  intros [Hi Hn] Hnone Hw. assert (d ∉ f rid) as Hd by (rewrite <- Hi, Hnone; by intros []).
  unfold plus. split.
  - intros x d'. rewrite Hw. case_decide as Hx.
    + subst x. destruct (decide (d' = d)) as [->|Hne].
      * rewrite lookup_insert_eq. set_solver.
      * rewrite lookup_insert_ne by congruence. rewrite Hi. set_solver.
    + rewrite lookup_insert_ne by congruence. apply Hi.
  - intros x. case_decide; [|done]. apply NoDup_app. split_and!; [done|set_solver|apply NoDup_singleton].
Qed.

(** A route replaced by one with the same token. *)
Lemma tokens_ok_set s s' rid r :
  tokens_ok s -> r_bank s' = r_bank s -> warp_routes (r_self s') = <[rid := r]> (warp_routes (r_self s)) ->
  route_token (token_source r) rid (r_bank s) -> tokens_ok s'.
Proof.
  intros Ht Hb Hw Hr rid' r'. rewrite Hw, Hb. destruct (decide (rid' = rid)) as [->|Hne].
  - rewrite lookup_insert_eq. by intros [= <-].
  - rewrite lookup_insert_ne by done. apply Ht.
Qed.

Lemma enrolled_of_set w m rid r x :
  m = <[rid := r]> (warp_routes w) ->
  enrolled_of (with_routes m w) x = if decide (x = rid) then enrolled_destinations r else enrolled_of w x.
Proof.
  intros ->. unfold enrolled_of. cbn. case_decide as Hx.
  - subst. by rewrite lookup_insert_eq.
  - by rewrite lookup_insert_ne.
Qed.

(** Replacing a route with one that has the same destinations and token. *)
Lemma warp_ok_replace s rid r r' :
  warp_ok s -> warp_routes (r_self s) !! rid = Some r -> token_source r' = token_source r ->
  enrolled_destinations r' = enrolled_destinations r ->
  warp_ok (set_self (with_routes (<[rid := r']> (warp_routes (r_self s))) (r_self s)) s).
Proof.
  intros [Hb Hr Ht] Hrid Hk He. split; [done| |].
  - cbn. eapply routers_are_ext; [| |exact Hr]; [done|]. intros x. erewrite enrolled_of_set by done.
    case_decide; [|done]. subst. unfold enrolled_of. by rewrite Hrid, He.
  - eapply tokens_ok_set; [exact Ht|done|done|]. rewrite Hk. by apply Ht.
Qed.

(** The bank moves on: the routes keep their tokens. *)
Lemma warp_ok_bank s b :
  warp_ok s -> Bank.inv b ->
  (forall k rid, route_token k rid (r_bank s) -> route_token k rid b) -> warp_ok (set_bank b s).
Proof. intros [Hb Hr Ht] Hinv Hk. split; [done|done|]. intros rid r Hrid. apply Hk. by apply Ht. Qed.

Lemma warp_ok_event s w :
  warp_ok s -> warp_routes w = warp_routes (r_self s) -> routers w = routers (r_self s) -> warp_ok (set_self w s).
Proof.
  intros [Hb Hr Ht] Hw Hrs. split; [done| |].
  - cbn. eapply routers_are_ext; [exact Hrs| |exact Hr]. intros x. unfold enrolled_of. by rewrite Hw.
  - intros rid r. cbn. rewrite Hw. apply Ht.
Qed.
End Routes.
End RouteFacts.

(** ** The rules of the calls *)
Module WarpRules.
Import Warp RouteBank RouteFacts CryptoFacts.
Section Rules.
Context {Sp : Spec} {HS : HyperlaneSpec} {G : Type} `{GasMeterLaws G}.
Implicit Types (w : Warp.t) (s : rstate Warp.t) (rid : HexHash) (c : Context Sp).

(** A call that takes nothing from a route. *)
Definition harmless s s' : Prop := warp_ok s' /\ keeps not_user (r_bank s) (r_bank s').

Definition with_destination (r : WarpRouteInstance) (d : N) : WarpRouteInstance :=
  mkRoute (token_source r) (admin r) (route_ism r) (enrolled_destinations r ++ [d])
    (inbound_rate_limiter r) (outbound_rate_limiter r).

Lemma wp_enroll_unchecked rid d a r (Q : outcome anyhow WarpRouteInstance -> rstate Warp.t -> Prop) s :
  (forall e s', Q (Err e) s') ->
  (routers (r_self s) !! (rid, d) = None ->
     Q (Ok (with_destination r d))
       (set_self (mk (warp_routes (r_self s)) (<[(rid, d) := a]> (routers (r_self s)))
          (events (r_self s) ++ [RouterEnrolled rid d a])) s)) ->
  wp (enroll_remote_router_unchecked rid d a r) Q s.
Proof.
  intros He Hok. unfold enroll_remote_router_unchecked, emit_event. repeat wp_step; auto.
  checked_simpl. apply Hok. by apply eq_None_not_Some.
Qed.

Lemma wp_check_admin r c (Q : outcome anyhow unit -> rstate Warp.t -> Prop) s :
  (forall e, Q (Err e) s) -> (admin r = InsecureOwner (sender c) -> Q (Ok tt) s) -> wp (check_admin r c) Q s.
Proof.
  intros He Hok. unfold check_admin. destruct (admin r); wp_step; auto. checked_simpl. apply Hok. by subst.
Qed.

(** Enrolling a router for a route that is then stored. *)
Lemma harmless_enrolled s s' rid f r :
  warp_ok s -> Bank.inv (r_bank s') -> keeps not_user (r_bank s) (r_bank s') ->
  routers_are (r_self s') f -> warp_routes (r_self s') = warp_routes (r_self s) ->
  (forall x, x <> rid -> f x = enrolled_of (r_self s) x) -> enrolled_destinations r = f rid ->
  route_token (token_source r) rid (r_bank s') ->
  harmless s (set_self (with_routes (<[rid := r]> (warp_routes (r_self s'))) (r_self s')) s').
Proof.
  intros [Hb Hr Ht] Hinv Hk Hf Hw Hx He Htok. split; [|done]. split; [done| |].
  - cbn. eapply routers_are_ext; [| |exact Hf]; [done|]. intros x. erewrite enrolled_of_set by done.
    case_decide as Hd; [by subst|]. rewrite Hx by done. unfold enrolled_of. by rewrite Hw.
  - intros x r'. cbn. destruct (decide (x = rid)) as [->|Hne].
    + rewrite lookup_insert_eq. by intros [= <-].
    + rewrite lookup_insert_ne by done. rewrite Hw. intros Hr'. eapply route_token_keeps; [done|]. by apply Ht.
Qed.

Lemma wp_enroll_remote_router rid d a c (Q : outcome anyhow unit -> rstate Warp.t -> Prop) s :
  warp_ok s -> (forall e s', Q (Err e) s') -> (forall s', harmless s s' -> Q (Ok tt) s') ->
  wp (enroll_remote_router rid d a c) Q s.
Proof.
  intros Hs He Hok. unfold enroll_remote_router. wp_step. wp_step. wp_step; [auto|]. wp_step.
  wp_step; [|auto]. rename a0 into r. match goal with Hr : _ = Some r |- _ => rename Hr into Hrid end.
  wp_step. apply wp_check_admin; wp_red; [auto|]. intros _. wp_step.
  apply wp_enroll_unchecked; wp_red; [auto|]. intros Hnone. wp_step. wp_step; [auto|]. apply Hok.
  cbn [map_read routes_map] in Hrid.
  refine (harmless_enrolled s (set_self _ s) rid (plus (enrolled_of (r_self s)) rid d) (with_destination r d)
    Hs (wo_bank _ Hs) _ _ _ _ _ _).
  - reflexivity.
  - eapply routers_are_enroll; [apply Hs|exact Hnone|done].
  - done.
  - intros x Hx. unfold plus. by rewrite decide_False.
  - unfold plus, enrolled_of. rewrite decide_True by done. by rewrite Hrid.
  - exact (wo_tokens _ Hs rid r Hrid).
Qed.

(** The loop of [register] over the routers. *)
Lemma wp_enroll_all rid f l r (Q : outcome anyhow WarpRouteInstance -> rstate Warp.t -> Prop) s :
  routers_are (r_self s) f -> enrolled_destinations r = f rid ->
  (forall e s', Q (Err e) s') ->
  (forall r' s' g, routers_are (r_self s') g -> (forall x, x <> rid -> g x = f x) ->
     enrolled_destinations r' = g rid -> token_source r' = token_source r ->
     warp_routes (r_self s') = warp_routes (r_self s) -> r_bank s' = r_bank s -> Q (Ok r') s') ->
  wp (fold_m (fun r '(d, a) => enroll_remote_router_unchecked rid d a r) r l) Q s.
Proof.
  intros Hf Hr He Hok.
  apply (wp_fold_m _ (fun _ r' s' => exists g, routers_are (r_self s') g /\ (forall x, x <> rid -> g x = f x) /\
    enrolled_destinations r' = g rid /\ token_source r' = token_source r /\
    warp_routes (r_self s') = warp_routes (r_self s) /\ r_bank s' = r_bank s)).
  - by exists f.
  - intros done [d a] rest r' s' _ (g & Hg & Hgf & Hr' & Hk & Hw & Hb).
    apply wp_enroll_unchecked; wp_red; [auto|]. intros Hnone. exists (plus g rid d). split_and!; try done.
    + by eapply routers_are_enroll.
    + intros x Hx. unfold plus. rewrite decide_False by done. by apply Hgf.
    + unfold plus. rewrite decide_True by done. cbn. by rewrite Hr'.
  - intros r' s' (g & Hg & Hgf & Hr' & Hk & Hw & Hb). by eapply Hok.
Qed.

Lemma wp_deploy_synthetic rid decimals (Q : outcome anyhow TokenId -> rstate Warp.t -> Prop) s :
  Bank.inv (r_bank s) -> (forall e s', Q (Err e) s') ->
  (forall tid b, Bank.inv b -> keeps not_user (r_bank s) b ->
     (exists tk, Bank.tokens b !! tid = Some tk /\ Bank.admins tk = [HolderDerived rid]) ->
     Q (Ok tid) (set_bank b s)) ->
  wp (deploy_synthetic_token rid decimals) Q s.
Proof.
  intros Hinv He Hok. unfold deploy_synthetic_token, on_bank. wp_step. wp_step.
  apply BankFacts.wp_create_token; wp_red; [auto|]. cbv zeta. intros Hnone _ _.
  apply Hok; [|by apply keeps_created|].
  - apply BankFacts.inv_created; [done|done|]. split_and!; [done|done|]. cbn. apply NoDup_singleton.
  - eexists. split; [apply lookup_insert_eq|done].
Qed.

Lemma wp_generate_route_id k dep (Q : outcome anyhow HexHash -> rstate Warp.t -> Prop) s :
  (forall e, Q (Err e) s) -> (forall rid, Q (Ok rid) s) -> wp (generate_route_id k dep) Q s.
Proof.
  intros He Hok. unfold generate_route_id. destruct (id_and_kind k).
  wp_step. apply wp_charge_hashing; wp_red; [auto|]. by wp_step.
Qed.

(** The token of a new route. *)
Lemma wp_register_token rid k (Q : outcome anyhow StoredTokenKind -> rstate Warp.t -> Prop) s :
  Bank.inv (r_bank s) -> (forall e s', Q (Err e) s') ->
  (forall k' b, Bank.inv b -> keeps not_user (r_bank s) b -> route_token k' rid b -> Q (Ok k') (set_bank b s)) ->
  wp (match k with
      | Synthetic remote_token_id remote_decimals local_decimals =>
          let local_decimals := default remote_decimals local_decimals in
          let! local_token_id := deploy_synthetic_token rid local_decimals in
          ret (StoredSynthetic remote_token_id local_decimals remote_decimals local_token_id)
      | Collateral token => ret (StoredCollateral token)
      | Native => ret StoredNative
      end) Q s.
Proof.
  intros Hinv He Hok. destruct s as [w b]. destruct k.
  - cbv zeta. wp_step. apply wp_deploy_synthetic; wp_red; [done|auto|]. intros tid b' Hb' Hk Htk. wp_step. by apply Hok.
  - wp_step. by apply (Hok (StoredCollateral token) b).
  - wp_step. by apply (Hok StoredNative b).
Qed.

Lemma wp_route_register vr adm k i rs il ir ol or c (Q : outcome anyhow unit -> rstate Warp.t -> Prop) s :
  warp_ok s -> (forall e s', Q (Err e) s') -> (forall s', harmless s s' -> Q (Ok tt) s') ->
  wp (register vr adm k i rs il ir ol or c) Q s.
Proof.
  intros Hs He Hok. unfold register. wp_step. apply wp_generate_route_id; wp_red; [auto|]. intros rid.
  wp_step. wp_step. wp_step; [auto|]. wp_step. wp_step; [|auto]. checked_simpl.
  match goal with Hn : ~ is_Some _ |- _ => apply eq_None_not_Some in Hn; cbn [map_read routes_map] in Hn; rename Hn into Hnone end.
  wp_step. apply wp_register_token; wp_red; [apply Hs|auto|]. intros k' b Hb Hk Htok.
  wp_step. unfold emit_event. wp_step. wp_step.
  eapply (wp_enroll_all rid (enrolled_of (r_self s))); wp_red; [|by cbn; unfold enrolled_of; rewrite Hnone|auto|].
  { eapply routers_are_ext; [| |apply Hs]; done. }
  intros r s' g Hg Hgf Hr Hkr Hw Hbk. wp_step. wp_step; [auto|]. apply Hok.
  apply (harmless_enrolled s s' rid g r Hs); cbn in *; try done; by rewrite ?Hbk, ?Hkr.
Qed.

Lemma wp_update vr rid adm i il ir ol or c (Q : outcome anyhow unit -> rstate Warp.t -> Prop) s :
  warp_ok s -> (forall e s', Q (Err e) s') -> (forall s', harmless s s' -> Q (Ok tt) s') ->
  wp (update vr rid adm i il ir ol or c) Q s.
Proof.
  intros Hs He Hok. unfold update. wp_step. wp_step. wp_step; [auto|]. wp_step. wp_step; [|auto].
  rename a into r. match goal with Hr : _ = Some r |- _ => rename Hr into Hrid; cbn [map_read routes_map] in Hrid end.
  wp_step. wp_step; [|auto]. wp_step. apply wp_check_admin; wp_red; [auto|]. intros _.
  wp_step. wp_step. wp_step; [auto|].
  assert (forall b e (Q1 : outcome anyhow unit -> rstate Warp.t -> Prop) s1,
    harmless s s1 -> (forall s', harmless s s' -> Q1 (Ok tt) s') ->
    wp (if b : bool then emit_event e else ret tt) Q1 s1) as Hev.
  { intros b e Q1 s1 [Hw1 Hk1] HQ1. destruct b; unfold emit_event; wp_step; apply HQ1; [|done].
    split; [by apply warp_ok_event|done]. }
  wp_step. apply Hev; wp_red.
  - split; [|done]. apply (warp_ok_replace s rid r); done.
  - intros s1 Hs1. wp_step. apply Hev; wp_red; [done|]. intros s2 Hs2. by apply Hev.
Qed.

Lemma routers_are_unenroll w w' f rid i d :
  routers_are w f -> f rid !! i = Some d -> routers w' = delete (rid, d) (routers w) ->
  routers_are w' (fun x => if decide (x = rid) then delete i (f rid) else f x).
Proof.
  intros [Hi Hn] Hd Hw. split.
  - intros x d'. rewrite Hw. case_decide as Hx.
    + subst x. destruct (decide (d' = d)) as [->|Hne].
      * rewrite lookup_delete_eq. split; [by intros []|]. intros Hin. exfalso.
        specialize (Hn rid). apply list_elem_of_lookup in Hin as [j Hj]. rewrite list_lookup_delete in Hj.
        case_match; eapply NoDup_lookup in Hd; [|exact Hn|exact Hj| |exact Hn|exact Hj]; lia.
      * rewrite lookup_delete_ne by congruence. rewrite Hi. split; intros Hin.
        -- apply list_elem_of_lookup in Hin as [j Hj]. apply list_elem_of_lookup.
           destruct (decide (j < i)%nat).
           ++ exists j. by rewrite list_lookup_delete_lt.
           ++ assert (j <> i) by congruence. exists (j - 1)%nat. rewrite list_lookup_delete_ge by lia.
              rewrite <- Hj. f_equal. lia.
        -- by eapply list_elem_of_delete_inv.
    + rewrite lookup_delete_ne by congruence. apply Hi.
  - intros x. case_decide; [|done]. by apply NoDup_list_delete.
Qed.

(** Every destination of a route has its router: the check after the position
    is found never fails. *)
Lemma wp_unenroll_remote_router rid d c (Q : outcome anyhow unit -> rstate Warp.t -> Prop) s :
  warp_ok s -> (forall e s', Q (Err e) s') -> (forall s', harmless s s' -> Q (Ok tt) s') ->
  wp (unenroll_remote_router rid d c) Q s.
Proof.
  intros Hs He Hok. unfold unenroll_remote_router. wp_step. wp_step. wp_step; [auto|]. wp_step. wp_step; [|auto].
  rename a into r. match goal with Hr : _ = Some r |- _ => rename Hr into Hrid; cbn [map_read routes_map] in Hrid end.
  wp_step. apply wp_check_admin; wp_red; [auto|]. intros _. wp_step. wp_step; [|auto].
  rename a into i. match goal with Hp : fst <$> _ = Some i |- _ => rename Hp into Hpos end.
  apply fmap_Some in Hpos as ([j d'] & Hf & ->). apply list_find_Some in Hf as (Hj & -> & _). cbn [fst].
  wp_step. wp_step. wp_step; [auto|]. wp_step. wp_step. wp_step; [auto|]. wp_step. wp_step; [|auto].
  wp_step. wp_step. wp_step; [auto|]. unfold emit_event. wp_step. apply Hok.
  assert (enrolled_of (r_self s) rid = enrolled_destinations r) as Hen by (unfold enrolled_of; by rewrite Hrid).
  split; [|done]. split; [apply Hs| |].
  - cbn. eapply routers_are_ext; [| |eapply (routers_are_unenroll (r_self s)); [apply Hs|by rewrite Hen|]]; [done| |done].
    intros x. unfold enrolled_of. cbn. case_decide as Hx.
    + subst x. by rewrite lookup_insert_eq, Hrid.
    + by rewrite lookup_insert_ne.
  - eapply tokens_ok_set; [apply Hs|done|done|]. exact (wo_tokens _ Hs rid r Hrid).
Qed.

(** *** Sending *)

(** [b'] is [b] after [a] gave [amount] of the route's token to the route. *)
Definition taken_in (k : StoredTokenKind) rid (a : Address) (amount : N) (b b' : Bank.t) : Prop :=
  match k with
  | StoredSynthetic _ _ _ tid =>
      exists tk, Bank.tokens b !! tid = Some tk /\ amount <= Bank.total_supply tk /\
        amount <= Bank.balance b (HolderUser a) tid /\ b' = Bank.burned b tk (Bank.mkCoins amount tid) (HolderUser a)
  | StoredCollateral tid =>
      amount <= Bank.balance b (HolderUser a) tid /\
      b' = Bank.emitted (Bank.TokenTransferred (HolderUser a) (HolderDerived rid) (Bank.mkCoins amount tid) None)
             (Bank.transferred b (HolderUser a) (HolderDerived rid) tid amount)
  | StoredNative =>
      amount <= Bank.balance b (HolderUser a) config_gas_token_id /\
      b' = Bank.emitted (Bank.TokenTransferred (HolderUser a) (HolderDerived rid)
                           (Bank.mkCoins amount config_gas_token_id) None)
             (Bank.transferred b (HolderUser a) (HolderDerived rid) config_gas_token_id amount)
  end.

Lemma inv_taken_in k rid a amount b b' : Bank.inv b -> taken_in k rid a amount b b' -> Bank.inv b'.
Proof.
  intros Hinv. destruct k; cbn.
  - intros (tk & Htk & Hs & Hb & ->). by apply BankFacts.inv_burned.
  - intros [Hb ->]. by apply IgpFacts.inv_igp_emitted, BankFacts.inv_transferred.
  - intros [Hb ->]. by apply IgpFacts.inv_igp_emitted, BankFacts.inv_transferred.
Qed.

Lemma keeps_taken_in k rid a amount b b' : taken_in k rid a amount b b' -> keeps not_user b b'.
Proof.
  destruct k; cbn.
  - intros (tk & Htk & Hs & Hb & ->). by apply keeps_burned.
  - intros [Hb ->]. etransitivity; [|apply keeps_emitted]. apply keeps_transferred; [apply user_not_kept|done].
  - intros [Hb ->]. etransitivity; [|apply keeps_emitted]. apply keeps_transferred; [apply user_not_kept|done].
Qed.

Lemma wp_take_in k rid amount c (Q : outcome anyhow unit -> rstate Warp.t -> Prop) s :
  Bank.inv (r_bank s) -> (forall e s', Q (Err e) s') ->
  (forall b, taken_in k rid (sender c) amount (r_bank s) b -> Q (Ok tt) (set_bank b s)) ->
  wp (match k with
      | StoredSynthetic _ _ _ local_token_id =>
          map_err BurnE (on_bank (Bank.burn (Bank.mkCoins amount local_token_id) (HolderUser (sender c))))
      | StoredCollateral token =>
          map_err TransferE (on_bank (Bank.transfer (HolderDerived rid) (Bank.mkCoins amount token) c))
      | StoredNative =>
          map_err TransferE (on_bank (Bank.transfer (HolderDerived rid) (Bank.mkCoins amount config_gas_token_id) c))
      end) Q s.
Proof.
  intros Hinv He Hok. destruct k; unfold on_bank, Bank.transfer; wp_step; wp_step.
  - apply BankFacts.wp_burn; wp_red; [auto|]. intros tk Htk Hs Hb. apply Hok. by exists tk.
  - apply BankFacts.wp_transfer_with_memo; wp_red; [done|auto|]. cbv zeta. intros Hb. by apply Hok.
  - apply BankFacts.wp_transfer_with_memo; wp_red; [done|auto|]. cbv zeta. intros Hb. by apply Hok.
Qed.

Definition with_inbound (r : WarpRouteInstance) (l : RateLimiter.t) : WarpRouteInstance :=
  mkRoute (token_source r) (admin r) (route_ism r) (enrolled_destinations r) l (outbound_rate_limiter r).
Definition with_outbound (r : WarpRouteInstance) (l : RateLimiter.t) : WarpRouteInstance :=
  mkRoute (token_source r) (admin r) (route_ism r) (enrolled_destinations r) (inbound_rate_limiter r) l.

(** What a transfer to a remote chain requires and does. *)
Record sends vr rid (d : N) (to : HexHash) (amount : N) c s (remote : HexHash) (body : HexString) s' : Prop := mkSends {
  sends_route : WarpRouteInstance;
  sends_limiter : RateLimiter.t;
  sends_bank : Bank.t;
  sends_amount : list N;
  sends_found : warp_routes (r_self s) !! rid = Some sends_route;
  sends_limit : RateLimiter.on_transfer (outbound_rate_limiter sends_route) amount (current_visible_slot_number vr) = inl sends_limiter;
  sends_router : routers (r_self s) !! (rid, d) = Some remote;
  sends_taken : taken_in (token_source sends_route) rid (sender c) amount (r_bank s) sends_bank;
  sends_remote_amount : outbound_amount (token_source sends_route) amount = inl sends_amount;
  sends_body : body = to ++ sends_amount;
  sends_state : s' = mkR (mk (<[rid := with_outbound sends_route sends_limiter]> (warp_routes (r_self s)))
    (routers (r_self s)) (events (r_self s) ++ [TokenTransferredRemote rid d to sends_amount])) sends_bank
}.

Lemma wp_send_tokens vr rid d to amount c (Q : outcome anyhow (HexHash * HexString) -> rstate Warp.t -> Prop) s :
  Bank.inv (r_bank s) -> (forall e s', Q (Err e) s') ->
  (forall remote body s', sends vr rid d to amount c s remote body s' -> Q (Ok (remote, body)) s') ->
  wp (send_tokens vr rid d to amount c) Q s.
Proof.
  intros Hinv He Hok. unfold send_tokens. wp_step. wp_step. wp_step; [auto|]. wp_step. wp_step; [|auto].
  rename a into r. match goal with Hr : _ = Some r |- _ => rename Hr into Hrid; cbn [map_read routes_map] in Hrid end.
  wp_step. wp_step; [|auto]. rename a into lim.
  wp_step. wp_step. wp_step; [auto|]. wp_step. wp_step. wp_step; [auto|]. wp_step. wp_step; [|auto]. rename a into remote.
  wp_step. apply wp_take_in; wp_red; [done|auto|]. intros b Hb.
  wp_step. wp_step; [|auto]. rename a into body. wp_step. wp_step; [|auto]. rename a into amt.
  unfold emit_event. wp_step. wp_step. wp_step.
  match goal with Hp : pack_transfer_body _ _ _ = inl _, Ho : outbound_amount _ _ = inl _ |- _ =>
    unfold pack_transfer_body in Hp; rewrite Ho in Hp; injection Hp as <- end.
  apply Hok. by econstructor.
Qed.

Lemma sends_harmless vr rid d to amount c s remote body s' :
  warp_ok s -> sends vr rid d to amount c s remote body s' -> harmless s s'.
Proof.
  intros Hs [r lim b amt Hrid Hlim Hrouter Htaken Hamt _ ->].
  assert (keeps not_user (r_bank s) b) as Hk by by eapply keeps_taken_in.
  split; [|done]. pose proof (warp_ok_replace s rid r (with_outbound r lim) Hs Hrid eq_refl eq_refl) as H1.
  apply (warp_ok_bank _ b) in H1.
  - by apply (warp_ok_event _ (mk (<[rid := with_outbound r lim]> (warp_routes (r_self s)))
    (routers (r_self s)) (events (r_self s) ++ [TokenTransferredRemote rid d to amt]))) in H1.
  - eapply inv_taken_in; [apply Hs|done].
  - intros k x. by apply (route_token_keeps not_user).
Qed.

(** *** Receiving *)

Lemma wp_pay_out k rid amount a (Q : outcome anyhow unit -> rstate Warp.t -> Prop) s :
  Bank.inv (r_bank s) -> (forall e s', Q (Err e) s') ->
  (forall b, paid_out k rid a amount (r_bank s) b -> Q (Ok tt) (set_bank b s)) ->
  wp (match k with
      | StoredSynthetic _ _ _ local_token_id =>
          map_err MintE (on_bank (Bank.mint (Bank.mkCoins amount local_token_id) (HolderUser a) (HolderDerived rid)))
      | StoredCollateral token =>
          map_err TransferE (on_bank (Bank.transfer_from (HolderDerived rid) (HolderUser a) (Bank.mkCoins amount token)))
      | StoredNative =>
          map_err TransferE
            (on_bank (Bank.transfer_from (HolderDerived rid) (HolderUser a) (Bank.mkCoins amount config_gas_token_id)))
      end) Q s.
Proof.
  intros Hinv He Hok. destruct k; unfold on_bank, Bank.transfer_from; wp_step; wp_step.
  - apply BankFacts.wp_mint; wp_red; [auto|]. intros tk Htk Ha Hs. apply Hok. by exists tk.
  - apply BankFacts.wp_do_transfer; wp_red; [done|auto|auto|]. intros Hb. by apply Hok.
  - apply BankFacts.wp_do_transfer; wp_red; [done|auto|auto|]. intros Hb. by apply Hok.
Qed.

(** What the delivery of a message to a route requires and does. *)
Record receives vr (origin : N) (from : HexHash) rid (body : HexString) s s' : Prop := mkReceives {
  rcv_route : WarpRouteInstance;
  rcv_limiter : RateLimiter.t;
  rcv_bank : Bank.t;
  rcv_to : HexHash;
  rcv_user : Address;
  rcv_amount : N;
  rcv_found : warp_routes (r_self s) !! rid = Some rcv_route;
  rcv_router : routers (r_self s) !! (rid, origin) = Some from;
  rcv_body : unpack_transfer_body body (token_source rcv_route) = inl (rcv_to, rcv_amount);
  rcv_limit : RateLimiter.on_transfer (inbound_rate_limiter rcv_route) rcv_amount (current_visible_slot_number vr) = inl rcv_limiter;
  rcv_address : from_sender rcv_to = Some rcv_user;
  rcv_paid : paid_out (token_source rcv_route) rid rcv_user rcv_amount (r_bank s) rcv_bank;
  rcv_state : s' = mkR (mk (<[rid := with_inbound rcv_route rcv_limiter]> (warp_routes (r_self s)))
    (routers (r_self s)) (events (r_self s) ++ [TokenTransferReceived rid origin rcv_to rcv_amount])) rcv_bank
}.

Lemma wp_warp_handle vr origin from rid body (Q : outcome anyhow unit -> rstate Warp.t -> Prop) s :
  Bank.inv (r_bank s) -> (forall e s', Q (Err e) s') ->
  (forall s', receives vr origin from rid body s s' -> Q (Ok tt) s') ->
  wp (warp_handle vr origin from rid body) Q s.
Proof.
  intros Hinv He Hok. unfold warp_handle. wp_step. wp_step. wp_step; [auto|]. wp_step. wp_step; [|auto].
  rename a into r. match goal with Hr : _ = Some r |- _ => rename Hr into Hrid; cbn [map_read routes_map] in Hrid end.
  wp_step. wp_step. wp_step; [auto|]. wp_step. wp_step; [|auto]. rename a into router.
  wp_step. wp_step; [|auto]. checked_simpl. subst router.
  wp_step. wp_step; [|auto]. destruct a as [to amount]. wp_step. wp_step; [|auto]. rename a into lim.
  wp_step. wp_step. wp_step; [auto|]. wp_step. wp_step; [|auto]. rename a into addr.
  wp_step. apply wp_pay_out; wp_red; [done|auto|]. intros b Hb. unfold emit_event. wp_step.
  apply Hok. econstructor; eauto.
Qed.

Lemma receives_ok vr origin from rid body s s' :
  warp_ok s -> receives vr origin from rid body s s' -> warp_ok s'.
Proof.
  intros Hs [r lim b to user amount Hrid Hrouter Hbody Hlim Haddr Hpaid ->].
  pose proof (warp_ok_replace s rid r (with_inbound r lim) Hs Hrid eq_refl eq_refl) as Hr.
  apply (warp_ok_bank _ b) in Hr.
  - by apply (warp_ok_event _ (mk (<[rid := with_inbound r lim]> (warp_routes (r_self s)))
    (routers (r_self s)) (events (r_self s) ++ [TokenTransferReceived rid origin to amount]))) in Hr.
  - eapply inv_route_paid_out; [apply Hs|done].
  - intros k x. by eapply route_token_paid_out.
Qed.

(** Tokens leave a route only for the amount of the message, and only from the
    route it was sent to. *)
Lemma receives_outflow vr origin from rid body s s' rid' r' :
  warp_ok s -> warp_routes (r_self s) !! rid' = Some r' -> receives vr origin from rid body s s' ->
  outflow (token_source r') rid' (r_bank s) (r_bank s') = 0 \/
  (rid' = rid /\ routers (r_self s) !! (rid', origin) = Some from /\
   exists to user, unpack_transfer_body body (token_source r') =
     inl (to, outflow (token_source r') rid' (r_bank s) (r_bank s')) /\ from_sender to = Some user /\
     Bank.balance (r_bank s') (HolderUser user) (moved_token (token_source r')) =
       Bank.balance (r_bank s) (HolderUser user) (moved_token (token_source r')) +
       outflow (token_source r') rid' (r_bank s) (r_bank s')).
Proof.
  intros Hs Hr' [r lim b to user amount Hrid Hrouter Hbody Hlim Haddr Hpaid ->]. cbn [r_bank].
  destruct (outflow_paid_out (token_source r) rid user amount (r_bank s) b (token_source r') rid') as [Hz|[-> Ho]];
    [exact (wo_tokens _ Hs _ _ Hrid)|exact (wo_tokens _ Hs _ _ Hr')|done|by left|].
  right. assert (r' = r) as -> by congruence. split_and!; [done|done|]. exists to, user. rewrite Ho. split_and!; [done|done|]. by eapply paid_out_received.
Qed.
End Rules.
End WarpRules.
