(* ===== verification/HyperlaneBridgeProperties.v ===== *)
(** * The bridge: what it promises

    Over every sequence of transactions from genesis (bank, gas paymaster,
    mailbox and warp calls of any users, failed ones reverted):

    - the invariant of the bridge holds;
    - tokens leave a route only for a verified message of its router, once;
    - the rewards of relayers can always be claimed, by their beneficiary only;
    - a remote transfer takes in exactly its amount and dispatches one message,
      which the other side reads back as that recipient and no larger amount. *)

From Stdlib Require Import NArith Lia.
From stdpp Require Import base numbers gmap strings option list.
From S2P Require Import Prelude Ints Gas StateAccess Bank Hyperlane HyperlaneProperties HyperlaneMerkle HyperlaneIgp.
From S2P Require Import HyperlaneMailbox HyperlaneWarp HyperlaneLimits HyperlaneWarpProofs HyperlaneBridge.

Module BridgeFacts.
Import Mailbox RouteBank RouteFacts WarpRules Bridge.
Section Facts.
Context {Sp : Spec} {HS : HyperlaneSpec}.
Implicit Types (s : Mailbox.t Warp.t) (c : Context Sp).

(** The state the modules' genesis leaves: nothing but an empty tree. *)
Definition genesis_state (igp_id : ModuleId) (b : Bank.t) : Mailbox.t Warp.t :=
  mk (mkCells None ∅ ∅ None []) (MerkleTreeHook.mk (Some MerkleTree.empty) [])
    (Igp.mk igp_id ∅ ∅ ∅ ∅ ∅ []) (Warp.mk ∅ ∅ []) b.

Lemma bridge_genesis_ok igp_id b : Bank.inv b -> bridge_ok (genesis_state igp_id b).
Proof.
  intros Hb. split.
  - split; [done| |by intros rid r]. split.
    + intros rid d. cbn. unfold enrolled_of. cbn. rewrite !lookup_empty. split; [by intros []|by intros ?%not_elem_of_nil].
    + intros rid. unfold enrolled_of. cbn. rewrite lookup_empty. constructor.
  - unfold IgpFacts.solvent, IgpFacts.claimable. cbn. rewrite map_sum_empty. lia.
  - done.
  - apply MerkleFacts.empty_ok.
Qed.

Section Exec.
Context {G : Type} `{GasMeterLaws G}.

Lemma exec_safe g vr msg c s :
  bridge_ok s -> meter_wf g -> call_wf msg -> exec g vr msg c s = s \/ safe_step msg c s (exec g vr msg c s).
Proof.
  intros Hs Hg Hwf.
  pose proof (wp_bridge_call (G := G) vr msg c
    (fun o s' => match o with Ok _ => safe_step msg c s s' | _ => True end) s Hs Hwf (fun _ _ => I) (fun _ H => H) g Hg) as Hw.
  unfold exec. destruct (bridge_call vr msg c (Acc g s)) as [[[]|e|] a]; [|by left|by left].
  right. by apply Hw.
Qed.

Lemma bridge_steps_ok s s' : bridge_ok s -> steps (G := G) s s' -> bridge_ok s'.
Proof.
  intros Hs. induction 1 as [|s' g vr msg c _ IH Hg Hwf]; [done|].
  destruct (exec_safe g vr msg c s' IH Hg Hwf) as [->|[Hok _]]; done.
Qed.
End Exec.

(** *** What a route takes in *)

(** What a route took in between two states: supply of a synthetic token that
    was burned, or tokens the route now holds. *)
Definition inflow (k : StoredTokenKind) rid (b b' : Bank.t) : N := outflow k rid b' b.

Lemma inflow_taken_in k rid a amount b b' :
  taken_in k rid a amount b b' -> inflow k rid b b' = amount.
Proof.
  destruct k as [r l d tid|tid|]; cbn.
  - intros (tk & Htk & Hs & _ & ->). unfold Bank.burned. rewrite BankTheorems.supply_update, bool_decide_eq_true_2 by done.
    rewrite (BankFacts.supply_token _ _ _ Htk). cbn. lia.
  - intros [Hb ->]. rewrite IgpFacts.balance_emitted, BankFacts.balance_transferred by done.
    repeat case_bool_decide; naive_solver lia.
  - intros [Hb ->]. rewrite IgpFacts.balance_emitted, BankFacts.balance_transferred by done.
    repeat case_bool_decide; naive_solver lia.
Qed.

(** The body of a transfer, read on the other side of the same kind of token. *)
Lemma body_there_and_back k (to : HexHash) x bz :
  length to = 32%nat -> x <= u128_max -> outbound_amount k x = inl bz ->
  exists y, Warp.unpack_transfer_body (to ++ bz) k = inl (to, y) /\ y <= x.
Proof.
  intros Hto Hx Hbz. destruct (AmountFacts.amount_there_and_back k x bz Hx Hbz) as (Hl & _ & y & Hy & Hle & _).
  exists y. split; [|done]. unfold Warp.unpack_transfer_body, len. rewrite length_app, Hto, Hl.
  change (64 <=? N.of_nat (32 + 32)) with true. cbn iota.
  rewrite (ByteFacts.slice_here to bz 32 Hto), (ByteFacts.slice_skip to bz 32 64) by lia.
  rewrite Hto. change (64 - 32)%nat with 32%nat. change (32 - 32)%nat with 0%nat.
  unfold slice. rewrite skipn_O, firstn_all2 by lia. by rewrite Hy.
Qed.

(** A claim of what the paymaster holds pays it out. *)
Lemma claimed_pays s relayer a :
  default 0 (Igp.funds (igp s) !! relayer) <= IgpFacts.held (get_igp s) ->
  let s' := put_igp (IgpFacts.claimed (get_igp s) relayer a) s in
  Bank.balance (bank s') (HolderUser a) config_gas_token_id =
    Bank.balance (bank s) (HolderUser a) config_gas_token_id + default 0 (Igp.funds (igp s) !! relayer) /\
  default 0 (Igp.funds (igp s') !! relayer) = 0.
Proof.
  intros Hh. unfold IgpFacts.claimed. destruct (N.eqb_spec (default 0 (Igp.funds (Igp.cells (get_igp s)) !! relayer)) 0)
    as [Hz|Hz]; cbn in *; [lia|]. split.
  - rewrite BankFacts.balance_transferred by done. repeat case_bool_decide; naive_solver.
  - by rewrite lookup_insert_eq.
Qed.

Lemma taken_in_amount k rid a amount b b' : Bank.inv b -> taken_in k rid a amount b b' -> amount <= u128_max.
Proof.
  intros Hinv Ht. assert (amount <= Bank.balance b (HolderUser a) (moved_token k)) as Hb.
  { destruct k; cbn in *; [destruct Ht as (tk & _ & _ & Hb & _); exact Hb|apply Ht|apply Ht]. }
  pose proof (BankFacts.balance_bound b (HolderUser a) (moved_token k) Hinv).
  pose proof (BankFacts.supply_bound b (moved_token k) Hinv). lia.
Qed.

(** The payment of a dispatch is between the user and the paymaster. *)
Lemma inflow_dispatch k rid b c from d to body metadata relayer limit s hex s' :
  dispatches c from d to body metadata relayer limit s hex s' ->
  inflow k rid b (bank s') = inflow k rid b (bank s).
Proof.
  intros [m rel q tr _ _ _ _ _ Hf _ _ _ _ Hi]. unfold inflow. change (bank s') with (Igp.bank (get_igp s')).
  rewrite Hi. unfold IgpFacts.paid. destruct k as [r l dd tid|tid|]; cbn [outflow Igp.bank].
  - change (Bank.supply (Bank.emitted ?e ?x) tid) with (Bank.supply x tid). by rewrite BankFacts.supply_transferred.
  - rewrite IgpFacts.balance_emitted, BankFacts.balance_transferred by done. repeat case_bool_decide; naive_solver.
  - rewrite IgpFacts.balance_emitted, BankFacts.balance_transferred by done. repeat case_bool_decide; naive_solver.
Qed.

(** What a successful remote transfer did. *)
Definition transferred_remote rid (d : N) (to : HexHash) (amount : N) s s' : Prop :=
  exists r router m y,
    Warp.warp_routes (recipients s) !! rid = Some r /\ Warp.routers (recipients s) !! (rid, d) = Some router /\
    inflow (Warp.token_source r) rid (bank s) (bank s') = amount /\
    dispatched s' = dispatched s ++ [keccak (message_encode m)] /\
    m = mkMessage MESSAGE_VERSION (len (dispatched s)) HYPERLANE_BRIDGE_DOMAIN rid d router (body m) /\
    Warp.unpack_transfer_body (body m) (Warp.token_source r) = inl (to, y) /\ y <= amount.

Lemma wp_transfer_remote {G : Type} `{GasMeterLaws G} vr rid d to amount relayer limit c
    (Q : outcome anyhow unit -> Mailbox.t Warp.t -> Prop) s :
  bridge_ok s -> length to = 32%nat -> (forall e s', Q (Err e) s') ->
  (forall s', transferred_remote rid d to amount s s' -> Q (Ok tt) s') ->
  wp (Warp.transfer_remote vr rid d to amount relayer limit c) Q s.
Proof.
  intros Hs Hto He Hok. unfold Warp.transfer_remote, on_recipient. wp_step. wp_step.
  apply wp_send_tokens; wp_red; [by apply bo_bank|auto|]. intros remote bd rs Hsend.
  pose proof (sends_harmless _ _ _ _ _ _ _ _ _ _ (bo_warp _ Hs) Hsend) as Hrs. wp_step.
  apply wp_dispatch; wp_red; [by apply bridge_ok_harmless|auto|]. intros hex s' Hd. wp_step. apply Hok.
  destruct Hsend as [r lim b amt Hr _ Hrouter Ht Hamt -> ->].
  pose proof (inflow_dispatch (Warp.token_source r) rid (bank s) _ _ _ _ _ _ _ _ _ _ _ Hd) as Hi.
  destruct (body_there_and_back (Warp.token_source r) to amount amt Hto (taken_in_amount _ _ _ _ _ _ (bo_bank _ Hs) Ht) Hamt)
    as (y & Hy & Hle).
  destruct Hd as [m rel q tr Hm -> _ _ _ _ _ Hc _ _ _]. exists r, remote, m, y. split_and!; try done.
  - rewrite Hi. cbn. by eapply inflow_taken_in.
  - unfold dispatched. rewrite Hc. by apply dispatched_snoc.
  - rewrite Hm. cbn. f_equal. apply (bo_nonce _ Hs).
  - by rewrite Hm.
Qed.
End Facts.
End BridgeFacts.

Module BridgeProperties.
Import Mailbox RouteBank RouteFacts WarpRules Bridge BridgeFacts.
Section Claims.
Context {Sp : Spec} {HS : HyperlaneSpec} {G : Type} `{GasMeterLaws G}.
Implicit Types (s : Mailbox.t Warp.t) (c : Context Sp).

(** C19: the invariant of the bridge. Whatever transactions are executed from
    genesis, the bank's books balance, the routers stored are exactly those of the
    enrolled destinations of each route, the token of a synthetic route has the
    route as its only admin, the paymaster holds at least what it owes to relayers,
    the next nonce is the number of messages dispatched, and the Merkle tree is the
    tree of exactly those messages. *)
Theorem bridge_invariant (igp_id : ModuleId) (b : Bank.t) s :
  Bank.inv b -> steps (G := G) (genesis_state igp_id b) s -> bridge_ok s.
Proof. intros Hb. by apply bridge_steps_ok, bridge_genesis_ok. Qed.

(** C3: tokens leave a route only when a message authorizes it. In a state reached
    from genesis, a transaction of any user either lets nothing leave a route, or
    processes a message that is addressed to the route, comes from the router
    enrolled for its origin, was accepted by the security module of the route and
    was not delivered before; exactly the amount of the message leaves and reaches
    the recipient it names; the message is delivered afterwards, and deliveries are
    never forgotten, so that it cannot release anything again. *)
Theorem bridge_release_authorized (igp_id : ModuleId) (b : Bank.t) s (g : G) vr msg c :
  Bank.inv b -> steps (G := G) (genesis_state igp_id b) s -> meter_wf g -> call_wf msg ->
  deliveries (cells s) ⊆ deliveries (cells (exec g vr msg c s)) /\
  forall rid r, Warp.warp_routes (recipients s) !! rid = Some r ->
    outflow (Warp.token_source r) rid (bank s) (bank (exec g vr msg c s)) = 0 \/
    authorized msg c s rid (Warp.token_source r)
      (outflow (Warp.token_source r) rid (bank s) (bank (exec g vr msg c s))) (exec g vr msg c s).
Proof.
  intros Hb Hst Hg Hwf. assert (bridge_ok s) as Hs by (eapply bridge_steps_ok; [by apply bridge_genesis_ok|done]).
  destruct (exec_safe g vr msg c s Hs Hg Hwf) as [->|(_ & Hd & Hr)]; [|by split].
  split; [done|]. intros rid r Hr. left. apply (outflow_keeps _ _ _ _ (wo_tokens _ (bo_warp _ Hs) _ _ Hr)). done.
Qed.

(** The rewards of a relayer can always be claimed. In every state reached from
    genesis, a claim by the beneficiary of a relayer succeeds when gas is not
    metered, pays exactly what the relayer has earned and leaves nothing owed; a
    claim by anyone else is refused. *)
Theorem igp_rewards_claimable (igp_id : ModuleId) (b : Bank.t) s vr relayer c :
  Bank.inv b -> steps (G := G) (genesis_state igp_id b) s ->
  (Igp.beneficiary (igp s) !! relayer = Some (Some (sender c)) ->
   exists s', bridge_call (G := unit) vr (IgpCall (Igp.ClaimRewards relayer)) c (Acc tt s) = (Ok tt, Acc tt s') /\
     Bank.balance (bank s') (HolderUser (sender c)) config_gas_token_id =
       Bank.balance (bank s) (HolderUser (sender c)) config_gas_token_id + default 0 (Igp.funds (igp s) !! relayer) /\
     default 0 (Igp.funds (igp s') !! relayer) = 0) /\
  (Igp.beneficiary (igp s) !! relayer <> Some (Some (sender c)) ->
   fst (bridge_call (G := unit) vr (IgpCall (Igp.ClaimRewards relayer)) c (Acc tt s)) <> Ok tt).
Proof.
  intros Hb Hst. assert (bridge_ok s) as Hs by (eapply bridge_steps_ok; [by apply bridge_genesis_ok|done]).
  assert (default 0 (Igp.funds (igp s) !! relayer) <= IgpFacts.held (get_igp s)) as Hheld.
  { etransitivity; [apply (IgpFacts.claimable_ge (get_igp s))|apply (bo_igp _ Hs)]. }
  assert (wp (G := unit) (bridge_call vr (IgpCall (Igp.ClaimRewards relayer)) c) (fun o s' =>
    match o with
    | Ok _ => Igp.beneficiary (igp s) !! relayer = Some (Some (sender c)) /\
        s' = put_igp (IgpFacts.claimed (get_igp s) relayer (sender c)) s
    | Err _ => Igp.beneficiary (igp s) !! relayer <> Some (Some (sender c))
    | Panic => False end) s) as Hw.
  { cbn [bridge_call]. wp_step. wp_step. cbn [Igp.call].
    apply IgpFacts.wp_claim; wp_red; [by apply bo_bank| |].
    - intros [Hf|[Hn|Hn]] e s'; [done|done|]. cbn in *. unfold get_igp in *. lia.
    - intros Hben _. by split. }
  specialize (Hw tt I). destruct (bridge_call _ _ _ _) as [[[]|e|] [[] s']]; cbn in Hw; destruct Hw as [_ Hw].
  - destruct Hw as [Hben ->]. split; [|by intros]. intros _. eexists. split; [done|]. by apply claimed_pays.
  - split; [by intros|]. done.
  - done.
Qed.

(** A transfer to a remote chain is exact. In every state reached from genesis,
    a transfer that succeeds takes exactly its amount into the route, by burning it
    or by holding it; it dispatches exactly one message, with the next nonce, from
    the route to the router enrolled for the destination; and the body of the
    message reads, with the route's token, as the recipient and an amount that is
    no larger than what was taken. *)
Theorem remote_transfer_exact (igp_id : ModuleId) (b : Bank.t) s (g : G) vr rid d to amount relayer limit c a' :
  Bank.inv b -> steps (G := G) (genesis_state igp_id b) s -> meter_wf g -> length to = 32%nat ->
  bridge_call vr (WarpCall (Warp.TransferRemote rid d to amount relayer limit)) c (Acc g s) = (Ok tt, a') ->
  transferred_remote rid d to amount s (store a').
Proof.
  intros Hb Hst Hg Hto Hcall. assert (bridge_ok s) as Hs by (eapply bridge_steps_ok; [by apply bridge_genesis_ok|done]).
  assert (wp (bridge_call vr (WarpCall (Warp.TransferRemote rid d to amount relayer limit)) c)
    (fun o s' => match o with Ok _ => transferred_remote rid d to amount s s' | _ => True end) s) as Hw.
  { cbn [bridge_call Warp.call]. wp_step. by apply wp_transfer_remote. }
  specialize (Hw g Hg). rewrite Hcall in Hw. apply Hw.
Qed.
End Claims.

(** A run: user 2 sets up as a relayer of domain 77, user 1 registers a route for
    the gas token with a router there and sends 100 over it; a message of the
    router releases 40 of them for user 9. *)
Definition demo_vr : VersionReader := mkVersion 1 7.
Definition demo_router : HexHash := repeat 0 31 ++ [21].
Definition demo_to : HexHash := repeat 0 31 ++ [9].
Definition demo_route : HexHash := hasher (Spec := test_spec) (repeat 7 32 ++ [2; 1]).

Definition demo_calls : list (BridgeCall (Sp := test_spec) * N) :=
  [ (IgpCall (@Igp.SetRelayerConfig test_spec [(77, mkOracle 3 (10 ^ 19))] [] 2 (Some 5)), 2);
    (WarpCall (@Warp.Register test_spec Warp.NoAdmin Native AlwaysTrust [(77, demo_router)] 1000 1000 1000 1000), 1);
    (WarpCall (@Warp.TransferRemote test_spec demo_route 77 demo_to 100 (Some 2) 50), 1) ].

Definition demo_start : Mailbox.t Warp.t := genesis_state (Sp := test_spec) (repeat 6 32) BankDemo.demo.

Definition demo_run (calls : list (BridgeCall (Sp := test_spec) * N)) : Mailbox.t Warp.t :=
  fold_left (fun s '(msg, a) =>
    exec (HS := IsmProperties.demo_hyperlane) tt demo_vr msg (BankDemo.demo_context a) s) calls demo_start.

Definition demo_sent : Mailbox.t Warp.t := demo_run demo_calls.

Definition demo_release : BridgeCall (Sp := test_spec) :=
  MailboxCall (@CallProcess test_spec []
    (message_encode (mkMessage 3 0 77 demo_router 5555 demo_route (demo_to ++ to_be_bytes 32 40)))).

Lemma demo_run_steps calls :
  Forall (fun m => call_wf (fst m)) calls ->
  steps (HS := IsmProperties.demo_hyperlane) (G := unit) demo_start (demo_run calls).
Proof.
  intros Hwf. unfold demo_run. induction calls as [|[msg a] calls IH] using rev_ind; [constructor|].
  apply Forall_app in Hwf as [Hwf Hm]. rewrite fold_left_app. constructor; [by apply IH|done|by inversion Hm].
Qed.

Lemma demo_calls_wf : Forall (fun m => call_wf (Sp := test_spec) (fst m)) demo_calls.
Proof. repeat constructor. Qed.

Lemma bridge_invariant_witness :
  bridge_ok (HS := IsmProperties.demo_hyperlane) demo_sent /\ nonce_of (Sp := test_spec) demo_sent = 1.
Proof.
  split; [|by vm_compute].
  apply (bridge_invariant (HS := IsmProperties.demo_hyperlane) (G := unit) (repeat 6 32) BankDemo.demo);
    [exact BankDemo.demo_inv|apply demo_run_steps, demo_calls_wf].
Defined.

Definition demo_released : Mailbox.t Warp.t :=
  exec (HS := IsmProperties.demo_hyperlane) tt demo_vr demo_release (BankDemo.demo_context 8) demo_sent.

Lemma bridge_release_authorized_witness :
  outflow (Sp := test_spec) StoredNative demo_route (bank demo_sent) (bank demo_released) = 40 /\
  forall rid r, Warp.warp_routes (recipients demo_sent) !! rid = Some r ->
    outflow (Sp := test_spec) (Warp.token_source r) rid (bank demo_sent) (bank demo_released) = 0 \/
    authorized (HS := IsmProperties.demo_hyperlane) demo_release (BankDemo.demo_context 8) demo_sent rid
      (Warp.token_source r) (outflow (Warp.token_source r) rid (bank demo_sent) (bank demo_released)) demo_released.
Proof.
  split; [by vm_compute|].
  apply (bridge_release_authorized (HS := IsmProperties.demo_hyperlane) (G := unit) (repeat 6 32) BankDemo.demo
    demo_sent tt demo_vr demo_release (BankDemo.demo_context 8));
    [exact BankDemo.demo_inv|apply demo_run_steps, demo_calls_wf|exact I|exact I].
Defined.

Lemma igp_rewards_claimable_witness :
  exists s', bridge_call (HS := IsmProperties.demo_hyperlane) (G := unit) demo_vr
      (IgpCall (@Igp.ClaimRewards test_spec 2)) (BankDemo.demo_context 5) (Acc tt demo_sent) = (Ok tt, Acc tt s') /\
    Bank.balance (Sp := test_spec) (bank s') (BankDemo.user 5) (repeat 7 32) = 6.
Proof.
  destruct (igp_rewards_claimable (HS := IsmProperties.demo_hyperlane) (G := unit) (repeat 6 32) BankDemo.demo
    demo_sent demo_vr 2 (BankDemo.demo_context 5)) as [Hc _];
    [exact BankDemo.demo_inv|apply demo_run_steps, demo_calls_wf|].
  destruct Hc as (s' & Hs' & Hb & _); [by vm_compute|]. exists s'. split; [exact Hs'|].
  etransitivity; [exact Hb|]. by vm_compute.
Defined.

Definition demo_send : BridgeCall (Sp := test_spec) :=
  WarpCall (@Warp.TransferRemote test_spec demo_route 77 demo_to 100 (Some 2) 50).

Lemma remote_transfer_exact_witness :
  exists a', bridge_call (HS := IsmProperties.demo_hyperlane) (G := unit) demo_vr demo_send (BankDemo.demo_context 1)
      (Acc tt (demo_run (take 2 demo_calls))) = (Ok tt, a') /\
    transferred_remote (HS := IsmProperties.demo_hyperlane) demo_route 77 demo_to 100
      (demo_run (take 2 demo_calls)) (store a').
Proof.
  assert (fst (bridge_call (HS := IsmProperties.demo_hyperlane) (G := unit) demo_vr demo_send (BankDemo.demo_context 1)
    (Acc tt (demo_run (take 2 demo_calls)))) = Ok tt) as Hok by (by vm_compute).
  destruct (bridge_call _ _ _ _) as [[[]|e|] a'] eqn:Hcall; try discriminate Hok. exists a'. split; [done|].
  apply (remote_transfer_exact (HS := IsmProperties.demo_hyperlane) (G := unit) (repeat 6 32) BankDemo.demo
    (demo_run (take 2 demo_calls)) tt demo_vr demo_route 77 demo_to 100 (Some 2) 50 (BankDemo.demo_context 1) a');
    [exact BankDemo.demo_inv|apply demo_run_steps, Forall_take, demo_calls_wf|exact I|done|exact Hcall].
Defined.
End BridgeProperties.
