(* ===== verification/Uniqueness.v ===== *)
(** * Transaction deduplication (sov-uniqueness)

    [Uniqueness.t] is the state of lib.rs: per credential, a nonce and the
    buckets of transaction hashes of the recent generations.  The operations are
    those of nonces.rs, generations.rs and capabilities.rs, with the readers of
    lib.rs.  The constants of [config_value!] are a parameter.

    The main results: a transaction that was marked as attempted is rejected
    ever after; a transaction that passes the check can be marked; the number
    of hashes stored per credential is bounded; and the generation that the
    overflow error recommends is accepted. *)

From Stdlib Require Import NArith Lia.
From stdpp Require Import base numbers gmap strings option list.
From S2P Require Import Prelude Ints Gas StateAccess.

Abbreviation CredentialId := (list N).
Abbreviation TxHash := (list N).

(** [UniquenessData], sov-modules-api *)
Inductive UniquenessData : Type :=
| Nonce (nonce : N)
| Generation (generation : N).

(** The constants read with [config_value!]. *)
Class UniquenessConfig : Type := {
  PAST_TRANSACTION_GENERATIONS : N;
  MAX_STORED_TX_HASHES_PER_CREDENTIAL : N
}.

Module Uniqueness.

Abbreviation buckets := (gmap N (gset TxHash)).

Record t : Type := mk {
  generations : gmap CredentialId buckets;
  nonces : gmap CredentialId N
}.

Definition generations_map : StateMap t CredentialId buckets :=
  mkStateMap "sov_uniqueness/Uniqueness/generations" User generations
    (fun m s => mk m (nonces s)).

Definition nonces_map : StateMap t CredentialId N :=
  mkStateMap "sov_uniqueness/Uniqueness/nonces" User nonces
    (fun m s => mk (generations s) m).

(** The [anyhow] errors of the module. *)
Inductive Error : Type :=
| StateError (e : StateAccessorError)
| BadConfig
| BadGeneration (latest provided : N)
| DuplicateTransaction (generation : N) (hash : TxHash)
| CountOverflow
| LastGenerationOverflow
| TooManyTransactions (last_generation_before_pruning : N)
| BadNonce (expected found : N)
| MaximumGenerationReached.

Section Operations.
Context {Sp : Spec} {Cfg : UniquenessConfig} {G : Type} `{GasMeter G}.

(** ** Readers, lib.rs *)
Definition nonce (credential_id : CredentialId) : M (acc G t) StateAccessorError (option N) :=
  map_get nonces_map credential_id.

Definition next_generation (credential_id : CredentialId) : M (acc G t) Error N :=
  let! maybe_generations := map_err StateError (map_get generations_map credential_id) in
  match last_key (default ∅ maybe_generations) with
  | None => ret 0
  | Some k => ok_or (checked_add u64_max k 1) MaximumGenerationReached
  end.

Definition next_nonce (credential_id : CredentialId) : M (acc G t) StateAccessorError N :=
  let! maybe_nonce := map_get nonces_map credential_id in
  ret (default 0 maybe_nonce).

(** ** Nonces, nonces.rs *)
Definition check_nonce_uniqueness (credential_id : CredentialId) (transaction_nonce : N)
  : M (acc G t) Error unit :=
  let! nonce := map_err StateError (map_get nonces_map credential_id) in
  let nonce := default 0 nonce in
  ensure (nonce =? transaction_nonce) (BadNonce nonce transaction_nonce).

Definition check_nonce_uniqueness_allow_nonconsecutive (credential_id : CredentialId)
    (transaction_nonce : N) : M (acc G t) Error unit :=
  let! nonce := map_err StateError (map_get nonces_map credential_id) in
  let nonce := default 0 nonce in
  ensure (nonce <=? transaction_nonce) (BadNonce nonce transaction_nonce).

Definition mark_nonce_tx_attempted (credential_id : CredentialId) : M (acc G t) Error unit :=
  let! nonce := map_err StateError (map_get nonces_map credential_id) in
  let nonce := default 0 nonce in
  let! nonce := expect_some (checked_add u64_max nonce 1) in
  map_err StateError (map_set nonces_map credential_id nonce).

(** ** Generations, generations.rs *)

(** [values().try_fold(0, ..)]: the lengths added up as [u64]. *)
Fixpoint try_sum (sum : N) (lens : list N) : option N :=
  match lens with
  | [] => Some sum
  | l :: lens' =>
      match checked_add u64_max sum l with
      | Some sum' => try_sum sum' lens'
      | None => None
      end
  end.

Definition bucket_len (b : gset TxHash) : N := N.of_nat (size b).

Definition bucket_lens (b : buckets) : list N :=
  map (fun kv => bucket_len kv.2) (map_to_list b).

Definition check_generation_uniqueness (credential_id : CredentialId)
    (transaction_generation : N) (transaction_hash : TxHash) : M (acc G t) Error unit :=
  let! senders_buckets := map_err StateError (map_get generations_map credential_id) in
  let senders_buckets := default ∅ senders_buckets in
  let latest_generation := default transaction_generation (last_key senders_buckets) in
  let! transaction_generation_cutoff :=
    ok_or (checked_sub PAST_TRANSACTION_GENERATIONS 1) BadConfig in
  ensure (saturating_sub latest_generation transaction_generation_cutoff
            <=? transaction_generation)
    (BadGeneration latest_generation transaction_generation) ;;;
  match senders_buckets !! transaction_generation with
  | Some bucket =>
      ensure (negb (bool_decide (transaction_hash ∈ bucket)))
        (DuplicateTransaction transaction_generation transaction_hash)
  | None => ret tt
  end ;;;
  let senders_buckets :=
    if latest_generation <? transaction_generation
    then split_off (saturating_sub transaction_generation PAST_TRANSACTION_GENERATIONS)
           senders_buckets
    else senders_buckets in
  let! num_txs := ok_or (try_sum 0 (bucket_lens senders_buckets)) CountOverflow in
  let! num_txs_after_increment := ok_or (checked_add u64_max num_txs 1) CountOverflow in
  if MAX_STORED_TX_HASHES_PER_CREDENTIAL <? num_txs_after_increment then
    let! earliest_valid_bucket := expect_some (first_key senders_buckets) in
    let! last_generation_before_pruning :=
      ok_or (checked_add u64_max earliest_valid_bucket PAST_TRANSACTION_GENERATIONS)
        LastGenerationOverflow in
    throw (TooManyTransactions last_generation_before_pruning)
  else ret tt.

Definition mark_generational_tx_attempted (credential_id : CredentialId)
    (transaction_generation : N) (transaction_hash : TxHash) : M (acc G t) Error unit :=
  let! senders_buckets := map_err StateError (map_get generations_map credential_id) in
  let senders_buckets := default ∅ senders_buckets in
  let latest_generation := default transaction_generation (last_key senders_buckets) in
  let! transaction_generation_cutoff :=
    expect_some (checked_sub PAST_TRANSACTION_GENERATIONS 1) in
  assert (saturating_sub latest_generation transaction_generation_cutoff
            <=? transaction_generation) ;;;
  let senders_buckets :=
    if latest_generation <? transaction_generation
    then split_off (saturating_sub transaction_generation PAST_TRANSACTION_GENERATIONS)
           senders_buckets
    else senders_buckets in
  let bucket := default ∅ (senders_buckets !! transaction_generation) in
  assert (negb (bool_decide (transaction_hash ∈ bucket))) ;;;
  let senders_buckets :=
    <[transaction_generation := {[ transaction_hash ]} ∪ bucket]> senders_buckets in
  map_err StateError (map_set generations_map credential_id senders_buckets).

(** ** The capability, capabilities.rs *)
Definition check_uniqueness (credential_id : CredentialId)
    (transaction_uniqueness : UniquenessData) (transaction_hash : TxHash)
    (execution_context : ExecutionContext) : M (acc G t) Error unit :=
  match transaction_uniqueness with
  | Nonce nonce =>
      match execution_context with
      | SequencerWarmUp => check_nonce_uniqueness_allow_nonconsecutive credential_id nonce
      | _ => check_nonce_uniqueness credential_id nonce
      end
  | Generation generation =>
      check_generation_uniqueness credential_id generation transaction_hash
  end.

Definition mark_tx_attempted (credential_id : CredentialId)
    (transaction_generation : UniquenessData) (transaction_hash : TxHash)
  : M (acc G t) Error unit :=
  match transaction_generation with
  | Nonce _ => mark_nonce_tx_attempted credential_id
  | Generation generation =>
      mark_generational_tx_attempted credential_id generation transaction_hash
  end.
End Operations.

(** ** The states that transaction processing leads to *)

Section Reachability.
Context {Sp : Spec} {Cfg : UniquenessConfig}.

(** The buckets and the nonce of a credential. *)
Definition buckets_of (s : t) (c : CredentialId) : buckets := default ∅ (generations s !! c).
Definition nonce_of (s : t) (c : CredentialId) : N := default 0 (nonces s !! c).

(** The number of hashes in a set of buckets. *)
Definition stored (b : buckets) : N := map_sum (fun _ x => bucket_len x) b.

(** A transaction is attempted when it passes the check and is then marked.
    The check and the mark may run on different accessors. *)
Inductive attempt (s : t) (c : CredentialId) (u : UniquenessData) (h : TxHash) : t -> Prop :=
| attempt_intro (G1 G2 : Type) `{GasMeterLaws G1} `{GasMeterLaws G2} (g1 : G1) (g2 : G2)
    ctx a1 a2 :
    ctx <> SequencerWarmUp -> meter_wf g1 -> meter_wf g2 ->
    check_uniqueness c u h ctx (Acc g1 s) = (Ok tt, a1) ->
    mark_tx_attempted c u h (Acc g2 s) = (Ok tt, a2) ->
    attempt s c u h (store a2).

Inductive attempts (s : t) : t -> Prop :=
| attempts_refl : attempts s s
| attempts_step s' c u h s'' : attempts s s' -> attempt s' c u h s'' -> attempts s s''.

(** The buckets of a credential: none is empty, none is older than the window
    of the latest, and together they respect the limit. *)
Record buckets_wf (b : buckets) : Prop := {
  bw_nonempty : forall g x, b !! g = Some x -> x <> ∅;
  bw_window : forall g x last, b !! g = Some x -> last_key b = Some last ->
    last <= g + PAST_TRANSACTION_GENERATIONS;
  bw_limit : stored b <= MAX_STORED_TX_HASHES_PER_CREDENTIAL
}.

Definition wf (s : t) : Prop := forall c, buckets_wf (buckets_of s c).

(** The limits of a sensible configuration. *)
Definition config_ok : Prop :=
  1 <= PAST_TRANSACTION_GENERATIONS /\ 1 <= MAX_STORED_TX_HASHES_PER_CREDENTIAL < u64_max.

(** What a credential's buckets become when a transaction is marked. *)
Definition latest (b : buckets) (g : N) : N := default g (last_key b).

Definition pruned (b : buckets) (g : N) : buckets :=
  if latest b g <? g then split_off (g - PAST_TRANSACTION_GENERATIONS) b else b.

Definition marked (b : buckets) (g : N) (h : TxHash) : buckets :=
  <[g := {[ h ]} ∪ default ∅ (pruned b g !! g)]> (pruned b g).

(** The conditions under which a generation is accepted. *)
Definition acceptable (b : buckets) (g : N) (h : TxHash) : Prop :=
  latest b g - (PAST_TRANSACTION_GENERATIONS - 1) <= g /\
  (forall x, b !! g = Some x -> h ∉ x) /\
  stored (pruned b g) + 1 <= MAX_STORED_TX_HASHES_PER_CREDENTIAL.

(** A transaction that can no longer be accepted: its nonce is in the past, its
    hash is stored, or its generation left the window. *)
Definition seen (s : t) (c : CredentialId) (u : UniquenessData) (h : TxHash) : Prop :=
  match u with
  | Nonce n => n < nonce_of s c
  | Generation g =>
      (exists x, buckets_of s c !! g = Some x /\ h ∈ x) \/
      (exists last, last_key (buckets_of s c) = Some last /\
         g + PAST_TRANSACTION_GENERATIONS <= last)
  end.
End Reachability.
End Uniqueness.

(** ** Lemmas *)
Module UniquenessFacts.
Import Uniqueness.

Lemma try_sum_spec a l :
  try_sum a l = if a + sum_N l <=? u64_max then Some (a + sum_N l)
                else if a <=? u64_max then None else try_sum a l.
Proof.
  revert a. induction l as [|x l IH]; intros a; cbn.
  - rewrite N.add_0_r. by destruct (a <=? u64_max).
  - unfold checked_add. change (foldr N.add 0 l) with (sum_N l).
    destruct (N.leb_spec (a + x) u64_max).
    + rewrite IH. rewrite <- N.add_assoc.
      destruct (N.leb_spec (a + (x + sum_N l)) u64_max); [done|].
      rewrite (proj2 (N.leb_le (a + x) u64_max)) by done.
      rewrite (proj2 (N.leb_le a u64_max)) by lia. done.
    + rewrite (proj2 (N.leb_gt _ _)) by lia.
      by destruct (a <=? u64_max).
Qed.

Lemma try_sum_lens (b : buckets) :
  try_sum 0 (bucket_lens b) = if stored b <=? u64_max then Some (stored b) else None.
Proof.
  rewrite try_sum_spec. rewrite (proj2 (N.leb_le 0 u64_max)) by (unfold u64_max; lia).
  unfold stored, bucket_lens. by rewrite map_sum_to_list, N.add_0_l.
Qed.

Section Facts.
Context {Sp : Spec} {Cfg : UniquenessConfig} (Hcfg : config_ok).
Implicit Types (b : buckets) (g : N) (h : TxHash) (c : CredentialId) (s : t).

Ltac uniq_simpl :=
  unfold generations_map, nonces_map, saturating_sub in *;
  cbn [map_read map_write generations nonces] in *; checked_simpl; subst.

Lemma stored_pruned b g : stored (pruned b g) <= stored b.
Proof. unfold pruned. destruct (latest b g <? g); [apply map_sum_filter_le|done]. Qed.

Lemma pruned_lookup b g k x :
  pruned b g !! k = Some x -> b !! k = Some x.
Proof.
  unfold pruned. destruct (latest b g <? g); [|done]. intros Hk.
  by apply split_off_lookup in Hk as [? _].
Qed.

Section Rules.
Context {G : Type} `{GasMeterLaws G}.

(** The check of a generation accepts exactly the acceptable ones. *)
Lemma wp_check_generation c g h (Q : outcome Error unit -> t -> Prop) s :
  let b := buckets_of s c in
  (forall e, can_fail \/ ~ acceptable b g h ->
     (forall l, e = TooManyTransactions l ->
        exists k, first_key (pruned b g) = Some k /\ l = k + PAST_TRANSACTION_GENERATIONS) ->
     Q (Err e) s) ->
  (acceptable b g h -> Q (Ok tt) s) ->
  wp (check_generation_uniqueness c g h) Q s.
Proof.
  intros b He Hok. destruct Hcfg as [HP [HM HM']]. unfold check_generation_uniqueness.
  wp_step. wp_step. wp_step; [apply He; naive_solver|].
  change (from_option Datatypes.id ∅ (map_read generations_map s !! c)) with b.
  change (default g (last_key b)) with (latest b g). unfold saturating_sub.
  change (if latest b g <? g then split_off (g - PAST_TRANSACTION_GENERATIONS) b else b)
    with (pruned b g).
  wp_step. wp_step; [|uniq_simpl; lia]. uniq_simpl.
  wp_step. wp_step; uniq_simpl;
    [|apply He; [right; intros (Hw & _); lia|naive_solver]].
  wp_step. apply (wp_mono _ (fun o s' => s' = s /\
    match o with Ok _ => forall x, b !! g = Some x -> h ∉ x
    | Err e => exists x, b !! g = Some x /\ h ∈ x /\ e = DuplicateTransaction g h
    | Panic => False end)).
  { destruct (b !! g) as [x|] eqn:Hg; repeat wp_step; uniq_simpl; naive_solver. }
  intros [[]|e|] s' [-> Hd]; wp_red; [| |done].
  2: { destruct Hd as (x & Hx & Hh & ->). apply He; [|done].
       right. intros (_ & Hdup & _). by apply (Hdup x). }
  rewrite try_sum_lens. wp_step.
  destruct (N.leb_spec (stored (pruned b g)) u64_max); cbn [ok_or]; wp_step;
    [|apply He; [right; intros (_ & _ & ?); lia|naive_solver]].
  wp_step. wp_step; uniq_simpl; [|apply He; [right; intros (_ & _ & ?); lia|naive_solver]].
  destruct (N.ltb_spec MAX_STORED_TX_HASHES_PER_CREDENTIAL (stored (pruned b g) + 1)).
  - wp_step. wp_step.
    + wp_step. wp_step; uniq_simpl.
      * wp_step. apply He; [right; intros (_ & _ & ?); lia|]. intros l [= <-]. eauto.
      * apply He; [right; intros (_ & _ & ?); lia|naive_solver].
    + exfalso. match goal with Hf : first_key _ = None |- _ => apply first_key_None in Hf as Hf' end.
      assert (stored (pruned b g) = 0) as Hz by (rewrite Hf'; apply map_sum_empty). lia.
  - wp_step. apply Hok. by split_and!.
Qed.

Lemma wp_mark_generation c g h (Q : outcome Error unit -> t -> Prop) s :
  let b := buckets_of s c in
  acceptable b g h ->
  (can_fail -> forall e, Q (Err e) s) ->
  Q (Ok tt) (mk (<[c := marked b g h]> (generations s)) (nonces s)) ->
  wp (mark_generational_tx_attempted c g h) Q s.
Proof.
  intros b (Hw & Hd & Hl) He Hok. destruct Hcfg as [HP [HM HM']].
  unfold mark_generational_tx_attempted.
  wp_step. wp_step. wp_step; [by apply He|].
  change (from_option Datatypes.id ∅ (map_read generations_map s !! c)) with b.
  change (default g (last_key b)) with (latest b g). unfold saturating_sub.
  change (if latest b g <? g then split_off (g - PAST_TRANSACTION_GENERATIONS) b else b)
    with (pruned b g).
  wp_step. wp_step; [|uniq_simpl; lia]. uniq_simpl.
  wp_step. wp_step; uniq_simpl; [|lia].
  wp_step. wp_step; uniq_simpl.
  - wp_step. wp_step; [by apply He|]. done.
  - exfalso. destruct (pruned b g !! g) as [x|] eqn:Hx; cbn in *; [|set_solver].
    apply pruned_lookup in Hx. by apply (Hd x).
Qed.

Lemma wp_check_nonce c n (Q : outcome Error unit -> t -> Prop) s :
  (forall e, can_fail \/ nonce_of s c <> n -> Q (Err e) s) ->
  (nonce_of s c = n -> Q (Ok tt) s) ->
  wp (check_nonce_uniqueness c n) Q s.
Proof.
  intros He Hok. unfold check_nonce_uniqueness. repeat wp_step; auto;
    change (from_option Datatypes.id 0 (map_read nonces_map s !! c)) with (nonce_of s c) in *;
    checked_simpl; auto.
Qed.

Lemma wp_mark_nonce c (Q : outcome Error unit -> t -> Prop) s :
  (can_fail -> forall e, Q (Err e) s) ->
  (nonce_of s c + 1 <= u64_max ->
     Q (Ok tt) (mk (generations s) (<[c := nonce_of s c + 1]> (nonces s)))) ->
  (u64_max < nonce_of s c + 1 -> Q Panic s) ->
  wp (mark_nonce_tx_attempted c) Q s.
Proof.
  intros He Hok Hp. unfold mark_nonce_tx_attempted. repeat wp_step; auto;
    change (from_option Datatypes.id 0 (map_read nonces_map s !! c)) with (nonce_of s c) in *;
    checked_simpl; subst; auto.
Qed.
End Rules.

(** *** The effect of an attempt *)

Lemma check_run {G : Type} `{GasMeterLaws G} c u h ctx (gm : G) s a :
  ctx <> SequencerWarmUp -> meter_wf gm ->
  check_uniqueness c u h ctx (Acc gm s) = (Ok tt, a) ->
  match u with
  | Nonce n => nonce_of s c = n
  | Generation g => acceptable (buckets_of s c) g h
  end.
Proof.
  intros Hctx Hg Hrun.
  assert (wp (check_uniqueness c u h ctx) (fun o _ => o = Ok tt ->
    match u with Nonce n => nonce_of s c = n
    | Generation g => acceptable (buckets_of s c) g h end) s) as Hwp.
  { destruct u as [n|g]; cbn; [destruct ctx; [done|..]|].
    - by apply wp_check_nonce.
    - by apply wp_check_nonce.
    - by apply wp_check_generation. }
  specialize (Hwp gm Hg). rewrite Hrun in Hwp. by apply Hwp.
Qed.

Lemma attempt_effect s c u h s' :
  attempt s c u h s' ->
  match u with
  | Nonce n => nonce_of s c = n /\ n + 1 <= u64_max /\
      s' = mk (generations s) (<[c := n + 1]> (nonces s))
  | Generation g => acceptable (buckets_of s c) g h /\
      s' = mk (<[c := marked (buckets_of s c) g h]> (generations s)) (nonces s)
  end.
Proof.
  intros [G1 G2 HG1 HL1 HG2 HL2 g1 g2 ctx a1 a2 Hctx Hg1 Hg2 Hcheck Hmark].
  pose proof (check_run c u h ctx g1 s a1 Hctx Hg1 Hcheck) as Hc.
  destruct u as [n|g]; cbn in Hmark.
  - assert (wp (G := G2) (mark_nonce_tx_attempted c) (fun o s' => o = Ok tt ->
      n + 1 <= u64_max /\ s' = mk (generations s) (<[c := n + 1]> (nonces s))) s) as Hwp.
    { rewrite <- Hc. by apply wp_mark_nonce. }
    specialize (Hwp g2 Hg2). rewrite Hmark in Hwp. destruct Hwp as [_ Hwp]. naive_solver.
  - assert (wp (G := G2) (mark_generational_tx_attempted c g h) (fun o s' => o = Ok tt ->
      s' = mk (<[c := marked (buckets_of s c) g h]> (generations s)) (nonces s)) s) as Hwp.
    { by apply wp_mark_generation. }
    specialize (Hwp g2 Hg2). rewrite Hmark in Hwp. destruct Hwp as [_ Hwp]. naive_solver.
Qed.

Lemma buckets_of_insert s c b c' n :
  buckets_of (mk (<[c := b]> (generations s)) n) c' =
    if bool_decide (c' = c) then b else buckets_of s c'.
Proof.
  unfold buckets_of. cbn. case_bool_decide; subst.
  - by rewrite lookup_insert_eq.
  - by rewrite lookup_insert_ne.
Qed.

Lemma nonce_of_insert s c n c' gens :
  nonce_of (mk gens (<[c := n]> (nonces s))) c' = if bool_decide (c' = c) then n else nonce_of s c'.
Proof.
  unfold nonce_of. cbn. case_bool_decide; subst.
  - by rewrite lookup_insert_eq.
  - by rewrite lookup_insert_ne.
Qed.

(** *** Marking a transaction *)

Lemma last_key_marked b g h : last_key (marked b g h) = Some (N.max (latest b g) g).
Proof.
  unfold marked, latest.
  destruct (last_key b) as [last|] eqn:Hl; cbn.
  - apply last_key_Some in Hl as Hl'. destruct Hl' as [[x Hx] Hle].
    destruct (N.lt_ge_cases last g) as [Hlt|Hge].
    + rewrite N.max_r by lia. eapply last_key_unique; [apply lookup_insert_eq|].
      intros k v. destruct (decide (k = g)) as [->|Hne]; [lia|].
      rewrite lookup_insert_ne by done. intros Hk%pruned_lookup. apply Hle in Hk. lia.
    + rewrite N.max_l by lia. destruct (decide (last = g)) as [->|Hne].
      * eapply last_key_unique; [apply lookup_insert_eq|].
        intros k v. destruct (decide (k = g)) as [->|Hne]; [lia|].
        rewrite lookup_insert_ne by done. intros Hk%pruned_lookup. by apply Hle in Hk.
      * eapply (last_key_unique _ _ x).
        { rewrite lookup_insert_ne by done. unfold pruned, latest. rewrite Hl. cbn.
          by rewrite (proj2 (N.ltb_ge _ _)). }
        intros k v. destruct (decide (k = g)) as [->|Hne']; [lia|].
        rewrite lookup_insert_ne by done. intros Hk%pruned_lookup. by apply Hle in Hk.
  - rewrite N.max_id. apply last_key_None in Hl. subst b.
    eapply last_key_unique; [apply lookup_insert_eq|].
    intros k v. destruct (decide (k = g)) as [->|Hne]; [lia|].
    rewrite lookup_insert_ne by done. intros Hk%pruned_lookup. by rewrite lookup_empty in Hk.
Qed.

Lemma latest_le_marked b g h last :
  last_key b = Some last -> last <= N.max (latest b g) g.
Proof. unfold latest. intros ->. cbn. lia. Qed.

Lemma stored_marked b g h :
  acceptable b g h -> stored (marked b g h) = stored (pruned b g) + 1.
Proof.
  intros (_ & Hd & _). unfold marked, stored.
  pose proof (map_sum_insert (fun _ x => bucket_len x) (pruned b g) g
    ({[ h ]} ∪ default ∅ (pruned b g !! g))) as Hs.
  unfold opt_val in Hs. revert Hs.
  destruct (pruned b g !! g) as [x|] eqn:Hx; cbn; unfold bucket_len.
  - apply pruned_lookup in Hx. rewrite size_union by (apply Hd in Hx; set_solver).
    rewrite size_singleton. lia.
  - rewrite union_empty_r_L, size_singleton. lia.
Qed.

Lemma buckets_wf_marked b g h :
  buckets_wf b -> acceptable b g h -> buckets_wf (marked b g h).
Proof.
  intros [Hne Hwin Hlim] Hacc. pose proof Hacc as (Hw & Hd & Hl).
  destruct Hcfg as [HP _]. split.
  - intros k x. unfold marked. destruct (decide (k = g)) as [->|Hk].
    + rewrite lookup_insert_eq. intros [= <-]. set_solver.
    + rewrite lookup_insert_ne by done. intros Hx%pruned_lookup. by eapply Hne.
  - intros k x last Hk. rewrite last_key_marked. intros [= <-]. unfold marked in Hk.
    destruct (decide (k = g)) as [->|Hkg]; [lia|].
    rewrite lookup_insert_ne in Hk by done. unfold pruned in Hk. unfold latest in *.
    destruct (last_key b) as [last|] eqn:Hlast; cbn in *.
    + destruct (N.ltb_spec last g).
      * apply split_off_lookup in Hk as [_ ?]. lia.
      * specialize (Hwin _ _ _ Hk eq_refl). lia.
    + apply last_key_None in Hlast. subst b. rewrite N.ltb_irrefl in Hk.
      by rewrite lookup_empty in Hk.
  - rewrite stored_marked by done. done.
Qed.

(** Conversely, what the check accepts can be attempted. *)
Lemma attempt_nonce s c n h :
  nonce_of s c = n -> n < u64_max ->
  attempt s c (Nonce n) h (mk (generations s) (<[c := n + 1]> (nonces s))).
Proof.
  intros Hn Hmax.
  apply (attempt_intro s c (Nonce n) h unit unit tt tt Node (Acc tt s)
    (Acc tt (mk (generations s) (<[c := n + 1]> (nonces s))))); [done|done|done|..];
    apply wp_unmetered; cbn.
  - apply wp_check_nonce; [by intros e [[]|Hne]|done].
  - rewrite <- Hn. apply wp_mark_nonce; [by intros []|done|lia].
Qed.

Lemma attempt_generation s c g h :
  acceptable (buckets_of s c) g h ->
  attempt s c (Generation g) h
    (mk (<[c := marked (buckets_of s c) g h]> (generations s)) (nonces s)).
Proof.
  intros Hacc.
  apply (attempt_intro s c (Generation g) h unit unit tt tt Node (Acc tt s)
    (Acc tt (mk (<[c := marked (buckets_of s c) g h]> (generations s)) (nonces s))));
    [done|done|done|..]; apply wp_unmetered; cbn.
  - apply wp_check_generation; [by intros e [[]|Hne]|done].
  - apply wp_mark_generation; [done|by intros []|done].
Qed.

Lemma attempt_wf s c u h s' : wf s -> attempt s c u h s' -> wf s'.
Proof.
  intros Hwf Hat c'. apply attempt_effect in Hat. destruct u as [n|g].
  - destruct Hat as (_ & _ & ->). apply Hwf.
  - destruct Hat as (Hacc & ->). rewrite buckets_of_insert. case_bool_decide; [|apply Hwf].
    by apply buckets_wf_marked.
Qed.

(** *** What has been seen stays seen *)

Lemma seen_attempted s c u h s' : attempt s c u h s' -> seen s' c u h.
Proof.
  intros Hat. apply attempt_effect in Hat. destruct u as [n|g]; cbn.
  - destruct Hat as (_ & _ & ->). rewrite nonce_of_insert, bool_decide_eq_true_2 by done. lia.
  - destruct Hat as (_ & ->). rewrite buckets_of_insert, bool_decide_eq_true_2 by done.
    left. unfold marked. rewrite lookup_insert_eq. eexists. split; [done|]. set_solver.
Qed.

Lemma seen_marked b g h g' h' :
  (exists x, b !! g' = Some x /\ h' ∈ x) \/
  (exists last, last_key b = Some last /\ g' + PAST_TRANSACTION_GENERATIONS <= last) ->
  (exists x, marked b g h !! g' = Some x /\ h' ∈ x) \/
  (exists last, last_key (marked b g h) = Some last /\
     g' + PAST_TRANSACTION_GENERATIONS <= last).
Proof.
  rewrite last_key_marked. intros [(x & Hx & Hh)|(last & Hlast & Hle)].
  - unfold marked, pruned. destruct (N.ltb_spec (latest b g) g) as [Hlt|Hge].
    + destruct (N.le_gt_cases (g - PAST_TRANSACTION_GENERATIONS) g') as [Hin|Hout].
      * assert (split_off (g - PAST_TRANSACTION_GENERATIONS) b !! g' = Some x) as Hs
          by (by apply split_off_lookup).
        left. destruct (decide (g' = g)) as [->|Hne].
        { rewrite lookup_insert_eq, Hs. cbn. eexists; split; [done|]. set_solver. }
        rewrite lookup_insert_ne by done. eauto.
      * right. eexists. split; [done|]. lia.
    + left. destruct (decide (g' = g)) as [->|Hne].
      { rewrite lookup_insert_eq, Hx. cbn. eexists; split; [done|]. set_solver. }
      rewrite lookup_insert_ne by done. eauto.
  - right. eexists. split; [done|]. pose proof (latest_le_marked b g h last Hlast). lia.
Qed.

Lemma seen_attempt s c u h c' u' h' s' :
  seen s c u h -> attempt s c' u' h' s' -> seen s' c u h.
Proof.
  intros Hseen Hat. apply attempt_effect in Hat. destruct u' as [n'|g'].
  - destruct Hat as (Hn & _ & ->). destruct u as [n|g]; cbn in *; [|done].
    rewrite nonce_of_insert. case_bool_decide; subst; [lia|done].
  - destruct Hat as (_ & ->). destruct u as [n|g]; cbn in *; [done|].
    rewrite buckets_of_insert. case_bool_decide; subst; [|done]. by apply seen_marked.
Qed.

Lemma seen_attempts s c u h s' : seen s c u h -> attempts s s' -> seen s' c u h.
Proof. intros Hs Hat. induction Hat; [done|]. by eapply seen_attempt. Qed.

Lemma attempts_trans s1 s2 s3 : attempts s1 s2 -> attempts s2 s3 -> attempts s1 s3.
Proof. intros H12 H23. induction H23; [done|]. by eapply attempts_step. Qed.

Lemma attempt_not_seen s c u h s' : attempt s c u h s' -> ~ seen s c u h.
Proof.
  intros Hat Hseen. apply attempt_effect in Hat. destruct Hcfg as [HP _].
  destruct u as [n|g]; cbn in *; [destruct Hat; lia|]. destruct Hat as ((Hw & Hd & _) & _).
  destruct Hseen as [(x & Hx & Hh)|(last & Hlast & Hle)]; [by apply (Hd x)|].
  unfold latest in Hw. rewrite Hlast in Hw. cbn in Hw. lia.
Qed.

Lemma seen_rejected {G : Type} `{GasMeterLaws G} c u h ctx (gm : G) s a :
  seen s c u h -> ctx <> SequencerWarmUp -> meter_wf gm ->
  check_uniqueness c u h ctx (Acc gm s) <> (Ok tt, a).
Proof.
  intros Hseen Hctx Hg Hrun. pose proof (check_run c u h ctx gm s a Hctx Hg Hrun) as Hc.
  destruct u as [n|g]; cbn in *; [lia|]. destruct Hc as (Hw & Hd & _). destruct Hcfg as [HP _].
  destruct Hseen as [(x & Hx & Hh)|(last & Hlast & Hle)]; [by apply (Hd x)|].
  unfold latest in Hw. rewrite Hlast in Hw. cbn in Hw. lia.
Qed.

(** *** The generation recommended on overflow *)

Lemma recommended_acceptable b g g' h k :
  buckets_wf b -> first_key (pruned b g) = Some k ->
  k + PAST_TRANSACTION_GENERATIONS < g' -> acceptable b g' h.
Proof.
  intros [Hne Hwin Hlim] Hk Hg'. destruct Hcfg as [HP _].
  apply first_key_Some in Hk as [[x Hx] _]. apply pruned_lookup in Hx.
  destruct (last_key b) as [last|] eqn:Hlast.
  2: { apply last_key_None in Hlast. subst b. by rewrite lookup_empty in Hx. }
  specialize (Hwin _ _ _ Hx eq_refl) as Hwk.
  apply last_key_Some in Hlast as Hl. destruct Hl as [_ Hmax].
  unfold acceptable, pruned, latest. rewrite Hlast. cbn.
  rewrite (proj2 (N.ltb_lt _ _)) by lia. split_and!; [lia| |].
  - intros y Hy. apply Hmax in Hy. lia.
  - assert (stored (split_off (g' - PAST_TRANSACTION_GENERATIONS) b)
            + bucket_len x <= stored b) as Hs.
    { unfold stored. rewrite (map_sum_delete (fun _ x => bucket_len x) b k). unfold opt_val.
      rewrite Hx. enough (map_sum (fun _ x => bucket_len x)
        (split_off (g' - PAST_TRANSACTION_GENERATIONS) b) <=
        map_sum (fun _ x => bucket_len x) (delete k b)) by lia.
      etransitivity; [|apply (map_sum_filter_le _
        (fun kv => g' - PAST_TRANSACTION_GENERATIONS <= kv.1))].
      apply N.eq_le_incl. f_equal. unfold split_off. rewrite map_filter_delete.
      rewrite delete_id; [done|]. apply map_lookup_filter_None. right. intros y _. cbn. lia. }
    assert (1 <= bucket_len x).
    { unfold bucket_len. specialize (Hne _ _ Hx).
      assert (size x <> 0%nat) by (intros Hz; by apply Hne, leibniz_equiv, size_empty_inv). lia. }
    lia.
Qed.
End Facts.
End UniquenessFacts.

(** ** A small configuration, for the witnesses *)
Module UniquenessDemo.
Import Uniqueness.

Definition demo_cfg : UniquenessConfig :=
  {| PAST_TRANSACTION_GENERATIONS := 3; MAX_STORED_TX_HASHES_PER_CREDENTIAL := 2 |}.

Definition fresh : t := mk ∅ ∅.

(** The state after marking [u] with hash [h] for the credential [[1]]. *)
Definition after (s : t) (u : UniquenessData) (h : TxHash) : t :=
  store (snd (mark_tx_attempted (Sp := test_spec) (Cfg := demo_cfg) (G := unit) [1] u h (Acc tt s))).

Definition one : t := after fresh (Generation 5) [10].
Definition two : t := after one (Generation 6) [11].

(** A credential that has used all its nonces but the last. *)
Definition last_nonce : t := mk ∅ {[ [1] := u64_max ]}.

Lemma demo_cfg_ok : config_ok (Cfg := demo_cfg).
Proof. split; [|split]; vm_compute; congruence. Qed.

Lemma fresh_wf : wf (Cfg := demo_cfg) fresh.
Proof.
  intros c. unfold buckets_of. cbn. rewrite lookup_empty. cbn. split.
  - intros g x. by rewrite lookup_empty.
  - intros g x last. by rewrite lookup_empty.
  - unfold stored. by rewrite map_sum_empty.
Qed.

(** An attempt on unmetered accessors, by evaluation. *)
Lemma demo_attempt s u h :
  is_ok (fst (check_uniqueness (Sp := test_spec) (Cfg := demo_cfg) (G := unit) [1] u h Node
    (Acc tt s))) = true ->
  is_ok (fst (mark_tx_attempted (Sp := test_spec) (Cfg := demo_cfg) (G := unit) [1] u h
    (Acc tt s))) = true ->
  attempt (Sp := test_spec) (Cfg := demo_cfg) s [1] u h (after s u h).
Proof.
  intros Hc Hm. eapply (attempt_intro (Sp := test_spec) (Cfg := demo_cfg) s [1] u h unit unit
    tt tt Node); [done|done|done|by apply run_ok|by apply run_ok].
Qed.

Lemma two_wf : wf (Cfg := demo_cfg) two.
Proof.
  eapply (UniquenessFacts.attempt_wf (Sp := test_spec) demo_cfg_ok one);
    [|apply demo_attempt; vm_compute; reflexivity].
  eapply (UniquenessFacts.attempt_wf (Sp := test_spec) demo_cfg_ok fresh);
    [exact fresh_wf|apply demo_attempt; vm_compute; reflexivity].
Qed.
End UniquenessDemo.

(** ** Properties *)
Module UniquenessProperties.
Import Uniqueness UniquenessFacts UniquenessDemo.
Section Properties.
Context {Sp : Spec} {Cfg : UniquenessConfig}.

(** C28: no replay.  A transaction that was checked and marked is rejected by
    every later check, however many other transactions of whatever credentials,
    nonces and generations were attempted in between and however the checks are
    metered. *)
Theorem no_replay (s s1 s2 : t) c u h
    (Hcfg : config_ok) (Hat : attempt s c u h s1) (Hats : attempts s1 s2) :
  forall (G : Type) `{GasMeterLaws G} (gm : G) ctx a,
    meter_wf gm -> ctx <> SequencerWarmUp ->
    check_uniqueness c u h ctx (Acc gm s2) <> (Ok tt, a).
Proof.
  intros G HG HL gm ctx a Hg Hctx. eapply seen_rejected; [done| |done|done].
  eapply seen_attempts; [done| |done]. by eapply seen_attempted.
Qed.

(** A transaction that passes the check, outside the warm-up of a
    sequencer, can be marked: the assertions of the mark hold, so it does not
    panic on any accessor and succeeds on one that does not charge.  The only
    exception is the nonce [u64::MAX]. *)
Theorem check_ensures_mark {G : Type} `{GasMeterLaws G} (gm : G) (s : t) c u h ctx a
    (Hcfg : config_ok) (Hg : meter_wf gm) (Hctx : ctx <> SequencerWarmUp)
    (Hcheck : check_uniqueness c u h ctx (Acc gm s) = (Ok tt, a))
    (Hnonce : u <> Nonce u64_max) (Hwidth : forall n, u = Nonce n -> n <= u64_max) :
  fst (mark_tx_attempted c u h (Acc gm s)) <> Panic /\
  exists s', mark_tx_attempted c u h (Acc tt s) = (Ok tt, Acc tt s').
Proof.
  pose proof (check_run Hcfg c u h ctx gm s a Hctx Hg Hcheck) as Hc.
  assert (forall (G' : Type) (HG : GasMeter G') (HL : GasMeterLaws G'),
    wp (G := G') (mark_tx_attempted c u h)
      (fun o _ => match o with Ok _ => True | Err _ => can_fail | Panic => False end) s) as Hwp.
  { intros G' HG HL. destruct u as [n|g]; cbn.
    - assert (n <> u64_max) by congruence. specialize (Hwidth n eq_refl).
      apply wp_mark_nonce; [done|done|]. lia.
    - by apply wp_mark_generation. }
  split.
  - specialize (Hwp G _ _ gm Hg). destruct (mark_tx_attempted c u h (Acc gm s)) as [[]];
      cbn; [done|done|tauto].
  - specialize (Hwp unit _ _ tt I).
    destruct (mark_tx_attempted c u h (Acc tt s)) as [[[]|e|] [[] s']]; [by exists s'|..];
      by destruct Hwp.
Qed.

(** The limit on stored hashes.  In every state that attempts lead to from
    a well-formed one, each credential stores at most
    [MAX_STORED_TX_HASHES_PER_CREDENTIAL] hashes, all in the window of its
    latest generation. *)
Theorem stored_hashes_bounded (s s' : t) c
    (Hcfg : config_ok) (Hwf : wf s) (Hats : attempts s s') :
  buckets_wf (buckets_of s' c).
Proof.
  revert c. change (wf s'). induction Hats; [done|]. eapply attempt_wf; eauto.
Qed.

(** On an accessor that does not charge, the check of a generation always
    returns, accepts exactly the acceptable transactions and leaves the state
    alone. *)
Theorem check_generation_exact (s : t) c g h (Hcfg : config_ok) :
  exists o, check_generation_uniqueness c g h (Acc tt s) = (o, Acc tt s) /\
    o <> Panic /\ (o = Ok tt <-> acceptable (buckets_of s c) g h).
Proof.
  assert (wp (G := unit) (check_generation_uniqueness c g h)
    (fun o s' => s' = s /\ o <> Panic /\ (o = Ok tt <-> acceptable (buckets_of s c) g h)) s) as Hwp.
  { apply wp_check_generation; [done|..].
    - intros e [[]|Hn] _. naive_solver.
    - naive_solver. }
  specialize (Hwp tt I). destruct (check_generation_uniqueness c g h (Acc tt s)) as [o [[] s']].
  exists o. naive_solver.
Qed.

(** When the check rejects a transaction because too many hashes are
    stored, every generation above the one its error names is accepted. *)
Theorem overflow_advice_correct (s : t) c g h l g' h' a
    (Hcfg : config_ok) (Hwf : wf s)
    (Hcheck : check_generation_uniqueness c g h (Acc tt s) = (Err (TooManyTransactions l), a))
    (Hg' : l < g') :
  check_generation_uniqueness c g' h' (Acc tt s) = (Ok tt, Acc tt s).
Proof.
  assert (wp (G := unit) (check_generation_uniqueness c g h)
    (fun o _ => forall l, o = Err (TooManyTransactions l) -> exists k,
       first_key (pruned (buckets_of s c) g) = Some k /\
       l = k + PAST_TRANSACTION_GENERATIONS) s) as Hwp.
  { apply wp_check_generation; [done|naive_solver|naive_solver]. }
  specialize (Hwp tt I). rewrite Hcheck in Hwp. destruct Hwp as [_ Hwp].
  destruct (Hwp l eq_refl) as (k & Hk & ->).
  apply wp_unmetered. apply wp_check_generation; [done| |done].
  intros e [[]|Hn] _. destruct Hn. by eapply recommended_acceptable.
Qed.

(** The nonce [u64::MAX] passes the check but cannot be marked: the mark
    panics. *)
Theorem max_nonce_panics (s : t) c h (Hn : nonce_of s c = u64_max) :
  check_uniqueness c (Nonce u64_max) h Node (Acc tt s) = (Ok tt, Acc tt s) /\
  mark_tx_attempted c (Nonce u64_max) h (Acc tt s) = (Panic, Acc tt s).
Proof.
  split; apply wp_unmetered; cbn.
  - apply wp_check_nonce; [by intros e [[]|Hne]|done].
  - apply wp_mark_nonce; [by intros []|rewrite Hn; by unfold u64_max|done].
Qed.
End Properties.

Lemma no_replay_witness :
  check_uniqueness (Sp := test_spec) (Cfg := demo_cfg) [1] (Generation 5) [10] Node
    (Acc tt (after one (Generation 9) [12])) <>
  (Ok tt, Acc tt (after one (Generation 9) [12])).
Proof.
  refine (no_replay (Sp := test_spec) (Cfg := demo_cfg) fresh one _ [1] (Generation 5) [10]
    demo_cfg_ok _ _ unit tt Node _ I _); [| |discriminate].
  - apply demo_attempt; vm_compute; reflexivity.
  - eapply attempts_step; [apply attempts_refl|].
    apply demo_attempt; vm_compute; reflexivity.
Defined.

Lemma check_ensures_mark_witness :
  fst (mark_tx_attempted (Sp := test_spec) (Cfg := demo_cfg) (G := unit) [1] (Generation 6) [11]
    (Acc tt one)) <> Panic /\
  exists s', mark_tx_attempted (Sp := test_spec) (Cfg := demo_cfg) (G := unit) [1]
    (Generation 6) [11] (Acc tt one) = (Ok tt, Acc tt s').
Proof.
  eapply (check_ensures_mark (Sp := test_spec) (Cfg := demo_cfg) tt one [1] (Generation 6) [11]
    Node).
  - exact demo_cfg_ok.
  - exact I.
  - discriminate.
  - apply run_ok. vm_compute. reflexivity.
  - discriminate.
  - discriminate.
Defined.

Lemma stored_hashes_bounded_witness : buckets_wf (Cfg := demo_cfg) (buckets_of two [1]).
Proof.
  apply (stored_hashes_bounded (Sp := test_spec) (Cfg := demo_cfg) fresh two [1]).
  - exact demo_cfg_ok.
  - exact fresh_wf.
  - eapply attempts_step; [|apply demo_attempt; vm_compute; reflexivity].
    eapply attempts_step; [apply attempts_refl|apply demo_attempt; vm_compute; reflexivity].
Defined.

Lemma check_generation_exact_witness :
  exists o, check_generation_uniqueness (Sp := test_spec) (Cfg := demo_cfg) [1] 6 [12]
      (Acc tt two) = (o, Acc tt two) /\
    o <> Panic /\ (o = Ok tt <-> acceptable (Cfg := demo_cfg) (buckets_of two [1]) 6 [12]).
Proof.
  exact (check_generation_exact (Sp := test_spec) (Cfg := demo_cfg) two [1] 6 [12] demo_cfg_ok).
Defined.

(** Two hashes are stored, in generations 5 and 6; the error names 5 + 3. *)
Lemma overflow_advice_correct_witness :
  check_generation_uniqueness (Sp := test_spec) (Cfg := demo_cfg) [1] 9 [12] (Acc tt two) =
    (Ok tt, Acc tt two).
Proof.
  apply (overflow_advice_correct (Sp := test_spec) (Cfg := demo_cfg) two [1] 6 [12] 8 9 [12]
    (Acc tt two)).
  - exact demo_cfg_ok.
  - exact two_wf.
  - vm_compute. reflexivity.
  - lia.
Defined.

Lemma max_nonce_panics_witness :
  check_uniqueness (Sp := test_spec) (Cfg := demo_cfg) [1] (Nonce u64_max) [10] Node
    (Acc tt last_nonce) = (Ok tt, Acc tt last_nonce) /\
  mark_tx_attempted (Sp := test_spec) (Cfg := demo_cfg) [1] (Nonce u64_max) [10]
    (Acc tt last_nonce) = (Panic, Acc tt last_nonce).
Proof.
  apply (max_nonce_panics (Sp := test_spec) (Cfg := demo_cfg)). reflexivity.
Defined.
End UniquenessProperties.
