(* ===== verification/Accounts.v ===== *)
(** * Credentials and addresses (sov-accounts)

    [Accounts.t] is the state of lib.rs: the account of each credential and the
    switch that allows custom mappings.  The operations are the call message of
    call.rs, the resolution of senders of capabilities.rs, [init_module] of
    genesis.rs and [get_account] of query.rs.

    The main results: a credential, once mapped, keeps its address through every
    operation; the resolution of a sender is stable; genesis installs exactly
    the configured accounts. *)

From Stdlib Require Import NArith Lia.
From stdpp Require Import base numbers gmap strings option list.
From S2P Require Import Prelude Ints Gas StateAccess Uniqueness.

Module Accounts.
Section AccountsModule.
Context {Sp : Spec}.

Record Account : Type := mkAccount { addr : Address }.

Record t : Type := mk {
  accounts : gmap CredentialId Account;
  enable_custom_account_mappings : option bool
}.

Definition accounts_map : StateMap t CredentialId Account :=
  mkStateMap "sov_accounts/Accounts/accounts" User accounts
    (fun m s => mk m (enable_custom_account_mappings s)).

Definition enable_value : StateValue t bool :=
  mkStateValue "sov_accounts/Accounts/enable_custom_account_mappings" User
    enable_custom_account_mappings (fun v s => mk (accounts s) v).

Inductive CallMessage : Type :=
| InsertCredentialId (new_credential_id : CredentialId).

Inductive Error : Type :=
| StateError (e : StateAccessorError)
| MappingsDisabled
| CredentialExists
| AccountsProvided
| AccountExistsAtGenesis.

Record AccountData : Type := mkAccountData {
  credential_id : CredentialId;
  address : Address
}.

Record AccountConfig : Type := mkAccountConfig {
  cfg_accounts : list AccountData;
  cfg_enable : bool
}.

Inductive Response : Type :=
| AccountExists (a : Address)
| AccountEmpty.

Section Operations.
Context {G : Type} `{GasMeter G}.

(** ** call.rs *)
Definition exit_if_credential_exists (new_credential_id : CredentialId)
  : M (acc G t) Error unit :=
  let! account := map_err StateError (map_get accounts_map new_credential_id) in
  ensure (negb (bool_decide (is_Some account))) CredentialExists.

Definition insert_credential_id (new_credential_id : CredentialId) (context : Context Sp)
  : M (acc G t) Error unit :=
  let! enabled := map_err StateError (value_get enable_value) in
  let! enabled := expect_some enabled in
  ensure enabled MappingsDisabled ;;;
  exit_if_credential_exists new_credential_id ;;;
  map_err StateError (map_set accounts_map new_credential_id (mkAccount (sender context))).

Definition call (msg : CallMessage) (context : Context Sp) : M (acc G t) Error unit :=
  match msg with
  | InsertCredentialId new_credential_id => insert_credential_id new_credential_id context
  end.

(** ** capabilities.rs *)
Definition resolve_sender_address (default_address : Address) (cred : CredentialId)
  : M (acc G t) StateAccessorError Address :=
  let! account := map_get accounts_map cred in
  match account with
  | Some a => ret (addr a)
  | None =>
      map_set accounts_map cred (mkAccount default_address) ;;;
      ret default_address
  end.

Definition resolve_sender_address_read_only (default_address : Address) (cred : CredentialId)
  : M (acc G t) StateAccessorError Address :=
  let! account := map_get accounts_map cred in
  match account with
  | Some a => ret (addr a)
  | None => ret default_address
  end.

(** ** genesis.rs *)
Definition genesis_account (a : AccountData) : M (acc G t) Error unit :=
  let! existing := map_err StateError (map_get accounts_map (credential_id a)) in
  ensure (negb (bool_decide (is_Some existing))) AccountExistsAtGenesis ;;;
  map_err StateError (map_set accounts_map (credential_id a) (mkAccount (address a))).

Definition init_module (config : AccountConfig) : M (acc G t) Error unit :=
  map_err StateError (value_set enable_value (cfg_enable config)) ;;;
  if negb (cfg_enable config) then
    ensure (bool_decide (cfg_accounts config = [])) AccountsProvided
  else for_each genesis_account (cfg_accounts config).

(** ** query.rs *)
Definition get_account (cred : CredentialId) : M (acc G t) StateAccessorError Response :=
  let! account := map_get accounts_map cred in
  match account with
  | Some a => ret (AccountExists (addr a))
  | None => ret AccountEmpty
  end.
End Operations.

(** The operations that later transactions perform on the module. *)
Inductive op : Type :=
| OpCall (msg : CallMessage) (context : Context Sp)
| OpResolve (default_address : Address) (cred : CredentialId).

Definition run_op {G : Type} `{GasMeter G} (o : op) (a : acc G t) : acc G t :=
  match o with
  | OpCall msg context => snd (call msg context a)
  | OpResolve default_address cred => snd (resolve_sender_address default_address cred a)
  end.

(** Any sequence of operations, those that fail half-way included. *)
Definition run_ops {G : Type} `{GasMeter G} (ops : list op) (a : acc G t) : acc G t :=
  foldl (fun a o => run_op o a) a ops.

Definition account_entry (s : t) (cred : CredentialId) : option Address :=
  addr <$> accounts s !! cred.
End AccountsModule.
End Accounts.

(** ** Lemmas *)
Module AccountsFacts.
Import Accounts.
Section Facts.
Context {Sp : Spec} {G : Type} `{GasMeterLaws G}.
Implicit Types (s : t) (cred : CredentialId).

Lemma wp_exit_if_credential_exists cred (Q : outcome Error unit -> t -> Prop) s :
  (forall e, can_fail \/ is_Some (accounts s !! cred) -> Q (Err e) s) ->
  (accounts s !! cred = None -> Q (Ok tt) s) ->
  wp (exit_if_credential_exists cred) Q s.
Proof.
  intros He Hok. unfold exit_if_credential_exists. repeat wp_step; cbn in *; checked_simpl; auto.
  apply Hok. by apply eq_None_not_Some.
Qed.

(** The call inserts a fresh credential for the sender, or changes nothing. *)
Lemma wp_insert cred c (Q : outcome Error unit -> t -> Prop) s :
  is_Some (enable_custom_account_mappings s) ->
  (forall e, Q (Err e) s) ->
  (enable_custom_account_mappings s = Some true -> accounts s !! cred = None ->
     Q (Ok tt) (mk (<[cred := mkAccount (sender c)]> (accounts s))
       (enable_custom_account_mappings s))) ->
  wp (insert_credential_id cred c) Q s.
Proof.
  intros [en Hen] He Hok. unfold insert_credential_id.
  wp_step. wp_step. wp_step; [auto|]. wp_step. wp_step; cbn in *; [|congruence]. simplify_eq.
  wp_step. wp_step; [|auto]. subst.
  apply wp_bind, wp_exit_if_credential_exists; wp_red; [auto|].
  intros Hnone. repeat wp_step; auto.
Qed.

Lemma wp_resolve d cred (Q : outcome StateAccessorError Address -> t -> Prop) s :
  (can_fail -> forall e, Q (Err e) s) ->
  (forall a, accounts s !! cred = Some a -> Q (Ok (addr a)) s) ->
  (accounts s !! cred = None -> Q (Ok d)
     (mk (<[cred := mkAccount d]> (accounts s)) (enable_custom_account_mappings s))) ->
  wp (resolve_sender_address d cred) Q s.
Proof.
  intros He Hs Hn. unfold resolve_sender_address. wp_step. wp_step; [by apply He|]. cbn.
  destruct (accounts s !! cred) as [a|] eqn:Ha; repeat wp_step; auto.
Qed.

(** Whatever an operation does, the mapped credentials keep their account and
    the switch stays set. *)
Lemma run_op_keeps o (g : G) s :
  meter_wf g -> is_Some (enable_custom_account_mappings s) ->
  let a := run_op o (Acc g s) in
  meter_wf (meter a) /\ accounts s ⊆ accounts (store a) /\
  enable_custom_account_mappings (store a) = enable_custom_account_mappings s.
Proof.
  intros Hg Hen.
  assert (forall E A (m : M (acc G t) E A),
    wp m (fun _ s' => accounts s ⊆ accounts s' /\
      enable_custom_account_mappings s' = enable_custom_account_mappings s) s ->
    let a := snd (m (Acc g s)) in meter_wf (meter a) /\ accounts s ⊆ accounts (store a) /\
      enable_custom_account_mappings (store a) = enable_custom_account_mappings s) as Hrun.
  { intros E A m Hwp. specialize (Hwp g Hg). by destruct (m (Acc g s)). }
  destruct o as [[cred] c|d cred]; cbn; apply Hrun.
  - apply wp_insert; [done|done|]. intros _ Hn. cbn. split; [|done]. by apply insert_subseteq.
  - apply wp_resolve; [done|done|]. intros Hn. cbn. split; [|done]. by apply insert_subseteq.
Qed.

Lemma run_ops_keeps ops (g : G) s :
  meter_wf g -> is_Some (enable_custom_account_mappings s) ->
  accounts s ⊆ accounts (store (run_ops ops (Acc g s))).
Proof.
  unfold run_ops. revert g s. induction ops as [|o ops IH]; intros g s Hg Hen; cbn; [done|].
  destruct (run_op_keeps o g s Hg Hen) as (Hg' & Hsub & Hen').
  destruct (run_op o (Acc g s)) as [g' s']. cbn in *.
  etransitivity; [done|]. apply IH; [done|congruence].
Qed.

(** The accounts listed in a configuration. *)
Lemma wp_genesis_accounts l (Q : outcome Error unit -> t -> Prop) s :
  (forall e s', Q (Err e) s') ->
  (forall s', enable_custom_account_mappings s' = enable_custom_account_mappings s ->
     (forall cred a, accounts s' !! cred = Some a <->
        accounts s !! cred = Some a \/ mkAccountData cred (addr a) ∈ l) ->
     NoDup (map credential_id l) -> Q (Ok tt) s') ->
  wp (for_each genesis_account l) Q s.
Proof.
  intros He Hok.
  apply (wp_for_each _ (fun pre s' =>
    enable_custom_account_mappings s' = enable_custom_account_mappings s /\
    (forall cred a, accounts s' !! cred = Some a <->
        accounts s !! cred = Some a \/ mkAccountData cred (addr a) ∈ pre) /\
    NoDup (map credential_id pre))).
  - split_and!; [done| |constructor]. set_solver.
  - intros pre [cr ad] rest s' _ (Hen & Hacc & Hnd). unfold genesis_account.
    repeat wp_step; auto. cbn in *. checked_simpl.
    assert (accounts s' !! cr = None) as Hnone by (by apply eq_None_not_Some).
    split_and!; [done| |].
    + intros cred a. destruct (decide (cred = cr)) as [->|Hne].
      * rewrite lookup_insert_eq. split.
        { intros [= <-]. right. cbn. set_solver. }
        intros Hin. destruct a as [a]. cbn in *. do 2 f_equal.
        rewrite elem_of_app, list_elem_of_singleton in Hin.
        assert (forall b, ~ (accounts s !! cr = Some b \/ mkAccountData cr (addr b) ∈ pre)) as Hno.
        { intros b Hb. apply Hacc in Hb. congruence. }
        specialize (Hno (mkAccount a)). cbn in Hno. naive_solver.
      * rewrite lookup_insert_ne by done. rewrite Hacc, elem_of_app, list_elem_of_singleton.
        naive_solver.
    + rewrite map_app. apply NoDup_app. split_and!; [done| |repeat constructor; set_solver].
      intros cred Hin Heq. cbn in Heq. apply list_elem_of_singleton in Heq. subst.
      apply list_elem_of_fmap in Hin as ([cr' ad'] & -> & Hin). cbn in *.
      assert (accounts s' !! cr' = Some (mkAccount ad')) as Hs by (apply Hacc; by right).
      congruence.
  - intros s' (Hen & Hacc & Hnd). by apply Hok.
Qed.
End Facts.
End AccountsFacts.

(** ** Properties *)
Module AccountsProperties.
Import Accounts AccountsFacts.
Section Properties.
Context {Sp : Spec}.

(** An address, once resolved for a credential, is the address of that
    credential for good: whatever operations follow, with whatever metering
    and failures, every later resolution gives the same address, whatever
    default it is given. *)
Theorem resolved_address_permanent {G : Type} `{GasMeterLaws G} (g : G) (s : t) d cred x a
    ops (g' : G) d'
    (Hg : meter_wf g) (Hg' : meter_wf g') (Hen : is_Some (enable_custom_account_mappings s))
    (Hres : resolve_sender_address d cred (Acc g s) = (Ok x, a)) :
  let s' := store (run_ops ops (Acc g' (store a))) in
  account_entry s' cred = Some x /\
  resolve_sender_address d' cred (Acc tt s') = (Ok x, Acc tt s') /\
  resolve_sender_address_read_only d' cred (Acc tt s') = (Ok x, Acc tt s').
Proof.
  intros s'.
  assert (wp (resolve_sender_address d cred) (fun o s1 => forall x, o = Ok x ->
    enable_custom_account_mappings s1 = enable_custom_account_mappings s /\
    exists ac, accounts s1 !! cred = Some ac /\ addr ac = x) s) as Hwp.
  { apply wp_resolve; [done|naive_solver|]. intros _ y [= <-]. split; [done|].
    cbn. rewrite lookup_insert_eq. by eexists. }
  specialize (Hwp g Hg). rewrite Hres in Hwp. destruct Hwp as [_ Hwp].
  destruct (Hwp x eq_refl) as (Hen' & ac & Hac & <-).
  assert (accounts s' !! cred = Some ac) as Hs'.
  { eapply lookup_weaken; [done|]. apply run_ops_keeps; [done|congruence]. }
  split_and!.
  - unfold account_entry. by rewrite Hs'.
  - apply wp_unmetered, wp_resolve; [by intros []| |congruence].
    intros ac' Hac'. by simplify_eq.
  - apply wp_unmetered. unfold resolve_sender_address_read_only.
    wp_step. wp_step; [done|]. cbn. rewrite Hs'. by wp_step.
Qed.

(** A genesis that succeeds sets the switch as configured and installs
    exactly the configured accounts, without repeated credentials; with custom
    mappings disabled it installs none. *)
Theorem accounts_genesis_exact {G : Type} `{GasMeterLaws G} (g : G) config a
    (Hg : meter_wf g) (Hgen : init_module config (Acc g (mk ∅ None)) = (Ok tt, a)) :
  enable_custom_account_mappings (store a) = Some (cfg_enable config) /\
  NoDup (map credential_id (cfg_accounts config)) /\
  (cfg_enable config = false -> cfg_accounts config = []) /\
  forall cred x, account_entry (store a) cred = Some x <->
    mkAccountData cred x ∈ cfg_accounts config.
Proof.
  assert (wp (init_module config) (fun o s' => o = Ok tt ->
    enable_custom_account_mappings s' = Some (cfg_enable config) /\
    NoDup (map credential_id (cfg_accounts config)) /\
    (cfg_enable config = false -> cfg_accounts config = []) /\
    forall cred x, account_entry s' cred = Some x <->
      mkAccountData cred x ∈ cfg_accounts config) (mk ∅ None)) as Hwp.
  { unfold init_module. wp_step. wp_step. wp_step; [done|]. cbn.
    destruct (cfg_enable config) eqn:Hen; cbn.
    - apply wp_genesis_accounts; [done|]. cbn. intros s' Hen' Hacc Hnd _.
      split_and!; [done|done|done|]. intros cred x. unfold account_entry.
      specialize (Hacc cred). rewrite lookup_empty in Hacc.
      rewrite fmap_Some. split.
      + intros (ac & Hac & ->). apply Hacc in Hac as [?|?]; done.
      + intros Hin. exists (mkAccount x). split; [|done]. apply Hacc. by right.
    - wp_step; [|done]. checked_simpl. intros _. rewrite H1. cbn.
      split_and!; [done|constructor|done|]. intros cred x. unfold account_entry.
      cbn. rewrite lookup_empty. set_solver. }
  specialize (Hwp g Hg). rewrite Hgen in Hwp. by apply Hwp.
Qed.

(** Inserting a credential, on an accessor that does not charge, succeeds
    exactly when mappings are enabled and the credential is new; it then maps
    the credential to the sender and touches no other entry. *)
Theorem insert_credential_exact (s : t) cred c
    (Hen : is_Some (enable_custom_account_mappings s)) :
  exists o s', insert_credential_id cred c (Acc tt s) = (o, Acc tt s') /\
    if bool_decide (enable_custom_account_mappings s = Some true /\ accounts s !! cred = None)
    then o = Ok tt /\ account_entry s' cred = Some (sender c) /\
         forall cred', cred' <> cred -> account_entry s' cred' = account_entry s cred'
    else (exists e, o = Err e) /\ s' = s.
Proof.
  assert (wp (G := unit) (insert_credential_id cred c) (fun o s' =>
    if bool_decide (enable_custom_account_mappings s = Some true /\ accounts s !! cred = None)
    then o = Ok tt /\ account_entry s' cred = Some (sender c) /\
         forall cred', cred' <> cred -> account_entry s' cred' = account_entry s cred'
    else (exists e, o = Err e) /\ s' = s) s) as Hwp.
  { destruct Hen as [en Hen]. unfold insert_credential_id.
    wp_step. wp_step. wp_step; [done|]. cbn. rewrite Hen. cbn [expect_some]. wp_step. wp_step.
    wp_step. destruct en; wp_step; try done.
    - apply wp_bind, wp_exit_if_credential_exists; wp_red.
      + intros e [[]|[ac Hac]]. rewrite bool_decide_eq_false_2 by naive_solver. eauto.
      + intros Hn. wp_step. wp_step; [done|]. cbn.
        rewrite bool_decide_eq_true_2 by done. split_and!; [done|..].
        * unfold account_entry. cbn. by rewrite lookup_insert_eq.
        * intros cred' Hne. unfold account_entry. cbn. by rewrite lookup_insert_ne.
    - rewrite bool_decide_eq_false_2 by naive_solver. eauto. }
  specialize (Hwp tt I). destruct (insert_credential_id cred c (Acc tt s)) as [o [[] s']].
  exists o, s'. by destruct Hwp.
Qed.
End Properties.

(** States and a context for the witnesses. *)
Definition demo_caller : Context test_spec :=
  @mkContext test_spec 8 50 60 None 8 Node NonPreferred.
Definition no_accounts : t (Sp := test_spec) := @mk test_spec ∅ (Some true).
Definition one_account : t (Sp := test_spec) :=
  @mk test_spec {[ [1] := @mkAccount test_spec 4 ]} (Some true).
Definition demo_ops : list (op (Sp := test_spec)) :=
  [OpCall (InsertCredentialId [1]) demo_caller; OpCall (InsertCredentialId [2]) demo_caller].
Definition resolved : acc unit (t (Sp := test_spec)) :=
  snd (resolve_sender_address (Sp := test_spec) (G := unit) 4 [1] (Acc tt no_accounts)).
Definition later : t (Sp := test_spec) :=
  store (run_ops (Sp := test_spec) (G := unit) demo_ops (Acc tt (store resolved))).
Definition demo_accounts_config : AccountConfig (Sp := test_spec) :=
  @mkAccountConfig test_spec
    [@mkAccountData test_spec [1] 4; @mkAccountData test_spec [2] 4] true.
Definition after_genesis : acc unit (t (Sp := test_spec)) :=
  snd (init_module (Sp := test_spec) (G := unit) demo_accounts_config (Acc tt (mk ∅ None))).

Lemma resolved_address_permanent_witness :
  account_entry later [1] = Some 4 /\
  resolve_sender_address (Sp := test_spec) 9 [1] (Acc tt later) = (Ok 4, Acc tt later) /\
  resolve_sender_address_read_only (Sp := test_spec) 9 [1] (Acc tt later) = (Ok 4, Acc tt later).
Proof.
  apply (resolved_address_permanent (Sp := test_spec) (G := unit) tt no_accounts 4 [1] 4 resolved
    demo_ops tt 9).
  - exact I.
  - exact I.
  - by exists true.
  - apply injective_projections; [vm_compute; reflexivity|reflexivity].
Defined.

Lemma accounts_genesis_exact_witness :
  enable_custom_account_mappings (store after_genesis) = Some true /\
  NoDup (map credential_id (cfg_accounts demo_accounts_config)) /\
  (cfg_enable demo_accounts_config = false -> cfg_accounts demo_accounts_config = []) /\
  forall cred x, account_entry (store after_genesis) cred = Some x <->
    mkAccountData cred x ∈ cfg_accounts demo_accounts_config.
Proof.
  apply (accounts_genesis_exact (Sp := test_spec) (G := unit) tt demo_accounts_config
    after_genesis).
  - exact I.
  - apply run_ok. vm_compute. reflexivity.
Defined.

Lemma insert_credential_exact_witness :
  exists o s', insert_credential_id (Sp := test_spec) [2] demo_caller (Acc tt one_account) =
      (o, Acc tt s') /\
    if bool_decide (enable_custom_account_mappings one_account = Some true /\
                    accounts one_account !! [2] = None)
    then o = Ok tt /\ account_entry s' [2] = Some 8 /\
         forall cred', cred' <> [2] -> account_entry s' cred' = account_entry one_account cred'
    else (exists e, o = Err e) /\ s' = one_account.
Proof.
  apply (insert_credential_exact (Sp := test_spec) one_account [2] demo_caller). by exists true.
Defined.
End AccountsProperties.
