(* ===== verification/SequencerRegistry.v ===== *)
(** * The sequencer registry (sov-sequencer-registry)

    [SequencerRegistry.t] is the state of lib.rs with the bank module it calls:
    the known sequencers with their stake, the preferred sequencer and the
    minimum bond.  The operations are the call messages of call.rs, the
    capabilities of capabilities.rs and lib.rs ([remove_part_of_the_stake],
    [add_to_stake], [slash_sequencer], the escrow functions and the queries) and
    [init_module] of genesis.rs.

    The bank is reached through [on_bank], so its operations run on the same
    accessor; its specification is used through the rules of [BankFacts].  The
    visible slot number that a [VersionReader] provides is an argument.

    The invariant [SequencerRegistry.inv] is solvency: the gas tokens held by
    the module cover the stakes of all known sequencers. *)

From Stdlib Require Import NArith Lia.
From stdpp Require Import base numbers gmap strings option list.
From S2P Require Import Prelude Ints Gas StateAccess Bank.

(** The constant read with [config_value!]. *)
Class RegistryConstants : Type := { DEFERRED_SLOTS_COUNT : N }.

Module SequencerRegistry.
Section Registry.
Context {Sp : Spec} {Cst : RegistryConstants}.

Inductive BalanceState : Type :=
| Active
| PendingWithdrawal (ready_at : N).

#[global] Instance BalanceState_eq_dec : EqDecision BalanceState.
Proof. solve_decision. Defined.

Record KnownSequencer : Type := mkKnown {
  address : Address;
  stake : N;
  balance_state : BalanceState
}.

Record AllowedSequencer : Type := mkAllowed {
  allowed_address : Address;
  allowed_balance : N
}.

Inductive AllowedSequencerError : Type := NotRegistered | NotActive.

Inductive Event : Type :=
| Registered (sequencer : Address) (amount : N)
| InitiatedWithdrawal (sequencer : Address)
| Withdrew (sequencer : Address) (amount_withdrawn : N)
| Deposited (sequencer : Address) (amount : N).

Record t : Type := mk {
  id : ModuleId;
  bank : Bank.t;
  known_sequencers : gmap DaAddress KnownSequencer;
  preferred_sequencer : option DaAddress;
  minimum_bond : option N;
  events : list Event
}.

Definition known_map : StateMap t DaAddress KnownSequencer :=
  mkStateMap "sov_sequencer_registry/SequencerRegistry/known_sequencers" Kernel known_sequencers
    (fun m s => mk (id s) (bank s) m (preferred_sequencer s) (minimum_bond s) (events s)).

Definition preferred_value : StateValue t DaAddress :=
  mkStateValue "sov_sequencer_registry/SequencerRegistry/preferred_sequencer" User
    preferred_sequencer
    (fun v s => mk (id s) (bank s) (known_sequencers s) v (minimum_bond s) (events s)).

Definition minimum_bond_value : StateValue t N :=
  mkStateValue "sov_sequencer_registry/SequencerRegistry/minimum_bond" User minimum_bond
    (fun v s => mk (id s) (bank s) (known_sequencers s) (preferred_sequencer s) v (events s)).

Definition set_bank (b : Bank.t) (s : t) : t :=
  mk (id s) b (known_sequencers s) (preferred_sequencer s) (minimum_bond s) (events s).

(** [CustomError] and [RegistrationError], registration_lib/errors.rs *)
Inductive CustomError : Type :=
| CannotUnregisterDuringOwnBatch (da : DaAddress)
| WithdrawalNotInitiated (da : DaAddress)
| WithdrawalNotReady (da : DaAddress) (current_visible_height ready_at : N)
| SuppliedAddressDoesNotMatchTxSender (parameter sender : Address).

Inductive RegistrationError : Type :=
| IsNotRegistered (da : DaAddress)
| InsufficientFundsToTopUpAccount (a : Address) (amount_to_add : N)
| InsufficientStakeAmount (a : Address) (bond_amount minimum_bond_amount : N)
| ToppingAccountMakesBalanceOverflow (a : Address) (existing_balance amount_to_add : N)
| InsufficientFundsToRefundStakedAmount (a : Address) (amount : N)
| NoMinimumBondSet
| AlreadyRegistered (a : Address)
| WithdrawalAlreadyPending (a : Address)
| InsufficientFundsToRegister (a : Address) (amount : N)
| StateAccessorErr (e : StateAccessorError)
| Custom (e : CustomError).

Inductive CallMessage : Type :=
| Register (da_address : DaAddress) (amount : N)
| Deposit (da_address : DaAddress) (amount : N)
| InitiateWithdrawal (da_address : DaAddress)
| Withdraw (da_address : DaAddress).

Record SequencerConfig : Type := mkSequencerConfig {
  seq_rollup_address : Address;
  seq_da_address : DaAddress;
  seq_bond : N;
  is_preferred_sequencer : bool
}.

Record SequencerRegistryConfig : Type := mkRegistryConfig {
  cfg_minimum_bond : N;
  sequencer_config : SequencerConfig
}.

(** registration.rs *)
Definition gas_coins (amount : N) : Bank.Coins := Bank.mkCoins amount config_gas_token_id.

Definition is_active (b : BalanceState) : bool :=
  match b with Active => true | PendingWithdrawal _ => false end.

(** [TryFrom<KnownSequencer> for AllowedSequencer] *)
Definition try_into_allowed (k : KnownSequencer) : option AllowedSequencer :=
  if is_active (balance_state k) then Some (mkAllowed (address k) (stake k)) else None.

Section Operations.
Context {G : Type} `{GasMeter G}.

Definition on_bank {E A} (m : M (acc G Bank.t) E A) : M (acc G t) E A := zoom bank set_bank m.

Definition emit_event {E} (e : Event) : M (acc G t) E unit :=
  modify (fun s => mk (id s) (bank s) (known_sequencers s) (preferred_sequencer s)
    (minimum_bond s) (events s ++ [e])).

(** ** call.rs *)

Definition validate_sender (da_address : DaAddress) (sender : Address)
  : M (acc G t) RegistrationError unit :=
  let! known := map_err StateAccessorErr (map_get known_map da_address) in
  let! known := ok_or known (IsNotRegistered da_address) in
  let belongs_to := address known in
  ensure (bool_decide (sender = belongs_to))
    (Custom (SuppliedAddressDoesNotMatchTxSender belongs_to sender)).

Definition register_staker (da_address : DaAddress) (amount : N) (addr : Address)
  : M (acc G t) RegistrationError unit :=
  let! existing := map_err StateAccessorErr (map_get known_map da_address) in
  match existing with
  | Some existing_sequencer => throw (AlreadyRegistered (address existing_sequencer))
  | None =>
      let! minimum_bond := map_err StateAccessorErr (value_get minimum_bond_value) in
      let! minimum_bond := ok_or minimum_bond NoMinimumBondSet in
      ensure (negb (amount <? minimum_bond))
        (InsufficientStakeAmount addr amount minimum_bond) ;;;
      let! self_id := gets id in
      map_err (fun _ => InsufficientFundsToRegister addr amount)
        (on_bank (Bank.transfer_from (HolderUser addr) (HolderModule self_id)
           (gas_coins amount))) ;;;
      map_err StateAccessorErr
        (map_set known_map da_address (mkKnown addr amount Active)) ;;;
      emit_event (Registered addr amount)
  end.

Definition register (da_address : DaAddress) (amount : N) (context : Context Sp)
  : M (acc G t) RegistrationError unit :=
  register_staker da_address amount (sender context).

Definition deposit (da_address : DaAddress) (amount : N) (context : Context Sp)
  : M (acc G t) RegistrationError unit :=
  validate_sender da_address (sender context) ;;;
  let! existing := map_err StateAccessorErr (map_get known_map da_address) in
  let! existing := ok_or existing (IsNotRegistered da_address) in
  let addr := address existing in
  let! new_balance :=
    ok_or (Amount.checked_add (stake existing) amount)
      (ToppingAccountMakesBalanceOverflow addr (stake existing) amount) in
  let! self_id := gets id in
  map_err (fun _ => InsufficientFundsToTopUpAccount addr amount)
    (on_bank (Bank.transfer_from (HolderUser addr) (HolderModule self_id)
       (gas_coins amount))) ;;;
  map_err StateAccessorErr
    (map_set known_map da_address (mkKnown addr new_balance Active)) ;;;
  emit_event (Deposited addr amount).

(** [VisibleSlotNumber::advance]; [None] is its [unwrap] panic. *)
Definition advance (slot amount : N) : option N := checked_add u64_max slot amount.

Definition initiate_withdrawal (visible_slot : N) (da_address : DaAddress)
    (context : Context Sp) : M (acc G t) RegistrationError unit :=
  validate_sender da_address (sender context) ;;;
  let! existing := map_err StateAccessorErr (map_get known_map da_address) in
  let! existing := ok_or existing (IsNotRegistered da_address) in
  ensure (negb (bool_decide (address existing = sequencer context)))
    (Custom (CannotUnregisterDuringOwnBatch da_address)) ;;;
  ensure (is_active (balance_state existing)) (WithdrawalAlreadyPending (address existing)) ;;;
  let! ready_at := expect_some (advance visible_slot (DEFERRED_SLOTS_COUNT + 1)) in
  map_err StateAccessorErr
    (map_set known_map da_address
       (mkKnown (address existing) (stake existing) (PendingWithdrawal ready_at))) ;;;
  emit_event (InitiatedWithdrawal (address existing)).

Definition withdraw (visible_slot : N) (da_address : DaAddress) (context : Context Sp)
  : M (acc G t) RegistrationError unit :=
  validate_sender da_address (sender context) ;;;
  let! existing := map_err StateAccessorErr (map_get known_map da_address) in
  let! existing := ok_or existing (IsNotRegistered da_address) in
  match balance_state existing with
  | Active => throw (Custom (WithdrawalNotInitiated da_address))
  | PendingWithdrawal ready_at =>
      ensure (negb (visible_slot <? ready_at))
        (Custom (WithdrawalNotReady da_address visible_slot ready_at)) ;;;
      map_err StateAccessorErr (map_delete known_map da_address) ;;;
      let! self_id := gets id in
      expect (on_bank (Bank.transfer_from (HolderModule self_id) (HolderUser (address existing))
        (gas_coins (stake existing)))) ;;;
      emit_event (Withdrew (address existing) (stake existing))
  end.

Definition call (visible_slot : N) (message : CallMessage) (context : Context Sp)
  : M (acc G t) RegistrationError unit :=
  match message with
  | Register da_address amount => register da_address amount context
  | Deposit da_address amount => deposit da_address amount context
  | InitiateWithdrawal da_address => initiate_withdrawal visible_slot da_address context
  | Withdraw da_address => withdraw visible_slot da_address context
  end.

(** ** genesis.rs *)
Definition init_module (config : SequencerRegistryConfig) : M (acc G t) RegistrationError unit :=
  map_err StateAccessorErr (value_set minimum_bond_value Amount.ZERO) ;;;
  let sequencer_config := sequencer_config config in
  register_staker (seq_da_address sequencer_config) (seq_bond sequencer_config)
    (seq_rollup_address sequencer_config) ;;;
  map_err StateAccessorErr (value_set minimum_bond_value (cfg_minimum_bond config)) ;;;
  if is_preferred_sequencer sequencer_config
  then map_err StateAccessorErr (value_set preferred_value (seq_da_address sequencer_config))
  else ret tt.

(** ** lib.rs *)

Definition get_preferred_sequencer
  : M (acc G t) StateAccessorError (option (DaAddress * Address)) :=
  let! da_addr := value_get preferred_value in
  match da_addr with
  | Some da_addr =>
      let! known := map_get known_map da_addr in
      ret ((fun seq => (da_addr, address seq)) <$> known)
  | None => ret None
  end.

(** The errors of the infallible functions; state accesses cannot fail there,
    so their result is unwrapped. *)
Inductive StakeError : Type :=
| SequencerNotActive
| StakeTooLow (current amount : N)
| StakeOverflow
| SequencerNotRegistered
| NoReservedBalance
| NotEnoughReserved (needed available : N)
| StakeTransfer (e : Bank.TransferTokenError).

Definition is_sender_known (sender : DaAddress)
  : M (acc G t) AllowedSequencerError KnownSequencer :=
  let! known := expect (map_get known_map sender) in
  ok_or known NotRegistered.

Definition is_sender_allowed (sender : DaAddress)
  : M (acc G t) AllowedSequencerError AllowedSequencer :=
  let! known := is_sender_known sender in
  ok_or (try_into_allowed known) NotActive.

Definition get_sender_balance (sender : DaAddress) : M (acc G t) Empty_set (option N) :=
  let! known := expect (map_get known_map sender) in
  ret (stake <$> known).

Definition slash_sequencer (da_address : DaAddress) : M (acc G t) Empty_set unit :=
  expect (map_delete known_map da_address) ;;;
  let! preferred := expect (value_get preferred_value) in
  match preferred with
  | Some p => if bool_decide (da_address = p) then expect (value_delete preferred_value) else ret tt
  | None => ret tt
  end.

Definition retrieve_funds_from_escrow (holder : DerivedHolder) (recipient : Address)
    (tokens_needed_for_pre_exec_checks : N) : M (acc G t) StakeError unit :=
  let! reserved_balance :=
    expect (on_bank (Bank.get_balance_of (HolderDerived holder) config_gas_token_id)) in
  let! reserved_balance := ok_or reserved_balance NoReservedBalance in
  let! amount_to_refund :=
    ok_or (Amount.checked_sub reserved_balance tokens_needed_for_pre_exec_checks)
      (NotEnoughReserved tokens_needed_for_pre_exec_checks reserved_balance) in
  map_err StakeTransfer
    (on_bank (Bank.transfer_from (HolderDerived holder) (HolderUser recipient)
       (gas_coins amount_to_refund))) ;;;
  let! bank_id := gets (fun s => Bank.id (bank s)) in
  expect (on_bank (Bank.transfer_from (HolderDerived holder) (HolderModule bank_id)
    (gas_coins tokens_needed_for_pre_exec_checks))).

Definition refund_all_reserved_gas (holder : DerivedHolder) (recipient : Address)
  : M (acc G t) Empty_set unit :=
  let! reserved_balance :=
    expect (on_bank (Bank.get_balance_of (HolderDerived holder) config_gas_token_id)) in
  match reserved_balance with
  | None => ret tt
  | Some reserved_balance =>
      expect (on_bank (Bank.transfer_from (HolderDerived holder) (HolderUser recipient)
        (gas_coins reserved_balance)))
  end.

(** ** capabilities.rs *)

Definition preferred_sequencer_infallible : M (acc G t) Empty_set (option DaAddress) :=
  expect (value_get preferred_value).

Definition remove_part_of_the_stake (sequencer : DaAddress) (beneficiary : TokenHolder)
    (amount : N) : M (acc G t) StakeError unit :=
  let! known := expect (map_get known_map sequencer) in
  match known with
  | Some k =>
      ensure (is_active (balance_state k)) SequencerNotActive ;;;
      let! new_balance :=
        ok_or (Amount.checked_sub (stake k) amount) (StakeTooLow (stake k) amount) in
      let! self_id := gets id in
      map_err StakeTransfer
        (on_bank (Bank.transfer_from (HolderModule self_id) beneficiary (gas_coins amount))) ;;;
      expect (map_set known_map sequencer (mkKnown (address k) new_balance (balance_state k)))
  | None => throw SequencerNotRegistered
  end.

Definition add_to_stake (sender : TokenHolder) (sequencer : DaAddress) (amount : N)
  : M (acc G t) StakeError unit :=
  let! known := expect (map_get known_map sequencer) in
  match known with
  | Some k =>
      let! new_balance := ok_or (Amount.checked_add (stake k) amount) StakeOverflow in
      let! self_id := gets id in
      map_err StakeTransfer
        (on_bank (Bank.transfer_from sender (HolderModule self_id) (gas_coins amount))) ;;;
      expect (map_set known_map sequencer (mkKnown (address k) new_balance (balance_state k)))
  | None => throw SequencerNotRegistered
  end.
End Operations.

(** ** The invariant and the abstract view of the state *)

Definition gas_balance (s : t) (h : TokenHolder) : N :=
  Bank.balance (bank s) h config_gas_token_id.

Definition total_stake (m : gmap DaAddress KnownSequencer) : N :=
  map_sum (fun _ k => stake k) m.

Record inv (s : t) : Prop := mkInv {
  inv_bank : Bank.inv (bank s);
  inv_solvent : total_stake (known_sequencers s) <= gas_balance s (HolderModule (id s))
}.

Definition paid (s : t) (from to : TokenHolder) (amount : N) : t :=
  set_bank (Bank.transferred (bank s) from to config_gas_token_id amount) s.

Definition set_known (m : gmap DaAddress KnownSequencer) (s : t) : t :=
  mk (id s) (bank s) m (preferred_sequencer s) (minimum_bond s) (events s).

Definition slashed (da : DaAddress) (s : t) : t :=
  mk (id s) (bank s) (delete da (known_sequencers s))
    (if bool_decide (preferred_sequencer s = Some da) then None else preferred_sequencer s)
    (minimum_bond s) (events s).

Definition emitted (e : Event) (s : t) : t :=
  mk (id s) (bank s) (known_sequencers s) (preferred_sequencer s) (minimum_bond s)
    (events s ++ [e]).

(** The specification of the call messages. *)
Inductive effect (slot : N) (c : Context Sp) (s : t) : CallMessage -> t -> Prop :=
| effect_register da amount bond :
    known_sequencers s !! da = None ->
    minimum_bond s = Some bond ->
    bond <= amount ->
    amount <= gas_balance s (HolderUser (sender c)) ->
    effect slot c s (Register da amount)
      (emitted (Registered (sender c) amount)
         (set_known (<[da := mkKnown (sender c) amount Active]> (known_sequencers s))
            (paid s (HolderUser (sender c)) (HolderModule (id s)) amount)))
| effect_deposit da amount k :
    known_sequencers s !! da = Some k ->
    address k = sender c ->
    stake k + amount <= u128_max ->
    amount <= gas_balance s (HolderUser (sender c)) ->
    effect slot c s (Deposit da amount)
      (emitted (Deposited (sender c) amount)
         (set_known (<[da := mkKnown (sender c) (stake k + amount) Active]> (known_sequencers s))
            (paid s (HolderUser (sender c)) (HolderModule (id s)) amount)))
| effect_initiate da k :
    known_sequencers s !! da = Some k ->
    address k = sender c ->
    sender c <> sequencer c ->
    balance_state k = Active ->
    slot + (DEFERRED_SLOTS_COUNT + 1) <= u64_max ->
    effect slot c s (InitiateWithdrawal da)
      (emitted (InitiatedWithdrawal (sender c))
         (set_known (<[da := mkKnown (sender c) (stake k)
            (PendingWithdrawal (slot + (DEFERRED_SLOTS_COUNT + 1)))]> (known_sequencers s)) s))
| effect_withdraw da k ready_at :
    known_sequencers s !! da = Some k ->
    address k = sender c ->
    balance_state k = PendingWithdrawal ready_at ->
    ready_at <= slot ->
    effect slot c s (Withdraw da)
      (emitted (Withdrew (sender c) (stake k))
         (paid (set_known (delete da (known_sequencers s)) s)
            (HolderModule (id s)) (HolderUser (sender c)) (stake k))).

(** Everything that happens to the module: transactions, whose writes are
    reverted when they fail, and the capabilities, whose writes are kept. *)
Inductive action : Type :=
| ActBank (msg : Bank.CallMessage) (c : Context Sp)
| ActCall (slot : N) (msg : CallMessage) (c : Context Sp)
| ActRemoveStake (da : DaAddress) (beneficiary : TokenHolder) (amount : N)
| ActAddStake (from : TokenHolder) (da : DaAddress) (amount : N)
| ActSlash (da : DaAddress)
| ActRetrieve (holder : DerivedHolder) (recipient : Address) (needed : N)
| ActRefund (holder : DerivedHolder) (recipient : Address).

Definition act {G : Type} `{GasMeter G} (g : G) (x : action) (s : t) : t :=
  match x with
  | ActBank msg c =>
      match on_bank (Bank.call msg c) (Acc g s) with (Ok _, a) => store a | _ => s end
  | ActCall slot msg c =>
      match call slot msg c (Acc g s) with (Ok _, a) => store a | _ => s end
  | ActRemoveStake da b amount => store (snd (remove_part_of_the_stake da b amount (Acc tt s)))
  | ActAddStake from da amount => store (snd (add_to_stake from da amount (Acc tt s)))
  | ActSlash da => store (snd (slash_sequencer da (Acc tt s)))
  | ActRetrieve h r needed => store (snd (retrieve_funds_from_escrow h r needed (Acc tt s)))
  | ActRefund h r => store (snd (refund_all_reserved_gas h r (Acc tt s)))
  end.

(** Messages carry [u128] amounts, and a stake is never topped up from the
    registry's own funds. *)
Definition action_wf (self_id : ModuleId) (x : action) : Prop :=
  match x with
  | ActBank msg _ => Bank.msg_wf msg
  | ActAddStake from _ _ => from <> HolderModule self_id
  | _ => True
  end.

(** A sequencer that is registered and, if it asked for its stake back, has to
    wait for the slot [deadline] at least. *)
Definition waiting (da : DaAddress) (deadline : N) (s : t) : Prop :=
  exists k, known_sequencers s !! da = Some k /\
    match balance_state k with Active => True | PendingWithdrawal r => deadline <= r end.

(** Actions that happen in the [DEFERRED_SLOTS_COUNT + 1] slots before
    [deadline] and do not slash the sequencer. *)
Definition before (da : DaAddress) (deadline : N) (x : action) : Prop :=
  match x with
  | ActCall slot _ _ => slot < deadline <= slot + (DEFERRED_SLOTS_COUNT + 1)
  | ActSlash d => d <> da
  | _ => True
  end.

(** A list of actions, each with the meter of its transaction. *)
Definition run_acts {G : Type} `{GasMeter G} (xs : list (G * action)) (s : t) : t :=
  foldl (fun s x => act x.1 x.2 s) s xs.

Inductive acts {G : Type} `{GasMeterLaws G} (s : t) : t -> Prop :=
| acts_refl : acts s s
| acts_step s' g x : acts s s' -> meter_wf g -> action_wf (id s) x -> acts s (act g x s').
End Registry.
End SequencerRegistry.

(** ** Lemmas *)
Module RegistryFacts.
Import SequencerRegistry.

Ltac reg_simpl :=
  unfold known_map, minimum_bond_value, preferred_value in *;
  cbn [map_read map_write val_read val_write id bank known_sequencers preferred_sequencer
       minimum_bond events] in *; checked_simpl; subst.

Section Facts.
Context {Sp : Spec} {Cst : RegistryConstants}.
Implicit Types (s : t) (da : DaAddress) (amount slot : N).

Lemma set_bank_id s : set_bank (bank s) s = s.
Proof. by destruct s. Qed.

Lemma total_stake_insert m da k :
  total_stake (<[da := k]> m) + default 0 (stake <$> m !! da) = total_stake m + stake k.
Proof.
  unfold total_stake. pose proof (map_sum_insert (fun _ k => stake k) m da k) as Hs.
  unfold opt_val in Hs. destruct (m !! da); cbn in *; lia.
Qed.

Lemma total_stake_delete m da :
  total_stake m = default 0 (stake <$> m !! da) + total_stake (delete da m).
Proof.
  unfold total_stake. rewrite (map_sum_delete (fun _ k => stake k) m da).
  unfold opt_val. by destruct (m !! da).
Qed.

Lemma stake_le_balance s da k :
  inv s -> known_sequencers s !! da = Some k -> stake k <= gas_balance s (HolderModule (id s)).
Proof.
  intros [_ Hs] Hk. pose proof (total_stake_delete (known_sequencers s) da) as Hd.
  rewrite Hk in Hd. cbn in Hd. lia.
Qed.

Lemma gas_balance_paid s from to amount h :
  amount <= gas_balance s from ->
  gas_balance (paid s from to amount) h =
    if bool_decide (from <> to) then
      if bool_decide (h = from) then gas_balance s from - amount
      else if bool_decide (h = to) then gas_balance s to + amount
      else gas_balance s h
    else gas_balance s h.
Proof.
  intros Ha. unfold gas_balance at 1. cbn. rewrite BankFacts.balance_transferred by done.
  unfold gas_balance. repeat case_bool_decide; naive_solver.
Qed.

Section Rules.
Context {G : Type} `{GasMeterLaws G}.

(** A payment in gas tokens made by the module, through the bank. *)
Lemma wp_pay from to amount (Q : outcome Bank.TransferTokenError unit -> t -> Prop) s :
  Bank.inv (bank s) ->
  (forall e s', can_fail \/ (gas_balance s from < amount /\ s' = s) -> Q (Err e) s') ->
  (amount <= gas_balance s from -> Q (Ok tt) (paid s from to amount)) ->
  wp (on_bank (Bank.transfer_from from to (gas_coins amount))) Q s.
Proof.
  intros Hinv He Hok. unfold on_bank, Bank.transfer_from. apply wp_zoom.
  apply BankFacts.wp_do_transfer; cbn; [done|auto| |auto].
  intros Hlow e. rewrite set_bank_id. auto.
Qed.

Lemma wp_validate_sender da a (Q : outcome RegistrationError unit -> t -> Prop) s :
  (forall e, can_fail \/ (forall k, known_sequencers s !! da = Some k -> address k <> a) ->
     Q (Err e) s) ->
  (forall k, known_sequencers s !! da = Some k -> address k = a -> Q (Ok tt) s) ->
  wp (validate_sender da a) Q s.
Proof.
  intros He Hok. unfold validate_sender.
  repeat wp_step; reg_simpl; auto; [eauto|apply He; right; naive_solver|].
  apply He. right. congruence.
Qed.

(** Prove that an error branch is not one where the call could have succeeded. *)
Ltac no_effect := right; split; [done|]; intros ? Heff; inversion Heff; simplify_eq/=; try lia; try done.

Lemma wp_register da amount c slot (Q : outcome RegistrationError unit -> t -> Prop) s :
  inv s ->
  (forall e s', can_fail \/ (s' = s /\ forall s'', ~ effect slot c s (Register da amount) s'') ->
     Q (Err e) s') ->
  (forall s', effect slot c s (Register da amount) s' -> Q (Ok tt) s') ->
  wp (register da amount c) Q s.
Proof.
  intros Hinv He Hok. unfold register, register_staker.
  wp_step. wp_step. wp_step; [by apply He; left|]. reg_simpl.
  destruct (known_sequencers s !! da) as [k|] eqn:Hk; [wp_step; apply He; no_effect|].
  wp_step. wp_step. wp_step; [by apply He; left|]. reg_simpl.
  wp_step. wp_step; [|apply He; no_effect].
  wp_step. wp_step; reg_simpl; [|apply He; no_effect].
  wp_step. wp_step. wp_step. wp_step. apply wp_pay; wp_red; [apply Hinv| |].
  - intros e s' [Hc|[Hlow ->]]; apply He; [by left|no_effect].
  - intros Hpay. unfold emit_event. wp_step. wp_step. wp_step; [by apply He; left|]. wp_step.
    apply Hok. by econstructor.
Qed.

Lemma wp_deposit da amount c slot (Q : outcome RegistrationError unit -> t -> Prop) s :
  inv s ->
  (forall e s', can_fail \/ (s' = s /\ forall s'', ~ effect slot c s (Deposit da amount) s'') ->
     Q (Err e) s') ->
  (forall s', effect slot c s (Deposit da amount) s' -> Q (Ok tt) s') ->
  wp (deposit da amount c) Q s.
Proof.
  intros Hinv He Hok. unfold deposit.
  apply wp_bind, wp_validate_sender; wp_red.
  { intros e [Hc|Hno]; apply He; [by left|no_effect]. naive_solver. }
  intros k Hk Ha. wp_step. wp_step. wp_step; [by apply He; left|]. reg_simpl.
  rewrite Hk. cbn [ok_or]. wp_step. wp_step.
  wp_step. wp_step; reg_simpl; [|apply He; no_effect].
  wp_step. wp_step. wp_step. wp_step. rewrite Ha. apply wp_pay; wp_red; [apply Hinv| |].
  - intros e s' [Hc|[Hlow ->]]; apply He; [by left|no_effect].
  - intros Hpay. unfold emit_event. wp_step. wp_step. wp_step; [by apply He; left|]. wp_step.
    apply Hok. by econstructor.
Qed.

Lemma wp_initiate da c slot (Q : outcome RegistrationError unit -> t -> Prop) s :
  (forall e s', can_fail \/ (s' = s /\ forall s'', ~ effect slot c s (InitiateWithdrawal da) s'') ->
     Q (Err e) s') ->
  (u64_max < slot + (DEFERRED_SLOTS_COUNT + 1) -> Q Panic s) ->
  (forall s', effect slot c s (InitiateWithdrawal da) s' -> Q (Ok tt) s') ->
  wp (initiate_withdrawal slot da c) Q s.
Proof.
  intros He Hp Hok. unfold initiate_withdrawal, advance, emit_event.
  apply wp_bind, wp_validate_sender; wp_red.
  { intros e [Hc|Hno]; apply He; [by left|no_effect]. naive_solver. }
  intros k Hk Ha. wp_step. wp_step. wp_step; [by apply He; left|]. reg_simpl.
  rewrite Hk. cbn [ok_or]. wp_step. wp_step.
  wp_step. wp_step; reg_simpl; [|apply He; no_effect; congruence].
  wp_step. wp_step; [|apply He; no_effect].
  2: { match goal with Hb : balance_state k = Active |- _ => rewrite Hb in * end. done. }
  destruct (balance_state k) eqn:Hb; [|done].
  wp_step. wp_step; reg_simpl; [|auto].
  wp_step. wp_step. wp_step; [by apply He; left|]. wp_step. rewrite Ha.
  apply Hok. econstructor; try done. congruence.
Qed.

Lemma wp_withdraw da c slot (Q : outcome RegistrationError unit -> t -> Prop) s :
  inv s ->
  (forall e s', can_fail \/ (s' = s /\ forall s'', ~ effect slot c s (Withdraw da) s'') ->
     Q (Err e) s') ->
  (can_fail -> forall s', Q Panic s') ->
  (forall s', effect slot c s (Withdraw da) s' -> Q (Ok tt) s') ->
  wp (withdraw slot da c) Q s.
Proof.
  intros Hinv He Hp Hok. unfold withdraw, emit_event.
  apply wp_bind, wp_validate_sender; wp_red.
  { intros e [Hc|Hno]; apply He; [by left|no_effect]. naive_solver. }
  intros k Hk Ha. wp_step. wp_step. wp_step; [by apply He; left|]. reg_simpl.
  rewrite Hk. cbn [ok_or]. wp_step. wp_step.
  destruct (balance_state k) as [|ready_at] eqn:Hb; [wp_step; apply He; no_effect; congruence|].
  wp_step. wp_step; reg_simpl; [|apply He; no_effect].
  2: { assert (ready_at0 = ready_at) by congruence. lia. }
  wp_step. wp_step. wp_step; [by apply He; left|]. wp_step. wp_step. wp_step. wp_step.
  apply wp_pay; wp_red; [apply Hinv| |].
  - intros e s' [Hc|[Hlow _]]; [by apply Hp|].
    pose proof (stake_le_balance s da k Hinv Hk). unfold gas_balance in *. cbn in *. lia.
  - intros Hpay. wp_step. rewrite Ha. apply Hok.
    by apply (effect_withdraw slot c s da k ready_at).
Qed.

(** The call messages implement their specification. *)
Lemma wp_registry_call slot msg c (Q : outcome RegistrationError unit -> t -> Prop) s :
  inv s ->
  (forall e s', can_fail \/ (s' = s /\ forall s'', ~ effect slot c s msg s'') -> Q (Err e) s') ->
  (forall s', can_fail \/ u64_max < slot + (DEFERRED_SLOTS_COUNT + 1) -> Q Panic s') ->
  (forall s', effect slot c s msg s' -> Q (Ok tt) s') ->
  wp (call slot msg c) Q s.
Proof.
  intros Hinv He Hp Hok. destruct msg; cbn.
  - by apply wp_register with (slot := slot).
  - by apply wp_deposit with (slot := slot).
  - apply wp_initiate; auto.
  - apply wp_withdraw; auto.
Qed.
End Rules.

(** *** The capabilities, on accessors that do not charge *)
Section Infallible.
Context {G : Type} `{GasMeterLaws G} (Hcf : ~ can_fail).

Lemma wp_remove_stake da b amount (Q : outcome StakeError unit -> t -> Prop) s :
  inv s ->
  (forall e, (forall k, known_sequencers s !! da = Some k -> balance_state k = Active ->
      stake k < amount) -> Q (Err e) s) ->
  (forall k, known_sequencers s !! da = Some k -> balance_state k = Active ->
     amount <= stake k ->
     Q (Ok tt) (set_known (<[da := mkKnown (address k) (stake k - amount) Active]>
        (known_sequencers s)) (paid s (HolderModule (id s)) b amount))) ->
  wp (remove_part_of_the_stake da b amount) Q s.
Proof.
  intros Hinv He Hok. unfold remove_part_of_the_stake.
  wp_step. wp_step. wp_step; [no_fail|]. reg_simpl.
  destruct (known_sequencers s !! da) as [k|] eqn:Hk; [|wp_step; apply He; naive_solver].
  wp_step. wp_step; [|apply He; intros ? [= <-] Ha; by rewrite Ha in *].
  destruct (balance_state k) eqn:Hb; [|done].
  wp_step. wp_step; reg_simpl; [|apply He; naive_solver].
  wp_step. wp_step. wp_step. wp_step.
  pose proof (stake_le_balance s da k Hinv Hk).
  apply wp_pay; wp_red; [apply Hinv| |].
  - intros e s' [Hc|[Hlow _]]; [by apply Hcf in Hc|lia].
  - intros Hpay. wp_step. wp_step; [no_fail|]. by apply (Hok k).
Qed.

Lemma wp_add_stake from da amount (Q : outcome StakeError unit -> t -> Prop) s :
  inv s ->
  (forall e, (forall k, known_sequencers s !! da = Some k ->
      u128_max < stake k + amount \/ gas_balance s from < amount) -> Q (Err e) s) ->
  (forall k, known_sequencers s !! da = Some k -> amount <= gas_balance s from ->
     Q (Ok tt) (set_known (<[da := mkKnown (address k) (stake k + amount) (balance_state k)]>
        (known_sequencers s)) (paid s from (HolderModule (id s)) amount))) ->
  wp (add_to_stake from da amount) Q s.
Proof.
  intros Hinv He Hok. unfold add_to_stake.
  wp_step. wp_step. wp_step; [no_fail|]. reg_simpl.
  destruct (known_sequencers s !! da) as [k|] eqn:Hk; [|wp_step; apply He; naive_solver].
  wp_step. wp_step; reg_simpl; [|apply He; naive_solver].
  wp_step. wp_step. wp_step. wp_step. apply wp_pay; wp_red; [apply Hinv| |].
  - intros e s' [Hc|[Hlow ->]]; [by apply Hcf in Hc|apply He; naive_solver].
  - intros Hpay. wp_step. wp_step; [no_fail|]. by apply (Hok k).
Qed.

Lemma wp_slash da (Q : outcome Empty_set unit -> t -> Prop) s :
  Q (Ok tt) (slashed da s) -> wp (slash_sequencer da) Q s.
Proof.
  intros Hok. unfold slash_sequencer, slashed in *.
  wp_step. wp_step. wp_step; [no_fail|]. reg_simpl.
  wp_step. wp_step. wp_step; [no_fail|]. reg_simpl.
  destruct (preferred_sequencer s) as [p|] eqn:Hp; [|by wp_step].
  destruct (decide (da = p)) as [<-|Hne].
  - rewrite !bool_decide_true by done. rewrite bool_decide_true in Hok by done.
    wp_step. wp_step; [no_fail|]. done.
  - rewrite bool_decide_false by done. rewrite bool_decide_false in Hok by congruence.
    by wp_step.
Qed.

Lemma wp_gas_balance {E} holder (Q : outcome E (option N) -> t -> Prop) s :
  (forall o, default 0 o = gas_balance s (HolderDerived holder) -> Q (Ok o) s) ->
  wp (expect (on_bank (Bank.get_balance_of (HolderDerived holder) config_gas_token_id))) Q s.
Proof.
  intros Hok. wp_step. unfold on_bank, Bank.get_balance_of. wp_step. wp_step; [no_fail|].
  rewrite set_bank_id. by apply Hok.
Qed.

Lemma wp_retrieve holder r needed (Q : outcome StakeError unit -> t -> Prop) s :
  Bank.inv (bank s) ->
  let h := HolderDerived holder in
  (forall e, gas_balance s h < needed \/ gas_balance s h = 0 -> Q (Err e) s) ->
  (needed <= gas_balance s h ->
     let s1 := paid s h (HolderUser r) (gas_balance s h - needed) in
     Q (Ok tt) (paid s1 h (HolderModule (Bank.id (bank s))) needed)) ->
  wp (retrieve_funds_from_escrow holder r needed) Q s.
Proof.
  intros Hinv h He Hok. unfold retrieve_funds_from_escrow.
  apply wp_bind, wp_gas_balance. intros o Ho. wp_red. fold h in Ho.
  wp_step. destruct o as [b|]; cbn in Ho; cbn [ok_or]; wp_step; [|apply He; lia]. subst b.
  wp_step. wp_step; reg_simpl; [|apply He; lia].
  wp_step. wp_step. apply wp_pay; wp_red; [done| |].
  { intros e s' [Hc|[Hlow _]]; [by apply Hcf in Hc|]. fold h in Hlow. lia. }
  intros Hpay. fold h. wp_step. wp_step. wp_step. apply wp_pay; wp_red.
  - by apply BankFacts.inv_transferred.
  - intros e s' [Hc|[Hlow _]]; [by apply Hcf in Hc|]. fold h in Hlow.
    rewrite gas_balance_paid in Hlow by done. repeat case_bool_decide; naive_solver lia.
  - intros _. cbn. rewrite BankFacts.id_transferred. by apply Hok.
Qed.

Lemma wp_refund_all holder r (Q : outcome Empty_set unit -> t -> Prop) s :
  Bank.inv (bank s) ->
  let h := HolderDerived holder in
  (gas_balance s h = 0 -> Q (Ok tt) s) ->
  Q (Ok tt) (paid s h (HolderUser r) (gas_balance s h)) ->
  wp (refund_all_reserved_gas holder r) Q s.
Proof.
  intros Hinv h Hzero Hok. unfold refund_all_reserved_gas.
  apply wp_bind, wp_gas_balance. intros o Ho. wp_red. fold h in Ho.
  destruct o as [b|]; cbn in Ho; [|wp_step; auto]. subst b.
  wp_step. apply wp_pay; wp_red; [done| |done].
  intros e s' [Hc|[Hlow _]]; [by apply Hcf in Hc|]. fold h in Hlow. lia.
Qed.
End Infallible.

(** *** Solvency *)

Lemma id_paid s from to amount : id (paid s from to amount) = id s.
Proof. done. Qed.

Lemma inv_paid_in s from amount m :
  inv s -> amount <= gas_balance s from -> from <> HolderModule (id s) ->
  total_stake m <= total_stake (known_sequencers s) + amount ->
  inv (set_known m (paid s from (HolderModule (id s)) amount)).
Proof.
  intros [Hb Hs] Ha Hne Hm. split; [by apply BankFacts.inv_transferred|].
  change (total_stake m <= gas_balance (paid s from (HolderModule (id s)) amount)
    (HolderModule (id s))).
  rewrite gas_balance_paid by done. repeat case_bool_decide; naive_solver lia.
Qed.

Lemma inv_paid_out s to amount m :
  inv s -> total_stake m + amount <= total_stake (known_sequencers s) ->
  inv (set_known m (paid s (HolderModule (id s)) to amount)).
Proof.
  intros [Hb Hs] Hm.
  assert (amount <= gas_balance s (HolderModule (id s))) as Ha by lia.
  split; [by apply BankFacts.inv_transferred|].
  change (total_stake m <= gas_balance (paid s (HolderModule (id s)) to amount)
    (HolderModule (id s))).
  rewrite gas_balance_paid by done. repeat case_bool_decide; naive_solver lia.
Qed.

(** Payments between holders other than the registry. *)
Lemma inv_paid_other s from to amount :
  inv s -> from <> HolderModule (id s) -> amount <= gas_balance s from ->
  inv (paid s from to amount).
Proof.
  intros [Hb Hs] Hne Ha. split; [by apply BankFacts.inv_transferred|].
  change (total_stake (known_sequencers s) <= gas_balance (paid s from to amount)
    (HolderModule (id s))).
  rewrite gas_balance_paid by done. repeat case_bool_decide; subst; naive_solver lia.
Qed.

Lemma inv_emitted e s : inv s -> inv (emitted e s).
Proof. by intros []. Qed.

Lemma registry_inv_effect slot c s msg s' : inv s -> effect slot c s msg s' -> inv s'.
Proof.
  intros Hinv Heff. destruct Heff as [da amount bond Hk Hb Hle Ha|da amount k Hk Ha Ho Hp
    |da k Hk Ha Hs Hb Ho|da k ready Hk Ha Hb Hr]; apply inv_emitted.
  - apply inv_paid_in; [done|done|done|].
    pose proof (total_stake_insert (known_sequencers s) da (mkKnown (sender c) amount Active)) as Ht.
    rewrite Hk in Ht. cbn in Ht. lia.
  - apply inv_paid_in; [done|done|done|].
    pose proof (total_stake_insert (known_sequencers s) da
      (mkKnown (sender c) (stake k + amount) Active)) as Ht.
    rewrite Hk in Ht. cbn in Ht. lia.
  - destruct Hinv as [Hbk Hsv]. split; [done|]. cbn.
    pose proof (total_stake_insert (known_sequencers s) da (mkKnown (sender c) (stake k)
      (PendingWithdrawal (slot + (DEFERRED_SLOTS_COUNT + 1))))) as Ht.
    rewrite Hk in Ht. cbn in Ht. unfold gas_balance in *. cbn in *. lia.
  - apply (inv_paid_out s (HolderUser (sender c)) (stake k)
      (delete da (known_sequencers s))); [done|].
    pose proof (total_stake_delete (known_sequencers s) da) as Ht. rewrite Hk in Ht. cbn in Ht. lia.
Qed.

Section Runs.
Context {G : Type} `{GasMeterLaws G}.

Lemma registry_call_run (g : G) slot msg c s :
  inv s -> meter_wf g ->
  match call slot msg c (Acc g s) with
  | (Ok _, a) => effect slot c s msg (store a)
  | (Err _, a) => can_fail \/ (store a = s /\ forall s', ~ effect slot c s msg s')
  | (Panic, _) => can_fail \/ u64_max < slot + (DEFERRED_SLOTS_COUNT + 1)
  end.
Proof.
  intros Hinv Hg.
  assert (wp (call slot msg c) (fun o s' => match o with
    | Ok _ => effect slot c s msg s'
    | Err _ => can_fail \/ (s' = s /\ forall s', ~ effect slot c s msg s')
    | Panic => can_fail \/ u64_max < slot + (DEFERRED_SLOTS_COUNT + 1) end) s) as Hwp.
  { apply wp_registry_call; auto. }
  specialize (Hwp g Hg). destruct (call slot msg c (Acc g s)) as [[]]; by destruct Hwp.
Qed.

(** A transaction of the bank keeps the registry solvent: only the registry
    spends the registry's tokens. *)
Lemma inv_bank_call (g : G) msg c s :
  inv s -> meter_wf g -> Bank.msg_wf msg -> inv (act g (ActBank msg c) s).
Proof.
  intros Hinv Hg Hmsg. cbn.
  assert (wp (on_bank (Bank.call (G := G) msg c)) (fun o s' => match o with
    | Ok _ => inv s' | _ => True end) s) as Hwp.
  { unfold on_bank. apply wp_zoom, BankFacts.wp_call; [apply Hinv|done|].
    intros b Heff. destruct Hinv as [Hb Hs]. split; [by eapply BankFacts.inv_effect|].
    cbn. etransitivity; [exact Hs|]. unfold gas_balance. cbn.
    by eapply BankTheorems.effect_balance_other. }
  specialize (Hwp g Hg). destruct (on_bank (Bank.call msg c) (Acc g s)) as [[]]; by destruct Hwp.
Qed.

Lemma infallible_run {E} (m : M (acc unit t) E unit) (P : t -> Prop) s :
  wp (G := unit) m (fun o s' => o <> Panic /\ P s') s -> P (store (snd (m (Acc tt s)))).
Proof. intros Hwp. specialize (Hwp tt I). destruct (m (Acc tt s)). by destruct Hwp as (_ & _ & ?). Qed.

Lemma total_stake_known s da k st bs :
  known_sequencers s !! da = Some k ->
  total_stake (<[da := mkKnown (address k) st bs]> (known_sequencers s)) + stake k =
    total_stake (known_sequencers s) + st.
Proof.
  intros Hk. pose proof (total_stake_insert (known_sequencers s) da (mkKnown (address k) st bs)) as Ht.
  by rewrite Hk in Ht.
Qed.

Lemma inv_remove_stake s da b amount :
  inv s -> wp (G := unit) (remove_part_of_the_stake da b amount)
    (fun o s' => o <> Panic /\ inv s' /\ id s' = id s) s.
Proof.
  intros Hinv. apply (wp_remove_stake unmetered_cannot_fail); [done|done|].
  intros k Hk Ha Hle. split_and!; [done| |done]. apply inv_paid_out; [done|].
  pose proof (total_stake_known s da k (stake k - amount) Active Hk). lia.
Qed.

Lemma inv_add_stake s from da amount :
  inv s -> from <> HolderModule (id s) ->
  wp (G := unit) (add_to_stake from da amount) (fun o s' => o <> Panic /\ inv s' /\ id s' = id s) s.
Proof.
  intros Hinv Hne. apply (wp_add_stake unmetered_cannot_fail); [done|done|].
  intros k Hk Ha. split_and!; [done| |done]. apply inv_paid_in; [done|done|done|].
  pose proof (total_stake_known s da k (stake k + amount) (balance_state k) Hk). lia.
Qed.

Lemma inv_slash s da :
  inv s -> wp (G := unit) (slash_sequencer da) (fun o s' => o <> Panic /\ inv s' /\ id s' = id s) s.
Proof.
  intros [Hb Hs]. apply (wp_slash unmetered_cannot_fail). split_and!; [done| |done].
  split; [done|]. cbn. pose proof (total_stake_delete (known_sequencers s) da).
  unfold gas_balance in *. cbn. lia.
Qed.

Lemma inv_retrieve s h r needed :
  inv s -> wp (G := unit) (retrieve_funds_from_escrow h r needed)
    (fun o s' => o <> Panic /\ inv s' /\ id s' = id s) s.
Proof.
  intros Hinv. apply (wp_retrieve unmetered_cannot_fail); [apply Hinv|done|].
  intros Hle. split_and!; [done| |done].
  assert (inv (paid s (HolderDerived h) (HolderUser r)
    (gas_balance s (HolderDerived h) - needed))) as Hinv1
    by (apply inv_paid_other; [done|done|lia]).
  apply inv_paid_other; [done|done|].
  rewrite gas_balance_paid by lia. repeat case_bool_decide; naive_solver lia.
Qed.

Lemma inv_refund s h r :
  inv s -> wp (G := unit) (refund_all_reserved_gas h r) (fun o s' => o <> Panic /\ inv s' /\ id s' = id s) s.
Proof.
  intros Hinv. apply (wp_refund_all unmetered_cannot_fail); [apply Hinv|done|].
  split_and!; [done| |done]. by apply inv_paid_other.
Qed.

Lemma id_effect slot c s msg s' : effect slot c s msg s' -> id s' = id s.
Proof. by intros []. Qed.

Lemma inv_act (g : G) x s :
  inv s -> meter_wf g -> action_wf (id s) x -> inv (act g x s) /\ id (act g x s) = id s.
Proof.
  intros Hinv Hg Hx. destruct x.
  - split; [by apply inv_bank_call|]. cbn. unfold on_bank, zoom. cbn.
    by destruct (Bank.call msg c (Acc g (bank s))) as [[] a].
  - cbn. pose proof (registry_call_run g slot msg c s Hinv Hg) as Hr.
    destruct (call slot msg c (Acc g s)) as [[]]; [|done..].
    split; [by eapply registry_inv_effect|by eapply id_effect].
  - by apply (infallible_run _ (fun s' => inv s' /\ id s' = id s)), inv_remove_stake.
  - by apply (infallible_run _ (fun s' => inv s' /\ id s' = id s)), inv_add_stake.
  - by apply (infallible_run _ (fun s' => inv s' /\ id s' = id s)), inv_slash.
  - by apply (infallible_run _ (fun s' => inv s' /\ id s' = id s)), inv_retrieve.
  - by apply (infallible_run _ (fun s' => inv s' /\ id s' = id s)), inv_refund.
Qed.

Lemma inv_acts s s' : inv s -> acts (G := G) s s' -> inv s' /\ id s' = id s.
Proof.
  intros Hinv Hacts. induction Hacts as [|s' g x Hacts IH Hg Hx]; [done|].
  destruct IH as [Hinv' Hid]. rewrite <- Hid in Hx.
  destruct (inv_act g x s' Hinv' Hg Hx) as [? ->]. done.
Qed.

(** *** The waiting period *)

Lemma waiting_act (g : G) da deadline x s :
  inv s -> meter_wf g -> action_wf (id s) x -> before da deadline x ->
  waiting da deadline s -> waiting da deadline (act g x s).
Proof.
  intros Hinv Hg Hx Hbef (k & Hk & Hw). destruct x; cbn in Hbef.
  - exists k. split; [|done]. cbn. unfold on_bank, zoom. cbn.
    by destruct (Bank.call msg c (Acc g (bank s))) as [[] a].
  - cbn. pose proof (registry_call_run g slot msg c s Hinv Hg) as Hr.
    destruct (call slot msg c (Acc g s)) as [[]]; [|by exists k..].
    inversion Hr; subst; unfold waiting; cbn.
    + exists k. split; [|done]. rewrite lookup_insert_ne; [done|]. congruence.
    + destruct (decide (da0 = da)) as [->|Hne];
        rewrite ?lookup_insert_eq, ?lookup_insert_ne by done; eauto.
    + destruct (decide (da0 = da)) as [->|Hne];
        rewrite ?lookup_insert_eq, ?lookup_insert_ne by done; [|eauto].
      eexists. split; [done|]. cbn. lia.
    + rewrite lookup_delete_ne; [eauto|]. intros ->. simplify_eq.
      match goal with Hb : balance_state k = _ |- _ => rewrite Hb in Hw end. lia.
  - apply (infallible_run _ (waiting da deadline)), (wp_remove_stake unmetered_cannot_fail);
      [done|by split; [done|exists k]|].
    intros k' Hk' Ha Hle. split; [done|]. unfold waiting. cbn.
    destruct (decide (da0 = da)) as [->|Hne];
      rewrite ?lookup_insert_eq, ?lookup_insert_ne by done; eauto.
  - apply (infallible_run _ (waiting da deadline)), (wp_add_stake unmetered_cannot_fail);
      [done|by split; [done|exists k]|].
    intros k' Hk' Ha. split; [done|]. unfold waiting. cbn.
    destruct (decide (da0 = da)) as [->|Hne];
      rewrite ?lookup_insert_eq, ?lookup_insert_ne by done; [|eauto].
    simplify_eq. eauto.
  - apply (infallible_run _ (waiting da deadline)), (wp_slash unmetered_cannot_fail).
    split; [done|]. exists k. cbn. by rewrite lookup_delete_ne.
  - apply (infallible_run _ (waiting da deadline)), (wp_retrieve unmetered_cannot_fail);
      [apply Hinv|by split; [done|exists k]|]. intros _. split; [done|]. by exists k.
  - apply (infallible_run _ (waiting da deadline)), (wp_refund_all unmetered_cannot_fail);
      [apply Hinv|by split; [done|exists k]|]. split; [done|]. by exists k.
Qed.
End Runs.

(** *** Genesis *)

Definition genesis_context (sc : SequencerConfig) : Context Sp :=
  mkContext Sp (seq_rollup_address sc) (seq_rollup_address sc) (seq_da_address sc) None
    (seq_rollup_address sc) Node NonPreferred.

Definition set_bond_and_preferred (bond : option N) (p : option DaAddress) (s : t) : t :=
  mk (id s) (bank s) (known_sequencers s) p bond (events s).

Lemma inv_set_bond bond p s : inv s -> inv (set_bond_and_preferred bond p s).
Proof. intros []. by split. Qed.

(** Genesis is a registration with a zero minimum bond. *)
Lemma init_module_run config s :
  inv s -> known_sequencers s !! seq_da_address (sequencer_config config) = None ->
  let sc := sequencer_config config in
  match init_module (G := unit) config (Acc tt s) with
  | (Ok _, a) => exists s1,
      effect 0 (genesis_context sc) (set_bond_and_preferred (Some 0) (preferred_sequencer s) s)
        (Register (seq_da_address sc) (seq_bond sc)) s1 /\
      store a = set_bond_and_preferred (Some (cfg_minimum_bond config))
        (if is_preferred_sequencer sc then Some (seq_da_address sc)
         else preferred_sequencer s1) s1 /\ inv (store a)
  | (Err _, _) => gas_balance s (HolderUser (seq_rollup_address sc)) < seq_bond sc
  | (Panic, _) => False
  end.
Proof.
  intros Hinv Hk sc. set (s0 := set_bond_and_preferred _ _ s).
  set (c := genesis_context sc).
  assert (wp (G := unit) (init_module config) (fun o s' => match o with
    | Ok _ => exists s1, effect 0 c s0 (Register (seq_da_address sc) (seq_bond sc)) s1 /\
        s' = set_bond_and_preferred (Some (cfg_minimum_bond config))
          (if is_preferred_sequencer sc then Some (seq_da_address sc)
           else preferred_sequencer s1) s1 /\ inv s'
    | Err _ => gas_balance s (HolderUser (seq_rollup_address sc)) < seq_bond sc
    | Panic => False end) s) as Hwp.
  2: { specialize (Hwp tt I). by destruct (init_module config (Acc tt s)) as [[] a], Hwp. }
  pose proof unmetered_cannot_fail as Hcf. unfold init_module.
  wp_step. wp_step. wp_step; [no_fail|]. wp_red. apply wp_bind.
  change (wp (G := unit) (register (seq_da_address sc) (seq_bond sc) c) ?Q ?x)
    with (wp (G := unit) (register (seq_da_address sc) (seq_bond sc) c) Q s0).
  apply (wp_register (seq_da_address sc) (seq_bond sc) c 0); [by apply inv_set_bond| |].
  - intros e s' [[]%Hcf|[_ Hno]]. wp_red. apply N.nle_gt. intros Hle.
    apply (Hno _ (effect_register 0 c s0 _ _ 0 Hk eq_refl (N.le_0_l _) Hle)).
  - intros s1 Heff. pose proof (registry_inv_effect _ _ _ _ _ (inv_set_bond _ _ _ Hinv) Heff) as Hinv1.
    wp_red. wp_step. wp_step. wp_step; [no_fail|]. wp_red.
    destruct (is_preferred_sequencer (sequencer_config config)) eqn:Hp; repeat wp_step;
      try no_fail; exists s1; unfold sc; rewrite Hp; split_and!; try done;
      apply (inv_set_bond (Some (cfg_minimum_bond config)) _ s1 Hinv1).
Qed.

Lemma init_module_inv config s :
  inv s -> known_sequencers s !! seq_da_address (sequencer_config config) = None ->
  is_ok (fst (init_module (G := unit) config (Acc tt s))) = true ->
  inv (store (snd (init_module (G := unit) config (Acc tt s)))).
Proof.
  intros Hinv Hk Hok. pose proof (init_module_run config s Hinv Hk) as Hr.
  destruct (init_module config (Acc tt s)) as [[] a]; [|done..].
  by destruct Hr as (s1 & _ & _ & ?).
Qed.

Lemma call_ok_inv slot msg c s :
  inv s -> is_ok (fst (call (G := unit) slot msg c (Acc tt s))) = true ->
  inv (store (snd (call (G := unit) slot msg c (Acc tt s)))).
Proof.
  intros Hinv Hok. pose proof (registry_call_run tt slot msg c s Hinv I) as Hr.
  destruct (call slot msg c (Acc tt s)) as [[] a]; [|done..]. by eapply registry_inv_effect.
Qed.

Lemma run_ok_unit (m : M (acc unit t) RegistrationError unit) s :
  is_ok (fst (m (Acc tt s))) = true -> m (Acc tt s) = (Ok tt, Acc tt (store (snd (m (Acc tt s))))).
Proof. intros Hok. by destruct (m (Acc tt s)) as [[[]| |] [[] s']]. Qed.
End Facts.
End RegistryFacts.

(** ** A concrete registry for the witnesses *)
Module RegistryDemo.
Import SequencerRegistry RegistryFacts.

#[global] Instance demo_constants : RegistryConstants := {| DEFERRED_SLOTS_COUNT := 5 |}.

Definition empty_registry : t (Sp := test_spec) :=
  @mk test_spec (repeat 4 32) BankDemo.demo ∅ None None [].

Definition demo_registry_config : SequencerRegistryConfig (Sp := test_spec) :=
  @mkRegistryConfig test_spec 100 (@mkSequencerConfig test_spec 1 71 300 true).

Definition registry : t (Sp := test_spec) :=
  store (snd (init_module (G := unit) demo_registry_config (Acc tt empty_registry))).

Definition register_second : CallMessage (Sp := test_spec) := @Register test_spec 72 200.
Definition leave (da : N) : CallMessage (Sp := test_spec) := @InitiateWithdrawal test_spec da.
Definition take_back (da : N) : CallMessage (Sp := test_spec) := @Withdraw test_spec da.

(** The registry after the first sequencer asked for its stake at slot 10. *)
Definition leaving : t (Sp := test_spec) :=
  store (snd (call (G := unit) 10 (leave 71) (BankDemo.demo_context 1) (Acc tt registry))).

(** A meter that covers the checks and the deletion of a withdrawal, and not
    the payment that follows. *)
Definition short_meter : BasicGasMeter.t :=
  BasicGasMeter.new_with_funds_and_gas 100000 [5; 5] [1; 1].

(** The registry with 50 gas tokens in an escrow account. *)
Definition escrow_holder : TokenHolder (Sp := test_spec) := @HolderDerived test_spec (repeat 0 32).
Definition escrowed : t (Sp := test_spec) := paid registry (BankDemo.user 2) escrow_holder 50.

Lemma empty_registry_inv : inv empty_registry.
Proof. split; [apply BankDemo.demo_inv|]. vm_compute. discriminate. Qed.

Lemma registry_known :
  known_sequencers registry !! 71 = Some (@mkKnown test_spec 1 300 Active).
Proof. vm_compute. reflexivity. Qed.

Lemma registry_inv : inv registry.
Proof. apply init_module_inv; [apply empty_registry_inv|done|vm_compute; reflexivity]. Qed.

Lemma escrowed_inv : inv escrowed.
Proof.
  apply inv_paid_other; [apply registry_inv|discriminate|vm_compute; discriminate].
Qed.

Lemma leaving_run :
  call (G := unit) 10 (leave 71) (BankDemo.demo_context 1) (Acc tt registry) =
    (Ok tt, Acc tt leaving).
Proof.
  unfold leaving.
  apply (run_ok_unit (call (G := unit) 10 (leave 71) (BankDemo.demo_context 1)) registry).
  vm_compute. reflexivity.
Qed.

Lemma leaving_inv : inv leaving.
Proof. apply call_ok_inv; [apply registry_inv|vm_compute; reflexivity]. Qed.
End RegistryDemo.

(** ** The properties of the registry *)
Module RegistryProperties.
Import SequencerRegistry RegistryFacts RegistryDemo.

Section Claims.
Context {Sp : Spec} {Cst : RegistryConstants}.

Lemma unmetered_call slot msg c s :
  inv s -> slot + (DEFERRED_SLOTS_COUNT + 1) <= u64_max ->
  match call (G := unit) slot msg c (Acc tt s) with
  | (Ok _, a) => effect slot c s msg (store a)
  | (Err _, a) => a = Acc tt s /\ forall s', ~ effect slot c s msg s'
  | (Panic, _) => False
  end.
Proof.
  intros Hinv Hslot. pose proof (registry_call_run tt slot msg c s Hinv I) as Hr.
  destruct (call slot msg c (Acc tt s)) as [[] [[] s']].
  - done.
  - destruct Hr as [[]%unmetered_cannot_fail|[<- ?]]. done.
  - destruct Hr as [[]%unmetered_cannot_fail|?]. lia.
Qed.

Lemma effect_functional slot c s msg s1 s2 :
  effect slot c s msg s1 -> effect slot c s msg s2 -> s1 = s2.
Proof.
  intros H1 H2. destruct H1; inversion H2; simplify_eq/=; try done.
Qed.

Lemma call_effect slot msg c s s' :
  inv s -> slot + (DEFERRED_SLOTS_COUNT + 1) <= u64_max -> effect slot c s msg s' ->
  call (G := unit) slot msg c (Acc tt s) = (Ok tt, Acc tt s').
Proof.
  intros Hinv Hslot Heff. pose proof (unmetered_call slot msg c s Hinv Hslot) as Hr.
  destruct (call slot msg c (Acc tt s)) as [[[]|e|] [[] s1]].
  - by rewrite (effect_functional _ _ _ _ _ _ Heff Hr).
  - destruct Hr as [_ Hno]. by apply Hno in Heff.
  - done.
Qed.

(** C27: The registry stays solvent. Whatever calls of the bank and of the
    registry are executed (with any gas meter, reverted when they fail), and
    whatever stakes the capabilities remove, add or slash and whatever escrow
    they release, the gas tokens held by the module cover the stakes of all
    known sequencers, and the bank's own invariant holds. *)
Theorem registry_solvent_always {G : Type} `{GasMeterLaws G} (s s' : t) :
  inv s -> acts (G := G) s s' -> inv s'.
Proof. intros Hinv Hacts. by apply (inv_acts s s' Hinv Hacts). Qed.

(** On an accessor that does not run out of gas, a call message succeeds
    exactly when its specification allows it, with exactly the state of the
    specification; otherwise it returns an error and has changed nothing. It
    does not panic as long as the slot number is far from overflow. *)
Theorem registry_call_exact slot msg c (s : t) :
  inv s -> slot + (DEFERRED_SLOTS_COUNT + 1) <= u64_max ->
  (forall s', call (G := unit) slot msg c (Acc tt s) = (Ok tt, Acc tt s') <->
     effect slot c s msg s') /\
  ((forall s', ~ effect slot c s msg s') ->
     exists e, call (G := unit) slot msg c (Acc tt s) = (Err e, Acc tt s)).
Proof.
  intros Hinv Hslot. split.
  - intros s'. split; [|by apply call_effect].
    intros Hc. pose proof (unmetered_call slot msg c s Hinv Hslot) as Hr. by rewrite Hc in Hr.
  - intros Hno. pose proof (unmetered_call slot msg c s Hinv Hslot) as Hr.
    destruct (call slot msg c (Acc tt s)) as [[[]|e|] a]; [by apply Hno in Hr| |done].
    destruct Hr as [-> _]. eauto.
Qed.

(** A stake cannot leave early. A sequencer that is active when its
    visible slot is [v] is still registered after any actions in the slots up
    to [v + DEFERRED_SLOTS_COUNT], also when it asks for a withdrawal right
    away, unless it is slashed. *)
Theorem stake_locked_for_waiting_period {G : Type} `{GasMeterLaws G}
    (xs : list (G * action)) da k v (s : t) :
  inv s -> known_sequencers s !! da = Some k -> balance_state k = Active ->
  Forall (fun x => meter_wf x.1 /\ action_wf (id s) x.2 /\
    x.2 <> ActSlash da /\
    forall slot m c, x.2 = ActCall slot m c -> v <= slot <= v + DEFERRED_SLOTS_COUNT) xs ->
  is_Some (known_sequencers (run_acts xs s) !! da).
Proof.
  intros Hinv Hk Ha Hall.
  assert (waiting da (v + (DEFERRED_SLOTS_COUNT + 1)) s) as Hw.
  { exists k. by rewrite Ha. }
  clear k Hk Ha. revert s Hinv Hall Hw. induction xs as [|[g x] xs IH]; intros s Hinv Hall Hw.
  { destruct Hw as (k & Hk & _). by exists k. }
  apply Forall_cons in Hall as [(Hg & Hx & Hns & Hslot) Hall]. cbn in Hg, Hx, Hns, Hslot.
  destruct (inv_act g x s Hinv Hg Hx) as [Hinv' Hid].
  apply (IH (act g x s)); [done|by rewrite Hid|].
  apply waiting_act; [done..| |done]. destruct x; cbn; try done.
  - specialize (Hslot _ _ _ eq_refl). lia.
  - congruence.
Qed.

(** Only the owner of a stake changes it with a call: a call of anybody
    else leaves the entry of the sequencer, whatever the message is. *)
Theorem stake_only_changed_by_owner {G : Type} `{GasMeterLaws G} (g : G) slot msg c da k (s : t) :
  inv s -> meter_wf g -> known_sequencers s !! da = Some k -> sender c <> address k ->
  known_sequencers (act g (ActCall slot msg c) s) !! da = Some k.
Proof.
  intros Hinv Hg Hk Hne. cbn. pose proof (registry_call_run g slot msg c s Hinv Hg) as Hr.
  destruct (call slot msg c (Acc g s)) as [[]]; [|done..].
  inversion Hr; subst; cbn; rewrite ?lookup_insert_ne, ?lookup_delete_ne by congruence; done.
Qed.

(** Registering, asking for the withdrawal and withdrawing after the
    waiting period is a round trip: the three calls succeed, every holder has
    the gas tokens it had before, and the known sequencers are the same. *)
Theorem stake_round_trip slot da amount bond c (s : t) :
  inv s -> slot + 2 * (DEFERRED_SLOTS_COUNT + 1) <= u64_max ->
  known_sequencers s !! da = None -> minimum_bond s = Some bond -> bond <= amount ->
  amount <= gas_balance s (HolderUser (sender c)) -> sender c <> sequencer c ->
  exists s1 s2 s3,
    call (G := unit) slot (Register da amount) c (Acc tt s) = (Ok tt, Acc tt s1) /\
    call (G := unit) slot (InitiateWithdrawal da) c (Acc tt s1) = (Ok tt, Acc tt s2) /\
    call (G := unit) (slot + (DEFERRED_SLOTS_COUNT + 1)) (Withdraw da) c (Acc tt s2) =
      (Ok tt, Acc tt s3) /\
    (forall h, gas_balance s3 h = gas_balance s h) /\
    known_sequencers s3 = known_sequencers s.
Proof.
  intros Hinv Hslot Hk Hb Hle Hfund Hne.
  assert (HolderUser (sender c) <> HolderModule (id s)) as Hhold by done.
  set (hu := HolderUser (sender c)) in *. set (hm := HolderModule (id s)) in *.
  pose proof (effect_register slot c s da amount bond Hk Hb Hle Hfund) as E1.
  set (s1 := emitted _ _) in E1. pose proof (registry_inv_effect _ _ _ _ _ Hinv E1) as I1.
  assert (known_sequencers s1 !! da = Some (mkKnown (sender c) amount Active)) as K1
    by apply lookup_insert_eq.
  pose proof (effect_initiate slot c s1 da _ K1 eq_refl Hne eq_refl ltac:(lia)) as E2.
  set (s2 := emitted _ (set_known _ s1)) in E2. pose proof (registry_inv_effect _ _ _ _ _ I1 E2) as I2.
  assert (known_sequencers s2 !! da = Some (mkKnown (sender c) amount
    (PendingWithdrawal (slot + (DEFERRED_SLOTS_COUNT + 1))))) as K2 by apply lookup_insert_eq.
  pose proof (effect_withdraw (slot + (DEFERRED_SLOTS_COUNT + 1)) c s2 da _ _ K2 eq_refl
    eq_refl ltac:(lia)) as E3.
  set (s3 := emitted _ (paid _ _ _ _)) in E3.
  exists s1, s2, s3. split_and!; [apply call_effect; [done|lia|done]..| |].
  - assert (forall h, gas_balance s2 h = gas_balance (paid s hu hm amount) h) as G2 by done.
    intros h. change (gas_balance s3 h) with (gas_balance (paid s2 hm hu amount) h).
    assert (amount <= gas_balance s2 hm) as Hm.
    { rewrite G2, gas_balance_paid by done. repeat case_bool_decide; naive_solver lia. }
    rewrite gas_balance_paid by done. rewrite !G2, !gas_balance_paid by done.
    repeat case_bool_decide; naive_solver lia.
  - cbn. rewrite delete_insert_eq, delete_insert_eq, delete_id; done.
Qed.

(** Settling an escrow moves everything the escrow account held and
    nothing else: the share of the pre-execution checks goes to the bank
    module, the rest to the recipient; when the escrow is too small nothing
    moves. It never panics. *)
Theorem escrow_settled_exactly holder r needed (s : t) :
  inv s ->
  let h := HolderDerived holder in
  let hb := HolderModule (Bank.id (bank s)) in
  exists o s', retrieve_funds_from_escrow (G := unit) holder r needed (Acc tt s) = (o, Acc tt s') /\
    ((exists e, o = Err e) /\ s' = s /\ (gas_balance s h < needed \/ gas_balance s h = 0) \/
     o = Ok tt /\ known_sequencers s' = known_sequencers s /\ needed <= gas_balance s h /\
     gas_balance s' h = 0 /\
     gas_balance s' (HolderUser r) = gas_balance s (HolderUser r) + (gas_balance s h - needed) /\
     gas_balance s' hb = gas_balance s hb + needed /\
     forall h', h' <> h -> h' <> HolderUser r -> h' <> hb -> gas_balance s' h' = gas_balance s h').
Proof.
  intros Hinv h hb.
  assert (wp (G := unit) (retrieve_funds_from_escrow holder r needed) (fun o s' =>
    ((exists e, o = Err e) /\ s' = s /\ (gas_balance s h < needed \/ gas_balance s h = 0)) \/
    (o = Ok tt /\ needed <= gas_balance s h /\
     s' = paid (paid s h (HolderUser r) (gas_balance s h - needed)) h hb needed)) s) as Hwp.
  { apply (wp_retrieve unmetered_cannot_fail); [apply Hinv|by left; eauto|by right]. }
  specialize (Hwp tt I). destruct (retrieve_funds_from_escrow _ _ _ _) as [o [[] s']].
  exists o, s'. split; [done|]. destruct Hwp as [_ [Herr|(-> & Hle & Hs)]]; [by left|right].
  cbn in Hs. subst s'. set (s1 := paid s h (HolderUser r) (gas_balance s h - needed)).
  assert (forall h', gas_balance s1 h' = if bool_decide (h' = h) then needed
    else if bool_decide (h' = HolderUser r) then gas_balance s h' + (gas_balance s h - needed)
    else gas_balance s h') as G1.
  { intros h'. unfold s1. rewrite gas_balance_paid by lia.
    repeat case_bool_decide; naive_solver lia. }
  assert (needed <= gas_balance s1 h) as Hle1 by (rewrite G1; by case_bool_decide).
  split_and!; [done..|done| | | |]; intros; rewrite gas_balance_paid by done; rewrite !G1;
    repeat case_bool_decide; naive_solver lia.
Qed.

(** Genesis registers the configured sequencer with its bond even when the
    bond is below the configured minimum, takes the bond from the sequencer's
    account, and leaves a solvent registry with the configured minimum bond and
    preferred sequencer. It fails exactly when the account does not hold the
    bond. *)
Theorem registry_genesis_exact config (s : t) :
  let sc := sequencer_config config in
  inv s -> known_sequencers s !! seq_da_address sc = None ->
  if bool_decide (seq_bond sc <= gas_balance s (HolderUser (seq_rollup_address sc))) then
    exists s', init_module (G := unit) config (Acc tt s) = (Ok tt, Acc tt s') /\ inv s' /\
      known_sequencers s' = <[seq_da_address sc :=
        mkKnown (seq_rollup_address sc) (seq_bond sc) Active]> (known_sequencers s) /\
      minimum_bond s' = Some (cfg_minimum_bond config) /\
      preferred_sequencer s' =
        (if is_preferred_sequencer sc then Some (seq_da_address sc) else preferred_sequencer s) /\
      gas_balance s' (HolderUser (seq_rollup_address sc)) =
        gas_balance s (HolderUser (seq_rollup_address sc)) - seq_bond sc
  else exists e a, init_module (G := unit) config (Acc tt s) = (Err e, a).
Proof.
  intros sc Hinv Hk. pose proof (init_module_run config s Hinv Hk) as Hr. fold sc in Hr.
  destruct (init_module config (Acc tt s)) as [[[]|e|] [[] s']]; [| |done].
  - destruct Hr as (s1 & Heff & Hs' & Hinv'). cbn in Hs'. subst s'.
    inversion Heff as [? ? bond Hk0 _ _ Hle| | |]; subst. cbn in Hle.
    rewrite bool_decide_eq_true_2 by done. eexists. split_and!; [done..|].
    change (gas_balance (paid s (HolderUser (seq_rollup_address sc)) (HolderModule (id s))
      (seq_bond sc)) (HolderUser (seq_rollup_address sc)) =
      gas_balance s (HolderUser (seq_rollup_address sc)) - seq_bond sc).
    rewrite gas_balance_paid by done. repeat case_bool_decide; naive_solver lia.
  - rewrite bool_decide_eq_false_2 by exact (proj1 (N.lt_nge _ _) Hr). eauto.
Qed.
End Claims.

(** A withdrawal panics when the gas of its transaction runs out in the
    payment: the out-of-gas error of [Bank::transfer_from] reaches the [expect]
    that is there for accounting bugs. The state is solvent and the same
    withdrawal succeeds with more gas. *)
Theorem withdraw_panics_out_of_gas :
  inv leaving /\
  fst (call 16 (take_back 71) (BankDemo.demo_context 1) (Acc short_meter leaving)) = Panic /\
  fst (call 16 (take_back 71) (BankDemo.demo_context 1)
    (Acc BankDemo.demo_meter leaving)) = Ok tt.
Proof. split; [apply leaving_inv|]. split; vm_compute; reflexivity. Qed.

(** *** Witnesses *)

Lemma registry_solvent_always_witness :
  inv (act BankDemo.demo_meter (ActCall 10 (leave 71) (BankDemo.demo_context 1)) registry).
Proof.
  apply (registry_solvent_always (G := BasicGasMeter.t) registry); [apply registry_inv|].
  apply (acts_step registry registry); [apply acts_refl|apply BankDemo.demo_meter_wf|exact I].
Defined.

Lemma registry_call_exact_witness :
  effect 10 (BankDemo.demo_context 1) registry (leave 71) leaving.
Proof.
  destruct (registry_call_exact 10 (leave 71) (BankDemo.demo_context 1) registry registry_inv)
    as [Hiff _]; [vm_compute; discriminate|].
  apply Hiff. apply leaving_run.
Defined.

Lemma stake_locked_for_waiting_period_witness :
  is_Some (known_sequencers (run_acts
    [(BankDemo.demo_meter, ActCall 10 (leave 71) (BankDemo.demo_context 1));
     (BankDemo.demo_meter, ActCall 15 (take_back 71) (BankDemo.demo_context 1))] registry) !! 71).
Proof.
  eapply (stake_locked_for_waiting_period (Sp := test_spec) (G := BasicGasMeter.t) _ 71 _ 10 registry registry_inv
    registry_known eq_refl).
  apply Forall_cons_2; [|apply Forall_cons_2; [|apply Forall_nil_2]];
    (split; [apply BankDemo.demo_meter_wf|split; [exact I|split; [discriminate|]]]);
    intros ? ? ? [= <- _ _]; split; vm_compute; discriminate.
Defined.

Lemma stake_only_changed_by_owner_witness :
  known_sequencers (act BankDemo.demo_meter
    (ActCall 10 (leave 71) (BankDemo.demo_context 2)) registry) !! 71 =
    Some (@mkKnown test_spec 1 300 Active).
Proof.
  apply (stake_only_changed_by_owner (Sp := test_spec) BankDemo.demo_meter 10 (leave 71) (BankDemo.demo_context 2)
    71 _ registry registry_inv BankDemo.demo_meter_wf registry_known).
  discriminate.
Defined.

Lemma stake_round_trip_witness :
  exists s1, call (G := unit) 10 register_second (BankDemo.demo_context 2) (Acc tt registry) =
    (Ok tt, Acc tt s1).
Proof.
  assert (10 + 2 * (DEFERRED_SLOTS_COUNT + 1) <= u64_max) as Hslot by (vm_compute; discriminate).
  assert (known_sequencers registry !! 72 = None) as Hk by (vm_compute; reflexivity).
  assert (minimum_bond registry = Some 100) as Hb by (vm_compute; reflexivity).
  assert (100 <= 200) as Hle by (vm_compute; discriminate).
  assert (200 <= gas_balance registry (BankDemo.user 2)) as Hf by (vm_compute; discriminate).
  destruct (stake_round_trip (Sp := test_spec) 10 72 200 100 (BankDemo.demo_context 2) registry
    registry_inv Hslot Hk Hb Hle Hf) as (s1 & _ & _ & H1 & _); [discriminate|].
  exists s1. exact H1.
Defined.

Lemma escrow_settled_exactly_witness :
  exists s', retrieve_funds_from_escrow (G := unit) (repeat 0 32) (1 : @Address test_spec) 5
    (Acc tt escrowed) = (Ok tt, Acc tt s') /\ gas_balance s' escrow_holder = 0.
Proof.
  assert (gas_balance escrowed escrow_holder = 50) as Hg by (vm_compute; reflexivity).
  destruct (escrow_settled_exactly (repeat 0 32) (1 : @Address test_spec) 5 escrowed escrowed_inv)
    as (o & s' & H1 & [(_ & _ & Hlow)|(Ho & _ & _ & Hz & _)]).
  - exfalso. change (gas_balance escrowed escrow_holder < 5 \/
      gas_balance escrowed escrow_holder = 0) in Hlow. rewrite Hg in Hlow. lia.
  - exists s'. rewrite H1, Ho. split; [reflexivity|exact Hz].
Defined.

Lemma registry_genesis_exact_witness :
  exists s', init_module (G := unit) demo_registry_config (Acc tt empty_registry) =
    (Ok tt, Acc tt s').
Proof.
  pose proof (registry_genesis_exact demo_registry_config empty_registry empty_registry_inv
    eq_refl) as Hg.
  rewrite bool_decide_eq_true_2 in Hg by (vm_compute; discriminate).
  destruct Hg as (s' & H1 & _). exists s'. exact H1.
Defined.
End RegistryProperties.
