(* ===== verification/Capabilities.v ===== *)
(** * The capabilities of a rollup (sov-capabilities)

    [Capabilities.t] is the state of a runtime: the modules whose capabilities
    sov-capabilities/src/lib.rs combines in [StandardProvenRollupCapabilities],
    and the state [Other] of the modules that it does not mention.  The bank is
    the one inside the sequencer registry: in the code both handles name the
    same state.

    The operations are those of [GasEnforcer], [SequencerAuthorization],
    [TransactionAuthorizer] and [SequencerRemuneration], with the gas payer [()]
    of [HasGasPayer] (the sender pays).  [ProofProcessor], which forwards to the
    incentive modules, and the oracle time of [SequencingDataHandler] are not
    modelled. *)

From Stdlib Require Import NArith Lia.
From stdpp Require Import base numbers gmap strings option list.
From S2P Require Import Prelude Ints Gas StateAccess Bank Uniqueness Accounts SequencerRegistry.

(** [OperatingMode], runtime/mod.rs *)
Inductive OperatingMode : Type := Optimistic | Zk | Operator.

(** [AuthorizationData], runtime/capabilities/authorization.rs, without the
    credentials of the sender. *)
Record AuthorizationData {Sp : Spec} : Type := mkAuthorizationData {
  auth_uniqueness : UniquenessData;
  auth_tx_hash : TxHash;
  auth_credential_id : CredentialId;
  auth_default_address : Address
}.
Arguments AuthorizationData : clear implicits.

(** [Rewards], batch.rs *)
Record Rewards : Type := mkRewards { accumulated_reward : N; accumulated_penalty : N }.

Module Capabilities.
Section Capabilities.
Context {Sp : Spec} {Cfg : UniquenessConfig} {Other : Type}.

Record t : Type := mk {
  sequencer_registry : SequencerRegistry.t;
  accounts : Accounts.t;
  uniqueness : Uniqueness.t;
  prover_incentives_id : ModuleId;
  attester_incentives_id : ModuleId;
  reward_address : option Address;
  other : Other
}.

Definition set_registry (r : SequencerRegistry.t) (s : t) : t :=
  mk r (accounts s) (uniqueness s) (prover_incentives_id s) (attester_incentives_id s)
    (reward_address s) (other s).

Definition set_accounts (a : Accounts.t) (s : t) : t :=
  mk (sequencer_registry s) a (uniqueness s) (prover_incentives_id s) (attester_incentives_id s)
    (reward_address s) (other s).

Definition set_uniqueness (u : Uniqueness.t) (s : t) : t :=
  mk (sequencer_registry s) (accounts s) u (prover_incentives_id s) (attester_incentives_id s)
    (reward_address s) (other s).

(** [OperatorIncentives::reward_address] *)
Definition reward_address_value : StateValue t Address :=
  mkStateValue "sov_operator_incentives/OperatorIncentives/reward_address" User reward_address
    (fun v s => mk (sequencer_registry s) (accounts s) (uniqueness s) (prover_incentives_id s)
       (attester_incentives_id s) v (other s)).

Section Operations.
Context {G : Type} `{GasMeter G}.

Definition on_registry {E A} (m : M (acc G SequencerRegistry.t) E A) : M (acc G t) E A :=
  zoom sequencer_registry set_registry m.
Definition on_bank {E A} (m : M (acc G Bank.t) E A) : M (acc G t) E A :=
  on_registry (SequencerRegistry.on_bank m).
Definition on_accounts {E A} (m : M (acc G Accounts.t) E A) : M (acc G t) E A :=
  zoom accounts set_accounts m.
Definition on_uniqueness {E A} (m : M (acc G Uniqueness.t) E A) : M (acc G t) E A :=
  zoom uniqueness set_uniqueness m.

Definition bank_id (s : t) : ModuleId := Bank.id (SequencerRegistry.bank (sequencer_registry s)).

(** *** [GasEnforcer] *)

Definition gas_coins (amount : N) : Bank.Coins := Bank.mkCoins amount config_gas_token_id.

Definition operator_reward_address {E} : M (acc G t) E Address :=
  let! a := expect (value_get reward_address_value) in
  expect_some a.

Definition get_prover_token_holder {E} (operating_mode : OperatingMode)
  : M (acc G t) E TokenHolder :=
  match operating_mode with
  | Zk => gets (fun s => HolderModule (prover_incentives_id s))
  | Optimistic => gets (fun s => HolderModule (attester_incentives_id s))
  | Operator =>
      let! addr := operator_reward_address in
      ret (HolderUser addr)
  end.

Definition try_reserve_gas_from_payer (tx : TxDetails) (gas_price : list N)
    (context : Context Sp) : M (acc G t) Bank.ReserveGasError unit :=
  on_bank (Bank.reserve_gas tx gas_price (sender context)).

Definition try_reserve_gas (tx : TxDetails) (gas_price : list N) (context : Context Sp)
  : M (acc G t) Bank.ReserveGasError unit :=
  try_reserve_gas_from_payer tx gas_price context.

Definition try_reserve_gas_for_proof (tx : TxDetails) (gas_price : list N) (sender : Address)
  : M (acc G t) Bank.ReserveGasError unit :=
  on_bank (Bank.reserve_gas tx gas_price sender).

Definition reward_prover (prover_rewards : N) (operating_mode : OperatingMode)
  : M (acc G t) Empty_set unit :=
  let! rewarded_module := get_prover_token_holder operating_mode in
  let! bank_id := gets bank_id in
  expect (on_bank (Bank.transfer_from (HolderModule bank_id) rewarded_module
    (gas_coins prover_rewards))).

Definition refund_remaining_gas (recipient : Address) (remaining_funds : N)
  : M (acc G t) Empty_set unit :=
  let! bank_id := gets bank_id in
  expect (on_bank (Bank.transfer_from (HolderModule bank_id) (HolderUser recipient)
    (gas_coins remaining_funds))).

Definition reward_prover_from_sequencer_balance (amount : N) (operating_mode : OperatingMode)
  : M (acc G t) Bank.TransferTokenError unit :=
  let! rewarded_prover_module := get_prover_token_holder operating_mode in
  let! bank_id := gets bank_id in
  on_bank (Bank.transfer_from (HolderModule bank_id) rewarded_prover_module (gas_coins amount)).

Definition return_escrowed_funds_to_sequencer (bond_amount : N) (reward : Rewards)
    (sequencer : DaAddress) : M (acc G t) Empty_set unit :=
  let! net_amount := expect_some (Amount.checked_sub bond_amount (accumulated_penalty reward)) in
  let! net_amount := expect_some (Amount.checked_add net_amount (accumulated_reward reward)) in
  let! bank_id := gets bank_id in
  expect (on_registry
    (SequencerRegistry.add_to_stake (HolderModule bank_id) sequencer net_amount)).

(** *** [SequencerAuthorization] *)

Definition preferred_sequencer : M (acc G t) Empty_set (option DaAddress) :=
  on_registry SequencerRegistry.preferred_sequencer_infallible.

Definition is_preferred_sequencer (sequencer : DaAddress) : M (acc G t) Empty_set bool :=
  let! p := preferred_sequencer in
  ret (bool_decide (p = Some sequencer)).

(** *** [TransactionAuthorizer] *)

Definition check_uniqueness (auth_data : AuthorizationData Sp)
    (execution_context : ExecutionContext) : M (acc G t) Uniqueness.Error unit :=
  on_uniqueness (Uniqueness.check_uniqueness (auth_credential_id auth_data)
    (auth_uniqueness auth_data) (auth_tx_hash auth_data) execution_context).

Definition mark_tx_attempted (auth_data : AuthorizationData Sp)
  : M (acc G t) Uniqueness.Error unit :=
  on_uniqueness (Uniqueness.mark_tx_attempted (auth_credential_id auth_data)
    (auth_uniqueness auth_data) (auth_tx_hash auth_data)).

Definition resolve_context (auth_data : AuthorizationData Sp) (sequencer : DaAddress)
    (sequencer_rollup_address : Address) (sequencing_data : option (list N))
    (execution_context : ExecutionContext) (sequencer_type : SequencerType)
  : M (acc G t) StateAccessorError (Context Sp) :=
  let! sender :=
    on_accounts (Accounts.resolve_sender_address (auth_default_address auth_data)
      (auth_credential_id auth_data)) in
  ret (mkContext Sp sender sequencer_rollup_address sequencer sequencing_data sender
         execution_context sequencer_type).

Definition resolve_unregistered_context (auth_data : AuthorizationData Sp)
    (sequencer : DaAddress) (execution_context : ExecutionContext)
  : M (acc G t) StateAccessorError (Context Sp) :=
  let! sender :=
    on_accounts (Accounts.resolve_sender_address (auth_default_address auth_data)
      (auth_credential_id auth_data)) in
  ret (mkContext Sp sender sender sequencer None sender execution_context NonPreferred).

(** *** [SequencerRemuneration] *)

Definition reward_sequencer_or_refund (sequencer : DaAddress)
    (sequencer_rollup_address : Address) (reward : N) : M (acc G t) Empty_set unit :=
  let! bank_id := gets bank_id in
  let! stake_increased :=
    try_catch (on_registry (SequencerRegistry.add_to_stake (HolderModule bank_id) sequencer
      reward)) in
  match stake_increased with
  | inl _ => ret tt
  | inr _ =>
      expect (on_bank (Bank.transfer_from (HolderModule bank_id)
        (HolderUser sequencer_rollup_address) (gas_coins reward)))
  end.
End Operations.

(** ** The invariant and what the transactions may rely on *)

Definition gas_balance (s : t) (h : TokenHolder) : N :=
  SequencerRegistry.gas_balance (sequencer_registry s) h.

(** The gas tokens of the bank module, where reserved gas and escrowed bonds
    are kept. *)
Definition reserve (s : t) : N := gas_balance s (HolderModule (bank_id s)).

Definition registry_id (s : t) : ModuleId := SequencerRegistry.id (sequencer_registry s).

Definition registered (s : t) (da : DaAddress) : Prop :=
  is_Some (SequencerRegistry.known_sequencers (sequencer_registry s) !! da).

(** Whether a registered sequencer is active or leaving. *)
Definition balance_state_of (s : t) (da : DaAddress) : option SequencerRegistry.BalanceState :=
  SequencerRegistry.balance_state <$>
    SequencerRegistry.known_sequencers (sequencer_registry s) !! da.

(** The reward of a prover has a recipient. *)
Definition payable (mode : OperatingMode) (s : t) : Prop :=
  mode = Operator -> is_Some (reward_address s).

(** The registry is solvent, and the modules have ids of their own. *)
Record inv (s : t) : Prop := mkInv {
  inv_registry : SequencerRegistry.inv (sequencer_registry s);
  inv_ids : bank_id s <> registry_id s
}.

Definition paid (s : t) (from to : TokenHolder) (amount : N) : t :=
  set_registry (SequencerRegistry.paid (sequencer_registry s) from to amount) s.
End Capabilities.
Arguments t {Sp} Other.
End Capabilities.

(** ** Rules of the capabilities *)
Module CapabilitiesFacts.
Import Capabilities.
Section Facts.
Context {Sp : Spec} {Cfg : UniquenessConfig} {Other : Type}.
Implicit Types (s : t Other) (da : DaAddress) (h : TokenHolder).

Lemma set_registry_id s : set_registry (sequencer_registry s) s = s.
Proof. by destruct s. Qed.

Lemma balance_paid s from to amount h :
  amount <= gas_balance s from ->
  gas_balance (paid s from to amount) h =
    if bool_decide (from <> to) then
      if bool_decide (h = from) then gas_balance s from - amount
      else if bool_decide (h = to) then gas_balance s to + amount
      else gas_balance s h
    else gas_balance s h.
Proof. apply RegistryFacts.gas_balance_paid. Qed.

Lemma bank_id_paid s from to amount : bank_id (paid s from to amount) = bank_id s.
Proof. apply BankFacts.id_transferred. Qed.

Lemma gas_balance_bound s h : inv s -> gas_balance s h <= u128_max.
Proof.
  intros [[Hb _] _]. etransitivity; [by apply BankFacts.balance_bound|by apply BankFacts.supply_bound].
Qed.

Lemma inv_paid s from to amount :
  inv s -> from <> HolderModule (registry_id s) -> amount <= gas_balance s from ->
  inv (paid s from to amount).
Proof.
  intros [Hr Hi] Hne Ha. split; [by apply RegistryFacts.inv_paid_other|].
  by rewrite bank_id_paid.
Qed.

(** A payment out of the reserve. *)
Lemma reserve_paid_out s to amount :
  amount <= reserve s ->
  reserve s - amount <= reserve (paid s (HolderModule (bank_id s)) to amount).
Proof.
  intros Ha. unfold reserve at 2. rewrite bank_id_paid, balance_paid by done.
  unfold reserve in *. repeat case_bool_decide; naive_solver lia.
Qed.

(** A payment into the reserve. *)
Lemma reserve_paid_in s a amount :
  amount <= gas_balance s (HolderUser a) ->
  reserve (paid s (HolderUser a) (HolderModule (bank_id s)) amount) = reserve s + amount.
Proof.
  intros Ha. unfold reserve at 1. rewrite bank_id_paid, balance_paid by done.
  unfold reserve. repeat case_bool_decide; naive_solver lia.
Qed.

Section Rules.
Context {G : Type} `{GasMeterLaws G}.

Lemma wp_transfer from to amount (Q : outcome Bank.TransferTokenError unit -> t Other -> Prop) s :
  inv s ->
  (forall e s', can_fail \/ (gas_balance s from < amount /\ s' = s) -> Q (Err e) s') ->
  (amount <= gas_balance s from -> Q (Ok tt) (paid s from to amount)) ->
  wp (on_bank (Bank.transfer_from from to (gas_coins amount))) Q s.
Proof.
  intros [Hr _] He Hok. unfold on_bank, on_registry. apply wp_zoom.
  apply RegistryFacts.wp_pay; [apply Hr| |done].
  intros e r [Hc|[Hlow ->]]; apply He; [by left|right]. by rewrite set_registry_id.
Qed.

Lemma wp_reserve_gas tx price payer (Q : outcome Bank.ReserveGasError unit -> t Other -> Prop) s :
  inv s ->
  (forall e s', Q (Err e) s') ->
  (max_fee tx <= gas_balance s (HolderUser payer) ->
     Q (Ok tt) (paid s (HolderUser payer) (HolderModule (bank_id s)) (max_fee tx))) ->
  wp (on_bank (Bank.reserve_gas tx price payer)) Q s.
Proof.
  intros [[Hb _] _] He Hok. unfold on_bank, on_registry,
    SequencerRegistry.on_bank, Bank.reserve_gas, Bank.get_balance_of.
  apply wp_zoom, wp_zoom.
  wp_step. wp_step. wp_step; [done|]. wp_step. wp_step; [|done].
  assert (wp (let! bank_id := gets Bank.id in
    map_err Bank.ImpossibleToTransferGas (Bank.transfer_from (G := G) (HolderUser payer)
      (HolderModule bank_id) (Bank.mkCoins (max_fee tx) config_gas_token_id)))
    (fun o b => Q o (set_registry (SequencerRegistry.set_bank b (sequencer_registry s)) s))
    (SequencerRegistry.bank (sequencer_registry s))) as Hpay.
  { wp_step. wp_step. wp_step. unfold Bank.transfer_from.
    apply BankFacts.wp_do_transfer; [done| | |]; wp_red; auto. }
  wp_step. destruct (gas_limit tx) as [l|]; [|by wp_step].
  wp_step. wp_step; [|done]. by wp_step.
Qed.

Lemma wp_resolve_context ad da ra sd ec st
    (Q : outcome StateAccessorError (Context Sp) -> t Other -> Prop) s :
  (forall e s', Q (Err e) s') ->
  (forall c a, sequencer_da_address c = da -> sequencing_data c = sd ->
     sequencer c = ra -> Q (Ok c) (set_accounts a s)) ->
  wp (resolve_context ad da ra sd ec st) Q s.
Proof.
  intros He Hok. unfold resolve_context, on_accounts. apply wp_bind, wp_zoom.
  apply AccountsFacts.wp_resolve; wp_red; [done|..]; intros; wp_red; wp_step; by apply Hok.
Qed.

(** The uniqueness check and the mark that follows it. *)
Lemma wp_check_and_mark {B C} ad ec (k : M (acc G (t Other)) B C)
    (f : Uniqueness.Error -> B) (f' : Uniqueness.Error -> B)
    (Q : outcome B C -> t Other -> Prop) s :
  Uniqueness.config_ok -> ec <> SequencerWarmUp ->
  (forall n, auth_uniqueness ad = Nonce n -> n <= u64_max) ->
  (auth_uniqueness ad = Nonce u64_max -> forall s', Q Panic s') ->
  (forall e, Q (Err (f e)) s) -> (forall e s', Q (Err (f' e)) s') ->
  (forall u, Uniqueness.attempt (uniqueness s) (auth_credential_id ad) (auth_uniqueness ad)
     (auth_tx_hash ad) u -> wp k Q (set_uniqueness u s)) ->
  wp (map_err f (check_uniqueness ad ec) ;;; map_err f' (mark_tx_attempted ad) ;;; k) Q s.
Proof.
  intros Hcfg Hec Hn Hp He He' Hk. unfold check_uniqueness, mark_tx_attempted, on_uniqueness.
  assert (set_uniqueness (uniqueness s) s = s) as Hid by by destruct s.
  wp_step. wp_step. apply wp_zoom. destruct (auth_uniqueness ad) as [n|g] eqn:Hu; cbn.
  - assert (wp (Uniqueness.check_nonce_uniqueness (G := G) (auth_credential_id ad) n)
      (fun o u => u = uniqueness s /\ match o with
         | Ok _ => Uniqueness.nonce_of (uniqueness s) (auth_credential_id ad) = n
         | Err _ => True | Panic => False end) (uniqueness s)) as Hc.
    { by apply UniquenessFacts.wp_check_nonce. }
    destruct ec; [done|..]; eapply wp_mono; try exact Hc;
      intros [[]|e|] u [-> Ho]; wp_red; rewrite ?Hid; try done; try apply He;
      wp_step; wp_step; apply wp_zoom; apply UniquenessFacts.wp_mark_nonce; wp_red;
      rewrite ?Ho; auto; specialize (Hn n eq_refl);
      intros ?; (apply Hp; f_equal; lia) || (apply Hk, UniquenessFacts.attempt_nonce; [done|lia]).
  - apply UniquenessFacts.wp_check_generation; [done|..]; wp_red; rewrite ?Hid; [auto|].
    intros Hacc. wp_step. wp_step. apply wp_zoom.
    apply UniquenessFacts.wp_mark_generation; wp_red; auto.
    by apply Hk, UniquenessFacts.attempt_generation.
Qed.
End Rules.

(** *** The functions that must not fail, on accessors that do not charge *)
Section Infallible.
Context {G : Type} `{GasMeterLaws G} (Hcf : ~ can_fail).

Lemma wp_prover_holder {E} mode (Q : outcome E TokenHolder -> t Other -> Prop) s :
  payable mode s -> (forall h, Q (Ok h) s) -> wp (get_prover_token_holder mode) Q s.
Proof.
  intros Hp Hok. destruct mode; unfold get_prover_token_holder, operator_reward_address;
    repeat wp_step; try no_fail; auto.
  destruct (Hp eq_refl) as [a Ha]. cbn in *. congruence.
Qed.

Lemma wp_pay_prover amount mode (Q : outcome Bank.TransferTokenError unit -> t Other -> Prop) s :
  inv s -> payable mode s -> (reserve s < amount -> forall e, Q (Err e) s) ->
  (amount <= reserve s -> forall h, Q (Ok tt) (paid s (HolderModule (bank_id s)) h amount)) ->
  wp (reward_prover_from_sequencer_balance amount mode) Q s.
Proof.
  intros Hinv Hp He Hok. unfold reward_prover_from_sequencer_balance.
  apply wp_bind, wp_prover_holder; [done|]. intros h. wp_red. wp_step. wp_step.
  apply wp_transfer; [done| |auto].
  intros e s' [Hc|[Hlow ->]]; [by apply Hcf in Hc|by apply He].
Qed.

Lemma wp_reward_prover amount mode (Q : outcome Empty_set unit -> t Other -> Prop) s :
  inv s -> payable mode s -> amount <= reserve s ->
  (forall h, Q (Ok tt) (paid s (HolderModule (bank_id s)) h amount)) ->
  wp (reward_prover amount mode) Q s.
Proof.
  intros Hinv Hp Ha Hok. unfold reward_prover.
  apply wp_bind, wp_prover_holder; [done|]. intros h. wp_red. wp_step. wp_step. wp_step.
  apply wp_transfer; [done| |]; wp_red; [|done].
  intros e s' [Hc|[Hlow _]]; [by apply Hcf in Hc|]. unfold reserve in Ha. lia.
Qed.

Lemma wp_refund recipient amount (Q : outcome Empty_set unit -> t Other -> Prop) s :
  inv s -> amount <= reserve s ->
  Q (Ok tt) (paid s (HolderModule (bank_id s)) (HolderUser recipient) amount) ->
  wp (refund_remaining_gas recipient amount) Q s.
Proof.
  intros Hinv Ha Hok. unfold refund_remaining_gas. wp_step. wp_step. wp_step.
  apply wp_transfer; [done| |]; wp_red; [|done].
  intros e s' [Hc|[Hlow _]]; [by apply Hcf in Hc|]. unfold reserve in Ha. lia.
Qed.

(** The stake of a registered sequencer and the reserve fit a [u128] together. *)
Lemma stake_plus_reserve s da k :
  inv s -> SequencerRegistry.known_sequencers (sequencer_registry s) !! da = Some k ->
  SequencerRegistry.stake k + reserve s <= u128_max.
Proof.
  intros [Hr Hi] Hk. pose proof (RegistryFacts.stake_le_balance _ _ _ Hr Hk) as Hs.
  assert (HolderModule (registry_id s) <> HolderModule (bank_id s)) as Hne by congruence.
  pose proof (BankFacts.two_balances_le (SequencerRegistry.bank (sequencer_registry s))
    _ _ config_gas_token_id Hne) as H2.
  rewrite (Bank.inv_supply _ (SequencerRegistry.inv_bank _ Hr)) in H2.
  pose proof (BankFacts.supply_bound _ config_gas_token_id (SequencerRegistry.inv_bank _ Hr)).
  unfold reserve, gas_balance, SequencerRegistry.gas_balance, registry_id in *. lia.
Qed.

(** The reserve paid [amount] into the stake of a sequencer. *)
Record topped_up (s : t Other) (amount : N) (s' : t Other) : Prop := mkToppedUp {
  tu_inv : inv s';
  tu_bank_id : bank_id s' = bank_id s;
  tu_balance_state : forall da, balance_state_of s' da = balance_state_of s da;
  tu_preferred : SequencerRegistry.preferred_sequencer (sequencer_registry s') =
    SequencerRegistry.preferred_sequencer (sequencer_registry s);
  tu_reward_address : reward_address s' = reward_address s;
  tu_uniqueness : uniqueness s' = uniqueness s;
  tu_other : other s' = other s;
  tu_reserve : reserve s - amount <= reserve s'
}.

Lemma wp_top_up da amount (Q : outcome SequencerRegistry.StakeError unit -> t Other -> Prop) s :
  inv s ->
  (forall e, ~ (registered s da /\ amount <= reserve s) -> Q (Err e) s) ->
  (forall s', topped_up s amount s' -> Q (Ok tt) s') ->
  wp (on_registry (SequencerRegistry.add_to_stake (HolderModule (bank_id s)) da amount)) Q s.
Proof.
  intros Hinv He Hok.
  assert (HolderModule (bank_id s) <> HolderModule (registry_id s)) as Hne.
  { destruct Hinv. congruence. }
  unfold on_registry. apply wp_zoom.
  apply (RegistryFacts.wp_add_stake Hcf); [apply Hinv| |].
  - intros e Herr. rewrite set_registry_id. apply He. intros [[k Hk] Hres].
    pose proof (stake_plus_reserve s da k Hinv Hk).
    destruct (Herr k Hk) as [Hov|Hlow]; [lia|]. unfold reserve, gas_balance in Hres. lia.
  - intros k Hk Hle. pose proof (stake_plus_reserve s da k Hinv Hk) as Hsum.
    destruct Hinv as [Hr Hi]. set (r' := SequencerRegistry.set_known _ _).
    assert (bank_id (set_registry r' s) = bank_id s) as Hid by apply BankFacts.id_transferred.
    apply Hok. split; [split| | |done|done|done|done|].
    + apply RegistryFacts.inv_paid_in; [done|done|done|].
      pose proof (RegistryFacts.total_stake_known (sequencer_registry s) da k
        (SequencerRegistry.stake k + amount) (SequencerRegistry.balance_state k) Hk). lia.
    + by rewrite Hid.
    + done.
    + intros da'. unfold balance_state_of. cbn.
      destruct (decide (da = da')) as [<-|Hda]; [by rewrite lookup_insert_eq, Hk|].
      by rewrite lookup_insert_ne.
    + change (reserve (set_registry r' s)) with
        (reserve (paid s (HolderModule (bank_id s)) (HolderModule (registry_id s)) amount)).
      by apply reserve_paid_out.
Qed.

(** Returning the escrow succeeds when the sequencer is registered and the reserve
    holds what is returned, and panics otherwise. *)
Lemma wp_return_escrow bond rw da (Q : outcome Empty_set unit -> t Other -> Prop) s :
  inv s ->
  (~ (registered s da /\ accumulated_penalty rw <= bond /\
      bond - accumulated_penalty rw + accumulated_reward rw <= reserve s) -> Q Panic s) ->
  (forall s', topped_up s (bond - accumulated_penalty rw + accumulated_reward rw) s' ->
     Q (Ok tt) s') ->
  wp (return_escrowed_funds_to_sequencer bond rw da) Q s.
Proof.
  intros Hinv Hp Hok. unfold return_escrowed_funds_to_sequencer.
  pose proof (gas_balance_bound s (HolderModule (bank_id s)) Hinv) as Hmax.
  fold (reserve s) in Hmax.
  wp_step. wp_step; unfold Amount.checked_sub in *; checked_simpl; [|apply Hp; lia]. subst.
  wp_step. wp_step; unfold Amount.checked_add in *; checked_simpl; [|apply Hp; lia]. subst.
  wp_step. wp_step. wp_step. apply wp_top_up; wp_red; [done| |done].
  intros _ Hno. apply Hp. tauto.
Qed.

(** The reward goes to the stake of the sequencer or, if there is none, to the
    given address; in both cases it is paid out of the reserve. *)
Lemma wp_reward_or_refund da a amount (Q : outcome Empty_set unit -> t Other -> Prop) s :
  inv s -> amount <= reserve s ->
  (forall s', topped_up s amount s' -> Q (Ok tt) s') ->
  Q (Ok tt) (paid s (HolderModule (bank_id s)) (HolderUser a) amount) ->
  wp (reward_sequencer_or_refund da a amount) Q s.
Proof.
  intros Hinv Hres Hok Hpaid. unfold reward_sequencer_or_refund. wp_step. wp_step.
  wp_step. wp_step. apply wp_top_up; wp_red; [done| |].
  - intros e _. wp_step. apply wp_transfer; wp_red; [done| |done].
    intros e' s' [Hc|[Hlow _]]; [by apply Hcf in Hc|]. unfold reserve in Hres. lia.
  - intros s' Hs'. wp_step. by apply Hok.
Qed.
End Infallible.
End Facts.
End CapabilitiesFacts.
