(* ===== verification/ChainState.v ===== *)
(** * The chain state (sov-chain-state) and the heights of a slot

    The module that keeps the slots of the DA layer, the rollup heights, the
    state roots and the gas prices: capabilities.rs ([synchronize_chain],
    [increment_rollup_height], [finalize_chain_state], the visible hash and the
    base fee), lib.rs (queries, the oracle time, the call message), call.rs and
    genesis.rs; and the part of [apply_slot_with_control_flow] and
    [apply_batches_in_user_space] of the STF blueprint that drives them
    ([apply_slot]).

    Kernel functions run on accessors that neither charge nor fail; they are
    functions on the state with [None] for a panic.  The fields of the module are
    grouped by who writes them: [kernel] by the kernel, [config] by genesis,
    [user] by transactions.  A [Version] is what a [VersionReader] reports.  Of a
    slot, the block hooks, the selection of blobs and the materialisation of the
    state are left out. *)

From Stdlib Require Import NArith ZArith Lia.
From stdpp Require Import base numbers gmap strings option list.
From S2P Require Import Prelude Ints Gas StateAccess GasPrice Bank Capabilities.

(** [StateRoot], sov-state/src/storage.rs *)
Class StateRoot : Type := {
  Root : Type;
  user_namespace_root : Root -> list N;
  kernel_namespace_root : Root -> list N;
  from_namespace_roots : list N -> list N -> Root
}.

Class ChainConstants : Type := {
  STATE_ROOT_DELAY_BLOCKS : N;
  SETUP_MODE_TERMINATION_HEIGHT : N
}.

(** The fields of a DA block header that are used. *)
Record BlockHeader : Type := mkHeader { header_hash : list N; header_time : Z }.

Definition i64_max : N := 9223372036854775807.
Definition NANOS_PER_MILLI : N := 1000000.

Module ChainState.
Section ChainState.
Context {Sp : Spec} {Rt : StateRoot} {Prices : PriceConfig} {Consts : ChainConstants}.

(** ** Data *)

Record SlotInformation : Type := mkSlotInformation {
  slot_hash : list N;
  gas_info : BlockGasInfo.t;
  prev_state_root : Root
}.

Record StateTransition : Type := mkTransition { post_state_root : Root; slot : SlotInformation }.

Record kernel : Type := mkKernel {
  next_visible_slot_number : option N;
  current_heights : option (N * N);
  slot_number_history : gmap N N;
  accessory_slot_number_history : gmap N N;
  true_slot_number_history : gmap N N;
  true_slot_number_to_rollup_height : gmap N N;
  true_to_visible_slot_number_history : gmap N N;
  true_slot_number : option N;
  time : gmap N Z;
  slots : gmap N SlotInformation;
  accessory_pre_state_roots : gmap N Root;
  block_gas_info : gmap N BlockGasInfo.t;
  past_user_state_roots : gmap N (list N);
  accessory_past_user_state_roots : gmap N (list N)
}.

Record config : Type := mkConfig {
  operating_mode : option OperatingMode;
  genesis_root : option Root;
  genesis_da_height : option N;
  inner_code_commitment : option (list N);
  outer_code_commitment : option (list N);
  admin_address : option Address
}.

(** [Event] *)
Inductive Event : Type :=
| AdminModeTerminated (effective_at_rollup_height : N) (by_address : Address).

Record user : Type := mkUser {
  setup_mode_termination_height : option N;
  oracle_time_nanos : option N;
  events : list Event
}.

Record t : Type := mk { the_kernel : kernel; the_config : config; the_user : user }.

Definition on_kernel (f : kernel -> kernel) (s : t) : t :=
  mk (f (the_kernel s)) (the_config s) (the_user s).

Record Version : Type := mkVersion {
  current_visible_slot_number : N;
  max_allowed_slot_number_to_access : N;
  rollup_height_to_access : N
}.

(** [VersionedStateValue::get] of the slots, containers/versioned_value.rs *)
Definition versioned_get {V} (m : gmap N V) (key : N) (v : Version) : option V :=
  if max_allowed_slot_number_to_access v <? key then None else m !! key.

(** ** Accessors *)

(** [StateCheckpoint] with the heights it caches, and [KernelStateAccessor]. *)
Record StateCheckpoint : Type := mkCheckpoint {
  state : t;
  visible_slot_num : N;
  rollup_height : N
}.

Record KernelStateAccessor : Type := mkAccessor {
  checkpoint : StateCheckpoint;
  true_slot_num : N
}.

Definition checkpoint_version (c : StateCheckpoint) : Version :=
  mkVersion (visible_slot_num c) (visible_slot_num c) (rollup_height c).

Definition accessor_version (k : KernelStateAccessor) : Version :=
  mkVersion (visible_slot_num (checkpoint k)) (true_slot_num k) (rollup_height (checkpoint k)).

Definition rollup_height_of (s : t) : N :=
  match current_heights (the_kernel s) with Some (h, _) => h | None => 0 end.

(** [StateCheckpoint::with_witness] *)
Definition with_witness (s : t) : StateCheckpoint :=
  mkCheckpoint s (default 0 (next_visible_slot_number (the_kernel s))) (rollup_height_of s).

(** [KernelStateAccessor::from_checkpoint] *)
Definition from_checkpoint (c : StateCheckpoint) : KernelStateAccessor :=
  mkAccessor c (default 0 (true_slot_number (the_kernel (state c)))).

Definition update_kernel (f : kernel -> kernel) (k : KernelStateAccessor) : KernelStateAccessor :=
  mkAccessor (mkCheckpoint (on_kernel f (state (checkpoint k))) (visible_slot_num (checkpoint k))
                (rollup_height (checkpoint k))) (true_slot_num k).

(** ** Genesis *)

Record ChainStateConfig : Type := mkChainStateConfig {
  cfg_current_time : Z;
  cfg_operating_mode : OperatingMode;
  cfg_inner_code_commitment : list N;
  cfg_outer_code_commitment : list N;
  cfg_genesis_da_height : N;
  cfg_admin : option Address
}.

(** [init_module] on the empty state; the genesis accessor is at slot 0. *)
Definition init_module (header : BlockHeader) (cfg : ChainStateConfig) : t :=
  mk (mkKernel (Some 0) (Some (0, 0)) {[0 := 0]} ∅ {[0 := 0]} {[0 := 0]} ∅ (Some 0)
        {[0 := cfg_current_time cfg]}
        {[0 := mkSlotInformation (header_hash header)
                 (BlockGasInfo.with_usage (BlockGasInfo.zero initial_gas_limit)
                    initial_base_fee_per_gas (BlockGasInfo.zero initial_gas_limit))
                 (from_namespace_roots (repeat 0 32) (repeat 0 32))]}
        ∅ ∅ ∅ ∅)
    (mkConfig (Some (cfg_operating_mode cfg)) None (Some (cfg_genesis_da_height cfg))
       (Some (cfg_inner_code_commitment cfg)) (Some (cfg_outer_code_commitment cfg))
       (cfg_admin cfg))
    (mkUser None None []).

(** ** The kernel, capabilities.rs and call.rs *)

(** The writes before the slot number is incremented. *)
Definition record_leftover (leftover_rollup_height true_slot : N) (user_root : list N)
    (k : kernel) : kernel :=
  mkKernel (next_visible_slot_number k) (current_heights k) (slot_number_history k)
    (accessory_slot_number_history k)
    (<[leftover_rollup_height := true_slot]> (true_slot_number_history k))
    (true_slot_number_to_rollup_height k) (true_to_visible_slot_number_history k)
    (true_slot_number k) (time k) (slots k) (accessory_pre_state_roots k) (block_gas_info k)
    (<[leftover_rollup_height := user_root]> (past_user_state_roots k))
    (<[leftover_rollup_height := user_root]> (accessory_past_user_state_roots k)).

Definition set_true_slot_number (n : N) (k : kernel) : kernel :=
  mkKernel (next_visible_slot_number k) (current_heights k) (slot_number_history k)
    (accessory_slot_number_history k) (true_slot_number_history k)
    (true_slot_number_to_rollup_height k) (true_to_visible_slot_number_history k)
    (Some n) (time k) (slots k) (accessory_pre_state_roots k) (block_gas_info k)
    (past_user_state_roots k) (accessory_past_user_state_roots k).

Definition increment_true_slot_number (k : KernelStateAccessor) : option KernelStateAccessor :=
  let current_height := default 0 (true_slot_number (the_kernel (state (checkpoint k)))) in
  let? new_height := checked_add u64_max current_height 1 in
  Some (mkAccessor (checkpoint (update_kernel (set_true_slot_number new_height) k)) new_height).

(** The writes of the new slot. *)
Definition record_slot (n : N) (info : SlotInformation) (header : BlockHeader) (k : kernel)
  : kernel :=
  mkKernel (next_visible_slot_number k) (current_heights k) (slot_number_history k)
    (accessory_slot_number_history k) (true_slot_number_history k)
    (true_slot_number_to_rollup_height k) (true_to_visible_slot_number_history k)
    (true_slot_number k) (<[n := header_time header]> (time k)) (<[n := info]> (slots k))
    (<[n := prev_state_root info]> (accessory_pre_state_roots k)) (block_gas_info k)
    (past_user_state_roots k) (accessory_past_user_state_roots k).

Definition synchronize_chain (slot_header : BlockHeader) (pre_state_root : Root)
    (k : KernelStateAccessor) : option KernelStateAccessor :=
  let s := the_kernel (state (checkpoint k)) in
  let? (leftover_rollup_height, _) := current_heights s in
  let? true_slot := true_slot_number s in
  let user_root := user_namespace_root pre_state_root in
  let? k :=
    increment_true_slot_number
      (update_kernel (record_leftover leftover_rollup_height true_slot user_root) k) in
  let? base_fee_per_gas :=
    match versioned_get (slots (the_kernel (state (checkpoint k))))
            (visible_slot_num (checkpoint k)) (accessor_version k) with
    | Some previous_slot => GasPrice.compute_base_fee_per_gas (gas_info previous_slot) 1
    | None => Some initial_base_fee_per_gas
    end in
  let info :=
    mkSlotInformation (header_hash slot_header)
      (BlockGasInfo.new initial_gas_limit base_fee_per_gas) pre_state_root in
  Some (update_kernel (record_slot (true_slot_num k) info slot_header) k).

Definition set_heights (height visible : N) (k : kernel) : kernel :=
  mkKernel (Some visible) (Some (height, visible))
    (<[height := visible]> (slot_number_history k))
    (<[height := visible]> (accessory_slot_number_history k)) (true_slot_number_history k)
    (true_slot_number_to_rollup_height k) (true_to_visible_slot_number_history k)
    (true_slot_number k) (time k) (slots k) (accessory_pre_state_roots k) (block_gas_info k)
    (past_user_state_roots k) (accessory_past_user_state_roots k).

Definition increment_rollup_height (visible_slot_number : N) (k : KernelStateAccessor)
  : KernelStateAccessor :=
  let stale_rollup_height := rollup_height_of (state (checkpoint k)) in
  let next_rollup_height := saturating_add u64_max stale_rollup_height 1 in
  mkAccessor
    (mkCheckpoint (on_kernel (set_heights next_rollup_height visible_slot_number)
                     (state (checkpoint k))) visible_slot_number next_rollup_height)
    (true_slot_num k).

Definition finalize_slot (n height visible : N) (info : SlotInformation) (k : kernel) : kernel :=
  mkKernel (next_visible_slot_number k) (current_heights k) (slot_number_history k)
    (accessory_slot_number_history k) (true_slot_number_history k)
    (<[n := height]> (true_slot_number_to_rollup_height k))
    (<[n := visible]> (true_to_visible_slot_number_history k))
    (true_slot_number k) (time k) (<[n := info]> (slots k)) (accessory_pre_state_roots k)
    (block_gas_info k) (past_user_state_roots k) (accessory_past_user_state_roots k).

Definition finalize_chain_state (gas_used : list N) (k : KernelStateAccessor)
  : option KernelStateAccessor :=
  let? in_progress_slot := slots (the_kernel (state (checkpoint k))) !! true_slot_num k in
  let in_progress_slot :=
    mkSlotInformation (slot_hash in_progress_slot)
      (BlockGasInfo.update_gas_used (gas_info in_progress_slot) gas_used)
      (prev_state_root in_progress_slot) in
  Some (update_kernel
    (finalize_slot (true_slot_num k) (rollup_height (checkpoint k))
       (visible_slot_num (checkpoint k)) in_progress_slot) k).

Definition record_gas_usage (final_gas_info : BlockGasInfo.t) (height : N) (s : t) : t :=
  on_kernel (fun k =>
    mkKernel (next_visible_slot_number k) (current_heights k) (slot_number_history k)
      (accessory_slot_number_history k) (true_slot_number_history k)
      (true_slot_number_to_rollup_height k) (true_to_visible_slot_number_history k)
      (true_slot_number k) (time k) (slots k) (accessory_pre_state_roots k)
      (<[height := final_gas_info]> (block_gas_info k)) (past_user_state_roots k)
      (accessory_past_user_state_roots k)) s.

(** [save_genesis_root] and [save_user_state_root], used by native nodes *)
Definition save_genesis_root (root : Root) (s : t) : t :=
  mk (the_kernel s)
    (mkConfig (operating_mode (the_config s)) (Some root) (genesis_da_height (the_config s))
       (inner_code_commitment (the_config s)) (outer_code_commitment (the_config s))
       (admin_address (the_config s)))
    (the_user s).

Definition save_user_state_root (height : N) (root : list N) (k : KernelStateAccessor)
  : KernelStateAccessor :=
  update_kernel (fun k =>
    mkKernel (next_visible_slot_number k) (current_heights k) (slot_number_history k)
      (accessory_slot_number_history k) (true_slot_number_history k)
      (true_slot_number_to_rollup_height k) (true_to_visible_slot_number_history k)
      (true_slot_number k) (time k) (slots k) (accessory_pre_state_roots k) (block_gas_info k)
      (<[height := root]> (past_user_state_roots k))
      (<[height := root]> (accessory_past_user_state_roots k))) k.

(** ** State roots *)

Definition pre_state_root_at_height (slot_number : N) (v : Version) (s : t) : option Root :=
  prev_state_root <$> versioned_get (slots (the_kernel s)) slot_number v.

(** [visible_hash_for] *)
Definition visible_hash_for (height : N) (k : KernelStateAccessor) : option Root :=
  let s := state (checkpoint k) in
  let rollup_height_to_use := saturating_sub height STATE_ROOT_DELAY_BLOCKS in
  let? slot_number := slot_number_history (the_kernel s) !! rollup_height_to_use in
  if slot_number =? 0 then pre_state_root_at_height 1 (accessor_version k) s
  else
    let? kernel_root := pre_state_root_at_height slot_number (accessor_version k) s in
    if rollup_height_to_use <=? 1 then Some kernel_root
    else
      let? user_root :=
        past_user_state_roots (the_kernel s) !! saturating_sub rollup_height_to_use 1 in
      Some (from_namespace_roots user_root (kernel_namespace_root kernel_root)).

Definition root_at_height (slot_number : N) (v : Version) (s : t) : option Root :=
  let? next_slot_number := checked_add u64_max slot_number 1 in
  prev_state_root <$> versioned_get (slots (the_kernel s)) next_slot_number v.

Definition get_historical_transition_dangerous (slot_number : N) (v : Version) (s : t)
  : option StateTransition :=
  let? next_slot_num := checked_add u64_max slot_number 1 in
  let? next_slot := versioned_get (slots (the_kernel s)) next_slot_num v in
  let? slot := versioned_get (slots (the_kernel s)) slot_number v in
  Some (mkTransition (prev_state_root next_slot) slot).

(** ** Setup mode and the base fee *)

Definition is_setup_mode_active (height : N) (s : t) : bool :=
  if SETUP_MODE_TERMINATION_HEIGHT <=? height then false
  else match setup_mode_termination_height (the_user s) with
       | Some termination_height => height <? termination_height
       | None => true
       end.

Definition compute_next_gas_price (stale_rollup_height provisional_visible_height_increase : N)
    (s : t) : option (list N) :=
  let next_rollup_height := saturating_add u64_max stale_rollup_height 1 in
  if is_setup_mode_active next_rollup_height s
  then Some (BlockGasInfo.zero initial_base_fee_per_gas)
  else if (stale_rollup_height =? 0) || is_setup_mode_active stale_rollup_height s
  then Some initial_base_fee_per_gas
  else
    let prev_gas_info :=
      default (BlockGasInfo.new initial_gas_limit initial_base_fee_per_gas)
        (block_gas_info (the_kernel s) !! stale_rollup_height) in
    GasPrice.compute_base_fee_per_gas prev_gas_info provisional_visible_height_increase.

(** The inner option is the [Option] of the result, the outer one a panic. *)
Definition historical_gas_info_at (height : N) (s : t) : option BlockGasInfo.t :=
  if height =? 0
  then Some (BlockGasInfo.new initial_gas_limit initial_base_fee_per_gas)
  else block_gas_info (the_kernel s) !! height.

Definition base_fee_per_gas_at (height : N) (s : t) : option (option (list N)) :=
  if is_setup_mode_active height s then Some (Some (BlockGasInfo.zero initial_base_fee_per_gas))
  else if height <=? 1 then Some (Some initial_base_fee_per_gas)
  else
    let? (current_rollup_height, current_visible_slot_number) :=
      current_heights (the_kernel s) in
    if height =? current_rollup_height then
      let? prev_visible_height :=
        slot_number_history (the_kernel s) !! saturating_sub height 1 in
      let slots_elapsed := saturating_sub current_visible_slot_number prev_visible_height in
      let? next_base_price :=
        compute_next_gas_price (saturating_sub height 1) slots_elapsed s in
      Some (Some next_base_price)
    else Some (BlockGasInfo.base_fee_per_gas <$> historical_gas_info_at height s).

Definition block_gas_limit_at (height : N) (s : t) : option (option (list N)) :=
  if height =? 0 then Some (Some initial_gas_limit)
  else
    let? (current_rollup_height, _) := current_heights (the_kernel s) in
    if height =? current_rollup_height then Some (Some initial_gas_limit)
    else Some (BlockGasInfo.gas_limit <$> historical_gas_info_at height s).

(** ** One slot, stf-blueprint/src/lib.rs *)

Record SlotOutput : Type := mkSlotOutput {
  out_state : t;
  out_visible_hash : Root;
  out_gas_price : list N;
  out_gas_limit : list N
}.

(** [apply_batches_in_user_space]: the batches are [execute], which returns the
    state after them and the gas that the slot meter charged. *)
Definition apply_batches_in_user_space (creates_rollup_block : bool)
    (execute : list N -> list N -> t -> t * list N) (c : StateCheckpoint)
  : option (StateCheckpoint * list N * list N * list N) :=
  let? gas_price := base_fee_per_gas_at (rollup_height c) (state c) in
  let? gas_price := gas_price in
  let? block_gas_limit := block_gas_limit_at (rollup_height c) (state c) in
  let? block_gas_limit := block_gas_limit in
  let (s, total_gas_used) := execute gas_price block_gas_limit (state c) in
  let s :=
    if creates_rollup_block
    then record_gas_usage
           (BlockGasInfo.update_gas_used (BlockGasInfo.new block_gas_limit gas_price)
              total_gas_used) (rollup_height c) s
    else s in
  Some (mkCheckpoint s (visible_slot_num c) (rollup_height c), total_gas_used, gas_price,
        block_gas_limit).

(** The assertions of [apply_slot_with_control_flow]. *)
Definition require (b : bool) : option unit := if b then Some tt else None.

(** [apply_slot_with_control_flow], with what the blob selector returns:
    [increase] is [visible_slot_number_increase] and [no_blobs] says that it
    selected no blob. *)
Definition apply_slot (slot_header : BlockHeader) (pre_state_root : Root) (increase : N)
    (no_blobs : bool) (execute : list N -> list N -> t -> t * list N) (s : t)
  : option SlotOutput :=
  let k := from_checkpoint (with_witness s) in
  let old_true_slot_number := true_slot_num k in
  let old_visible_slot_number := visible_slot_num (checkpoint k) in
  let old_rollup_height := rollup_height (checkpoint k) in
  let? k := synchronize_chain slot_header pre_state_root k in
  let? _ := require (negb (true_slot_num k =? old_true_slot_number)) in
  let creates_rollup_block := 0 <? increase in
  let? k :=
    if creates_rollup_block then
      let? visible := checked_add u64_max (visible_slot_num (checkpoint k)) increase in
      let? _ := require (visible <=? true_slot_num k) in
      let k := increment_rollup_height visible k in
      let? _ := require (negb (visible_slot_num (checkpoint k) =? old_visible_slot_number)) in
      let? _ := require (negb (rollup_height (checkpoint k) =? old_rollup_height)) in
      Some k
    else
      let? _ := require no_blobs in
      Some k in
  let? visible_hash := visible_hash_for (rollup_height (checkpoint k)) k in
  let? (c, total_gas, gas_price, gas_limit) :=
    apply_batches_in_user_space creates_rollup_block execute (checkpoint k) in
  let? k := finalize_chain_state total_gas (from_checkpoint c) in
  Some (mkSlotOutput (state (checkpoint k)) visible_hash gas_price gas_limit).

(** ** Transactions: the call message and the oracle time, lib.rs *)

Inductive CallMessage : Type :=
| TerminateSetupMode
| SetOracleTime (milliseconds_since_epoch : Z).

Inductive Error : Type :=
| NoAdminAddressSet
| OnlyAdminsCanTerminate
| CannotTerminateTwice
| OracleTimeNotSupported
| StateError (e : StateAccessorError).

Definition on_user (f : user -> user) (s : t) : t :=
  mk (the_kernel s) (the_config s) (f (the_user s)).

Definition admin_address_value : StateValue t Address :=
  mkStateValue "sov_chain_state/ChainState/admin_address" User
    (fun s => admin_address (the_config s))
    (fun v s => mk (the_kernel s)
       (mkConfig (operating_mode (the_config s)) (genesis_root (the_config s))
          (genesis_da_height (the_config s)) (inner_code_commitment (the_config s))
          (outer_code_commitment (the_config s)) v) (the_user s)).

Definition setup_mode_termination_height_value : StateValue t N :=
  mkStateValue "sov_chain_state/ChainState/setup_mode_termination_height" User
    (fun s => setup_mode_termination_height (the_user s))
    (fun v => on_user (fun u => mkUser v (oracle_time_nanos u) (events u))).

Definition oracle_time_nanos_value : StateValue t N :=
  mkStateValue "sov_chain_state/ChainState/oracle_time_nanos" User
    (fun s => oracle_time_nanos (the_user s))
    (fun v => on_user (fun u => mkUser (setup_mode_termination_height u) v (events u))).

Definition time_map : StateMap t N Z :=
  mkStateMap "sov_chain_state/ChainState/time" Kernel (fun s => time (the_kernel s))
    (fun m => on_kernel (fun k =>
       mkKernel (next_visible_slot_number k) (current_heights k) (slot_number_history k)
         (accessory_slot_number_history k) (true_slot_number_history k)
         (true_slot_number_to_rollup_height k) (true_to_visible_slot_number_history k)
         (true_slot_number k) m (slots k) (accessory_pre_state_roots k) (block_gas_info k)
         (past_user_state_roots k) (accessory_past_user_state_roots k))).

Section Transactions.
Context {G : Type} `{GasMeter G}.

Definition emit_event {E} (e : Event) : M (acc G t) E unit :=
  modify (on_user (fun u =>
    mkUser (setup_mode_termination_height u) (oracle_time_nanos u) (events u ++ [e]))).

Definition call (v : Version) (message : CallMessage) (context : Context Sp)
  : M (acc G t) Error unit :=
  match message with
  | TerminateSetupMode =>
      let! allowed_admin := map_err StateError (value_get admin_address_value) in
      let! allowed_admin := ok_or allowed_admin NoAdminAddressSet in
      ensure (bool_decide (sender context = allowed_admin)) OnlyAdminsCanTerminate ;;;
      let! height := map_err StateError (value_get setup_mode_termination_height_value) in
      ensure (match height with Some _ => false | None => true end) CannotTerminateTwice ;;;
      let termination_height := saturating_add u64_max (rollup_height_to_access v) 1 in
      map_err StateError (value_set setup_mode_termination_height_value termination_height) ;;;
      emit_event (AdminModeTerminated termination_height (sender context))
  | SetOracleTime _ => throw OracleTimeNotSupported
  end.

(** [timestamp.as_nanos()] is a [u128]. *)
Definition update_oracle_time_from_sequencing_data (nanos : N)
  : M (acc G t) StateAccessorError unit :=
  if i64_max <? nanos / NANOS_PER_MILLI then ret tt
  else
    let! current_nanos := value_get oracle_time_nanos_value in
    match current_nanos with
    | Some current_nanos =>
        if nanos <? current_nanos then ret tt
        else if nanos =? current_nanos then ret tt
        else value_set oracle_time_nanos_value nanos
    | None => value_set oracle_time_nanos_value nanos
    end.

Definition get_time (v : Version) : M (acc G t) StateAccessorError Z :=
  let! time := map_get time_map (current_visible_slot_number v) in
  expect_some time.

Definition get_oracle_time (v : Version) : M (acc G t) StateAccessorError Z :=
  let! nanos := value_get oracle_time_nanos_value in
  match nanos with
  | Some nanos =>
      if nanos / NANOS_PER_MILLI <=? i64_max then ret (Z.of_N (nanos / NANOS_PER_MILLI))
      else get_time v
  | None => get_time v
  end.

Definition get_oracle_time_nanos (v : Version) : M (acc G t) StateAccessorError N :=
  let! nanos := value_get oracle_time_nanos_value in
  match nanos with
  | Some nanos => ret nanos
  | None =>
      let! millis := get_time v in
      let! millis := expect_some (if (millis <? 0)%Z then None else Some (Z.to_N millis)) in
      expect_some (checked_mul u128_max millis NANOS_PER_MILLI)
  end.
End Transactions.

(** ** The invariant *)

(** The gas info of a slot or block: the next price can be computed from it. *)
Definition gas_info_ok (info : BlockGasInfo.t) : Prop :=
  GasPriceFacts.info_ok info /\
  length (BlockGasInfo.gas_limit info) = length initial_gas_limit.

(** After [n] slots, at the rollup height [h] and the visible slot [v], with the
    user roots of the heights below [r] recorded: every slot and every height is
    recorded, the visible slot numbers grow with the heights and do not exceed the
    true slot number. *)
Record chain_inv (k : kernel) (n h v r : N) : Prop := mkChainInv {
  ci_true : true_slot_number k = Some n;
  ci_heights : current_heights k = Some (h, v);
  ci_next : next_visible_slot_number k = Some v;
  ci_visible : v <= n;
  ci_height : h <= v;
  ci_known_roots : h <= r;
  ci_top : slot_number_history k !! h = Some v;
  ci_history : forall i, i <= h -> exists w, slot_number_history k !! i = Some w /\ i <= w <= v;
  ci_growing : forall i j wi wj, i < j <= h ->
    slot_number_history k !! i = Some wi -> slot_number_history k !! j = Some wj -> wi < wj;
  ci_slots : forall i, i <= n -> exists info, slots k !! i = Some info /\ gas_info_ok (gas_info info);
  ci_roots : forall i, i < r -> is_Some (past_user_state_roots k !! i);
  ci_blocks : forall i info, block_gas_info k !! i = Some info -> gas_info_ok info
}.

(** What the batches may do: they leave the kernel's and the genesis fields alone
    and report the gas of the slot meter. *)
Definition execution_ok (execute : list N -> list N -> t -> t * list N) : Prop :=
  forall price limit s,
    the_kernel (fst (execute price limit s)) = the_kernel s /\
    the_config (fst (execute price limit s)) = the_config s /\
    length (snd (execute price limit s)) = length initial_gas_limit /\
    Forall (fun g => g <= u64_max) (snd (execute price limit s)).

(** The input of a slot, and the slots in order. *)
Record slot_input : Type := mkSlotInput {
  in_header : BlockHeader;
  in_root : Root;
  in_increase : N;
  in_no_blobs : bool;
  in_execute : list N -> list N -> t -> t * list N
}.

Definition apply_input (i : slot_input) (s : t) : option SlotOutput :=
  apply_slot (in_header i) (in_root i) (in_increase i) (in_no_blobs i) (in_execute i) s.

Fixpoint apply_slots (inputs : list slot_input) (s : t) : option t :=
  match inputs with
  | [] => Some s
  | i :: inputs' => let? out := apply_input i s in apply_slots inputs' (out_state out)
  end.

(** What the blob selector guarantees: the visible slot number stays behind the
    true one and blobs are only selected for a rollup block. *)
Definition input_ok (n v : N) (i : slot_input) : Prop :=
  n + 1 <= u64_max /\ v + in_increase i <= n + 1 /\
  (in_increase i = 0 -> in_no_blobs i = true) /\ execution_ok (in_execute i).

Fixpoint inputs_ok (n v : N) (inputs : list slot_input) : Prop :=
  match inputs with
  | [] => True
  | i :: inputs' => input_ok n v i /\ inputs_ok (n + 1) (v + in_increase i) inputs'
  end.
End ChainState.
End ChainState.

(** ** Lemmas *)
Module ChainStateFacts.
Import ChainState GasPriceFacts.
Section Facts.
Context {Sp : Spec} {Rt : StateRoot} {Prices : PriceConfig} {Consts : ChainConstants}.
Context (Hcfg : GasPrice.price_config_ok).

Lemma config_bounds :
  1 <= ELASTICITY_MULTIPLIER /\ 1 <= BASE_FEE_MAX_CHANGE_DENOMINATOR <= u8_max.
Proof. destruct Hcfg as ([? ?] & ? & _). done. Qed.

Lemma next_price info n :
  gas_info_ok info -> 1 <= n ->
  exists ps, GasPrice.compute_base_fee_per_gas info n = Some ps /\ prices_ok ps.
Proof.
  intros [Hinfo Hlen] Hn. destruct config_bounds as [HE HD]. by apply compute_base_fee_ok.
Qed.

Lemma initial_prices_ok : prices_ok initial_base_fee_per_gas.
Proof. destruct Hcfg as (_ & _ & _ & Hp & Hl). by split. Qed.

Lemma new_gas_info_ok ps :
  prices_ok ps -> gas_info_ok (BlockGasInfo.new initial_gas_limit ps).
Proof. intros Hp. split; [by apply prices_ok_info|done]. Qed.

Lemma zero_prices_small (l : list N) : Forall (fun p => p <= u128_max) (BlockGasInfo.zero l).
Proof. unfold BlockGasInfo.zero. induction l; cbn; constructor; [by vm_compute|done]. Qed.

(** The gas that a slot used is recorded in its gas info. *)
Lemma used_gas_info_ok ps used :
  Forall (fun p => p <= u128_max) ps -> length ps = length initial_gas_limit ->
  length used = length initial_gas_limit -> Forall (fun g => g <= u64_max) used ->
  gas_info_ok (BlockGasInfo.update_gas_used (BlockGasInfo.new initial_gas_limit ps) used).
Proof.
  intros Hp Hl Hu Hg. split; [|done]. split; [|done|done]. cbn.
  destruct Hcfg as (_ & _ & Hlim & _). clear Hp Hl. revert used Hu Hg.
  induction Hlim as [|l ls [Ht Hok] Hlim IH]; intros [|u used] Hu Hg; try done; constructor.
  - apply Forall_cons in Hg as [Hg _]. split_and!; [done|by right|done].
  - apply IH; [by injection Hu|]. by apply Forall_cons in Hg as [_ Hg].
Qed.

(** *** The steps of a slot *)

Lemma sync_ok s n h v r header root :
  chain_inv (the_kernel s) n h v r -> n + 1 <= u64_max ->
  exists s' info ps,
    synchronize_chain header root (from_checkpoint (with_witness s)) =
      Some (mkAccessor (mkCheckpoint s' v h) (n + 1)) /\
    chain_inv (the_kernel s') (n + 1) h v (N.max r (h + 1)) /\
    slots (the_kernel s') !! (n + 1) = Some info /\ prev_state_root info = root /\
    gas_info info = BlockGasInfo.new initial_gas_limit ps /\ prices_ok ps /\
    the_config s' = the_config s /\ the_user s' = the_user s.
Proof.
  intros [Ht Hh Hn Hv Hhv Hr Htop Hhist Hgrow Hslots Hroots Hblocks] Hmax.
  unfold synchronize_chain, from_checkpoint, with_witness, rollup_height_of. cbn.
  rewrite Hh, Ht. unfold increment_true_slot_number. cbn. rewrite Ht. cbn. unfold checked_add.
  rewrite (proj2 (N.leb_le (n + 1) u64_max)) by done. cbn. rewrite Hn. cbn.
  unfold versioned_get. cbn. destruct (N.ltb_spec (n + 1) v); [lia|].
  destruct (Hslots v Hv) as (prev & -> & Hprev).
  destruct (next_price (gas_info prev) 1 Hprev) as (ps & -> & Hps); [lia|].
  eexists _, _, ps. split_and!; [done| |apply lookup_insert_eq|done|done|done|done|done].
  split; cbn; [done|done|done|lia|done|lia|done|done|done| | |done].
  - intros i Hi. destruct (decide (i = n + 1)) as [->|Hne].
    + rewrite lookup_insert_eq. eexists. split; [done|]. by apply new_gas_info_ok.
    + rewrite lookup_insert_ne by done. apply Hslots. lia.
  - intros i Hi. destruct (decide (i = h)) as [->|Hne].
    + rewrite lookup_insert_eq. eauto.
    + rewrite lookup_insert_ne by done. apply Hroots. lia.
Qed.

Lemma set_heights_ok k n h v r w :
  chain_inv k n h v r -> h + 1 <= r -> v < w <= n ->
  chain_inv (set_heights (h + 1) w k) n (h + 1) w r.
Proof.
  intros [Ht Hh Hn Hv Hhv Hr Htop Hhist Hgrow Hslots Hroots Hblocks] Hr' Hw.
  split; cbn; [done|done|done|lia|lia|done|apply lookup_insert_eq| | |done|done|done].
  - intros i Hi. destruct (decide (i = h + 1)) as [->|Hne].
    + rewrite lookup_insert_eq. exists w. split; [done|lia].
    + rewrite lookup_insert_ne by done. destruct (Hhist i) as (x & Hx & Hb); [lia|].
      exists x. split; [done|lia].
  - intros i j wi wj [Hij Hj] Hi'. rewrite lookup_insert_ne in Hi' by lia.
    destruct (Hhist i) as (x & Hx & Hb); [lia|]. destruct (decide (j = h + 1)) as [->|Hne].
    + rewrite lookup_insert_eq. intros [= <-]. simplify_eq. lia.
    + rewrite lookup_insert_ne by done. intros Hj'. apply (Hgrow i j); [lia|done|done].
Qed.

(** The visible hash of the current height can be computed. *)
Lemma visible_hash_ok s n h v r :
  chain_inv (the_kernel s) n h v r -> 1 <= n ->
  is_Some (visible_hash_for h (mkAccessor (mkCheckpoint s v h) n)).
Proof.
  intros [Ht Hh Hn Hv Hhv Hr Htop Hhist Hgrow Hslots Hroots Hblocks] Hn1.
  unfold visible_hash_for, pre_state_root_at_height, versioned_get, saturating_sub. cbn.
  set (x := h - STATE_ROOT_DELAY_BLOCKS).
  destruct (Hhist x) as (w & -> & Hw1 & Hw2); [lia|].
  destruct (N.eqb_spec w 0) as [->|Hw].
  - destruct (N.ltb_spec n 1); [lia|]. destruct (Hslots 1 Hn1) as (info & -> & _). cbn. eauto.
  - destruct (N.ltb_spec n w); [lia|].
    destruct (Hslots w) as (info & -> & _); [lia|]. cbn. destruct (N.leb_spec x 1); [eauto|].
    destruct (Hroots (x - 1)) as [root ->]; [lia|]. eauto.
Qed.

(** The price of the next height, [v - w] slots after the block at [h - 1]. *)
Lemma next_gas_price_ok s n h v r w :
  chain_inv (the_kernel s) n h v r -> 1 < h <= u64_max -> is_setup_mode_active h s = false ->
  w < v -> exists ps, compute_next_gas_price (h - 1) (v - w) s = Some ps /\ prices_ok ps.
Proof.
  intros Hinv Hh Hsetup Hw. unfold compute_next_gas_price, saturating_add.
  replace (N.min (h - 1 + 1) u64_max) with h by lia. rewrite Hsetup.
  destruct (N.eqb_spec (h - 1) 0); [lia|]. cbn [orb]. destruct (is_setup_mode_active (h - 1) s).
  { eexists. split; [done|apply initial_prices_ok]. }
  apply next_price; [|lia].
  destruct (block_gas_info (the_kernel s) !! (h - 1)) as [info|] eqn:Hi; cbn.
  - by eapply (ci_blocks _ _ _ _ _ Hinv).
  - apply new_gas_info_ok, initial_prices_ok.
Qed.

(** The price of the current height can be computed. *)
Lemma base_fee_ok s n h v r :
  chain_inv (the_kernel s) n h v r -> n <= u64_max ->
  exists ps, base_fee_per_gas_at h s = Some (Some ps) /\
    Forall (fun p => p <= u128_max) ps /\ length ps = length initial_gas_limit /\
    (is_setup_mode_active h s = false -> prices_ok ps).
Proof.
  intros Hinv Hmax. pose proof Hinv as [Ht Hh Hn Hv Hhv Hr Htop Hhist Hgrow Hslots Hroots Hblocks].
  assert (forall ps, prices_ok ps -> Forall (fun p => p <= u128_max) ps) as Hsmall.
  { intros ps [Hp _]. eapply Forall_impl; [done|]. by intros p []. }
  pose proof initial_prices_ok as Hinit. unfold base_fee_per_gas_at.
  destruct (is_setup_mode_active h s) eqn:Hsetup.
  { eexists. split_and!; [done|apply zero_prices_small| |done].
    unfold BlockGasInfo.zero. rewrite length_map. apply Hinit. }
  destruct (N.leb_spec h 1) as [H1|H1].
  { eexists. split_and!; [done|by apply Hsmall|apply Hinit|done]. }
  rewrite Hh, N.eqb_refl. unfold saturating_sub.
  destruct (Hhist (h - 1)) as (w & Hw & _); [lia|]. rewrite Hw.
  destruct (next_gas_price_ok s n h v r w Hinv) as (ps & -> & Hps); [lia|done| |].
  { apply (Hgrow (h - 1) h); [lia|done|done]. }
  exists ps. split_and!; [done|by apply Hsmall|apply Hps|done].
Qed.

Lemma gas_limit_ok s n h v r :
  chain_inv (the_kernel s) n h v r -> block_gas_limit_at h s = Some (Some initial_gas_limit).
Proof.
  intros [_ Hh]. unfold block_gas_limit_at. destruct (h =? 0); [done|].
  by rewrite Hh, N.eqb_refl.
Qed.

Lemma record_gas_usage_ok s n h v r i info :
  chain_inv (the_kernel s) n h v r -> gas_info_ok info ->
  chain_inv (the_kernel (record_gas_usage info i s)) n h v r.
Proof.
  intros [] Hinfo. split; cbn; try done. intros j info'.
  destruct (decide (j = i)) as [->|Hne].
  - rewrite lookup_insert_eq. by intros [= <-].
  - rewrite lookup_insert_ne by done. eauto.
Qed.

Lemma finalize_slot_ok k n h v r height visible info :
  chain_inv k n h v r -> gas_info_ok (gas_info info) ->
  chain_inv (finalize_slot n height visible info k) n h v r.
Proof.
  intros [] Hinfo. split; cbn; try done. intros i Hi. destruct (decide (i = n)) as [->|Hne].
  - rewrite lookup_insert_eq. eauto.
  - rewrite lookup_insert_ne by done. auto.
Qed.

(** The batches, the gas usage and the end of the slot. *)
Lemma batches_ok s n h v r (b : bool) execute :
  chain_inv (the_kernel s) n h v r -> n <= u64_max -> execution_ok execute ->
  exists s' g ps,
    apply_batches_in_user_space b execute (mkCheckpoint s v h) =
      Some (mkCheckpoint s' v h, g, ps, initial_gas_limit) /\
    chain_inv (the_kernel s') n h v r /\
    (is_setup_mode_active h s = false -> prices_ok ps) /\
    slots (the_kernel s') = slots (the_kernel s) /\ the_config s' = the_config s /\
    length g = length initial_gas_limit /\ Forall (fun g => g <= u64_max) g.
Proof.
  intros Hinv Hmax Hex. unfold apply_batches_in_user_space. cbn.
  destruct (base_fee_ok s n h v r Hinv Hmax) as (ps & -> & Hsmall & Hlen & Hps).
  rewrite (gas_limit_ok s n h v r Hinv).
  destruct (Hex ps initial_gas_limit s) as (Hk & Hc & Hg & Hgm).
  destruct (execute ps initial_gas_limit s) as [s1 g]. cbn in Hk, Hc, Hg, Hgm.
  eexists _, g, ps. split; [done|]. rewrite <- Hk in Hinv.
  destruct b; split_and!; cbn; try done; try by rewrite Hk.
  apply (record_gas_usage_ok s1); [done|]. by apply used_gas_info_ok.
Qed.

Definition next_height (h increase : N) : N := if increase =? 0 then h else h + 1.

(** The heights: with a rollup block or without one. *)
Lemma advance_ok s n h v r i :
  chain_inv (the_kernel s) (n + 1) h v (N.max r (h + 1)) -> h <= r ->
  input_ok n v i ->
  let k := mkAccessor (mkCheckpoint s v h) (n + 1) in
  exists s' r',
    (if 0 <? in_increase i then
       let? visible := checked_add u64_max v (in_increase i) in
       let? _ := require (visible <=? n + 1) in
       let k := increment_rollup_height visible k in
       let? _ := require (negb (visible_slot_num (checkpoint k) =? v)) in
       let? _ := require (negb (rollup_height (checkpoint k) =? h)) in
       Some k
     else let? _ := require (in_no_blobs i) in Some k) =
    Some (mkAccessor (mkCheckpoint s' (v + in_increase i) (next_height h (in_increase i))) (n + 1))
    /\
    chain_inv (the_kernel s') (n + 1) (next_height h (in_increase i)) (v + in_increase i) r' /\
    slots (the_kernel s') = slots (the_kernel s) /\
    the_config s' = the_config s /\ the_user s' = the_user s.
Proof.
  intros Hinv Hr (Hmax & Hv & Hno & _) k. unfold next_height.
  pose proof (ci_visible _ _ _ _ _ Hinv). pose proof (ci_height _ _ _ _ _ Hinv).
  destruct (N.ltb_spec 0 (in_increase i)) as [Hpos|Hz].
  - unfold checked_add. rewrite (proj2 (N.leb_le _ u64_max)) by lia.
    rewrite (proj2 (N.leb_le _ (n + 1))) by lia. cbn.
    unfold increment_rollup_height, rollup_height_of, saturating_add. cbn.
    rewrite (ci_heights _ _ _ _ _ Hinv).
    replace (N.min (h + 1) u64_max) with (h + 1) by lia.
    rewrite (proj2 (N.eqb_neq _ v)) by lia. rewrite (proj2 (N.eqb_neq _ h)) by lia.
    rewrite (proj2 (N.eqb_neq _ 0)) by lia. cbn. eexists _, _. split; [done|]. cbn.
    split_and!; try done. apply (set_heights_ok _ _ _ v); [done|lia|lia].
  - assert (in_increase i = 0) as Hi by lia. rewrite Hno by done. rewrite Hi, N.add_0_r. cbn.
    eauto 10.
Qed.

Lemma apply_input_ok s n h v r i :
  chain_inv (the_kernel s) n h v r -> input_ok n v i ->
  exists out info r',
    apply_input i s = Some out /\
    chain_inv (the_kernel (out_state out)) (n + 1) (next_height h (in_increase i))
      (v + in_increase i) r' /\
    out_gas_limit out = initial_gas_limit /\
    (is_setup_mode_active (next_height h (in_increase i)) s = false -> prices_ok (out_gas_price out)) /\
    slots (the_kernel (out_state out)) !! (n + 1) = Some info /\ prev_state_root info = in_root i.
Proof.
  intros Hinv Hi. pose proof Hi as (Hmax & _ & _ & Hex).
  unfold apply_input, apply_slot.
  destruct (sync_ok s n h v r (in_header i) (in_root i) Hinv Hmax)
    as (s1 & info & ps & Hsync & Hinv1 & Hinfo & Hroot & Hgi & Hps & Hc1 & Hu1).
  rewrite Hsync. unfold from_checkpoint, with_witness, rollup_height_of. cbn.
  rewrite (ci_true _ _ _ _ _ Hinv), (ci_next _ _ _ _ _ Hinv), (ci_heights _ _ _ _ _ Hinv). cbn.
  rewrite (proj2 (N.eqb_neq (n + 1) n)) by lia. cbn.
  destruct (advance_ok s1 n h v r i Hinv1 (ci_known_roots _ _ _ _ _ Hinv) Hi)
    as (s2 & r2 & Hadv & Hinv2 & Hs2 & Hc2 & Hu2). cbn in Hadv. rewrite Hadv. cbn.
  set (h' := next_height h (in_increase i)) in *. set (v' := v + in_increase i) in *.
  destruct (visible_hash_ok s2 (n + 1) h' v' r2 Hinv2) as [hash Hhash]; [lia|]. rewrite Hhash.
  destruct (batches_ok s2 (n + 1) h' v' r2 (0 <? in_increase i) (in_execute i) Hinv2 Hmax Hex)
    as (s3 & g & price & Hb & Hinv3 & Hprice & Hs3 & Hc3 & Hg & Hgm). rewrite Hb. cbn.
  unfold finalize_chain_state. cbn. rewrite (ci_true _ _ _ _ _ Hinv3). cbn.
  rewrite Hs3, Hs2, Hinfo. eexists _, _, r2.
  split_and!; [done| |done| |apply lookup_insert_eq|done].
  - apply finalize_slot_ok; [done|]. cbn. rewrite Hgi. destruct Hps as [Hp Hl].
    apply used_gas_info_ok; [|done|done|done]. eapply Forall_impl; [done|]. by intros p [].
  - intros Hset. apply Hprice. unfold is_setup_mode_active in *. by rewrite Hu2, Hu1.
Qed.

Lemma apply_slots_ok inputs s n h v r :
  chain_inv (the_kernel s) n h v r -> inputs_ok n v inputs ->
  exists s' h' v' r', apply_slots inputs s = Some s' /\
    chain_inv (the_kernel s') (n + N.of_nat (length inputs)) h' v' r' /\ h <= h' /\ v <= v'.
Proof.
  revert s n h v r. induction inputs as [|i inputs IH]; intros s n h v r Hinv Hok.
  - exists s, h, v, r. cbn. rewrite N.add_0_r. split_and!; [done|done|lia|lia].
  - destruct Hok as [Hi Hok]. cbn.
    destruct (apply_input_ok s n h v r i Hinv Hi) as (out & _ & r1 & -> & Hinv1 & _).
    destruct (IH _ _ _ _ _ Hinv1 Hok) as (s' & h' & v' & r' & -> & Hinv' & Hh & Hv).
    exists s', h', v', r'. split_and!; [done| |unfold next_height in Hh; case_match; lia|lia].
    match goal with |- chain_inv _ ?x _ _ _ =>
      replace x with (n + 1 + N.of_nat (length inputs)) by (cbn [length]; lia)
    end. done.
Qed.

(** Genesis. *)
Lemma genesis_ok header cfg : chain_inv (the_kernel (init_module header cfg)) 0 0 0 0.
Proof.
  split; cbn; [done|done|done|lia|lia|lia|done| | | | |done].
  - intros i Hi. replace i with 0 by lia. exists 0. split; [done|lia].
  - intros i j wi wj Hij. lia.
  - intros i Hi. replace i with 0 by lia. eexists. split; [done|]. cbn.
    split; [split|]; cbn.
    + unfold BlockGasInfo.zero. induction initial_gas_limit; cbn; constructor; [|done].
      unfold dimension_ok, GasPrice.limit_ok, GasPrice.target. rewrite N.Div0.div_0_l.
      split_and!; [rewrite N.mul_0_r; by vm_compute|by left|by vm_compute].
    + destruct initial_prices_ok as [Hp _]. eapply Forall_impl; [done|]. by intros p [].
    + unfold BlockGasInfo.zero. rewrite length_map. apply initial_prices_ok.
    + unfold BlockGasInfo.zero. by rewrite length_map.
  - intros i Hi. lia.
Qed.
End Facts.
End ChainStateFacts.

(** ** Transactions *)
Module ChainTransactionFacts.
Import ChainState.
Section Facts.
Context {Sp : Spec} {Rt : StateRoot} {Prices : PriceConfig} {Consts : ChainConstants}.
Context {G : Type} `{GasMeterLaws G}.

(** The state after setup mode was terminated. *)
Definition terminated (height : N) (by_address : Address) (s : t) : t :=
  on_user (fun u => mkUser (Some height) (oracle_time_nanos u)
    (events u ++ [AdminModeTerminated height by_address])) s.

Lemma wp_terminate v ctx (Q : outcome Error unit -> t -> Prop) s :
  (forall e, can_fail \/ admin_address (the_config s) <> Some (sender ctx) \/
     setup_mode_termination_height (the_user s) <> None -> Q (Err e) s) ->
  (admin_address (the_config s) = Some (sender ctx) ->
   setup_mode_termination_height (the_user s) = None ->
     Q (Ok tt) (terminated (saturating_add u64_max (rollup_height_to_access v) 1) (sender ctx) s)) ->
  wp (call v TerminateSetupMode ctx) Q s.
Proof.
  intros He Hok. unfold call.
  wp_step. wp_step. wp_step; [auto|]. wp_step. wp_step; cbn in *; [|apply He; right; left; congruence].
  wp_step. wp_step; [|apply He; right; left]. 2: { checked_simpl. congruence. }
  wp_step. wp_step. wp_step; [auto|].
  wp_step. wp_step; [|apply He; right; right; cbn in *; by case_match].
  wp_step. wp_step. wp_step; [auto|]. unfold emit_event. wp_step. cbn in *.
  checked_simpl. apply Hok; [congruence|by case_match].
Qed.

(** The oracle time after a timestamp. *)
Definition oracle_step (nanos : N) (s : t) : t :=
  on_user (fun u => mkUser (setup_mode_termination_height u)
    (if i64_max <? nanos / NANOS_PER_MILLI then oracle_time_nanos u
     else Some (match oracle_time_nanos u with Some c => N.max c nanos | None => nanos end))
    (events u)) s.

Lemma on_user_id (f : user -> user) s : f (the_user s) = the_user s -> on_user f s = s.
Proof. intros Hf. destruct s. unfold on_user. cbn in *. by rewrite Hf. Qed.

Lemma wp_update_oracle nanos (Q : outcome StateAccessorError unit -> t -> Prop) s :
  (forall e, can_fail -> Q (Err e) s) -> Q (Ok tt) (oracle_step nanos s) ->
  wp (update_oracle_time_from_sequencing_data nanos) Q s.
Proof.
  intros He Hok. unfold update_oracle_time_from_sequencing_data. unfold oracle_step in Hok.
  destruct (i64_max <? nanos / NANOS_PER_MILLI).
  { wp_step. rewrite on_user_id in Hok; [done|]. by destruct (the_user s). }
  wp_step. wp_step; [auto|]. cbn.
  destruct (oracle_time_nanos (the_user s)) as [c|] eqn:Hc.
  - destruct (N.ltb_spec nanos c); [|destruct (N.eqb_spec nanos c)].
    + wp_step. rewrite on_user_id in Hok; [done|]. destruct (the_user s). cbn in *. subst.
      f_equal. f_equal. lia.
    + wp_step. rewrite on_user_id in Hok; [done|]. destruct (the_user s). cbn in *. subst.
      f_equal. f_equal. lia.
    + wp_step; [auto|]. unfold on_user in *. cbn in *. rewrite Hc in Hok.
      by replace (N.max c nanos) with nanos in Hok by lia.
  - wp_step; [auto|]. unfold on_user in *. cbn in *. by rewrite Hc in Hok.
Qed.

(** The oracle time fits the milliseconds of a [Time]. *)
Definition oracle_ok (s : t) : Prop :=
  match oracle_time_nanos (the_user s) with
  | Some nanos => nanos / NANOS_PER_MILLI <= i64_max
  | None => True
  end.

Lemma oracle_step_ok nanos s : oracle_ok s -> oracle_ok (oracle_step nanos s).
Proof.
  unfold oracle_ok, oracle_step. cbn. destruct (N.ltb_spec i64_max (nanos / NANOS_PER_MILLI)); [done|].
  destruct (oracle_time_nanos (the_user s)) as [c|]; [|done]. intros Hc.
  destruct (N.max_spec c nanos) as [[_ ->]|[_ ->]]; done.
Qed.
End Facts.
End ChainTransactionFacts.

(** ** A concrete chain for the witnesses *)
Module ChainDemo.
Import ChainState.

Definition pair_root : StateRoot := {|
  Root := list N * list N;
  user_namespace_root := fst;
  kernel_namespace_root := snd;
  from_namespace_roots := pair
|}.

Definition chain_constants : ChainConstants :=
  {| STATE_ROOT_DELAY_BLOCKS := 1; SETUP_MODE_TERMINATION_HEIGHT := 3 |}.

Definition chain_prices : PriceConfig := {|
  ELASTICITY_MULTIPLIER := 2;
  BASE_FEE_MAX_CHANGE_DENOMINATOR := 8;
  initial_gas_limit := [10000; 500];
  initial_base_fee_per_gas := [10; 20]
|}.

Lemma chain_prices_ok : GasPrice.price_config_ok (Cfg := chain_prices).
Proof. unfold GasPrice.price_config_ok. split_and!; repeat constructor; by vm_compute. Qed.

#[local] Existing Instances test_spec pair_root chain_constants chain_prices.

Definition genesis_header : BlockHeader := mkHeader [1] 1000.
Definition genesis_config : ChainStateConfig :=
  @mkChainStateConfig test_spec 1000 Zk [2] [3] 7 (Some 1).
Definition genesis_state : t := init_module genesis_header genesis_config.

(** Batches that use a fixed amount of gas. *)
Definition use_gas (gas : list N) (price limit : list N) (s : t) : t * list N := (s, gas).

Lemma use_gas_ok gas :
  length gas = 2%nat -> Forall (fun g => g <= u64_max) gas -> execution_ok (use_gas gas).
Proof. intros Hl Hg price limit s. by split_and!. Qed.

Definition demo_input (n increase : N) : slot_input :=
  mkSlotInput (mkHeader [n] 1000) ([n], [n; n] : list N) increase (increase =? 0) (use_gas [9000; 100]).

(** Two slots without a rollup block, a block that makes both visible, two more. *)
Definition demo_inputs : list slot_input :=
  [demo_input 1 0; demo_input 2 0; demo_input 3 2; demo_input 4 2; demo_input 5 1].

Lemma demo_input_ok m n v i : n + 1 <= u64_max -> v + i <= n + 1 -> input_ok n v (demo_input m i).
Proof.
  intros Hn Hv. split_and!; [done|done|by intros Hi; cbn in *; rewrite Hi|].
  apply use_gas_ok; [done|]. repeat constructor; by vm_compute.
Qed.

Lemma demo_inputs_ok : inputs_ok 0 0 demo_inputs.
Proof. repeat (split; [apply demo_input_ok; by vm_compute|]). done. Qed.
End ChainDemo.

(** ** Properties *)
Module ChainStateProperties.
Import ChainState ChainStateFacts ChainTransactionFacts ChainDemo.
Section Properties.
Context {Sp : Spec} {Rt : StateRoot} {Prices : PriceConfig} {Consts : ChainConstants}.

(** C14: the chain never stops.  From genesis, every sequence of slots, whatever
    the blocks of the DA layer, the roots and the gas that the batches use are, is
    processed without a panic: the visible hash, the base fee and the gas limit of
    every slot can be computed and all sanity checks of the slot hold, as long as
    the blob selector keeps the visible slot number behind the true one.  The true
    slot number counts the slots, and the heights stay behind it. *)
Theorem slots_never_stop header cfg inputs
    (Hcfg : GasPrice.price_config_ok) (Hin : inputs_ok 0 0 inputs) :
  exists s h v, apply_slots inputs (init_module header cfg) = Some s /\
    true_slot_number (the_kernel s) = Some (N.of_nat (length inputs)) /\
    current_heights (the_kernel s) = Some (h, v) /\
    h <= v <= N.of_nat (length inputs).
Proof.
  destruct (apply_slots_ok Hcfg inputs _ 0 0 0 0 (genesis_ok Hcfg header cfg) Hin)
    as (s & h & v & r & Hrun & Hinv & _). rewrite N.add_0_l in Hinv.
  exists s, h, v. destruct Hinv. by split_and!.
Qed.

(** One slot.  It records the slot under the next true slot number with the
    state root it was given; a rollup block adds one to the height and makes
    [in_increase] more slots visible, no block leaves both as they are; the gas
    limit is the configured one and the gas price is at least 1 in every
    dimension, except in setup mode. *)
Theorem slot_advances s n h v r i
    (Hcfg : GasPrice.price_config_ok) (Hinv : chain_inv (the_kernel s) n h v r)
    (Hi : input_ok n v i) :
  exists out info, apply_input i s = Some out /\
    slots (the_kernel (out_state out)) !! (n + 1) = Some info /\
    prev_state_root info = in_root i /\
    current_heights (the_kernel (out_state out)) =
      Some (next_height h (in_increase i), v + in_increase i) /\
    out_gas_limit out = initial_gas_limit /\
    (is_setup_mode_active (next_height h (in_increase i)) s = false ->
       Forall (fun p => 1 <= p <= u128_max) (out_gas_price out) /\
       length (out_gas_price out) = length initial_gas_limit) /\
    exists r', chain_inv (the_kernel (out_state out)) (n + 1) (next_height h (in_increase i))
      (v + in_increase i) r'.
Proof.
  destruct (apply_input_ok Hcfg s n h v r i Hinv Hi)
    as (out & info & r' & Hrun & Hinv' & Hlim & Hprice & Hslot & Hroot).
  exists out, info. split_and!; [done|done|done|apply Hinv'|done|exact Hprice|eauto].
Qed.

(** Setup mode can be terminated by the admin only, and once.  The call
    takes effect after the current height: the mode of the heights up to it does
    not change, and no later height is in setup mode.  A call that fails changes
    nothing, and a second call fails. *)
Theorem setup_mode_ends_once {G : Type} `{GasMeterLaws G} (g : G) v ctx (s : t)
    (Hg : meter_wf g) (Hh : rollup_height_to_access v < u64_max) :
  match call v TerminateSetupMode ctx (Acc g s) with
  | (Ok _, a) =>
      admin_address (the_config s) = Some (sender ctx) /\
      the_kernel (store a) = the_kernel s /\ the_config (store a) = the_config s /\
      (setup_mode_termination_height (the_user s) = None) /\
      (forall h, h <= rollup_height_to_access v ->
         is_setup_mode_active h (store a) = is_setup_mode_active h s) /\
      (forall h, rollup_height_to_access v < h -> is_setup_mode_active h (store a) = false) /\
      (forall g' v' ctx' o a', meter_wf g' ->
         call v' TerminateSetupMode ctx' (Acc g' (store a)) = (o, a') ->
         o <> Ok tt /\ store a' = store a)
  | (Err _, a) => store a = s
  | (Panic, _) => False
  end.
Proof.
  assert (forall s0 v0 ctx0, wp (G := G) (call v0 TerminateSetupMode ctx0) (fun o s' => match o with
    | Ok _ => admin_address (the_config s0) = Some (sender ctx0) /\
        setup_mode_termination_height (the_user s0) = None /\
        s' = terminated (saturating_add u64_max (rollup_height_to_access v0) 1) (sender ctx0) s0
    | Err _ => s' = s0 | Panic => False end) s0) as Hwp.
  { intros. by apply wp_terminate. }
  pose proof (Hwp s v ctx g Hg) as Hrun.
  destruct (call v TerminateSetupMode ctx (Acc g s)) as [[[]|e|] a]; [|by destruct Hrun..].
  destruct Hrun as (_ & Hadm & Hnone & Hs). unfold saturating_add in Hs.
  replace (N.min (rollup_height_to_access v + 1) u64_max) with (rollup_height_to_access v + 1)
    in Hs by lia.
  rewrite Hs. split_and!; try done.
  - intros h Hle. unfold is_setup_mode_active. cbn. rewrite Hnone.
    destruct (SETUP_MODE_TERMINATION_HEIGHT <=? h); [done|]. apply N.ltb_lt. lia.
  - intros h Hlt. unfold is_setup_mode_active. cbn.
    destruct (SETUP_MODE_TERMINATION_HEIGHT <=? h); [done|]. apply N.ltb_ge. lia.
  - intros g' v' ctx' o a' Hg' Hcall. pose proof (Hwp (store a) v' ctx' g' Hg') as Hrun'.
    rewrite Hs, Hcall in Hrun'. destruct Hrun' as [_ Hrun'].
    destruct o as [[]|e'|]; [|by split|done]. by destruct Hrun' as (_ & ? & _).
Qed.

(** The oracle time never goes back.  A timestamp of the sequencer sets it to
    the later one of the two, a timestamp beyond the range of [Time] is ignored,
    an update that runs out of gas changes nothing and no update panics. *)
Theorem oracle_time_monotone {G : Type} `{GasMeterLaws G} (g : G) nanos (s : t)
    (Hg : meter_wf g) (Hok : oracle_ok s) :
  match update_oracle_time_from_sequencing_data nanos (Acc g s) with
  | (Ok _, a) =>
      oracle_ok (store a) /\ the_kernel (store a) = the_kernel s /\
      the_config (store a) = the_config s /\
      (forall old, oracle_time_nanos (the_user s) = Some old ->
         exists new, oracle_time_nanos (the_user (store a)) = Some new /\ old <= new) /\
      (nanos / NANOS_PER_MILLI <= i64_max ->
         exists new, oracle_time_nanos (the_user (store a)) = Some new /\ nanos <= new)
  | (Err _, a) => store a = s
  | (Panic, _) => False
  end.
Proof.
  assert (wp (G := G) (update_oracle_time_from_sequencing_data nanos) (fun o s' => match o with
    | Ok _ => s' = oracle_step nanos s | Err _ => s' = s | Panic => False end) s) as Hwp
    by by apply wp_update_oracle.
  specialize (Hwp g Hg).
  destruct (update_oracle_time_from_sequencing_data nanos (Acc g s)) as [[[]|e|] a];
    destruct Hwp as [_ Ha]; [|done..].
  rewrite Ha. split_and!; [by apply oracle_step_ok|done|done|..].
  - intros old Hold. unfold oracle_step. cbn. rewrite Hold. case_match; eexists; (split; [done|lia]).
  - intros Hle. unfold oracle_step. cbn. destruct (N.ltb_spec i64_max (nanos / NANOS_PER_MILLI)); [lia|].
    case_match; eexists; (split; [done|lia]).
Qed.
End Properties.

Lemma slots_never_stop_witness :
  exists s h v, apply_slots (Prices := chain_prices) (Consts := chain_constants) demo_inputs
      genesis_state = Some s /\
    true_slot_number (the_kernel s) = Some 5 /\ current_heights (the_kernel s) = Some (h, v) /\
    h <= v <= 5.
Proof.
  exact (slots_never_stop (Prices := chain_prices) (Consts := chain_constants) genesis_header
    genesis_config demo_inputs chain_prices_ok demo_inputs_ok).
Defined.

Lemma slot_advances_witness :
  exists out, apply_input (Prices := chain_prices) (Consts := chain_constants) (demo_input 1 1)
      genesis_state = Some out /\ current_heights (the_kernel (out_state out)) = Some (1, 1).
Proof.
  destruct (slot_advances (Prices := chain_prices) (Consts := chain_constants) genesis_state 0 0 0
    0 (demo_input 1 1) chain_prices_ok) as (out & info & Hrun & _ & _ & Hh & _).
  - apply genesis_ok. exact chain_prices_ok.
  - apply demo_input_ok; by vm_compute.
  - exists out. split; [exact Hrun|exact Hh].
Defined.

Definition demo_version : Version := mkVersion 0 0 0.
Definition admin_context : Context test_spec := BankDemo.demo_context 1.

(** The admin terminates setup mode in the genesis block. *)
Lemma setup_mode_ends_once_witness :
  match call (G := unit) demo_version TerminateSetupMode admin_context (Acc tt genesis_state) with
  | (Ok _, a) => forall h, 0 < h ->
      is_setup_mode_active (Consts := chain_constants) h (store a) = false
  | _ => False
  end.
Proof.
  pose proof (setup_mode_ends_once (Consts := chain_constants) tt demo_version admin_context
    genesis_state I ltac:(by vm_compute)) as H.
  assert (is_ok (fst (call (G := unit) demo_version TerminateSetupMode admin_context
    (Acc tt genesis_state))) = true) as Hok by (vm_compute; reflexivity).
  destruct (call demo_version TerminateSetupMode admin_context (Acc tt genesis_state))
    as [[[]|e|] a]; [|discriminate Hok|discriminate Hok].
  destruct H as (_ & _ & _ & _ & _ & H & _). exact H.
Defined.

Lemma oracle_time_monotone_witness :
  match update_oracle_time_from_sequencing_data (G := unit) 5000000 (Acc tt genesis_state) with
  | (Ok _, a) => exists new, oracle_time_nanos (the_user (store a)) = Some new /\ 5000000 <= new
  | _ => False
  end.
Proof.
  pose proof (oracle_time_monotone tt 5000000 genesis_state I I) as H.
  assert (is_ok (fst (update_oracle_time_from_sequencing_data (G := unit) 5000000
    (Acc tt genesis_state))) = true) as Hok by (vm_compute; reflexivity).
  destruct (update_oracle_time_from_sequencing_data 5000000 (Acc tt genesis_state))
    as [[[]|e|] a]; [|discriminate Hok|discriminate Hok].
  destruct H as (_ & _ & _ & _ & H). apply H. vm_compute. discriminate.
Defined.
End ChainStateProperties.
