(* ===== verification/Staking.v ===== *)
(** * Staking

    sov-modules-api/src/registration_lib: the trait [StakeRegistration], by which
    modules register stakers, take deposits and refund stakes.  The required
    methods are a record; [register_staker], [deposit_funds] and [exit_staker] are
    its provided methods.  [StakeLaws] says what an implementation promises: its
    methods read and write one map of stakes, and move gas tokens between the
    staker and the module.  The theorems of the provided methods rest on that
    alone, and the modules discharge it.

    Also the reads of the chain state within a transaction
    (sov-chain-state/src/lib.rs and containers/versioned_value.rs), which are
    metered. *)

From Stdlib Require Import NArith Lia.
From stdpp Require Import base numbers gmap strings option list.
From S2P Require Import Prelude Ints Gas StateAccess GasPrice Bank Capabilities ChainState.

(** [RegistrationError]; both addresses are addresses of the rollup here. *)
Inductive RegistrationError {Sp : Spec} {CustomError : Type} : Type :=
| IsNotRegistered (a : Address)
| InsufficientFundsToTopUpAccount (a : Address) (amount_to_add : N)
| ToppingAccountMakesBalanceOverflow (a : Address) (existing_balance amount_to_add : N)
| InsufficientFundsToRefundStakedAmount (a : Address) (amount : N)
| AlreadyRegistered (a : Address)
| InsufficientFundsToRegister (a : Address) (amount : N)
| StateAccessorErr (e : StateAccessorError)
| Custom (e : CustomError).
Arguments RegistrationError {_} _.

Module Staking.
Section Staking.
Context {Sp : Spec}.

Definition gas_coins (amount : N) : Bank.Coins := Bank.mkCoins amount config_gas_token_id.

Section Trait.
Context {G : Type} `{GasMeter G} {S : Type}.

(** The required methods of [StakeRegistration]. *)
Record StakeRegistration : Type := mkRegistration {
  get_allowed_staker : Address -> M (acc G S) StateAccessorError (option (Address * N));
  set_allowed_staker : Address -> Address -> N -> M (acc G S) StateAccessorError unit;
  transfer_bond_from_staker : Address -> N -> M (acc G S) Bank.TransferTokenError unit;
  transfer_bond_to_staker : Address -> N -> M (acc G S) Bank.TransferTokenError unit;
  delete_allowed_staker : Address -> M (acc G S) StateAccessorError unit
}.

Context {CustomError : Type} (self : StakeRegistration).
Local Notation Error := (RegistrationError CustomError).

Definition register_staker (primary_address rollup_address : Address) (amount : N) : M (acc G S) Error unit :=
  let! existing := map_err StateAccessorErr (get_allowed_staker self primary_address) in
  ensure (negb (bool_decide (is_Some existing))) (AlreadyRegistered rollup_address) ;;;
  map_err (fun _ => InsufficientFundsToRegister rollup_address amount)
    (transfer_bond_from_staker self rollup_address amount) ;;;
  map_err StateAccessorErr (set_allowed_staker self primary_address rollup_address amount).

Definition deposit_funds (staker : Address) (amount : N) : M (acc G S) Error unit :=
  let! existing := map_err StateAccessorErr (get_allowed_staker self staker) in
  let! existing := ok_or existing (IsNotRegistered staker) in
  let '(address, balance) := existing in
  let! new_balance :=
    ok_or (Amount.checked_add balance amount) (ToppingAccountMakesBalanceOverflow address balance amount) in
  map_err (fun _ => InsufficientFundsToTopUpAccount address amount)
    (transfer_bond_from_staker self address amount) ;;;
  map_err StateAccessorErr (set_allowed_staker self staker address new_balance).

Definition exit_staker (staker : Address) : M (acc G S) Error N :=
  let! existing := map_err StateAccessorErr (get_allowed_staker self staker) in
  let! existing := ok_or existing (IsNotRegistered staker) in
  let '(address, balance) := existing in
  map_err (fun _ => InsufficientFundsToRefundStakedAmount address balance)
    (transfer_bond_to_staker self address balance) ;;;
  map_err StateAccessorErr (delete_allowed_staker self staker) ;;;
  ret balance.
End Trait.

(** ** Reads of the chain state *)
Section Chain.
Context {Rt : StateRoot}.

Definition operating_mode_value : StateValue ChainState.t OperatingMode :=
  mkStateValue "sov_chain_state/ChainState/operating_mode" User
    (fun s => ChainState.operating_mode (ChainState.the_config s))
    (fun v s => let c := ChainState.the_config s in
       ChainState.mk (ChainState.the_kernel s)
         (ChainState.mkConfig v (ChainState.genesis_root c) (ChainState.genesis_da_height c)
            (ChainState.inner_code_commitment c) (ChainState.outer_code_commitment c) (ChainState.admin_address c))
         (ChainState.the_user s)).

Definition inner_code_commitment_value : StateValue ChainState.t (list N) :=
  mkStateValue "sov_chain_state/ChainState/inner_code_commitment" User
    (fun s => ChainState.inner_code_commitment (ChainState.the_config s))
    (fun v s => let c := ChainState.the_config s in
       ChainState.mk (ChainState.the_kernel s)
         (ChainState.mkConfig (ChainState.operating_mode c) (ChainState.genesis_root c) (ChainState.genesis_da_height c)
            v (ChainState.outer_code_commitment c) (ChainState.admin_address c))
         (ChainState.the_user s)).

Definition outer_code_commitment_value : StateValue ChainState.t (list N) :=
  mkStateValue "sov_chain_state/ChainState/outer_code_commitment" User
    (fun s => ChainState.outer_code_commitment (ChainState.the_config s))
    (fun v s => let c := ChainState.the_config s in
       ChainState.mk (ChainState.the_kernel s)
         (ChainState.mkConfig (ChainState.operating_mode c) (ChainState.genesis_root c) (ChainState.genesis_da_height c)
            (ChainState.inner_code_commitment c) v (ChainState.admin_address c))
         (ChainState.the_user s)).

Definition slots_map : StateMap ChainState.t N ChainState.SlotInformation :=
  mkStateMap "sov_chain_state/ChainState/slots" Kernel (fun s => ChainState.slots (ChainState.the_kernel s))
    (fun m => ChainState.on_kernel (fun k =>
       ChainState.mkKernel (ChainState.next_visible_slot_number k) (ChainState.current_heights k)
         (ChainState.slot_number_history k) (ChainState.accessory_slot_number_history k)
         (ChainState.true_slot_number_history k) (ChainState.true_slot_number_to_rollup_height k)
         (ChainState.true_to_visible_slot_number_history k) (ChainState.true_slot_number k) (ChainState.time k) m
         (ChainState.accessory_pre_state_roots k) (ChainState.block_gas_info k) (ChainState.past_user_state_roots k)
         (ChainState.accessory_past_user_state_roots k))).

Context {G : Type} `{GasMeter G} (v : ChainState.Version).

(** The [expect] of an [Option]. *)
Definition operating_mode : M (acc G ChainState.t) StateAccessorError OperatingMode :=
  let! mode := value_get operating_mode_value in
  expect_some mode.

(** [VersionedStateValue::get] *)
Definition slot_at_height (slot_number : N)
  : M (acc G ChainState.t) StateAccessorError (option ChainState.SlotInformation) :=
  if ChainState.max_allowed_slot_number_to_access v <? slot_number then ret None
  else map_get slots_map slot_number.

Definition get_genesis_hash : M (acc G ChainState.t) StateAccessorError (option Root) :=
  let! slot := slot_at_height 1 in
  ret (ChainState.prev_state_root <$> slot).

Definition root_at_height (slot_number : N) : M (acc G ChainState.t) StateAccessorError (option Root) :=
  match checked_add u64_max slot_number 1 with
  | None => ret None
  | Some next_slot_number =>
      let! slot := slot_at_height next_slot_number in
      ret (ChainState.prev_state_root <$> slot)
  end.

Definition get_historical_transition_dangerous (slot_number : N)
  : M (acc G ChainState.t) StateAccessorError (option ChainState.StateTransition) :=
  match checked_add u64_max slot_number 1 with
  | None => ret None
  | Some next_slot_num =>
      let! next_slot := slot_at_height next_slot_num in
      match next_slot with
      | None => ret None
      | Some next_slot =>
          let! slot := slot_at_height slot_number in
          match slot with
          | None => ret None
          | Some slot => ret (Some (ChainState.mkTransition (ChainState.prev_state_root next_slot) slot))
          end
      end
  end.
End Chain.
End Staking.
Arguments StakeRegistration {_} _ _.
End Staking.

(** ** What an implementation promises *)
Module StakingFacts.
Import Staking.
Section Facts.
Context {Sp : Spec} {G : Type} `{GasMeterLaws G} {S : Type}.

(** The stakes, the bank and the account of the module within the state. *)
Record StakeView : Type := mkView {
  stakes : S -> gmap Address N;
  put_stakes : gmap Address N -> S -> S;
  bank_of : S -> Bank.t;
  put_bank : Bank.t -> S -> S;
  module_id : S -> ModuleId
}.

Context (V : StakeView).

Definition account (s : S) : TokenHolder := HolderModule (module_id V s).
Definition gas_of (s : S) (h : TokenHolder) : N := Bank.balance (bank_of V s) h config_gas_token_id.
Definition moved (s : S) (from to : TokenHolder) (amt : N) : S :=
  put_bank V (Bank.transferred (bank_of V s) from to config_gas_token_id amt) s.

(** The rule of a transfer of gas tokens: it fails for lack of balance only, when
    no charge is refused. *)
Definition transfer_rule {E} (m : M (acc G S) E unit) (from to : S -> TokenHolder) (amt : N) : Prop :=
  forall (Q : outcome E unit -> S -> Prop) s, Bank.inv (bank_of V s) ->
    (can_fail -> forall e b, Q (Err e) (put_bank V b s)) ->
    (gas_of s (from s) < amt -> forall e, Q (Err e) s) ->
    (amt <= gas_of s (from s) -> Q (Ok tt) (moved s (from s) (to s) amt)) ->
    wp m Q s.

Class StakeLaws (R : StakeRegistration G S) : Prop := {
  stakes_put m s : stakes V (put_stakes V m s) = m;
  bank_put b s : bank_of V (put_bank V b s) = b;
  stakes_put_bank b s : stakes V (put_bank V b s) = stakes V s;
  bank_put_stakes m s : bank_of V (put_stakes V m s) = bank_of V s;
  id_put_bank b s : module_id V (put_bank V b s) = module_id V s;
  id_put_stakes m s : module_id V (put_stakes V m s) = module_id V s;
  get_law a (Q : outcome StateAccessorError (option (Address * N)) -> S -> Prop) s :
    (can_fail -> forall e, Q (Err e) s) -> Q (Ok ((fun b => (a, b)) <$> stakes V s !! a)) s ->
    wp (get_allowed_staker R a) Q s;
  set_law a amt (Q : outcome StateAccessorError unit -> S -> Prop) s :
    (can_fail -> forall e, Q (Err e) s) -> Q (Ok tt) (put_stakes V (<[a := amt]> (stakes V s)) s) ->
    wp (set_allowed_staker R a a amt) Q s;
  delete_law a (Q : outcome StateAccessorError unit -> S -> Prop) s :
    (can_fail -> forall e, Q (Err e) s) -> Q (Ok tt) (put_stakes V (delete a (stakes V s)) s) ->
    wp (delete_allowed_staker R a) Q s;
  from_law a amt : transfer_rule (transfer_bond_from_staker R a amt) (fun _ => HolderUser a) account amt;
  to_law a amt : transfer_rule (transfer_bond_to_staker R a amt) account (fun _ => HolderUser a) amt
}.

(** ** The provided methods *)

(** What they do, when they succeed. *)
Definition registered (s : S) (a : Address) (amt : N) : S :=
  let s1 := moved s (HolderUser a) (account s) amt in
  put_stakes V (<[a := amt]> (stakes V s1)) s1.
Definition deposited (s : S) (a : Address) (balance amt : N) : S :=
  let s1 := moved s (HolderUser a) (account s) amt in
  put_stakes V (<[a := balance + amt]> (stakes V s1)) s1.
Definition exited (s : S) (a : Address) (balance : N) : S :=
  let s1 := moved s (account s) (HolderUser a) balance in
  put_stakes V (delete a (stakes V s1)) s1.

Context {CustomError : Type} (R : StakeRegistration G S) `{!StakeLaws R}.

Lemma wp_register_staker a amt (Q : outcome (RegistrationError CustomError) unit -> S -> Prop) s :
  Bank.inv (bank_of V s) -> (forall e s', Q (Err e) s') ->
  (stakes V s !! a = None -> amt <= gas_of s (HolderUser a) -> Q (Ok tt) (registered s a amt)) ->
  wp (register_staker R a a amt) Q s.
Proof.
  intros Hinv Hf Hok. unfold register_staker. wp_step. wp_step. apply get_law; wp_red; [by auto|].
  wp_step. wp_step; wp_red; [|by auto]. wp_step. wp_step. apply from_law; wp_red; [done|by auto|by auto|].
  intros Ha. wp_step. apply set_law; wp_red; [by auto|]. apply Hok; [|done].
  destruct (stakes V s !! a); [|done]. by rewrite bool_decide_eq_true_2 in *.
Qed.

Lemma wp_deposit_funds a amt (Q : outcome (RegistrationError CustomError) unit -> S -> Prop) s :
  Bank.inv (bank_of V s) -> (forall e s', Q (Err e) s') ->
  (forall balance, stakes V s !! a = Some balance -> amt <= gas_of s (HolderUser a) -> balance + amt <= u128_max ->
     Q (Ok tt) (deposited s a balance amt)) ->
  wp (deposit_funds R a amt) Q s.
Proof.
  intros Hinv Hf Hok. unfold deposit_funds. wp_step. wp_step. apply get_law; wp_red; [by auto|].
  wp_step. wp_step; wp_red; [|by auto]. destruct (stakes V s !! a) as [balance|] eqn:Hs; [|done]. cbn in *. simplify_eq.
  wp_step. wp_step; wp_red; [|by auto]. checked_simpl. subst. wp_step. wp_step. apply from_law; wp_red; [done|by auto|by auto|].
  intros Ha. wp_step. apply set_law; wp_red; [by auto|]. by apply Hok.
Qed.

Lemma wp_exit_staker a (Q : outcome (RegistrationError CustomError) N -> S -> Prop) s :
  Bank.inv (bank_of V s) ->
  (can_fail \/ stakes V s !! a = None \/ gas_of s (account s) < default 0 (stakes V s !! a) -> forall e s', Q (Err e) s') ->
  (forall balance, stakes V s !! a = Some balance -> balance <= gas_of s (account s) -> Q (Ok balance) (exited s a balance)) ->
  wp (exit_staker R a) Q s.
Proof.
  intros Hinv Hf Hok. unfold exit_staker. wp_step. wp_step. apply get_law; wp_red; [by auto|].
  wp_step. wp_step; wp_red.
  - destruct (stakes V s !! a) as [balance|] eqn:Hs; [|done]. cbn in *. simplify_eq.
    wp_step. wp_step. apply to_law; wp_red; [done|by auto|by auto|]. intros Ha.
    wp_step. wp_step. apply delete_law; wp_red; [by auto|]. wp_step. by apply Hok.
  - apply Hf. destruct (stakes V s !! a) eqn:?; [done|by auto].
Qed.

(** ** Backing *)

Definition staked (s : S) : N := map_sum (fun _ x => x) (stakes V s).
Definition held (s : S) : N := gas_of s (account s).

(** What the account holds beyond the stakes is unchanged, and tokens are conserved. *)
Definition surplus_kept (s s' : S) : Prop :=
  Bank.inv (bank_of V s') /\ module_id V s' = module_id V s /\ held s' + staked s = held s + staked s'.

Lemma account_moved s from to amt m : account (put_stakes V m (moved s from to amt)) = account s.
Proof. unfold account, moved. by rewrite id_put_stakes, id_put_bank. Qed.

Lemma gas_of_moved s from to amt h :
  amt <= gas_of s from -> from <> to ->
  gas_of (moved s from to amt) h =
    if bool_decide (h = from) then gas_of s from - amt
    else if bool_decide (h = to) then gas_of s to + amt else gas_of s h.
Proof.
  intros Hamt Hne. unfold gas_of, moved. rewrite bank_put, BankFacts.balance_transferred by done.
  by rewrite bool_decide_eq_true_2.
Qed.

Lemma gas_of_put_stakes m s h : gas_of (put_stakes V m s) h = gas_of s h.
Proof. unfold gas_of. by rewrite bank_put_stakes. Qed.

Lemma moved_inv s from to amt m :
  Bank.inv (bank_of V s) -> amt <= gas_of s from ->
  Bank.inv (bank_of V (put_stakes V m (moved s from to amt))) /\
  module_id V (put_stakes V m (moved s from to amt)) = module_id V s.
Proof.
  intros Hinv Hamt. unfold moved. rewrite bank_put_stakes, bank_put, id_put_stakes, id_put_bank.
  split; [by apply BankFacts.inv_transferred|done].
Qed.

Lemma surplus_in s a amt m :
  Bank.inv (bank_of V s) -> amt <= gas_of s (HolderUser a) ->
  map_sum (fun _ x => x) m = map_sum (fun _ x => x) (stakes V s) + amt ->
  surplus_kept s (put_stakes V m (moved s (HolderUser a) (account s) amt)).
Proof.
  intros Hinv Hamt Hm. destruct (moved_inv s (HolderUser a) (account s) amt m Hinv Hamt) as [Hi Hid].
  split_and!; [done|done|]. unfold held, staked. rewrite account_moved, gas_of_put_stakes, stakes_put, gas_of_moved by done.
  rewrite bool_decide_eq_false_2 by done. rewrite bool_decide_eq_true_2 by done. lia.
Qed.

Lemma surplus_out s a amt m :
  Bank.inv (bank_of V s) -> amt <= held s ->
  map_sum (fun _ x => x) m + amt = map_sum (fun _ x => x) (stakes V s) ->
  surplus_kept s (put_stakes V m (moved s (account s) (HolderUser a) amt)).
Proof.
  intros Hinv Hamt Hm. destruct (moved_inv s (account s) (HolderUser a) amt m Hinv Hamt) as [Hi Hid].
  split_and!; [done|done|]. unfold held, staked in *. rewrite account_moved, gas_of_put_stakes, stakes_put, gas_of_moved by done.
  rewrite bool_decide_eq_true_2 by done. lia.
Qed.

Lemma registered_kept s a amt :
  Bank.inv (bank_of V s) -> stakes V s !! a = None -> amt <= gas_of s (HolderUser a) -> surplus_kept s (registered s a amt).
Proof.
  intros Hinv Hs Hamt. unfold registered. apply surplus_in; [done|done|].
  unfold moved. rewrite stakes_put_bank, map_sum_insert_new by done. lia.
Qed.

Lemma deposited_kept s a balance amt :
  Bank.inv (bank_of V s) -> stakes V s !! a = Some balance -> amt <= gas_of s (HolderUser a) ->
  surplus_kept s (deposited s a balance amt).
Proof.
  intros Hinv Hs Hamt. unfold deposited. apply surplus_in; [done|done|].
  unfold moved. rewrite stakes_put_bank. pose proof (map_sum_insert (fun _ x => x) (stakes V s) a (balance + amt)) as Hm.
  unfold opt_val in Hm. rewrite Hs in Hm. lia.
Qed.

Lemma exited_kept s a balance :
  Bank.inv (bank_of V s) -> stakes V s !! a = Some balance -> balance <= held s -> surplus_kept s (exited s a balance).
Proof.
  intros Hinv Hs Hamt. unfold exited. apply surplus_out; [done|done|].
  unfold moved. rewrite stakes_put_bank. pose proof (map_sum_delete (fun _ x => x) (stakes V s) a) as Hm.
  unfold opt_val in Hm. rewrite Hs in Hm. lia.
Qed.
End Facts.
End StakingFacts.

(** ** Reads of the chain state: the metered reads are the functions of [ChainState] *)
Module ChainReads.
Import Staking.
Section Reads.
Context {Sp : Spec} {Rt : StateRoot} {G : Type} `{GasMeterLaws G} (v : ChainState.Version).

Lemma wp_operating_mode (Q : outcome StateAccessorError OperatingMode -> ChainState.t -> Prop) s :
  (can_fail -> forall e, Q (Err e) s) ->
  match ChainState.operating_mode (ChainState.the_config s) with Some m => Q (Ok m) s | None => Q Panic s end ->
  wp operating_mode Q s.
Proof.
  intros Hf Hok. unfold operating_mode. wp_step. wp_step; [by auto|]. cbn in *.
  destruct (ChainState.operating_mode _); [by wp_step; simplify_eq|by wp_step].
Qed.

Lemma wp_slot_at_height n (Q : outcome StateAccessorError (option ChainState.SlotInformation) -> ChainState.t -> Prop) s :
  (can_fail -> forall e, Q (Err e) s) ->
  Q (Ok (ChainState.versioned_get (ChainState.slots (ChainState.the_kernel s)) n v)) s -> wp (slot_at_height v n) Q s.
Proof.
  intros Hf Hok. unfold slot_at_height, ChainState.versioned_get in *. destruct (_ <? n); [by wp_step|].
  wp_step; [by auto|]. done.
Qed.

Lemma wp_get_genesis_hash (Q : outcome StateAccessorError (option Root) -> ChainState.t -> Prop) s :
  (can_fail -> forall e, Q (Err e) s) -> Q (Ok (ChainState.pre_state_root_at_height 1 v s)) s -> wp (get_genesis_hash v) Q s.
Proof. intros Hf Hok. unfold get_genesis_hash. wp_step. apply wp_slot_at_height; wp_red; [by auto|]. by wp_step. Qed.

Lemma wp_root_at_height n (Q : outcome StateAccessorError (option Root) -> ChainState.t -> Prop) s :
  (can_fail -> forall e, Q (Err e) s) -> Q (Ok (ChainState.root_at_height n v s)) s -> wp (root_at_height v n) Q s.
Proof.
  intros Hf Hok. unfold root_at_height, ChainState.root_at_height in *. destruct (checked_add _ _ _); [|by wp_step].
  wp_step. apply wp_slot_at_height; wp_red; [by auto|]. by wp_step.
Qed.

Lemma wp_get_historical_transition n
    (Q : outcome StateAccessorError (option ChainState.StateTransition) -> ChainState.t -> Prop) s :
  (can_fail -> forall e, Q (Err e) s) -> Q (Ok (ChainState.get_historical_transition_dangerous n v s)) s ->
  wp (get_historical_transition_dangerous v n) Q s.
Proof.
  intros Hf Hok. unfold get_historical_transition_dangerous, ChainState.get_historical_transition_dangerous in *.
  destruct (checked_add _ _ _); [|by wp_step]. cbn in Hok. wp_step. apply wp_slot_at_height; wp_red; [by auto|].
  destruct (ChainState.versioned_get _ _ _); [|by wp_step]. cbn in Hok. wp_step. apply wp_slot_at_height; wp_red; [by auto|].
  destruct (ChainState.versioned_get _ _ _); by wp_step.
Qed.
End Reads.
End ChainReads.
