(* ===== verification/ProverIncentives.v ===== *)
(** * The prover incentives module

    module-implementations/sov-prover-incentives: provers stake gas tokens, submit
    aggregated proofs and are rewarded with the gas of the slots they prove.

    - registration.rs: the implementation of [StakeRegistration], with
      [StakingFacts.StakeLaws] discharged below;
    - call.rs, lib.rs, genesis.rs: the call messages and genesis;
    - capabilities.rs: [process_proof].

    The verifier of the outer zkVM is a parameter: a function from the proof and
    the code commitment to the public outputs.  The gas price and the version of
    the state accessor are parameters of the operations. *)

From Stdlib Require Import NArith Lia.
From stdpp Require Import base numbers gmap strings option list.
From S2P Require Import Prelude Ints Gas StateAccess GasPrice Bank Capabilities ChainState Staking.

(** [GasSpec] of proofs. *)
Class ProofGas : Type := {
  fixed_gas_to_charge_per_proof : list N;
  gas_to_charge_per_proof_byte : list N;
  PERCENT_BASE_FEE_TO_BURN : N
}.

(** [SlotNumber::range_inclusive] *)
Definition range_inclusive (first last : N) : list N :=
  (fun i => first + N.of_nat i) <$> seq 0 (N.to_nat (last + 1 - first)).

#[export] Instance OperatingMode_eq_dec : EqDecision OperatingMode.
Proof. solve_decision. Defined.

Module ProverIncentives.
Section ProverIncentives.
Context {Sp : Spec} {Rt : StateRoot} {RootEq : EqDecision Root} {PG : ProofGas}.

(** ** Data *)

(** [AggregatedProofPublicData], zk/aggregated_proof.rs *)
Record AggregatedProofPublicData : Type := mkPublicData {
  initial_slot_number : N;
  final_slot_number : N;
  genesis_state_root : Root;
  initial_state_root : Root;
  final_state_root : Root;
  initial_slot_hash : list N;
  final_slot_hash : list N;
  code_commitment : list N;
  rewarded_addresses : list Address
}.

(** [SlashingReason], event.rs; the variants that are constructed. *)
Inductive SlashingReason : Type :=
| IncorrectGenesisHash
| IncorrectInitialStateRoot
| InitialTransitionDoesNotExist
| IncorrectInitialSlotHash
| FinalTransitionDoesNotExist
| IncorrectFinalStateRoot
| IncorrectFinalSlotHash.

Inductive Event : Type :=
| Registered (prover : Address) (amount : N)
| Deposited (prover : Address) (deposit : N)
| Exited (prover : Address) (amount_withdrawn : N).

Inductive CallMessage : Type :=
| Register (bond_amount : N)
| Deposit (bond_amount : N)
| Exit.

(** The causes of an [anyhow::Error]. *)
Inductive AnyError : Type :=
| AccessorError (e : StateAccessorError)
| MeteringError (e : GasMeteringError)
| TryFromIntError.

(** [ProverSlashedNoRevert] with [None] is a proof that does not verify. *)
Inductive ProcessProofError : Type :=
| TransferFailure (e : Bank.TransferTokenError)
| ProverSlashedNoRevert (reason : option SlashingReason)
| ProverPenalizedNoRevert
| ProverNotBonded
| BondNotHighEnough
| StateAccessorFailure (e : AnyError)
| InvalidOperatingMode.

Inductive Paycheck : Type := Penalized | Rewarded (amount : N).

(** The module has no errors of its own. *)
Definition RegistryError : Type := RegistrationError Empty_set.

Inductive CallError : Type := WrongMode | Registry (e : RegistryError).

Record t : Type := mk {
  id : ModuleId;
  bonded_provers : gmap Address N;
  minimum_bond : option (list N);
  last_claimed_reward : option N;
  proving_penalty : option (list N);
  events : list Event;
  bank : Bank.t;
  chain_state : ChainState.t
}.

Definition bonded_map : StateMap t Address N :=
  mkStateMap "sov_prover_incentives/ProverIncentives/bonded_provers" User bonded_provers
    (fun m s => mk (id s) m (minimum_bond s) (last_claimed_reward s) (proving_penalty s) (events s) (bank s) (chain_state s)).
Definition minimum_bond_value : StateValue t (list N) :=
  mkStateValue "sov_prover_incentives/ProverIncentives/minimum_bond" User minimum_bond
    (fun v s => mk (id s) (bonded_provers s) v (last_claimed_reward s) (proving_penalty s) (events s) (bank s) (chain_state s)).
Definition last_claimed_value : StateValue t N :=
  mkStateValue "sov_prover_incentives/ProverIncentives/last_claimed_reward" User last_claimed_reward
    (fun v s => mk (id s) (bonded_provers s) (minimum_bond s) v (proving_penalty s) (events s) (bank s) (chain_state s)).
Definition penalty_value : StateValue t (list N) :=
  mkStateValue "sov_prover_incentives/ProverIncentives/proving_penalty" User proving_penalty
    (fun v s => mk (id s) (bonded_provers s) (minimum_bond s) (last_claimed_reward s) v (events s) (bank s) (chain_state s)).

Definition put_bank (b : Bank.t) (s : t) : t :=
  mk (id s) (bonded_provers s) (minimum_bond s) (last_claimed_reward s) (proving_penalty s) (events s) b (chain_state s).
Definition put_chain (c : ChainState.t) (s : t) : t :=
  mk (id s) (bonded_provers s) (minimum_bond s) (last_claimed_reward s) (proving_penalty s) (events s) (bank s) c.

Section Operations.
Context {G : Type} `{GasMeter G}.

Definition on_bank {E A} (m : M (acc G Bank.t) E A) : M (acc G t) E A := zoom bank put_bank m.
Definition on_chain {E A} (m : M (acc G ChainState.t) E A) : M (acc G t) E A := zoom chain_state put_chain m.

Definition emit_event {E} (e : Event) : M (acc G t) E unit :=
  modify (fun s => mk (id s) (bonded_provers s) (minimum_bond s) (last_claimed_reward s) (proving_penalty s)
    (events s ++ [e]) (bank s) (chain_state s)).

(** ** registration.rs *)

Definition get_minimum_bond (gas_price : list N) : M (acc G t) StateAccessorError (option N) :=
  let! maybe_minimum_bond := value_get minimum_bond_value in
  ret ((fun minimum_bond => GasArray.value minimum_bond gas_price) <$> maybe_minimum_bond).

Definition get_allowed_staker (address : Address) : M (acc G t) StateAccessorError (option (Address * N)) :=
  let! bond := map_get bonded_map address in
  ret ((fun b => (address, b)) <$> bond).

Definition set_allowed_staker (primary_address rollup_address : Address) (amount : N)
  : M (acc G t) StateAccessorError unit :=
  map_set bonded_map primary_address amount.

Definition transfer_bond_from_staker (address : Address) (amount : N) : M (acc G t) Bank.TransferTokenError unit :=
  let! self_id := gets id in
  on_bank (Bank.transfer_from (HolderUser address) (HolderModule self_id) (Staking.gas_coins amount)).

Definition transfer_bond_to_staker (address : Address) (amount : N) : M (acc G t) Bank.TransferTokenError unit :=
  let! self_id := gets id in
  on_bank (Bank.transfer_from (HolderModule self_id) (HolderUser address) (Staking.gas_coins amount)).

Definition delete_allowed_staker (address : Address) : M (acc G t) StateAccessorError unit :=
  map_delete bonded_map address.

Definition registration : Staking.StakeRegistration G t :=
  Staking.mkRegistration get_allowed_staker set_allowed_staker transfer_bond_from_staker transfer_bond_to_staker
    delete_allowed_staker.

(** ** call.rs, lib.rs *)

Definition register (bond_amount : N) (prover_address : Address) : M (acc G t) RegistryError unit :=
  Staking.register_staker registration prover_address prover_address bond_amount ;;;
  emit_event (Registered prover_address bond_amount).

Definition deposit (amount : N) (prover_address : Address) : M (acc G t) RegistryError unit :=
  Staking.deposit_funds registration prover_address amount ;;;
  emit_event (Deposited prover_address amount).

Definition exit (prover_address : Address) : M (acc G t) RegistryError unit :=
  let! amount_withdrawn := Staking.exit_staker registration prover_address in
  emit_event (Exited prover_address amount_withdrawn).

(** The [expect] turns a read that runs out of gas into a panic. *)
Definition should_reward_fees {E} : M (acc G t) E bool :=
  let! mode := expect (on_chain Staking.operating_mode) in
  ret (bool_decide (mode = Zk)).

Definition proving_penalty_value (gas_price : list N) : M (acc G t) StateAccessorError (option N) :=
  let! maybe_penalty := value_get penalty_value in
  ret ((fun penalty => GasArray.value penalty gas_price) <$> maybe_penalty).

Definition call (msg : CallMessage) (context : Context Sp) : M (acc G t) CallError unit :=
  let! reward := should_reward_fees in
  ensure reward WrongMode ;;;
  match msg with
  | Register bond_amount => map_err Registry (register bond_amount (sender context))
  | Exit => map_err Registry (exit (sender context))
  | Deposit bond_amount => map_err Registry (deposit bond_amount (sender context))
  end.

(** ** genesis.rs *)
Record ProverIncentivesConfig : Type := mkConfig {
  cfg_proving_penalty : list N;
  cfg_minimum_bond : list N;
  initial_provers : list (Address * N)
}.

Inductive GenesisError : Type := NoProvers | PenaltyAboveBond | GenesisAccess (e : StateAccessorError) | GenesisRegistry (e : RegistryError).

Definition init_module (config : ProverIncentivesConfig) : M (acc G t) GenesisError unit :=
  ensure (match initial_provers config with [] => false | _ => true end) NoProvers ;;;
  ensure (GasArray.dim_is_less_or_eq (cfg_proving_penalty config) (cfg_minimum_bond config)) PenaltyAboveBond ;;;
  map_err GenesisAccess (value_set minimum_bond_value (BlockGasInfo.zero (cfg_minimum_bond config))) ;;;
  map_err GenesisAccess (value_set penalty_value (cfg_proving_penalty config)) ;;;
  map_err GenesisAccess (value_set last_claimed_value 0) ;;;
  for_each (fun '(prover, bond) =>
    map_err GenesisRegistry (Staking.register_staker registration prover prover bond)) (initial_provers config) ;;;
  map_err GenesisAccess (value_set minimum_bond_value (cfg_minimum_bond config)).

(** ** capabilities.rs *)
Context (verify : list N -> list N -> option AggregatedProofPublicData).
Context (v : ChainState.Version) (gas_price : list N).

Definition access {A} (m : M (acc G t) StateAccessorError A) : M (acc G t) ProcessProofError A :=
  map_err (fun e => StateAccessorFailure (AccessorError e)) m.

Definition slash_prover (prover_address : Address) : M (acc G t) ProcessProofError unit :=
  access (map_delete bonded_map prover_address).

Definition slot_reward (transition : ChainState.SlotInformation) : N :=
  GasArray.value (BlockGasInfo.gas_used (ChainState.gas_info transition))
    (BlockGasInfo.base_fee_per_gas (ChainState.gas_info transition)).

Definition add_reward (total_reward slot_num : N) : M (acc G t) ProcessProofError N :=
  let! transition := access (on_chain (Staking.slot_at_height v slot_num)) in
  match transition with
  | Some transition => expect_some (Amount.checked_add total_reward (slot_reward transition))
  | None => ret total_reward
  end.

Definition calculate_reward_and_remove (init_slot_num final_slot_num : N) : M (acc G t) ProcessProofError Paycheck :=
  let! last_claimed := access (value_get last_claimed_value) in
  let! last_claimed := expect_some last_claimed in
  let! first_available_reward := expect_some (checked_add u64_max last_claimed 1) in
  let first_claimed_reward := N.max init_slot_num first_available_reward in
  let! total_reward := fold_m add_reward Amount.ZERO (range_inclusive first_claimed_reward final_slot_num) in
  access (value_set last_claimed_value (N.max first_available_reward final_slot_num)) ;;;
  if final_slot_num <? first_claimed_reward then ret Penalized else ret (Rewarded total_reward).

Definition penalize_prover (old_balance : N) (prover_address : Address) : M (acc G t) ProcessProofError unit :=
  let! fine := access (proving_penalty_value gas_price) in
  let! fine := expect_some fine in
  let! new_balance := expect_some (Amount.checked_sub old_balance fine) in
  access (map_set bonded_map prover_address new_balance).

Definition reward_prover (total_reward : N) (prover_address : Address) : M (acc G t) ProcessProofError unit :=
  let! reward_amount := expect_some (BurnRate.apply PERCENT_BASE_FEE_TO_BURN total_reward) in
  let! self_id := gets id in
  map_err TransferFailure
    (on_bank (Bank.transfer_from (HolderModule self_id) (HolderUser prover_address) (Staking.gas_coins reward_amount))).

Definition check_proof_outputs (public_outputs : AggregatedProofPublicData)
  : M (acc G t) StateAccessorError (option SlashingReason) :=
  let! expected_genesis_hash := on_chain (Staking.get_genesis_hash v) in
  let! expected_genesis_hash := expect_some expected_genesis_hash in
  if negb (bool_decide (expected_genesis_hash = genesis_state_root public_outputs)) then ret (Some IncorrectGenesisHash)
  else
  let! initial_slot := on_chain (Staking.slot_at_height v (initial_slot_number public_outputs)) in
  match initial_slot with
  | None => ret (Some InitialTransitionDoesNotExist)
  | Some initial_slot =>
  if negb (bool_decide (ChainState.prev_state_root initial_slot = initial_state_root public_outputs))
  then ret (Some IncorrectInitialStateRoot)
  else if negb (bool_decide (ChainState.slot_hash initial_slot = initial_slot_hash public_outputs))
  then ret (Some IncorrectInitialSlotHash)
  else
  let! expected_final_transition :=
    on_chain (Staking.get_historical_transition_dangerous v (final_slot_number public_outputs)) in
  match expected_final_transition with
  | None => ret (Some FinalTransitionDoesNotExist)
  | Some expected_final_transition =>
  if negb (bool_decide (ChainState.slot_hash (ChainState.slot expected_final_transition) = final_slot_hash public_outputs))
  then ret (Some IncorrectFinalSlotHash)
  else if negb (bool_decide (ChainState.post_state_root expected_final_transition = final_state_root public_outputs))
  then ret (Some IncorrectFinalStateRoot)
  else ret None
  end end.

(** The balance is checked, then the gas of the verification is charged. *)
Definition process_proof (proof : list N) (prover_address : Address)
  : M (acc G t) ProcessProofError AggregatedProofPublicData :=
  let! reward := should_reward_fees in
  ensure reward InvalidOperatingMode ;;;
  let! old_balance := access (map_get bonded_map prover_address) in
  let! old_balance := ok_or old_balance ProverNotBonded in
  let! minimum_bond := access (get_minimum_bond gas_price) in
  let! minimum_bond := expect_some minimum_bond in
  ensure (negb (old_balance <? minimum_bond)) BondNotHighEnough ;;;
  let! code_commitment := access (on_chain (value_get Staking.outer_code_commitment_value)) in
  let! code_commitment := expect_some code_commitment in
  map_err (fun e => StateAccessorFailure (MeteringError e)) (on_meter (charge_gas fixed_gas_to_charge_per_proof)) ;;;
  ensure (len proof <=? u32_max) (StateAccessorFailure TryFromIntError) ;;;
  map_err (fun e => StateAccessorFailure (MeteringError e))
    (on_meter (charge_linear_gas gas_to_charge_per_proof_byte (len proof))) ;;;
  match verify proof code_commitment with
  | None => slash_prover prover_address ;;; throw (ProverSlashedNoRevert None)
  | Some public_outputs =>
      let! slashing_reason := access (check_proof_outputs public_outputs) in
      match slashing_reason with
      | Some slashing_reason => slash_prover prover_address ;;; throw (ProverSlashedNoRevert (Some slashing_reason))
      | None =>
          let! paycheck :=
            calculate_reward_and_remove (initial_slot_number public_outputs) (final_slot_number public_outputs) in
          match paycheck with
          | Penalized => penalize_prover old_balance prover_address ;;; throw ProverPenalizedNoRevert
          | Rewarded total_reward => reward_prover total_reward prover_address ;;; ret public_outputs
          end
      end
  end.
End Operations.
End ProverIncentives.
End ProverIncentives.
