(* ===== verification/ProverProperties.v ===== *)
(** * Provers: what the module promises

    - the implementation of [StakeRegistration] satisfies [StakingFacts.StakeLaws];
    - the rule of [process_proof], branch by branch, from which follow: an honest
      prover is paid, no slot is paid twice, and what happens to outdated proofs;
    - stakes stay redeemable as long as the account of the module covers them. *)

From Stdlib Require Import NArith Lia.
From stdpp Require Import base numbers gmap strings option list.
From S2P Require Import Prelude Ints Gas StateAccess GasPrice Bank Capabilities ChainState Staking ProverIncentives.

(** ** Ranges and sums *)
Module RangeFacts.
Lemma elem_of_range n a b : n ∈ range_inclusive a b <-> a <= n /\ n <= b.
Proof.
  unfold range_inclusive. rewrite list_elem_of_fmap. split.
  - intros (i & -> & [_ Hi]%elem_of_seq). lia.
  - intros [H1 H2]. exists (N.to_nat (n - a)). split; [lia|]. apply elem_of_seq. lia.
Qed.

Lemma range_NoDup a b : NoDup (range_inclusive a b).
Proof. apply NoDup_fmap_2; [|apply NoDup_seq]. intros i j. lia. Qed.

Lemma range_app a b c : a <= b + 1 -> b <= c -> range_inclusive a c = range_inclusive a b ++ range_inclusive (b + 1) c.
Proof.
  intros Hab Hbc. unfold range_inclusive.
  replace (N.to_nat (c + 1 - a)) with (N.to_nat (b + 1 - a) + N.to_nat (c + 1 - (b + 1)))%nat by lia.
  rewrite seq_app, fmap_app. f_equal. cbn [Nat.add]. apply list_eq. intros i. rewrite !list_lookup_fmap.
  destruct (decide (i < N.to_nat (c + 1 - (b + 1)))%nat) as [Hi|Hi].
  - rewrite !lookup_seq_lt by done. cbn. f_equal. lia.
  - by rewrite !lookup_seq_ge by lia.
Qed.

Lemma sum_N_cons x l : sum_N (x :: l) = x + sum_N l.
Proof. done. Qed.

Lemma sum_keys_le {K V} `{Countable K} (f : K -> V -> N) l : forall m : gmap K V,
  NoDup l -> sum_N (map (opt_val f m) l) <= map_sum f m.
Proof.
  induction l as [|k l IH]; intros m Hl; [by apply N.le_0_l|]. cbn [map]. rewrite sum_N_cons. apply NoDup_cons in Hl as [Hk Hl].
  rewrite (map_sum_delete f m k). specialize (IH (delete k m) Hl).
  replace (map (opt_val f m) l) with (map (opt_val f (delete k m)) l); [lia|].
  apply map_ext_in. intros k' Hk'. unfold opt_val. rewrite lookup_delete_ne; [done|]. intros ->.
  apply Hk. by apply list_elem_of_In.
Qed.
End RangeFacts.

Module ProverFacts.
Import StakingFacts ProverIncentives.
Section Facts.
Context {Sp : Spec} {Rt : StateRoot} {RootEq : EqDecision Root} {PG : ProofGas}.
Context {G : Type} `{GasMeterLaws G}.

(** ** The implementation of the trait *)

Definition view : StakeView :=
  mkView bonded_provers
    (fun m s => mk (id s) m (minimum_bond s) (last_claimed_reward s) (proving_penalty s) (events s) (bank s) (chain_state s))
    bank put_bank id.

Lemma wp_bank_transfer {E} (f : Bank.TransferTokenError -> E) from to amt (Q : outcome E unit -> t -> Prop) s :
  Bank.inv (bank s) ->
  (can_fail -> forall e b, Q (Err (f e)) (put_bank b s)) ->
  (gas_of view s from < amt -> forall e, Q (Err (f e)) s) ->
  (amt <= gas_of view s from -> Q (Ok tt) (moved view s from to amt)) ->
  wp (map_err f (on_bank (G := G) (Bank.transfer_from from to (Staking.gas_coins amt)))) Q s.
Proof.
  intros Hinv Hf Hlow Hok. unfold on_bank, Bank.transfer_from. do 2 wp_step. apply BankFacts.wp_do_transfer; wp_red; [done| | |done].
  - intros Hc e b _ _. by apply Hf.
  - intros Hlt e. replace (put_bank (bank s) s) with s by (by destruct s). by apply Hlow.
Qed.

Lemma map_err_id {S E A} (m : M S E A) s : map_err (fun e => e) m s = m s.
Proof. unfold map_err. by destruct (m s) as [[]]. Qed.

#[export] Instance registration_laws : StakeLaws view (registration (G := G)).
Proof.
  assert (forall from to amt (Q : outcome Bank.TransferTokenError unit -> t -> Prop) s, Bank.inv (bank s) ->
    (can_fail -> forall e b, Q (Err e) (put_bank b s)) -> (gas_of view s from < amt -> forall e, Q (Err e) s) ->
    (amt <= gas_of view s from -> Q (Ok tt) (moved view s from to amt)) ->
    wp (on_bank (G := G) (Bank.transfer_from from to (Staking.gas_coins amt))) Q s) as Htr.
  { intros from to amt Q s Hinv Hf Hlow Hok.
    pose proof (wp_bank_transfer (fun e => e) from to amt Q s Hinv Hf Hlow Hok) as Hw.
    intros g Hg. specialize (Hw g Hg). by rewrite map_err_id in Hw. }
  split; try done; cbn.
  - intros a Q s Hf Hok. unfold get_allowed_staker. do 2 wp_step; [by auto|]. by wp_step.
  - intros a amt Q s Hf Hok. unfold set_allowed_staker. wp_step; [by auto|]. done.
  - intros a Q s Hf Hok. unfold delete_allowed_staker. wp_step; [by auto|]. done.
  - intros a amt Q s Hinv Hf Hlow Hok. unfold transfer_bond_from_staker. do 2 wp_step. wp_red. by apply Htr.
  - intros a amt Q s Hinv Hf Hlow Hok. unfold transfer_bond_to_staker. do 2 wp_step. wp_red. by apply Htr.
Qed.

(** ** Reads *)

Lemma put_chain_same s : put_chain (chain_state s) s = s.
Proof. by destruct s. Qed.

Lemma wp_on_chain {E A} (m : M (acc G ChainState.t) E A) (Q : outcome E A -> t -> Prop) s :
  wp m (fun o c => c = chain_state s /\ Q o s) (chain_state s) -> wp (on_chain m) Q s.
Proof.
  intros Hm. unfold on_chain. wp_step. eapply wp_mono; [exact Hm|]. intros o c [-> Ho]. by rewrite put_chain_same.
Qed.

(** ** The rewards of slots *)

Definition slots_of (s : t) : gmap N ChainState.SlotInformation := ChainState.slots (ChainState.the_kernel (chain_state s)).

(** The reward of a slot, zero when the slot cannot be seen. *)
Definition reward_at (v : ChainState.Version) (s : t) (n : N) : N :=
  match ChainState.versioned_get (slots_of s) n v with Some slot => slot_reward slot | None => 0 end.

Definition rewards (v : ChainState.Version) (s : t) (first last : N) : N :=
  sum_N (map (reward_at v s) (range_inclusive first last)).

(** The gas of all slots is worth less than the supply of a token can be. *)
Definition rewards_bounded (s : t) : Prop := map_sum (fun _ slot => slot_reward slot) (slots_of s) <= u128_max.

Lemma reward_at_le v s n : reward_at v s n <= opt_val (fun _ slot => slot_reward slot) (slots_of s) n.
Proof.
  unfold reward_at, ChainState.versioned_get, opt_val. destruct (_ <? n); [lia|]. by destruct (slots_of s !! n).
Qed.

Lemma reward_sum_le {A} (f g : A -> N) l : (forall x, f x <= g x) -> sum_N (map f l) <= sum_N (map g l).
Proof. intros Hfg. induction l as [|x l IH]; [done|]. cbn [map]. rewrite !RangeFacts.sum_N_cons. specialize (Hfg x). lia. Qed.

Lemma rewards_le v s first last : rewards_bounded s -> rewards v s first last <= u128_max.
Proof.
  intros Hb. unfold rewards. etransitivity; [apply reward_sum_le, reward_at_le|].
  etransitivity; [apply RangeFacts.sum_keys_le, RangeFacts.range_NoDup|done].
Qed.

Lemma wp_add_rewards v l : forall total (Q : outcome ProcessProofError N -> t -> Prop) s,
  total + sum_N (map (reward_at v s) l) <= u128_max ->
  (can_fail -> forall e, Q (Err (StateAccessorFailure e)) s) -> Q (Ok (total + sum_N (map (reward_at v s) l))) s ->
  wp (fold_m (add_reward (G := G) v) total l) Q s.
Proof.
  induction l as [|n l IH]; intros total Q s Hle Hf Hok; cbn [fold_m].
  { wp_step. cbn in Hok. by rewrite N.add_0_r in Hok. }
  cbn [map] in Hle, Hok. rewrite RangeFacts.sum_N_cons in Hle, Hok.
  wp_step. unfold add_reward, access. do 2 wp_step. apply wp_on_chain, ChainReads.wp_slot_at_height; wp_red; [by auto|].
  split; [done|]. assert (ChainState.versioned_get (slots_of s) n v = None -> reward_at v s n = 0) as Hz.
  { unfold reward_at. by intros ->. }
  assert (forall slot, ChainState.versioned_get (slots_of s) n v = Some slot -> reward_at v s n = slot_reward slot) as H1'.
  { unfold reward_at. by intros slot ->. }
  fold (slots_of s). destruct (ChainState.versioned_get (slots_of s) n v) as [slot|].
  - specialize (H1' slot eq_refl). wp_step; wp_red; checked_simpl; [|lia]. subst.
    apply IH; [lia|done|]. by rewrite <- N.add_assoc, <- H1'.
  - rewrite Hz in * by done. wp_step. wp_red. by apply IH.
Qed.

(** ** Processing a proof *)
Section Proofs.
Context (verify : list N -> list N -> option AggregatedProofPublicData).
Context (Hburn : PERCENT_BASE_FEE_TO_BURN <= 100).

Definition with_claimed (n : N) (s : t) : t :=
  mk (id s) (bonded_provers s) (minimum_bond s) (Some n) (proving_penalty s) (events s) (bank s) (chain_state s).
Definition with_bonded (m : gmap Address N) (s : t) : t :=
  mk (id s) m (minimum_bond s) (last_claimed_reward s) (proving_penalty s) (events s) (bank s) (chain_state s).

(** What genesis and the chain establish: the values are set, the penalty is at most
    the minimum bond, the last slot that was paid is [claimed]. *)
Record ready (claimed : N) (commitment : list N) (s : t) : Prop := mkReady {
  ready_bank : Bank.inv (bank s);
  ready_mode : is_Some (ChainState.operating_mode (ChainState.the_config (chain_state s)));
  ready_bond : exists mb pe, minimum_bond s = Some mb /\ proving_penalty s = Some pe /\
    forall price, GasArray.value pe price <= GasArray.value mb price;
  ready_claimed : last_claimed_reward s = Some claimed;
  ready_commitment : ChainState.outer_code_commitment (ChainState.the_config (chain_state s)) = Some commitment;
  ready_rewards : rewards_bounded s
}.

(** No proof can be processed: the slot numbers are exhausted, or the first slot is
    not visible. *)
Definition stuck (v : ChainState.Version) (claimed : N) (s : t) : Prop :=
  u64_max <= claimed \/ ChainState.pre_state_root_at_height 1 v (chain_state s) = None.

Section Process.
Context (v : ChainState.Version) (gas_price : list N).

(** The fault of the outputs of a proof, from the chain state. *)
Definition output_fault (s : t) (o : AggregatedProofPublicData) : option SlashingReason :=
  let c := chain_state s in
  if bool_decide (ChainState.pre_state_root_at_height 1 v c <> Some (genesis_state_root o)) then Some IncorrectGenesisHash
  else match ChainState.versioned_get (slots_of s) (initial_slot_number o) v with
  | None => Some InitialTransitionDoesNotExist
  | Some first =>
      if bool_decide (ChainState.prev_state_root first <> initial_state_root o) then Some IncorrectInitialStateRoot
      else if bool_decide (ChainState.slot_hash first <> initial_slot_hash o) then Some IncorrectInitialSlotHash
      else match ChainState.get_historical_transition_dangerous (final_slot_number o) v c with
      | None => Some FinalTransitionDoesNotExist
      | Some last =>
          if bool_decide (ChainState.slot_hash (ChainState.slot last) <> final_slot_hash o) then Some IncorrectFinalSlotHash
          else if bool_decide (ChainState.post_state_root last <> final_state_root o) then Some IncorrectFinalStateRoot
          else None
      end
  end.

Lemma wp_check_proof_outputs o (Q : outcome StateAccessorError (option SlashingReason) -> t -> Prop) s :
  (ChainState.pre_state_root_at_height 1 v (chain_state s) = None -> Q Panic s) ->
  (can_fail -> forall e, Q (Err e) s) -> Q (Ok (output_fault s o)) s ->
  wp (check_proof_outputs (G := G) v o) Q s.
Proof.
  intros Hg Hf Hok. unfold check_proof_outputs, output_fault in *.
  wp_step. apply wp_on_chain, ChainReads.wp_get_genesis_hash; wp_red; [by auto|]. split; [done|].
  destruct (ChainState.pre_state_root_at_height 1 v (chain_state s)) as [root|];
    [|wp_step; wp_step; wp_red; [done|by apply Hg]].
  wp_step. wp_step; wp_red; [|done]. simplify_eq. cbv zeta in Hok.
  destruct (decide (a = genesis_state_root o)) as [->|Hne].
  2: { rewrite bool_decide_eq_false_2 by done. rewrite bool_decide_eq_true_2 in Hok by congruence. cbn [negb]. by wp_step. }
  rewrite bool_decide_eq_true_2 by done. rewrite bool_decide_eq_false_2 in Hok by naive_solver. cbn [negb].
  wp_step. apply wp_on_chain, ChainReads.wp_slot_at_height; wp_red; [by auto|]. split; [done|]. fold (slots_of s).
  destruct (ChainState.versioned_get (slots_of s) _ v) as [first|]; [|by wp_step].
  destruct (decide (ChainState.prev_state_root first = initial_state_root o)) as [Hr|Hr];
    [rewrite (bool_decide_eq_true_2 (_ = _)) by done|rewrite bool_decide_eq_false_2 by done]; cbn [negb].
  2: { rewrite bool_decide_eq_true_2 in Hok by done. by wp_step. }
  rewrite bool_decide_eq_false_2 in Hok by naive_solver.
  destruct (decide (ChainState.slot_hash first = initial_slot_hash o)) as [Hh|Hh];
    [rewrite (bool_decide_eq_true_2 (_ = _)) by done|rewrite bool_decide_eq_false_2 by done]; cbn [negb].
  2: { rewrite bool_decide_eq_true_2 in Hok by done. by wp_step. }
  rewrite bool_decide_eq_false_2 in Hok by naive_solver.
  wp_step. apply wp_on_chain, ChainReads.wp_get_historical_transition; wp_red; [by auto|]. split; [done|].
  destruct (ChainState.get_historical_transition_dangerous _ v _) as [last|]; [|by wp_step].
  rewrite !bool_decide_not in Hok. repeat destruct (bool_decide _); cbn [negb] in *; by wp_step.
Qed.

Lemma wp_calculate claimed first last (Q : outcome ProcessProofError Paycheck -> t -> Prop) s :
  last_claimed_reward s = Some claimed -> (u64_max <= claimed -> Q Panic s) -> rewards_bounded s ->
  (can_fail -> forall e s', Q (Err (StateAccessorFailure e)) s') ->
  Q (Ok (if last <? N.max first (claimed + 1) then Penalized else Rewarded (rewards v s (N.max first (claimed + 1)) last)))
    (with_claimed (N.max (claimed + 1) last) s) ->
  wp (calculate_reward_and_remove (G := G) v first last) Q s.
Proof.
  intros Hc Hlt Hb Hf Hok. unfold calculate_reward_and_remove, access. do 3 wp_step; [by auto|]. cbn [val_read last_claimed_value].
  rewrite Hc. wp_step. wp_step; [|done]. wp_red. simplify_eq. wp_step. wp_step; wp_red; checked_simpl; [|apply Hlt; lia]. subst.
  wp_step. apply wp_add_rewards; wp_red.
  - pose proof (rewards_le v s (N.max first (a + 1)) last Hb) as Hr. exact Hr.
  - by auto.
  - do 3 wp_step; [by auto|]. fold (rewards v s (N.max first (a + 1)) last). rewrite N.add_0_l.
    destruct (last <? _); by wp_step.
Qed.

(** The prover may submit the proof: the rollup is in zk mode, the prover is bonded
    with at least the minimum bond, and the length of the proof fits. *)
Definition eligible (s : t) (p : Address) (proof : list N) (balance : N) : Prop :=
  ChainState.operating_mode (ChainState.the_config (chain_state s)) = Some Zk /\ bonded_provers s !! p = Some balance /\
  (exists mb, minimum_bond s = Some mb /\ GasArray.value mb gas_price <= balance) /\ len proof <= u32_max.

Definition revertable (e : ProcessProofError) : bool :=
  match e with ProverSlashedNoRevert _ | ProverPenalizedNoRevert => false | _ => true end.

Definition fine_of (s : t) : N := match proving_penalty s with Some pe => GasArray.value pe gas_price | None => 0 end.

(** What the processing of a proof can do. *)
Inductive processed (claimed : N) (commitment : list N) (s : t) (p : Address) (proof : list N)
  : outcome ProcessProofError AggregatedProofPublicData -> t -> Prop :=
| processed_panic : can_fail \/ stuck v claimed s -> processed claimed commitment s p proof Panic s
| processed_gas e s' : can_fail -> revertable e = true -> processed claimed commitment s p proof (Err e) s'
| processed_refused e :
    revertable e = true -> (forall balance, ~ eligible s p proof balance) -> processed claimed commitment s p proof (Err e) s
| processed_slashed reason balance :
    eligible s p proof balance ->
    match verify proof commitment with
    | None => reason = None
    | Some o => reason = output_fault s o /\ is_Some reason
    end ->
    processed claimed commitment s p proof (Err (ProverSlashedNoRevert reason)) (with_bonded (delete p (bonded_provers s)) s)
| processed_penalized o balance :
    eligible s p proof balance -> verify proof commitment = Some o -> output_fault s o = None ->
    final_slot_number o < N.max (initial_slot_number o) (claimed + 1) -> fine_of s <= balance ->
    processed claimed commitment s p proof (Err ProverPenalizedNoRevert)
      (with_bonded (<[p := balance - fine_of s]> (bonded_provers s))
         (with_claimed (N.max (claimed + 1) (final_slot_number o)) s))
| processed_unpaid o pay e s' :
    verify proof commitment = Some o -> N.max (initial_slot_number o) (claimed + 1) <= final_slot_number o ->
    BurnRate.apply PERCENT_BASE_FEE_TO_BURN
      (rewards v s (N.max (initial_slot_number o) (claimed + 1)) (final_slot_number o)) = Some pay ->
    held view s < pay -> processed claimed commitment s p proof (Err (TransferFailure e)) s'
| processed_rewarded o pay balance :
    eligible s p proof balance -> verify proof commitment = Some o -> output_fault s o = None ->
    N.max (initial_slot_number o) (claimed + 1) <= final_slot_number o ->
    BurnRate.apply PERCENT_BASE_FEE_TO_BURN
      (rewards v s (N.max (initial_slot_number o) (claimed + 1)) (final_slot_number o)) = Some pay ->
    pay <= held view s ->
    processed claimed commitment s p proof (Ok o)
      (moved view (with_claimed (final_slot_number o) s) (account view s) (HolderUser p) pay).

Lemma burn_some total : total <= u128_max ->
  exists pay, BurnRate.apply PERCENT_BASE_FEE_TO_BURN total = Some pay /\ pay <= total.
Proof.
  intros Ht. unfold BurnRate.apply, PriorityFeeBips.apply.
  set (f := PriorityFeeBips.from_percentage (100 - PERCENT_BASE_FEE_TO_BURN)).
  assert (f <= 10000) as Hf. { unfold f. rewrite FeeFacts.from_percentage_small; lia. }
  pose proof (FeeFacts.limbs_close f total ltac:(unfold u64_max; lia) Ht) as Hc.
  assert (f * total / 10000 <= total) as Hle.
  { apply N.Div0.div_le_upper_bound. apply N.mul_le_mono_r. done. }
  destruct (PriorityFeeBips.priority_fee_limbs f total) as [pay|]; [exists pay; split; [done|lia]|lia].
Qed.

Lemma wp_settle claimed commitment s p proof o balance :
  ready claimed commitment s -> eligible s p proof balance -> verify proof commitment = Some o -> output_fault s o = None ->
  wp (let! paycheck := calculate_reward_and_remove (G := G) v (initial_slot_number o) (final_slot_number o) in
      match paycheck with
      | Penalized => penalize_prover gas_price balance p ;;; throw ProverPenalizedNoRevert
      | Rewarded total_reward => reward_prover total_reward p ;;; ret o
      end) (processed claimed commitment s p proof) s.
Proof.
  intros Hr He Hv Ho. wp_step. apply (wp_calculate claimed); [apply Hr|intros Hs; apply processed_panic; right; by left|apply Hr| |]; wp_red.
  { intros Hc e s'. by apply processed_gas. }
  set (first := N.max (initial_slot_number o) (claimed + 1)) in *.
  destruct (N.ltb_spec (final_slot_number o) first) as [Hlt|Hge].
  - destruct (ready_bond _ _ _ Hr) as (mb & pe & Hmb & Hpe & Hle). destruct He as (Hm & Hb & (mb' & Hmb' & Hbal) & Hl).
    specialize (Hle gas_price). assert (mb' = mb) as -> by congruence. unfold penalize_prover, proving_penalty_value, access.
    do 5 wp_step; [by apply processed_gas|]. cbn [val_read penalty_value proving_penalty with_claimed]. rewrite Hpe.
    do 2 wp_step. wp_step; [|done]. wp_red. injection H1 as <-. wp_step. wp_step; wp_red; checked_simpl; [|lia]. subst.
    do 2 wp_step; [by apply processed_gas|]. wp_step. cbn.
    replace (GasArray.value pe gas_price) with (fine_of s) by (unfold fine_of; by rewrite Hpe).
    apply (processed_penalized _ _ _ _ _ o balance); [|done..|].
    + split_and!; [done|done|by exists mb|done].
    + unfold fine_of. rewrite Hpe. lia.
  - destruct (burn_some (rewards v s first (final_slot_number o))) as (pay & Hpay & _).
    { apply rewards_le. apply Hr. }
    unfold reward_prover. do 2 wp_step. rewrite Hpay. wp_step; [|done]. wp_red. injection H1 as <-. do 2 wp_step. wp_red.
    apply wp_bank_transfer; wp_red.
    + apply Hr.
    + intros Hc e b. by apply processed_gas.
    + intros Hlow e. by eapply processed_unpaid.
    + intros Hge'. wp_step. replace (N.max (claimed + 1) (final_slot_number o)) with (final_slot_number o) by lia.
      by eapply processed_rewarded.
Qed.

Lemma wp_process_proof claimed commitment s p proof :
  ready claimed commitment s ->
  wp (process_proof (G := G) verify v gas_price proof p) (processed claimed commitment s p proof) s.
Proof.
  intros Hr. unfold process_proof, should_reward_fees, get_minimum_bond, slash_prover, access.
  assert (forall e : AnyError, can_fail -> processed claimed commitment s p proof (Err (StateAccessorFailure e)) s) as Hgas.
  { intros e Hc. by apply processed_gas. }
  destruct (ready_mode _ _ _ Hr) as [mode Hmode]. destruct (ready_bond _ _ _ Hr) as (mb & pe & Hmb & Hpe & Hle).
  do 3 wp_step. apply wp_on_chain, ChainReads.wp_operating_mode; wp_red.
  { intros Hc _. split; [done|]. apply processed_panic. by left. }
  rewrite Hmode. split; [done|]. do 2 wp_step. wp_step; wp_red; checked_simpl.
  2: { apply processed_refused; [done|]. intros b (Hm & _). congruence. }
  subst mode. do 3 wp_step; [by auto|]. cbn [map_read bonded_map]. wp_step. wp_step; wp_red.
  2: { apply processed_refused; [done|]. intros b (_ & Hb & _). congruence. }
  do 4 wp_step; [by auto|]. do 2 wp_step. cbn [val_read minimum_bond_value]. rewrite Hmb. wp_step; [|done]. wp_red.
  cbn in H2. apply (inj Some) in H2 as <-. wp_step. wp_step; wp_red; checked_simpl.
  2: { apply processed_refused; [done|]. intros b (_ & Hb & (mb' & Hmb' & Hbal) & _).
       assert (mb' = mb) as -> by congruence. assert (b = a) as -> by congruence. lia. }
  do 2 wp_step. apply wp_on_chain. wp_step; [split; [done|by auto]|].
  split; [done|]. cbn [val_read Staking.outer_code_commitment_value]. rewrite (ready_commitment _ _ _ Hr).
  wp_step. wp_step; wp_red; [|done]. apply (inj Some) in H3 as <-.
  do 2 wp_step. apply wp_charge_gas; wp_red; [by auto|]. wp_step. wp_step; wp_red; checked_simpl.
  2: { apply processed_refused; [done|]. intros b (_ & _ & _ & Hl). lia. }
  do 2 wp_step. apply wp_charge_linear_gas; wp_red; [by auto|].
  assert (eligible s p proof a) as He. { split_and!; [done|done|by exists mb|done]. }
  destruct (verify proof commitment) as [o|] eqn:Hv.
  - do 2 wp_step. apply wp_check_proof_outputs; wp_red; [intros Hs; apply processed_panic; right; by right|by auto|]. destruct (output_fault s o) as [r|] eqn:Ho.
    + do 3 wp_step; [by auto|]. wp_step. apply (processed_slashed _ _ _ _ _ _ a); [done|]. by rewrite Hv, Ho.
    + by eapply wp_settle.
  - do 3 wp_step; [by auto|]. wp_step. apply (processed_slashed _ _ _ _ _ _ a); [done|]. by rewrite Hv.
Qed.
End Process.

(** ** Calls *)

(** A call that succeeds leaves everything but the stakes, the events and the
    balances. *)
Definition frame (s s' : t) : Prop :=
  minimum_bond s' = minimum_bond s /\ last_claimed_reward s' = last_claimed_reward s /\
  proving_penalty s' = proving_penalty s /\ chain_state s' = chain_state s.

Lemma surplus_event s s' e :
  surplus_kept view s s' ->
  surplus_kept view s (mk (id s') (bonded_provers s') (minimum_bond s') (last_claimed_reward s') (proving_penalty s')
    e (bank s') (chain_state s')).
Proof. done. Qed.

Lemma wp_prover_call msg c s :
  Bank.inv (bank s) ->
  wp (call (G := G) msg c) (fun o s' => o = Ok tt -> frame s s' /\ surplus_kept view s s') s.
Proof.
  intros Hinv. unfold call, should_reward_fees. do 3 wp_step. apply wp_on_chain, ChainReads.wp_operating_mode; wp_red; [done|].
  destruct (ChainState.operating_mode _) as [mode|]; (split; [done|]); [|done]. do 2 wp_step. wp_step; wp_red; [|done].
  destruct msg as [amt|amt|]; unfold register, deposit, exit, emit_event; do 2 wp_step.
  - apply (wp_register_staker view registration); wp_red; [done|intros; discriminate|]. intros Hs Ha. wp_red. wp_step. intros _. split; [done|].
    apply surplus_event. by apply (registered_kept view (registration (G := G))).
  - apply (wp_deposit_funds view registration); wp_red; [done|intros; discriminate|]. intros balance Hs Ha Hu. wp_red. wp_step. intros _. split; [done|].
    apply surplus_event. by apply (deposited_kept view (registration (G := G))).
  - apply (wp_exit_staker view registration); wp_red; [done|intros _ e s'; discriminate|]. intros balance Hs Ha. wp_red. wp_step. intros _. split; [done|].
    apply surplus_event. by apply (exited_kept view (registration (G := G))).
Qed.

(** ** Histories *)

(** Slots that were recorded stay as they are. *)
Definition extends (c c' : ChainState.t) : Prop :=
  ChainState.the_config c' = ChainState.the_config c /\
  ChainState.slots (ChainState.the_kernel c) ⊆ ChainState.slots (ChainState.the_kernel c').

(** What the address [p] received between two states. *)
Definition received (s s' : t) (p : Address) : N := gas_of view s' (HolderUser p) - gas_of view s (HolderUser p).

(** Proofs and calls run on any well-formed meter; their writes are undone when they
    fail, but for slashed and penalized provers.  The chain grows, and other modules
    move tokens, but not out of the account of the module.  The label is what the bank
    paid to the prover, read off its balances. *)
Inductive step (s : t) : N -> t -> Prop :=
| step_paid v price proof p g o a :
    meter_wf g -> process_proof (G := G) verify v price proof p (Acc g s) = (Ok o, a) ->
    step s (received s (store a) p) (store a)
| step_refused v price proof p g e a :
    meter_wf g -> process_proof (G := G) verify v price proof p (Acc g s) = (Err e, a) ->
    step s 0 (if revertable e then s else store a)
| step_call msg c g o a :
    meter_wf g -> call (G := G) msg c (Acc g s) = (o, a) ->
    step s 0 (match o with Ok _ => store a | _ => s end)
| step_chain c : extends (chain_state s) c -> rewards_bounded (put_chain c s) -> step s 0 (put_chain c s)
| step_bank b :
    Bank.inv b -> held view s <= held view (put_bank b s) -> step s 0 (put_bank b s).

Inductive steps : t -> list N -> t -> Prop :=
| steps_refl s : steps s [] s
| steps_step s pay s' ls s'' : step s pay s' -> steps s' ls s'' -> steps s (pay :: ls) s''.

Definition total_paid (ls : list N) : N := sum_N ls.

(** What is due for slots. *)
Definition due (s : t) (slots : list N) : N :=
  sum_N (map (opt_val (fun _ slot => slot_reward slot) (slots_of s)) slots).

Lemma due_app s l l' : due s (l ++ l') = due s l + due s l'.
Proof. unfold due. by rewrite map_app, sum_N_app. Qed.

(** The gas of the slots after [claimed], up to [claimed']. *)
Definition due_after (s : t) (claimed claimed' : N) : N := due s (range_inclusive (claimed + 1) claimed').

Lemma due_after_app s a b c : a <= b -> b <= c -> due_after s a c = due_after s a b + due_after s b c.
Proof. intros Hab Hbc. unfold due_after. rewrite (RangeFacts.range_app (a + 1) b c) by lia. apply due_app. Qed.

Lemma due_later s a b c : a <= b -> due s (range_inclusive (b + 1) c) <= due_after s a c.
Proof.
  intros Hab. destruct (decide (b <= c)) as [Hbc|Hbc].
  - rewrite (due_after_app s a b c) by done. unfold due_after. lia.
  - unfold range_inclusive. replace (N.to_nat (c + 1 - (b + 1))) with 0%nat by lia. apply N.le_0_l.
Qed.

Lemma due_extends s s' l : slots_of s ⊆ slots_of s' -> due s l <= due s' l.
Proof.
  intros Hs. apply reward_sum_le. intros n. unfold opt_val. destruct (slots_of s !! n) as [i|] eqn:Hn; [|lia].
  by rewrite (lookup_weaken _ _ _ _ Hn Hs).
Qed.

(** What the account of the module loses, beyond the stakes that were paid back, is
    what was paid for proofs. *)
Definition accounted (s s' : t) (pays : N) : Prop := held view s + staked view s' <= held view s' + pays + staked view s.

Record stepped (commitment : list N) (claimed claimed' : N) (s : t) (pay : N) (s' : t) : Prop := mkStepped {
  stepped_ready : ready claimed' commitment s';
  stepped_claimed : claimed <= claimed';
  stepped_slots : slots_of s ⊆ slots_of s';
  stepped_payment : pay <= due_after s claimed claimed';
  stepped_accounted : accounted s s' pay
}.

Lemma ready_set claimed claimed' commitment s m b :
  ready claimed commitment s -> Bank.inv b -> ready claimed' commitment (put_bank b (with_bonded m (with_claimed claimed' s))).
Proof. intros [] Hb. by split. Qed.

Lemma stepped_refl claimed commitment s : ready claimed commitment s -> stepped commitment claimed claimed s 0 s.
Proof. intros Hr. split; [done|done|done|apply N.le_0_l|]. unfold accounted. lia. Qed.

Lemma staked_delete s p : staked view (with_bonded (delete p (bonded_provers s)) s) <= staked view s.
Proof. unfold staked. cbn. rewrite (map_sum_delete _ (bonded_provers s) p). lia. Qed.

Lemma staked_insert s p balance x :
  bonded_provers s !! p = Some balance -> x <= balance ->
  map_sum (fun _ x => x) (<[p := x]> (bonded_provers s)) <= staked view s.
Proof.
  intros Hp Hx. unfold staked. cbn. pose proof (map_sum_insert (fun _ x => x) (bonded_provers s) p x) as Hm.
  unfold opt_val in Hm. rewrite Hp in Hm. lia.
Qed.

Lemma rewards_due v s first last : rewards v s first last <= due s (range_inclusive first last).
Proof. apply reward_sum_le. intros n. apply reward_at_le. Qed.

Lemma processed_kept v price claimed commitment s p proof o s' :
  ready claimed commitment s -> processed v price claimed commitment s p proof (Ok o) s' ->
  stepped commitment claimed (final_slot_number o) s (received s s' p) s'.
Proof.
  intros Hr Hp. inversion Hp as [| | | | | |o' pay balance He Hv Ho Hle Hpay Hheld]; subst.
  assert (Bank.inv (Bank.transferred (bank s) (account view s) (HolderUser p) config_gas_token_id pay)) as Hb.
  { apply BankFacts.inv_transferred; [apply Hr|done]. }
  assert (forall h, gas_of view (with_claimed (final_slot_number o) s) h = gas_of view s h) as Hsame by done.
  assert (received s (moved view (with_claimed (final_slot_number o) s) (account view s) (HolderUser p) pay) p = pay) as ->.
  { unfold received. rewrite (gas_of_moved view (registration (G := G))) by done.
    rewrite bool_decide_eq_false_2 by done. rewrite bool_decide_eq_true_2 by done. rewrite Hsame. lia. }
  split.
  - exact (ready_set claimed (final_slot_number o) commitment s (bonded_provers s) _ Hr Hb).
  - lia.
  - done.
  - destruct (burn_some (rewards v s (N.max (initial_slot_number o) (claimed + 1)) (final_slot_number o)))
      as (pay' & Hpay' & Hle'); [by apply rewards_le, Hr|]. assert (pay' = pay) as -> by congruence.
    etransitivity; [exact Hle'|]. etransitivity; [apply rewards_due|].
    replace (N.max (initial_slot_number o) (claimed + 1)) with ((N.max (initial_slot_number o) (claimed + 1) - 1) + 1) by lia.
    apply due_later. lia.
  - unfold accounted. unfold held at 2. rewrite (gas_of_moved view (registration (G := G))) by done.
    rewrite bool_decide_eq_true_2 by done. unfold held, gas_of, staked in *. cbn in *. lia.
Qed.

Lemma processed_refused_kept v price claimed commitment s p proof e s' :
  ready claimed commitment s -> processed v price claimed commitment s p proof (Err e) s' -> revertable e = false ->
  exists claimed', stepped commitment claimed claimed' s 0 s'.
Proof.
  intros Hr Hp He. inversion Hp as [| | |reason balance Hel Hv|o balance Hel Hv Ho Hlt Hfine| |]; subst; try congruence.
  - exists claimed. split; [|done|done|apply N.le_0_l|].
    + destruct Hr. by split.
    + unfold accounted. pose proof (staked_delete s p) as Hd.
      change (held view (with_bonded (delete p (bonded_provers s)) s)) with (held view s).
      lia.
  - exists (N.max (claimed + 1) (final_slot_number o)). split; [|lia|done|apply N.le_0_l|].
    + destruct Hr. by split.
    + unfold accounted. pose proof (staked_insert s p balance (balance - fine_of price s) ltac:(apply Hel) ltac:(lia)) as Hi.
      change (held view (with_bonded _ _)) with (held view s). unfold staked at 1. cbn [stakes view bonded_provers with_bonded].
      lia.
  - done.
Qed.

Lemma prover_step_spec claimed commitment s pay s' :
  ready claimed commitment s -> step s pay s' -> exists claimed', stepped commitment claimed claimed' s pay s'.
Proof.
  intros Hr Hstep. destruct Hstep as [v price proof p g o a Hg Hrun|v price proof p g e a Hg Hrun|msg c g o a Hg Hrun|c Hext Hb|b Hb Hheld].
  - destruct (wp_run _ _ _ g (wp_process_proof v price claimed commitment s p proof Hr) Hg) as [_ Hp].
    rewrite Hrun in Hp. cbn in Hp. eexists. by eapply processed_kept.
  - destruct (wp_run _ _ _ g (wp_process_proof v price claimed commitment s p proof Hr) Hg) as [_ Hp].
    rewrite Hrun in Hp. cbn in Hp. destruct (revertable e) eqn:He; [exists claimed; by apply stepped_refl|].
    by eapply processed_refused_kept.
  - destruct (wp_run _ _ _ g (wp_prover_call msg c s (ready_bank _ _ _ Hr)) Hg) as [_ Hp]. rewrite Hrun in Hp. cbn in Hp.
    exists claimed. destruct o as [[]|e|]; [|by apply stepped_refl..].
    destruct (Hp eq_refl) as [(H1 & H2 & H3 & H4) (H5 & H6 & H7)]. split; [|done| |apply N.le_0_l|].
    + destruct Hr. split; unfold rewards_bounded, slots_of; rewrite ?H1, ?H2, ?H3, ?H4; done.
    + unfold slots_of. by rewrite H4.
    + unfold accounted. cbn. lia.
  - exists claimed. destruct Hext as [Hc Hs]. split; [|done|done|apply N.le_0_l|].
    + destruct Hr. split; cbn; rewrite ?Hc; done.
    + unfold accounted. change (held view (put_chain c s)) with (held view s).
      change (staked view (put_chain c s)) with (staked view s). lia.
  - exists claimed. split; [by destruct Hr; split|done|done|apply N.le_0_l|]. unfold accounted.
    change (staked view (put_bank b s)) with (staked view s). lia.
Qed.

(** Over a history. *)
Lemma steps_spec claimed commitment s ls s' :
  steps s ls s' -> ready claimed commitment s ->
  exists claimed', ready claimed' commitment s' /\ claimed <= claimed' /\ slots_of s ⊆ slots_of s' /\
    total_paid ls <= due_after s' claimed claimed' /\ accounted s s' (total_paid ls).
Proof.
  intros Hsteps. revert claimed. induction Hsteps as [s|s pay s1 ls s2 Hstep Hsteps IH]; intros claimed Hr.
  - exists claimed. split_and!; [done..|apply N.le_0_l|]. unfold accounted. cbn. lia.
  - destruct (prover_step_spec claimed commitment s pay s1 Hr Hstep) as (claimed1 & [Hr1 Hle1 Hs1 Hp1 Ha1]).
    destruct (IH claimed1 Hr1) as (claimed2 & Hr2 & Hle2 & Hs2 & Htot & Ha2). exists claimed2.
    change (total_paid (pay :: ls)) with (pay + total_paid ls).
    split_and!; [done|lia|by transitivity (slots_of s1)| |unfold accounted in *; lia].
    rewrite (due_after_app s2 claimed claimed1 claimed2) by done.
    pose proof (due_extends s s2 (range_inclusive (claimed + 1) claimed1) ltac:(by transitivity (slots_of s1))).
    unfold due_after in *. lia.
Qed.
End Proofs.

(** ** Genesis *)
Lemma value_from_mono a : forall b p x y,
  GasArray.dim_is_less_or_eq a b = true -> length a = length b -> x <= y ->
  foldl Amount.saturating_add x (zip_with Amount.saturating_mul a p) <=
  foldl Amount.saturating_add y (zip_with Amount.saturating_mul b p).
Proof.
  induction a as [|i a IH]; intros [|j b] p x y Hd Hl Hxy; try done.
  destruct p as [|q p]; [done|]. cbn in *. destruct (N.ltb_spec j i) as [|Hle]; [done|]. apply IH; [done|lia|].
  unfold Amount.saturating_add, Amount.saturating_mul, Ints.saturating_add, Ints.saturating_mul.
  pose proof (N.mul_le_mono_r i j q Hle). lia.
Qed.

Lemma value_mono a b p :
  GasArray.dim_is_less_or_eq a b = true -> length a = length b -> GasArray.value a p <= GasArray.value b p.
Proof. intros Hd Hl. by apply value_from_mono. Qed.

(** Genesis sets the values that proofs rely on. *)
Lemma wp_prover_init config s :
  Bank.inv (bank s) -> length (cfg_proving_penalty config) = length (cfg_minimum_bond config) ->
  wp (init_module (G := G) config) (fun o s' => o = Ok tt ->
    Bank.inv (bank s') /\ chain_state s' = chain_state s /\ last_claimed_reward s' = Some 0 /\
    minimum_bond s' = Some (cfg_minimum_bond config) /\ proving_penalty s' = Some (cfg_proving_penalty config) /\
    forall price, GasArray.value (cfg_proving_penalty config) price <= GasArray.value (cfg_minimum_bond config) price) s.
Proof.
  intros Hinv Hlen. unfold init_module. do 2 wp_step; wp_red; [|done]. do 2 wp_step; wp_red; [|done].
  do 3 (do 3 wp_step; [done|]). wp_step. cbn.
  set (I' := fun s' => Bank.inv (bank s') /\ chain_state s' = chain_state s /\ last_claimed_reward s' = Some 0 /\
    proving_penalty s' = Some (cfg_proving_penalty config)).
  apply (wp_for_each _ (fun _ => I')); [done| |].
  - intros done [p bond] rest s' _ (H1' & H2' & H3' & H4'). wp_step.
    apply (wp_register_staker view registration); wp_red; [done|intros; discriminate|]. intros Hs Ha.
    unfold I', registered. cbn. split_and!; [by apply BankFacts.inv_transferred|done..].
  - intros s' (H1' & H2' & H3' & H4'). wp_red. do 2 wp_step; [done|]. intros _. split_and!; try done.
    intros price. by apply value_mono.
Qed.
End Facts.
End ProverFacts.

(** ** A concrete rollup with a prover *)
Module ProverDemo.
Import StakingFacts ProverIncentives ProverFacts.

#[export] Instance root_eq_dec : EqDecision (@Root ChainDemo.pair_root).
Proof. unfold Root. cbn. apply _. Defined.

#[export] Instance proof_gas : ProofGas :=
  {| fixed_gas_to_charge_per_proof := [1; 1]; gas_to_charge_per_proof_byte := [1; 1]; PERCENT_BASE_FEE_TO_BURN := 10 |}.

#[local] Existing Instances test_spec ChainDemo.pair_root.

Definition slot (n : N) : ChainState.SlotInformation :=
  ChainState.mkSlotInformation [n] (BlockGasInfo.mk [100; 100] [2; 3] [10; 10]) (([n], [n]) : @Root ChainDemo.pair_root).

(** Four slots, each with gas worth 50. *)
Definition chain : ChainState.t :=
  let g := ChainDemo.genesis_state in let k := ChainState.the_kernel g in
  ChainState.mk
    (ChainState.mkKernel (ChainState.next_visible_slot_number k) (ChainState.current_heights k)
       (ChainState.slot_number_history k) (ChainState.accessory_slot_number_history k)
       (ChainState.true_slot_number_history k) (ChainState.true_slot_number_to_rollup_height k)
       (ChainState.true_to_visible_slot_number_history k) (ChainState.true_slot_number k) (ChainState.time k)
       {[1 := slot 1; 2 := slot 2; 3 := slot 3; 4 := slot 4]}
       (ChainState.accessory_pre_state_roots k) (ChainState.block_gas_info k) (ChainState.past_user_state_roots k)
       (ChainState.accessory_past_user_state_roots k))
    (ChainState.the_config g) (ChainState.the_user g).

Definition prover_id : ModuleId := repeat 5 32.

Definition demo_bank : Bank.t :=
  Bank.transferred BankDemo.demo (BankDemo.user 1) (HolderModule prover_id) config_gas_token_id 600.

(** Slot 1 is paid; the user 2 is bonded with 100. *)
Definition demo : t :=
  @mk test_spec ChainDemo.pair_root prover_id {[2 := 100]} (Some [5; 5]) (Some 1) (Some [1; 1]) [] demo_bank chain.

Definition version : ChainState.Version := ChainState.mkVersion 4 4 4.

(** Proofs are the number of their first and last slot. *)
Definition verify (proof commitment : list N) : option AggregatedProofPublicData :=
  match proof with
  | [first; last] =>
      Some (@mkPublicData test_spec ChainDemo.pair_root first last ([1], [1]) ([first], [first]) ([last + 1], [last + 1])
              [first] [last] commitment [])
  | _ => None
  end.

Lemma prover_bank_inv : Bank.inv demo_bank.
Proof. apply BankFacts.inv_transferred; [exact BankDemo.demo_inv|]. vm_compute. discriminate. Qed.

Lemma prover_demo_ready : ready 1 [3] demo.
Proof.
  split; [exact prover_bank_inv|by exists Zk|exists [5; 5], [1; 1]|done|done|vm_compute; discriminate].
  split_and!; [done|done|]. intros price. by apply value_mono.
Qed.
End ProverDemo.

(** ** Properties *)
Module ProverClaims.
Import StakingFacts ProverIncentives ProverFacts.
Section Claims.
Context {Sp : Spec} {Rt : StateRoot} {RootEq : EqDecision Root} {PG : ProofGas}.
Context (verify : list N -> list N -> option AggregatedProofPublicData).
Context (Hburn : PERCENT_BASE_FEE_TO_BURN <= 100).

(** C12: no slot is paid twice. Whatever proofs are submitted, by whomever and on any
    gas meter, and however calls, new slots and fees are interleaved with them: what the
    bank pays out to provers over the whole history is at most the gas of the slots
    between the last claimed one at its start and the last claimed one at its end, each
    counted once; and the account of the module loses no more than these payments and
    the stakes that were given back. *)
Theorem rewards_paid_once {G} `{GasMeterLaws G} (s s' : t) claimed commitment ls
    (Hready : ready claimed commitment s) (Hsteps : steps (G := G) verify s ls s') :
  exists claimed', last_claimed_reward s' = Some claimed' /\ claimed <= claimed' /\
    total_paid ls <= due s' (range_inclusive (claimed + 1) claimed') /\
    held view s + staked view s' <= held view s' + total_paid ls + staked view s.
Proof.
  destruct (steps_spec verify Hburn claimed commitment s ls s' Hsteps Hready) as (c & Hr & Hle & _ & Htot & Ha).
  exists c. split_and!; [apply Hr|done|exact Htot|exact Ha].
Qed.

(** C20: stakes are backed. When the account of the module held, at the start of a
    history, the stakes and what the history pays for proofs, it still holds the stakes
    at its end, and every prover that is still bonded gets its whole stake back. *)
Theorem prover_stakes_backed {G} `{GasMeterLaws G} (s s' : t) claimed commitment ls
    (Hready : ready claimed commitment s) (Hsteps : steps (G := G) verify s ls s')
    (Hheld : staked view s + total_paid ls <= held view s) :
  staked view s' <= held view s' /\
  forall a stake, bonded_provers s' !! a = Some stake ->
    exists s'', Staking.exit_staker (G := unit) (CustomError := Empty_set) registration a (Acc tt s') = (Ok stake, Acc tt s'') /\
      bonded_provers s'' = delete a (bonded_provers s') /\
      gas_of view s'' (HolderUser a) = gas_of view s' (HolderUser a) + stake.
Proof.
  destruct (steps_spec verify Hburn claimed commitment s ls s' Hsteps Hready) as (c & Hr & _ & _ & _ & Ha).
  assert (staked view s' <= held view s') as Hb by (unfold accounted in Ha; lia). split; [done|]. intros a stake Hst.
  assert (stake <= held view s') as Hle.
  { etransitivity; [|exact Hb]. by apply (map_sum_lookup_le (fun _ x => x) (bonded_provers s') a). }
  exists (exited view s' a stake).
  assert (wp (G := unit) (Staking.exit_staker (CustomError := Empty_set) registration a)
            (fun o s'' => o = Ok stake /\ s'' = exited view s' a stake) s') as Hwp.
  { apply (wp_exit_staker view registration); [apply Hr| |].
    - intros [Hc|[Hn|Hlow]] e s''; [by apply unmetered_cannot_fail in Hc| |]; cbn in *; rewrite Hst in *; [done|].
      cbn in Hlow. unfold held in Hle. lia.
    - intros b Hb' _. cbn in Hb'. by assert (b = stake) as -> by congruence. }
  rewrite (wp_unmetered _ _ _ _ Hwp). split_and!; [done|done|].
  unfold exited. rewrite (gas_of_put_stakes view (registration (G := unit))), (gas_of_moved view (registration (G := unit))) by done.
  rewrite bool_decide_eq_false_2 by done. by rewrite bool_decide_eq_true_2 by done.
Qed.

(** C30: an honest prover is paid. A proof that verifies, whose outputs agree with the
    chain and whose last slot is after the last claimed one, earns a prover with a
    sufficient bond the gas of its slots after the last claimed one, less what is
    burned, provided the account of the module holds that much, slot numbers are not
    exhausted and the first slot of the chain is visible. (A slot that was skipped
    below the last claimed one is not paid: [outdated_proof_skips_slot].) *)
Theorem honest_prover_rewarded (s : t) claimed commitment v price proof p o balance pay
    (Hready : ready claimed commitment s) (Hstuck : ~ stuck v claimed s) (Hel : eligible price s p proof balance)
    (Hver : verify proof commitment = Some o) (Hout : output_fault v s o = None)
    (Hnew : N.max (initial_slot_number o) (claimed + 1) <= final_slot_number o)
    (Hpay : BurnRate.apply PERCENT_BASE_FEE_TO_BURN
      (rewards v s (N.max (initial_slot_number o) (claimed + 1)) (final_slot_number o)) = Some pay)
    (Hheld : pay <= held view s) :
  exists s', process_proof verify v price proof p (Acc tt s) = (Ok o, Acc tt s') /\
    last_claimed_reward s' = Some (final_slot_number o) /\ bonded_provers s' = bonded_provers s /\
    gas_of view s' (HolderUser p) = gas_of view s (HolderUser p) + pay.
Proof.
  destruct (wp_result _ _ _ (wp_process_proof verify Hburn v price claimed commitment s p proof Hready))
    as (r & s' & Hrun & Hp). rewrite Hrun.
  inversion Hp as [[Hc|Hs]|e ? Hc|e He Hno|reason b Hel' Hr|o' b Hel' Hv' Ho' Hlt Hf|o' pay' e ? Hv' Hle Hpay' Hlow
    |o' pay' b Hel' Hv' Ho' Hle Hpay' Hheld']; subst; try (by apply unmetered_cannot_fail in Hc).
  - done.
  - by apply Hno in Hel.
  - rewrite Hver in Hr. destruct Hr as [-> [r Hr]]. congruence.
  - assert (o' = o) as -> by congruence. lia.
  - assert (o' = o) as -> by congruence. assert (pay' = pay) as -> by congruence. lia.
  - assert (o' = o) as -> by congruence. assert (pay' = pay) as -> by congruence. eexists. split; [done|].
    split_and!; [done|done|]. rewrite (gas_of_moved view (registration (G := unit))) by done.
    rewrite bool_decide_eq_false_2 by done. by rewrite bool_decide_eq_true_2.
Qed.

(** An outdated proof costs the next prover. A proof of slots that are all paid is
    penalized, but it also marks the next slot as paid: all that is ever paid later is
    covered by the slots after that one. *)
Theorem outdated_proof_skips_slot {G} `{GasMeterLaws G} (s : t) claimed commitment v price proof p o balance
    (Hready : ready claimed commitment s) (Hstuck : ~ stuck v claimed s) (Hel : eligible price s p proof balance)
    (Hver : verify proof commitment = Some o) (Hout : output_fault v s o = None)
    (Hold : final_slot_number o <= claimed) :
  exists s', process_proof verify v price proof p (Acc tt s) = (Err ProverPenalizedNoRevert, Acc tt s') /\
    bank s' = bank s /\ last_claimed_reward s' = Some (claimed + 1) /\
    forall ls s'', steps (G := G) verify s' ls s'' -> exists claimed', last_claimed_reward s'' = Some claimed' /\
      total_paid ls <= due s'' (range_inclusive (claimed + 2) claimed').
Proof.
  destruct (wp_result _ _ _ (wp_process_proof verify Hburn v price claimed commitment s p proof Hready))
    as (r & s' & Hrun & Hp). rewrite Hrun.
  inversion Hp as [[Hc|Hs]|e ? Hc|e He Hno|reason b Hel' Hr|o' b Hel' Hv' Ho' Hlt Hf|o' pay' e ? Hv' Hle Hpay' Hlow
    |o' pay' b Hel' Hv' Ho' Hle Hpay' Hheld']; subst; try (by apply unmetered_cannot_fail in Hc).
  - done.
  - by apply Hno in Hel.
  - rewrite Hver in Hr. destruct Hr as [-> [r Hr]]. congruence.
  - assert (o' = o) as -> by congruence. eexists. split; [done|]. cbn.
    assert (N.max (claimed + 1) (final_slot_number o) = claimed + 1) as Hm by lia. rewrite Hm. split_and!; [done|done|].
    intros ls s'' Hst. eapply (steps_spec _ Hburn (claimed + 1) commitment) in Hst as (c & Hc & _ & _ & Hdue & _).
    + exists c. split; [apply Hc|]. replace (claimed + 2) with (claimed + 1 + 1) by lia. exact Hdue.
    + destruct Hready. by split.
  - assert (o' = o) as -> by congruence. lia.
  - assert (o' = o) as -> by congruence. lia.
Qed.

(** A call that cannot pay for the first read of the state does not fail, it
    panics: the module unwraps the read of the operating mode. *)
Theorem prover_call_out_of_gas_panics {G} `{GasMeter G} (s : t) msg c (g : G) e
    (Hgas : fst (value_get Staking.operating_mode_value (Acc g (chain_state s))) = Err e) :
  fst (call msg c (Acc g s)) = Panic.
Proof.
  unfold call, should_reward_fees, on_chain, Staking.operating_mode, expect, zoom, bind. cbn.
  destruct (value_get Staking.operating_mode_value (Acc g (chain_state s))) as [o a]. cbn in Hgas. by subst o.
Qed.
End Claims.

Import ProverDemo.
#[local] Existing Instances test_spec ChainDemo.pair_root.

Lemma burn_ok : @PERCENT_BASE_FEE_TO_BURN proof_gas <= 100.
Proof. done. Qed.

Definition run (proof : list N) : outcome ProcessProofError AggregatedProofPublicData * t :=
  let '(o, a) := process_proof (G := unit) verify version [1; 1] proof 2 (Acc tt demo) in (o, store a).

(** A payment for the slots 2 and 3. *)
Lemma demo_steps : steps (G := unit) verify demo [90] (snd (run [2; 3])).
Proof.
  destruct (process_proof (G := unit) verify version [1; 1] [2; 3] 2 (Acc tt demo)) as [o a] eqn:Hp.
  assert (Hs : snd (run [2; 3]) = store a) by (unfold run; by rewrite Hp).
  assert (Ho : bool_decide (is_Some (match fst (run [2; 3]) with Ok o => Some o | _ => None end)) = true) by (by vm_compute).
  unfold run in Ho. rewrite Hp in Ho. destruct o as [o|e|]; [|discriminate Ho..].
  assert (Hpay : received demo (snd (run [2; 3])) 2 = 90) by (by vm_compute). rewrite <- Hpay, Hs.
  eapply steps_step; [|apply steps_refl]. by eapply (step_paid (G := unit) verify demo version [1; 1] [2; 3] 2 tt o a).
Qed.

(** 90 of the 100 that slots 2 and 3 are worth are paid. *)
Lemma rewards_paid_once_witness :
  exists claimed', last_claimed_reward (snd (run [2; 3])) = Some claimed' /\
    total_paid [90] <= due (snd (run [2; 3])) (range_inclusive 2 claimed').
Proof.
  destruct (rewards_paid_once verify burn_ok demo (snd (run [2; 3])) 1 [3] [90] prover_demo_ready demo_steps)
    as (c & Hc & _ & Hdue & _).
  exists c. split; [exact Hc|exact Hdue].
Defined.

Lemma prover_stakes_backed_witness :
  exists s'', Staking.exit_staker (G := unit) (CustomError := Empty_set) registration 2 (Acc tt (snd (run [2; 3]))) =
      (Ok 100, Acc tt s'') /\ bonded_provers s'' = delete 2 (bonded_provers (snd (run [2; 3]))).
Proof.
  destruct (prover_stakes_backed verify burn_ok demo (snd (run [2; 3])) 1 [3] [90] prover_demo_ready demo_steps)
    as [_ Hexit].
  - vm_compute. discriminate.
  - destruct (Hexit 2 100) as (s'' & H1 & H2 & _); [vm_compute; reflexivity|]. exists s''. split; [exact H1|exact H2].
Defined.

Lemma honest_prover_rewarded_witness :
  exists o s', process_proof verify version [1; 1] [2; 3] 2 (Acc tt demo) = (Ok o, Acc tt s') /\
    last_claimed_reward s' = Some 3 /\ gas_of view s' (BankDemo.user 2) = gas_of view demo (BankDemo.user 2) + 90.
Proof.
  destruct (honest_prover_rewarded verify burn_ok demo 1 [3] version [1; 1] [2; 3] 2
    (@mkPublicData test_spec ChainDemo.pair_root 2 3 ([1], [1]) ([2], [2]) ([4], [4]) [2] [3] [3] []) 100 90)
    as (s' & H1 & H2 & _ & H4).
  - exact prover_demo_ready.
  - intros [Hs|Hs]; [by vm_compute in Hs|vm_compute in Hs; discriminate].
  - split_and!; [reflexivity|reflexivity|exists [5; 5]; split; [reflexivity|vm_compute; discriminate]|vm_compute; discriminate].
  - reflexivity.
  - vm_compute. reflexivity.
  - vm_compute. discriminate.
  - vm_compute. reflexivity.
  - vm_compute. discriminate.
  - eexists _, s'. split; [exact H1|]. split; [exact H2|exact H4].
Defined.

Lemma outdated_proof_skips_slot_witness :
  exists s', process_proof verify version [1; 1] [1; 1] 2 (Acc tt demo) = (Err ProverPenalizedNoRevert, Acc tt s') /\
    last_claimed_reward s' = Some 2.
Proof.
  destruct (outdated_proof_skips_slot (G := unit) verify burn_ok demo 1 [3] version [1; 1] [1; 1] 2
    (@mkPublicData test_spec ChainDemo.pair_root 1 1 ([1], [1]) ([1], [1]) ([2], [2]) [1] [1] [3] []) 100)
    as (s' & H1 & _ & H3 & _).
  - exact prover_demo_ready.
  - intros [Hs|Hs]; [by vm_compute in Hs|vm_compute in Hs; discriminate].
  - split_and!; [reflexivity|reflexivity|exists [5; 5]; split; [reflexivity|vm_compute; discriminate]|vm_compute; discriminate].
  - reflexivity.
  - vm_compute. reflexivity.
  - vm_compute. discriminate.
  - exists s'. split; [exact H1|exact H3].
Defined.

Lemma prover_call_out_of_gas_panics_witness :
  fst (call (@Exit) (BankDemo.demo_context 2) (Acc (BasicGasMeter.new_with_funds_and_gas 0 [0; 0] [1; 1]) demo)) = Panic.
Proof. eapply prover_call_out_of_gas_panics. vm_compute. reflexivity. Defined.
End ProverClaims.
