(* ===== verification/AttesterIncentives.v ===== *)
(** * The attester incentives module

    module-implementations/sov-attester-incentives: in an optimistic rollup,
    attesters stake gas tokens and attest the transitions of slots; challengers
    stake and prove that an attested transition is wrong.

    - registration/mod.rs: the implementation of [StakeRegistration] for attesters
      and for challengers;
    - registration/attester.rs, registration/challenger.rs, lib.rs, genesis.rs: the
      call messages and genesis;
    - helpers.rs, capabilities.rs: [process_attestation], [process_challenge] and
      what they check.

    Parameters: the verifier of the inner zkVM, the opening of a storage proof
    ([Storage::open_proof]), the borsh decoding of an attestation, and the storage
    key of a bonded attester. *)

From Stdlib Require Import NArith Lia.
From stdpp Require Import base numbers gmap strings option list.
From S2P Require Import Prelude Ints Gas StateAccess GasPrice Bank Capabilities ChainState Staking ProverIncentives.

Module AttesterIncentives.
Section AttesterIncentives.
Context {Sp : Spec} {Rt : StateRoot} {RootEq : EqDecision Root} {PG : ProofGas}.

(** A storage proof. *)
Context {StorageProof : Type}.

(** ** Data *)

Record UnbondingInfo : Type := mkUnbonding { unbonding_initiated_height : N; unbonding_amount : N }.

(** [ProofOfBond] and [Attestation], state_machine/optimistic.rs *)
Record ProofOfBond : Type := mkProofOfBond { claimed_slot_number : N; bond_proof : StorageProof }.

Record Attestation : Type := mkAttestation {
  att_initial_state_root : Root;
  att_slot_hash : list N;
  att_post_state_root : Root;
  proof_of_bond : ProofOfBond
}.

(** [StateTransitionPublicData], zk/mod.rs *)
Record StateTransitionPublicData : Type := mkTransitionData {
  td_initial_state_root : Root;
  td_final_state_root : Root;
  td_slot_hash : list N;
  td_prover_address : Address
}.

Inductive CallMessage : Type :=
| RegisterAttester (bond_amount : N)
| BeginExitAttester
| ExitAttester
| RegisterChallenger (bond_amount : N)
| ExitChallenger
| DepositAttester (amount : N).

Inductive SlashingReason : Type :=
| TransitionNotFound
| TransitionInvalid
| InvalidInitialHash
| InvalidZkProof
| NoInvalidTransition.

(** The events that are emitted. *)
Inductive Event : Type :=
| RegisteredAttester (amount : N)
| RegisteredChallenger (amount : N)
| ExitedAttester (amount_withdrawn : N)
| ExitedChallenger (amount_withdrawn : N).

Inductive CustomError : Type :=
| AttesterIsUnbonding (a : Address)
| UnbondingNotFinalized (a : Address)
| AttesterIsNotUnbonding (a : Address).

Definition RegistryError : Type := RegistrationError CustomError.

Inductive CallError : Type := WrongMode | Registry (e : RegistryError).

Inductive ProcessAttestationErrors : Type :=
| InvalidAttestationFormat
| AttesterSlashedNoRevert (reason : SlashingReason)
| AttesterNotBonded
| InvalidBondingProof
| InvalidBondFormat
| InvalidTransitionInvariant
| AttestationRewardTransferFailure (e : Bank.TransferTokenError)
| AttestationStateAccessError (e : StateAccessorError)
| AttestationInvalidOperatingMode.

Inductive ProcessChallengeErrors : Type :=
| ChallengerSlashedNoRevert (reason : SlashingReason)
| ChallengerNotBonded
| ChallengeRewardTransferFailure (e : Bank.TransferTokenError)
| ChallengeStateAccessError (e : StateAccessorError)
| ChallengeInvalidOperatingMode.

Inductive CheckInitialHashStatus : Type := InitialHashValid | InitialHashSlash.
Inductive CheckTransitionStatus : Type :=
| TransitionIsValid
| SlashedNoHistoricalTransition
| SlashInvalidateWrongHash.

(** The settings that only genesis writes are grouped in [settings]. *)
Record settings : Type := mkSettings {
  rollup_finality_period : option N;
  minimum_attester_bond : option (list N);
  minimum_challenger_bond : option (list N);
  light_client_finalized_height : option N
}.

Record t : Type := mk {
  id : ModuleId;
  the_settings : settings;
  bonded_attesters : gmap Address N;
  unbonding_attesters : gmap Address UnbondingInfo;
  maximum_attested_height : option N;
  bad_transition_pool : gmap N N;
  bonded_challengers : gmap Address N;
  events : list Event;
  bank : Bank.t;
  chain_state : ChainState.t
}.

Definition put_settings (c : settings) (s : t) : t :=
  mk (id s) c (bonded_attesters s) (unbonding_attesters s) (maximum_attested_height s) (bad_transition_pool s)
    (bonded_challengers s) (events s) (bank s) (chain_state s).
Definition put_attesters (m : gmap Address N) (s : t) : t :=
  mk (id s) (the_settings s) m (unbonding_attesters s) (maximum_attested_height s) (bad_transition_pool s)
    (bonded_challengers s) (events s) (bank s) (chain_state s).
Definition put_unbonding (m : gmap Address UnbondingInfo) (s : t) : t :=
  mk (id s) (the_settings s) (bonded_attesters s) m (maximum_attested_height s) (bad_transition_pool s)
    (bonded_challengers s) (events s) (bank s) (chain_state s).
Definition put_attested (v : option N) (s : t) : t :=
  mk (id s) (the_settings s) (bonded_attesters s) (unbonding_attesters s) v (bad_transition_pool s)
    (bonded_challengers s) (events s) (bank s) (chain_state s).
Definition put_pool (m : gmap N N) (s : t) : t :=
  mk (id s) (the_settings s) (bonded_attesters s) (unbonding_attesters s) (maximum_attested_height s) m
    (bonded_challengers s) (events s) (bank s) (chain_state s).
Definition put_challengers (m : gmap Address N) (s : t) : t :=
  mk (id s) (the_settings s) (bonded_attesters s) (unbonding_attesters s) (maximum_attested_height s)
    (bad_transition_pool s) m (events s) (bank s) (chain_state s).
Definition put_bank (b : Bank.t) (s : t) : t :=
  mk (id s) (the_settings s) (bonded_attesters s) (unbonding_attesters s) (maximum_attested_height s)
    (bad_transition_pool s) (bonded_challengers s) (events s) b (chain_state s).
Definition put_chain (c : ChainState.t) (s : t) : t :=
  mk (id s) (the_settings s) (bonded_attesters s) (unbonding_attesters s) (maximum_attested_height s)
    (bad_transition_pool s) (bonded_challengers s) (events s) (bank s) c.

Definition finality_value : StateValue t N :=
  mkStateValue "sov_attester_incentives/AttesterIncentives/rollup_finality_period" User
    (fun s => rollup_finality_period (the_settings s))
    (fun v s => let c := the_settings s in
       put_settings (mkSettings v (minimum_attester_bond c) (minimum_challenger_bond c) (light_client_finalized_height c)) s).
Definition attester_bond_value : StateValue t (list N) :=
  mkStateValue "sov_attester_incentives/AttesterIncentives/minimum_attester_bond" User
    (fun s => minimum_attester_bond (the_settings s))
    (fun v s => let c := the_settings s in
       put_settings (mkSettings (rollup_finality_period c) v (minimum_challenger_bond c) (light_client_finalized_height c)) s).
Definition challenger_bond_value : StateValue t (list N) :=
  mkStateValue "sov_attester_incentives/AttesterIncentives/minimum_challenger_bond" User
    (fun s => minimum_challenger_bond (the_settings s))
    (fun v s => let c := the_settings s in
       put_settings (mkSettings (rollup_finality_period c) (minimum_attester_bond c) v (light_client_finalized_height c)) s).
Definition finalized_value : StateValue t N :=
  mkStateValue "sov_attester_incentives/AttesterIncentives/light_client_finalized_height" User
    (fun s => light_client_finalized_height (the_settings s))
    (fun v s => let c := the_settings s in
       put_settings (mkSettings (rollup_finality_period c) (minimum_attester_bond c) (minimum_challenger_bond c) v) s).
Definition attesters_map : StateMap t Address N :=
  mkStateMap "sov_attester_incentives/AttesterIncentives/bonded_attesters" User bonded_attesters put_attesters.
Definition unbonding_map : StateMap t Address UnbondingInfo :=
  mkStateMap "sov_attester_incentives/AttesterIncentives/unbonding_attesters" User unbonding_attesters put_unbonding.
Definition attested_value : StateValue t N :=
  mkStateValue "sov_attester_incentives/AttesterIncentives/maximum_attested_height" User maximum_attested_height put_attested.
Definition pool_map : StateMap t N N :=
  mkStateMap "sov_attester_incentives/AttesterIncentives/bad_transition_pool" User bad_transition_pool put_pool.
Definition challengers_map : StateMap t Address N :=
  mkStateMap "sov_attester_incentives/AttesterIncentives/bonded_challengers" User bonded_challengers put_challengers.

Section Operations.
Context {G : Type} `{GasMeter G}.

Definition on_bank {E A} (m : M (acc G Bank.t) E A) : M (acc G t) E A := zoom bank put_bank m.
Definition on_chain {E A} (m : M (acc G ChainState.t) E A) : M (acc G t) E A := zoom chain_state put_chain m.

Definition emit_event {E} (e : Event) : M (acc G t) E unit :=
  modify (fun s => mk (id s) (the_settings s) (bonded_attesters s) (unbonding_attesters s) (maximum_attested_height s)
    (bad_transition_pool s) (bonded_challengers s) (events s ++ [e]) (bank s) (chain_state s)).

(** ** registration/mod.rs: the methods of [Staker], over one of the two sets *)

Definition transfer_bond_from_staker (address : Address) (amount : N) : M (acc G t) Bank.TransferTokenError unit :=
  let! self_id := gets id in
  on_bank (Bank.transfer_from (HolderUser address) (HolderModule self_id) (Staking.gas_coins amount)).

Definition transfer_bond_to_staker (address : Address) (amount : N) : M (acc G t) Bank.TransferTokenError unit :=
  let! self_id := gets id in
  on_bank (Bank.transfer_from (HolderModule self_id) (HolderUser address) (Staking.gas_coins amount)).

Definition staker (bonded_stakers : StateMap t Address N) : Staking.StakeRegistration G t :=
  Staking.mkRegistration
    (fun address => let! bond := map_get bonded_stakers address in ret ((fun b => (address, b)) <$> bond))
    (fun _ rollup_address amount => map_set bonded_stakers rollup_address amount)
    transfer_bond_from_staker transfer_bond_to_staker
    (fun address => map_delete bonded_stakers address).

Definition new_attester : Staking.StakeRegistration G t := staker attesters_map.
Definition new_challenger : Staking.StakeRegistration G t := staker challengers_map.

(** ** registration/attester.rs *)

Definition access {A} (m : M (acc G t) StateAccessorError A) : M (acc G t) RegistryError A := map_err StateAccessorErr m.

Definition register_attester (bond_amount : N) (user_address : Address) : M (acc G t) RegistryError unit :=
  let! unbonding := access (map_get unbonding_map user_address) in
  ensure (negb (bool_decide (is_Some unbonding))) (Custom (AttesterIsUnbonding user_address)) ;;;
  Staking.register_staker new_attester user_address user_address bond_amount ;;;
  emit_event (RegisteredAttester bond_amount).

Definition deposit_attester (amount : N) (attester_address : Address) : M (acc G t) RegistryError unit :=
  let! unbonding := access (map_get unbonding_map attester_address) in
  ensure (negb (bool_decide (is_Some unbonding))) (Custom (AttesterIsUnbonding attester_address)) ;;;
  Staking.deposit_funds new_attester attester_address amount.

Definition begin_exit_attester (context : Context Sp) : M (acc G t) RegistryError unit :=
  let! bond := access (map_get attesters_map (sender context)) in
  match bond with
  | Some bond =>
      let! finalized_height := access (value_get finalized_value) in
      let! finalized_height := expect_some finalized_height in
      let! _ := access (map_remove attesters_map (sender context)) in
      access (map_set unbonding_map (sender context) (mkUnbonding finalized_height bond))
  | None => ret tt
  end.

(** helpers.rs *)
Definition transfer_tokens_to_sender (sender : Address) (amount : N) : M (acc G t) Bank.TransferTokenError unit :=
  let! self_id := gets id in
  on_bank (Bank.transfer_from (HolderModule self_id) (HolderUser sender) (Staking.gas_coins amount)).

Definition exit_attester (context : Context Sp) : M (acc G t) RegistryError unit :=
  let! unbonding_info := access (map_get unbonding_map (sender context)) in
  match unbonding_info with
  | Some unbonding_info =>
      let! curr_height := access (value_get finalized_value) in
      let! curr_height := expect_some curr_height in
      let! finality_period := access (value_get finality_value) in
      let! finality_period := expect_some finality_period in
      ensure (negb (curr_height <? saturating_add u64_max (unbonding_initiated_height unbonding_info) finality_period))
        (Custom (UnbondingNotFinalized (sender context))) ;;;
      map_err (fun _ => InsufficientFundsToRefundStakedAmount (sender context) (unbonding_amount unbonding_info))
        (transfer_tokens_to_sender (sender context) (unbonding_amount unbonding_info)) ;;;
      let! _ := access (map_remove attesters_map (sender context)) in
      let! _ := access (map_remove unbonding_map (sender context)) in
      emit_event (ExitedAttester (unbonding_amount unbonding_info))
  | None => throw (Custom (AttesterIsNotUnbonding (sender context)))
  end.

(** ** registration/challenger.rs *)

Definition register_challenger (bond_amount : N) (user_address : Address) : M (acc G t) RegistryError unit :=
  Staking.register_staker new_challenger user_address user_address bond_amount ;;;
  emit_event (RegisteredChallenger bond_amount).

Definition exit_challenger (context : Context Sp) : M (acc G t) RegistryError unit :=
  let! amount_withdrawn := Staking.exit_staker new_challenger (sender context) in
  emit_event (ExitedChallenger amount_withdrawn).

(** ** lib.rs *)

Definition should_reward_fees {E} : M (acc G t) E bool :=
  let! mode := expect (on_chain Staking.operating_mode) in
  ret (bool_decide (mode = Optimistic)).

Definition call (msg : CallMessage) (context : Context Sp) : M (acc G t) CallError unit :=
  let! reward := should_reward_fees in
  ensure reward WrongMode ;;;
  map_err Registry
    match msg with
    | RegisterAttester bond_amount => register_attester bond_amount (sender context)
    | DepositAttester amount => deposit_attester amount (sender context)
    | BeginExitAttester => begin_exit_attester context
    | ExitAttester => exit_attester context
    | RegisterChallenger bond_amount => register_challenger bond_amount (sender context)
    | ExitChallenger => exit_challenger context
    end.

(** ** genesis.rs *)
Record AttesterIncentivesConfig : Type := mkConfig {
  cfg_minimum_attester_bond : list N;
  cfg_minimum_challenger_bond : list N;
  initial_attesters : list (Address * N);
  cfg_rollup_finality_period : N;
  cfg_maximum_attested_height : N;
  cfg_light_client_finalized_height : N
}.

Inductive GenesisError : Type := NoAttesters | GenesisAccess (e : StateAccessorError) | GenesisRegistry (e : RegistryError).

Definition init_module (config : AttesterIncentivesConfig) : M (acc G t) GenesisError unit :=
  ensure (match initial_attesters config with [] => false | _ => true end) NoAttesters ;;;
  map_err GenesisAccess (value_set attester_bond_value (BlockGasInfo.zero (cfg_minimum_attester_bond config))) ;;;
  map_err GenesisAccess (value_set challenger_bond_value (BlockGasInfo.zero (cfg_minimum_challenger_bond config))) ;;;
  map_err GenesisAccess (value_set finality_value (cfg_rollup_finality_period config)) ;;;
  for_each (fun '(attester, bond) => map_err GenesisRegistry (register_attester bond attester)) (initial_attesters config) ;;;
  map_err GenesisAccess (value_set attester_bond_value (cfg_minimum_attester_bond config)) ;;;
  map_err GenesisAccess (value_set challenger_bond_value (cfg_minimum_challenger_bond config)) ;;;
  map_err GenesisAccess (value_set attested_value (cfg_maximum_attested_height config)) ;;;
  map_err GenesisAccess (value_set finalized_value (cfg_light_client_finalized_height config)).

(** ** helpers.rs *)

(** [Storage::open_proof]: the key and the value a proof is about, if it is valid. *)
Context (open_proof : Root -> StorageProof -> option (list N * option (list N))).
(** [SlotKey::new(prefix, address, codec)] of [bonded_attesters]. *)
Context (attester_key : Address -> list N).
(** [SerializedAttestation::to_attestation] *)
Context (to_attestation : list N -> option Attestation).
(** [Verifier::verify] of the inner zkVM *)
Context (verify : list N -> list N -> option StateTransitionPublicData).
Context (v : ChainState.Version) (gas_price : list N).

(** [None] is an error. *)
Definition verify_proof (state_root : Root) (proof : StorageProof) (expected_key : Address) : option (option (list N)) :=
  let? (storage_key, storage_value) := open_proof state_root proof in
  if bool_decide (storage_key = attester_key expected_key) then Some storage_value else None.

(** Borsh: the first 16 bytes, little endian. *)
Definition deserialize_amount (bytes : list N) : option N :=
  if 16 <=? len bytes then Some (foldr (fun b acc => b + 256 * acc) 0 (take 16 bytes)) else None.

Definition check_initial_hash (claimed_slot_number : N) (attestation : Attestation)
  : M (acc G t) StateAccessorError CheckInitialHashStatus :=
  let! previous_height := expect_some (checked_sub claimed_slot_number 1) in
  let! claimed_root := on_chain (Staking.root_at_height v previous_height) in
  match claimed_root with
  | None => ret InitialHashSlash
  | Some claimed_root =>
      if negb (bool_decide (claimed_root = att_initial_state_root attestation)) then ret InitialHashSlash
      else ret InitialHashValid
  end.

Definition slash_attester (user : Address) : M (acc G t) StateAccessorError N :=
  let! _ := map_remove unbonding_map user in
  let! reward := map_get attesters_map user in
  let! _ := map_remove attesters_map user in
  ret (default 0 reward).

Definition slash_and_invalidate_attestation (attester : Address) (height : N) : M (acc G t) StateAccessorError unit :=
  let! reward := slash_attester attester in
  let! curr_reward_value := map_get pool_map height in
  map_set pool_map height (Amount.saturating_add (default 0 curr_reward_value) reward).

Definition att_access {A} (m : M (acc G t) StateAccessorError A) : M (acc G t) ProcessAttestationErrors A :=
  map_err AttestationStateAccessError m.

Definition check_bonding_proof (sender : Address) (attestation : Attestation) : M (acc G t) ProcessAttestationErrors unit :=
  let claimed := claimed_slot_number (proof_of_bond attestation) in
  ensure (negb (claimed =? 0)) InvalidTransitionInvariant ;;;
  let! bonding_root := att_access (on_chain (Staking.root_at_height v claimed)) in
  let! bonding_root := ok_or bonding_root InvalidBondingProof in
  let! bond_opt := ok_or (verify_proof bonding_root (bond_proof (proof_of_bond attestation)) sender) InvalidBondingProof in
  let! bond := ok_or bond_opt AttesterNotBonded in
  let! bond := ok_or (deserialize_amount bond) InvalidBondFormat in
  let! minimum_bond := att_access (value_get attester_bond_value) in
  let! minimum_bond := expect_some minimum_bond in
  ensure (negb (bond <? GasArray.value minimum_bond gas_price)) AttesterNotBonded.

Definition check_transition (claimed_slot_number : N) (attestation : Attestation)
  : M (acc G t) StateAccessorError CheckTransitionStatus :=
  let! saved_transition := on_chain (Staking.get_historical_transition_dangerous v claimed_slot_number) in
  match saved_transition with
  | Some saved_transition =>
      if negb (bool_decide (ChainState.slot_hash (ChainState.slot saved_transition) = att_slot_hash attestation))
      then ret SlashInvalidateWrongHash
      else if negb (bool_decide (ChainState.post_state_root saved_transition = att_post_state_root attestation))
      then ret SlashInvalidateWrongHash
      else ret TransitionIsValid
  | None => ret SlashedNoHistoricalTransition
  end.

Definition check_challenge_outputs_against_transition (public_outputs : StateTransitionPublicData) (height : N)
  : M (acc G t) StateAccessorError (option SlashingReason) :=
  let! transition := on_chain (Staking.slot_at_height v height) in
  match transition with
  | None => ret (Some TransitionInvalid)
  | Some transition =>
      if negb (bool_decide (td_initial_state_root public_outputs = ChainState.prev_state_root transition))
      then ret (Some InvalidInitialHash)
      else if negb (bool_decide (td_slot_hash public_outputs = ChainState.slot_hash transition))
      then ret (Some TransitionInvalid)
      else ret None
  end.

Definition slash_challenger (sender : Address) : M (acc G t) StateAccessorError unit :=
  let! _ := map_remove challengers_map sender in
  ret tt.

(** ** capabilities.rs *)

(** The reward of an attester. *)
Definition reward_attester (sender : Address) (new_height_to_attest : N) : M (acc G t) ProcessAttestationErrors unit :=
  let! transition := att_access (on_chain (Staking.slot_at_height v new_height_to_attest)) in
  let! transition := expect_some transition in
  let reward := ProverIncentives.slot_reward transition in
  att_access (value_set attested_value new_height_to_attest) ;;;
  let! amount := expect_some (BurnRate.apply PERCENT_BASE_FEE_TO_BURN reward) in
  map_err AttestationRewardTransferFailure (transfer_tokens_to_sender sender amount).

Definition process_attestation (sender : Address) (serialized_attestation : list N)
  : M (acc G t) ProcessAttestationErrors Attestation :=
  let! reward := should_reward_fees in
  ensure reward AttestationInvalidOperatingMode ;;;
  let! attestation := ok_or (to_attestation serialized_attestation) InvalidAttestationFormat in
  let claimed := claimed_slot_number (proof_of_bond attestation) in
  ensure (negb (claimed =? 0)) InvalidTransitionInvariant ;;;
  let! bonded := att_access (map_get attesters_map sender) in
  ensure (bool_decide (is_Some bonded)) AttesterNotBonded ;;;
  check_bonding_proof sender attestation ;;;
  let! last_attested_height := att_access (value_get attested_value) in
  let! last_attested_height := expect_some last_attested_height in
  let! current_finalized_height := att_access (value_get finalized_value) in
  let! current_finalized_height := expect_some current_finalized_height in
  let! finality := att_access (value_get finality_value) in
  let! finality := expect_some finality in
  assert (current_finalized_height <=? last_attested_height) ;;;
  let! new_height_to_attest := expect_some (checked_add u64_max last_attested_height 1) in
  let min_height := saturating_sub new_height_to_attest finality in
  ensure (negb (claimed <? min_height)) InvalidTransitionInvariant ;;;
  ensure (negb (new_height_to_attest <? claimed)) InvalidTransitionInvariant ;;;
  let! check_initial_hash_status := att_access (check_initial_hash claimed attestation) in
  match check_initial_hash_status with
  | InitialHashSlash =>
      let! _ := att_access (slash_attester sender) in
      throw (AttesterSlashedNoRevert InvalidInitialHash)
  | InitialHashValid =>
  let! check_transition_status := att_access (check_transition claimed attestation) in
  match check_transition_status with
  | SlashedNoHistoricalTransition =>
      let! _ := att_access (slash_attester sender) in
      throw (AttesterSlashedNoRevert TransitionNotFound)
  | SlashInvalidateWrongHash =>
      att_access (slash_and_invalidate_attestation sender claimed) ;;;
      throw (AttesterSlashedNoRevert TransitionInvalid)
  | TransitionIsValid =>
      (if claimed =? new_height_to_attest then reward_attester sender new_height_to_attest else ret tt) ;;;
      ret attestation
  end end.

Definition ch_access {A} (m : M (acc G t) StateAccessorError A) : M (acc G t) ProcessChallengeErrors A :=
  map_err ChallengeStateAccessError m.

Definition slash_with {A} (sender : Address) (reason : SlashingReason) : M (acc G t) ProcessChallengeErrors A :=
  ch_access (slash_challenger sender) ;;; throw (ChallengerSlashedNoRevert reason).

Definition process_challenge (sender : Address) (proof : list N) (rollup_height : N)
  : M (acc G t) ProcessChallengeErrors StateTransitionPublicData :=
  let! reward := should_reward_fees in
  ensure reward ChallengeInvalidOperatingMode ;;;
  let! old_balance := ch_access (map_get challengers_map sender) in
  let! old_balance := ok_or old_balance ChallengerNotBonded in
  let! minimum_bond := ch_access (value_get challenger_bond_value) in
  let! minimum_bond := expect_some minimum_bond in
  ensure (negb (old_balance <? GasArray.value minimum_bond gas_price)) ChallengerNotBonded ;;;
  let! code_commitment := ch_access (on_chain (value_get Staking.inner_code_commitment_value)) in
  let! code_commitment := expect_some code_commitment in
  let! attestation_reward := ch_access (map_get pool_map rollup_height) in
  match attestation_reward with
  | None => slash_with sender NoInvalidTransition
  | Some attestation_reward =>
  match verify proof code_commitment with
  | Some public_output =>
      let! check := ch_access (check_challenge_outputs_against_transition public_output rollup_height) in
      match check with
      | Some slashing_reason => slash_with sender slashing_reason
      | None =>
          let! amount := expect_some (BurnRate.apply PERCENT_BASE_FEE_TO_BURN attestation_reward) in
          map_err ChallengeRewardTransferFailure (transfer_tokens_to_sender sender amount) ;;;
          let! _ := ch_access (map_remove pool_map rollup_height) in
          ret public_output
      end
  | None => slash_with sender InvalidZkProof
  end end.
End Operations.
End AttesterIncentives.
End AttesterIncentives.
