(* ===== verification/AttesterProperties.v ===== *)
(** * Attesters and challengers: what the module promises

    - [StakingFacts.StakeLaws] for attesters and for challengers;
    - what calls, attestations and challenges do when they succeed or slash;
    - over histories: only true attestations are rewarded, one for each height and in
      order; the account of the module covers its obligations; and attesters that
      begin to exit are locked. *)

From Stdlib Require Import NArith Lia.
From stdpp Require Import base numbers gmap strings option list.
From S2P Require Import Prelude Ints Gas StateAccess GasPrice Bank Capabilities ChainState Staking ProverIncentives ProverProperties AttesterIncentives.

Module AttesterFacts.
Import StakingFacts AttesterIncentives.
Section Facts.
Context {Sp : Spec} {Rt : StateRoot} {RootEq : EqDecision Root} {PG : ProofGas} {StorageProof : Type}.
Context {G : Type} `{GasMeterLaws G}.

(** ** The implementations of the trait *)

Definition attester_view : StakeView := mkView bonded_attesters put_attesters bank put_bank id.
Definition challenger_view : StakeView := mkView bonded_challengers put_challengers bank put_bank id.

Lemma wp_bank_move {E} (f : Bank.TransferTokenError -> E) from to amt (Q : outcome E unit -> t -> Prop) s :
  Bank.inv (bank s) ->
  (can_fail -> forall e b, Q (Err (f e)) (put_bank b s)) ->
  (gas_of attester_view s from < amt -> forall e, Q (Err (f e)) s) ->
  (amt <= gas_of attester_view s from -> Q (Ok tt) (moved attester_view s from to amt)) ->
  wp (map_err f (on_bank (G := G) (Bank.transfer_from from to (Staking.gas_coins amt)))) Q s.
Proof.
  intros Hinv Hf Hlow Hok. unfold on_bank, Bank.transfer_from. do 2 wp_step. apply BankFacts.wp_do_transfer; wp_red; [done| | |done].
  - intros Hc e b _ _. by apply Hf.
  - intros Hlt e. replace (put_bank (bank s) s) with s by (by destruct s). by apply Hlow.
Qed.

Lemma wp_bank_move' from to amt (Q : outcome Bank.TransferTokenError unit -> t -> Prop) s :
  Bank.inv (bank s) ->
  (can_fail -> forall e b, Q (Err e) (put_bank b s)) ->
  (gas_of attester_view s from < amt -> forall e, Q (Err e) s) ->
  (amt <= gas_of attester_view s from -> Q (Ok tt) (moved attester_view s from to amt)) ->
  wp (on_bank (G := G) (Bank.transfer_from from to (Staking.gas_coins amt))) Q s.
Proof.
  intros Hinv Hf Hlow Hok. pose proof (wp_bank_move (fun e => e) from to amt Q s Hinv Hf Hlow Hok) as Hw.
  intros g Hg. specialize (Hw g Hg). by rewrite ProverFacts.map_err_id in Hw.
Qed.

Ltac staker_laws :=
  split; try done; cbn;
  [ intros a Q s Hf Hok; do 2 wp_step; [by auto|]; by wp_step
  | intros a amt Q s Hf Hok; wp_step; [by auto|]; done
  | intros a Q s Hf Hok; wp_step; [by auto|]; done
  | intros a amt Q s Hinv Hf Hlow Hok; unfold transfer_bond_from_staker; do 2 wp_step; wp_red; by apply wp_bank_move'
  | intros a amt Q s Hinv Hf Hlow Hok; unfold transfer_bond_to_staker; do 2 wp_step; wp_red; by apply wp_bank_move' ].

#[export] Instance attester_laws : StakeLaws attester_view (new_attester (G := G)).
Proof. staker_laws. Qed.
#[export] Instance challenger_laws : StakeLaws challenger_view (new_challenger (G := G)).
Proof. staker_laws. Qed.

Lemma wp_at_chain {E A} (m : M (acc G ChainState.t) E A) (Q : outcome E A -> t -> Prop) s :
  wp m (fun o c => c = chain_state s /\ Q o s) (chain_state s) -> wp (on_chain m) Q s.
Proof.
  intros Hm. unfold on_chain. wp_step. eapply wp_mono; [exact Hm|]. intros o c [-> Ho].
  by replace (put_chain (chain_state s) s) with s by (by destruct s).
Qed.

(** ** Obligations *)

Definition total (m : gmap Address N) : N := map_sum (fun _ x => x) m.
Definition unbonding_total (s : t) : N := map_sum (fun _ u => unbonding_amount u) (unbonding_attesters s).
Definition pool_total (s : t) : N := map_sum (fun _ x => x) (bad_transition_pool s).

(** The stakes, the bonds of those who are exiting, and the pool of the challengers. *)
Definition obligations (s : t) : N :=
  total (bonded_attesters s) + unbonding_total s + total (bonded_challengers s) + pool_total s.

Definition holds (s : t) : N := held attester_view s.

(** The account loses what obligations are met, and at most [pays] beyond. *)
Definition accounted (s s' : t) (pays : N) : Prop := holds s + obligations s' <= holds s' + pays + obligations s.

(** What no step changes, and the accounting. *)
Record kept (s s' : t) (pays : N) : Prop := mkKept {
  kept_bank : Bank.inv (bank s');
  kept_settings : the_settings s' = the_settings s;
  kept_chain : chain_state s' = chain_state s;
  kept_accounted : accounted s s' pays;
  kept_id : id s' = id s
}.

(** Every exit in progress began at the finalized height. *)
Definition exits_at (h : N) (s : t) : Prop :=
  forall a u, unbonding_attesters s !! a = Some u -> unbonding_initiated_height u = h.

Lemma kept_refl s : Bank.inv (bank s) -> kept s s 0.
Proof. intros Hb. split; [done..| |done]. unfold accounted. lia. Qed.

Lemma total_insert m a x : total (<[a := x]> m) <= total m + x.
Proof. unfold total. pose proof (map_sum_insert (fun _ x => x) m a x). lia. Qed.

Lemma total_delete m a : total m = default 0 (m !! a) + total (delete a m).
Proof. unfold total. rewrite (map_sum_delete _ m a). unfold opt_val. by destruct (m !! a). Qed.

(** Staking keeps the surplus of the view, hence the accounting. *)
Lemma attester_kept s s' e :
  surplus_kept attester_view s s' -> the_settings s' = the_settings s -> chain_state s' = chain_state s ->
  unbonding_attesters s' = unbonding_attesters s -> bonded_challengers s' = bonded_challengers s ->
  bad_transition_pool s' = bad_transition_pool s ->
  kept s (mk (id s') (the_settings s') (bonded_attesters s') (unbonding_attesters s') (maximum_attested_height s')
    (bad_transition_pool s') (bonded_challengers s') e (bank s') (chain_state s')) 0.
Proof.
  intros (Hb & Hi & Hs) H1 H2 H3 H4 H5. split; [done|done|done| |done].
  unfold accounted, holds, obligations, unbonding_total, pool_total, total, staked in *. cbn in *.
  rewrite H3, H4, H5. change (held attester_view (mk _ _ _ _ _ _ _ _ (bank s') _)) with (held attester_view s'). lia.
Qed.

Lemma challenger_kept s s' e :
  surplus_kept challenger_view s s' -> the_settings s' = the_settings s -> chain_state s' = chain_state s ->
  unbonding_attesters s' = unbonding_attesters s -> bonded_attesters s' = bonded_attesters s ->
  bad_transition_pool s' = bad_transition_pool s ->
  kept s (mk (id s') (the_settings s') (bonded_attesters s') (unbonding_attesters s') (maximum_attested_height s')
    (bad_transition_pool s') (bonded_challengers s') e (bank s') (chain_state s')) 0.
Proof.
  intros (Hb & Hi & Hs) H1 H2 H3 H4 H5. split; [done|done|done| |done].
  unfold accounted, holds, obligations, unbonding_total, pool_total, total, staked in *. cbn in *.
  rewrite H3, H4, H5. change (held attester_view (mk _ _ _ _ _ _ _ _ (bank s') _)) with (held challenger_view s').
  change (held attester_view s) with (held challenger_view s). lia.
Qed.

(** ** Calls *)
Definition finalized (s : t) : option N := light_client_finalized_height (the_settings s).
Definition finality (s : t) : option N := rollup_finality_period (the_settings s).

(** What a call does when it succeeds. *)
Record called (h : N) (s s' : t) : Prop := mkCalled {
  called_kept : kept s s' 0;
  called_attested : maximum_attested_height s' = maximum_attested_height s;
  called_exits : exits_at h s -> exits_at h s';
  called_pool : bad_transition_pool s' = bad_transition_pool s
}.

Ltac fails := intros; discriminate.

Lemma wp_register_attester h amt a s :
  Bank.inv (bank s) ->
  wp (register_attester (G := G) amt a) (fun o s' => o = Ok tt -> called h s s') s.
Proof.
  intros Hb. unfold register_attester, access, emit_event. do 3 wp_step; [done|]. wp_step. wp_step; wp_red; [|done].
  wp_step. apply (wp_register_staker attester_view new_attester); wp_red; [done|fails|]. intros Hs Ha. wp_step. intros _.
  split; [|done|done|done]. apply (attester_kept s (registered attester_view s a amt)); try done.
  by apply (registered_kept attester_view (new_attester (G := G))).
Qed.

Lemma wp_deposit_attester h amt a s :
  Bank.inv (bank s) ->
  wp (deposit_attester (G := G) amt a) (fun o s' => o = Ok tt -> called h s s') s.
Proof.
  intros Hb. unfold deposit_attester, access. do 3 wp_step; [done|]. wp_step. wp_step; wp_red; [|done].
  apply (wp_deposit_funds attester_view new_attester); wp_red; [done|fails|]. intros balance Hs Ha Hu _.
  split; [|done|done|done].
  apply (attester_kept s (deposited attester_view s a balance amt) (events s)); try done.
  by apply (deposited_kept attester_view (new_attester (G := G))).
Qed.

Lemma wp_register_challenger h amt a s :
  Bank.inv (bank s) ->
  wp (register_challenger (G := G) amt a) (fun o s' => o = Ok tt -> called h s s') s.
Proof.
  intros Hb. unfold register_challenger, emit_event. wp_step.
  apply (wp_register_staker challenger_view new_challenger); wp_red; [done|fails|]. intros Hs Ha. wp_step. intros _.
  split; [|done|done|done]. apply (challenger_kept s (registered challenger_view s a amt)); try done.
  by apply (registered_kept challenger_view (new_challenger (G := G))).
Qed.

Lemma wp_exit_challenger h c s :
  Bank.inv (bank s) ->
  wp (exit_challenger (G := G) c) (fun o s' => o = Ok tt -> called h s s') s.
Proof.
  intros Hb. unfold exit_challenger, emit_event. wp_step.
  apply (wp_exit_staker challenger_view new_challenger); wp_red; [done|intros _ e s'; discriminate|]. intros balance Hs Ha.
  wp_step. intros _. split; [|done|done|done]. apply (challenger_kept s (exited challenger_view s (sender c) balance)); try done.
  by apply (exited_kept challenger_view (new_challenger (G := G))).
Qed.

Lemma wp_begin_exit h c s :
  Bank.inv (bank s) -> finalized s = Some h ->
  wp (begin_exit_attester (G := G) c) (fun o s' => o = Ok tt -> called h s s') s.
Proof.
  intros Hb Hh. unfold begin_exit_attester, access. do 3 wp_step; [done|]. cbn [map_read attesters_map].
  destruct (bonded_attesters s !! sender c) as [bond|] eqn:Hbond.
  2: { wp_step. intros _. split; [by apply kept_refl|done|done|done]. }
  do 3 wp_step; [done|]. cbn [val_read finalized_value]. unfold finalized in Hh. rewrite Hh. wp_step. wp_step; wp_red; [|done].
  simplify_eq. do 3 wp_step; [done|]. do 2 wp_step; [done|]. intros _. split; [|done| |done].
  - split; [done|done|done| |done]. unfold accounted, obligations, unbonding_total, pool_total. cbn.
    pose proof (total_delete (bonded_attesters s) (sender c)) as Hd. rewrite Hbond in Hd. cbn in Hd.
    pose proof (map_sum_insert (fun _ u => unbonding_amount u) (unbonding_attesters s) (sender c) (mkUnbonding a bond)) as Hi.
    cbn in Hi. change (holds (put_unbonding _ _)) with (holds s). lia.
  - intros Hx a' u. cbn. destruct (decide (a' = sender c)) as [->|Hne].
    + rewrite lookup_insert_eq. by intros [= <-].
    + rewrite lookup_insert_ne by done. apply Hx.
Qed.

(** An exit also says that the finality period is over. *)
Lemma wp_exit_attester h f c s :
  Bank.inv (bank s) -> finalized s = Some h -> finality s = Some f ->
  wp (exit_attester (G := G) c) (fun o s' => o = Ok tt -> called h s s' /\
    exists u, unbonding_attesters s !! sender c = Some u /\
      saturating_add u64_max (unbonding_initiated_height u) f <= h) s.
Proof.
  intros Hb Hh Hf. unfold exit_attester, access, transfer_tokens_to_sender, emit_event. do 3 wp_step; [done|].
  cbn [map_read unbonding_map]. destruct (unbonding_attesters s !! sender c) as [u|] eqn:Hu; [|by wp_step].
  do 3 wp_step; [done|]. cbn [val_read finalized_value]. unfold finalized in Hh. rewrite Hh. wp_step. wp_step; wp_red; [|done].
  simplify_eq. do 3 wp_step; [done|]. cbn [val_read finality_value]. unfold finality in Hf. rewrite Hf.
  wp_step. wp_step; wp_red; [|done]. simplify_eq. wp_step. wp_step; wp_red; checked_simpl; [|done].
  wp_step. do 3 wp_step. apply wp_bank_move'; wp_red; [done|fails|fails|]. intros Hamt.
  do 3 wp_step; [done|]. do 3 wp_step; [done|]. wp_step. intros _. split; [|by exists u].
  split; [|done| |done].
  - split; [by apply BankFacts.inv_transferred|done|done| |done].
    unfold accounted, obligations, unbonding_total, pool_total. cbn.
    pose proof (total_delete (bonded_attesters s) (sender c)) as Hd.
    pose proof (map_sum_delete (fun _ u => unbonding_amount u) (unbonding_attesters s) (sender c)) as Hi.
    unfold opt_val in Hi. rewrite Hu in Hi.
    assert (holds (moved attester_view s (account attester_view s) (HolderUser (sender c)) (unbonding_amount u)) =
      holds s - unbonding_amount u) as Hm.
    { unfold holds, held. rewrite (gas_of_moved attester_view (new_attester (G := G))) by done. by rewrite bool_decide_eq_true_2. }
    change (gas_of attester_view s (HolderModule (id s))) with (holds s) in Hamt.
    match goal with |- context [holds (mk ?x1 ?x2 ?x3 ?x4 ?x5 ?x6 ?x7 ?x8 ?x9 ?x10)] =>
      change (holds (mk x1 x2 x3 x4 x5 x6 x7 x8 x9 x10)) with
        (holds (moved attester_view s (account attester_view s) (HolderUser (sender c)) (unbonding_amount u))) end.
    lia.
  - intros Hx a' u'. cbn. intros Hl. apply (Hx a' u'). by eapply lookup_delete_Some in Hl as [_ ?].
Qed.

Lemma wp_attester_call h f msg c s :
  Bank.inv (bank s) -> finalized s = Some h -> finality s = Some f ->
  wp (call (G := G) msg c) (fun o s' => o = Ok tt -> called h s s' /\
    (msg = ExitAttester -> exists u, unbonding_attesters s !! sender c = Some u /\
      saturating_add u64_max (unbonding_initiated_height u) f <= h)) s.
Proof.
  intros Hb Hh Hf. unfold call, should_reward_fees. do 3 wp_step.
  apply wp_at_chain, ChainReads.wp_operating_mode; wp_red; [done|].
  destruct (ChainState.operating_mode _) as [mode|]; (split; [done|]); [|done]. do 2 wp_step. wp_step; wp_red; [|done].
  wp_step. assert (forall m : M (acc G t) RegistryError unit, msg <> ExitAttester ->
    wp m (fun o s' => o = Ok tt -> called h s s') s ->
    wp m (on_err Registry (fun o s' => o = Ok tt -> called h s s' /\
      (msg = ExitAttester -> exists u, unbonding_attesters s !! sender c = Some u /\
        saturating_add u64_max (unbonding_initiated_height u) f <= h))) s) as Hw.
  { intros m Hne Hm. eapply wp_mono; [exact Hm|]. intros [[]|e|] s' Ho; cbn in *; [|done..]. intros _. split; [by apply Ho|done]. }
  destruct msg.
  - apply Hw; [done|]. by apply wp_register_attester.
  - apply Hw; [done|]. by apply wp_begin_exit.
  - eapply wp_mono; [by apply (wp_exit_attester h f)|]. intros [[]|e|] s' Ho; cbn in *; [|done..]. intros _.
    destruct (Ho eq_refl). by split.
  - apply Hw; [done|]. by apply wp_register_challenger.
  - apply Hw; [done|]. by apply wp_exit_challenger.
  - apply Hw; [done|]. by apply wp_deposit_attester.
Qed.

(** ** Attestations *)
Section Attestations.
Context (open_proof : Root -> StorageProof -> option (list N * option (list N))).
Context (attester_key : Address -> list N) (to_attestation : list N -> option (Attestation (StorageProof := StorageProof))).
Context (v : ChainState.Version) (gas_price : list N).

Definition claimed (att : Attestation (StorageProof := StorageProof)) : N := claimed_slot_number (proof_of_bond att).

(** The attestation agrees with the chain. *)
Definition truthful (s : t) (att : Attestation) : Prop :=
  ChainState.root_at_height (claimed att - 1) v (chain_state s) = Some (att_initial_state_root att) /\
  exists tr, ChainState.get_historical_transition_dangerous (claimed att) v (chain_state s) = Some tr /\
    ChainState.slot_hash (ChainState.slot tr) = att_slot_hash att /\ ChainState.post_state_root tr = att_post_state_root att.

Definition slashed (s : t) (a : Address) : t :=
  put_attesters (delete a (bonded_attesters s)) (put_unbonding (delete a (unbonding_attesters s)) s).

Definition pooled (s : t) (a : Address) (n : N) : t :=
  put_pool (<[n := Amount.saturating_add (default 0 (bad_transition_pool s !! n)) (default 0 (bonded_attesters s !! a))]>
    (bad_transition_pool s)) (slashed s a).

Definition rewarded (s : t) (a : Address) (n pay : N) : t :=
  moved attester_view (put_attested (Some n) s) (account attester_view s) (HolderUser a) pay.

(** What an attestation does, when its writes are kept. *)
Definition processed (s : t) (a : Address) (bytes : list N) (o : outcome ProcessAttestationErrors Attestation) (s' : t) : Prop :=
  match o with
  | Ok att =>
      to_attestation bytes = Some att /\ truthful s att /\ is_Some (bonded_attesters s !! a) /\
      exists last, maximum_attested_height s = Some last /\
        if claimed att =? last + 1 then
          exists slot pay, ChainState.versioned_get (ChainState.slots (ChainState.the_kernel (chain_state s))) (last + 1) v = Some slot /\
            BurnRate.apply PERCENT_BASE_FEE_TO_BURN (ProverIncentives.slot_reward slot) = Some pay /\ pay <= holds s /\
            s' = rewarded s a (last + 1) pay
        else s' = s
  | Err (AttesterSlashedNoRevert _) =>
      exists att, to_attestation bytes = Some att /\ ~ truthful s att /\
        (s' = slashed s a \/ s' = pooled s a (claimed att))
  | _ => True
  end.

Ltac at_step := wp_step; wp_red; try exact I.

Lemma wp_slash_attester a (Q : outcome StateAccessorError N -> t -> Prop) s :
  (forall e s', Q (Err e) s') -> Q (Ok (default 0 (bonded_attesters s !! a))) (slashed s a) ->
  wp (slash_attester (G := G) a) Q s.
Proof. intros Hf Hok. unfold slash_attester. do 2 wp_step; [by auto|]. do 2 wp_step; [by auto|]. do 2 wp_step; [by auto|]. by wp_step. Qed.

Lemma wp_slash_and_invalidate a n (Q : outcome StateAccessorError unit -> t -> Prop) s :
  (forall e s', Q (Err e) s') -> Q (Ok tt) (pooled s a n) ->
  wp (slash_and_invalidate_attestation (G := G) a n) Q s.
Proof.
  intros Hf Hok. unfold slash_and_invalidate_attestation. wp_step. apply wp_slash_attester; wp_red; [by auto|].
  do 2 wp_step; [by auto|]. wp_step; [by auto|]. done.
Qed.

Lemma wp_check_bonding_proof a att (Q : outcome ProcessAttestationErrors unit -> t -> Prop) s :
  (forall e, (forall r, e <> AttesterSlashedNoRevert r) -> Q (Err e) s) -> Q Panic s -> Q (Ok tt) s ->
  wp (check_bonding_proof (G := G) open_proof attester_key v gas_price a att) Q s.
Proof.
  intros Hf Hp Hok. unfold check_bonding_proof, att_access. wp_step. wp_step; wp_red; [|by apply Hf].
  do 2 wp_step. apply wp_at_chain, ChainReads.wp_root_at_height; wp_red; [intros _ e; split; [done|by apply Hf]|].
  split; [done|]. do 4 (wp_step; wp_step; wp_red; [|by apply Hf]).
  do 3 wp_step; [by apply Hf|]. wp_step. wp_step; wp_red; [|done]. wp_step; wp_red; [done|by apply Hf].
Qed.

Lemma wp_check_initial_hash att (Q : outcome StateAccessorError CheckInitialHashStatus -> t -> Prop) s :
  claimed att <> 0 -> (forall e, Q (Err e) s) ->
  (ChainState.root_at_height (claimed att - 1) v (chain_state s) = Some (att_initial_state_root att) -> Q (Ok InitialHashValid) s) ->
  (ChainState.root_at_height (claimed att - 1) v (chain_state s) <> Some (att_initial_state_root att) -> Q (Ok InitialHashSlash) s) ->
  wp (check_initial_hash (G := G) v (claimed att) att) Q s.
Proof.
  intros Hz Hf Hv Hs. unfold check_initial_hash. wp_step. wp_step; wp_red; checked_simpl; [|lia]. subst.
  wp_step. apply wp_at_chain, ChainReads.wp_root_at_height; wp_red; [intros _ e; split; [done|by auto]|]. split; [done|].
  destruct (ChainState.root_at_height _ v _) as [root|]; [|wp_step; by apply Hs].
  destruct (decide (root = att_initial_state_root att)) as [->|Hne].
  - rewrite bool_decide_eq_true_2 by done. cbn [negb]. wp_step. by apply Hv.
  - rewrite bool_decide_eq_false_2 by done. cbn [negb]. wp_step. apply Hs. congruence.
Qed.

Lemma wp_check_transition att (Q : outcome StateAccessorError CheckTransitionStatus -> t -> Prop) s :
  (forall e, Q (Err e) s) ->
  ((exists tr, ChainState.get_historical_transition_dangerous (claimed att) v (chain_state s) = Some tr /\
      ChainState.slot_hash (ChainState.slot tr) = att_slot_hash att /\ ChainState.post_state_root tr = att_post_state_root att) ->
     Q (Ok TransitionIsValid) s) ->
  (~ truthful s att -> Q (Ok SlashedNoHistoricalTransition) s /\ Q (Ok SlashInvalidateWrongHash) s) ->
  wp (check_transition (G := G) v (claimed att) att) Q s.
Proof.
  intros Hf Hv Hs. unfold check_transition, truthful in *.
  wp_step. apply wp_at_chain, ChainReads.wp_get_historical_transition; wp_red; [intros _ e; split; [done|by auto]|]. split; [done|].
  destruct (ChainState.get_historical_transition_dangerous _ v _) as [tr|];
    [|wp_step; apply Hs; by intros (_ & tr & ? & _)].
  destruct (decide (ChainState.slot_hash (ChainState.slot tr) = att_slot_hash att)) as [Hh|Hh].
  2: { rewrite bool_decide_eq_false_2 by done. cbn [negb]. wp_step. apply Hs. intros (_ & tr' & [= <-] & ? & _). congruence. }
  rewrite bool_decide_eq_true_2 by done. cbn [negb].
  destruct (decide (ChainState.post_state_root tr = att_post_state_root att)) as [Hp|Hp].
  - rewrite bool_decide_eq_true_2 by done. cbn [negb]. wp_step. apply Hv. by exists tr.
  - rewrite bool_decide_eq_false_2 by done. cbn [negb]. wp_step. apply Hs. intros (_ & tr' & [= <-] & _ & ?). congruence.
Qed.

Lemma wp_process_attestation a bytes s :
  Bank.inv (bank s) ->
  wp (process_attestation (G := G) open_proof attester_key to_attestation v gas_price a bytes) (processed s a bytes) s.
Proof.
  intros Hb. unfold process_attestation, should_reward_fees.
  do 3 wp_step. apply wp_at_chain, ChainReads.wp_operating_mode; wp_red; [done|].
  destruct (ChainState.operating_mode _) as [mode|]; (split; [done|]); [|done]. do 2 wp_step. wp_step; wp_red; [|done].
  wp_step. wp_step; wp_red; [|done]. rename a0 into att. wp_step. wp_step; wp_red; [|done]. fold (claimed att) in *.
  unfold att_access. do 3 wp_step; [done|]. wp_step. wp_step; wp_red; [|done]. cbn [map_read attesters_map] in *.
  wp_step. apply wp_check_bonding_proof; wp_red; [|done|].
  { intros e He. destruct e; try done. by destruct (He reason). }
  do 3 wp_step; [done|]. wp_step. wp_step; wp_red; [|done]. rename a0 into last. cbn [val_read attested_value] in *.
  do 3 wp_step; [done|]. wp_step. wp_step; wp_red; [|done]. do 3 wp_step; [done|]. wp_step. wp_step; wp_red; [|done].
  wp_step. wp_step; wp_red; [|done]. wp_step. wp_step; wp_red; [|done]. checked_simpl. subst.
  wp_step. wp_step; wp_red; [|done]. wp_step. wp_step; wp_red; [|done].
  assert (claimed att <> 0) as Hz by (checked_simpl; done).
  match goal with Hx : maximum_attested_height s = Some last |- _ => rename Hx into Hlast end.
  match goal with Hx : to_attestation bytes = Some att |- _ => rename Hx into Hatt end.
  do 2 wp_step. apply wp_check_initial_hash; wp_red; [done|done| |].
  2: { intros Hne. do 2 wp_step. apply wp_slash_attester; wp_red; [done|]. wp_step. exists att. split_and!; [done| |by left].
       by intros [? _]. }
  intros Hroot. do 2 wp_step. apply wp_check_transition; wp_red; [done| |].
  - intros Htr. assert (truthful s att) as Ht by by split.
    match goal with Hx : is_Some (bonded_attesters s !! a) |- _ => rename Hx into Hbond end.
    wp_step. destruct (claimed att =? last + 1) eqn:Hc.
    2: { wp_step. wp_red. wp_step. split_and!; [done|done|done|]. exists last. split; [done|]. by rewrite Hc. }
    unfold reward_attester, att_access, transfer_tokens_to_sender. do 2 wp_step.
    apply wp_at_chain, ChainReads.wp_slot_at_height; wp_red; [done|]. split; [done|]. wp_step. wp_step; wp_red; [|done].
    do 3 wp_step; [done|]. wp_step. wp_step; wp_red; [|done]. do 3 wp_step. wp_red.
    apply wp_bank_move'; wp_red; [done|done|done|]. intros Hpay. wp_step. split_and!; [done|done|done|]. exists last.
    split; [done|]. rewrite Hc. eexists _, _. by split_and!.
  - intros Hne. split.
    + do 2 wp_step. apply wp_slash_attester; wp_red; [done|]. wp_step. exists att. split_and!; [done|done|by left].
    + do 2 wp_step. apply wp_slash_and_invalidate; wp_red; [done|]. wp_step. exists att. split_and!; [done|done|by right].
Qed.

Lemma pooled_obligations s a n : obligations (pooled s a n) <= obligations s /\ obligations (slashed s a) <= obligations s.
Proof.
  unfold obligations, unbonding_total, pool_total. cbn.
  pose proof (total_delete (bonded_attesters s) a) as Hd.
  pose proof (map_sum_delete (fun _ u => unbonding_amount u) (unbonding_attesters s) a) as Hu.
  set (x := Amount.saturating_add (default 0 (bad_transition_pool s !! n)) (default 0 (bonded_attesters s !! a))).
  pose proof (map_sum_insert (fun _ x => x) (bad_transition_pool s) n x) as Hp.
  assert (x <= default 0 (bad_transition_pool s !! n) + default 0 (bonded_attesters s !! a)) as Hx.
  { unfold x, Amount.saturating_add, Ints.saturating_add. lia. }
  assert (opt_val (fun _ x => x) (bad_transition_pool s) n = default 0 (bad_transition_pool s !! n)) as Ho.
  { unfold opt_val. by destruct (bad_transition_pool s !! n). }
  rewrite Ho in Hp. split; lia.
Qed.

Lemma exits_slashed h s a : exits_at h s -> exits_at h (slashed s a).
Proof. intros Hx b u Hu. cbn in Hu. apply lookup_delete_Some in Hu as [_ Hu]. by eapply Hx. Qed.

Lemma rewarded_kept s a n pay :
  Bank.inv (bank s) -> pay <= holds s -> kept s (rewarded s a n pay) pay.
Proof.
  intros Hb Hp. split; [by apply BankFacts.inv_transferred|done|done| |done].
  unfold accounted. assert (holds (rewarded s a n pay) = holds s - pay) as ->.
  { unfold holds, held. change (account attester_view (rewarded s a n pay)) with (account attester_view s).
    unfold rewarded. rewrite (gas_of_moved attester_view (new_attester (G := G))) by done. by rewrite bool_decide_eq_true_2. }
  change (obligations (rewarded s a n pay)) with (obligations s). lia.
Qed.

Lemma slashed_kept s a s' n :
  Bank.inv (bank s) -> s' = slashed s a \/ s' = pooled s a n -> kept s s' 0.
Proof.
  intros Hb Hs. destruct (pooled_obligations s a n) as [H1 H2].
  destruct Hs as [-> | ->]; (split; [done|done|done| |done]); unfold accounted;
    [change (holds (slashed s a)) with (holds s)|change (holds (pooled s a n)) with (holds s)]; lia.
Qed.
End Attestations.

(** ** Challenges *)
Section Challenges.
Context (verify : list N -> list N -> option StateTransitionPublicData).
Context (v : ChainState.Version) (gas_price : list N).

Definition challenger_slashed (s : t) (a : Address) : t := put_challengers (delete a (bonded_challengers s)) s.

(** A challenge that succeeds pays the challenger out of the pool. *)
Definition challenged (s : t) (a : Address) (n pay : N) : t :=
  let s1 := moved attester_view s (account attester_view s) (HolderUser a) pay in
  put_pool (delete n (bad_transition_pool s1)) s1.

Definition challenge_processed (s : t) (a : Address) (n : N) (o : outcome ProcessChallengeErrors StateTransitionPublicData)
    (s' : t) : Prop :=
  match o with
  | Ok _ => exists reward pay, bad_transition_pool s !! n = Some reward /\
      BurnRate.apply PERCENT_BASE_FEE_TO_BURN reward = Some pay /\ pay <= holds s /\ s' = challenged s a n pay
  | Err (ChallengerSlashedNoRevert _) => s' = challenger_slashed s a
  | _ => True
  end.

Lemma wp_slash_with {A} a reason (Q : outcome ProcessChallengeErrors A -> t -> Prop) s :
  (forall e s', (forall r, e <> ChallengerSlashedNoRevert r) -> Q (Err e) s') ->
  Q (Err (ChallengerSlashedNoRevert reason)) (challenger_slashed s a) -> wp (slash_with (G := G) a reason) Q s.
Proof. intros Hf Hok. unfold slash_with, slash_challenger, ch_access. do 4 wp_step; [by apply Hf|]. wp_step. by wp_step. Qed.

Lemma wp_process_challenge a proof n s :
  Bank.inv (bank s) ->
  wp (process_challenge (G := G) verify v gas_price a proof n) (challenge_processed s a n) s.
Proof.
  intros Hb. unfold process_challenge, should_reward_fees.
  do 3 wp_step. apply wp_at_chain, ChainReads.wp_operating_mode; wp_red; [done|].
  destruct (ChainState.operating_mode _) as [mode|]; (split; [done|]); [|done]. do 2 wp_step. wp_step; wp_red; [|done].
  unfold ch_access. do 3 wp_step; [done|]. wp_step. wp_step; wp_red; [|done]. do 3 wp_step; [done|]. wp_step. wp_step; wp_red; [|done].
  wp_step. wp_step; wp_red; [|done]. do 2 wp_step. apply wp_at_chain. wp_step; [done|]. split; [done|].
  wp_step. wp_step; wp_red; [|done]. do 3 wp_step; [done|]. cbn [map_read pool_map].
  assert (forall e s', (forall r, e <> ChallengerSlashedNoRevert r) -> challenge_processed s a n (Err e) s') as Hf.
  { intros e s' He. destruct e; try done. by destruct (He reason). }
  destruct (bad_transition_pool s !! n) as [reward|] eqn:Hn; [|by apply wp_slash_with].
  destruct (verify proof _) as [o|]; [|by apply wp_slash_with].
  do 2 wp_step. eapply (wp_mono _ (fun o s' => match o with Panic => True | _ => s' = s end)).
  { unfold check_challenge_outputs_against_transition. wp_step. apply wp_at_chain, ChainReads.wp_slot_at_height; wp_red; [done|].
    split; [done|]. destruct (ChainState.versioned_get _ _ _); [|by wp_step]. repeat destruct (negb _); by wp_step. }
  intros [[r|]|e|] s' Hs'; wp_red; [subst s'; by apply wp_slash_with| |done|done]. subst s'.
  wp_step. wp_step; wp_red; [|done]. unfold transfer_tokens_to_sender. do 4 wp_step. wp_red.
  apply wp_bank_move'; wp_red; [done|done|done|]. intros Hpay. do 3 wp_step; [done|]. wp_step. eexists _, _. by split_and!.
Qed.

Lemma challenged_kept s a n reward pay :
  Bank.inv (bank s) -> PERCENT_BASE_FEE_TO_BURN <= 100 -> reward <= u128_max ->
  bad_transition_pool s !! n = Some reward -> BurnRate.apply PERCENT_BASE_FEE_TO_BURN reward = Some pay -> pay <= holds s ->
  kept s (challenged s a n pay) 0.
Proof.
  intros Hb Hp Hu Hn Hpay Hh. destruct (ProverFacts.burn_some Hp reward Hu) as (pay' & Hpay' & Hle).
  assert (pay' = pay) as -> by congruence. split; [by apply BankFacts.inv_transferred|done|done| |done].
  unfold accounted. assert (holds (challenged s a n pay) = holds s - pay) as ->.
  { change (holds (challenged s a n pay)) with (holds (moved attester_view s (account attester_view s) (HolderUser a) pay)).
    unfold holds, held. change (account attester_view (moved _ _ _ _ _)) with (account attester_view s).
    rewrite (gas_of_moved attester_view (new_attester (G := G))) by done. by rewrite bool_decide_eq_true_2. }
  unfold obligations, unbonding_total, pool_total. cbn. unfold pool_total.
  pose proof (map_sum_delete (fun _ x => x) (bad_transition_pool s) n) as Hd. unfold opt_val in Hd. rewrite Hn in Hd. lia.
Qed.

Lemma challenger_slashed_kept s a : Bank.inv (bank s) -> kept s (challenger_slashed s a) 0.
Proof.
  intros Hb. split; [done|done|done| |done]. unfold accounted, obligations, unbonding_total, pool_total. cbn.
  pose proof (total_delete (bonded_challengers s) a). change (holds (challenger_slashed s a)) with (holds s). lia.
Qed.
End Challenges.

(** ** Histories *)
Section Histories.
Context (open_proof : Root -> StorageProof -> option (list N * option (list N))).
Context (attester_key : Address -> list N) (to_attestation : list N -> option (Attestation (StorageProof := StorageProof))).
Context (verify : list N -> list N -> option StateTransitionPublicData).
Context (Hburn : PERCENT_BASE_FEE_TO_BURN <= 100).

(** What the address [a] received between two states, and whether the attested height
    moved. *)
Definition received (s s' : t) (a : Address) : N :=
  gas_of attester_view s' (HolderUser a) - gas_of attester_view s (HolderUser a).
Definition advanced (s s' : t) : bool := bool_decide (maximum_attested_height s' <> maximum_attested_height s).

(** What a step did; for an accepted attestation, whether it moved the attested height
    and what the attester was paid, both read off the states. *)
Inductive label : Type :=
| Accepted (v : ChainState.Version) (att : Attestation (StorageProof := StorageProof)) (next : bool) (pay : N)
| Exited (a : Address)
| Quiet.

Definition slashing (e : ProcessAttestationErrors) : bool := match e with AttesterSlashedNoRevert _ => true | _ => false end.
Definition challenge_slashing (e : ProcessChallengeErrors) : bool :=
  match e with ChallengerSlashedNoRevert _ => true | _ => false end.

Definition call_label (msg : CallMessage) (c : Context Sp) : label :=
  match msg with ExitAttester => Exited (sender c) | _ => Quiet end.

(** Attestations, challenges and calls run on any well-formed meter; their writes are
    undone when they fail, but for those who are slashed.  The chain grows, and other
    modules do not take from the account of the module. *)
Inductive step (s : t) : label -> t -> Prop :=
| step_accepted v price a bytes g att st :
    meter_wf g ->
    process_attestation (G := G) open_proof attester_key to_attestation v price a bytes (Acc g s) = (Ok att, st) ->
    step s (Accepted v att (advanced s (store st)) (received s (store st) a)) (store st)
| step_rejected v price a bytes g e st :
    meter_wf g ->
    process_attestation (G := G) open_proof attester_key to_attestation v price a bytes (Acc g s) = (Err e, st) ->
    step s Quiet (if slashing e then store st else s)
| step_challenge v price a proof n g o st :
    meter_wf g -> process_challenge (G := G) verify v price a proof n (Acc g s) = (o, st) ->
    step s Quiet match o with Ok _ => store st | Err e => if challenge_slashing e then store st else s | Panic => s end
| step_call msg c g st :
    meter_wf g -> call (G := G) msg c (Acc g s) = (Ok tt, st) -> step s (call_label msg c) (store st)
| step_chain c : ProverFacts.extends (chain_state s) c -> step s Quiet (put_chain c s)
| step_bank b : Bank.inv b -> holds s <= holds (put_bank b s) -> step s Quiet (put_bank b s).

Inductive steps : t -> list label -> t -> Prop :=
| steps_refl s : steps s [] s
| steps_step s l s' ls s'' : step s l s' -> steps s' ls s'' -> steps s (l :: ls) s''.

(** The heights that were attested, and the payments. *)
Definition heights_of (l : label) : list N := match l with Accepted _ att true _ => [claimed att] | _ => [] end.
Definition pay_of (l : label) : N := match l with Accepted _ _ _ pay => pay | _ => 0 end.
Definition heights (ls : list label) : list N := ls ≫= heights_of.
Definition total_pay (ls : list label) : N := sum_N (map pay_of ls).

(** The values that genesis sets. *)
Record ready (h f : N) (s : t) : Prop := mkReady {
  ready_bank : Bank.inv (bank s);
  ready_finalized : finalized s = Some h;
  ready_finality : finality s = Some f;
  ready_attested : is_Some (maximum_attested_height s);
  ready_pool : forall n r, bad_transition_pool s !! n = Some r -> r <= u128_max
}.

Definition extends_state (s s' : t) : Prop := ProverFacts.extends (chain_state s) (chain_state s').

(** The payment for an attestation: the gas of its slot, less what is burned, when it is
    the first one of the slot, and nothing otherwise. *)
Definition paid_right (s : t) (att : Attestation (StorageProof := StorageProof)) (next : bool) (pay : N) : Prop :=
  if next then
    exists slot, ChainState.slots (ChainState.the_kernel (chain_state s)) !! claimed att = Some slot /\
      BurnRate.apply PERCENT_BASE_FEE_TO_BURN (ProverIncentives.slot_reward slot) = Some pay
  else pay = 0.

Definition label_ok (h f : N) (s : t) (l : label) (s' : t) : Prop :=
  match l with
  | Accepted v att next pay => truthful v s att /\ paid_right s att next pay
  | Exited a => exists u, unbonding_attesters s !! a = Some u /\ saturating_add u64_max (unbonding_initiated_height u) f <= h
  | Quiet => True
  end.

(** What holds of one step. *)
Record stepped (h f : N) (s : t) (l : label) (s' : t) : Prop := mkStepped {
  stepped_ready : ready h f s';
  stepped_exits : exits_at h s -> exits_at h s';
  stepped_chain : extends_state s s';
  stepped_label : label_ok h f s l s';
  stepped_accounted : accounted s s' (pay_of l);
  stepped_heights : forall last, maximum_attested_height s = Some last ->
    maximum_attested_height s' = Some (last + len (heights_of l)) /\ (heights_of l = [] \/ heights_of l = [last + 1])
}.

Lemma extends_refl s : extends_state s s.
Proof. done. Qed.

(** A step that keeps the height and the settings. *)
Lemma quiet_stepped h f s l s' :
  ready h f s -> kept s s' (pay_of l) -> maximum_attested_height s' = maximum_attested_height s ->
  (exits_at h s -> exits_at h s') -> label_ok h f s l s' -> heights_of l = [] ->
  (forall n r, bad_transition_pool s' !! n = Some r -> r <= u128_max) -> stepped h f s l s'.
Proof.
  intros [] [] Hm Hx Hl Hh Hp. split; [|done| |done|done|].
  - split; [done|by unfold finalized in *; congruence|by unfold finality in *; congruence|by rewrite Hm|done].
  - unfold extends_state. by rewrite kept_chain0.
  - intros last Hlast. rewrite Hh, Hm, Hlast. unfold len. cbn. rewrite N.add_0_r. split; [done|by left].
Qed.

Lemma received_rewarded s a n pay : pay <= holds s -> received s (rewarded s a n pay) a = pay.
Proof.
  intros Hp. unfold received, rewarded. rewrite (gas_of_moved attester_view (new_attester (G := G))) by done.
  rewrite bool_decide_eq_false_2 by done. rewrite bool_decide_eq_true_2 by done.
  change (gas_of attester_view (put_attested (Some n) s) (HolderUser a)) with (gas_of attester_view s (HolderUser a)). lia.
Qed.

Lemma versioned_inv c n v i :
  ChainState.versioned_get (ChainState.slots (ChainState.the_kernel c)) n v = Some i ->
  ChainState.slots (ChainState.the_kernel c) !! n = Some i.
Proof. unfold ChainState.versioned_get. by destruct (_ <? n). Qed.

Lemma accepted_stepped h f s a bytes v att s' :
  ready h f s -> processed to_attestation v s a bytes (Ok att) s' ->
  stepped h f s (Accepted v att (advanced s s') (received s s' a)) s'.
Proof.
  intros Hr (Hatt & Ht & Hbond & last & Hlast & Hs').
  destruct (N.eqb_spec (claimed att) (last + 1)) as [Hc|Hc].
  - destruct Hs' as (slot & pay & Hslot & Hpay & Hheld & ->). rewrite received_rewarded by done.
    assert (advanced s (rewarded s a (last + 1) pay) = true) as ->.
    { unfold advanced. apply bool_decide_eq_true_2. change (maximum_attested_height (rewarded s a (last + 1) pay)) with (Some (last + 1)).
      rewrite Hlast. intros [= He]. lia. }
    destruct (rewarded_kept s a (last + 1) pay (ready_bank _ _ _ Hr) Hheld) as [Hb Hs Hch Ha Hid].
    split; [|done|done| |done|].
    + destruct Hr. by split; [done|done|done|exists (last + 1)|done].
    + split; [done|]. exists slot. split; [|done]. rewrite Hc. by eapply versioned_inv.
    + intros last' [= <-]%(eq_trans (eq_sym Hlast)). cbn. rewrite Hc. split; [done|by right].
  - subst s'. assert (advanced s s = false) as -> by (unfold advanced; apply bool_decide_eq_false_2; naive_solver).
    assert (received s s a = 0) as -> by (unfold received; lia).
    apply quiet_stepped; [done|by apply kept_refl, Hr|done|done|done|done|apply Hr].
Qed.

Lemma pooled_pool s a n :
  (forall n r, bad_transition_pool s !! n = Some r -> r <= u128_max) ->
  forall m r, bad_transition_pool (pooled s a n) !! m = Some r -> r <= u128_max.
Proof.
  intros Hp m r. cbn. destruct (decide (m = n)) as [->|Hne].
  - rewrite lookup_insert_eq. intros [= <-]. unfold Amount.saturating_add, Ints.saturating_add. lia.
  - rewrite lookup_insert_ne by done. apply Hp.
Qed.

Lemma slashed_stepped h f s a bytes v e s' :
  ready h f s -> processed to_attestation v s a bytes (Err e) s' -> slashing e = true -> stepped h f s Quiet s'.
Proof.
  intros Hr Hp He. destruct e; try done. destruct Hp as (att & _ & _ & Hs).
  apply quiet_stepped; [done|by eapply slashed_kept, Hs; apply Hr| | |done|done|].
  - by destruct Hs as [-> | ->].
  - intros Hx. destruct Hs as [-> | ->]; by apply (exits_slashed h s a).
  - destruct Hs as [-> | ->]; [apply Hr|by apply pooled_pool, Hr].
Qed.

Lemma challenge_stepped h f s a n o s' :
  ready h f s -> challenge_processed s a n o s' ->
  stepped h f s Quiet match o with Ok _ => s' | Err e => if challenge_slashing e then s' else s | Panic => s end.
Proof.
  intros Hr Hp. assert (stepped h f s Quiet s) as Hrefl.
  { apply quiet_stepped; [done|by apply kept_refl, Hr|done|done|done|done|apply Hr]. }
  destruct o as [o|e|]; [| |done].
  - destruct Hp as (reward & pay & Hn & Hpay & Hheld & ->).
    apply quiet_stepped; [done| |done|done|done|done|].
    + apply (challenged_kept s a n reward pay); [apply Hr|done|by apply (ready_pool _ _ _ Hr n)|done..].
    + intros m r. cbn. intros [_ Hl]%lookup_delete_Some. by apply (ready_pool _ _ _ Hr m).
  - destruct e; try done. cbn in *. subst s'.
    apply quiet_stepped; [done|apply challenger_slashed_kept, Hr|done|done|done|done|apply Hr].
Qed.

Lemma attester_step_spec h f s l s' : ready h f s -> step s l s' -> stepped h f s l s'.
Proof.
  intros Hr Hstep.
  destruct Hstep as [v price a bytes g att st Hg Hrun|v price a bytes g e st Hg Hrun|v price a proof n g o st Hg Hrun
    |msg c g st Hg Hrun|c Hext|b Hb Hheld].
  - destruct (wp_run _ _ _ g (wp_process_attestation open_proof attester_key to_attestation v price a bytes s (ready_bank _ _ _ Hr)) Hg)
      as [_ Hp]. rewrite Hrun in Hp. by eapply accepted_stepped.
  - destruct (wp_run _ _ _ g (wp_process_attestation open_proof attester_key to_attestation v price a bytes s (ready_bank _ _ _ Hr)) Hg)
      as [_ Hp]. rewrite Hrun in Hp. destruct (slashing e) eqn:He; [by eapply slashed_stepped|].
    apply quiet_stepped; [done|by apply kept_refl, Hr|done|done|done|done|apply Hr].
  - destruct (wp_run _ _ _ g (wp_process_challenge verify v price a proof n s (ready_bank _ _ _ Hr)) Hg) as [_ Hp].
    rewrite Hrun in Hp. by eapply challenge_stepped.
  - destruct Hr. destruct (wp_run _ _ _ g (wp_attester_call h f msg c s ready_bank0 ready_finalized0 ready_finality0) Hg) as [_ Hp].
    rewrite Hrun in Hp. cbn in Hp. destruct (Hp eq_refl) as [[Hk Hm Hx Hpool] Hex].
    apply quiet_stepped; [done| |done|done| | |by rewrite Hpool]; destruct msg; try done. by apply Hex.
  - split; [by destruct Hr; split|done|done|done| |].
    + unfold accounted. change (holds (put_chain c s)) with (holds s). change (obligations (put_chain c s)) with (obligations s). lia.
    + intros last Hl. cbn. rewrite Hl, N.add_0_r. split; [done|by left].
  - split; [by destruct Hr; split|done|done|done| |].
    + unfold accounted. change (obligations (put_bank b s)) with (obligations s). lia.
    + intros last Hl. cbn. rewrite Hl, N.add_0_r. split; [done|by left].
Qed.

Lemma versioned_extends c c' n v i :
  ProverFacts.extends c c' -> ChainState.versioned_get (ChainState.slots (ChainState.the_kernel c)) n v = Some i ->
  ChainState.versioned_get (ChainState.slots (ChainState.the_kernel c')) n v = Some i.
Proof.
  intros [_ Hs]. unfold ChainState.versioned_get. destruct (_ <? n); [done|]. intros Hn. by eapply lookup_weaken.
Qed.

Lemma truthful_extends v s s' att : extends_state s s' -> truthful v s att -> truthful v s' att.
Proof.
  intros Hx [Hroot (tr & Htr & Hh & Hp)]. split.
  - unfold ChainState.root_at_height in *. destruct (checked_add _ _ _) as [n|]; cbn in *; [|done].
    destruct (ChainState.versioned_get (ChainState.slots (ChainState.the_kernel (chain_state s))) n v) as [i|] eqn:Hi; cbn in *; [|done].
    by rewrite (versioned_extends _ _ _ _ _ Hx Hi).
  - exists tr. split; [|done]. unfold ChainState.get_historical_transition_dangerous in *.
    destruct (checked_add _ _ _) as [n|]; cbn in *; [|done].
    destruct (ChainState.versioned_get (ChainState.slots (ChainState.the_kernel (chain_state s))) n v) as [i|] eqn:Hi; cbn in *; [|done].
    rewrite (versioned_extends _ _ _ _ _ Hx Hi). cbn.
    destruct (ChainState.versioned_get (ChainState.slots (ChainState.the_kernel (chain_state s))) (claimed att) v) as [j|] eqn:Hj; cbn in *; [|done].
    by rewrite (versioned_extends _ _ _ _ _ Hx Hj).
Qed.

Lemma extends_trans s1 s2 s3 : extends_state s1 s2 -> extends_state s2 s3 -> extends_state s1 s3.
Proof. intros [H1 H2] [H3 H4]. split; [congruence|by etransitivity]. Qed.

Definition label_true (s : t) (l : label) : Prop :=
  match l with Accepted v att next pay => truthful v s att /\ paid_right s att next pay | _ => True end.

Lemma label_true_extends h f s1 s2 s3 l : extends_state s1 s3 -> label_ok h f s1 l s2 -> label_true s3 l.
Proof.
  intros Hx Hl. destruct l as [v att next pay| |]; [|done..]. destruct Hl as [Ht Hp]. split; [by eapply truthful_extends|].
  destruct next; [|done]. destruct Hp as (slot & Hs & Hpay). exists slot. split; [|done]. eapply lookup_weaken; [done|apply Hx].
Qed.

Lemma attester_steps_spec h f s ls s' last :
  steps s ls s' -> ready h f s -> maximum_attested_height s = Some last ->
  ready h f s' /\ extends_state s s' /\ Forall (label_true s') ls /\ accounted s s' (total_pay ls) /\
  maximum_attested_height s' = Some (last + len (heights ls)) /\
  heights ls = (fun i => last + 1 + N.of_nat i) <$> seq 0 (length (heights ls)).
Proof.
  intros Hsteps. revert last. induction Hsteps as [s|s l s1 ls s2 Hstep Hsteps IH]; intros last Hr Hl.
  - split_and!; [done|done|by apply Forall_nil_2|unfold accounted; lia|by cbn; rewrite N.add_0_r|done].
  - destruct (attester_step_spec h f s l s1 Hr Hstep) as [Hr1 Hx1 Hc1 Hl1 Ha1 Hh1].
    destruct (Hh1 last Hl) as [Hm1 Hs1]. destruct (IH _ Hr1 Hm1) as (Hr2 & Hc2 & Ht2 & Ha2 & Hm2 & Hs2).
    assert (heights (l :: ls) = heights_of l ++ heights ls) as Hcons by done.
    split_and!; [done|by eapply extends_trans| | | |].
    + apply Forall_cons. split; [|done]. apply (label_true_extends h f s s1 s2); [by eapply extends_trans|exact Hl1].
    + unfold accounted, total_pay in *. change (sum_N (map pay_of (l :: ls))) with (pay_of l + sum_N (map pay_of ls)). lia.
    + rewrite Hm2, Hcons. unfold len. rewrite length_app. f_equal. lia.
    + rewrite Hcons. destruct Hs1 as [Hs1|Hs1]; rewrite Hs1 in *; cbn [app length] in *.
      * unfold len in Hs2. cbn in Hs2. by rewrite N.add_0_r in Hs2.
      * rewrite Hs2 at 1. cbn [seq fmap list_fmap]. f_equal; [by rewrite N.add_0_r|].
        rewrite <- (fmap_S_seq 0). rewrite <- list_fmap_compose. apply list_fmap_ext. intros i x _. unfold len. cbn. lia.
Qed.

Lemma no_exit h f s ls s' a :
  steps s ls s' -> ready h f s -> exits_at h s -> 0 < f -> h < u64_max -> Exited a ∉ ls.
Proof.
  intros Hsteps Hr Hx Hf Hh. induction Hsteps as [s|s l s1 ls s2 Hstep Hsteps IH]; [apply not_elem_of_nil|].
  destruct (attester_step_spec h f s l s1 Hr Hstep) as [Hr1 Hx1 _ Hl1 _ _].
  apply not_elem_of_cons. split; [|by apply IH; auto]. intros <-. destruct Hl1 as (u & Hu & Hle).
  rewrite (Hx _ _ Hu) in Hle. unfold saturating_add in Hle. lia.
Qed.

(** Two attestations of one slot that agree with the chain agree with each other. *)
Lemma truthful_agree v1 v2 s a1 a2 :
  truthful v1 s a1 -> truthful v2 s a2 -> claimed a1 = claimed a2 ->
  att_initial_state_root a1 = att_initial_state_root a2 /\ att_slot_hash a1 = att_slot_hash a2 /\
  att_post_state_root a1 = att_post_state_root a2.
Proof.
  intros [Hr1 (t1 & Ht1 & Hh1 & Hp1)] [Hr2 (t2 & Ht2 & Hh2 & Hp2)] Hc. rewrite Hc in *.
  unfold ChainState.root_at_height, ChainState.get_historical_transition_dangerous in *.
  destruct (checked_add u64_max (claimed a2 - 1) 1) as [m|]; cbn in *; [|done].
  destruct (checked_add u64_max (claimed a2) 1) as [n|]; cbn in *; [|done].
  repeat match goal with
  | H : context [ChainState.versioned_get ?l ?k ?v] |- _ =>
      let E := fresh "E" in destruct (ChainState.versioned_get l k v) eqn:E; cbn in H; [apply versioned_inv in E|done]
  end. simplify_eq/=. repeat split; congruence.
Qed.
End Histories.
End Facts.
End AttesterFacts.

(** ** A concrete optimistic rollup *)
Module AttesterDemo.
Import StakingFacts AttesterIncentives AttesterFacts.
#[local] Existing Instances test_spec ChainDemo.pair_root ProverDemo.root_eq_dec ProverDemo.proof_gas.

Definition demo_chain : ChainState.t :=
  let c := ProverDemo.chain in let k := ChainState.the_config c in
  ChainState.mk (ChainState.the_kernel c)
    (ChainState.mkConfig (Some Optimistic) (ChainState.genesis_root k) (ChainState.genesis_da_height k)
       (ChainState.inner_code_commitment k) (ChainState.outer_code_commitment k) (ChainState.admin_address k))
    (ChainState.the_user c).

(** The user 2 is bonded with 100; slot 1 is attested. *)
Definition demo : t :=
  @mk test_spec ChainDemo.pair_root ProverDemo.prover_id (mkSettings (Some 5) (Some [5; 5]) (Some [5; 5]) (Some 0))
    {[2 := 100]} ∅ (Some 1) ∅ ∅ [] ProverDemo.demo_bank demo_chain.

(** A proof of bond shows the value under the key of an address. *)
Definition open_proof (root : @Root ChainDemo.pair_root) (proof : N * list N) : option (list N * option (list N)) :=
  Some ([fst proof], Some (snd proof)).
Definition attester_key (a : @Address test_spec) : list N := [a].

(** An attestation is the number of its slot. *)
Definition to_attestation (bytes : list N) : option (Attestation (Rt := ChainDemo.pair_root) (StorageProof := N * list N)) :=
  match bytes with
  | [n] => Some (mkAttestation (Rt := ChainDemo.pair_root) ([n], [n]) [n] ([n + 1], [n + 1])
                   (mkProofOfBond n (2, 100 :: repeat 0 15)))
  | _ => None
  end.

Definition verify (proof commitment : list N) : option (StateTransitionPublicData (Rt := ChainDemo.pair_root)) := None.

Lemma attester_demo_ready : ready 0 5 demo.
Proof. split; [exact ProverDemo.prover_bank_inv|done|done|by exists 1|]. intros n r Hr. cbn in Hr. by rewrite lookup_empty in Hr. Qed.

Definition attest (n : N) (s : t) : outcome ProcessAttestationErrors (Attestation (StorageProof := N * list N)) * t :=
  let '(o, a) := process_attestation (G := unit) open_proof attester_key to_attestation ProverDemo.version [1; 1] 2 [n] (Acc tt s) in
  (o, store a).

Lemma attest_step n s att :
  fst (attest n s) = Ok att ->
  step (G := unit) open_proof attester_key to_attestation verify s
    (Accepted ProverDemo.version att (advanced s (snd (attest n s))) (received s (snd (attest n s)) 2)) (snd (attest n s)).
Proof.
  unfold attest. destruct (process_attestation _ _ _ _ _ _ _ _) as [o a] eqn:Hrun. cbn. intros ->.
  by eapply (step_accepted (G := unit)); [exact I|exact Hrun].
Qed.

(** Begin to exit. *)
Definition exiting (s : t) : outcome CallError unit * t :=
  let '(o, a) := call (G := unit) (@BeginExitAttester) (BankDemo.demo_context 2) (Acc tt s) in (o, store a).

Lemma exiting_step s :
  fst (exiting s) = Ok tt -> step (G := unit) open_proof attester_key to_attestation verify s Quiet (snd (exiting s)).
Proof.
  unfold exiting. destruct (call _ _ _) as [o a] eqn:Hrun. cbn. intros ->.
  eapply (step_call (Sp := test_spec) (G := unit) open_proof attester_key to_attestation verify s (@BeginExitAttester));
    [exact I|exact Hrun].
Qed.
End AttesterDemo.

(** ** Properties *)
Module AttesterClaims.
Import StakingFacts AttesterIncentives AttesterFacts.
Section Claims.
Context {Sp : Spec} {Rt : StateRoot} {RootEq : EqDecision Root} {PG : ProofGas} {StorageProof : Type}.
Context (open_proof : Root -> StorageProof -> option (list N * option (list N))).
Context (attester_key : Address -> list N) (to_attestation : list N -> option (Attestation (StorageProof := StorageProof))).
Context (verify : list N -> list N -> option StateTransitionPublicData).
Context (Hburn : PERCENT_BASE_FEE_TO_BURN <= 100).

(** C13: whatever is submitted, in whatever order and on any gas meter, an attestation
    that is accepted agrees with the chain: two accepted attestations of one slot have
    the same roots and hash. Heights are attested once each, in order and without a gap,
    from the one after the last attested height; the attester that moves the height
    receives the gas of that slot less what is burned, and any other nothing. *)
Theorem accepted_attestations_true {G} `{GasMeterLaws G} (s s' : t) h f ls last
    (Hready : ready h f s) (Hlast : maximum_attested_height s = Some last)
    (Hsteps : steps (G := G) open_proof attester_key to_attestation verify s ls s') :
  Forall (label_true s') ls /\
  (forall v1 v2 a1 a2 n1 n2 p1 p2, Accepted v1 a1 n1 p1 ∈ ls -> Accepted v2 a2 n2 p2 ∈ ls -> claimed a1 = claimed a2 ->
     att_initial_state_root a1 = att_initial_state_root a2 /\ att_slot_hash a1 = att_slot_hash a2 /\
     att_post_state_root a1 = att_post_state_root a2) /\
  heights ls = (fun i => last + 1 + N.of_nat i) <$> seq 0 (length (heights ls)) /\
  maximum_attested_height s' = Some (last + len (heights ls)).
Proof.
  destruct (attester_steps_spec open_proof attester_key to_attestation verify Hburn h f s ls s' last Hsteps Hready Hlast)
    as (_ & _ & Ht & _ & Hm & Hs).
  split_and!; [done| |done|done]. intros v1 v2 a1 a2 n1 n2 p1 p2 H1 H2. rewrite Forall_forall in Ht.
  apply (truthful_agree v1 v2 s'); [apply (Ht _ H1)|apply (Ht _ H2)].
Qed.

(** C21: the obligations of the module are the stakes of attesters and challengers, the
    bonds of those who are exiting and the pools that wait for challengers. Over any
    history the surplus of its account over its obligations falls by at most what the
    accepted attestations were paid: slashing, exits and challenges never take from what
    is owed to others. So when the account covered the obligations and these payments at
    the start, it covers the obligations at the end. *)
Theorem attester_obligations_covered {G} `{GasMeterLaws G} (s s' : t) h f ls last
    (Hready : ready h f s) (Hlast : maximum_attested_height s = Some last)
    (Hsteps : steps (G := G) open_proof attester_key to_attestation verify s ls s') :
  holds s + obligations s' <= holds s' + total_pay ls + obligations s /\
  (obligations s + total_pay ls <= holds s -> obligations s' <= holds s').
Proof.
  destruct (attester_steps_spec open_proof attester_key to_attestation verify Hburn h f s ls s' last Hsteps Hready Hlast)
    as (_ & _ & _ & Ha & _). unfold accounted in Ha. split; [done|lia].
Qed.

(** C39: attesters cannot leave. The finalized height is written by genesis only, so
    with a finality period that is not zero no attester that begins to exit ever gets
    its bond back: no [ExitAttester] call succeeds, whatever happens. *)
Theorem attesters_never_exit {G} `{GasMeterLaws G} (s s' : t) h f ls a
    (Hready : ready h f s) (Hexits : unbonding_attesters s = ∅) (Hf : 0 < f) (Hh : h < u64_max)
    (Hsteps : steps (G := G) open_proof attester_key to_attestation verify s ls s') :
  Exited a ∉ ls.
Proof.
  apply (no_exit open_proof attester_key to_attestation verify Hburn h f s ls s' a Hsteps Hready); [|done..].
  intros b u Hu. by rewrite Hexits, lookup_empty in Hu.
Qed.
End Claims.

Import AttesterDemo.
#[local] Existing Instances test_spec ChainDemo.pair_root ProverDemo.root_eq_dec ProverDemo.proof_gas.

Lemma attest_two : exists att, fst (attest 2 demo) = Ok att /\
  steps (G := unit) open_proof attester_key to_attestation verify demo
    [Accepted ProverDemo.version att true 45] (snd (attest 2 demo)).
Proof.
  assert (exists att, fst (attest 2 demo) = Ok att) as [att Hatt] by (eexists; vm_compute; reflexivity).
  exists att. split; [done|].
  assert (advanced demo (snd (attest 2 demo)) = true) as Ha by (vm_compute; reflexivity).
  assert (received demo (snd (attest 2 demo)) 2 = 45) as Hp by (vm_compute; reflexivity).
  pose proof (attest_step 2 demo att Hatt) as Hstep. rewrite Ha, Hp in Hstep. eapply steps_step; [exact Hstep|apply steps_refl].
Qed.

Lemma accepted_attestations_true_witness :
  maximum_attested_height (snd (attest 2 demo)) = Some 2 /\ is_Some (match fst (attest 2 demo) with Ok a => Some a | _ => None end).
Proof.
  destruct attest_two as (att & Hatt & Hsteps).
  destruct (accepted_attestations_true open_proof attester_key to_attestation verify ProverClaims.burn_ok demo
    (snd (attest 2 demo)) 0 5 _ 1 attester_demo_ready eq_refl Hsteps) as (_ & _ & _ & Hm).
  split; [exact Hm|]. rewrite Hatt. by exists att.
Defined.

Lemma attester_obligations_covered_witness :
  obligations (snd (attest 2 demo)) <= holds (snd (attest 2 demo)).
Proof.
  destruct attest_two as (att & Hatt & Hsteps).
  apply (attester_obligations_covered open_proof attester_key to_attestation verify ProverClaims.burn_ok demo
    (snd (attest 2 demo)) 0 5 _ 1 attester_demo_ready eq_refl Hsteps).
  vm_compute. discriminate.
Defined.

Lemma attesters_never_exit_witness :
  is_Some (unbonding_attesters (snd (exiting demo)) !! 2) /\ Exited 2 ∉ [@Quiet test_spec ChainDemo.pair_root (N * list N)].
Proof.
  split; [vm_compute; by eexists|].
  apply (attesters_never_exit open_proof attester_key to_attestation verify ProverClaims.burn_ok demo (snd (exiting demo)) 0 5
           [Quiet] 2 attester_demo_ready eq_refl); [done|done|].
  eapply steps_step; [apply exiting_step; vm_compute; reflexivity|apply steps_refl].
Defined.
End AttesterClaims.
