(* ===== verification/RevenueShare.v ===== *)
(** * The revenue share module

    module-implementations/sov-revenue-share: other modules pay a share of their revenue
    to this module, from which the admin of the SDK withdraws it.  The address derived from
    the public key that the crypto spec fixes is the parameter [sovereign_admin].  The bank
    is the one of the sequencer registry.

    The theorems: what a call does and who may send it, that the share never exceeds a
    tenth of the revenue, and what paying it changes. *)

From Stdlib Require Import NArith Lia.
From stdpp Require Import base numbers gmap strings option list.
From S2P Require Import Prelude Ints Gas StateAccess Bank SequencerRegistry.

Module RevenueShare.
Section RevenueShare.
Context {Sp : Spec} (sovereign_admin : Address).

Definition MAX_REVENUE_SHARE_PERCENTAGE_IN_BASIS_POINTS : N := 1000.

Inductive CallMessage : Type :=
| ActivateRevenueShare
| DeactivateRevenueShare
| LowerRevenuePercentage (percentage_in_basis_points : N)
| UpdateSovereignAdmin (new_admin : Address)
| WithdrawRewards (token_id : TokenId).

(** [RevenueShareError] and the other errors, as [anyhow::Error]. *)
Inductive RevenueShareError : Type :=
| StateError (e : StateAccessorError)
| TransferError (e : Bank.TransferTokenError)
| NotAuthorized
| CannotIncreasePercentage (current_bps new_bps : N)
| InvalidPercentage (value : N)
| NoRevenueToWithdraw.

Record t : Type := mk {
  id : ModuleId;
  is_active : option bool;
  revenue_share_percentage_bps : option N;
  sovereign_admin_override : option Address;
  sequencer_registry : SequencerRegistry.t
}.

Definition active_value : StateValue t bool :=
  mkStateValue "sov_revenue_share/RevenueShare/is_active" User is_active
    (fun v s => mk (id s) v (revenue_share_percentage_bps s) (sovereign_admin_override s) (sequencer_registry s)).
Definition percentage_value : StateValue t N :=
  mkStateValue "sov_revenue_share/RevenueShare/revenue_share_percentage_bps" User revenue_share_percentage_bps
    (fun v s => mk (id s) (is_active s) v (sovereign_admin_override s) (sequencer_registry s)).
Definition override_value : StateValue t Address :=
  mkStateValue "sov_revenue_share/RevenueShare/sovereign_admin_override" User sovereign_admin_override
    (fun v s => mk (id s) (is_active s) (revenue_share_percentage_bps s) v (sequencer_registry s)).

Definition put_registry (r : SequencerRegistry.t) (s : t) : t :=
  mk (id s) (is_active s) (revenue_share_percentage_bps s) (sovereign_admin_override s) r.
Definition bank (s : t) : Bank.t := SequencerRegistry.bank (sequencer_registry s).
Definition put_bank (b : Bank.t) (s : t) : t := put_registry (SequencerRegistry.set_bank b (sequencer_registry s)) s.

Section Operations.
Context {G : Type} `{GasMeter G}.

Definition access {A} (m : M (acc G t) StateAccessorError A) : M (acc G t) RevenueShareError A := map_err StateError m.
Definition on_bank {E A} (m : M (acc G Bank.t) E A) : M (acc G t) E A := zoom bank put_bank m.
Definition on_registry {E A} (m : M (acc G SequencerRegistry.t) E A) : M (acc G t) E A := zoom sequencer_registry put_registry m.

(** The results of the writes are ignored. *)
Definition genesis : M (acc G t) RevenueShareError unit :=
  let! _ := try_catch (value_set active_value false) in
  let! _ := try_catch (value_set percentage_value MAX_REVENUE_SHARE_PERCENTAGE_IN_BASIS_POINTS) in
  ret tt.

Definition is_preferred_sequencer (context : Context Sp) : M (acc G t) RevenueShareError bool :=
  let! preferred_sequencer := try_catch (on_registry SequencerRegistry.get_preferred_sequencer) in
  match preferred_sequencer with
  | inl (Some (_, preferred_sequencer_address)) => ret (bool_decide (sequencer context = preferred_sequencer_address))
  | _ => ret false
  end.

Definition check_if_sender_is_sov_admin (context : Context Sp) : M (acc G t) RevenueShareError unit :=
  let! override := access (value_get override_value) in
  let admin_address := default sovereign_admin override in
  ensure (bool_decide (sender context = admin_address)) NotAuthorized.

(** An error of the read is treated like a value that is not set. *)
Definition get_revenue_share_percentage_bps : M (acc G t) RevenueShareError N :=
  let! r := try_catch (value_get percentage_value) in
  ret match r with inl (Some bps) => bps | _ => MAX_REVENUE_SHARE_PERCENTAGE_IN_BASIS_POINTS end.

Definition pay_revenue_share (from : Address) (tid : TokenId) (amount : N) : M (acc G t) RevenueShareError unit :=
  let! active := access (value_get active_value) in
  if negb (default false active) then ret tt
  else
    let! self_id := gets id in
    map_err TransferError (on_bank (Bank.transfer_from (HolderUser from) (HolderModule self_id) (Bank.mkCoins amount tid))).

Definition compute_and_pay_revenue_share (from : Address) (tid : TokenId) (total_revenue : N)
  : M (acc G t) RevenueShareError unit :=
  let! bps := get_revenue_share_percentage_bps in
  let! revenue_share_amount := expect_some (Amount.saturating_div (Amount.saturating_mul total_revenue bps) 10000) in
  pay_revenue_share from tid revenue_share_amount.

Definition activate_revenue_share (context : Context Sp) : M (acc G t) RevenueShareError unit :=
  check_if_sender_is_sov_admin context ;;;
  access (value_set active_value true).

Definition deactivate_revenue_share (context : Context Sp) : M (acc G t) RevenueShareError unit :=
  check_if_sender_is_sov_admin context ;;;
  access (value_set active_value false).

Definition lower_revenue_percentage (percentage_bps : N) (context : Context Sp) : M (acc G t) RevenueShareError unit :=
  check_if_sender_is_sov_admin context ;;;
  let! current_percentage_bps := get_revenue_share_percentage_bps in
  ensure (percentage_bps <=? current_percentage_bps) (CannotIncreasePercentage current_percentage_bps percentage_bps) ;;;
  ensure (percentage_bps <=? MAX_REVENUE_SHARE_PERCENTAGE_IN_BASIS_POINTS) (InvalidPercentage percentage_bps) ;;;
  access (value_set percentage_value percentage_bps).

Definition update_sovereign_admin (new_admin : Address) (context : Context Sp) : M (acc G t) RevenueShareError unit :=
  check_if_sender_is_sov_admin context ;;;
  access (value_set override_value new_admin).

Definition withdraw_rewards (tid : TokenId) (context : Context Sp) : M (acc G t) RevenueShareError unit :=
  check_if_sender_is_sov_admin context ;;;
  let! self_id := gets id in
  let! total_amount := access (on_bank (Bank.get_balance_of (HolderModule self_id) tid)) in
  let total_amount := default 0 total_amount in
  ensure (negb (total_amount =? 0)) NoRevenueToWithdraw ;;;
  map_err TransferError
    (on_bank (Bank.transfer_from (HolderModule self_id) (HolderUser (sender context)) (Bank.mkCoins total_amount tid))).

Definition call (msg : CallMessage) (context : Context Sp) : M (acc G t) RevenueShareError unit :=
  match msg with
  | ActivateRevenueShare => activate_revenue_share context
  | DeactivateRevenueShare => deactivate_revenue_share context
  | LowerRevenuePercentage bps => lower_revenue_percentage bps context
  | UpdateSovereignAdmin new_admin => update_sovereign_admin new_admin context
  | WithdrawRewards tid => withdraw_rewards tid context
  end.
End Operations.
End RevenueShare.
End RevenueShare.

(** ** The specification *)
Module RevenueSpec.
Import RevenueShare.
Section Spec.
Context {Sp : Spec} (sovereign_admin : Address).
Implicit Types (s : t) (a : Address).

Definition admin s : Address := default sovereign_admin (sovereign_admin_override s).
Definition percentage s : N := default MAX_REVENUE_SHARE_PERCENTAGE_IN_BASIS_POINTS (revenue_share_percentage_bps s).
Definition active s : bool := default false (is_active s).
Definition collected s tid : N := Bank.balance (bank s) (HolderModule (id s)) tid.

(** The share of a revenue, rounded down; the product stays within an [Amount]. *)
Definition share s (total : N) : N := N.min (total * percentage s) u128_max / 10000.

Definition moved s from to tid amt : t := put_bank (Bank.transferred (bank s) from to tid amt) s.

Definition permitted a (msg : CallMessage) s : Prop :=
  a = admin s /\
  match msg with
  | LowerRevenuePercentage bps => bps <= percentage s /\ bps <= MAX_REVENUE_SHARE_PERCENTAGE_IN_BASIS_POINTS
  | WithdrawRewards tid => collected s tid <> 0
  | _ => True
  end.

Definition effect a (msg : CallMessage) s : t :=
  match msg with
  | ActivateRevenueShare => mk (id s) (Some true) (revenue_share_percentage_bps s) (sovereign_admin_override s) (sequencer_registry s)
  | DeactivateRevenueShare => mk (id s) (Some false) (revenue_share_percentage_bps s) (sovereign_admin_override s) (sequencer_registry s)
  | LowerRevenuePercentage bps => mk (id s) (is_active s) (Some bps) (sovereign_admin_override s) (sequencer_registry s)
  | UpdateSovereignAdmin new => mk (id s) (is_active s) (revenue_share_percentage_bps s) (Some new) (sequencer_registry s)
  | WithdrawRewards tid => moved s (HolderModule (id s)) (HolderUser a) tid (collected s tid)
  end.

Section Rules.
Context {G : Type} `{GasMeterLaws G}.

(** Without a refused charge a message succeeds exactly when it is permitted.  With one,
    the percentage that could not be read counts as the maximum. *)
Definition exact a (msg : CallMessage) s (o : outcome RevenueShareError unit) s' : Prop :=
  match o with
  | Ok _ =>
      s' = effect a msg s /\
      (permitted a msg s \/ can_fail (G := G) /\ a = admin s /\
         exists bps, msg = LowerRevenuePercentage bps /\ bps <= MAX_REVENUE_SHARE_PERCENTAGE_IN_BASIS_POINTS)
  | Err _ => can_fail (G := G) \/ ~ permitted a msg s
  | Panic => False
  end.

Lemma wp_revenue_check_admin c (Q : outcome RevenueShareError unit -> t -> Prop) s :
  (forall e, can_fail \/ sender c <> admin s -> Q (Err e) s) -> (sender c = admin s -> Q (Ok tt) s) ->
  wp (check_if_sender_is_sov_admin sovereign_admin c) Q s.
Proof.
  intros He Hok. unfold check_if_sender_is_sov_admin, access, admin in *. wp_step. wp_step. wp_step; [auto|]. cbn.
  wp_step; wp_red; checked_simpl; auto.
Qed.

Lemma wp_get_percentage (Q : outcome RevenueShareError N -> t -> Prop) s :
  (can_fail -> Q (Ok MAX_REVENUE_SHARE_PERCENTAGE_IN_BASIS_POINTS) s) -> Q (Ok (percentage s)) s ->
  wp get_revenue_share_percentage_bps Q s.
Proof.
  intros Hf Hok. unfold get_revenue_share_percentage_bps, percentage in *. wp_step. apply wp_try_catch. wp_red.
  wp_step; [by wp_step; auto|]. cbn. wp_step. by destruct (revenue_share_percentage_bps s).
Qed.

Lemma wp_transfer_on_bank from to tid amt (Q : outcome RevenueShareError unit -> t -> Prop) s :
  Bank.inv (bank s) ->
  (forall e s', can_fail \/ Bank.balance (bank s) from tid < amt -> Q (Err e) s') ->
  (amt <= Bank.balance (bank s) from tid -> Q (Ok tt) (moved s from to tid amt)) ->
  wp (map_err TransferError (on_bank (Bank.transfer_from from to (Bank.mkCoins amt tid)))) Q s.
Proof.
  intros Hinv He Hok. unfold on_bank, Bank.transfer_from. wp_step. apply wp_zoom. cbn [Bank.token_id Bank.amount].
  apply BankFacts.wp_do_transfer; wp_red; [done|by auto..].
Qed.

Lemma wp_revenue_pay from tid amt (Q : outcome RevenueShareError unit -> t -> Prop) s :
  Bank.inv (bank s) ->
  (forall e s', can_fail \/ active s = true /\ Bank.balance (bank s) (HolderUser from) tid < amt -> Q (Err e) s') ->
  (active s = false -> Q (Ok tt) s) ->
  (active s = true -> amt <= Bank.balance (bank s) (HolderUser from) tid ->
     Q (Ok tt) (moved s (HolderUser from) (HolderModule (id s)) tid amt)) ->
  wp (pay_revenue_share from tid amt) Q s.
Proof.
  intros Hinv He Hoff Hon. unfold pay_revenue_share, access, active in *. wp_step. wp_step. wp_step; [auto|]. cbn.
  destruct (default false (is_active s)); cbn; [|wp_step; auto]. wp_step. wp_step. wp_red.
  apply wp_transfer_on_bank; [done| |by auto]. intros e s' [?|?]; auto.
Qed.

Lemma wp_lower bps c s :
  wp (lower_revenue_percentage sovereign_admin bps c) (exact (sender c) (LowerRevenuePercentage bps) s) s.
Proof.
  unfold lower_revenue_percentage, access. wp_step.
  apply wp_revenue_check_admin; wp_red; [intros e [?|Hn]; [by left|right; by intros [? _]]|]. intros Ha.
  wp_step. apply wp_get_percentage; wp_red; [intros Hf|].
  - repeat wp_step; try (by left). checked_simpl. split; [done|]. right. split_and!; [done|done|]. by exists bps.
  - wp_step. wp_step; wp_red; checked_simpl; [|right; intros [_ [? _]]; lia].
    wp_step. wp_step; wp_red; checked_simpl; [|right; intros [_ [_ ?]]; lia].
    wp_step. wp_step; [by left|]. split; [done|]. left. by split_and!.
Qed.

Lemma put_bank_same s : put_bank (bank s) s = s.
Proof. by destruct s as [? ? ? ? []]. Qed.

Lemma wp_revenue_withdraw tid c s :
  Bank.inv (bank s) -> wp (withdraw_rewards sovereign_admin tid c) (exact (sender c) (WithdrawRewards tid) s) s.
Proof.
  intros Hinv. unfold withdraw_rewards, access. wp_step.
  apply wp_revenue_check_admin; wp_red; [intros e [?|Hn]; [by left|right; by intros [? _]]|]. intros Ha.
  wp_step. wp_step. wp_red. wp_step. wp_step. unfold on_bank at 1. apply wp_zoom. unfold Bank.get_balance_of.
  wp_step; [by left|]. rewrite put_bank_same. cbn [val_read map_read Bank.balances_map].
  change (default 0 (Bank.balances (bank s) !! (HolderModule (id s), tid))) with (collected s tid).
  wp_step. wp_step; wp_red; checked_simpl; [|right; by intros [_ ?]].
  apply wp_transfer_on_bank; [done| |].
  - intros e s' [?|Hlt]; [by left|]. unfold collected in Hlt. lia.
  - intros _. split; [done|]. left. by split.
Qed.

Lemma wp_revenue_call msg c s : Bank.inv (bank s) -> wp (call sovereign_admin msg c) (exact (sender c) msg s) s.
Proof.
  intros Hinv. destruct msg; cbn [call]; [| |by apply wp_lower| |by apply wp_revenue_withdraw].
  all: unfold activate_revenue_share, deactivate_revenue_share, update_sovereign_admin, access; wp_step;
    apply wp_revenue_check_admin; wp_red; [intros e [?|Hn]; [by left|right; by intros [? _]]|]; intros Ha;
    wp_step; (wp_step; [by left|]); (split; [done|]); left; by split.
Qed.
End Rules.

(** ** Histories: calls that succeed, and payments of other modules, on any meter *)
Inductive history {G : Type} `{GasMeterLaws G} (s : t) : t -> Prop :=
| history_nil : history s s
| history_call s1 (g g' : G) msg c s2 :
    history s s1 -> meter_wf g -> call sovereign_admin msg c (Acc g s1) = (Ok tt, Acc g' s2) -> history s s2
| history_pay s1 (g g' : G) from tid total s2 :
    history s s1 -> meter_wf g -> compute_and_pay_revenue_share from tid total (Acc g s1) = (Ok tt, Acc g' s2) -> history s s2.

Definition sound s : Prop := Bank.inv (bank s) /\ percentage s <= MAX_REVENUE_SHARE_PERCENTAGE_IN_BASIS_POINTS.

Lemma sound_moved s from to tid amt :
  sound s -> amt <= Bank.balance (bank s) from tid -> sound (moved s from to tid amt).
Proof. intros [Hi Hp] Ha. split; [by apply BankFacts.inv_transferred|done]. Qed.

Lemma share_bounded s total : sound s -> share s total <= total / 10.
Proof.
  intros [_ Hp]. unfold share, MAX_REVENUE_SHARE_PERCENTAGE_IN_BASIS_POINTS in *.
  transitivity (total * 1000 / 10000); [apply N.Div0.div_le_mono; nia|].
  change 10000 with (10 * 1000). by rewrite N.Div0.div_mul_cancel_r.
Qed.

Lemma wp_compute_and_pay {G : Type} `{GasMeterLaws G} from tid total (Q : outcome RevenueShareError unit -> t -> Prop) s :
  Bank.inv (bank s) ->
  (forall e s', can_fail \/ active s = true /\ Bank.balance (bank s) (HolderUser from) tid < share s total -> Q (Err e) s') ->
  (active s = false -> Q (Ok tt) s) ->
  (forall amt, amt = share s total \/ can_fail -> active s = true -> amt <= Bank.balance (bank s) (HolderUser from) tid ->
     Q (Ok tt) (moved s (HolderUser from) (HolderModule (id s)) tid amt)) ->
  wp (compute_and_pay_revenue_share from tid total) Q s.
Proof.
  intros Hinv He Hoff Hon. unfold compute_and_pay_revenue_share. wp_step.
  apply wp_get_percentage; wp_red; [intros Hf|]; cbn; wp_step; wp_step; cbn in *; try congruence; simplify_eq;
    apply wp_revenue_pay; auto.
Qed.

Lemma history_sound {G : Type} `{GasMeterLaws G} s s' : history (G := G) s s' -> sound s -> sound s'.
Proof.
  induction 1 as [|s1 g g' msg c s2 _ IH Hg Hrun|s1 g g' from tid total s2 _ IH Hg Hrun]; [done|..]; intros Hs; specialize (IH Hs).
  - pose proof (wp_revenue_call msg c s1 (proj1 IH) g Hg) as Hx. rewrite Hrun in Hx. destruct Hx as [_ [He Hp]]. cbn in He, Hp. subst s2.
    destruct msg; cbn [effect]; try exact IH.
    + split; [exact (proj1 IH)|]. unfold percentage. cbn. destruct Hp as [[_ [_ ?]]|(_ & _ & b & [= <-] & ?)]; done.
    + by apply sound_moved.
  - assert (wp (compute_and_pay_revenue_share from tid total) (fun o s' => o = Ok tt -> sound s') s1) as Hw.
    { apply wp_compute_and_pay; [apply IH|done|done|]. intros amt _ _ Ha _. by apply sound_moved. }
    specialize (Hw g Hg). rewrite Hrun in Hw. by apply Hw.
Qed.
End Spec.
End RevenueSpec.

(** ** Properties *)
Module RevenueProperties.
Import RevenueShare RevenueSpec.

(** Every call, on any gas meter: only the admin succeeds, with exactly the effect of the
    message; a call fails only when it is not permitted or a charge is refused; it never panics. *)
Theorem revenue_call_exact {Sp : Spec} {G : Type} `{GasMeterLaws G} sovereign_admin (g : G) msg c (s : t)
    (Hg : meter_wf g) (Hinv : Bank.inv (bank s)) :
  exists o g' s', call sovereign_admin msg c (Acc g s) = (o, Acc g' s')
    /\ exact (G := G) sovereign_admin (sender c) msg s o s'.
Proof.
  pose proof (wp_revenue_call sovereign_admin msg c s Hinv g Hg) as Hx.
  destruct (call sovereign_admin msg c (Acc g s)) as [o [g' s']]. exists o, g', s'. by destruct Hx.
Qed.

(** The share of a payer is bounded: after any history of calls and payments, paying the
    share of a revenue either leaves everything as it is, when sharing is off, or moves at most a
    tenth of the revenue, exactly the configured percentage rounded down, from the payer to the
    module, or fails because the payer has less. *)
Theorem revenue_share_bounded {Sp : Spec} {G : Type} `{GasMeterLaws G} sovereign_admin (s s' : t) from tid total
    (Hs : sound s) (Hh : history (G := G) sovereign_admin s s') :
  share s' total <= total / 10 /\
  exists o s2, compute_and_pay_revenue_share from tid total (Acc tt s') = (o, Acc tt s2) /\
    match o with
    | Ok _ => s2 = (if active s' then moved s' (HolderUser from) (HolderModule (id s')) tid (share s' total) else s')
    | Err _ => active s' = true /\ Bank.balance (bank s') (HolderUser from) tid < share s' total
    | Panic => False
    end.
Proof.
  pose proof (history_sound (G := G) sovereign_admin s s' Hh Hs) as Hs'. split; [by apply share_bounded|].
  apply (wp_result (compute_and_pay_revenue_share from tid total) (fun o s2 =>
    match o with
    | Ok _ => s2 = (if active s' then moved s' (HolderUser from) (HolderModule (id s')) tid (share s' total) else s')
    | Err _ => active s' = true /\ Bank.balance (bank s') (HolderUser from) tid < share s' total
    | Panic => False
    end)).
  apply wp_compute_and_pay; [apply Hs'| | |].
  - intros e s2 [[]|?]. done.
  - by intros ->.
  - by intros amt [->|[]] ->.
Qed.

Definition demo_share : t (Sp := test_spec) :=
  @mk test_spec [9] (Some true) (Some 1000) None
    (@SequencerRegistry.mk test_spec [8] BankDemo.demo ∅ None None []).

Definition admin_context : Context test_spec := BankDemo.demo_context 7.

Lemma revenue_call_exact_witness :
  exists o g' s', call (Sp := test_spec) (G := unit) 7%N (LowerRevenuePercentage 500) admin_context (Acc tt demo_share) = (o, Acc g' s')
    /\ exact (Sp := test_spec) (G := unit) 7%N 7%N (LowerRevenuePercentage 500) demo_share o s'.
Proof.
  apply (revenue_call_exact (Sp := test_spec) (G := unit) 7%N tt (LowerRevenuePercentage 500) admin_context demo_share).
  - exact I.
  - exact BankDemo.demo_inv.
Defined.

Lemma revenue_share_bounded_witness : share (Sp := test_spec) demo_share 100 <= 10.
Proof.
  apply (revenue_share_bounded (Sp := test_spec) (G := unit) 7%N demo_share demo_share 1%N BankDemo.demo_id 100).
  - split; [exact BankDemo.demo_inv|vm_compute; discriminate].
  - constructor.
Defined.
End RevenueProperties.
