(* ===== verification/Blacklist.v ===== *)
(** * The blacklist module

    module-implementations/sb-blacklist: an owner, a manager, signers who maintain a
    list of wallets, and the check that other modules call.

    The theorems: a call does exactly what the role of its sender permits, and a
    wallet is on the list exactly if the last signer who wrote about it put it there. *)

From Stdlib Require Import NArith Lia.
From stdpp Require Import base numbers gmap strings option list.
From S2P Require Import Prelude Ints Gas StateAccess.

Module Blacklist.
Section Blacklist.
Context {Sp : Spec}.

Inductive CallMessage : Type :=
| SetManager (new_manager : Address)
| SetEnforcementEnabled (enabled : bool)
| SetBlacklistSigner (signer : Address) (allowed : bool)
| SetBlacklisted (wallet : Address) (is_blacklisted : bool)
| SetBlacklistedBatch (wallets : list Address) (are_blacklisted : list bool)
| EnforceNotBlacklisted (wallet : Address)
| TransferOwnership (new_owner : Address).

Inductive Event : Type :=
| ManagerSet (old_manager : option Address) (new_manager : Address)
| EnforcementEnabledSet (enabled : bool)
| BlacklistSignerSet (signer : Address) (allowed : bool)
| BlacklistSet (wallet : Address) (is_blacklisted : bool)
| OwnershipTransferred (old_owner new_owner : Address).

(** [BlacklistError] and the errors of the accessor, as [anyhow::Error]. *)
Inductive BlacklistError : Type :=
| StateError (e : StateAccessorError)
| OwnerNotInitialized
| ManagerNotInitialized
| UnauthorizedOwner
| UnauthorizedManager
| UnauthorizedBlacklistSigner
| WalletBlacklisted
| InvalidBatchLengths.

Record t : Type := mk {
  owner : option Address;
  manager : option Address;
  enforcement_enabled : option bool;
  blacklisted : gmap Address bool;
  blacklist_signers : gmap Address bool;
  events : list Event
}.

Definition owner_value : StateValue t Address :=
  mkStateValue "sb_blacklist/Blacklist/owner" User owner
    (fun v s => mk v (manager s) (enforcement_enabled s) (blacklisted s) (blacklist_signers s) (events s)).
Definition manager_value : StateValue t Address :=
  mkStateValue "sb_blacklist/Blacklist/manager" User manager
    (fun v s => mk (owner s) v (enforcement_enabled s) (blacklisted s) (blacklist_signers s) (events s)).
Definition enforcement_value : StateValue t bool :=
  mkStateValue "sb_blacklist/Blacklist/enforcement_enabled" User enforcement_enabled
    (fun v s => mk (owner s) (manager s) v (blacklisted s) (blacklist_signers s) (events s)).
Definition blacklisted_map : StateMap t Address bool :=
  mkStateMap "sb_blacklist/Blacklist/blacklisted" User blacklisted
    (fun m s => mk (owner s) (manager s) (enforcement_enabled s) m (blacklist_signers s) (events s)).
Definition signers_map : StateMap t Address bool :=
  mkStateMap "sb_blacklist/Blacklist/blacklist_signers" User blacklist_signers
    (fun m s => mk (owner s) (manager s) (enforcement_enabled s) (blacklisted s) m (events s)).

Record BlacklistConfig : Type := mkConfig {
  cfg_owner : Address;
  cfg_manager : Address;
  cfg_enforcement_enabled : bool
}.

Section Operations.
Context {G : Type} `{GasMeter G}.

Definition access {A} (m : M (acc G t) StateAccessorError A) : M (acc G t) BlacklistError A := map_err StateError m.

Definition emit_event (e : Event) : M (acc G t) BlacklistError unit :=
  modify (fun s => mk (owner s) (manager s) (enforcement_enabled s) (blacklisted s) (blacklist_signers s) (events s ++ [e])).

(** ** lib.rs *)
Definition genesis (config : BlacklistConfig) : M (acc G t) BlacklistError unit :=
  access (value_set owner_value (cfg_owner config)) ;;;
  access (value_set manager_value (cfg_manager config)) ;;;
  access (value_set enforcement_value (cfg_enforcement_enabled config)).

Definition is_blacklisted (wallet : Address) : M (acc G t) BlacklistError bool :=
  let! b := access (map_get blacklisted_map wallet) in
  ret (default false b).

Definition enforce_not_blacklisted (wallet : Address) : M (acc G t) BlacklistError unit :=
  let! enabled := access (value_get enforcement_value) in
  if negb (default true enabled) then ret tt
  else
    let! b := is_blacklisted wallet in
    if b then throw WalletBlacklisted else ret tt.

Definition is_manager (who : Address) : M (acc G t) BlacklistError bool :=
  let! m := access (value_get manager_value) in
  let! m := ok_or m ManagerNotInitialized in
  ret (bool_decide (who = m)).

Definition is_owner (who : Address) : M (acc G t) BlacklistError bool :=
  let! o := access (value_get owner_value) in
  let! o := ok_or o OwnerNotInitialized in
  ret (bool_decide (who = o)).

Definition is_blacklist_signer (signer : Address) : M (acc G t) BlacklistError bool :=
  let! b := access (map_get signers_map signer) in
  ret (default false b).

Definition write_blacklist (wallet : Address) (b : bool) : M (acc G t) BlacklistError unit :=
  (if b then access (map_set blacklisted_map wallet true)
   else let! _ := access (map_remove blacklisted_map wallet) in ret tt) ;;;
  emit_event (BlacklistSet wallet b).

(** ** call.rs *)
Definition execute (msg : CallMessage) (context : Context Sp) : M (acc G t) BlacklistError unit :=
  match msg with
  | SetManager new_manager =>
      let! ok := is_owner (sender context) in
      ensure ok UnauthorizedOwner ;;;
      let! old_manager := access (value_get manager_value) in
      access (value_set manager_value new_manager) ;;;
      emit_event (ManagerSet old_manager new_manager)
  | SetEnforcementEnabled enabled =>
      let! ok := is_owner (sender context) in
      ensure ok UnauthorizedOwner ;;;
      access (value_set enforcement_value enabled) ;;;
      emit_event (EnforcementEnabledSet enabled)
  | SetBlacklistSigner signer allowed =>
      let! ok := is_manager (sender context) in
      ensure ok UnauthorizedManager ;;;
      (if allowed then access (map_set signers_map signer true)
       else let! _ := access (map_remove signers_map signer) in ret tt) ;;;
      emit_event (BlacklistSignerSet signer allowed)
  | SetBlacklisted wallet b =>
      let! ok := is_blacklist_signer (sender context) in
      ensure ok UnauthorizedBlacklistSigner ;;;
      write_blacklist wallet b
  | SetBlacklistedBatch wallets bs =>
      let! ok := is_blacklist_signer (sender context) in
      ensure ok UnauthorizedBlacklistSigner ;;;
      ensure (len wallets =? len bs) InvalidBatchLengths ;;;
      for_each (fun p => write_blacklist (fst p) (snd p)) (zip wallets bs)
  | EnforceNotBlacklisted wallet => enforce_not_blacklisted wallet
  | TransferOwnership new_owner =>
      let! ok := is_owner (sender context) in
      ensure ok UnauthorizedOwner ;;;
      let! old_owner := access (value_get owner_value) in
      let! old_owner := expect_some old_owner in
      access (value_set owner_value new_owner) ;;;
      emit_event (OwnershipTransferred old_owner new_owner)
  end.

Definition call (msg : CallMessage) (context : Context Sp) : M (acc G t) BlacklistError unit := execute msg context.
End Operations.
End Blacklist.
End Blacklist.

(** ** The specification *)
Module BlacklistSpec.
Import Blacklist.
Section Spec.
Context {Sp : Spec}.
Implicit Types (s : t) (a : Address).

(** Who may send which message. *)
Definition listed s a : bool := default false (blacklisted s !! a).
Definition signs s a : bool := default false (blacklist_signers s !! a).

Definition permitted (a : Address) (msg : CallMessage) (s : t) : Prop :=
  match msg with
  | SetManager _ | SetEnforcementEnabled _ | TransferOwnership _ => owner s = Some a
  | SetBlacklistSigner _ _ => manager s = Some a
  | SetBlacklisted _ _ => signs s a = true
  | SetBlacklistedBatch wallets bs => signs s a = true /\ len wallets = len bs
  | EnforceNotBlacklisted wallet => enforcement_enabled s = Some false \/ listed s wallet = false
  end.

Definition put_flag (m : gmap Address bool) (a : Address) (b : bool) : gmap Address bool :=
  if b then <[a := true]> m else delete a m.

Definition log (e : Event) s : t :=
  mk (owner s) (manager s) (enforcement_enabled s) (blacklisted s) (blacklist_signers s) (events s ++ [e]).

Definition written s (p : Address * bool) : t :=
  log (BlacklistSet (fst p) (snd p))
    (mk (owner s) (manager s) (enforcement_enabled s) (put_flag (blacklisted s) (fst p) (snd p)) (blacklist_signers s) (events s)).

(** What a message does. *)
Definition effect (msg : CallMessage) (s : t) : t :=
  match msg with
  | SetManager m =>
      log (ManagerSet (manager s) m)
        (mk (owner s) (Some m) (enforcement_enabled s) (blacklisted s) (blacklist_signers s) (events s))
  | SetEnforcementEnabled b =>
      log (EnforcementEnabledSet b) (mk (owner s) (manager s) (Some b) (blacklisted s) (blacklist_signers s) (events s))
  | SetBlacklistSigner a b =>
      log (BlacklistSignerSet a b)
        (mk (owner s) (manager s) (enforcement_enabled s) (blacklisted s) (put_flag (blacklist_signers s) a b) (events s))
  | SetBlacklisted a b => written s (a, b)
  | SetBlacklistedBatch wallets bs => foldl written s (zip wallets bs)
  | EnforceNotBlacklisted _ => s
  | TransferOwnership o =>
      match owner s with
      | Some old =>
          log (OwnershipTransferred old o)
            (mk (Some o) (manager s) (enforcement_enabled s) (blacklisted s) (blacklist_signers s) (events s))
      | None => s
      end
  end.

(** The last decision about a wallet in a list of messages that were executed. *)
Fixpoint last_word (a : Address) (l : list (Address * bool)) : option bool :=
  match l with
  | [] => None
  | (a', b) :: l => match last_word a l with Some b => Some b | None => if bool_decide (a' = a) then Some b else None end
  end.

Definition writes (msg : CallMessage) : list (Address * bool) :=
  match msg with
  | SetBlacklisted a b => [(a, b)]
  | SetBlacklistedBatch wallets bs => zip wallets bs
  | _ => []
  end.

Section Rules.
Context {G : Type} `{GasMeterLaws G}.

(** The outcome of a message: its effect, or an error because it is not permitted or
    a charge was refused. *)
Definition exact (a : Address) (msg : CallMessage) s (o : outcome BlacklistError unit) s' : Prop :=
  match o with
  | Ok _ => permitted a msg s /\ s' = effect msg s
  | Err _ => can_fail (G := G) \/ ~ permitted a msg s
  | Panic => False
  end.

Lemma wp_blacklist_is_owner a (Q : outcome BlacklistError bool -> t -> Prop) s :
  (forall e, can_fail \/ owner s <> Some a -> Q (Err e) s) ->
  (forall b, (b = true <-> owner s = Some a) -> is_Some (owner s) -> Q (Ok b) s) -> wp (is_owner a) Q s.
Proof.
  intros He Hok. unfold is_owner, access. repeat wp_step; cbn in *; auto; try (apply He; right; congruence).
  apply Hok; [|eauto]. rewrite bool_decide_eq_true. naive_solver.
Qed.

Lemma wp_blacklist_is_manager a (Q : outcome BlacklistError bool -> t -> Prop) s :
  (forall e, can_fail \/ manager s <> Some a -> Q (Err e) s) ->
  (forall b, (b = true <-> manager s = Some a) -> Q (Ok b) s) -> wp (is_manager a) Q s.
Proof.
  intros He Hok. unfold is_manager, access. repeat wp_step; cbn in *; auto; try (apply He; right; congruence).
  apply Hok. rewrite bool_decide_eq_true. naive_solver.
Qed.

Lemma wp_is_blacklist_signer a (Q : outcome BlacklistError bool -> t -> Prop) s :
  (forall e, can_fail -> Q (Err e) s) -> Q (Ok (signs s a)) s -> wp (is_blacklist_signer a) Q s.
Proof. intros He Hok. unfold is_blacklist_signer, access. repeat wp_step; auto. Qed.

Lemma wp_write_blacklist a b (Q : outcome BlacklistError unit -> t -> Prop) s :
  (forall e s', can_fail -> Q (Err e) s') -> Q (Ok tt) (written s (a, b)) -> wp (write_blacklist a b) Q s.
Proof. intros He Hok. unfold write_blacklist, access, emit_event. destruct b; repeat wp_step; auto. Qed.

Lemma wp_blacklist_write_all l (Q : outcome BlacklistError unit -> t -> Prop) s :
  (forall e s', can_fail -> Q (Err e) s') -> Q (Ok tt) (foldl written s l) ->
  wp (for_each (fun p => write_blacklist (fst p) (snd p)) l) Q s.
Proof.
  intros He Hok. apply (wp_for_each _ (fun pre s' => s' = foldl written s pre)); [done| |by intros s' ->].
  intros pre [a b] rest s' _ ->. apply wp_write_blacklist; [by auto|]. by rewrite foldl_app.
Qed.

Lemma wp_enforce a (Q : outcome BlacklistError unit -> t -> Prop) s :
  (forall e, can_fail \/ (enforcement_enabled s <> Some false /\ listed s a = true) -> Q (Err e) s) ->
  (enforcement_enabled s = Some false \/ listed s a = false -> Q (Ok tt) s) -> wp (enforce_not_blacklisted a) Q s.
Proof.
  intros He Hok. unfold enforce_not_blacklisted, is_blacklisted, access, listed in *. wp_step. wp_step. wp_step; [auto|]. cbn.
  destruct (enforcement_enabled s) as [[]|] eqn:E; cbn; [|wp_step; auto|]; repeat wp_step; auto;
    destruct (default false _) eqn:D; cbn in *; rewrite ?D; repeat wp_step; auto.
Qed.

Lemma wp_blacklist_execute msg c s : wp (execute msg c) (exact (sender c) msg s) s.
Proof.
  destruct msg; cbn [execute].
  1, 2, 7: wp_step; apply wp_blacklist_is_owner; wp_red; [by intros e [?|?]; [left|right]|]; intros b Hb [o Ho];
    wp_step; wp_step; wp_red; [|right; cbn; naive_solver]; apply Hb in H1 as Hown; unfold access, emit_event;
    repeat wp_step; cbn in *; auto; try congruence; simplify_eq; (split; [done|]); cbn; by rewrite ?Ho.
  - wp_step. apply wp_blacklist_is_manager; wp_red; [by intros e [?|?]; [left|right]|]. intros b Hb.
    wp_step. wp_step; wp_red; [|right; cbn; naive_solver]. apply Hb in H1 as Hown. unfold access, emit_event.
    destruct allowed; repeat wp_step; cbn in *; auto.
  - wp_step. apply wp_is_blacklist_signer; wp_red; [by left|]. wp_step. wp_step; wp_red; [|right; cbn; congruence].
    apply wp_write_blacklist; [by left|]. done.
  - wp_step. apply wp_is_blacklist_signer; wp_red; [by left|]. wp_step. wp_step; wp_red; [|right; cbn; intros [? _]; congruence].
    wp_step. wp_step; wp_red; checked_simpl; [|right; cbn; by intros [_ ?]]. apply wp_blacklist_write_all; [by left|]. done.
  - apply wp_enforce; [|done]. intros e [?|[? ?]]; [by left|right]. cbn. intros [?|?]; congruence.
Qed.
End Rules.

(** ** Histories: the messages that succeed, of any senders on any meter; one that fails
    is reverted *)
Inductive history {G : Type} `{GasMeterLaws G} (s : t) : list (Address * CallMessage * t) -> t -> Prop :=
| history_nil : history s [] s
| history_ok ls s1 (g g' : G) msg c s2 :
    history s ls s1 -> meter_wf g -> call msg c (Acc g s1) = (Ok tt, Acc g' s2) ->
    history s (ls ++ [(sender c, msg, s1)]) s2.

Lemma last_word_app a l1 l2 :
  last_word a (l1 ++ l2) = match last_word a l2 with Some b => Some b | None => last_word a l1 end.
Proof.
  induction l1 as [|[a' b] l1 IH]; cbn; [by destruct (last_word a l2)|]. rewrite IH. by destruct (last_word a l2).
Qed.

Lemma listed_written s p a : listed (written s p) a = default (listed s a) (last_word a [p]).
Proof.
  destruct p as [a' b]. unfold written, listed, put_flag. cbn. case_bool_decide as Ha.
  - subst. destruct b; [by rewrite lookup_insert_eq|by rewrite lookup_delete_eq].
  - destruct b; [by rewrite lookup_insert_ne|by rewrite lookup_delete_ne].
Qed.

Lemma listed_written_all l s a : listed (foldl written s l) a = default (listed s a) (last_word a l).
Proof.
  induction l as [|p l IH] using rev_ind; [done|]. rewrite foldl_app, last_word_app. cbn [foldl].
  rewrite listed_written, IH. by destruct (last_word a [p]).
Qed.

Lemma listed_effect msg s a : listed (effect msg s) a = default (listed s a) (last_word a (writes msg)).
Proof.
  destruct msg; cbn [effect writes]; try done; [apply listed_written|apply listed_written_all|by destruct (owner s)].
Qed.

Lemma history_listed {G : Type} `{GasMeterLaws G} s ls s' a :
  history (G := G) s ls s' ->
  listed s' a = default (listed s a) (last_word a (ls ≫= (fun x => writes (snd (fst x)))))
  /\ Forall (fun x => permitted (fst (fst x)) (snd (fst x)) (snd x)) ls.
Proof.
  induction 1 as [|ls s1 g g' msg c s2 _ [IH1 IH2] Hg Hrun]; [done|].
  pose proof (wp_blacklist_execute msg c s1 g Hg) as Hx. unfold call in Hrun. rewrite Hrun in Hx. destruct Hx as [_ [Hp Hs]]. cbn in Hs. subst s2.
  split; [|by apply Forall_app; split; [|constructor]].
  rewrite listed_effect, IH1, bind_app, last_word_app. cbn. rewrite app_nil_r. by destruct (last_word a (writes msg)).
Qed.
End Spec.
End BlacklistSpec.

(** ** Properties *)
Module BlacklistProperties.
Import Blacklist BlacklistSpec.

(** Every message, on any gas meter: it succeeds only when the role of its sender
    permits it and then does exactly what it says; it fails only when it is not permitted
    or a charge is refused; it never panics. *)
Theorem blacklist_call_exact {Sp : Spec} {G : Type} `{GasMeterLaws G} (g : G) msg c (s : t) (Hg : meter_wf g) :
  exists o g' s', call msg c (Acc g s) = (o, Acc g' s') /\ exact (G := G) (sender c) msg s o s'.
Proof.
  pose proof (wp_blacklist_execute msg c s g Hg) as Hx. unfold call.
  destruct (execute msg c (Acc g s)) as [o [g' s']]. exists o, g', s'. by destruct Hx.
Qed.

(** The blacklist is what its signers made it: after any history a wallet is on the list
    exactly if the last message that wrote about it put it there, and every message of the
    history was permitted by the roles of that moment. *)
Theorem blacklist_last_word {Sp : Spec} {G : Type} `{GasMeterLaws G} (s s' : t) ls a (Hh : history (G := G) s ls s') :
  listed s' a = default (listed s a) (last_word a (ls ≫= (fun x => writes (snd (fst x)))))
  /\ Forall (fun x => permitted (fst (fst x)) (snd (fst x)) (snd x)) ls.
Proof. by apply (history_listed (G := G)). Qed.

Definition signer_context : Context test_spec := @mkContext test_spec 8 50 60 None 8 Node NonPreferred.
Definition one_signer : t (Sp := test_spec) := @mk test_spec (Some 1) (Some 2) (Some true) ∅ {[ 8%N := true ]} [].
Definition listing : CallMessage (Sp := test_spec) := SetBlacklistedBatch (Sp := test_spec) [5; 6; 5]%N [true; true; false].

Lemma blacklist_call_exact_witness :
  exists o g' s', call (Sp := test_spec) (G := unit) listing signer_context (Acc tt one_signer) = (o, Acc g' s')
    /\ exact (Sp := test_spec) (G := unit) 8 listing one_signer o s'.
Proof. apply (blacklist_call_exact (Sp := test_spec) (G := unit) tt listing signer_context one_signer). exact I. Defined.

Lemma blacklist_last_word_witness :
  listed (Sp := test_spec) (effect listing one_signer) 5%N = false /\ listed (Sp := test_spec) (effect listing one_signer) 6%N = true.
Proof.
  assert (history (Sp := test_spec) (G := unit) one_signer ([] ++ [(8%N, listing, one_signer)]) (effect listing one_signer)) as Hh.
  { apply (history_ok (Sp := test_spec) (G := unit) one_signer [] one_signer tt tt listing signer_context);
      [constructor|exact I|vm_compute; reflexivity]. }
  split.
  - by destruct (blacklist_last_word (Sp := test_spec) (G := unit) _ _ _ 5%N Hh) as [-> _].
  - by destruct (blacklist_last_word (Sp := test_spec) (G := unit) _ _ _ 6%N Hh) as [-> _].
Defined.
End BlacklistProperties.
