(* ===== verification/SessionRegistry.v ===== *)
(** * The session registry module

    module-implementations/sb-session-registry: signers set the time until which a
    wallet has a session, the manager may exempt wallets, and other modules call the
    checks.  A time in seconds is an [i64], a [Z] here with the checked addition written
    out; the time of the chain is in milliseconds.

    The theorems: a call does exactly what the role of its sender permits; every stored
    session is present, and every active one. *)

From Stdlib Require Import NArith ZArith Lia.
From stdpp Require Import base numbers gmap strings option list.
From S2P Require Import Prelude Ints Gas StateAccess GasPrice Bank Capabilities ChainState.

Module SessionRegistry.
Section SessionRegistry.
Context {Sp : Spec} {Rt : StateRoot}.

(** [i64::checked_add] *)
Definition i64_checked_add (a b : Z) : option Z :=
  if ((- 2 ^ 63 <=? a + b) && (a + b <? 2 ^ 63))%Z then Some (a + b)%Z else None.

(** [Time::secs]: the division of Rust rounds towards zero. *)
Definition secs (millis : Z) : Z := Z.quot millis 1000.

Record Session : Type := mkSession { expiry_ts : Z; bypass : bool }.

Inductive CallMessage : Type :=
| SetManager (new_manager : Address)
| SetEnforcementEnabled (enabled : bool)
| SetSessionSigner (signer : Address) (allowed : bool)
| SetSession (wallet : Address) (expires_at : Z)
| SetSessionBatch (wallets : list Address) (expiries : list Z)
| SetBypass (wallet : Address) (b : bool)
| EnforceSessionActive (wallet : Address)
| EnforceSessionPresent (wallet : Address)
| SetExpiryOffset (new_offset : Z)
| TransferOwnership (new_owner : Address).

Inductive Event : Type :=
| ManagerSet (old_manager : option Address) (new_manager : Address)
| EnforcementEnabledSet (enabled : bool)
| SessionSignerSet (signer : Address) (allowed : bool)
| SessionSet (wallet : Address) (expiry : Z)
| BypassSet (wallet : Address) (b : bool)
| ExpiryOffsetUpdated (old_offset : option Z) (new_offset : Z)
| OwnershipTransferred (old_owner new_owner : Address).

(** [SessionRegistryError] and the other errors, as [anyhow::Error]. *)
Inductive SessionRegistryError : Type :=
| StateError (e : StateAccessorError)
| OwnerNotInitialized
| ManagerNotInitialized
| UnauthorizedOwner
| UnauthorizedManager
| UnauthorizedSessionSigner
| SessionNotActive
| SessionNotPresent
| InvalidBatchLengths
| ExpiryTimestampOverflow.

(** The values that are set by the owner and the manager. *)
Record roles : Type := mkRoles {
  owner : option Address;
  manager : option Address;
  enforcement_enabled : option bool;
  expiry_offset : option Z
}.

Record t : Type := mk {
  the_roles : roles;
  sessions : gmap Address Session;
  session_signers : gmap Address bool;
  events : list Event;
  chain_state : ChainState.t
}.

Definition put_roles (r : roles) (s : t) : t := mk r (sessions s) (session_signers s) (events s) (chain_state s).
Definition put_chain (c : ChainState.t) (s : t) : t := mk (the_roles s) (sessions s) (session_signers s) (events s) c.

Definition owner_value : StateValue t Address :=
  mkStateValue "sb_session_registry/SessionRegistry/owner" User (fun s => owner (the_roles s))
    (fun v s => let r := the_roles s in put_roles (mkRoles v (manager r) (enforcement_enabled r) (expiry_offset r)) s).
Definition manager_value : StateValue t Address :=
  mkStateValue "sb_session_registry/SessionRegistry/manager" User (fun s => manager (the_roles s))
    (fun v s => let r := the_roles s in put_roles (mkRoles (owner r) v (enforcement_enabled r) (expiry_offset r)) s).
Definition enforcement_value : StateValue t bool :=
  mkStateValue "sb_session_registry/SessionRegistry/enforcement_enabled" User (fun s => enforcement_enabled (the_roles s))
    (fun v s => let r := the_roles s in put_roles (mkRoles (owner r) (manager r) v (expiry_offset r)) s).
Definition offset_value : StateValue t Z :=
  mkStateValue "sb_session_registry/SessionRegistry/expiry_offset" User (fun s => expiry_offset (the_roles s))
    (fun v s => let r := the_roles s in put_roles (mkRoles (owner r) (manager r) (enforcement_enabled r) v) s).
Definition sessions_map : StateMap t Address Session :=
  mkStateMap "sb_session_registry/SessionRegistry/sessions" User sessions
    (fun m s => mk (the_roles s) m (session_signers s) (events s) (chain_state s)).
Definition signers_map : StateMap t Address bool :=
  mkStateMap "sb_session_registry/SessionRegistry/session_signers" User session_signers
    (fun m s => mk (the_roles s) (sessions s) m (events s) (chain_state s)).

Record RegistryConfig : Type := mkConfig {
  cfg_owner : Address;
  cfg_manager : Address;
  cfg_enforcement_enabled : bool;
  cfg_expiry_offset : Z
}.

Section Operations.
Context {G : Type} `{GasMeter G} (v : ChainState.Version).

Definition access {A} (m : M (acc G t) StateAccessorError A) : M (acc G t) SessionRegistryError A := map_err StateError m.
Definition on_chain {E A} (m : M (acc G ChainState.t) E A) : M (acc G t) E A := zoom chain_state put_chain m.

Definition emit_event (e : Event) : M (acc G t) SessionRegistryError unit :=
  modify (fun s => mk (the_roles s) (sessions s) (session_signers s) (events s ++ [e]) (chain_state s)).

(** ** lib.rs *)
Definition genesis (config : RegistryConfig) : M (acc G t) SessionRegistryError unit :=
  access (value_set owner_value (cfg_owner config)) ;;;
  access (value_set manager_value (cfg_manager config)) ;;;
  access (value_set enforcement_value (cfg_enforcement_enabled config)) ;;;
  access (value_set offset_value (cfg_expiry_offset config)).

Definition is_session_active (wallet : Address) : M (acc G t) SessionRegistryError bool :=
  let! session := access (map_get sessions_map wallet) in
  match session with
  | Some session =>
      if bypass session then ret true
      else
        let! offset := access (value_get offset_value) in
        let! effective_expiry_ts := ok_or (i64_checked_add (expiry_ts session) (default 0%Z offset)) ExpiryTimestampOverflow in
        let! now := access (on_chain (ChainState.get_time v)) in
        ret (secs now <? effective_expiry_ts)%Z
  | None => ret false
  end.

Definition enforce_session_active (wallet : Address) : M (acc G t) SessionRegistryError unit :=
  let! enabled := access (value_get enforcement_value) in
  if negb (default true enabled) then ret tt
  else
    let! active := is_session_active wallet in
    if active then ret tt else throw SessionNotActive.

Definition is_session_present (wallet : Address) : M (acc G t) SessionRegistryError bool :=
  let! session := access (map_get sessions_map wallet) in
  ret match session with
      | Some session => bypass session || negb (expiry_ts session =? 0)%Z
      | None => false
      end.

Definition enforce_session_present (wallet : Address) : M (acc G t) SessionRegistryError unit :=
  let! enabled := access (value_get enforcement_value) in
  if negb (default true enabled) then ret tt
  else
    let! present := is_session_present wallet in
    if present then ret tt else throw SessionNotPresent.

Definition is_manager (who : Address) : M (acc G t) SessionRegistryError bool :=
  let! m := access (value_get manager_value) in
  let! m := ok_or m ManagerNotInitialized in
  ret (bool_decide (who = m)).

Definition is_owner (who : Address) : M (acc G t) SessionRegistryError bool :=
  let! o := access (value_get owner_value) in
  let! o := ok_or o OwnerNotInitialized in
  ret (bool_decide (who = o)).

Definition is_session_signer (signer : Address) : M (acc G t) SessionRegistryError bool :=
  let! b := access (map_get signers_map signer) in
  ret (default false b).

Definition write_session (wallet : Address) (expires_at : Z) : M (acc G t) SessionRegistryError unit :=
  if (expires_at =? 0)%Z then
    let! _ := access (map_remove sessions_map wallet) in
    emit_event (SessionSet wallet 0)
  else
    let! existing := access (map_get sessions_map wallet) in
    access (map_set sessions_map wallet (mkSession expires_at (default false (bypass <$> existing)))) ;;;
    emit_event (SessionSet wallet expires_at).

(** ** call.rs *)
Definition set_bypass (wallet : Address) (b : bool) : M (acc G t) SessionRegistryError unit :=
  let! maybe_session := access (map_get sessions_map wallet) in
  match maybe_session with
  | None =>
      if negb b then ret tt
      else
        access (map_set sessions_map wallet (mkSession 0 true)) ;;;
        emit_event (BypassSet wallet b)
  | Some session =>
      (if (expiry_ts session =? 0)%Z && negb b then let! _ := access (map_remove sessions_map wallet) in ret tt
       else access (map_set sessions_map wallet (mkSession (expiry_ts session) b))) ;;;
      emit_event (BypassSet wallet b)
  end.

Definition execute (msg : CallMessage) (context : Context Sp) : M (acc G t) SessionRegistryError unit :=
  match msg with
  | SetManager new_manager =>
      let! ok := is_owner (sender context) in
      ensure ok UnauthorizedOwner ;;;
      let! old_manager := access (value_get manager_value) in
      access (value_set manager_value new_manager) ;;;
      emit_event (ManagerSet old_manager new_manager)
  | SetEnforcementEnabled enabled =>
      let! ok := is_owner (sender context) in
      ensure ok UnauthorizedOwner ;;;
      access (value_set enforcement_value enabled) ;;;
      emit_event (EnforcementEnabledSet enabled)
  | SetSessionSigner signer allowed =>
      let! ok := is_manager (sender context) in
      ensure ok UnauthorizedManager ;;;
      (if allowed then access (map_set signers_map signer true)
       else let! _ := access (map_remove signers_map signer) in ret tt) ;;;
      emit_event (SessionSignerSet signer allowed)
  | SetSession wallet expires_at =>
      let! ok := is_session_signer (sender context) in
      ensure ok UnauthorizedSessionSigner ;;;
      write_session wallet expires_at
  | SetSessionBatch wallets expiries =>
      let! ok := is_session_signer (sender context) in
      ensure ok UnauthorizedSessionSigner ;;;
      ensure (len wallets =? len expiries) InvalidBatchLengths ;;;
      for_each (fun p => write_session (fst p) (snd p)) (zip wallets expiries)
  | SetBypass wallet b =>
      let! ok := is_manager (sender context) in
      ensure ok UnauthorizedManager ;;;
      set_bypass wallet b
  | SetExpiryOffset new_offset =>
      let! ok := is_owner (sender context) in
      ensure ok UnauthorizedOwner ;;;
      let! old_offset := access (value_get offset_value) in
      access (value_set offset_value new_offset) ;;;
      emit_event (ExpiryOffsetUpdated old_offset new_offset)
  | EnforceSessionActive wallet => enforce_session_active wallet
  | EnforceSessionPresent wallet => enforce_session_present wallet
  | TransferOwnership new_owner =>
      let! ok := is_owner (sender context) in
      ensure ok UnauthorizedOwner ;;;
      let! old_owner := access (value_get owner_value) in
      let! old_owner := expect_some old_owner in
      access (value_set owner_value new_owner) ;;;
      emit_event (OwnershipTransferred old_owner new_owner)
  end.

Definition call (msg : CallMessage) (context : Context Sp) : M (acc G t) SessionRegistryError unit := execute msg context.
End Operations.
End SessionRegistry.
End SessionRegistry.

(** ** The specification *)
Module SessionSpec.
Import SessionRegistry.
Section Spec.
Context {Sp : Spec} {Rt : StateRoot}.
Implicit Types (s : t) (a : Address) (v : ChainState.Version).

Definition clock v s : option Z := ChainState.time (ChainState.the_kernel (chain_state s)) !! ChainState.current_visible_slot_number v.

Definition signs s a : bool := default false (session_signers s !! a).
Definition unenforced s : Prop := enforcement_enabled (the_roles s) = Some false.

(** A session that exempts its wallet, or has not expired at the time of the chain;
    [None] if the time of expiry overflows. *)
Definition active v s a : option bool :=
  match sessions s !! a with
  | None => Some false
  | Some x =>
      if bypass x then Some true
      else
        let? expiry := i64_checked_add (expiry_ts x) (default 0%Z (expiry_offset (the_roles s))) in
        Some (secs (default 0%Z (clock v s)) <? expiry)%Z
  end.

Definition present s a : bool :=
  match sessions s !! a with Some x => bypass x || negb (expiry_ts x =? 0)%Z | None => false end.

Definition permitted v (a : Address) (msg : CallMessage) s : Prop :=
  match msg with
  | SetManager _ | SetEnforcementEnabled _ | SetExpiryOffset _ | TransferOwnership _ => owner (the_roles s) = Some a
  | SetSessionSigner _ _ | SetBypass _ _ => manager (the_roles s) = Some a
  | SetSession _ _ => signs s a = true
  | SetSessionBatch wallets expiries => signs s a = true /\ len wallets = len expiries
  | EnforceSessionActive wallet => unenforced s \/ active v s wallet = Some true
  | EnforceSessionPresent wallet => unenforced s \/ present s wallet = true
  end.

Definition log (e : Event) s : t := mk (the_roles s) (sessions s) (session_signers s) (events s ++ [e]) (chain_state s).
Definition put_sessions (m : gmap Address Session) s : t := mk (the_roles s) m (session_signers s) (events s) (chain_state s).

(** The session of a wallet after a signer set its expiry, and after the manager set its
    exemption: a session that would be neither is not stored. *)
Definition with_expiry (e : Z) (x : option Session) : option Session :=
  if (e =? 0)%Z then None else Some (mkSession e (default false (bypass <$> x))).
Definition with_bypass (b : bool) (x : option Session) : option Session :=
  let e := default 0%Z (expiry_ts <$> x) in
  if (e =? 0)%Z && negb b then None else Some (mkSession e b).

Definition put_session s a (x : option Session) : t := put_sessions (partial_alter (fun _ => x) a (sessions s)) s.

Definition written s (p : Address * Z) : t :=
  log (SessionSet (fst p) (snd p)) (put_session s (fst p) (with_expiry (snd p) (sessions s !! fst p))).

Definition effect (msg : CallMessage) s : t :=
  let r := the_roles s in
  match msg with
  | SetManager m => log (ManagerSet (manager r) m) (put_roles (mkRoles (owner r) (Some m) (enforcement_enabled r) (expiry_offset r)) s)
  | SetEnforcementEnabled b =>
      log (EnforcementEnabledSet b) (put_roles (mkRoles (owner r) (manager r) (Some b) (expiry_offset r)) s)
  | SetSessionSigner a b =>
      log (SessionSignerSet a b)
        (mk r (sessions s) (if b then <[a := true]> (session_signers s) else delete a (session_signers s)) (events s) (chain_state s))
  | SetSession a e => written s (a, e)
  | SetSessionBatch wallets expiries => foldl written s (zip wallets expiries)
  | SetBypass a b =>
      match sessions s !! a, b with
      | None, false => s
      | x, _ => log (BypassSet a b) (put_session s a (with_bypass b x))
      end
  | EnforceSessionActive _ | EnforceSessionPresent _ => s
  | SetExpiryOffset z =>
      log (ExpiryOffsetUpdated (expiry_offset r) z) (put_roles (mkRoles (owner r) (manager r) (enforcement_enabled r) (Some z)) s)
  | TransferOwnership o =>
      match owner r with
      | Some old => log (OwnershipTransferred old o) (put_roles (mkRoles (Some o) (manager r) (enforcement_enabled r) (expiry_offset r)) s)
      | None => s
      end
  end.

Section Rules.
Context {G : Type} `{GasMeterLaws G} (v : ChainState.Version).

Definition exact (a : Address) (msg : CallMessage) s (o : outcome SessionRegistryError unit) s' : Prop :=
  match o with
  | Ok _ => permitted v a msg s /\ s' = effect msg s
  | Err _ => can_fail (G := G) \/ ~ permitted v a msg s
  | Panic => False
  end.

Lemma wp_session_is_owner a (Q : outcome SessionRegistryError bool -> t -> Prop) s :
  (forall e, can_fail \/ owner (the_roles s) <> Some a -> Q (Err e) s) ->
  (forall b, (b = true <-> owner (the_roles s) = Some a) -> is_Some (owner (the_roles s)) -> Q (Ok b) s) -> wp (is_owner a) Q s.
Proof.
  intros He Hok. unfold is_owner, access. repeat wp_step; cbn in *; auto; try (apply He; right; congruence).
  apply Hok; [|eauto]. rewrite bool_decide_eq_true. naive_solver.
Qed.

Lemma wp_session_is_manager a (Q : outcome SessionRegistryError bool -> t -> Prop) s :
  (forall e, can_fail \/ manager (the_roles s) <> Some a -> Q (Err e) s) ->
  (forall b, (b = true <-> manager (the_roles s) = Some a) -> Q (Ok b) s) -> wp (is_manager a) Q s.
Proof.
  intros He Hok. unfold is_manager, access. repeat wp_step; cbn in *; auto; try (apply He; right; congruence).
  apply Hok. rewrite bool_decide_eq_true. naive_solver.
Qed.

Lemma wp_is_session_signer a (Q : outcome SessionRegistryError bool -> t -> Prop) s :
  (forall e, can_fail -> Q (Err e) s) -> Q (Ok (signs s a)) s -> wp (is_session_signer a) Q s.
Proof. intros He Hok. unfold is_session_signer, access. repeat wp_step; auto. Qed.

Lemma wp_write_session a e (Q : outcome SessionRegistryError unit -> t -> Prop) s :
  (forall e s', can_fail -> Q (Err e) s') -> Q (Ok tt) (written s (a, e)) -> wp (write_session a e) Q s.
Proof.
  intros He Hok. unfold write_session, access, emit_event. unfold written, with_expiry in Hok. cbn in Hok.
  destruct (Z.eqb_spec e 0) as [->|Hne]; repeat wp_step; auto.
Qed.

Lemma wp_session_write_all l (Q : outcome SessionRegistryError unit -> t -> Prop) s :
  (forall e s', can_fail -> Q (Err e) s') -> Q (Ok tt) (foldl written s l) ->
  wp (for_each (fun p => write_session (fst p) (snd p)) l) Q s.
Proof.
  intros He Hok. apply (wp_for_each _ (fun pre s' => s' = foldl written s pre)); [done| |by intros s' ->].
  intros pre [a e] rest s' _ ->. apply wp_write_session; [by auto|]. by rewrite foldl_app.
Qed.

Lemma wp_set_bypass a b (Q : outcome SessionRegistryError unit -> t -> Prop) s :
  (forall e s', can_fail -> Q (Err e) s') -> Q (Ok tt) (effect (SetBypass a b) s) -> wp (set_bypass a b) Q s.
Proof.
  intros He Hok. unfold set_bypass, access, emit_event. cbn [effect] in Hok. unfold with_bypass in Hok.
  wp_step. wp_step. wp_step; [auto|]. cbn. destruct (sessions s !! a) as [x|] eqn:E; cbn in Hok.
  - destruct ((expiry_ts x =? 0)%Z && negb b); destruct b; repeat wp_step; auto; exact Hok.
  - destruct b; cbn; repeat wp_step; auto; exact Hok.
Qed.

Lemma wp_is_active a (Q : outcome SessionRegistryError bool -> t -> Prop) s :
  is_Some (clock v s) ->
  (forall e, can_fail \/ active v s a = None -> Q (Err e) s) ->
  (forall b, active v s a = Some b -> Q (Ok b) s) -> wp (is_session_active v a) Q s.
Proof.
  intros [now Hnow] He Hok. unfold is_session_active, access, active in *. wp_step. wp_step. wp_step; [auto|]. cbn.
  destruct (sessions s !! a) as [x|] eqn:E; [|wp_step; auto]. destruct (bypass x) eqn:B; [wp_step; auto|].
  wp_step. wp_step. wp_step; [auto|]. cbn. wp_step. wp_step; cbn in *.
  - match goal with Hz : i64_checked_add _ _ = Some _ |- _ => rewrite Hz in Hok end.
    unfold on_chain, ChainState.get_time. wp_step. wp_step. apply wp_zoom. unfold clock in *.
    destruct s as [? ? ? ? chain]. cbn in *. repeat wp_step; cbn in *; auto; [|congruence].
    apply Hok. rewrite Hnow in *. cbn. congruence.
  - apply He. right. by match goal with Hz : i64_checked_add _ _ = None |- _ => rewrite Hz end.
Qed.

Lemma wp_enforce_active a s : is_Some (clock v s) -> forall who, wp (enforce_session_active v a) (exact who (EnforceSessionActive a) s) s.
Proof.
  intros Hc who. unfold enforce_session_active, exact, unenforced. wp_step. unfold access. wp_step. wp_step; [by left|]. cbn.
  destruct (enforcement_enabled (the_roles s)) as [[]|] eqn:E; cbn; [|wp_step; split; [by left|done]|].
  all: wp_step; apply wp_is_active; wp_red; [done|intros e [?|?]; [by left|right; cbn; unfold unenforced; intros [?|?]; congruence]|].
  all: intros [] Hb; wp_step; [split; [by right|done]|right; cbn; unfold unenforced; intros [?|?]; congruence].
Qed.

Lemma wp_enforce_present a s who : wp (enforce_session_present a) (exact who (EnforceSessionPresent a) s) s.
Proof.
  unfold enforce_session_present, is_session_present, exact, access. wp_step. wp_step. wp_step; [by left|]. cbn.
  destruct (enforcement_enabled (the_roles s)) as [[]|] eqn:E; cbn; [|wp_step; split; [by left|done]|].
  all: wp_step; wp_step; wp_step; wp_step; [by left|]; cbn; wp_step; unfold unenforced, present;
    destruct (match sessions s !! a with Some _ => _ | None => _ end) eqn:P; wp_step;
    [split; [by right|done]|right; intros [?|?]; congruence].
Qed.

Lemma wp_session_execute msg c s : is_Some (clock v s) -> wp (execute v msg c) (exact (sender c) msg s) s.
Proof.
  intros Hclock. destruct msg; cbn [execute].
  1, 2, 9, 10: wp_step; apply wp_session_is_owner; wp_red; [by intros e [?|?]; [left|right]|]; intros ok Hb [o Ho];
    wp_step; wp_step; wp_red; [|right; cbn; naive_solver]; apply Hb in H1 as Hown; unfold access, emit_event;
    repeat wp_step; cbn in *; auto; try congruence; simplify_eq; (split; [done|]); cbn; by rewrite ?Ho.
  - wp_step. apply wp_session_is_manager; wp_red; [by intros e [?|?]; [left|right]|]. intros ok Hb.
    wp_step. wp_step; wp_red; [|right; cbn; naive_solver]. apply Hb in H1 as Hown. unfold access, emit_event.
    destruct allowed; repeat wp_step; cbn in *; auto.
  - wp_step. apply wp_is_session_signer; wp_red; [by left|]. wp_step. wp_step; wp_red; [|right; cbn; congruence].
    apply wp_write_session; [by left|]. done.
  - wp_step. apply wp_is_session_signer; wp_red; [by left|]. wp_step. wp_step; wp_red; [|right; cbn; intros [? _]; congruence].
    wp_step. wp_step; wp_red; checked_simpl; [|right; cbn; by intros [_ ?]]. apply wp_session_write_all; [by left|]. done.
  - wp_step. apply wp_session_is_manager; wp_red; [by intros e [?|?]; [left|right]|]. intros ok Hb.
    wp_step. wp_step; wp_red; [|right; cbn; naive_solver]. apply wp_set_bypass; [by left|]. split; [by apply Hb|done].
  - by apply wp_enforce_active.
  - apply wp_enforce_present.
Qed.
End Rules.

(** ** Sessions that are stored are present *)
Definition canonical s : Prop := forall a x, sessions s !! a = Some x -> present s a = true.

Lemma canonical_put s a x e :
  canonical s -> (forall y, x = Some y -> bypass y || negb (expiry_ts y =? 0)%Z = true) -> canonical (log e (put_session s a x)).
Proof.
  intros Hs Hx b y. unfold present. cbn. destruct (decide (b = a)) as [->|Hne].
  - rewrite lookup_partial_alter_eq. intros ->. by apply Hx.
  - rewrite lookup_partial_alter_ne by done. intros Hy. specialize (Hs b y Hy). unfold present in Hs. by rewrite Hy in *.
Qed.

Lemma canonical_written s p : canonical s -> canonical (written s p).
Proof.
  intros Hs. apply canonical_put; [done|]. intros y. unfold with_expiry. destruct (snd p =? 0)%Z eqn:E; [done|].
  intros [= <-]. cbn. rewrite E. by destruct (default false _).
Qed.

Lemma canonical_effect msg s : canonical s -> canonical (effect msg s).
Proof.
  intros Hs. destruct msg; cbn [effect]; try exact Hs.
  - by apply canonical_written.
  - revert s Hs. induction (zip wallets expiries) as [|p l IH]; intros s Hs; [done|]. by apply IH, canonical_written.
  - assert (forall x, canonical (log (BypassSet wallet b) (put_session s wallet (with_bypass b x)))) as Hp.
    { intros x. apply canonical_put; [done|]. intros y. unfold with_bypass.
      destruct (default 0%Z (expiry_ts <$> x) =? 0)%Z eqn:E; destruct b; cbn; [|done|..]; intros [= <-]; cbn; by rewrite ?E. }
    destruct (sessions s !! wallet) as [x|], b; try apply Hp. done.
  - by destruct (owner (the_roles s)).
Qed.

(** The messages that succeed, of any senders on any meter and at any time. *)
Inductive history {G : Type} `{GasMeterLaws G} (s : t) : t -> Prop :=
| history_nil : history s s
| history_ok s1 (g g' : G) v msg c s2 :
    history s s1 -> meter_wf g -> is_Some (clock v s1) -> call v msg c (Acc g s1) = (Ok tt, Acc g' s2) -> history s s2.

Lemma canonical_history {G : Type} `{GasMeterLaws G} s s' : history (G := G) s s' -> canonical s -> canonical s'.
Proof.
  induction 1 as [|s1 g g' v msg c s2 _ IH Hg Hc Hrun]; [done|]. intros Hs.
  pose proof (wp_session_execute v msg c s1 Hc g Hg) as Hx. unfold call in Hrun. rewrite Hrun in Hx. destruct Hx as [_ [_ He]]. cbn in He.
  subst s2. by apply canonical_effect, IH.
Qed.
End Spec.
End SessionSpec.

(** ** Properties *)
Module SessionProperties.
Import SessionRegistry SessionSpec.

(** Every message, on any gas meter, while the time of the visible slot is known: it
    succeeds only when the role of its sender, or the state of the session it checks, permits it
    and then does exactly what it says; it fails only when it is not permitted or a charge is
    refused; it never panics. *)
Theorem session_call_exact {Sp : Spec} {Rt : StateRoot} {G : Type} `{GasMeterLaws G} (g : G) v msg c (s : t)
    (Hg : meter_wf g) (Hclock : is_Some (clock v s)) :
  exists o g' s', call v msg c (Acc g s) = (o, Acc g' s') /\ exact (G := G) v (sender c) msg s o s'.
Proof.
  pose proof (wp_session_execute v msg c s Hclock g Hg) as Hx. unfold call.
  destruct (execute v msg c (Acc g s)) as [o [g' s']]. exists o, g', s'. by destruct Hx.
Qed.

(** After any history from a registry without sessions, the sessions that are stored are
    exactly those that count as present, and a wallet with an active session has one. *)
Theorem active_sessions_present {Sp : Spec} {Rt : StateRoot} {G : Type} `{GasMeterLaws G} (s s' : t) v a
    (Hempty : sessions s = ∅) (Hh : history (G := G) s s') :
  (present s' a = true <-> is_Some (sessions s' !! a)) /\ (active v s' a = Some true -> present s' a = true).
Proof.
  assert (canonical s') as Hc.
  { apply (canonical_history (G := G) s); [done|]. intros b x. by rewrite Hempty, lookup_empty. }
  split; [split|].
  - unfold present. destruct (sessions s' !! a); [eauto|done].
  - intros [x Hx]. by eapply Hc.
  - unfold active. destruct (sessions s' !! a) as [x|] eqn:E; [|done]. intros _. by eapply Hc.
Qed.

#[local] Existing Instances test_spec ChainDemo.pair_root.

Definition timed_chain : ChainState.t :=
  let g := ChainDemo.genesis_state in
  ChainState.on_kernel (fun k =>
    ChainState.mkKernel (ChainState.next_visible_slot_number k) (ChainState.current_heights k)
      (ChainState.slot_number_history k) (ChainState.accessory_slot_number_history k)
      (ChainState.true_slot_number_history k) (ChainState.true_slot_number_to_rollup_height k)
      (ChainState.true_to_visible_slot_number_history k) (ChainState.true_slot_number k) {[ 1%N := 2500%Z ]}
      (ChainState.slots k) (ChainState.accessory_pre_state_roots k) (ChainState.block_gas_info k)
      (ChainState.past_user_state_roots k) (ChainState.accessory_past_user_state_roots k)) g.

Definition now_version : ChainState.Version := ChainState.mkVersion 1 1 1.
Definition signing : Context test_spec := @mkContext test_spec 8 50 60 None 8 Node NonPreferred.
Definition registry : t := mk (mkRoles (Some 1%N) (Some 2%N) (Some true) (Some 0%Z)) ∅ {[ 8%N := true ]} [] timed_chain.
Definition opening : CallMessage := SetSession 5%N 3%Z.

Lemma session_call_exact_witness :
  exists o g' s', call (G := unit) now_version opening signing (Acc tt registry) = (o, Acc g' s')
    /\ exact (G := unit) now_version (8%N : @Address test_spec) opening registry o s'.
Proof.
  apply (session_call_exact (G := unit) tt now_version opening signing registry); [exact I|by exists 2500%Z].
Defined.

Lemma active_sessions_present_witness :
  active now_version (effect opening registry) 5%N = Some true /\ present (effect opening registry) 5%N = true.
Proof.
  assert (active now_version (effect opening registry) 5%N = Some true) as Ha by (vm_compute; reflexivity).
  split; [exact Ha|].
  apply (active_sessions_present (G := unit) registry (effect opening registry) now_version 5%N); [reflexivity| |exact Ha].
  apply (history_ok (G := unit) registry registry tt tt now_version opening signing);
    [constructor|exact I|by exists 2500%Z|vm_compute; reflexivity].
Defined.
End SessionProperties.
