(* ===== verification/NonceBuffer.v ===== *)
(** * The nonce buffer of the preferred sequencer

    full-node/sov-sequencer/src/preferred/nonce_buffer_task.rs: transactions whose
    nonce is in the future wait in a queue of their sender until the transactions
    before them have executed.

    Three kinds of tasks run concurrently: the main task, which owns the queues and
    receives from a bounded channel; the timeout task; and one task for each
    transaction that executes.  [task] is the state of all of them, [step] their
    interleaving.  The main task awaits when it sends to a channel that is full:
    [control] says where it stands.

    A handler is a function; [None] is a panic, which only an overflow of a nonce
    gives, and [step] has no step for it.  The replies to requests, the senders that
    are dropped without a reply and the errors that are logged as impossible are
    recorded.  The environment of a step gives what the main task reads: the nonces of
    users in the state, the current queue id and the time, which a turn of the loop
    reads once.  A request counts from the moment it is in the channel.

    Left out: metrics, log messages and the text of errors.  A drain of the channel is
    one step: a message that arrives meanwhile counts as arriving before or after it.
    The main task holds a sender of its own channel, so that [input_closed] stays
    false and [run] ends only on shutdown. *)

From Stdlib Require Import NArith Lia.
From stdpp Require Import base numbers gmap option sorting list.
From S2P Require Import Prelude Ints.

Definition CredentialId : Type := list N.
Definition TxHash : Type := list N.

(** [rate_limiter::IpAndCredentialId] *)
Record IpAndCredentialId : Type := mkIp { ip_address : list N; credential_id : CredentialId; ip_addr : list N }.

Definition MAX_BUFFERED_TXS : N := 20000.
Definition MAX_BUFFER_INPUT_QUEUE : N := 20000.

Inductive InvalidNonceReason : Type := Invalid | Timeout | EvictedBeforeExecution | Replaced | AlreadyQueued.

(** [AcceptTxError]; [NewTxError] with what [err_invalid_nonce] reports, or another
    failure of the executor. *)
Inductive AcceptTxError : Type :=
| NotFullySynced
| ReplicaMode
| SequencerOverloaded503
| BatchError
| NewTxError (invalid_nonce : option (TxHash * N * N * N * N * CredentialId * InvalidNonceReason))
| RateLimiter.

(** [Result<Result<Receiver, AcceptTxError>, SequencerStateUpdatorError>] *)
Inductive TransactionReceiverResult : Type :=
| Accepted
| Rejected (e : AcceptTxError)
| Shutdown
| Unexpected.

Record TimeoutRequest : Type := mkTimeoutRequest {
  tr_credential_id : CredentialId;
  tr_nonce : N;
  tr_hash : TxHash;
  tr_queued_at : N
}.

(** A sender of a oneshot channel is the number of the request. *)
Record QueuedTx : Type := mkQueuedTx {
  baked_tx : list N;
  tx_hash : TxHash;
  ip_addr_and_credential : IpAndCredentialId;
  original_tx_queue_id : N;
  nonce_when_queued : N;
  queued_at : N;
  result_sender : N
}.

(** ** Nonces that are executed but not persisted *)
Record NonPersistedTxs : Type := mkNonPersisted {
  last_successfully_executed : option N;
  has_in_flight : bool
}.

(** The errors that are logged with a [debug_assert!(false)]. *)
Inductive Alarm : Type := InflightMismatch | ExecutedMismatch | StaleEvicted.

Module NonPersisted.
Definition empty : NonPersistedTxs := mkNonPersisted None false.

Definition user_nonce (self : NonPersistedTxs) : option (option N) :=
  match last_successfully_executed self with
  | Some n => let? n := checked_add u64_max n 1 in Some (Some n)
  | None => Some None
  end.

Definition user_nonce_to_use_as_prerequisite_start (self : NonPersistedTxs) : option (option N) :=
  if has_in_flight self then
    let? n := user_nonce self in
    let? n := checked_add u64_max (default 0 n) 1 in
    Some (Some n)
  else user_nonce self.

Definition mark_inflight (tx_nonce_check : N) (self : NonPersistedTxs) : option (NonPersistedTxs * list Alarm) :=
  let? un := user_nonce self in
  if match un with Some un => negb (tx_nonce_check =? un) | None => false end then
    Some (mkNonPersisted (last_successfully_executed self) true, [InflightMismatch])
  else
    let last := match last_successfully_executed self with
                | None => checked_sub tx_nonce_check 1
                | Some last => Some last
                end in
    Some (mkNonPersisted last true, []).

Definition mark_inflight_execution_succeeded (tx_nonce_check : N) (self : NonPersistedTxs)
  : option (NonPersistedTxs * list Alarm) :=
  match last_successfully_executed self with
  | Some last =>
      let? new := checked_add u64_max last 1 in
      Some (mkNonPersisted (Some new) false, if new =? tx_nonce_check then [] else [ExecutedMismatch])
  | None => Some (mkNonPersisted (Some tx_nonce_check) false, [])
  end.

Definition mark_inflight_execution_failed (self : NonPersistedTxs) : NonPersistedTxs :=
  mkNonPersisted (last_successfully_executed self) false.
End NonPersisted.

(** ** The queue of a user *)
Record AddressQueue : Type := mkQueue {
  txs : gmap N QueuedTx;
  non_persisted : NonPersistedTxs
}.

Module AddressQueue.
Definition empty : AddressQueue := mkQueue ∅ NonPersisted.empty.

(** The keys of the [BTreeMap], in order. *)
Definition keys (self : AddressQueue) : list N := merge_sort N.le (elements (dom (txs self))).

Fixpoint contiguity_loop (keys : list N) (expected tx_nonce : N) : option bool :=
  match keys with
  | [] => Some (tx_nonce <=? expected)
  | nonce :: keys =>
      if tx_nonce <=? nonce then Some (tx_nonce <=? expected)
      else if negb (nonce =? expected) then Some false
      else let? expected := checked_add u64_max expected 1 in contiguity_loop keys expected tx_nonce
  end.

(** The addition does not overflow: the loop goes on only below [tx_nonce]. *)
Definition has_contiguity_between (self : AddressQueue) (starting_nonce tx_nonce : N) : option bool :=
  contiguity_loop (keys self) starting_nonce tx_nonce.

(** [txs.first_entry()] *)
Definition first_key (self : AddressQueue) : option N := head (keys self).
End AddressQueue.

(** ** The tasks *)
Inductive NonceBufferInput : Type :=
| NewTx (baked_tx : list N) (tx_hash : TxHash) (ip_addr_and_credential : IpAndCredentialId) (tx_nonce : N)
    (original_tx_queue_id : N) (result_sender : N)
| TxExecuted (credential_id : CredentialId) (tx_nonce : N) (tx_result : TransactionReceiverResult) (result_sender : N)
| TxPersisted (credential_id : CredentialId) (tx_nonce : N)
| TxTimedOut (credential_id : CredentialId) (tx_nonce : N) (tx_hash : TxHash).

(** Where the main task stands: at its [select!], in an [await] on a send, after which
    it goes on with the queue of a user; [Returning] after the drain of a shutdown, when
    its channel is still open, and [Stopped] once it is closed. *)
Inductive Control : Type :=
| Selecting
| SendingToMain (input : NonceBufferInput) (credential_id : CredentialId) (user_nonce : N)
| SendingTimeout (request : TimeoutRequest)
| Returning
| Stopped.

(** A transaction that executes: its user, nonce and sender. *)
Record Execution : Type := mkExecution { ex_credential_id : CredentialId; ex_nonce : N; ex_sender : N }.

Record task : Type := mkTask {
  buffers : gmap CredentialId AddressQueue;
  buffer_input : list NonceBufferInput;
  timeout_queue : list TimeoutRequest;
  timing_out : option TimeoutRequest;
  executing : list Execution;
  control : Control;
  replies : list (N * TransactionReceiverResult);
  dropped : list N;
  alarms : list Alarm
}.

(** What the main task reads from outside. *)
Record Env : Type := mkEnv {
  get_current_nonce_for_user : CredentialId -> N;
  get_current_executor_tx_queue_id : N;
  now : N
}.

Inductive Action : Type := Execute | Enqueue | Reject.

Definition determine_action (tx_nonce user_nonce maximum_future_nonce_delta : N) : option Action :=
  let? max_nonce_to_queue := checked_add u64_max user_nonce maximum_future_nonce_delta in
  Some (if (user_nonce <? tx_nonce) && (tx_nonce <=? max_nonce_to_queue) then Enqueue
        else if tx_nonce =? user_nonce then Execute else Reject).

Definition err_invalid_nonce (tx_hash : TxHash) (tx_nonce expected_nonce nonce_when_queued instant_queued : N)
    (credential_id : CredentialId) (reason : InvalidNonceReason) : TransactionReceiverResult :=
  Rejected (NewTxError (Some (tx_hash, tx_nonce, expected_nonce, nonce_when_queued, instant_queued, credential_id, reason))).

Definition wipe_reject_error : TransactionReceiverResult := Rejected SequencerOverloaded503.
Definition shutdown_reject_error : TransactionReceiverResult := Shutdown.

Definition is_notready_error (result : TransactionReceiverResult) : bool :=
  match result with Rejected NotFullySynced => true | _ => false end.

Module NonceBufferTask.
Section NonceBufferTask.
Context (maximum_future_nonce_delta timeout_duration : N).

(** ** Updates *)
Definition put_buffers (b : gmap CredentialId AddressQueue) (t : task) : task :=
  mkTask b (buffer_input t) (timeout_queue t) (timing_out t) (executing t) (control t) (replies t) (dropped t) (alarms t).
Definition put_queue (c : CredentialId) (q : AddressQueue) (t : task) : task := put_buffers (<[c := q]> (buffers t)) t.
Definition put_input (l : list NonceBufferInput) (t : task) : task :=
  mkTask (buffers t) l (timeout_queue t) (timing_out t) (executing t) (control t) (replies t) (dropped t) (alarms t).
Definition put_control (c : Control) (t : task) : task :=
  mkTask (buffers t) (buffer_input t) (timeout_queue t) (timing_out t) (executing t) c (replies t) (dropped t) (alarms t).
Definition put_executing (l : list Execution) (t : task) : task :=
  mkTask (buffers t) (buffer_input t) (timeout_queue t) (timing_out t) l (control t) (replies t) (dropped t) (alarms t).
Definition put_timeouts (l : list TimeoutRequest) (r : option TimeoutRequest) (t : task) : task :=
  mkTask (buffers t) (buffer_input t) l r (executing t) (control t) (replies t) (dropped t) (alarms t).
(** [result_sender.send(result)] *)
Definition reply (sender : N) (r : TransactionReceiverResult) (t : task) : task :=
  mkTask (buffers t) (buffer_input t) (timeout_queue t) (timing_out t) (executing t) (control t) (replies t ++ [(sender, r)]) (dropped t) (alarms t).
Definition drop_sender (sender : N) (t : task) : task :=
  mkTask (buffers t) (buffer_input t) (timeout_queue t) (timing_out t) (executing t) (control t) (replies t) (dropped t ++ [sender]) (alarms t).
Definition alarm (l : list Alarm) (t : task) : task :=
  mkTask (buffers t) (buffer_input t) (timeout_queue t) (timing_out t) (executing t) (control t) (replies t) (dropped t) (alarms t ++ l).

(** [self.buffers.entry(credential_id).or_default()] *)
Definition queue_of (c : CredentialId) (t : task) : AddressQueue := default AddressQueue.empty (buffers t !! c).

Definition handle_tx_timed_out (env : Env) (credential_id : CredentialId) (tx_nonce : N) (hash : TxHash) (t : task) : option task :=
  let queue := queue_of credential_id t in
  let? start := NonPersisted.user_nonce_to_use_as_prerequisite_start (non_persisted queue) in
  let user_nonce_for_prerequisites := default (get_current_nonce_for_user env credential_id) start in
  Some match txs queue !! tx_nonce with
       | Some tx =>
           if bool_decide (tx_hash tx = hash) then
             reply (result_sender tx)
               (err_invalid_nonce hash tx_nonce user_nonce_for_prerequisites (nonce_when_queued tx) (queued_at tx)
                  credential_id Timeout)
               (put_queue credential_id (mkQueue (delete tx_nonce (txs queue)) (non_persisted queue)) t)
           else put_queue credential_id queue t
       | None => put_queue credential_id queue t
       end.

(** One message of the channel, while it is drained. *)
Definition drain_input (env : Env) (reject_error : TransactionReceiverResult) (input : NonceBufferInput) (t : task) : option task :=
  match input with
  | NewTx _ _ _ _ _ sender => Some (reply sender reject_error t)
  | TxExecuted _ _ tx_result sender => Some (reply sender tx_result t)
  | TxTimedOut c n h => handle_tx_timed_out env c n h t
  | TxPersisted _ _ => Some t
  end.

Fixpoint drain_inputs (env : Env) (reject_error : TransactionReceiverResult) (l : list NonceBufferInput) (t : task) : option task :=
  match l with
  | [] => Some t
  | i :: l => let? t := drain_input env reject_error i t in drain_inputs env reject_error l t
  end.

(** The senders that wait in queues; a [HashMap] has no order of its own. *)
Definition queue_senders (q : AddressQueue) : list N := (fun p => result_sender (snd p)) <$> map_to_list (txs q).
Definition waiting_senders (t : task) : list N := map_to_list (buffers t) ≫= (fun p => queue_senders (snd p)).

Definition drain_and_reject_all_txs (env : Env) (reject_error : TransactionReceiverResult) (t : task) : option task :=
  let? t := drain_inputs env reject_error (buffer_input t) (put_input [] t) in
  Some (foldl (fun t sender => reply sender reject_error t) (put_buffers ∅ t) (waiting_senders t)).

Definition handle_new_tx_input (env : Env) (baked : list N) (hash : TxHash) (ip : IpAndCredentialId) (tx_nonce queue_id sender : N)
    (t : task) : option task :=
  let c := credential_id ip in
  let queue := queue_of c t in
  let? un := NonPersisted.user_nonce (non_persisted queue) in
  let user_nonce := default (get_current_nonce_for_user env c) un in
  let? action := determine_action tx_nonce user_nonce maximum_future_nonce_delta in
  let enqueue t :=
    put_control (SendingTimeout (mkTimeoutRequest c tx_nonce hash (now env)))
      (put_queue c (mkQueue (<[tx_nonce := mkQueuedTx baked hash ip queue_id user_nonce (now env) sender]> (txs queue))
                      (non_persisted queue)) t) in
  match action with
  | Enqueue =>
      match txs queue !! tx_nonce with
      | Some old_tx =>
          if bool_decide (tx_hash old_tx = hash) then
            Some (reply sender
                    (err_invalid_nonce hash tx_nonce user_nonce (nonce_when_queued old_tx) (queued_at old_tx) c AlreadyQueued)
                    (put_queue c queue t))
          else
            Some (enqueue (reply (result_sender old_tx)
                    (err_invalid_nonce (tx_hash old_tx) tx_nonce user_nonce (nonce_when_queued old_tx) (queued_at old_tx) c
                       Replaced) t))
      | None => Some (enqueue t)
      end
  | Execute =>
      if queue_id <? get_current_executor_tx_queue_id env then
        drain_and_reject_all_txs env wipe_reject_error (reply sender wipe_reject_error (put_queue c queue t))
      else
        let? (np, al) := NonPersisted.mark_inflight tx_nonce (non_persisted queue) in
        Some (alarm al (put_executing (executing t ++ [mkExecution c tx_nonce sender]) (put_queue c (mkQueue (txs queue) np) t)))
  | Reject =>
      Some (reply sender (err_invalid_nonce hash tx_nonce user_nonce user_nonce (now env) c Invalid) (put_queue c queue t))
  end.

(** The loop over the head of a queue. It evicts stale transactions and stops at the
    first one that is not stale; [fuel] bounds the evictions. *)
Fixpoint head_loop (fuel : nat) (c : CredentialId) (user_nonce : N) (t : task) : option task :=
  match fuel with
  | O => None
  | S fuel =>
      let queue := queue_of c t in
      match AddressQueue.first_key queue with
      | None => Some (put_control Selecting t)
      | Some k =>
          match txs queue !! k with
          | None => None
          | Some tx =>
              match k ?= user_nonce with
              | Lt =>
                  head_loop fuel c user_nonce
                    (alarm [StaleEvicted] (drop_sender (result_sender tx)
                       (put_queue c (mkQueue (delete k (txs queue)) (non_persisted queue)) t)))
              | Gt => Some (put_control Selecting t)
              | Eq =>
                  let? (np, al) := NonPersisted.mark_inflight user_nonce (non_persisted queue) in
                  Some (put_control
                          (SendingToMain (NewTx (baked_tx tx) (tx_hash tx) (ip_addr_and_credential tx) user_nonce
                             (original_tx_queue_id tx) (result_sender tx)) c user_nonce)
                          (alarm al (put_queue c (mkQueue (delete k (txs queue)) np) t)))
              end
          end
      end
  end.

(** Enough fuel: one more than the number of transactions. *)
Definition run_head_loop (c : CredentialId) (user_nonce : N) (t : task) : option task :=
  head_loop (S (size (txs (queue_of c t)))) c user_nonce t.

Definition handle_tx_executed (env : Env) (c : CredentialId) (tx_nonce : N) (tx_result : TransactionReceiverResult) (sender : N)
    (t : task) : option task :=
  if is_notready_error tx_result then drain_and_reject_all_txs env wipe_reject_error (reply sender tx_result t)
  else
    let queue := queue_of c t in
    let? (np, al) :=
      match tx_result with
      | Accepted => NonPersisted.mark_inflight_execution_succeeded tx_nonce (non_persisted queue)
      | _ => Some (NonPersisted.mark_inflight_execution_failed (non_persisted queue), [])
      end in
    let? un := NonPersisted.user_nonce np in
    run_head_loop c (default (get_current_nonce_for_user env c) un)
      (reply sender tx_result (alarm al (put_queue c (mkQueue (txs queue) np) t))).

Definition handle_tx_persisted (c : CredentialId) (tx_nonce : N) (t : task) : option task :=
  match buffers t !! c with
  | None => Some t
  | Some entry =>
      if bool_decide (txs entry = ∅) then
        let? start := NonPersisted.user_nonce_to_use_as_prerequisite_start (non_persisted entry) in
        Some (if match start with None => true | Some n => n <=? tx_nonce end
              then put_buffers (delete c (buffers t)) t else t)
      else Some t
  end.

(** One turn of the loop of [run], on a message. *)
Definition handle_input (env : Env) (input : NonceBufferInput) (t : task) : option task :=
  match input with
  | NewTx baked hash ip tx_nonce queue_id sender => handle_new_tx_input env baked hash ip tx_nonce queue_id sender t
  | TxExecuted c tx_nonce tx_result sender => handle_tx_executed env c tx_nonce tx_result sender t
  | TxPersisted c tx_nonce => handle_tx_persisted c tx_nonce t
  | TxTimedOut c tx_nonce hash => handle_tx_timed_out env c tx_nonce hash t
  end.

Definition init : task := mkTask ∅ [] [] None [] Selecting [] [] [].

Definition has_room (t : task) : bool := len (buffer_input t) <? MAX_BUFFER_INPUT_QUEUE.

(** The senders that are lost when the main task is cancelled. *)
Definition input_senders (i : NonceBufferInput) : list N :=
  match i with NewTx _ _ _ _ _ s => [s] | TxExecuted _ _ _ s => [s] | _ => [] end.
Definition control_senders (c : Control) : list N :=
  match c with SendingToMain i _ _ => input_senders i | _ => [] end.

Definition cancel (t : task) : task :=
  mkTask ∅ [] [] None (executing t) Stopped (replies t)
    (dropped t ++ (buffer_input t ≫= input_senders) ++ waiting_senders t ++ control_senders (control t)) (alarms t).

(** What a step is: a request, or something internal. *)
Inductive event : Type := Request (sender : N) | Internal.

Inductive step (t : task) : event -> task -> Prop :=
| step_request baked hash ip tx_nonce queue_id sender :
    control t <> Stopped -> has_room t = true ->
    step t (Request sender) (put_input (buffer_input t ++ [NewTx baked hash ip tx_nonce queue_id sender]) t)
| step_request_stopped sender :
    control t = Stopped -> step t (Request sender) (reply sender Shutdown t)
| step_persisted c tx_nonce :
    control t <> Stopped -> has_room t = true -> step t Internal (put_input (buffer_input t ++ [TxPersisted c tx_nonce]) t)
| step_input env i l t' :
    control t = Selecting -> buffer_input t = i :: l -> handle_input env i (put_input l t) = Some t' -> step t Internal t'
| step_sent i c user_nonce t' :
    control t = SendingToMain i c user_nonce -> has_room t = true ->
    run_head_loop c user_nonce (put_control Selecting (put_input (buffer_input t ++ [i]) t)) = Some t' -> step t Internal t'
| step_timeout_sent r :
    control t = SendingTimeout r -> len (timeout_queue t) < MAX_BUFFERED_TXS ->
    step t Internal (put_control Selecting (put_timeouts (timeout_queue t ++ [r]) (timing_out t) t))
| step_timeout_received r l :
    control t <> Stopped -> timing_out t = None -> timeout_queue t = r :: l ->
    step t Internal (put_timeouts l (Some r) t)
| step_timed_out env r :
    control t <> Stopped -> timing_out t = Some r -> tr_queued_at r + timeout_duration <= now env -> has_room t = true ->
    step t Internal (put_timeouts (timeout_queue t) None
      (put_input (buffer_input t ++ [TxTimedOut (tr_credential_id r) (tr_nonce r) (tr_hash r)]) t))
| step_executed e l1 l2 r :
    control t <> Stopped -> executing t = l1 ++ e :: l2 -> has_room t = true ->
    step t Internal (put_executing (l1 ++ l2)
      (put_input (buffer_input t ++ [TxExecuted (ex_credential_id e) (ex_nonce e) r (ex_sender e)]) t))
| step_executed_stopped e l1 l2 r :
    control t = Stopped -> executing t = l1 ++ e :: l2 ->
    step t Internal (reply (ex_sender e) r (put_executing (l1 ++ l2) t))
| step_forced_batch env t' :
    control t = Selecting -> drain_and_reject_all_txs env wipe_reject_error t = Some t' -> step t Internal t'
| step_shutdown env t' :
    control t = Selecting -> drain_and_reject_all_txs env shutdown_reject_error t = Some t' ->
    step t Internal (put_control Returning t')
| step_cancel : control t <> Stopped -> step t Internal (cancel t).

(** What [handle_new_tx] returns for a request: the reply, or, when its sender was
    dropped, an error that depends on [is_shutting_down]. *)
Definition handle_new_tx_result (env : Env) (shutting_down : bool) (hash : TxHash) (tx_nonce nonce_when_queued queued_at : N)
    (c : CredentialId) (sender : N) (t : task) : option TransactionReceiverResult :=
  match list_find (fun p => fst p = sender) (replies t) with
  | Some (_, (_, r)) => Some r
  | None =>
      if bool_decide (sender ∈ dropped t) then
        Some (if shutting_down then shutdown_reject_error
              else err_invalid_nonce hash tx_nonce (get_current_nonce_for_user env c) nonce_when_queued queued_at c
                     EvictedBeforeExecution)
      else None
  end.

(** The requests that were made, in order. *)
Inductive reachable : list N -> task -> Prop :=
| reachable_init : reachable [] init
| reachable_internal issued t t' : reachable issued t -> step t Internal t' -> reachable issued t'
| reachable_request issued t sender t' :
    reachable issued t -> sender ∉ issued -> step t (Request sender) t' -> reachable (issued ++ [sender]) t'.
End NonceBufferTask.
End NonceBufferTask.
