(* ===== verification/NonceBufferProofs.v ===== *)
(** * Proofs about the nonce buffer

    Where the sender of a request is ([located]) and that no handler loses or copies
    one; what the loop over the head of a queue does, and that it ends. *)

From Stdlib Require Import NArith Lia Permutation.
From stdpp Require Import base numbers gmap option sorting list.
From S2P Require Import Prelude Ints NonceBuffer.
Import NonceBufferTask.

(** The lemmas that a handler moves no sender but those it is given. *)
Create HintDb senders.

Module SenderCount.
(** How often [x] occurs. *)
Definition times (x : N) (l : list N) : nat := count_occ N.eq_dec l x.

Lemma times_app x l1 l2 : times x (l1 ++ l2) = (times x l1 + times x l2)%nat.
Proof. apply count_occ_app. Qed.

Lemma times_cons x y l : times x (y :: l) = (times x [y] + times x l)%nat.
Proof. apply (times_app x [y]). Qed.

Lemma times_perm l1 l2 : l1 ≡ₚ l2 <-> forall x, times x l1 = times x l2.
Proof. apply (Permutation_count_occ N.eq_dec). Qed.

Lemma times_of_perm x l1 l2 : l1 ≡ₚ l2 -> times x l1 = times x l2.
Proof. intros H. by apply times_perm. Qed.

Definition all_senders (b : gmap CredentialId AddressQueue) : list N :=
  map_to_list b ≫= (fun p => queue_senders (snd p)).

Lemma all_senders_new b c q : b !! c = None -> all_senders (<[c := q]> b) ≡ₚ queue_senders q ++ all_senders b.
Proof. intros H. unfold all_senders. by rewrite map_to_list_insert. Qed.

Lemma times_delete_queue x b c :
  (times x (all_senders (delete c b)) + times x (queue_senders (default AddressQueue.empty (b !! c))))%nat
  = times x (all_senders b).
Proof.
  destruct (b !! c) as [q|] eqn:E; simpl.
  - rewrite <- (insert_delete_id b c q E) at 2.
    rewrite (times_of_perm x _ _ (all_senders_new (delete c b) c q (lookup_delete_eq b c))), times_app. lia.
  - rewrite delete_id by done. unfold queue_senders. simpl. rewrite map_to_list_empty. simpl. lia.
Qed.

Lemma times_put_queue x b c q :
  (times x (all_senders (<[c := q]> b)) + times x (queue_senders (default AddressQueue.empty (b !! c))))%nat
  = (times x (all_senders b) + times x (queue_senders q))%nat.
Proof.
  rewrite <- insert_delete_eq.
  rewrite (times_of_perm x _ _ (all_senders_new (delete c b) c q (lookup_delete_eq b c))), times_app.
  pose proof (times_delete_queue x b c). lia.
Qed.

Lemma times_remove_tx x m np n tx :
  m !! n = Some tx ->
  times x (queue_senders (mkQueue m np)) = (times x [result_sender tx] + times x (queue_senders (mkQueue (delete n m) np)))%nat.
Proof.
  intros H. rewrite <- times_app. apply times_of_perm. unfold queue_senders. simpl.
  rewrite <- (map_to_list_delete m n tx H). done.
Qed.

Lemma times_insert_tx x m np n tx :
  times x (queue_senders (mkQueue (<[n := tx]> m) np))
  = (times x [result_sender tx] + times x (queue_senders (mkQueue (delete n m) np)))%nat.
Proof.
  rewrite (times_remove_tx x _ np n tx) by apply lookup_insert_eq. by rewrite delete_insert_eq.
Qed.

Lemma queue_senders_np m np np' : queue_senders (mkQueue m np) = queue_senders (mkQueue m np').
Proof. done. Qed.

(** ** Where senders are *)
Definition located (t : task) : list N :=
  (buffer_input t ≫= input_senders) ++ waiting_senders t ++ control_senders (control t)
  ++ (ex_sender <$> executing t) ++ (fst <$> replies t) ++ dropped t.

Lemma times_located x t :
  times x (located t) =
  (times x (buffer_input t ≫= input_senders) + times x (all_senders (buffers t)) + times x (control_senders (control t))
   + times x (ex_sender <$> executing t) + times x (fst <$> replies t) + times x (dropped t))%nat.
Proof. unfold located. rewrite !times_app. change (waiting_senders t) with (all_senders (buffers t)). lia. Qed.

(** Unfolds the positions of a state that updates built. *)
Ltac count_senders x :=
  rewrite ?(times_located x); simpl;
  rewrite ?fmap_app, ?bind_app, ?times_app; simpl;
  rewrite ?fmap_app, ?bind_app, ?times_app; simpl.

(** A sender that is replaced by [l] in the state. *)
Definition moves (l : list N) (t t' : task) : Prop :=
  forall x, times x (located t') = (times x (located t) + times x l)%nat.

Lemma moves_reply s r t : moves [s] t (reply s r t).
Proof. intros x. count_senders x. lia. Qed.
#[export] Hint Resolve moves_reply : senders.

Lemma moves_trans l1 l2 t1 t2 t3 : moves l1 t1 t2 -> moves l2 t2 t3 -> moves (l1 ++ l2) t1 t3.
Proof. intros H1 H2 x. rewrite H2, H1, times_app. lia. Qed.

Lemma moves_replies r l t : moves l t (foldl (fun t s => reply s r t) t l).
Proof.
  revert t. induction l as [|s l IH]; intros t; simpl.
  - intros x. simpl. lia.
  - apply (moves_trans [s] l _ _ _ (moves_reply s r t)), IH.
Qed.

(** Replacing the queue of a user. *)
Lemma moves_put_queue l c q t :
  (forall x, times x (queue_senders q) = (times x (queue_senders (queue_of c t)) + times x l)%nat) ->
  moves l t (put_queue c q t).
Proof.
  intros H x. rewrite !(times_located x). simpl.
  pose proof (times_put_queue x (buffers t) c q) as E. specialize (H x). unfold queue_of in H. lia.
Qed.

Lemma moves_same_queue c np t : moves [] t (put_queue c (mkQueue (txs (queue_of c t)) np) t).
Proof. apply moves_put_queue. intros x. simpl. rewrite (queue_senders_np _ np (non_persisted (queue_of c t))). destruct (queue_of c t). simpl. lia. Qed.

Lemma moves_queue_of c t : moves [] t (put_queue c (queue_of c t) t).
Proof. apply moves_put_queue. intros x. simpl. lia. Qed.
#[export] Hint Resolve moves_queue_of : senders.

(** A transaction leaves its queue and its sender moves on. *)
Lemma times_pop x c n tx np t :
  txs (queue_of c t) !! n = Some tx ->
  (times x (all_senders (<[c := mkQueue (delete n (txs (queue_of c t))) np]> (buffers t))) + times x [result_sender tx])%nat
  = times x (all_senders (buffers t)).
Proof.
  intros H. pose proof (times_put_queue x (buffers t) c (mkQueue (delete n (txs (queue_of c t))) np)) as E.
  pose proof (times_remove_tx x _ (non_persisted (queue_of c t)) n tx H) as R.
  rewrite (queue_senders_np _ np (non_persisted (queue_of c t))) in E.
  change (default AddressQueue.empty (buffers t !! c)) with (queue_of c t) in E.
  destruct (queue_of c t); simpl in *. lia.
Qed.

Lemma moves_timed_out env c n h t t' : handle_tx_timed_out env c n h t = Some t' -> moves [] t t'.
Proof.
  unfold handle_tx_timed_out. destruct (NonPersisted.user_nonce_to_use_as_prerequisite_start _) as [start|]; [|done]. simpl.
  intros [= <-]. destruct (txs (queue_of c t) !! n) as [tx|] eqn:E; [|apply moves_queue_of].
  case_bool_decide; [|apply moves_queue_of].
  intros x. count_senders x. pose proof (times_pop x c n tx (non_persisted (queue_of c t)) t E). simpl in *. lia.
Qed.
#[export] Hint Resolve moves_timed_out : senders.

Lemma moves_drain_inputs env r l t t' : drain_inputs env r l t = Some t' -> moves (l ≫= input_senders) t t'.
Proof.
  revert t. induction l as [|i l IH]; intros t; simpl.
  - intros [= <-] x. simpl. lia.
  - destruct (drain_input env r i t) as [t1|] eqn:E; [|done]. simpl. intros H.
    refine (moves_trans (input_senders i) _ _ t1 _ _ (IH _ H)).
    destruct i; simpl in *; simplify_eq; [eauto with senders..| |eauto with senders].
    intros x. simpl. lia.
Qed.

Lemma drain_inputs_frame env r l t t' :
  drain_inputs env r l t = Some t' -> buffer_input t' = buffer_input t /\ control t' = control t.
Proof.
  revert t. induction l as [|i l IH]; intros t; simpl; [by intros [= <-]|].
  destruct (drain_input env r i t) as [t1|] eqn:E; [|done]. simpl. intros H. destruct (IH _ H) as [-> ->].
  destruct i; simpl in E; simplify_eq; try done.
  unfold handle_tx_timed_out in E. destruct (NonPersisted.user_nonce_to_use_as_prerequisite_start _); [|done]. simpl in E.
  destruct (txs _ !! _); [case_bool_decide|]; by simplify_eq.
Qed.

Lemma moves_drain env r t t' : drain_and_reject_all_txs env r t = Some t' -> moves [] t t'.
Proof.
  unfold drain_and_reject_all_txs. destruct (drain_inputs _ _ _ _) as [t1|] eqn:E; [|done]. simpl. intros [= <-] x.
  pose proof (drain_inputs_frame _ _ _ _ _ E) as [Hi Hc].
  rewrite (moves_replies r (waiting_senders t1) (put_buffers ∅ t1) x).
  pose proof (moves_drain_inputs _ _ _ _ _ E x) as M. revert M. rewrite !(times_located x). simpl.
  assert (all_senders ∅ = []) as -> by (unfold all_senders; by rewrite map_to_list_empty).
  change (waiting_senders t1) with (all_senders (buffers t1)). simpl. lia.
Qed.
#[export] Hint Resolve moves_drain : senders.

Lemma replies_frame r l t :
  buffer_input (foldl (fun t s => reply s r t) t l) = buffer_input t
  /\ control (foldl (fun t s => reply s r t) t l) = control t
  /\ buffers (foldl (fun t s => reply s r t) t l) = buffers t
  /\ alarms (foldl (fun t s => reply s r t) t l) = alarms t.
Proof. revert t. induction l as [|s l IH]; intros t; simpl; [done|]. apply (IH (reply s r t)). Qed.

Lemma drain_frame env r t t' :
  drain_and_reject_all_txs env r t = Some t' -> buffer_input t' = [] /\ control t' = control t.
Proof.
  unfold drain_and_reject_all_txs. destruct (drain_inputs _ _ _ _) as [t1|] eqn:E; [|done]. simpl. intros [= <-].
  destruct (replies_frame r (waiting_senders t1) (put_buffers ∅ t1)) as (-> & -> & _). by apply drain_inputs_frame in E.
Qed.

Lemma moves_new_tx delta env baked h ip n q s t t' :
  control t = Selecting -> handle_new_tx_input delta env baked h ip n q s t = Some t' -> moves [s] t t'.
Proof.
  intros Hc. unfold handle_new_tx_input. set (c := credential_id ip).
  destruct (NonPersisted.user_nonce _) as [un|]; [|done]. simpl.
  destruct (determine_action _ _ _) as [[]|]; simpl; [| | |done].
  - destruct (q <? _).
    + intros H. pose proof (moves_drain _ _ _ _ H) as M.
      refine (moves_trans [s] [] _ _ _ _ M). refine (moves_trans [] [s] _ _ _ (moves_queue_of c t) _). apply moves_reply.
    + destruct (NonPersisted.mark_inflight _ _) as [[np al]|]; [|done]. simpl. intros [= <-] x.
      pose proof (moves_same_queue c np t x) as M. revert M. count_senders x. lia.
  - destruct (txs (queue_of c t) !! n) as [old|] eqn:E.
    + case_bool_decide.
      * intros [= <-]. refine (moves_trans [] [s] _ _ _ (moves_queue_of c t) _). apply moves_reply.
      * intros [= <-] x. count_senders x. rewrite Hc. simpl.
        pose proof (times_put_queue x (buffers t) c (mkQueue (<[n := mkQueuedTx baked h ip q (default (get_current_nonce_for_user env c) un) (now env) s]>
           (txs (queue_of c t))) (non_persisted (queue_of c t)))) as P.
        rewrite times_insert_tx in P. change (default AddressQueue.empty (buffers t !! c)) with (queue_of c t) in P.
        pose proof (times_remove_tx x _ (non_persisted (queue_of c t)) n old E) as R.
        destruct (queue_of c t). simpl in *. lia.
    + intros [= <-] x. count_senders x. rewrite Hc. simpl.
      pose proof (times_put_queue x (buffers t) c (mkQueue (<[n := mkQueuedTx baked h ip q (default (get_current_nonce_for_user env c) un) (now env) s]>
         (txs (queue_of c t))) (non_persisted (queue_of c t)))) as P.
      rewrite times_insert_tx in P. change (default AddressQueue.empty (buffers t !! c)) with (queue_of c t) in P.
      rewrite (delete_id _ _ E) in P. destruct (queue_of c t). simpl in *. lia.
  - intros [= <-]. refine (moves_trans [] [s] _ _ _ (moves_queue_of c t) _). apply moves_reply.
Qed.
#[export] Hint Resolve moves_new_tx : senders.

Lemma moves_head_loop fuel c un t t' : control t = Selecting -> head_loop fuel c un t = Some t' -> moves [] t t'.
Proof.
  revert t. induction fuel as [|fuel IH]; intros t Hc; simpl; [done|].
  destruct (AddressQueue.first_key _) as [k|].
  2: { intros [= <-] x. count_senders x. rewrite Hc. simpl. lia. }
  destruct (txs (queue_of c t) !! k) as [tx|] eqn:E; [|done].
  destruct (k ?= un).
  - destruct (NonPersisted.mark_inflight _ _) as [[np al]|]; [|done]. simpl. intros [= <-] x.
    count_senders x. rewrite Hc. pose proof (times_pop x c k tx np t E). simpl in *. lia.
  - intros H. apply IH in H; [|done]. intros x. rewrite (H x). clear H.
    count_senders x. pose proof (times_pop x c k tx (non_persisted (queue_of c t)) t E). simpl in *. lia.
  - intros [= <-] x. count_senders x. rewrite Hc. simpl. lia.
Qed.
#[export] Hint Resolve moves_head_loop : senders.

Lemma moves_tx_executed env c n r s t t' :
  control t = Selecting -> handle_tx_executed env c n r s t = Some t' -> moves [s] t t'.
Proof.
  intros Hc. unfold handle_tx_executed. destruct (is_notready_error r).
  - intros H. refine (moves_trans [s] [] _ _ _ (moves_reply s r t) _). by eapply moves_drain.
  - destruct (match r with Accepted => _ | _ => _ end) as [[np al]|]; [|done]. simpl.
    destruct (NonPersisted.user_nonce np) as [un|]; [|done]. simpl. intros H. apply moves_head_loop in H; [|done].
    refine (moves_trans [s] [] _ _ _ _ H). intros x. pose proof (moves_same_queue c np t x) as M. revert M.
    count_senders x. lia.
Qed.
#[export] Hint Resolve moves_tx_executed : senders.

Lemma moves_tx_persisted c n t t' : handle_tx_persisted c n t = Some t' -> moves [] t t'.
Proof.
  unfold handle_tx_persisted. destruct (buffers t !! c) as [q|] eqn:E; [|intros [= <-] x; simpl; lia].
  case_bool_decide as Hq; [|intros [= <-] x; simpl; lia].
  destruct (NonPersisted.user_nonce_to_use_as_prerequisite_start _) as [start|]; [|done]. simpl.
  destruct (match start with None => true | _ => _ end); intros [= <-] x; simpl; [|lia].
  count_senders x. pose proof (times_delete_queue x (buffers t) c) as D. rewrite E in D. simpl in D.
  unfold queue_senders in D. rewrite Hq, map_to_list_empty in D. simpl in D. lia.
Qed.
#[export] Hint Resolve moves_tx_persisted : senders.

Lemma moves_input delta env i t t' :
  control t = Selecting -> handle_input delta env i t = Some t' -> moves (input_senders i) t t'.
Proof.
  destruct i; simpl; eauto with senders.
Qed.

Definition event_senders (e : event) : list N := match e with Request s => [s] | Internal => [] end.

Lemma moves_step delta dur t e t' : step delta dur t e t' -> moves (event_senders e) t t'.
Proof.
  intros []; simpl; try (intros x; count_senders x; lia).
  - (* a message *) intros x.
    match goal with H : handle_input _ _ _ _ = Some _ |- _ => apply moves_input in H; [|done]; rewrite (H x) end.
    count_senders x. match goal with H : buffer_input t = _ |- _ => rewrite H end.
    rewrite bind_cons, times_app. simpl. lia.
  - (* a send completes *) intros x.
    match goal with H : run_head_loop _ _ _ = Some _ |- _ => apply moves_head_loop in H; [|done]; rewrite (H x) end.
    count_senders x. match goal with H : control t = _ |- _ => rewrite H end. simpl. lia.
  - intros x. count_senders x. match goal with H : control t = _ |- _ => rewrite H end. simpl. lia.
  - intros x. count_senders x. match goal with H : executing t = _ |- _ => rewrite H end.
    rewrite fmap_app, fmap_cons, times_app, times_cons. simpl. lia.
  - intros x. count_senders x. match goal with H : executing t = _ |- _ => rewrite H end.
    rewrite fmap_app, fmap_cons, times_app, times_cons. simpl. lia.
  - by eapply moves_drain.
  - intros x. match goal with H : drain_and_reject_all_txs _ _ _ = Some _ |- _ => pose proof H as D; apply moves_drain in H; rewrite <- (H x) end.
    apply drain_frame in D as [_ D]. count_senders x. rewrite D. match goal with H : control t = _ |- _ => rewrite H end. simpl. lia.
  - intros x. count_senders x. assert (all_senders ∅ = []) as -> by (unfold all_senders; by rewrite map_to_list_empty).
    change (waiting_senders t) with (all_senders (buffers t)). simpl. lia.
Qed.

End SenderCount.

Module HeadLoop.
(** ** The first key of a queue *)
Lemma keys_elem q k : k ∈ AddressQueue.keys q <-> is_Some (txs q !! k).
Proof.
  unfold AddressQueue.keys. rewrite merge_sort_Permutation, elem_of_elements. apply elem_of_dom.
Qed.

Lemma first_key_some q k :
  AddressQueue.first_key q = Some k -> is_Some (txs q !! k) /\ forall k', is_Some (txs q !! k') -> k <= k'.
Proof.
  unfold AddressQueue.first_key. intros H. destruct (AddressQueue.keys q) as [|k0 l] eqn:E; [done|]. injection H as ->.
  assert (StronglySorted N.le (k :: l)) as S by (rewrite <- E; apply (StronglySorted_merge_sort N.le)).
  split; [apply keys_elem; rewrite E; constructor|].
  intros k' H. apply keys_elem in H. rewrite E in H. apply StronglySorted_inv in S as [_ S].
  apply elem_of_cons in H as [->|H]; [lia|]. rewrite Forall_forall in S. by apply S.
Qed.

Lemma first_key_none q : AddressQueue.first_key q = None -> txs q = ∅.
Proof.
  unfold AddressQueue.first_key. intros H. destruct (AddressQueue.keys q) as [|k l] eqn:E; [|done].
  apply map_empty. intros k. destruct (txs q !! k) as [tx|] eqn:L; [|done].
  assert (k ∈ AddressQueue.keys q) as K by (apply keys_elem; eauto). rewrite E in K. by apply elem_of_nil in K.
Qed.

Lemma first_key_is q k :
  is_Some (txs q !! k) -> (forall k', is_Some (txs q !! k') -> k <= k') -> AddressQueue.first_key q = Some k.
Proof.
  intros H Hmin. destruct (AddressQueue.first_key q) as [k0|] eqn:E.
  - apply first_key_some in E as [H0 H1]. f_equal. apply N.le_antisymm; eauto.
  - apply first_key_none in E. rewrite E, lookup_empty in H. by destruct H.
Qed.

Lemma queue_of_put c q t : queue_of c (put_queue c q t) = q.
Proof. unfold queue_of. simpl. by rewrite lookup_insert_eq. Qed.

(** ** The loop ends *)
Lemma head_loop_total fuel c un t np :
  (size (txs (queue_of c t)) < fuel)%nat -> NonPersisted.user_nonce (non_persisted (queue_of c t)) = Some np ->
  is_Some (head_loop fuel c un t).
Proof.
  revert t. induction fuel as [|fuel IH]; intros t Hf Hn; [lia|]. simpl.
  destruct (AddressQueue.first_key (queue_of c t)) as [k|] eqn:E; [|eauto].
  apply first_key_some in E as [[tx Hk] _]. rewrite Hk. destruct (k ?= un).
  - unfold NonPersisted.mark_inflight. rewrite Hn. simpl. destruct (match np with Some _ => _ | None => _ end); simpl; eauto.
  - apply IH; unfold queue_of; simpl; rewrite lookup_insert_eq; simpl; [|done].
    change (default AddressQueue.empty (buffers t !! c)) with (queue_of c t). rewrite map_size_delete_Some by eauto. assert (size (txs (queue_of c t)) <> 0)%nat; [|lia].
    apply map_size_ne_0_lookup. eauto.
  - eauto.
Qed.

(** ** What it leaves *)
Definition ahead (c : CredentialId) (un : N) (t : task) : Prop :=
  forall k, is_Some (txs (queue_of c t) !! k) -> un < k.

Lemma head_loop_ahead fuel c un t :
  ahead c un t -> (0 < fuel)%nat -> head_loop fuel c un t = Some (put_control Selecting t).
Proof.
  intros Ha Hf. destruct fuel as [|fuel]; [lia|]. simpl.
  destruct (AddressQueue.first_key _) as [k|] eqn:E; [|done].
  apply first_key_some in E as [[tx Hk] _]. rewrite Hk. assert (un < k) as H by eauto.
  by rewrite (proj2 (N.compare_gt_iff k un)).
Qed.

Definition in_step (c : CredentialId) (un : N) (t : task) : Prop :=
  forall x, NonPersisted.user_nonce (non_persisted (queue_of c t)) = Some (Some x) -> un = x.

Lemma mark_inflight_quiet n np np' al :
  (forall x, NonPersisted.user_nonce np = Some (Some x) -> n = x) -> NonPersisted.mark_inflight n np = Some (np', al) -> al = [].
Proof.
  intros H. unfold NonPersisted.mark_inflight. destruct (NonPersisted.user_nonce np) as [[x|]|] eqn:E; simpl; [| |done].
  - rewrite (H x) by done. rewrite N.eqb_refl. simpl. by intros [= <- <-].
  - by intros [= <- <-].
Qed.

Definition quiet (t : task) : Prop :=
  InflightMismatch ∉ alarms t /\ forall i c un, control t = SendingToMain i c un -> ahead c un t.

Lemma head_loop_quiet fuel c un t t' :
  InflightMismatch ∉ alarms t -> in_step c un t -> head_loop fuel c un t = Some t' -> quiet t'.
Proof.
  revert t. induction fuel as [|fuel IH]; intros t Ha Hs; simpl; [done|].
  destruct (AddressQueue.first_key _) as [k|] eqn:E; [|by intros [= <-]].
  apply first_key_some in E as [[tx Hk] Hmin]. rewrite Hk. destruct (N.compare_spec k un) as [->|Hlt|Hgt].
  - destruct (NonPersisted.mark_inflight _ _) as [[np al]|] eqn:M; [|done]. apply mark_inflight_quiet in M as ->; [|done].
    simpl. intros [= <-]. split; simpl; [by rewrite app_nil_r|]. intros i c' un' [= <- <- <-] k'.
    unfold queue_of. simpl. rewrite lookup_insert_eq. simpl. rewrite lookup_delete_is_Some. intros [Hne Hk']. specialize (Hmin _ Hk'). lia.
  - intros H. apply IH in H; [done| |].
    + simpl. rewrite elem_of_app, list_elem_of_singleton. by intros [|].
    + intros x. unfold queue_of. simpl. rewrite lookup_insert_eq. apply Hs.
  - by intros [= <-].
Qed.
End HeadLoop.
