(* ===== verification/NonceBufferProperties.v ===== *)
(** * Properties of the nonce buffer

    Requests are conserved, transactions are never marked in flight with a nonce other
    than the next one, a contiguous queue drains in order; and two faults: the main task
    can wait forever on its own channel, and users are never cleaned up. *)

From Stdlib Require Import NArith Lia Permutation.
From stdpp Require Import base numbers gmap option sorting list relations.
From S2P Require Import Prelude Ints NonceBuffer NonceBufferProofs.
Import NonceBufferTask SenderCount HeadLoop.

Module NonceBufferFacts.
Lemma located_perm delta dur issued t : reachable delta dur issued t -> issued ≡ₚ located t.
Proof.
  induction 1 as [|issued t t' _ IH S|issued t s t' _ IH _ S].
  - done.
  - apply times_perm. intros x. rewrite (times_of_perm x _ _ IH), (moves_step _ _ _ _ _ S x). simpl. lia.
  - apply times_perm. intros x. rewrite times_app, (times_of_perm x _ _ IH), (moves_step _ _ _ _ _ S x). simpl. lia.
Qed.

Lemma issued_unique delta dur issued t : reachable delta dur issued t -> NoDup issued.
Proof.
  induction 1 as [| |issued t s t' _ IH Hs _]; [constructor|done|].
  apply NoDup_app. split_and!; [done| |apply NoDup_singleton]. set_solver.
Qed.

(** ** Alarms *)
Lemma timed_out_alarms env c n h t t' :
  handle_tx_timed_out env c n h t = Some t' -> alarms t' = alarms t /\ control t' = control t.
Proof.
  unfold handle_tx_timed_out. destruct (NonPersisted.user_nonce_to_use_as_prerequisite_start _); [|done]. simpl.
  destruct (txs _ !! _); [case_bool_decide|]; by intros [= <-].
Qed.

Lemma drain_alarms env r t t' :
  drain_and_reject_all_txs env r t = Some t' -> alarms t' = alarms t /\ control t' = control t.
Proof.
  intros H. split; [|by apply drain_frame in H as [_ ?]]. revert H. unfold drain_and_reject_all_txs.
  destruct (drain_inputs _ _ _ _) as [t1|] eqn:E; [|done]. simpl. intros [= <-].
  destruct (replies_frame r (waiting_senders t1) (put_buffers ∅ t1)) as (_ & _ & _ & ->). simpl.
  change (alarms t) with (alarms (put_input [] t)). revert E. generalize (put_input [] t). generalize (buffer_input t).
  induction l as [|i l IH]; intros t0; simpl; [by intros [= <-]|].
  destruct (drain_input env r i t0) as [t2|] eqn:D; [|done]. simpl. intros H. rewrite (IH _ H).
  destruct i; simpl in D; simplify_eq; try done. by apply timed_out_alarms in D as [? _].
Qed.

Lemma persisted_frame c n t t' : handle_tx_persisted c n t = Some t' -> alarms t' = alarms t /\ control t' = control t.
Proof.
  unfold handle_tx_persisted. destruct (buffers t !! c) as [q|]; [case_bool_decide|]; [|by intros [= <-]..].
  destruct (NonPersisted.user_nonce_to_use_as_prerequisite_start _) as [n'|]; [|done]. simpl.
  destruct (match n' with None => true | _ => _ end); by intros [= <-].
Qed.

Lemma head_loop_runs fuel c un t t' : head_loop fuel c un t = Some t' -> control t' <> Stopped.
Proof.
  revert t. induction fuel as [|fuel IH]; intros t; simpl; [done|].
  destruct (AddressQueue.first_key _) as [k|]; [|by intros [= <-]]. destruct (txs _ !! k); [|done].
  destruct (k ?= un); [|by apply IH|by intros [= <-]].
  destruct (NonPersisted.mark_inflight _ _) as [[]|]; [|done]. by intros [= <-].
Qed.

Lemma quiet_selecting t : InflightMismatch ∉ alarms t -> control t = Selecting -> quiet t.
Proof. intros H Hc. split; [done|]. rewrite Hc. done. Qed.

Lemma executed_quiet env c n r s t t' :
  quiet t -> control t = Selecting -> handle_tx_executed env c n r s t = Some t' -> quiet t'.
Proof.
  intros [Ha _] Hc. unfold handle_tx_executed. destruct (is_notready_error r).
  - intros [E1 E2]%drain_alarms. apply quiet_selecting; [by rewrite E1|by rewrite E2].
  - destruct (match r with Accepted => _ | _ => _ end) as [[np al]|] eqn:E; [|done]. simpl.
    destruct (NonPersisted.user_nonce np) as [un|] eqn:U; [|done]. simpl. apply head_loop_quiet.
    + simpl. rewrite elem_of_app. intros [|Hal]; [done|]. destruct r; simplify_eq; try by apply elem_of_nil in Hal.
      revert E. unfold NonPersisted.mark_inflight_execution_succeeded.
      destruct (last_successfully_executed _) as [l|]; [destruct (checked_add _ l 1); [|done]|]; simpl; intros [= <- <-];
        [destruct (_ =? _)|]; set_solver.
    + intros x. unfold queue_of. simpl. rewrite lookup_insert_eq. simpl. rewrite U. by intros [= ->].
Qed.

Lemma new_tx_quiet delta env baked h ip n q s t t' :
  quiet t -> control t = Selecting -> handle_new_tx_input delta env baked h ip n q s t = Some t' -> quiet t'.
Proof.
  intros [Ha _] Hc. unfold handle_new_tx_input. destruct (NonPersisted.user_nonce _) as [un|] eqn:U; [|done]. simpl.
  destruct (determine_action _ _ _) as [[]|] eqn:D; simpl; [| | |done].
  - destruct (q <? _); [intros [E1 E2]%drain_alarms; apply quiet_selecting; [by rewrite E1|by rewrite E2]|].
    destruct (NonPersisted.mark_inflight _ _) as [[np al]|] eqn:M; [|done]. simpl. intros [= <-].
    apply quiet_selecting; [|done]. simpl. apply mark_inflight_quiet in M as ->; [by rewrite app_nil_r|].
    intros x Hx. rewrite U in Hx. injection Hx as ->. simpl in D. revert D. unfold determine_action.
    destruct (checked_add _ _ _); [|done]. simpl. destruct (_ && _); [done|]. destruct (N.eqb_spec n x); [done|]. done.
  - destruct (txs _ !! n); [case_bool_decide|]; intros [= <-]; [by apply quiet_selecting|split; done..].
  - intros [= <-]. by apply quiet_selecting.
Qed.

Lemma input_quiet delta env i t t' : quiet t -> control t = Selecting -> handle_input delta env i t = Some t' -> quiet t'.
Proof.
  destruct i as [| | |]; simpl; intros Hq Hc H.
  - by eapply new_tx_quiet.
  - by eapply executed_quiet.
  - destruct Hq as [Ha _]. apply persisted_frame in H as [E1 E2]. apply quiet_selecting; [by rewrite E1|by rewrite E2].
  - destruct Hq as [Ha _]. apply timed_out_alarms in H as [E1 E2]. apply quiet_selecting; [by rewrite E1|by rewrite E2].
Qed.

Lemma quiet_step delta dur t e t' : step delta dur t e t' -> quiet t -> quiet t'.
Proof.
  intros S Hq. destruct S; try exact Hq.
  - by eapply input_quiet; [|..|eassumption].
  - destruct Hq as [Ha Hs]. match goal with H : run_head_loop _ _ _ = Some _ |- _ => revert H end.
    unfold run_head_loop. rewrite head_loop_ahead; [intros [= <-]; by apply quiet_selecting|by eapply Hs|lia].
  - destruct Hq as [Ha _]. by apply quiet_selecting.
  - destruct Hq as [Ha _]. match goal with H : drain_and_reject_all_txs _ _ _ = Some _ |- _ => apply drain_alarms in H as [E1 E2] end.
    apply quiet_selecting; congruence.
  - destruct Hq as [Ha _]. match goal with H : drain_and_reject_all_txs _ _ _ = Some _ |- _ => apply drain_alarms in H as [E1 E2] end.
    split; [simpl; congruence|done].
  - destruct Hq as [Ha _]. split; done.
Qed.

Lemma quiet_reachable delta dur issued t : reachable delta dur issued t -> quiet t.
Proof. induction 1; [split; [by apply not_elem_of_nil|done]|by eapply quiet_step..]. Qed.
Lemma input_runs delta env i t t' :
  control t = Selecting -> handle_input delta env i t = Some t' -> control t' <> Stopped.
Proof.
  intros Hc. destruct i; simpl.
  - unfold handle_new_tx_input. destruct (NonPersisted.user_nonce _); [|done]. simpl.
    destruct (determine_action _ _ _) as [[]|]; simpl; [| | |done].
    + destruct (_ <? _); [intros [_ ->]%drain_frame; simpl; congruence|].
      destruct (NonPersisted.mark_inflight _ _) as [[]|]; [|done]. simpl. intros [= <-]. simpl. congruence.
    + destruct (txs _ !! _); [case_bool_decide|]; intros [= <-]; simpl; congruence.
    + intros [= <-]. simpl. congruence.
  - unfold handle_tx_executed. destruct (is_notready_error _); [intros [_ ->]%drain_frame; simpl; congruence|].
    destruct (match tx_result with Accepted => _ | _ => _ end) as [[]|]; [|done]. simpl.
    destruct (NonPersisted.user_nonce _); [|done]. apply head_loop_runs.
  - intros [_ ->]%persisted_frame. congruence.
  - intros [_ ->]%timed_out_alarms. congruence.
Qed.

(** ** A task that has stopped holds nothing *)
Definition closed (t : task) : Prop := control t = Stopped -> buffers t = ∅ /\ buffer_input t = [].

Lemma closed_step delta dur t e t' : step delta dur t e t' -> closed t -> closed t'.
Proof.
  intros S IH Hc. destruct S; simpl in Hc; try congruence; try (by apply IH); try done.
  - exfalso. revert Hc. by eapply input_runs; [|eassumption].
  - exfalso. revert Hc. by eapply head_loop_runs.
  - match goal with H : drain_and_reject_all_txs _ _ _ = Some _ |- _ => apply drain_frame in H as [_ H] end. congruence.
Qed.

Lemma stopped_empty delta dur issued t : reachable delta dur issued t -> closed t.
Proof. induction 1; [done|by eapply closed_step..]. Qed.
End NonceBufferFacts.

(** ** A contiguous queue drains *)
Module Draining.
Section Draining.
Context (delta dur executor_id : N).

(** The steps of a time in which nothing arrives from outside: the main task handles a
    message or completes a send, and the executor, whose queue id stays [executor_id],
    accepts a transaction.  No requests, timeouts, notices of persistence, wipes, failed
    executions or shutdown. *)
Inductive calm (t : task) : task -> Prop :=
| calm_input env i l t' :
    get_current_executor_tx_queue_id env = executor_id -> control t = Selecting -> buffer_input t = i :: l ->
    handle_input delta env i (put_input l t) = Some t' -> calm t t'
| calm_sent i c user_nonce t' :
    control t = SendingToMain i c user_nonce -> has_room t = true ->
    run_head_loop c user_nonce (put_control Selecting (put_input (buffer_input t ++ [i]) t)) = Some t' -> calm t t'
| calm_accepted e l1 l2 :
    control t <> Stopped -> executing t = l1 ++ e :: l2 -> has_room t = true ->
    calm t (put_executing (l1 ++ l2)
      (put_input (buffer_input t ++ [TxExecuted (ex_credential_id e) (ex_nonce e) Accepted (ex_sender e)]) t)).

Lemma calm_step t t' : calm t t' -> step delta dur t Internal t'.
Proof.
  destruct 1 as [env i l t' _ Hc Hi Hh|i c un t' Hc Hr Hl|e l1 l2 Hc He Hr].
  - by eapply step_input.
  - by eapply step_sent.
  - by apply step_executed.
Qed.

(** The only calm step. *)
Definition forced (t t1 : task) : Prop := calm t t1 /\ forall t', calm t t' -> t' = t1.

Lemma forced_runs t t1 : rtc forced t t1 -> rtc calm t t1 /\ ((forall t', ~ calm t1 t') -> forall t', rtc calm t t' -> rtc calm t' t1).
Proof.
  induction 1 as [t|t t2 t1 [Hs Hu] _ [IHr IHu]].
  - split; [done|]. intros Hend t' Hr. destruct Hr as [|? t2 ? Hs]; [done|]. by destruct (Hend t2).
  - split; [by eapply rtc_l|]. intros Hend t' Hr. inversion Hr as [|? t3 ? Hs' Hr']; subst; [by eapply rtc_l|].
    apply Hu in Hs' as ->. by apply IHu.
Qed.

(** Where nothing executes, the next message alone decides. *)
Lemma forced_input t i l t' :
  control t = Selecting -> buffer_input t = i :: l -> executing t = [] ->
  (forall env, get_current_executor_tx_queue_id env = executor_id -> handle_input delta env i (put_input l t) = Some t') ->
  forced t t'.
Proof.
  intros Hc Hi He Hh. split.
  - eapply (calm_input t (mkEnv (fun _ => 0) executor_id 0)); [done|done|done|by apply Hh].
  - intros t2 [env i' l' t2' Hq _ Hi' Hh'|i' c un t2' Hc' _ _|e l1 l2 _ He' _]; [|congruence|].
    + rewrite Hi in Hi'. injection Hi' as <- <-. specialize (Hh env Hq). congruence.
    + rewrite He in He'. by destruct l1.
Qed.

Lemma forced_sent t i c un t' :
  control t = SendingToMain i c un -> has_room t = true -> executing t = [] ->
  run_head_loop c un (put_control Selecting (put_input (buffer_input t ++ [i]) t)) = Some t' -> forced t t'.
Proof.
  intros Hc Hr He Hl. split; [by eapply calm_sent|].
  intros t2 [env i' l' t2' _ Hc' _ _|i' c' un' t2' Hc' _ Hl'|e l1 l2 _ He' _]; [congruence| |].
  - rewrite Hc in Hc'. injection Hc' as <- <- <-. congruence.
  - rewrite He in He'. by destruct l1.
Qed.

Lemma forced_accepted t e :
  control t = Selecting -> buffer_input t = [] -> executing t = [e] ->
  forced t (put_executing [] (put_input [TxExecuted (ex_credential_id e) (ex_nonce e) Accepted (ex_sender e)] t)).
Proof.
  intros Hc Hi He. assert (has_room t = true) as Hr by (unfold has_room; by rewrite Hi). split.
  - pose proof (calm_accepted t e [] []) as Hs. rewrite Hi in Hs. apply Hs; [by rewrite Hc|done|done].
  - intros t2 [env i' l' t2' _ _ Hi' _|i' c' un' t2' Hc' _ _|e' l1 l2 _ He' _]; [congruence..|].
    rewrite Hi. rewrite He in He'. destruct l1 as [|x l1]; simplify_eq/=; [done|by destruct l1].
Qed.

(** The main task is idle, the transaction with nonce [n] executes and is the next one. *)
Record at_nonce (c : CredentialId) (n s : N) (t : task) : Prop := mkAt {
  at_control : control t = Selecting;
  at_input : buffer_input t = [];
  at_executing : executing t = [mkExecution c n s];
  at_last : forall m, last_successfully_executed (non_persisted (queue_of c t)) = Some m -> m + 1 = n;
  at_ahead : ahead c n t
}.

(** The transactions [l] wait with the nonces after [n]. *)
Definition chain (c : CredentialId) (n : N) (l : list QueuedTx) (t : task) : Prop :=
  forall i tx, l !! i = Some tx -> txs (queue_of c t) !! (n + 1 + N.of_nat i) = Some tx.

Lemma has_room_short t : (length (buffer_input t) <= 1)%nat -> has_room t = true.
Proof. intros H. unfold has_room, MAX_BUFFER_INPUT_QUEUE, len. apply N.ltb_lt. lia. Qed.

Lemma succeeded c n s t :
  at_nonce c n s t -> n + 1 <= u64_max ->
  NonPersisted.mark_inflight_execution_succeeded n (non_persisted (queue_of c t)) = Some (mkNonPersisted (Some n) false, []).
Proof.
  intros H Hn. unfold NonPersisted.mark_inflight_execution_succeeded.
  destruct (last_successfully_executed _) as [m|] eqn:E; [|done]. apply (at_last _ _ _ _ H) in E.
  unfold checked_add. destruct (N.leb_spec (m + 1) u64_max); [|lia]. simpl. rewrite E, N.eqb_refl. done.
Qed.

(** The result of the transaction, and what the main task does with it. *)
Definition settled (c : CredentialId) (n s : N) (t : task) : task :=
  reply s Accepted (alarm [] (put_queue c (mkQueue (txs (queue_of c t)) (mkNonPersisted (Some n) false))
    (put_input [] (put_executing [] (put_input [TxExecuted c n Accepted s] t))))).

Lemma settle c n s t t' :
  at_nonce c n s t -> n + 1 <= u64_max -> run_head_loop c (n + 1) (settled c n s t) = Some t' ->
  rtc forced t t'.
Proof.
  intros H Hn Hl. destruct (H) as [Hc Hi He _ _].
  eapply rtc_l; [by apply (forced_accepted t (mkExecution c n s))|]. eapply rtc_l; [|apply rtc_refl].
  eapply forced_input; [exact Hc|reflexivity|reflexivity|]. intros env _. simpl. unfold handle_tx_executed. simpl.
  change (non_persisted (queue_of c _)) with (non_persisted (queue_of c t)).
  rewrite (succeeded c n s t H Hn). simpl. unfold NonPersisted.user_nonce, checked_add. simpl.
  destruct (N.leb_spec (n + 1) u64_max); [|lia]. simpl. exact Hl.
Qed.

Lemma queue_of_settled c n s t :
  queue_of c (settled c n s t) = mkQueue (txs (queue_of c t)) (mkNonPersisted (Some n) false).
Proof. unfold settled, queue_of. simpl. by rewrite lookup_insert_eq. Qed.

(** Nothing more to execute. *)
Lemma settle_last c n s t :
  at_nonce c n s t -> n + 1 <= u64_max -> txs (queue_of c t) !! (n + 1) = None ->
  rtc forced t (put_control Selecting (settled c n s t)).
Proof.
  intros H Hn Hnone. apply (settle c n s t _ H Hn). unfold run_head_loop. apply head_loop_ahead; [|lia].
  intros k. rewrite queue_of_settled. simpl. intros Hk. pose proof (at_ahead _ _ _ _ H k Hk) as Hlt.
  destruct (N.eq_dec k (n + 1)) as [->|]; [|lia]. rewrite Hnone in Hk. by destruct Hk.
Qed.

Definition sent (c : CredentialId) (n s : N) (tx : QueuedTx) (t : task) : task :=
  put_control
    (SendingToMain (NewTx (baked_tx tx) (tx_hash tx) (ip_addr_and_credential tx) (n + 1) (original_tx_queue_id tx)
       (result_sender tx)) c (n + 1))
    (alarm [] (put_queue c (mkQueue (delete (n + 1) (txs (queue_of c t))) (mkNonPersisted (Some n) true)) (settled c n s t))).

Lemma settle_next c n s tx t :
  at_nonce c n s t -> n + 1 <= u64_max -> txs (queue_of c t) !! (n + 1) = Some tx -> rtc forced t (sent c n s tx t).
Proof.
  intros H Hn Htx. apply (settle c n s t _ H Hn). unfold run_head_loop. simpl. rewrite queue_of_settled. simpl.
  rewrite (first_key_is _ (n + 1)).
  - simpl. rewrite Htx, N.compare_refl. unfold NonPersisted.mark_inflight, NonPersisted.user_nonce, checked_add. simpl.
    destruct (N.leb_spec (n + 1) u64_max); [|lia]. simpl. by rewrite N.eqb_refl.
  - simpl. eauto.
  - simpl. intros k Hk. pose proof (at_ahead _ _ _ _ H k Hk). lia.
Qed.

(** A new transaction with the next nonce executes at once. *)
Definition started (c : CredentialId) (n s : N) (np : NonPersistedTxs) (t : task) : task :=
  alarm [] (put_executing (executing t ++ [mkExecution c n s]) (put_queue c (mkQueue (txs (queue_of c t)) np) t)).

Lemma new_tx_executes env baked h ip n q s last fl t :
  non_persisted (queue_of (credential_id ip) t) = mkNonPersisted (Some last) fl -> last + 1 = n ->
  n + delta <= u64_max -> get_current_executor_tx_queue_id env <= q ->
  handle_new_tx_input delta env baked h ip n q s t = Some (started (credential_id ip) n s (mkNonPersisted (Some last) true) t).
Proof.
  intros Hnp <- Hn Hq. unfold handle_new_tx_input. rewrite Hnp.
  assert (NonPersisted.user_nonce (mkNonPersisted (Some last) fl) = Some (Some (last + 1))) as Hun.
  { unfold NonPersisted.user_nonce, checked_add. simpl. destruct (N.leb_spec (last + 1) u64_max); [done|lia]. }
  assert (determine_action (last + 1) (last + 1) delta = Some Execute) as Hd.
  { unfold determine_action, checked_add. destruct (N.leb_spec (last + 1 + delta) u64_max); [|lia]. simpl.
    by rewrite N.ltb_irrefl, N.eqb_refl. }
  rewrite Hun. simpl. rewrite Hd. simpl. destruct (N.ltb_spec q (get_current_executor_tx_queue_id env)); [lia|].
  unfold NonPersisted.mark_inflight. rewrite Hun. simpl. by rewrite N.eqb_refl.
Qed.

Lemma queue_of_sent c n s tx t :
  queue_of c (sent c n s tx t) = mkQueue (delete (n + 1) (txs (queue_of c t))) (mkNonPersisted (Some n) true).
Proof. unfold sent, queue_of. simpl. by rewrite lookup_insert_eq. Qed.

Lemma ahead_sent c n s tx t : at_nonce c n s t -> ahead c (n + 1) (sent c n s tx t).
Proof.
  intros H k. rewrite queue_of_sent. simpl. rewrite lookup_delete_is_Some. intros [Hne Hk].
  pose proof (at_ahead _ _ _ _ H k Hk). lia.
Qed.

(** The send to the channel completes. *)
Definition queued (c : CredentialId) (n s : N) (tx : QueuedTx) (t : task) : task :=
  put_control Selecting (put_control Selecting (put_input
    [NewTx (baked_tx tx) (tx_hash tx) (ip_addr_and_credential tx) (n + 1) (original_tx_queue_id tx) (result_sender tx)]
    (sent c n s tx t))).

Lemma send_completes c n s tx t : at_nonce c n s t -> forced (sent c n s tx t) (queued c n s tx t).
Proof.
  intros H. eapply forced_sent; [reflexivity|apply has_room_short; simpl; lia|reflexivity|].
  unfold run_head_loop. apply head_loop_ahead; [|lia]. exact (ahead_sent c n s tx t H).
Qed.

(** The next transaction executes. *)
Lemma next_executes c n s tx t :
  at_nonce c n s t -> n + 1 + delta <= u64_max -> txs (queue_of c t) !! (n + 1) = Some tx ->
  credential_id (ip_addr_and_credential tx) = c -> executor_id <= original_tx_queue_id tx ->
  exists t', rtc forced t t' /\ at_nonce c (n + 1) (result_sender tx) t'
    /\ replies t' = replies t ++ [(s, Accepted)]
    /\ (forall k, n + 1 < k -> txs (queue_of c t') !! k = txs (queue_of c t) !! k).
Proof.
  intros H Hn Htx <- Hq. set (c := credential_id (ip_addr_and_credential tx)) in *. set (t2 := put_input [] (queued c n s tx t)).
  assert (queue_of c t2 = mkQueue (delete (n + 1) (txs (queue_of c t))) (mkNonPersisted (Some n) true)) as Hq2
    by exact (queue_of_sent c n s tx t).
  exists (started c (n + 1) (result_sender tx) (mkNonPersisted (Some n) true) t2).
  assert (txs (queue_of c (started c (n + 1) (result_sender tx) (mkNonPersisted (Some n) true) t2))
          = delete (n + 1) (txs (queue_of c t))) as Hq3.
  { unfold started. change (queue_of c (alarm _ (put_executing _ ?t))) with (queue_of c t). by rewrite queue_of_put, Hq2. }
  split_and!; [|split|..].
  - etrans; [apply (settle_next c n s tx t H); [lia|done]|]. eapply rtc_l; [exact (send_completes c n s tx t H)|].
    eapply rtc_l; [|apply rtc_refl]. eapply forced_input; [reflexivity|reflexivity|reflexivity|]. intros env Henv.
    cbn [handle_input]. eapply new_tx_executes; [exact (f_equal non_persisted Hq2)|done|done|by rewrite Henv].
  - done.
  - done.
  - done.
  - intros m. unfold started. change (queue_of c (alarm _ (put_executing _ ?t))) with (queue_of c t).
    rewrite queue_of_put. simpl. by intros [= <-].
  - intros k. rewrite Hq3. intros Hk. apply (ahead_sent c n s tx t H). by rewrite queue_of_sent.
  - done.
  - intros k Hk. rewrite Hq3. apply lookup_delete_ne. lia.
Qed.

Lemma chain_drains c l n s t :
  at_nonce c n s t -> chain c n l t -> txs (queue_of c t) !! (n + 1 + len l) = None ->
  n + 1 + len l + delta <= u64_max ->
  Forall (fun tx => credential_id (ip_addr_and_credential tx) = c
                    /\ executor_id <= original_tx_queue_id tx) l ->
  exists t', rtc forced t t' /\ replies t' = replies t ++ ((fun s => (s, Accepted)) <$> s :: (result_sender <$> l))
    /\ executing t' = [] /\ control t' = Selecting /\ buffer_input t' = []
    /\ last_successfully_executed (non_persisted (queue_of c t')) = Some (n + len l).
Proof.
  revert n s t. induction l as [|tx l IH]; intros n s t H Hch Hend Hn Hall.
  - exists (put_control Selecting (settled c n s t)). unfold len in *. simpl in *. rewrite N.add_0_r in *.
    split_and!; try done; [by apply settle_last; [|lia|]|].
    change (queue_of c (put_control Selecting ?t)) with (queue_of c t). rewrite queue_of_settled. done.
  - apply Forall_cons in Hall as [[Hcr Hq] Hall]. assert (len (tx :: l) = 1 + len l) as Hlen by (unfold len; simpl; lia).
    destruct (next_executes c n s tx t H) as (t1 & R1 & H1 & Hr1 & Hk1); [lia| |done|done|].
    { specialize (Hch 0%nat tx eq_refl). by rewrite N.add_0_r in Hch. }
    destruct (IH (n + 1) (result_sender tx) t1 H1) as (t2 & R2 & Hr2 & He2 & Hc2 & Hi2 & Hl2); [| |lia|done|].
    + intros i tx' Hi. rewrite Hk1 by lia. specialize (Hch (S i) tx' Hi).
      by replace (n + 1 + N.of_nat (S i)) with (n + 1 + 1 + N.of_nat i) in Hch by lia.
    + rewrite Hk1 by lia. by replace (n + 1 + 1 + len l) with (n + 1 + len (tx :: l)) by lia.
    + exists t2. split_and!; [by etrans|by rewrite Hr2, Hr1, <- app_assoc|done..|]. rewrite Hl2. f_equal. lia.
Qed.

(** An idle task has no calm step. *)
Lemma idle_ends t : control t = Selecting -> buffer_input t = [] -> executing t = [] -> forall t', ~ calm t t'.
Proof.
  intros Hc Hi He t' [env i l t2 _ _ Hi' _|i c un t2 Hc' _ _|e l1 l2 _ He' _]; [congruence..|].
  rewrite He in He'. by destruct l1.
Qed.
End Draining.
End Draining.

(** ** Waiting on its own channel *)
Module SelfSend.
Section SelfSend.
Context (delta dur : N).

Definition any_step (t t' : task) : Prop := exists e, step delta dur t e t'.

(** The main task waits to send to its channel, and the channel is full. *)
Definition stuck (i : NonceBufferInput) (c : CredentialId) (un : N) (t : task) : Prop :=
  control t = SendingToMain i c un /\ len (buffer_input t) = MAX_BUFFER_INPUT_QUEUE.

Definition unmoved (t t' : task) : Prop :=
  control t' = control t /\ buffer_input t' = buffer_input t /\ replies t' = replies t.

Lemma stuck_step i c un t t' : stuck i c un t -> any_step t t' -> t' = cancel t \/ unmoved t t'.
Proof.
  intros [Hc Hr] [e S]. assert (has_room t = false) by (unfold has_room; rewrite Hr; by apply N.ltb_irrefl).
  destruct S; try congruence; [right|by left]. by split_and!.
Qed.

Lemma stopped_step t t' : control t = Stopped -> any_step t t' -> control t' = Stopped.
Proof. intros Hc [e S]. destruct S; try congruence; done. Qed.

Lemma stuck_forever i c un t t' : rtc any_step t t' -> stuck i c un t -> control t' = Stopped \/ unmoved t t'.
Proof.
  intros R Hs. revert t' R. apply (rtc_ind_r (fun t' => control t' = Stopped \/ unmoved t t')); [by right|].
  intros t1 t2 _ S [Hst|(Hc & Hi & Hr)].
  - left. by eapply stopped_step.
  - destruct (stuck_step i c un t1 t2) as [->|(E1 & E2 & E3)]; [|done|by left|right; unfold unmoved; by rewrite E1, E2, E3].
    destruct Hs as [Hs1 Hs2]. split; congruence.
Qed.

(** The request in the hands of the main task has no reply. *)
Lemma held_unanswered issued i c un s t :
  reachable delta dur issued t -> control t = SendingToMain i c un -> input_senders i = [s] -> s ∉ (fst <$> replies t).
Proof.
  intros R Hc Hi Hin.
  assert (NoDup (located t)) as Hnd.
  { rewrite <- (NonceBufferFacts.located_perm _ _ _ _ R). by eapply NonceBufferFacts.issued_unique. }
  unfold located in Hnd. rewrite Hc in Hnd. simpl in Hnd. rewrite Hi in Hnd.
  do 2 apply NoDup_app in Hnd as (_ & _ & Hnd). apply NoDup_cons in Hnd as [Hnd _]. apply Hnd.
  apply elem_of_app. right. apply elem_of_app. by left.
Qed.

(** Requests fill the channel while the main task waits. *)
Definition fresh (l : list N) : N := 1 + fold_right N.max 0 l.

Lemma fresh_not_in l : fresh l ∉ l.
Proof.
  assert (forall x, x ∈ l -> x <= fold_right N.max 0 l) as H.
  { induction l as [|y l IH]; intros x Hx; [by apply elem_of_nil in Hx|]. simpl.
    apply elem_of_cons in Hx as [->|Hx]; [lia|]. specialize (IH x Hx). lia. }
  intros Hf. apply H in Hf. unfold fresh in Hf. lia.
Qed.

Lemma fills (k : nat) issued t i c un :
  reachable delta dur issued t -> control t = SendingToMain i c un ->
  (length (buffer_input t) + k = N.to_nat MAX_BUFFER_INPUT_QUEUE)%nat ->
  exists issued' t', reachable delta dur issued' t' /\ stuck i c un t' /\ issued ⊆ issued'.
Proof.
  revert issued t. induction k as [|k IH]; intros issued t R Hc Hk.
  - exists issued, t. split_and!; [done| |done]. split; [done|]. unfold len. lia.
  - destruct (IH (issued ++ [fresh issued])
      (put_input (buffer_input t ++ [NewTx [] [] (mkIp [] [] []) 0 0 (fresh issued)]) t)) as (issued' & t' & R' & Hs & Hin); [|done| |].
    + eapply reachable_request; [done|apply fresh_not_in|]. apply step_request; [by rewrite Hc|].
      unfold has_room, len. apply N.ltb_lt. lia.
    + simpl. rewrite length_app. simpl. lia.
    + exists issued', t'. split_and!; [done|done|]. intros x Hx. apply Hin, elem_of_app. by left.
Qed.

(** One user: nonce 0 executes, nonce 1 waits, the result of nonce 0 arrives. *)
Definition demo_env : Env := mkEnv (fun _ => 0) 0 0.
Definition demo_new (n s : N) : NonceBufferInput := NewTx [n] [n] (mkIp [] [] []) n 0 s.

Definition waiting : task :=
  mkTask {[ [] := mkQueue ∅ (mkNonPersisted (Some 0) true) ]} [] [mkTimeoutRequest [] 1 [1] 0] None []
    (SendingToMain (demo_new 1 1) [] 1) [(0, Accepted)] [] [].

Ltac queue_is q :=
  match goal with |- context [queue_of ?c ?t] => replace (queue_of c t) with q by (vm_compute; reflexivity) end.

Lemma waiting_reachable : 1 <= delta -> 1 + delta <= u64_max -> reachable delta dur [0; 1] waiting.
Proof.
  intros Hd1 Hd2.
  assert (forall tx, determine_action tx 0 delta = Some (if (0 <? tx) && (tx <=? 0 + delta) then Enqueue
                                                        else if tx =? 0 then Execute else Reject)) as Hact.
  { intros tx. unfold determine_action, checked_add. destruct (N.leb_spec (0 + delta) u64_max); [done|lia]. }
  assert (has_room init = true) as Hroom by done.
  eapply reachable_internal; [eapply reachable_internal; [eapply reachable_internal; [eapply reachable_internal;
    [eapply (reachable_request _ _ [0]); [eapply reachable_internal; [eapply (reachable_request _ _ [] _ 0 _ (reachable_init _ _))|]|..]|]|]|]|].
  - set_solver.
  - apply (step_request delta dur init [0] [0] (mkIp [] [] []) 0 0 0); done.
  - apply (step_input delta dur _ demo_env (demo_new 0 0) []); [done|done|]. simpl. unfold handle_new_tx_input.
    queue_is AddressQueue.empty. simpl. rewrite Hact. simpl. reflexivity.
  - set_solver.
  - eapply (step_request delta dur _ [1] [1] (mkIp [] [] []) 1 0 1); done.
  - apply (step_input delta dur _ demo_env (demo_new 1 1) []); [done|done|]. simpl. unfold handle_new_tx_input.
    queue_is (mkQueue ∅ (mkNonPersisted None true)). simpl. rewrite Hact. destruct (N.leb_spec 1 (0 + delta)); [|lia]. simpl. reflexivity.
  - eapply step_timeout_sent; [done|done].
  - eapply (step_executed delta dur _ (mkExecution [] 0 0) [] [] Accepted); done.
  - eapply (step_input delta dur _ demo_env (TxExecuted [] 0 Accepted 0) []); [done|done|]. vm_compute. reflexivity.
Qed.
End SelfSend.
End SelfSend.

Module NonceBufferClaims.
Import NonceBufferFacts Draining SelfSend.

(** C11: no request is lost and none is answered twice. In every interleaving of the
    main task, the timeout task, the executions, wipes, shutdown and cancellation, the
    requests made are, each exactly once, those whose sender is in the channel, in a
    queue, in the hands of the main task, with a running execution, used for a reply, or
    dropped. Once the task has stopped and nothing executes, each request has its reply or
    a dropped sender, which [handle_new_tx] turns into an error. *)
Theorem requests_conserved delta dur issued t :
  reachable delta dur issued t ->
  issued ≡ₚ located t /\ NoDup (located t)
  /\ (control t = Stopped -> executing t = [] -> forall s, s ∈ issued -> s ∈ (fst <$> replies t) \/ s ∈ dropped t).
Proof.
  intros R. pose proof (located_perm _ _ _ _ R) as P. split_and!; [done| |].
  - rewrite <- P. by eapply issued_unique.
  - intros Hc He s Hs. destruct (stopped_empty _ _ _ _ R Hc) as [Hb Hi]. rewrite P in Hs. revert Hs.
    unfold located, waiting_senders. rewrite Hb, Hi, Hc, He, map_to_list_empty. simpl. rewrite elem_of_app. done.
Qed.

Lemma requests_conserved_witness : [0; 1] ≡ₚ located waiting /\ NoDup (located waiting).
Proof.
  destruct (requests_conserved 10 30 [0; 1] waiting) as (H1 & H2 & _); [|done].
  apply waiting_reachable; vm_compute; discriminate.
Defined.

(** The error "attempted to execute nonce that does not match tracked next nonce"
    is never raised: whatever the state and the executor answer, a transaction is marked
    in flight only with the nonce the task tracks as the next one. *)
Theorem inflight_nonce_tracked delta dur issued t : reachable delta dur issued t -> InflightMismatch ∉ alarms t.
Proof. intros R. apply (quiet_reachable _ _ _ _ R). Qed.

Lemma inflight_nonce_tracked_witness : InflightMismatch ∉ alarms waiting.
Proof.
  apply (inflight_nonce_tracked 10 30 [0; 1]). apply waiting_reachable; vm_compute; discriminate.
Defined.

(** C29: a contiguous queue drains in order. The task is idle, the transaction with nonce
    [n] executes and the transactions [l] wait with the nonces after it, sent since the
    executor was last restarted. In a time in which the executor accepts what it gets and
    nothing else arrives ([calm]), every run leads to the same state and ends there: all of
    them were executed one by one and answered in the order of their nonces, the task is
    idle again and tracks the last nonce. *)
Theorem contiguous_queue_drains delta executor_id c n s l t :
  at_nonce c n s t -> chain c n l t -> txs (queue_of c t) !! (n + 1 + len l) = None ->
  n + 1 + len l + delta <= u64_max ->
  Forall (fun tx => credential_id (ip_addr_and_credential tx) = c /\ executor_id <= original_tx_queue_id tx) l ->
  exists final, rtc (calm delta executor_id) t final
    /\ (forall t', rtc (calm delta executor_id) t t' -> rtc (calm delta executor_id) t' final)
    /\ (forall t', ~ calm delta executor_id final t')
    /\ replies final = replies t ++ ((fun s => (s, Accepted)) <$> s :: (result_sender <$> l))
    /\ executing final = [] /\ control final = Selecting /\ buffer_input final = []
    /\ last_successfully_executed (non_persisted (queue_of c final)) = Some (n + len l).
Proof.
  intros H Hch Hend Hn Hall.
  destruct (chain_drains delta executor_id c l n s t H Hch Hend Hn Hall) as (t' & R & Hr & He & Hc & Hi & Hl).
  pose proof (idle_ends delta executor_id t' Hc Hi He) as Hstop.
  destruct (forced_runs delta executor_id t t' R) as [R1 R2]. exists t'. split_and!; try done. by apply R2.
Qed.

Definition demo_tx (n s : N) : QueuedTx := mkQueuedTx [n] [n] (mkIp [] [] []) 0 0 0 s.
Definition demo_queue : gmap N QueuedTx := {[ 1 := demo_tx 1 1; 2 := demo_tx 2 2 ]}.
Definition demo_task : task :=
  mkTask {[ [] := mkQueue demo_queue (mkNonPersisted None true) ]} [] [] None [mkExecution [] 0 0] Selecting [] [] [].

Lemma demo_queue_ahead : ahead [] 0 demo_task.
Proof.
  intros k [tx H]. change (demo_queue !! k = Some tx) in H. unfold demo_queue in H.
  apply lookup_insert_Some in H as [[<- _]|[_ H]]; [lia|]. apply lookup_singleton_Some in H as [<- _]. lia.
Qed.

Lemma contiguous_queue_drains_witness :
  exists t', rtc (calm 10 0) demo_task t' /\ replies t' = [(0, Accepted); (1, Accepted); (2, Accepted)].
Proof.
  destruct (contiguous_queue_drains 10 0 [] 0 0 [demo_tx 1 1; demo_tx 2 2] demo_task) as (t' & R & _ & _ & Hr & _).
  - split; [done|done|done|done|apply demo_queue_ahead].
  - intros [|[|i]] tx H; [| |done]; injection H as <-; vm_compute; reflexivity.
  - vm_compute. reflexivity.
  - vm_compute. discriminate.
  - repeat constructor; vm_compute; discriminate.
  - exists t'. by rewrite Hr.
Defined.

(** C40: the main task can wait forever on itself. It sends the next transaction of a
    queue to the bounded channel that only it receives from. A state is reachable in
    which it waits to send the transaction of some request [s] and the channel is full.
    In every run from there, until the task is cancelled, it still waits to send that
    transaction, the channel holds the same messages, and [s] has no reply. *)
Theorem nonce_buffer_deadlocks delta dur :
  1 <= delta -> 1 + delta <= u64_max ->
  exists issued t i c un s, reachable delta dur issued t
    /\ control t = SendingToMain i c un /\ input_senders i = [s] /\ s ∈ issued
    /\ len (buffer_input t) = MAX_BUFFER_INPUT_QUEUE
    /\ forall t', rtc (any_step delta dur) t t' ->
         control t' = Stopped \/
         (control t' = SendingToMain i c un /\ buffer_input t' = buffer_input t /\ s ∉ (fst <$> replies t')).
Proof.
  intros Hd1 Hd2.
  destruct (fills delta dur (N.to_nat MAX_BUFFER_INPUT_QUEUE) [0; 1] waiting (demo_new 1 1) [] 1) as (issued & t & R & Hs & Hin);
    [by apply waiting_reachable|done|done|].
  exists issued, t, (demo_new 1 1), [], 1, 1. destruct (Hs) as [Hc Hl]. split_and!; [done|done|done|apply Hin; set_solver|done|].
  intros t' Rt. destruct (stuck_forever delta dur _ _ _ _ _ Rt Hs) as [|(E1 & E2 & E3)]; [by left|right].
  rewrite E1, E2, E3. split_and!; [done|done|]. by eapply held_unanswered.
Qed.

Lemma nonce_buffer_deadlocks_witness : exists issued t i c un, reachable 10 30 issued t /\ control t = SendingToMain i c un.
Proof.
  destruct (nonce_buffer_deadlocks 10 30) as (issued & t & i & c & un & s & R & Hc & _); [vm_compute; discriminate..|].
  by exists issued, t, i, c, un.
Defined.

(** Users are never cleaned up. The message that a transaction was persisted
    carries the nonce of the transaction; as long as that is not beyond the last nonce that
    executed, the handler leaves the state as it is, although the queue is empty and all its
    nonces are persisted: it compares with the nonce after the last one. *)
Theorem persisted_user_kept c q last tx_nonce t t' :
  buffers t !! c = Some q -> last_successfully_executed (non_persisted q) = Some last -> tx_nonce <= last ->
  handle_tx_persisted c tx_nonce t = Some t' -> t' = t.
Proof.
  intros Hb Hl Hn. unfold handle_tx_persisted. rewrite Hb. case_bool_decide; [|by intros [= <-]].
  unfold NonPersisted.user_nonce_to_use_as_prerequisite_start, NonPersisted.user_nonce. rewrite Hl. unfold checked_add.
  destruct (last + 1 <=? u64_max); [|by destruct (has_in_flight _)]. simpl.
  destruct (has_in_flight _); simpl.
  - destruct (last + 1 + 1 <=? u64_max); [|done]. simpl. destruct (N.leb_spec (last + 1 + 1) tx_nonce); [lia|]. by intros [= <-].
  - destruct (N.leb_spec (last + 1) tx_nonce); [lia|]. by intros [= <-].
Qed.

Definition idle_task : task := mkTask {[ [] := mkQueue ∅ (mkNonPersisted (Some 0) false) ]} [] [] None [] Selecting [] [] [].

Lemma persisted_user_kept_witness : handle_tx_persisted [] 0 idle_task = Some idle_task.
Proof.
  destruct (handle_tx_persisted [] 0 idle_task) as [t'|] eqn:E; [|vm_compute in E; discriminate].
  f_equal. by apply (persisted_user_kept [] (mkQueue ∅ (mkNonPersisted (Some 0) false)) 0 0 idle_task t').
Defined.
End NonceBufferClaims.
