(* ===== verification/SovRateLimiter.v ===== *)
(** * The rate limiter of the preferred sequencer

    full-node/sov-sequencer/src/preferred/rate_limiter: a token bucket for each address
    and for each IP address.  A request is admitted while what its key used, less what
    was refilled since, is below the limit; what it used is known, and added, only after
    it was executed.

    An [Instant] is a number of nanoseconds.  The cache of the crate mini-moka is a
    parameter with its documented behaviour: an entry expires a fixed time after it was
    inserted, the number of entries is an estimate, and a cache is not built for a time
    to live of more than 1000 years.  It reads its own clock: [clock] and [at_time] are
    what that clock shows at a lookup and at an insertion.  Metrics and messages are
    left out. *)

From Stdlib Require Import NArith Lia.
From stdpp Require Import base numbers gmap option list.
From S2P Require Import Prelude Ints Gas.

(** ** mini_moka::sync::Cache *)
Class Cache (K V : Type) : Type := {
  cache : Type;
  cache_build : N -> option cache;
  cache_get : cache -> N -> K -> option V;
  cache_insert : cache -> N -> K -> V -> cache;
  cache_entry_count : cache -> N;
  cache_sync : cache -> cache
}.
Arguments cache K V {_}.

(** A lookup gives the value inserted last, until its time to live is over. *)
Class CacheLaws {K V : Type} `{EqDecision K} (C : Cache K V) : Type := {
  cache_ttl : cache K V -> N;
  cache_build_some ttl : ttl <= 1000 * 365 * 86400 * 1000000000 -> is_Some (cache_build ttl);
  cache_get_build ttl c now k : cache_build ttl = Some c -> cache_get c now k = None;
  cache_ttl_build ttl c : cache_build ttl = Some c -> cache_ttl c = ttl;
  cache_get_insert c t k v now k' :
    cache_get (cache_insert c t k v) now k' =
      if decide (k' = k) then (if now <? t + cache_ttl c then Some v else None) else cache_get c now k';
  cache_ttl_insert c t k v : cache_ttl (cache_insert c t k v) = cache_ttl c;
  cache_get_sync c now k : cache_get (cache_sync c) now k = cache_get c now k;
  cache_ttl_sync c : cache_ttl (cache_sync c) = cache_ttl c
}.

Module SovRateLimiter.
(** ** resource.rs *)
Record Resource : Type := mkResource {
  req_counter : N;
  space_in_bytes : N;
  execution_time_micros : N;
  gas_used : list N
}.

Inductive LimitExceeded : Type :=
| RequestCount (total_accumulated max_allowed : N)
| Space (total_accumulated max_allowed : N)
| ExecutionTime (total_accumulated max_allowed : N)
| GasExceeded (total_accumulated max_allowed : list N)
| TooManyConcurrentUsers (nb_of_users max_allowed : N).

Module Resource.
Section Resource.
Context (dims : nat).

Definition zero : Resource := mkResource 0 0 0 (replicate dims 0).
Definition max : Resource := mkResource u64_max u64_max u64_max (replicate dims u64_max).

Definition saturating_sub (self tokens : Resource) : Resource :=
  mkResource (Ints.saturating_sub (req_counter self) (req_counter tokens))
    (Ints.saturating_sub (space_in_bytes self) (space_in_bytes tokens))
    (Ints.saturating_sub (execution_time_micros self) (execution_time_micros tokens))
    (match GasArray.checked_sub (gas_used self) (gas_used tokens) with Some gas => gas | None => replicate dims 0 end).

Definition checked_add (self other : Resource) : option Resource :=
  let? r := Ints.checked_add u64_max (req_counter self) (req_counter other) in
  let? s := Ints.checked_add u64_max (space_in_bytes self) (space_in_bytes other) in
  let? e := Ints.checked_add u64_max (execution_time_micros self) (execution_time_micros other) in
  let? g := GasArray.checked_combine u64_max (gas_used self) (gas_used other) in
  Some (mkResource r s e g).

Definition saturating_mul_by_scalar (self : Resource) (scalar : N) : Resource :=
  mkResource (Ints.saturating_mul u64_max (req_counter self) scalar)
    (Ints.saturating_mul u64_max (space_in_bytes self) scalar)
    (Ints.saturating_mul u64_max (execution_time_micros self) scalar)
    (default (replicate dims u64_max) (GasArray.checked_scalar_product u64_max (gas_used self) scalar)).

(** Division by zero panics. *)
Definition div_by_scalar (self : Resource) (scalar : N) : option Resource :=
  let gas_used := GasArray.scalar_division (gas_used self) scalar in
  let? r := Ints.checked_div (req_counter self) scalar in
  let? s := Ints.checked_div (space_in_bytes self) scalar in
  let? e := Ints.checked_div (execution_time_micros self) scalar in
  Some (mkResource r s e gas_used).

Definition err_if_exceeding (self other : Resource) : unit + LimitExceeded :=
  if req_counter other <=? req_counter self then inr (RequestCount (req_counter self) (req_counter other))
  else if space_in_bytes other <=? space_in_bytes self then inr (Space (space_in_bytes self) (space_in_bytes other))
  else if execution_time_micros other <=? execution_time_micros self then
    inr (ExecutionTime (execution_time_micros self) (execution_time_micros other))
  else inl tt.
End Resource.
End Resource.

(** ** limiter.rs *)

(** The wrappers [TotalResources], [ResourceUsed] and [RefillRatePerMillis] of a
    [Resource] are left out. *)
Record RateLimiterConfig : Type := mkConfig { max_allowed_resources : Resource; refill_rate : Resource }.

Record Throttler : Type := mkThrottler { total_resource_used : Resource; last_refill : N }.

Definition NANOS_PER_MILLI : N := 1000000.

(** [now.duration_since(earlier).as_millis()], which saturates at zero. *)
Definition millis_since (now earlier : N) : N := (now - earlier) / NANOS_PER_MILLI.

Module Throttler.
Section Throttler.
Context (dims : nat).

(** [None] is the panic for a time that does not fit into 64 bits. *)
Definition allow_request_and_refill_resource_used (self : Throttler) (now : N) (config : RateLimiterConfig)
  : option (Throttler + LimitExceeded) :=
  let since_last_refill := millis_since now (last_refill self) in
  if u64_max <? since_last_refill then None
  else
    let how_much_to_fill := Resource.saturating_mul_by_scalar dims (refill_rate config) since_last_refill in
    let after_refill := Resource.saturating_sub dims (total_resource_used self) how_much_to_fill in
    Some match Resource.err_if_exceeding after_refill (max_allowed_resources config) with
         | inr e => inr e
         | inl _ => inl (mkThrottler after_refill now)
         end.

Definition throttle (self : Throttler) (resource_used : Resource) : Throttler :=
  mkThrottler
    (match Resource.checked_add (total_resource_used self) resource_used with
     | Some used => used
     | None => Resource.max dims
     end) (last_refill self).
End Throttler.
End Throttler.

Module RateLimiter.
Section RateLimiter.
Context {K : Type} `{Countable K} {C : Cache K Throttler} (dims : nat).

Record t : Type := mk {
  max_nb_of_concurrent_users : N;
  data : cache K Throttler;
  default_config : RateLimiterConfig;
  special_configs : gmap K RateLimiterConfig
}.

Definition new (max_nb ttl_in_millis : N) (config : RateLimiterConfig) (special : gmap K RateLimiterConfig) : option t :=
  let? data := cache_build (ttl_in_millis * NANOS_PER_MILLI) in
  Some (mk max_nb data config special).

Definition put_data (d : cache K Throttler) (self : t) : t :=
  mk (max_nb_of_concurrent_users self) d (default_config self) (special_configs self).

Definition get_config (self : t) (k : K) : RateLimiterConfig := default (default_config self) (special_configs self !! k).

Definition allow_key (now clock : N) (key : K) (self : t) : option (Throttler + LimitExceeded) :=
  let throttler := default (mkThrottler (Resource.zero dims) now) (cache_get (data self) clock key) in
  Throttler.allow_request_and_refill_resource_used dims throttler now (get_config self key).

Definition allow (now clock : N) (key : K) (self : t) : option ((Throttler + LimitExceeded) * t) :=
  let max := max_nb_of_concurrent_users self in
  if max <=? cache_entry_count (data self) then
    let self := put_data (cache_sync (data self)) self in
    let entry_count := cache_entry_count (data self) in
    if max <=? entry_count then Some (inr (TooManyConcurrentUsers entry_count max), self)
    else let? r := allow_key now clock key self in Some (r, self)
  else let? r := allow_key now clock key self in Some (r, self).

(** [at_time] is the time of the insertion. *)
Definition update (at_time : N) (key : K) (throttler : Throttler) (resource_used : Resource) (self : t) : Throttler * t :=
  let throttler := Throttler.throttle dims throttler resource_used in
  (throttler, put_data (cache_insert (data self) at_time key throttler) self).
End RateLimiter.
Arguments t K {_ _ _} : rename.
End RateLimiter.

(** ** mod.rs *)
Record Limits : Type := mkLimits { resources_per_bucket : N; limits_refill_rate : N }.

Definition COMFORTABLE_GAS_LIMIT_MULTIPLIER : N := 19.
Definition COMFORTABLE_GAS_LIMIT_DIVISOR : N := 20.
Definition TTL_MULTIPLIER : N := 5.

Definition comfortable_gas_limit (initial_gas_limit : list N) : option (list N) :=
  GasArray.checked_scalar_product u64_max (GasArray.scalar_division initial_gas_limit COMFORTABLE_GAS_LIMIT_DIVISOR)
    COMFORTABLE_GAS_LIMIT_MULTIPLIER.

Section Limiter.
Context (initial_gas_limit : list N).
Local Notation dims := (length initial_gas_limit).

(** [None] is a panic. *)
Definition calculate_limits (limits : Limits) (max_requests_per_second batch_execution_time_limit_millis max_batch_size_bytes : N)
  : option RateLimiterConfig :=
  let? max_gas := comfortable_gas_limit initial_gas_limit in
  let? req := Ints.checked_mul u64_max max_requests_per_second batch_execution_time_limit_millis in
  let? micros := Ints.checked_mul u64_max batch_execution_time_limit_millis 1000 in
  let max_resources_per_batch := mkResource req max_batch_size_bytes micros max_gas in
  let? max_per_key :=
    Resource.div_by_scalar (Resource.saturating_mul_by_scalar dims max_resources_per_batch (resources_per_bucket limits)) 1000 in
  let? refill_rate :=
    Resource.div_by_scalar (Resource.saturating_mul_by_scalar dims max_per_key (limits_refill_rate limits))
      batch_execution_time_limit_millis in
  Some (mkConfig max_per_key refill_rate).

Definition to_limiter_config_map {K} `{Countable K} (max_requests_per_second batch_execution_time_limit_millis max_batch_size_bytes : N)
    (v : list (K * Limits)) : option (gmap K RateLimiterConfig) :=
  foldl (fun m p =>
    let? m := m in
    let? c := calculate_limits (snd p) max_requests_per_second batch_execution_time_limit_millis max_batch_size_bytes in
    Some (<[fst p := c]> m)) (Some ∅) v.

Context {Address IpAddr : Type} `{Countable Address} `{Countable IpAddr}.
Context {CA : Cache Address Throttler} {CI : Cache IpAddr Throttler}.

Record SovRateLimiterConfig : Type := mkSovConfig {
  max_nb_of_concurrent_users_in_rate_limiter : N;
  max_requests_per_second : N;
  default_limits : Limits;
  address_custom_limits : list (Address * Limits);
  ip_custom_limits : list (IpAddr * Limits)
}.

(** The order of the arguments is that of the source. *)
Definition limits (sov_config : SovRateLimiterConfig) (batch_execution_time_limit_millis max_batch_size_bytes : N)
  : option (RateLimiterConfig * gmap Address RateLimiterConfig * gmap IpAddr RateLimiterConfig) :=
  let? default_config :=
    calculate_limits (default_limits sov_config) (max_requests_per_second sov_config) batch_execution_time_limit_millis
      max_batch_size_bytes in
  let? addrs :=
    to_limiter_config_map batch_execution_time_limit_millis (max_requests_per_second sov_config) max_batch_size_bytes
      (address_custom_limits sov_config) in
  let? ips :=
    to_limiter_config_map batch_execution_time_limit_millis (max_requests_per_second sov_config) max_batch_size_bytes
      (ip_custom_limits sov_config) in
  Some (default_config, addrs, ips).

Record LimiterToken : Type := mkToken {
  address : Address;
  throttler_for_addr : Throttler;
  ip : IpAddr;
  throttler_for_ip : Throttler
}.

Inductive ResourceLimitExceededError : Type :=
| AddressExceeded (a : Address) (reason : LimitExceeded)
| IpExceeded (i : IpAddr) (reason : LimitExceeded).

Record SovRateLimiterInner : Type := mkInner {
  by_addr_rate_limiter : RateLimiter.t Address;
  by_ip_rate_limiter : RateLimiter.t IpAddr
}.

Definition inner_allow (now clock_addr clock_ip : N) (i : IpAddr) (a : Address) (self : SovRateLimiterInner)
  : option ((LimiterToken + ResourceLimitExceededError) * SovRateLimiterInner) :=
  let? (ra, by_addr) := RateLimiter.allow dims now clock_addr a (by_addr_rate_limiter self) in
  match ra with
  | inr reason => Some (inr (AddressExceeded a reason), mkInner by_addr (by_ip_rate_limiter self))
  | inl throttler_for_addr =>
      let? (ri, by_ip) := RateLimiter.allow dims now clock_ip i (by_ip_rate_limiter self) in
      Some (match ri with
            | inr reason => inr (IpExceeded i reason)
            | inl throttler_for_ip => inl (mkToken a throttler_for_addr i throttler_for_ip)
            end, mkInner by_addr by_ip)
  end.

Definition inner_update (at_time : N) (token : LimiterToken) (resource_used : Resource) (self : SovRateLimiterInner) : SovRateLimiterInner :=
  let '(_, by_addr) :=
    RateLimiter.update dims at_time (address token) (throttler_for_addr token) resource_used (by_addr_rate_limiter self) in
  let '(_, by_ip) := RateLimiter.update dims at_time (ip token) (throttler_for_ip token) resource_used (by_ip_rate_limiter self) in
  mkInner by_addr by_ip.

(** [SovRateLimiter]: [None] inside is a limiter that is off. *)
Definition new (config : option SovRateLimiterConfig) (batch_execution_time_limit_millis max_batch_size_bytes : N)
  : option (option SovRateLimiterInner) :=
  if batch_execution_time_limit_millis =? 0 then None
  else if max_batch_size_bytes =? 0 then None
  else
    match config with
    | None => Some None
    | Some sov_config =>
        let ttl_in_millis := wrap u64_max (batch_execution_time_limit_millis * TTL_MULTIPLIER) in
        let max_nb := max_nb_of_concurrent_users_in_rate_limiter sov_config in
        let? (config, addrs, ips) := limits sov_config batch_execution_time_limit_millis max_batch_size_bytes in
        let? by_addr := RateLimiter.new max_nb ttl_in_millis config addrs in
        let? by_ip := RateLimiter.new max_nb ttl_in_millis config ips in
        Some (Some (mkInner by_addr by_ip))
    end.

Definition allow (now clock_addr clock_ip : N) (i : IpAddr) (a : Address) (self : option SovRateLimiterInner)
  : option ((option LimiterToken + ResourceLimitExceededError) * option SovRateLimiterInner) :=
  match self with
  | None => Some (inl None, None)
  | Some inner =>
      let? (r, inner) := inner_allow now clock_addr clock_ip i a inner in
      Some (match r with inl token => inl (Some token) | inr e => inr e end, Some inner)
  end.

Definition update (at_time : N) (token : option LimiterToken) (resource_used : Resource) (self : option SovRateLimiterInner)
  : option (option SovRateLimiterInner) :=
  match token with
  | None => Some self
  | Some token => let? inner := self in Some (Some (inner_update at_time token resource_used inner))
  end.

(** ** Serving a request *)

(** The environment of a request: the clocks, and what its execution used. *)
Record Request : Type := mkRequest {
  req_now : N; req_clock_addr : N; req_clock_ip : N; req_at : N;
  req_ip : IpAddr; req_address : Address; req_used : Resource
}.

(** sync_state.rs: [allow], the execution, then [update] whatever the result was; the
    sequencer does not start another request in between.  The flag tells whether the
    request was executed. *)
Definition serve (q : Request) (self : option SovRateLimiterInner) : option (bool * option SovRateLimiterInner) :=
  let? (r, self) := allow (req_now q) (req_clock_addr q) (req_clock_ip q) (req_ip q) (req_address q) self in
  match r with
  | inr _ => Some (false, self)
  | inl token => let? self := update (req_at q) token (req_used q) self in Some (true, self)
  end.
End Limiter.
End SovRateLimiter.
