(* ===== verification/SovRateLimiterProperties.v ===== *)
(** * What the rate limiter guarantees

    The requests of the sequencer run one after the other: [allow], the execution, then
    [update].  Over any such sequence what one address used is bounded by its bucket and
    by the refill; a request is admitted exactly when each tracked dimension is below its
    limit after the refill; and the limits of a custom address are computed from the two
    settings in swapped roles. *)

From Stdlib Require Import NArith Lia.
From stdpp Require Import base numbers gmap option list.
From S2P Require Import Prelude Ints Gas SovRateLimiter.
Import SovRateLimiter.

(** ** A cache with the documented behaviour *)
Module MapCache.
Record t (K V : Type) `{Countable K} : Type := mk { ttl : N; entries : gmap K (N * V) }.
Arguments mk {K V _ _} _ _.
Arguments ttl {K V _ _} _.
Arguments entries {K V _ _} _.

#[export] Instance map_cache (K V : Type) `{Countable K} : Cache K V := {|
  cache := t K V;
  cache_build d := if d <=? 1000 * 365 * 86400 * 1000000000 then Some (mk d ∅) else None;
  cache_get c now k := match entries c !! k with Some (at_time, v) => if now <? at_time + ttl c then Some v else None | None => None end;
  cache_insert c at_time k v := mk (ttl c) (<[k := (at_time, v)]> (entries c));
  cache_entry_count c := N.of_nat (size (entries c));
  cache_sync c := c
|}.

#[export] Instance map_cache_laws (K V : Type) `{Countable K} : CacheLaws (map_cache K V).
Proof.
  refine {| cache_ttl := (ttl : @cache K V (map_cache K V) -> N) |}; try done.
  - intros d Hd. cbn -[N.mul]. apply N.leb_le in Hd as ->. eauto.
  - intros d c now k. cbn -[N.mul]. destruct (_ <=? _); [|done]. intros [= <-]. cbn. by rewrite lookup_empty.
  - intros d c. cbn -[N.mul]. destruct (_ <=? _); [|done]. by intros [= <-].
  - intros c at_time k v now k'. cbn. destruct (decide (k' = k)) as [->|Hne].
    + by rewrite lookup_insert_eq.
    + by rewrite lookup_insert_ne.
Defined.
End MapCache.

(** ** The tracked dimensions of a resource *)
Inductive dimension : Type := Requests | Bytes | Micros.

Definition amount (d : dimension) (r : Resource) : N :=
  match d with Requests => req_counter r | Bytes => space_in_bytes r | Micros => execution_time_micros r end.

Section Dimensions.
Context (dims : nat).

Lemma amount_sub d a b : amount d (Resource.saturating_sub dims a b) = amount d a - amount d b.
Proof. by destruct d. Qed.

Lemma amount_mul d a n : amount d (Resource.saturating_mul_by_scalar dims a n) = N.min (amount d a * n) u64_max.
Proof. by destruct d. Qed.

Lemma err_if_exceeding_ok a b : Resource.err_if_exceeding a b = inl tt <-> forall d, amount d a < amount d b.
Proof.
  unfold Resource.err_if_exceeding. split.
  - intros He d.
    destruct (N.leb_spec (req_counter b) (req_counter a)); [done|].
    destruct (N.leb_spec (space_in_bytes b) (space_in_bytes a)); [done|].
    destruct (N.leb_spec (execution_time_micros b) (execution_time_micros a)); [done|].
    by destruct d.
  - intros Hd. pose proof (Hd Requests) as H1. pose proof (Hd Bytes) as H2. pose proof (Hd Micros) as H3. cbn in *.
    by rewrite (proj2 (N.leb_gt _ _) H1), (proj2 (N.leb_gt _ _) H2), (proj2 (N.leb_gt _ _) H3).
Qed.

(** What is recorded after a request is what it used on top, or everything on overflow. *)
Lemma amount_throttle d th used :
  amount d (total_resource_used (Throttler.throttle dims th used)) = amount d (total_resource_used th) + amount d used \/
  amount d (total_resource_used (Throttler.throttle dims th used)) = u64_max.
Proof.
  unfold Throttler.throttle. cbn [total_resource_used].
  destruct (Resource.checked_add _ _) as [r|] eqn:Hc; [left|right; by destruct d].
  unfold Resource.checked_add, Ints.checked_add in Hc.
  repeat (case_match; try discriminate). simplify_eq. by destruct d.
Qed.
End Dimensions.

Lemma millis_since_split t0 last now :
  t0 <= last -> last <= now -> millis_since last t0 + millis_since now last <= millis_since now t0.
Proof.
  intros H1 H2. unfold millis_since, NANOS_PER_MILLI.
  apply N.div_le_lower_bound; [lia|].
  pose proof (N.Div0.mul_div_le (last - t0) 1000000). pose proof (N.Div0.mul_div_le (now - last) 1000000). lia.
Qed.

Lemma millis_since_mono t0 t1 t2 : t1 <= t2 -> millis_since t1 t0 <= millis_since t2 t0.
Proof. intros. apply N.Div0.div_le_mono. lia. Qed.

(** ** One bucket *)
Section Bucket.
Context {K : Type} `{Countable K} {C : Cache K Throttler} {HC : CacheLaws C} (dims : nat).
Context (key : K) (d : dimension) (most t0 : N).

Definition limit_of (l : RateLimiter.t K) : N := amount d (max_allowed_resources (RateLimiter.get_config l key)).
Definition rate_of (l : RateLimiter.t K) : N := amount d (refill_rate (RateLimiter.get_config l key)).

(** What [key] used in total is accounted for by [starts] full buckets and the refill,
    and while its throttler is cached the free part of the last bucket is not counted. *)
Definition accounted (total starts now : N) (l : RateLimiter.t K) : Prop :=
  let full := limit_of l + most in
  total <= starts * full + rate_of l * millis_since now t0 /\
  forall clock th, cache_get (RateLimiter.data l) clock key = Some th ->
    t0 <= last_refill th <= now /\
    total + full <= starts * full + N.min (amount d (total_resource_used th)) full + rate_of l * millis_since (last_refill th) t0.

Definition same_view (l l' : RateLimiter.t K) : Prop :=
  RateLimiter.get_config l' key = RateLimiter.get_config l key /\
  forall clock, cache_get (RateLimiter.data l') clock key = cache_get (RateLimiter.data l) clock key.

Lemma accounted_view total starts now l l' : same_view l l' -> accounted total starts now l -> accounted total starts now l'.
Proof. intros [Hc Hg]. unfold accounted, limit_of, rate_of. rewrite Hc. setoid_rewrite Hg. done. Qed.

Lemma accounted_later total starts now now' l : now <= now' -> accounted total starts now l -> accounted total starts now' l.
Proof.
  intros Hn [H1 H2]. pose proof (millis_since_mono t0 now now' Hn). split; [nia|].
  intros clock th Hg. destruct (H2 _ _ Hg). split; [lia|done].
Qed.

Lemma allow_view now clock k l r l' : RateLimiter.allow dims now clock k l = Some (r, l') -> same_view l l'.
Proof.
  unfold RateLimiter.allow, same_view. intros Ha.
  repeat (case_match; try discriminate); simplify_eq; split; intros; try done; apply cache_get_sync.
Qed.

Lemma update_other at_time k th used l : k <> key -> same_view l (snd (RateLimiter.update dims at_time k th used l)).
Proof. intros Hk. split; [done|]. intros clock. cbn. rewrite cache_get_insert. by rewrite decide_False by done. Qed.

(** An admitted request found the cached throttler, or a fresh one, below the limit. *)
Lemma allow_admitted now clock l th l' :
  RateLimiter.allow dims now clock key l = Some (inl th, l') ->
  let before := default (mkThrottler (Resource.zero dims) now) (cache_get (RateLimiter.data l) clock key) in
  last_refill th = now /\
  amount d (total_resource_used th) =
    amount d (total_resource_used before) - N.min (rate_of l * millis_since now (last_refill before)) u64_max /\
  amount d (total_resource_used th) < limit_of l.
Proof.
  intros Ha.
  assert (Hk : RateLimiter.allow_key dims now clock key l = Some (inl th)).
  { unfold RateLimiter.allow in Ha. repeat (case_match; try discriminate); simplify_eq; [|done].
    unfold RateLimiter.allow_key in *. cbn in *. by rewrite cache_get_sync in *. }
  unfold RateLimiter.allow_key, Throttler.allow_request_and_refill_resource_used in Hk. cbv zeta in Hk |- *.
  destruct (_ <? _); [done|]. destruct (Resource.err_if_exceeding _ _) as [[]|] eqn:He; [|done].
  rewrite err_if_exceeding_ok in He. specialize (He d).
  simplify_eq. cbn [last_refill total_resource_used]. rewrite amount_sub, amount_mul in *. done.
Qed.

(** A served request keeps the account. *)
Lemma accounted_served total starts now0 now clock at_time used l th l' :
  accounted total starts now0 l -> t0 <= now0 -> now0 <= now -> limit_of l + most <= u64_max -> amount d used <= most ->
  RateLimiter.allow dims now clock key l = Some (inl th, l') ->
  let fresh := if cache_get (RateLimiter.data l) clock key then 0 else 1 in
  accounted (total + amount d used) (starts + fresh) now (snd (RateLimiter.update dims at_time key th used l')).
Proof.
  intros [H1 H2] Ht0 Hnow Hfit Hmost Ha fresh.
  destruct (allow_admitted _ _ _ _ _ Ha) as (Hlast & Hamt & Hlim). destruct (allow_view _ _ _ _ _ _ Ha) as [Hcfg _].
  set (full := limit_of l + most) in *.
  pose proof (millis_since_mono t0 now0 now Hnow) as Hms.
  assert (Hcore : total + amount d used + full <=
    (starts + fresh) * full + (amount d (total_resource_used th) + amount d used) + rate_of l * millis_since now t0).
  { subst fresh. destruct (cache_get (RateLimiter.data l) clock key) as [b|] eqn:Hb; cbn [default from_option id] in Hamt.
    - destruct (H2 _ _ Hb) as [[Hb0 Hb1] Hb2]. pose proof (millis_since_split t0 (last_refill b) now Hb0 ltac:(lia)) as Hsplit.
      apply (N.mul_le_mono_l _ _ (rate_of l)) in Hsplit. rewrite N.mul_add_distr_l in Hsplit.
      rewrite N.add_0_r. unfold id in Hamt. clearbody full. lia.
    - apply (N.mul_le_mono_l _ _ (rate_of l)) in Hms. rewrite N.mul_add_distr_r, N.mul_1_l. clearbody full. lia. }
  assert (Hacc : forall x, x = amount d (total_resource_used th) + amount d used \/ x = u64_max ->
    total + amount d used + full <= (starts + fresh) * full + N.min x full + rate_of l * millis_since now t0) by (intros x [-> | ->]; lia).
  pose proof (amount_throttle dims d th used) as Hthr. specialize (Hacc _ Hthr).
  set (l'' := snd (RateLimiter.update dims at_time key th used l')).
  assert (Hcfg' : RateLimiter.get_config l'' key = RateLimiter.get_config l key) by exact Hcfg.
  assert (Hl : limit_of l'' = limit_of l) by (unfold limit_of; by rewrite Hcfg').
  assert (Hr : rate_of l'' = rate_of l) by (unfold rate_of; by rewrite Hcfg').
  unfold accounted. rewrite Hl, Hr. fold full. split; [lia|].
  intros clk th' Hg. unfold l'' in Hg. cbn [RateLimiter.update snd RateLimiter.put_data RateLimiter.data] in Hg.
  rewrite cache_get_insert, decide_True in Hg by done.
  destruct (_ <? _); [|done]. injection Hg as <-. cbn [last_refill Throttler.throttle]. rewrite Hlast. split; [lia|done].
Qed.
End Bucket.

(** ** The requests of one address *)
Section Address.
Context (initial_gas_limit : list N).
Context {Address IpAddr : Type} `{Countable Address} `{Countable IpAddr}.
Context {CA : Cache Address Throttler} {CI : Cache IpAddr Throttler} {HCA : CacheLaws CA}.
Context (a : Address) (d : dimension).
Local Notation request := (Request (Address := Address) (IpAddr := IpAddr)).
Local Notation limiter := (SovRateLimiterInner (Address := Address) (IpAddr := IpAddr)).

(** What a request adds to the account of [a]: what it used, and one start when it found
    no throttler. *)
Definition charge (q : request) (served : bool) (self : limiter) : N * N :=
  if served && bool_decide (req_address q = a) then
    (amount d (req_used q), if cache_get (RateLimiter.data (by_addr_rate_limiter self)) (req_clock_addr q) a then 0 else 1)
  else (0, 0).

(** What the served requests of [a] used, and how many of them found no throttler. *)
Fixpoint usage (qs : list request) (self : limiter) : N * N :=
  match qs with
  | [] => (0, 0)
  | q :: qs =>
      match serve initial_gas_limit q (Some self) with
      | Some (served, Some self') =>
          let (used, start) := charge q served self in
          let (total, starts) := usage qs self' in (used + total, start + starts)
      | _ => (0, 0)
      end
  end.

(** The requests come in the order of their times, and those of [a] use at most [most] each. *)
Fixpoint requests_ok (most now : N) (qs : list request) : Prop :=
  match qs with
  | [] => True
  | q :: qs => now <= req_now q /\ (req_address q = a -> amount d (req_used q) <= most) /\ requests_ok most (req_now q) qs
  end.

(** The time of the last request *)
Definition end_time (now : N) (qs : list request) : N := foldl (fun _ q => req_now q) now qs.

(** What [serve] does to the limiter by address *)
Lemma serve_by_addr q (self self' : limiter) served :
  serve initial_gas_limit q (Some self) = Some (served, Some self') ->
  exists r l, RateLimiter.allow (length initial_gas_limit) (req_now q) (req_clock_addr q) (req_address q) (by_addr_rate_limiter self) = Some (r, l) /\
    if served then
      exists th, r = inl th /\
        by_addr_rate_limiter self' = snd (RateLimiter.update (length initial_gas_limit) (req_at q) (req_address q) th (req_used q) l)
    else by_addr_rate_limiter self' = l.
Proof.
  unfold serve, allow, inner_allow. intros Hs.
  destruct (RateLimiter.allow _ _ _ (req_address q) _) as [[[th|e] l]|] eqn:Ha; [| |done].
  - destruct (RateLimiter.allow _ _ _ (req_ip q) _) as [[[th'|e'] l']|] eqn:Hi; [| |done]; cbn in Hs; simplify_eq; eauto 6.
  - cbn in Hs. simplify_eq. eauto.
Qed.

Lemma end_time_later most qs : forall now, requests_ok most now qs -> now <= end_time now qs.
Proof.
  induction qs as [|q qs IH]; intros now Hok; [cbn; lia|].
  destruct Hok as (Hn & _ & Hok). specialize (IH _ Hok). unfold end_time in *. cbn [foldl]. lia.
Qed.

Lemma config_serve q (self self' : limiter) served :
  serve initial_gas_limit q (Some self) = Some (served, Some self') ->
  RateLimiter.get_config (by_addr_rate_limiter self') a = RateLimiter.get_config (by_addr_rate_limiter self) a.
Proof.
  intros Hs. destruct (serve_by_addr _ _ _ _ Hs) as (r & l & Ha & Hr).
  destruct (allow_view _ a _ _ _ _ _ _ Ha) as [Hc _]. destruct served; [destruct Hr as (th & _ & ->)|subst l]; exact Hc.
Qed.

(** Serving a request keeps the account. *)
Lemma accounted_serve most t0 total starts now q (self self' : limiter) served :
  serve initial_gas_limit q (Some self) = Some (served, Some self') ->
  accounted a d most t0 total starts now (by_addr_rate_limiter self) ->
  t0 <= now -> now <= req_now q -> (req_address q = a -> amount d (req_used q) <= most) ->
  limit_of a d (by_addr_rate_limiter self) + most <= u64_max ->
  accounted a d most t0 (total + fst (charge q served self)) (starts + snd (charge q served self)) (req_now q)
    (by_addr_rate_limiter self').
Proof.
  intros Hs Hacc Ht Hn Hmost Hfit. destruct (serve_by_addr _ _ _ _ Hs) as (r & l & Ha & Hr).
  pose proof (accounted_later a d most t0 _ _ _ _ _ Hn Hacc) as Hlater.
  pose proof (accounted_view a d most t0 _ _ _ _ _ (allow_view _ a _ _ _ _ _ _ Ha) Hlater) as Hview.
  unfold charge. destruct served; cbn [andb].
  - destruct Hr as (th & -> & ->). case_bool_decide as Heq; cbn [fst snd].
    + rewrite Heq in Ha |- *.
      exact (accounted_served _ a d most t0 _ _ _ _ _ _ _ _ _ _ Hacc Ht Hn Hfit (Hmost Heq) Ha).
    + rewrite !N.add_0_r. exact (accounted_view a d most t0 _ _ _ _ _ (update_other _ a _ _ _ _ _ Heq) Hview).
  - subst l. cbn [fst snd]. by rewrite !N.add_0_r.
Qed.

Lemma usage_accounted most t0 qs : forall now total starts (self : limiter),
  t0 <= now -> requests_ok most now qs ->
  accounted a d most t0 total starts now (by_addr_rate_limiter self) ->
  limit_of a d (by_addr_rate_limiter self) + most <= u64_max ->
  total + fst (usage qs self) <=
    (starts + snd (usage qs self)) * (limit_of a d (by_addr_rate_limiter self) + most) +
      rate_of a d (by_addr_rate_limiter self) * millis_since (end_time now qs) t0.
Proof.
  induction qs as [|q qs IH]; intros now total starts self Ht Hok Hacc Hfit.
  { cbn [usage fst snd end_time foldl]. rewrite !N.add_0_r. apply Hacc. }
  pose proof (end_time_later _ _ _ Hok) as Hend.
  pose proof (accounted_later a d most t0 _ _ _ _ _ Hend Hacc) as [Hstop _].
  destruct Hok as (Hn & Hmost & Hok).
  cbn [usage]. destruct (serve _ q (Some self)) as [[served [self'|]]|] eqn:Hs; cbn [fst snd]; rewrite ?N.add_0_r; [|done..].
  pose proof (accounted_serve _ _ _ _ _ _ _ _ _ Hs Hacc Ht Hn Hmost Hfit) as Hnew.
  pose proof (config_serve _ _ _ _ Hs) as Hcfg.
  specialize (IH (req_now q) _ _ self' ltac:(lia) Hok Hnew). unfold limit_of, rate_of in *. rewrite Hcfg in IH.
  specialize (IH Hfit). destruct (charge q served self) as [u st], (usage qs self') as [us sts].
  cbn [fst snd] in *. rewrite !N.add_assoc. exact IH.
Qed.
End Address.

(** ** The limits of custom keys *)
Section CustomLimits.
Context (initial_gas_limit : list N) {K : Type} `{Countable K} (rps batch size : N).

Local Notation step := (fun (m : option (gmap K RateLimiterConfig)) (p : K * Limits) =>
    let? m := m in
    let? c := calculate_limits initial_gas_limit (snd p) rps batch size in
    Some (<[fst p := c]> m)).

Lemma config_map_none (v : list (K * Limits)) : foldl step None v = None.
Proof. by induction v. Qed.

Lemma config_map_from (v : list (K * Limits)) : forall m0 m, foldl step (Some m0) v = Some m ->
  (forall k, k ∉ v.*1 -> m !! k = m0 !! k) /\
  (NoDup v.*1 -> forall k l, (k, l) ∈ v -> m !! k = calculate_limits initial_gas_limit l rps batch size).
Proof.
  induction v as [|[k0 l0] v IH]; intros m0 m Hm.
  { cbn in Hm. simplify_eq. split; [done|]. by intros _ k l ?%not_elem_of_nil. }
  cbn [foldl fst snd] in Hm. destruct (calculate_limits _ l0 _ _ _) as [c|] eqn:Hc; [|by rewrite config_map_none in Hm].
  destruct (IH _ _ Hm) as [Hout Hin]. split.
  - intros k Hk. cbn in Hk. apply not_elem_of_cons in Hk as [Hne Hk]. rewrite Hout by done. by apply lookup_insert_ne.
  - cbn. intros [Hk0 Hnd]%NoDup_cons k l [Heq|Hkl]%elem_of_cons; [|by apply Hin]. simplify_eq.
    rewrite Hout by done. rewrite Hc. apply lookup_insert_eq.
Qed.

Lemma config_map_zero (v : list (K * Limits)) :
  batch = 0 -> v <> [] -> to_limiter_config_map initial_gas_limit rps batch size v = None.
Proof.
  intros Hb Hv. destruct v as [|[k l] v]; [done|]. unfold to_limiter_config_map. cbn [foldl fst snd].
  assert (Hc : calculate_limits initial_gas_limit l rps batch size = None).
  { rewrite Hb. unfold calculate_limits, Resource.div_by_scalar. repeat case_match; try done; simplify_eq. }
  rewrite Hc. apply config_map_none.
Qed.

Lemma calculate_limits_time l c :
  calculate_limits initial_gas_limit l rps batch size = Some c ->
  execution_time_micros (max_allowed_resources c) = N.min (batch * 1000 * resources_per_bucket l) u64_max / 1000.
Proof.
  unfold calculate_limits, Resource.div_by_scalar, Ints.checked_div, Ints.checked_mul.
  intros Hc. repeat (case_match; try discriminate). by simplify_eq.
Qed.
End CustomLimits.

Module RateLimiterClaims.
Section Claims.
Context (initial_gas_limit : list N).
Context {Address IpAddr : Type} `{Countable Address} `{Countable IpAddr}.
Context {CA : Cache Address Throttler} {CI : Cache IpAddr Throttler} {HCA : CacheLaws CA}.

(** C24: the use of the sequencer by one address is bounded.  After the limiter was created,
    whatever requests are served in the order of their times, what the address [a] used in a
    tracked dimension is at most one bucket and one request ([most]) for each time its
    throttler was not in the cache, plus the refill rate times the elapsed milliseconds. *)
Theorem address_usage_bounded config batch size
    (self : SovRateLimiterInner (Address := Address) (IpAddr := IpAddr)) (a : Address) d most t0
    (qs : list (Request (Address := Address) (IpAddr := IpAddr))) :
  new initial_gas_limit (Some config) batch size = Some (Some self) ->
  requests_ok a d most t0 qs ->
  limit_of a d (by_addr_rate_limiter self) + most <= u64_max ->
  fst (usage initial_gas_limit a d qs self) <=
    snd (usage initial_gas_limit a d qs self) * (limit_of a d (by_addr_rate_limiter self) + most) +
      rate_of a d (by_addr_rate_limiter self) * millis_since (end_time t0 qs) t0.
Proof.
  intros Hnew Hok Hfit.
  apply (usage_accounted initial_gas_limit a d most t0 qs t0 0 0 self (N.le_refl _) Hok); [|done].
  split; [lia|]. intros clock th Hg. exfalso. unfold new, RateLimiter.new in Hnew.
  repeat (case_match; try discriminate). simplify_eq. cbn in Hg.
  match goal with Hb : cache_build _ = Some _ |- _ => by rewrite (cache_get_build _ _ _ _ Hb) in Hg end.
Qed.

(** The limits of a custom address are computed with the two settings in swapped roles: its
    limit of execution time follows from the requests per second, not from the time of a
    batch, whereas that of the default limits follows from the time of a batch. *)
Theorem custom_limits_swapped config batch size default_config addrs ips (a : Address) l :
  limits (Address := Address) (IpAddr := IpAddr) initial_gas_limit config batch size = Some (default_config, addrs, ips) ->
  NoDup (address_custom_limits config).*1 -> (a, l) ∈ address_custom_limits config ->
  addrs !! a = calculate_limits initial_gas_limit l batch (max_requests_per_second config) size /\
  (forall c, addrs !! a = Some c -> execution_time_micros (max_allowed_resources c) =
    N.min (max_requests_per_second config * 1000 * resources_per_bucket l) u64_max / 1000) /\
  execution_time_micros (max_allowed_resources default_config) =
    N.min (batch * 1000 * resources_per_bucket (default_limits config)) u64_max / 1000.
Proof.
  unfold limits. intros Hl Hnd Hin.
  destruct (calculate_limits _ _ _ _ _) as [dc|] eqn:Hd; [|done].
  destruct (to_limiter_config_map _ _ _ _ (address_custom_limits config)) as [ma|] eqn:Hm; [|done].
  destruct (to_limiter_config_map _ _ _ _ (ip_custom_limits config)); [|done]. simplify_eq.
  destruct (config_map_from _ _ _ _ _ _ _ Hm) as [_ Hc]. specialize (Hc Hnd _ _ Hin).
  split; [done|]. split; [|by eapply calculate_limits_time].
  intros c Hac. rewrite Hc in Hac. by eapply calculate_limits_time.
Qed.

(** With a limit of zero requests per second and a custom address, the limiter divides by
    zero when it is created. *)
Theorem custom_limits_panic (config : SovRateLimiterConfig (Address := Address) (IpAddr := IpAddr)) batch size :
  max_requests_per_second config = 0 -> address_custom_limits config <> [] ->
  new initial_gas_limit (Some config) batch size = None.
Proof.
  intros Hz Hne. unfold new, limits. rewrite config_map_zero by done. repeat case_match; try done; simplify_eq.
Qed.
End Claims.

(** A request is admitted exactly when, after the refill for the whole milliseconds since
    the last one, each tracked dimension is below its limit; gas is not looked at. *)
Theorem allow_request_exact dims th now config :
  millis_since now (last_refill th) <= u64_max ->
  (exists th', Throttler.allow_request_and_refill_resource_used dims th now config = Some (inl th')) <->
  forall d, amount d (total_resource_used th)
      - N.min (amount d (refill_rate config) * millis_since now (last_refill th)) u64_max
    < amount d (max_allowed_resources config).
Proof.
  intros Hms. unfold Throttler.allow_request_and_refill_resource_used. rewrite (proj2 (N.ltb_ge _ _) Hms).
  set (after := Resource.saturating_sub _ _ _).
  assert (Ha : forall d, amount d after = amount d (total_resource_used th)
    - N.min (amount d (refill_rate config) * millis_since now (last_refill th)) u64_max)
    by (intros d; unfold after; by rewrite amount_sub, amount_mul).
  setoid_rewrite <- Ha. rewrite <- err_if_exceeding_ok.
  destruct (Resource.err_if_exceeding _ _) as [[]|e]; split; intros Hx; try done; [eauto|by destruct Hx].
Qed.

(** The refill counts whole milliseconds and forgets the rest: a request admitted less than
    a millisecond after the last one refills nothing, and moves the time of the last refill. *)
Theorem short_gap_not_refilled dims th now config th' :
  now - last_refill th < NANOS_PER_MILLI ->
  Throttler.allow_request_and_refill_resource_used dims th now config = Some (inl th') ->
  last_refill th' = now /\ forall d, amount d (total_resource_used th') = amount d (total_resource_used th).
Proof.
  intros Hgap. unfold Throttler.allow_request_and_refill_resource_used, millis_since. rewrite (N.div_small _ _ Hgap).
  cbv zeta. destruct (_ <? _); [done|]. destruct (Resource.err_if_exceeding _ _); [|done]. intros [= <-].
  split; [done|]. intros d. cbn [total_resource_used]. rewrite amount_sub, amount_mul. lia.
Qed.

(** *** Witnesses *)
Import MapCache.
Definition example_limits : Limits := mkLimits 500 5.
Definition example_config : SovRateLimiterConfig (Address := N) (IpAddr := N) := mkSovConfig 100 10 example_limits [(7, example_limits)] [].
Definition example_gas : list N := [1000; 1000].
Definition example_request (now address bytes : N) : Request (Address := N) (IpAddr := N) :=
  mkRequest now now now now 1 address (mkResource 1 bytes 50 [3; 4]).
Definition example_requests : list (Request (Address := N) (IpAddr := N)) :=
  [example_request 0 7 300; example_request 500 8 900; example_request 3000000 7 200; example_request 6000000000 7 100].
Definition example_limiter : option (option (SovRateLimiterInner (Address := N) (IpAddr := N))) :=
  new example_gas (Some example_config) 1000 1000000.

Definition example_outcome : option (N * N * bool) :=
  match example_limiter with
  | Some (Some self) =>
      Some (usage example_gas 7 Bytes example_requests self, limit_of 7 Bytes (by_addr_rate_limiter self) + 300 <=? u64_max)
  | _ => None
  end.

Lemma address_usage_bounded_witness : exists self,
  example_limiter = Some (Some self) /\ usage example_gas 7 Bytes example_requests self = (600, 2) /\
  fst (usage example_gas 7 Bytes example_requests self) <=
    snd (usage example_gas 7 Bytes example_requests self) * (limit_of 7 Bytes (by_addr_rate_limiter self) + 300) +
      rate_of 7 Bytes (by_addr_rate_limiter self) * millis_since (end_time 0 example_requests) 0.
Proof.
  assert (Ho : example_outcome = Some (600, 2, true)) by (vm_compute; reflexivity).
  unfold example_outcome in Ho. destruct example_limiter as [[self|]|] eqn:Hl; [|done..].
  injection Ho as Hu Hfit. exists self. split; [done|]. split; [done|].
  apply (address_usage_bounded example_gas example_config 1000 1000000 self 7 Bytes 300 0 example_requests).
  - exact Hl.
  - cbn. repeat split; intros; lia.
  - by apply N.leb_le.
Defined.

Lemma custom_limits_swapped_witness : exists default_config addrs ips,
  limits example_gas example_config 1000 1000000 = Some (default_config, addrs, ips) /\
  (forall c, addrs !! 7 = Some c -> execution_time_micros (max_allowed_resources c) = 5000) /\
  execution_time_micros (max_allowed_resources default_config) = 500000.
Proof.
  assert (Ho : bool_decide (is_Some (limits example_gas example_config 1000 1000000)) = true) by (vm_compute; reflexivity).
  apply bool_decide_eq_true in Ho as [[[dc addrs] ips] Hl]. exists dc, addrs, ips. split; [exact Hl|].
  refine (proj2 (custom_limits_swapped example_gas example_config 1000 1000000 dc addrs ips 7 example_limits Hl _ _)).
  - cbn. apply NoDup_singleton.
  - cbn. by apply list_elem_of_singleton.
Defined.

Definition zero_config : SovRateLimiterConfig (Address := N) (IpAddr := N) := mkSovConfig 100 0 example_limits [(7, example_limits)] [].

Lemma custom_limits_panic_witness : new example_gas (Some zero_config) 1000 1000000 = None.
Proof. apply (custom_limits_panic example_gas zero_config 1000 1000000); done. Defined.

Definition example_throttler : Throttler := mkThrottler (mkResource 12 5 5 [0; 0]) 0.
Definition example_bucket : RateLimiterConfig := mkConfig (mkResource 10 10 10 [1; 1]) (mkResource 2 2 2 [0; 0]).

Lemma allow_request_exact_witness :
  exists th', Throttler.allow_request_and_refill_resource_used 2 example_throttler 2000000 example_bucket = Some (inl th').
Proof.
  apply (allow_request_exact 2 example_throttler 2000000 example_bucket); [vm_compute; discriminate|].
  intros []; vm_compute; reflexivity.
Defined.

Lemma short_gap_not_refilled_witness : exists th',
  Throttler.allow_request_and_refill_resource_used 2 (mkThrottler (mkResource 9 5 5 [0; 0]) 0) 999999 example_bucket = Some (inl th') /\
  last_refill th' = 999999 /\ forall d, amount d (total_resource_used th') = amount d (mkResource 9 5 5 [0; 0]).
Proof.
  eexists. split; [vm_compute; reflexivity|].
  apply (short_gap_not_refilled 2 (mkThrottler (mkResource 9 5 5 [0; 0]) 0) 999999 example_bucket); vm_compute; reflexivity.
Defined.
End RateLimiterClaims.
