(* ===== verification/StfBlueprint.v ===== *)
(** * Processing a batch (sov-modules-stf-blueprint)

    The life of the transactions of a registered sequencer:
    sequencer_mode/registered.rs ([apply_batch],
    [auth_and_process_tx_and_incentivize_sequencer],
    [process_tx_and_reward_prover]) and sequencer_mode/common.rs ([apply_tx],
    [attempt_tx]), on top of the capabilities of [Capabilities].

    The runtime is the type parameter [RT: Runtime<S>] of the code: the class
    [Runtime] has the trait methods that are called here, and [RuntimeLaws] what
    the accounting of the blueprint relies on; [runtime_panics] says that the code of
    the runtime panics on a transaction, which no law excludes.  [InjectedControlFlow] is the trait of that name
    and [no_op_control_flow] the implementation that nodes use.

    A [TxScratchpad] is the state of the checkpoint it was made from with the
    state after the writes on top, so that [revert] and [commit] choose one of
    the two; a working set is a gas meter with a state ([acc]).  A function that
    may panic returns an [option], with [None] for the panic.  Caches, metrics,
    logs and the events of receipts are left out. *)

From Stdlib Require Import NArith Lia.
From stdpp Require Import base numbers gmap strings option list.
From S2P Require Import Prelude Ints Gas StateAccess Bank Uniqueness Accounts SequencerRegistry.
From S2P Require Import Capabilities.

(** The two constants of [GasSpec] that the blueprint uses. *)
Class GasSpec : Type := {
  max_tx_check_costs : list N;
  process_tx_pre_exec_checks_gas : list N
}.

(** [FullyBakedTx], rollup-interface *)
Record FullyBakedTx : Type := mkFullyBakedTx {
  tx_data : list N;
  tx_sequencing_data : option (list N)
}.

(** [AuthenticatedTransactionAndRawHash], transaction/mod.rs *)
Record AuthenticatedTransactionAndRawHash : Type := mkAuthenticatedTx {
  raw_tx_hash : TxHash;
  authenticated_tx : TxDetails
}.

(** [AuthenticationError], runtime/capabilities/authentication.rs *)
Inductive AuthenticationError : Type :=
| FatalError (tx_hash : TxHash)
| AuthOutOfGas.

(** The methods of the [Runtime] trait and of its capabilities that depend on
    the rollup. *)
Class Runtime (Sp : Spec) : Type := {
  Other : Type;
  Decodable : Type;
  SequencingData : Type;
  ModuleError : Type;
  authenticate : FullyBakedTx -> M (acc BasicGasMeter.t (Capabilities.t Other))
    AuthenticationError
    (AuthenticatedTransactionAndRawHash * AuthorizationData Sp * Decodable);
  compute_tx_hash : FullyBakedTx -> option TxHash;
  operating_mode : Capabilities.t Other -> option OperatingMode;
  is_unauthorized_system_tx : Decodable -> Context Sp ->
    M (acc BasicGasMeter.t (Capabilities.t Other)) Empty_set bool;
  decode_sequencing_data : list N -> option SequencingData;
  handle_sequencing_data : SequencingData -> Context Sp ->
    M (acc BasicGasMeter.t (Capabilities.t Other)) ModuleError unit;
  pre_dispatch_tx_hook : TxDetails ->
    M (acc BasicGasMeter.t (Capabilities.t Other)) ModuleError unit;
  dispatch_call : Decodable -> Context Sp ->
    M (acc BasicGasMeter.t (Capabilities.t Other)) ModuleError unit;
  post_dispatch_tx_hook : TxDetails -> Context Sp ->
    M (acc BasicGasMeter.t (Capabilities.t Other)) ModuleError unit
}.

Module Stf.
Section Blueprint.
Context {Sp : Spec} {Cfg : UniquenessConfig} {GS : GasSpec} {RT : Runtime Sp}.

Abbreviation state := (Capabilities.t Other).
Abbreviation metered := (acc BasicGasMeter.t state).

(** ** Scratchpads *)
Record TxScratchpad : Type := mkScratchpad { sp_checkpoint : state; sp_state : state }.

Definition to_tx_scratchpad (s : state) : TxScratchpad := mkScratchpad s s.
Definition commit (sp : TxScratchpad) : state := sp_state sp.
Definition revert (sp : TxScratchpad) : state := sp_checkpoint sp.
Definition with_state (s : state) (sp : TxScratchpad) : TxScratchpad :=
  mkScratchpad (sp_checkpoint sp) s.

(** Scratchpads and checkpoints do not charge; [None] is a panic. *)
Definition run_infallible {A} (m : M (acc unit state) Empty_set A) (s : state)
  : option (A * state) :=
  match m (Acc tt s) with (Ok x, a) => Some (x, store a) | _ => None end.

(** ** Receipts *)

(** [TxProcessingError], tx_receipt.rs *)
Inductive TxProcessingError : Type :=
| AuthenticationFailed
| CheckUniquenessFailed (e : Uniqueness.Error)
| CannotReserveGas (e : Bank.ReserveGasError)
| CannotResolveContext (e : StateAccessorError)
| RejectedByPreFlight
| MarkTxAttemptedFailed (e : Uniqueness.Error)
| TxOutOfGas (e : GasMeteringError).

Inductive RevertReason : Type :=
| UnauthorizedSystemTransaction
| Reason (e : ModuleError).

(** [TxEffect] with the contents of tx_receipt.rs *)
Inductive TxEffect : Type :=
| Skipped (gas_used : list N) (error : TxProcessingError)
| Reverted (gas_used : list N) (reason : RevertReason)
| Successful (gas_used : list N).

Record TransactionReceipt : Type := mkReceipt {
  receipt_tx_hash : TxHash;
  body_to_save : option FullyBakedTx;
  receipt : TxEffect
}.

Definition get_gas_used (r : TransactionReceipt) : list N :=
  match receipt r with
  | Successful gas_used => gas_used
  | Reverted gas_used _ => gas_used
  | Skipped gas_used _ => gas_used
  end.

Record ApplyTxResult : Type := mkApplyTxResult {
  apply_consumption : TransactionConsumption;
  apply_receipt : TransactionReceipt
}.

(** ** common.rs *)

Definition attempt_tx (tx : TxDetails) (message : Decodable) (ctx : Context Sp)
  : M metered ModuleError unit :=
  match sequencing_data ctx with
  | Some data =>
      match decode_sequencing_data data with
      | Some decoded => handle_sequencing_data decoded ctx
      | None => ret tt
      end
  | None => ret tt
  end ;;;
  pre_dispatch_tx_hook tx ;;;
  dispatch_call message ctx ;;;
  post_dispatch_tx_hook tx ctx.

(** The working set is [ws]; what it is reverted to or committed to is the
    scratchpad [sp]. *)
Definition apply_tx (ctx : Context Sp) (tx : TxDetails) (tx_hash : TxHash)
    (raw_tx : FullyBakedTx) (message : Decodable) (ws : metered) (sp : TxScratchpad)
  : option (ApplyTxResult * TxScratchpad) :=
  let finish (effect : list N -> TxEffect) (ws : metered) (sp : TxScratchpad) :=
    match transaction_consumption (meter ws) (max_fee tx) (max_priority_fee_bips tx) with
    | None => None
    | Some c =>
        Some (mkApplyTxResult c (mkReceipt tx_hash (Some raw_tx) (effect (tc_base_fee c))), sp)
    end in
  match is_unauthorized_system_tx message ctx ws with
  | (Ok true, ws) =>
      finish (fun gas_used => Reverted gas_used UnauthorizedSystemTransaction) ws sp
  | (Ok false, ws) =>
      match attempt_tx tx message ctx ws with
      | (Ok _, ws) => finish Successful ws (with_state (store ws) sp)
      | (Err error, ws) => finish (fun gas_used => Reverted gas_used (Reason error)) ws sp
      | (Panic, _) => None
      end
  | _ => None
  end.

(** ** The control flow that a batch injects, batch.rs *)

Inductive TxControlFlow (R : Type) : Type :=
| ContinueProcessing (r : R)
| IgnoreTx.
#[global] Arguments ContinueProcessing {R} r.
#[global] Arguments IgnoreTx {R}.

Inductive OutOfFundsReason : Type :=
| TxGasOverflow
| SequencerBondTooLow (sequencer_bond max_tx_check_value : N)
| SlotGasLimitExhausted (max_tx_check_gas remaining_slot_gas : list N)
| SequencerOutOfGasForAuthentication.

Inductive MaybeExecuted : Type :=
| Executed (r : TransactionReceipt)
| SequencerOutOfFunds (reason : OutOfFundsReason).

Record ProvisionalSequencerOutcome : Type := mkOutcome {
  po_reward : N;
  po_penalty : N;
  execution_status : MaybeExecuted
}.

Definition out_of_funds (penalty : N) (reason : OutOfFundsReason) : ProvisionalSequencerOutcome :=
  mkOutcome Amount.ZERO penalty (SequencerOutOfFunds reason).
Definition penalize (penalty : N) (r : TransactionReceipt) : ProvisionalSequencerOutcome :=
  mkOutcome Amount.ZERO penalty (Executed r).
Definition reward (amount : N) (r : TransactionReceipt) : ProvisionalSequencerOutcome :=
  mkOutcome amount Amount.ZERO (Executed r).

Record InjectedControlFlow : Type := mkControlFlow {
  pre_flight : Context Sp -> Decodable -> TxControlFlow unit;
  post_tx : ProvisionalSequencerOutcome -> TxScratchpad -> SlotGasMeter.t DaAddress ->
    list N -> ExecutionContext -> state * TxControlFlow TransactionReceipt
}.

Definition no_op_control_flow : InjectedControlFlow :=
  mkControlFlow (fun _ _ => ContinueProcessing tt)
    (fun provisional_outcome dirty_scratchpad _ _ _ =>
       match execution_status provisional_outcome with
       | Executed r => (commit dirty_scratchpad, ContinueProcessing r)
       | SequencerOutOfFunds _ => (commit dirty_scratchpad, IgnoreTx)
       end).

(** ** registered.rs: one transaction *)

(** The checks before the execution.  Each failure reverts the scratchpad. *)
Definition pre_exec_checks (cf : InjectedControlFlow) (tx : TxDetails)
    (auth_data : AuthorizationData Sp) (message : Decodable) (raw_tx : FullyBakedTx)
    (da : DaAddress) (rollup_address : Address) (execution_context : ExecutionContext)
    (sequencer_type : SequencerType) : M metered TxProcessingError (Context Sp) :=
  let! ctx :=
    map_err CannotResolveContext
      (Capabilities.resolve_context auth_data da rollup_address (tx_sequencing_data raw_tx)
         execution_context sequencer_type) in
  match pre_flight cf ctx message with
  | ContinueProcessing _ => ret tt
  | IgnoreTx => throw RejectedByPreFlight
  end ;;;
  map_err CheckUniquenessFailed (Capabilities.check_uniqueness auth_data execution_context) ;;;
  map_err MarkTxAttemptedFailed (Capabilities.mark_tx_attempted auth_data) ;;;
  let! gas_price := (fun a => (Ok (BasicGasMeter.gas_price (meter a)), a)) in
  map_err CannotReserveGas (Capabilities.try_reserve_gas tx gas_price ctx) ;;;
  ret ctx.

Definition process_tx_and_reward_prover (cf : InjectedControlFlow) (pre_exec_meter : BasicGasMeter.t)
    (scratchpad : TxScratchpad) (slot_gas : list N)
    (validated_output :
       AuthenticatedTransactionAndRawHash * AuthorizationData Sp * Decodable)
    (raw_tx : FullyBakedTx) (da : DaAddress) (rollup_address : Address)
    (execution_context : ExecutionContext) (mode : OperatingMode)
    (sequencer_type : SequencerType)
  : option ((ApplyTxResult + TxProcessingError) * TxScratchpad * BasicGasMeter.t) :=
  let '(auth_tx, auth_data, message) := validated_output in
  let tx := authenticated_tx auth_tx in
  match pre_exec_checks cf tx auth_data message raw_tx da rollup_address execution_context
          sequencer_type (Acc pre_exec_meter (sp_state scratchpad)) with
  | (Panic, _) => None
  | (Err error, a) => Some (inr error, to_tx_scratchpad (revert scratchpad), meter a)
  | (Ok ctx, a) =>
      let scratchpad := with_state (store a) scratchpad in
      let pre_exec_gas_meter := meter a in
      let? info := BasicGasMeter.gas_info pre_exec_gas_meter in
      let working_set_gas_meter :=
        tx_gas_meter tx (BasicGasMeter.info_gas_price info) slot_gas in
      match BasicGasMeter.charge_gas (BasicGasMeter.gas_used info) working_set_gas_meter with
      | (Panic, _) => None
      | (Err error, m) =>
          let? c := transaction_consumption m (max_fee tx) (max_priority_fee_bips tx) in
          let? (_, s) :=
            run_infallible (Capabilities.refund_remaining_gas (gas_refund_recipient ctx)
              (tc_remaining_funds c)) (sp_state scratchpad) in
          Some (inr (TxOutOfGas error), with_state s scratchpad, pre_exec_gas_meter)
      | (Ok _, m) =>
          let? (result, scratchpad) :=
            apply_tx ctx tx (raw_tx_hash auth_tx) raw_tx message
              (Acc m (sp_state scratchpad)) scratchpad in
          let c := apply_consumption result in
          let? (_, s) :=
            run_infallible (Capabilities.refund_remaining_gas (gas_refund_recipient ctx)
              (tc_remaining_funds c)) (sp_state scratchpad) in
          let? base_fee := base_fee_value c in
          let? (_, s) := run_infallible (Capabilities.reward_prover base_fee mode) s in
          Some (inl result, with_state s scratchpad, pre_exec_gas_meter)
      end
  end.

Inductive SequencerBondForTx : Type :=
| PreferredBond (amount : N)
| StandardBond (amount : N).

Definition bond_amount (b : SequencerBondForTx) : N :=
  match b with PreferredBond amount => amount | StandardBond amount => amount end.

Inductive AuthAndProcessOutcome : Type :=
| IllegalSequencer (reason : OutOfFundsReason)
| OutcomeSkipped (error : TxProcessingError) (tx_hash : TxHash) (tx_body : FullyBakedTx)
| Applied (c : TransactionConsumption) (r : TransactionReceipt).

Record AuthAndProcessOutput : Type := mkOutput {
  out_gas_used : list N;
  out_scratchpad : TxScratchpad;
  out_outcome : AuthAndProcessOutcome
}.

(** [GasUnit::ZEROED], with the dimensions of [like]. *)
Definition gas_zero (like : list N) : list N := map (fun _ => 0) like.

Definition penalize_sequencer (auth_cost : N) (mode : OperatingMode) (scratchpad : TxScratchpad)
  : option TxScratchpad :=
  let? (_, s) :=
    run_infallible (expect (Capabilities.reward_prover_from_sequencer_balance auth_cost mode))
      (sp_state scratchpad) in
  Some (with_state s scratchpad).

Definition auth_and_process_tx_and_incentivize_sequencer (cf : InjectedControlFlow)
    (scratchpad : TxScratchpad) (slot_gas : list N) (raw_tx : FullyBakedTx) (da : DaAddress)
    (rollup_address : Address) (gas_price : list N) (execution_context : ExecutionContext)
    (sequencer_bond : SequencerBondForTx) (mode : OperatingMode)
    (sequencer_type : SequencerType) : option AuthAndProcessOutput :=
  let illegal reason :=
    Some (mkOutput (gas_zero max_tx_check_costs) scratchpad (IllegalSequencer reason)) in
  match GasArray.checked_value max_tx_check_costs gas_price with
  | None => illegal TxGasOverflow
  | Some max_tx_check_value =>
      if bond_amount sequencer_bond <? max_tx_check_value
      then illegal (SequencerBondTooLow (bond_amount sequencer_bond) max_tx_check_value)
      else if GasArray.dim_is_less_or_eq slot_gas max_tx_check_costs
      then illegal (SlotGasLimitExhausted max_tx_check_costs slot_gas)
      else
        match BasicGasMeter.charge_gas process_tx_pre_exec_checks_gas
                (BasicGasMeter.new_with_gas max_tx_check_costs gas_price) with
        | (Ok _, pre_exec_gas_meter) =>
            match authenticate raw_tx (Acc pre_exec_gas_meter (sp_state scratchpad)) with
            | (Panic, _) => None
            | (Err pre_exec_error, a) =>
                let scratchpad := with_state (store a) scratchpad in
                let? info := BasicGasMeter.gas_info (meter a) in
                let? scratchpad :=
                  penalize_sequencer (BasicGasMeter.gas_value info) mode scratchpad in
                Some (mkOutput (BasicGasMeter.gas_used info) scratchpad
                  match pre_exec_error with
                  | FatalError tx_hash => OutcomeSkipped AuthenticationFailed tx_hash raw_tx
                  | AuthOutOfGas => IllegalSequencer SequencerOutOfGasForAuthentication
                  end)
            | (Ok validated_output, a) =>
                let tx_hash := raw_tx_hash (fst (fst validated_output)) in
                if bool_decide (compute_tx_hash raw_tx = Some tx_hash) then
                  let? (tx_result, scratchpad, pre_exec_gas_meter) :=
                    process_tx_and_reward_prover cf (meter a) (with_state (store a) scratchpad)
                      slot_gas validated_output raw_tx da rollup_address execution_context mode
                      sequencer_type in
                  match tx_result with
                  | inr error =>
                      let? info := BasicGasMeter.gas_info pre_exec_gas_meter in
                      let? scratchpad :=
                        penalize_sequencer (BasicGasMeter.gas_value info) mode scratchpad in
                      Some (mkOutput (BasicGasMeter.gas_used info) scratchpad
                        (OutcomeSkipped error tx_hash raw_tx))
                  | inl result =>
                      Some (mkOutput (get_gas_used (apply_receipt result)) scratchpad
                        (Applied (apply_consumption result) (apply_receipt result)))
                  end
                else None
            end
        | _ => None
        end
  end.

(** ** registered.rs: a batch *)

Record Batch : Type := mkBatch {
  batch_txs : list FullyBakedTx;
  batch_sequencer_address : Address
}.

Definition known_remaining_txs (b : Batch) : option N := Some (N.of_nat (length (batch_txs b))).

Definition is_sequencer (e : ExecutionContext) : bool :=
  match e with Sequencer | SequencerWarmUp => true | Node => false end.

Record IgnoredTxContents : Type := mkIgnored { ignored_gas_used : list N; ignored_index : N }.

(** The variables of the loop. *)
Record BatchState : Type := mkBatchState {
  bs_scratchpad : TxScratchpad;
  bs_slot_gas_meter : SlotGasMeter.t DaAddress;
  bs_reward : N;
  bs_penalty : N;
  bs_bond_per_tx : SequencerBondForTx;
  bs_tx_receipts : list TransactionReceipt;
  bs_ignored : list IgnoredTxContents
}.

Definition create_tx_receipt (gas_used : list N) (error : TxProcessingError) (tx_hash : TxHash)
    (raw_tx : FullyBakedTx) : TransactionReceipt :=
  mkReceipt tx_hash (Some (mkFullyBakedTx (tx_data raw_tx) None)) (Skipped gas_used error).

Definition provisional_outcome (gas_price : list N) (out : AuthAndProcessOutput)
  : option ProvisionalSequencerOutcome :=
  match out_outcome out with
  | IllegalSequencer reason =>
      let? v := GasArray.checked_value (out_gas_used out) gas_price in
      Some (out_of_funds v reason)
  | OutcomeSkipped error tx_hash tx_body =>
      let? v := GasArray.checked_value (out_gas_used out) gas_price in
      Some (penalize v (create_tx_receipt (out_gas_used out) error tx_hash tx_body))
  | Applied c r => Some (reward (tc_priority_fee c) r)
  end.

(** The charge of the slot meter and the sums; [None] is one of the [expect]s. *)
Definition settle (b : BatchState) (gas_used : list N) (da : DaAddress)
    (o : ProvisionalSequencerOutcome) (checkpoint : state) : option BatchState :=
  match SlotGasMeter.charge_gas gas_used da (bs_slot_gas_meter b) with
  | (Ok _, m) =>
      let? r := Amount.checked_add (bs_reward b) (po_reward o) in
      let? p := Amount.checked_add (bs_penalty b) (po_penalty o) in
      Some (mkBatchState (to_tx_scratchpad checkpoint) m r p (bs_bond_per_tx b)
              (bs_tx_receipts b) (bs_ignored b))
  | _ => None
  end.

Definition push_receipt (r : TransactionReceipt) (b : BatchState) : BatchState :=
  mkBatchState (bs_scratchpad b) (bs_slot_gas_meter b) (bs_reward b) (bs_penalty b)
    (bs_bond_per_tx b) (bs_tx_receipts b ++ [r]) (bs_ignored b).

Definition push_ignored (i : IgnoredTxContents) (b : BatchState) : BatchState :=
  mkBatchState (bs_scratchpad b) (bs_slot_gas_meter b) (bs_reward b) (bs_penalty b)
    (bs_bond_per_tx b) (bs_tx_receipts b) (bs_ignored b ++ [i]).

Definition set_bond (bond : SequencerBondForTx) (b : BatchState) : BatchState :=
  mkBatchState (bs_scratchpad b) (bs_slot_gas_meter b) (bs_reward b) (bs_penalty b)
    bond (bs_tx_receipts b) (bs_ignored b).

(** The body of the loop. *)
Definition apply_batch_tx (cf : InjectedControlFlow) (da : DaAddress) (rollup_address : Address)
    (gas_price : list N) (execution_context : ExecutionContext) (mode : OperatingMode)
    (is_preferred : bool) (idx : N) (raw_tx : FullyBakedTx) (b : BatchState)
  : option BatchState :=
  let? out :=
    auth_and_process_tx_and_incentivize_sequencer cf (bs_scratchpad b)
      (SlotGasMeter.remaining_slot_gas (bs_slot_gas_meter b) da) raw_tx da rollup_address
      gas_price execution_context (bs_bond_per_tx b) mode
      (if is_preferred then Preferred else NonPreferred) in
  let gas_used := out_gas_used out in
  let? o := provisional_outcome gas_price out in
  let (new_checkpoint, outcome) :=
    post_tx cf o (out_scratchpad out) (bs_slot_gas_meter b) gas_used execution_context in
  match outcome with
  | ContinueProcessing r =>
      let? b := settle b gas_used da o new_checkpoint in
      Some (push_receipt r b)
  | IgnoreTx =>
      if is_sequencer execution_context
      then Some (mkBatchState (to_tx_scratchpad new_checkpoint) (bs_slot_gas_meter b)
                   (bs_reward b) (bs_penalty b) (bs_bond_per_tx b) (bs_tx_receipts b)
                   (bs_ignored b))
      else
        let? b := settle b gas_used da o new_checkpoint in
        let? b :=
          if is_preferred then
            let? v := GasArray.checked_value gas_used gas_price in
            Some (set_bond (PreferredBond
              (Amount.saturating_sub (bond_amount (bs_bond_per_tx b)) v)) b)
          else Some b in
        Some (push_ignored (mkIgnored gas_used idx) b)
  end.

Fixpoint apply_batch_txs (cf : InjectedControlFlow) (da : DaAddress) (rollup_address : Address)
    (gas_price : list N) (execution_context : ExecutionContext) (mode : OperatingMode)
    (is_preferred : bool) (idx : N) (txs : list FullyBakedTx) (b : BatchState)
  : option BatchState :=
  match txs with
  | [] => Some b
  | raw_tx :: txs' =>
      let? b :=
        apply_batch_tx cf da rollup_address gas_price execution_context mode is_preferred idx
          raw_tx b in
      apply_batch_txs cf da rollup_address gas_price execution_context mode is_preferred
        (idx + 1) txs' b
  end.

(** [BatchSequencerReceipt] and [IncrementalBatchReceipt] *)
Record IncrementalBatchReceipt : Type := mkBatchReceipt {
  tx_receipts : list TransactionReceipt;
  ignored_tx_receipts : list IgnoredTxContents;
  inner_da_address : DaAddress;
  inner_gas_price : list N;
  inner_gas_used : list N;
  inner_rewards : Rewards
}.

Definition apply_batch (cf : InjectedControlFlow) (checkpoint : state)
    (slot_gas_meter : SlotGasMeter.t DaAddress) (batch : Batch) (da : DaAddress)
    (sequencer_bond : N) (gas_price : list N) (execution_context : ExecutionContext)
  : option (IncrementalBatchReceipt * state * SlotGasMeter.t DaAddress) :=
  let? (is_preferred, checkpoint) :=
    run_infallible (Capabilities.is_preferred_sequencer da) checkpoint in
  let? mode := operating_mode checkpoint in
  let? bond_per_tx :=
    if is_preferred : bool then Some (PreferredBond sequencer_bond)
    else
      let? n := known_remaining_txs batch in
      let? amount := Amount.checked_div sequencer_bond (N.max n 1) in
      Some (StandardBond amount) in
  let? initial_slot_gas_used := SlotGasMeter.total_gas_used slot_gas_meter in
  let? b :=
    apply_batch_txs cf da (batch_sequencer_address batch) gas_price execution_context mode
      is_preferred 0 (batch_txs batch)
      (mkBatchState (to_tx_scratchpad checkpoint) slot_gas_meter Amount.ZERO Amount.ZERO
         bond_per_tx [] []) in
  let? total_gas_used := SlotGasMeter.total_gas_used (bs_slot_gas_meter b) in
  let? total_gas_used_in_batch := GasArray.checked_sub total_gas_used initial_slot_gas_used in
  let rewards := mkRewards (bs_reward b) (bs_penalty b) in
  let? (_, checkpoint) :=
    run_infallible (Capabilities.return_escrowed_funds_to_sequencer sequencer_bond rewards da)
      (commit (bs_scratchpad b)) in
  Some (mkBatchReceipt (bs_tx_receipts b) (bs_ignored b) da gas_price total_gas_used_in_batch
          rewards, checkpoint, bs_slot_gas_meter b).
End Blueprint.
#[global] Arguments InjectedControlFlow {Sp} RT.
End Stf.

(** ** What the blueprint relies on *)

(** The part of the state that the accounting of a slot depends on is kept: the
    sequencers that stay registered for the slot still do, none becomes the
    preferred one, and the uniqueness module only records attempts of transactions. *)
Record frame {Sp : Spec} {Cfg : UniquenessConfig} {RT : Runtime Sp}
    (staying : Capabilities.t Other -> DaAddress -> Prop) (s s' : Capabilities.t Other)
  : Prop := mkFrame {
  frame_inv : Capabilities.inv s';
  frame_bank_id : Capabilities.bank_id s' = Capabilities.bank_id s;
  frame_staying : forall da, staying s da -> staying s' da;
  frame_preferred : forall da,
    SequencerRegistry.preferred_sequencer (Capabilities.sequencer_registry s') = Some da ->
    SequencerRegistry.preferred_sequencer (Capabilities.sequencer_registry s) = Some da;
  frame_mode : operating_mode s' = operating_mode s;
  frame_reward_address :
    is_Some (Capabilities.reward_address s) -> is_Some (Capabilities.reward_address s');
  frame_attempts :
    Uniqueness.attempts (Capabilities.uniqueness s) (Capabilities.uniqueness s')
}.

(** A call, a hook: the frame is kept and nothing is taken out of the reserve. *)
Definition harmless {Sp : Spec} {Cfg : UniquenessConfig} {RT : Runtime Sp}
    (staying : Capabilities.t Other -> DaAddress -> Prop) (s s' : Capabilities.t Other) : Prop :=
  frame staying s s' /\ Capabilities.reserve s <= Capabilities.reserve s'.

(** A computation whose writes are harmless when it succeeds.  It may fail, in
    which case its writes are reverted, and it may panic. *)
Definition safely {Sp : Spec} {Cfg : UniquenessConfig} {RT : Runtime Sp} {E A : Type}
    (staying : Capabilities.t Other -> DaAddress -> Prop) (s : Capabilities.t Other)
    (o : outcome E A) (s' : Capabilities.t Other) : Prop :=
  match o with Ok _ => harmless staying s s' | _ => True end.

(** The contract of a runtime, for every kind of gas meter laws.  Authentication
    reads the state, derives the authorization data from the transaction, agrees
    with [compute_tx_hash] on the hash and decodes messages whose integers have
    their width.  Calls and hooks that succeed keep the invariants of the modules,
    take nothing out of the bank module's reserve, do not unregister a sequencer that
    stays for the slot and do not erase what the uniqueness module recorded.  Nothing
    is said about panics of authentication, calls and hooks.  Which sequencers stay
    is up to the runtime: it depends on its own state and on whether the sequencer is
    leaving.  The operating mode is the one of genesis. *)
Class RuntimeLaws {Sp : Spec} {Cfg : UniquenessConfig} (RT : Runtime Sp) : Type := {
  staying : Capabilities.t Other -> DaAddress -> Prop;
  message_wf : Decodable -> Prop;
  authorization_of : FullyBakedTx -> AuthorizationData Sp;
  staying_registered : forall s da, staying s da -> Capabilities.registered s da;
  staying_law : forall s s' da, Capabilities.other s' = Capabilities.other s ->
    Capabilities.balance_state_of s' da = Capabilities.balance_state_of s da ->
    staying s da -> staying s' da;
  authenticate_law : forall (L : GasMeterLaws BasicGasMeter.t) raw_tx s,
    wp (H0 := L) (authenticate raw_tx) (fun o s' => s' = s /\
      match o with
      | Ok (auth_tx, auth_data, message) =>
          compute_tx_hash raw_tx = Some (raw_tx_hash auth_tx) /\ message_wf message /\
          auth_data = authorization_of raw_tx /\
          forall n, auth_uniqueness auth_data = Nonce n -> n <= u64_max
      | _ => True
      end) s;
  mode_law : forall s s', Capabilities.other s' = Capabilities.other s ->
    operating_mode s' = operating_mode s;
  system_tx_law : forall (L : GasMeterLaws BasicGasMeter.t) m c s, Capabilities.inv s ->
    wp (H0 := L) (is_unauthorized_system_tx m c) (safely staying s) s;
  sequencing_data_law : forall (L : GasMeterLaws BasicGasMeter.t) d c s, Capabilities.inv s ->
    wp (H0 := L) (handle_sequencing_data d c) (safely staying s) s;
  pre_hook_law : forall (L : GasMeterLaws BasicGasMeter.t) tx s, Capabilities.inv s ->
    wp (H0 := L) (pre_dispatch_tx_hook tx) (safely staying s) s;
  dispatch_law : forall (L : GasMeterLaws BasicGasMeter.t) m c s, message_wf m ->
    Capabilities.inv s ->
    wp (H0 := L) (dispatch_call m c) (safely staying s) s;
  post_hook_law : forall (L : GasMeterLaws BasicGasMeter.t) tx c s, Capabilities.inv s ->
    wp (H0 := L) (post_dispatch_tx_hook tx c) (safely staying s) s
}.

(** The code of the runtime panics: on the execution of a message, in some state
    that fulfils the invariants, in the call itself or in a hook around it. *)
Definition execution_panics {Sp : Spec} {Cfg : UniquenessConfig} {RT : Runtime Sp}
    (tx : TxDetails) (message : Decodable) : Prop :=
  exists ctx ws, Capabilities.inv (store ws) /\
    (fst (is_unauthorized_system_tx message ctx ws) = Panic \/
     fst (Stf.attempt_tx tx message ctx ws) = Panic).

(** On a transaction: in the authentication, or on the message that it yields. *)
Definition runtime_panics {Sp : Spec} {Cfg : UniquenessConfig} {RT : Runtime Sp}
    (raw_tx : FullyBakedTx) : Prop :=
  exists ws, match fst (authenticate raw_tx ws) with
    | Panic => True
    | Err _ => False
    | Ok (auth_tx, _, message) => execution_panics (authenticated_tx auth_tx) message
    end.

(** The transaction was attempted: the uniqueness check rejects it from now on. *)
Definition spent {Sp : Spec} {Cfg : UniquenessConfig} {RT : Runtime Sp} {L : RuntimeLaws RT}
    (s : Capabilities.t Other) (raw_tx : FullyBakedTx) : Prop :=
  let ad := authorization_of raw_tx in
  Uniqueness.seen (Capabilities.uniqueness s) (auth_credential_id ad) (auth_uniqueness ad)
    (auth_tx_hash ad).

(** The transaction of a receipt that was executed, successfully or not. *)
Definition executed {Sp : Spec} {RT : Runtime Sp} (r : Stf.TransactionReceipt)
  : option FullyBakedTx :=
  match Stf.receipt r with Stf.Skipped _ _ => None | _ => Stf.body_to_save r end.
