(* ===== verification/StfProofs.v ===== *)
(** * The accounting of a batch

    The lemmas on [StfBlueprint]: meters that start from a given meter, the
    fee flow of one transaction, and the loop of a batch.  The theorems are in
    StfProperties.v. *)

From Stdlib Require Import NArith Lia.
From stdpp Require Import base numbers gmap strings option list.
From S2P Require Import Prelude Ints Gas StateAccess Bank Uniqueness Accounts SequencerRegistry.
From S2P Require Import Capabilities StfBlueprint.

(** ** Meters that start from a given one *)
Module MeterBounds.
Import BasicGasMeter.

Definition used (m : t) : list N := zip_with N.sub (initial_gas m) (remaining_gas m).

(** The meters that charges lead to from [m0]: the limit and the price are
    those of [m0] and the gas used was paid from its funds. *)
Definition within (m0 m : t) : Prop :=
  wf m /\ initial_gas m = initial_gas m0 /\ gas_price m = gas_price m0 /\
  match remaining_funds m0 with
  | None => remaining_funds m = None
  | Some f => exists rest, remaining_funds m = Some rest /\
      rest + GasArray.dot (used m) (gas_price m) <= f
  end.

Lemma dot_sub_sub_le (i r a p : list N) :
  GasArray.dim_is_less_or_eq r i = true -> GasArray.dim_is_less_or_eq a r = true ->
  GasArray.dot (zip_with N.sub i (zip_with N.sub r a)) p <=
  GasArray.dot (zip_with N.sub i r) p + GasArray.dot a p.
Proof.
  revert r a p; induction i as [|x i IH]; intros [|y r] [|z a] [|w p]; cbn; try (intros; apply N.le_0_l).
  destruct (N.ltb_spec x y); [done|]. destruct (N.ltb_spec y z); [done|]. intros.
  specialize (IH r a p ltac:(done) ltac:(done)).
  replace (x - (y - z)) with ((x - y) + z) by lia. lia.
Qed.

Lemma dot_sub_self (l p : list N) : GasArray.dot (zip_with N.sub l l) p = 0.
Proof.
  revert p. induction l as [|x l IH]; intros [|y p]; cbn; [done..|].
  rewrite IH, N.sub_diag. lia.
Qed.

Lemma dot_sub_le (i r p : list N) : GasArray.dot (zip_with N.sub i r) p <= GasArray.dot i p.
Proof.
  revert r p. induction i as [|x i IH]; intros [|y r] [|w p]; cbn; try apply N.le_0_l.
  specialize (IH r p). nia.
Qed.

Lemma sub_dim_le (i r : list N) : GasArray.dim_is_less_or_eq (zip_with N.sub i r) i = true.
Proof.
  revert r. induction i as [|x i IH]; intros [|y r]; cbn; [done..|].
  destruct (N.ltb_spec x (x - y)); [lia|]. apply IH.
Qed.

(** Comparison is transitive when the smaller side has no further dimensions. *)
Lemma dim_le_trans (a b c : list N) :
  (length a <= length b)%nat -> GasArray.dim_is_less_or_eq a b = true ->
  GasArray.dim_is_less_or_eq b c = true -> GasArray.dim_is_less_or_eq a c = true.
Proof.
  revert b c. induction a as [|x a IH]; intros [|y b] [|z c]; cbn; try done; [lia|].
  intros Hl. destruct (N.ltb_spec y x), (N.ltb_spec z y), (N.ltb_spec z x);
    try done; try lia. intros. apply (IH b); [lia|done..].
Qed.

Lemma wf_le m : wf m -> GasArray.dim_is_less_or_eq (remaining_gas m) (initial_gas m) = true /\
  GasArray.dot (used m) (gas_price m) <= u128_max.
Proof.
  intros (u & Hu & Hv). rewrite ga_checked_sub in Hu. unfold used.
  destruct (GasArray.dim_is_less_or_eq (remaining_gas m) (initial_gas m)); [|done].
  by simplify_eq.
Qed.

Lemma gas_info_used m :
  wf m -> gas_info m = Some (mkInfo (GasArray.dot (used m) (gas_price m)) (used m) (gas_price m)).
Proof.
  intros Hwf. destruct (wf_le m Hwf) as [Hle Hv]. unfold gas_info.
  rewrite ga_checked_sub, Hle, ga_checked_value. apply N.leb_le in Hv. unfold used in *.
  by rewrite Hv.
Qed.

Lemma within_refl funds gas price : within (mk gas gas funds price) (mk gas gas funds price).
Proof.
  split_and!; [apply BasicGasMeterFacts.new_wf|done|done|]. cbn.
  destruct funds as [f|]; [|done]. exists f. unfold used. cbn. rewrite dot_sub_self. split; [done|lia].
Qed.

Lemma within_charge m0 m amount :
  within m0 m -> exists o m', charge_gas_inner amount m = (o, m') /\ within m0 m' /\
    match o with Panic => False | Err _ => m' = m
    | Ok _ => GasArray.dim_is_less_or_eq amount (remaining_gas m) = true end.
Proof.
  intros (Hwf & Hi & Hp & Hf). pose proof (wf_le m Hwf) as [Hle _].
  destruct (BasicGasMeterFacts.charge_gas_inner_cases amount m Hwf)
    as [(m' & Hc & Hwf' & Ha & Hm' & Hr)|[e Hc]].
  - exists (Ok tt), m'. split_and!; [done| |done].
    rewrite Hm' in *. cbn in *. split_and!; [done..|]. cbn in *.
    destruct (remaining_funds m0) as [f|].
    + destruct Hf as (rest & Hrest & Hb). rewrite Hrest in Hr. destruct Hr as [Hle' ->].
      eexists. split; [done|]. unfold used in *. cbn.
      pose proof (dot_sub_sub_le (initial_gas m) (remaining_gas m) amount (gas_price m) Hle Ha). lia.
    + by rewrite Hf in Hr.
  - exists (Err e), m. by split_and!.
Qed.

(** The meters within [m0] as an interface: every rule that holds for all meters
    also keeps a meter within the one it started from. *)
Definition within_laws (m0 : t) : GasMeterLaws t.
Proof.
  refine {| meter_wf := within m0; can_fail := True |}.
  - intros m amount Hm. destruct (within_charge m0 m amount Hm) as (o & m' & Hc & Hm' & Ho).
    exists o, m'. split_and!; [exact Hc|done|by destruct o].
  - intros m amount p Hm. cbn. unfold charge_linear_gas.
    destruct (GasArray.checked_scalar_product u64_max amount p) as [total|].
    + destruct (within_charge m0 m total Hm) as (o & m' & Hc & Hm' & Ho).
      exists o, m'. split_and!; [exact Hc|done|by destruct o].
    + exists (Err Overflow), m. by split_and!.
Defined.

(** What a meter within [m0] reports. *)
Lemma within_info m0 m :
  within m0 m -> exists v u, gas_info m = Some (mkInfo v u (gas_price m0)) /\
    u = used m /\ v = GasArray.dot u (gas_price m0) /\ v <= u128_max /\
    GasArray.dim_is_less_or_eq u (initial_gas m0) = true /\
    (length u <= length (initial_gas m0))%nat /\
    v <= GasArray.dot (initial_gas m0) (gas_price m0) /\
    match remaining_funds m0 with Some f => v <= f | None => True end.
Proof.
  intros (Hwf & Hi & Hp & Hf). pose proof (wf_le m Hwf) as [_ Hv].
  rewrite gas_info_used by done. rewrite Hp in *.
  eexists _, _. split_and!; [done|done|done|done| | | |].
  - unfold used. rewrite Hi. apply sub_dim_le.
  - unfold used. rewrite Hi, length_zip_with. lia.
  - unfold used. rewrite Hi. apply dot_sub_le.
  - destruct (remaining_funds m0); [|done]. destruct Hf as (rest & _ & ?). lia.
Qed.
End MeterBounds.

(** ** Functions that may panic *)

(** A run has a result with [P], or it panics and [C] is the cause. *)
Definition unless {A} (C : Prop) (P : A -> Prop) (o : option A) : Prop :=
  match o with Some x => P x | None => C end.

Lemma unless_bind {A B} (C : Prop) (P : A -> Prop) (Q : B -> Prop) (o : option A)
    (k : A -> option B) :
  unless C P o -> (forall x, P x -> unless C Q (k x)) ->
  unless C Q (match o with Some x => k x | None => None end).
Proof. destruct o; cbn; auto. Qed.

Lemma unless_mono {A} (C C' : Prop) (P P' : A -> Prop) (o : option A) :
  unless C P o -> (C -> C') -> (forall x, P x -> P' x) -> unless C' P' o.
Proof. destruct o; cbn; auto. Qed.

(** ** One transaction *)
Module StfFacts.
Import Stf MeterBounds.
Section Facts.
Context {Sp : Spec} {Cfg : UniquenessConfig} {GS : GasSpec} {RT : Runtime Sp}
  {Laws : RuntimeLaws RT}.
Implicit Types (s : Capabilities.t Other) (da : DaAddress) (sp : TxScratchpad).

Lemma frame_refl s : Capabilities.inv s -> frame staying s s.
Proof. intros. split; auto. constructor. Qed.

Lemma frame_trans s1 s2 s3 : frame staying s1 s2 -> frame staying s2 s3 -> frame staying s1 s3.
Proof.
  intros [] []. split; [done|congruence|auto|auto|congruence|auto|].
  by eapply UniquenessFacts.attempts_trans.
Qed.

Lemma harmless_refl s : Capabilities.inv s -> harmless staying s s.
Proof. intros. split; [by apply frame_refl|done]. Qed.

Lemma harmless_trans s1 s2 s3 : harmless staying s1 s2 -> harmless staying s2 s3 -> harmless staying s1 s3.
Proof. intros [? ?] [? ?]. split; [by eapply frame_trans|lia]. Qed.

Lemma frame_payable mode s s' :
  frame staying s s' -> Capabilities.payable mode s -> Capabilities.payable mode s'.
Proof. intros [_ _ _ _ _ Hr _] Hp Hm. auto. Qed.

(** A payment out of the reserve keeps the frame. *)
Lemma frame_paid_out s to amount :
  Capabilities.inv s -> amount <= Capabilities.reserve s ->
  frame staying s (Capabilities.paid s (HolderModule (Capabilities.bank_id s)) to amount).
Proof.
  intros Hinv Ha. split; [|apply CapabilitiesFacts.bank_id_paid| |done|by apply mode_law|done
    |apply Uniqueness.attempts_refl]; [|intros da; by apply staying_law].
  apply CapabilitiesFacts.inv_paid; [done| |done]. destruct Hinv. congruence.
Qed.

Lemma frame_topped_up s amount s' :
  CapabilitiesFacts.topped_up s amount s' -> frame staying s s'.
Proof.
  intros [Hi Hb Hr Hp Ha Hu Ho _].
  split; [done|done| |by rewrite Hp|by apply mode_law|by rewrite Ha|rewrite Hu; constructor].
  intros da. by apply staying_law.
Qed.

Lemma run_infallible_ok {A} (m : M (acc unit (Capabilities.t Other)) Empty_set A)
    (P : A -> Capabilities.t Other -> Prop) s :
  wp m (fun o s' => match o with Ok x => P x s' | _ => False end) s ->
  exists x s', run_infallible m s = Some (x, s') /\ P x s'.
Proof.
  intros Hwp. specialize (Hwp tt I). unfold run_infallible.
  destruct (m (Acc tt s)) as [[x|e|] [g s']]; destruct Hwp as [_ HP]; [eauto|done..].
Qed.

Lemma run_infallible_unless {A} (m : M (acc unit (Capabilities.t Other)) Empty_set A)
    (P : A -> Capabilities.t Other -> Prop) (C : Prop) s :
  wp m (fun o s' => match o with Ok x => P x s' | _ => C end) s ->
  unless C (fun '(x, s') => P x s') (run_infallible m s).
Proof.
  intros Hwp. specialize (Hwp tt I). unfold run_infallible.
  destruct (m (Acc tt s)) as [[x|e|] [g s']]; destruct Hwp as [_ HP]; exact HP.
Qed.

Lemma run_refund recipient amount s :
  Capabilities.inv s -> amount <= Capabilities.reserve s ->
  exists s', run_infallible (Capabilities.refund_remaining_gas recipient amount) s = Some (tt, s') /\
    frame staying s s' /\ Capabilities.reserve s - amount <= Capabilities.reserve s'.
Proof.
  intros Hinv Ha.
  destruct (run_infallible_ok (Capabilities.refund_remaining_gas recipient amount)
    (fun _ s' => frame staying s s' /\ Capabilities.reserve s - amount <= Capabilities.reserve s') s)
    as ([] & s' & Hr & HP); [|eauto].
  apply (CapabilitiesFacts.wp_refund unmetered_cannot_fail); [done|done|].
  split; [by apply frame_paid_out|by apply CapabilitiesFacts.reserve_paid_out].
Qed.

Lemma run_reward_prover amount mode s :
  Capabilities.inv s -> Capabilities.payable mode s -> amount <= Capabilities.reserve s ->
  exists s', run_infallible (Capabilities.reward_prover amount mode) s = Some (tt, s') /\
    frame staying s s' /\ Capabilities.reserve s - amount <= Capabilities.reserve s'.
Proof.
  intros Hinv Hp Ha.
  destruct (run_infallible_ok (Capabilities.reward_prover amount mode)
    (fun _ s' => frame staying s s' /\ Capabilities.reserve s - amount <= Capabilities.reserve s') s)
    as ([] & s' & Hr & HP); [|eauto].
  apply (CapabilitiesFacts.wp_reward_prover unmetered_cannot_fail); [done..|].
  intros h. split; [by apply frame_paid_out|by apply CapabilitiesFacts.reserve_paid_out].
Qed.

Lemma run_penalize amount mode sp :
  Capabilities.inv (sp_state sp) -> Capabilities.payable mode (sp_state sp) ->
  unless (Capabilities.reserve (sp_state sp) < amount)
    (fun sp' => exists s', sp' = with_state s' sp /\ frame staying (sp_state sp) s' /\
       Capabilities.reserve (sp_state sp) <= Capabilities.reserve s' + amount)
    (penalize_sequencer amount mode sp).
Proof.
  intros Hinv Hp. set (s := sp_state sp) in *. unfold penalize_sequencer. fold s.
  eapply unless_bind; [apply run_infallible_unless with (P := fun _ s' =>
    frame staying s s' /\ Capabilities.reserve s <= Capabilities.reserve s' + amount)|].
  - apply wp_expect, (CapabilitiesFacts.wp_pay_prover unmetered_cannot_fail); [done|done|auto|].
    intros Ha h. wp_red. pose proof (CapabilitiesFacts.reserve_paid_out s h amount Ha).
    split; [by apply frame_paid_out|lia].
  - intros [[] s'] [Hf Hr]. cbn. eauto.
Qed.

(** *** Execution *)

Lemma wp_safely_bind {E A B} (L : GasMeterLaws BasicGasMeter.t)
    (m : M (acc BasicGasMeter.t (Capabilities.t Other)) E A)
    (k : A -> M (acc BasicGasMeter.t (Capabilities.t Other)) E B) s :
  wp (H0 := L) m (safely staying s) s ->
  (forall x s', harmless staying s s' -> wp (H0 := L) (k x) (safely staying s') s') ->
  wp (H0 := L) (bind m k) (safely staying s) s.
Proof.
  intros Hm Hk. apply wp_bind. eapply wp_mono; [exact Hm|].
  intros [x|e|] s' Hh; cbn in Hh; wp_red; [|done..].
  eapply wp_mono; [by apply Hk|]. intros [] s'' Hh'; cbn in *; [|done..].
  by eapply harmless_trans.
Qed.

Lemma wp_attempt_tx (L : GasMeterLaws BasicGasMeter.t) tx msg c s :
  message_wf msg -> Capabilities.inv s ->
  wp (H0 := L) (attempt_tx tx msg c) (safely staying s) s.
Proof.
  intros Hmsg Hinv. unfold attempt_tx. apply wp_safely_bind.
  { pose proof (harmless_refl s Hinv).
    destruct (sequencing_data c) as [d|]; [|by wp_step].
    destruct (decode_sequencing_data d); [|by wp_step]. by apply sequencing_data_law. }
  intros _ s1 [[Hinv1] _]. apply wp_safely_bind; [by apply pre_hook_law|].
  intros _ s2 [[Hinv2] _]. apply wp_safely_bind; [by apply dispatch_law|].
  intros _ s3 [[Hinv3] _]. by apply post_hook_law.
Qed.

(** How the fee of a transaction with the meter [m0] is split. *)
Definition fee_split_ok (m0 : BasicGasMeter.t) (tx : TxDetails) (c : TransactionConsumption)
  : Prop :=
  exists v, base_fee_value c = Some v /\
    v + tc_priority_fee c + tc_remaining_funds c = max_fee tx /\
    GasArray.dim_is_less_or_eq (tc_base_fee c) (BasicGasMeter.initial_gas m0) = true /\
    (length (tc_base_fee c) <= length (BasicGasMeter.initial_gas m0))%nat.

Lemma consumption_ok m0 m tx :
  within m0 m -> BasicGasMeter.remaining_funds m0 = Some (max_fee tx) ->
  exists c, transaction_consumption m (max_fee tx) (max_priority_fee_bips tx) = Some c /\
    fee_split_ok m0 tx c.
Proof.
  intros Hm Hf. destruct (within_info m0 m Hm) as (v & u & Hi & Hu & Hv & Hmax & Hd & Hl & _ & Hle).
  rewrite Hf in Hle. unfold transaction_consumption. rewrite Hi. cbn.
  assert (GasArray.checked_value u (BasicGasMeter.gas_price m0) = Some v) as Hcv.
  { rewrite ga_checked_value, <- Hv. apply N.leb_le in Hmax. by rewrite Hmax. }
  destruct (FeeFacts.helper_split u (BasicGasMeter.gas_price m0) (max_fee tx)
    (max_priority_fee_bips tx) v Hcv Hle) as (c & Hc & Hb & Hsum & _).
  exists c. split; [done|]. exists v.
  assert (tc_base_fee c = u) as ->; [|done].
  unfold transaction_consumption_helper in Hc. rewrite Hcv in Hc. by simplify_eq.
Qed.

Lemma apply_tx_ok m0 m c tx h raw_tx msg sp :
  within m0 m -> BasicGasMeter.remaining_funds m0 = Some (max_fee tx) ->
  message_wf msg -> Capabilities.inv (sp_state sp) ->
  unless (execution_panics tx msg)
    (fun '(res, sp') => exists s', sp' = with_state s' sp /\
       harmless staying (sp_state sp) s' /\
       fee_split_ok m0 tx (apply_consumption res) /\
       get_gas_used (apply_receipt res) = tc_base_fee (apply_consumption res) /\
       executed (apply_receipt res) = Some raw_tx)
    (apply_tx c tx h raw_tx msg (Acc m (sp_state sp)) sp).
Proof.
  intros Hm Hf Hmsg Hinv. unfold apply_tx.
  assert (with_state (sp_state sp) sp = sp) as Hsp by by destruct sp.
  assert (harmless staying (sp_state sp) (sp_state sp)) as Hrefl
    by by apply harmless_refl.
  pose proof (system_tx_law (within_laws m0) msg c (sp_state sp) Hinv m Hm) as Hsys.
  destruct (is_unauthorized_system_tx msg c (Acc m (sp_state sp))) as [[[]|e|] [m1 s1]] eqn:Esys;
    [| |done|]; destruct Hsys as [Hm1 Hh1]; cbn in Hm1, Hh1.
  3: { exists c, (Acc m (sp_state sp)). rewrite Esys. auto. }
  { destruct (consumption_ok m0 m1 tx Hm1 Hf) as (cons & Hc & Hs). cbn. rewrite Hc.
    exists (sp_state sp). rewrite Hsp. by split_and!. }
  pose proof (frame_inv _ _ _ (proj1 Hh1)) as Hinv1.
  pose proof (wp_attempt_tx (within_laws m0) tx msg c s1 Hmsg Hinv1 m1 Hm1) as Hat.
  destruct (attempt_tx tx msg c (Acc m1 s1)) as [[[]|e|] [m2 s2]] eqn:Eat;
    destruct Hat as [Hm2 Hh2]; cbn in Hm2, Hh2.
  3: { exists c, (Acc m1 s1). rewrite Eat. auto. }
  all: destruct (consumption_ok m0 m2 tx Hm2 Hf) as (cons & Hc & Hs); cbn; rewrite Hc.
  - exists s2. split_and!; [done| |done..]. by eapply harmless_trans.
  - exists (sp_state sp). rewrite Hsp. by split_and!.
Qed.

(** *** The checks before the execution *)

Lemma wp_meter_price {E} (L : GasMeterLaws BasicGasMeter.t)
    (Q : outcome E (list N) -> Capabilities.t Other -> Prop) s :
  (forall p, Q (Ok p) s) ->
  wp (H0 := L) (fun a => (Ok (BasicGasMeter.gas_price (meter a)), a)) Q s.
Proof. intros HQ g Hg. by split; [|apply HQ]. Qed.

Lemma frame_paid_in s a amount :
  Capabilities.inv s -> amount <= Capabilities.gas_balance s (HolderUser a) ->
  frame staying s
    (Capabilities.paid s (HolderUser a) (HolderModule (Capabilities.bank_id s)) amount).
Proof.
  intros Hinv Ha. split; [|apply CapabilitiesFacts.bank_id_paid| |done|by apply mode_law|done
    |apply Uniqueness.attempts_refl]; [|intros da; by apply staying_law].
  by apply CapabilitiesFacts.inv_paid.
Qed.

(** The uniqueness check rejects the authorization data. *)
Definition attempted (ad : AuthorizationData Sp) (s : Capabilities.t Other) : Prop :=
  Uniqueness.seen (Capabilities.uniqueness s) (auth_credential_id ad) (auth_uniqueness ad)
    (auth_tx_hash ad).

Lemma frame_attempted ad s s' :
  Uniqueness.config_ok -> frame staying s s' -> attempted ad s -> attempted ad s'.
Proof. intros Hcfg [_ _ _ _ _ _ Ha] Hs. by eapply UniquenessFacts.seen_attempts. Qed.

(** The context is resolved without a change of the accounting. *)
Lemma frame_set_accounts s a :
  Capabilities.inv s ->
  frame staying s (Capabilities.set_accounts a s) /\
  Capabilities.reserve (Capabilities.set_accounts a s) = Capabilities.reserve s.
Proof.
  intros [Hr Hi]. split; [|done].
  split; [by split|done| |done|by apply mode_law|done|constructor]. intros da. by apply staying_law.
Qed.

(** The checks after the context is resolved: they record the attempt and reserve
    the maximal fee, when they succeed. *)
Lemma wp_reserve_checked (L : GasMeterLaws BasicGasMeter.t) tx ad ec c s :
  Uniqueness.config_ok -> ec <> SequencerWarmUp ->
  (forall n, auth_uniqueness ad = Nonce n -> n <= u64_max) -> Capabilities.inv s ->
  wp (H0 := L) (
    map_err CheckUniquenessFailed (Capabilities.check_uniqueness ad ec) ;;;
    map_err MarkTxAttemptedFailed (Capabilities.mark_tx_attempted ad) ;;;
    let! gas_price := (fun a => (Ok (BasicGasMeter.gas_price (meter a)), a)) in
    map_err CannotReserveGas (Capabilities.try_reserve_gas tx gas_price c) ;;;
    ret c) (fun o s' => match o with
    | Ok _ => frame staying s s' /\
        Capabilities.reserve s' = Capabilities.reserve s + max_fee tx /\
        ~ attempted ad s /\ attempted ad s'
    | Err _ => True
    | Panic => auth_uniqueness ad = Nonce u64_max end) s.
Proof.
  intros Hcfg Hec Hn Hinv.
  apply CapabilitiesFacts.wp_check_and_mark; [done..|]. intros u Hat.
  set (s1 := Capabilities.set_uniqueness u s).
  assert (Capabilities.inv s1) as Hinv1 by (destruct Hinv; by split).
  assert (frame staying s s1) as Hf1.
  { split; [done|done| |done|by apply mode_law|done|]; [intros da; by apply staying_law|].
    by eapply Uniqueness.attempts_step; [constructor|]. }
  apply wp_bind, wp_meter_price. intros p. wp_red. wp_step. wp_step.
  apply CapabilitiesFacts.wp_reserve_gas; wp_red; [done|done|].
  intros Hpay. wp_step. split_and!.
  - eapply frame_trans; [exact Hf1|]. by apply frame_paid_in.
  - by apply (CapabilitiesFacts.reserve_paid_in s1).
  - by eapply UniquenessFacts.attempt_not_seen.
  - by eapply UniquenessFacts.seen_attempted.
Qed.

Lemma wp_pre_exec_checks (L : GasMeterLaws BasicGasMeter.t) cf tx ad msg raw_tx da ra ec st s :
  Uniqueness.config_ok -> ec <> SequencerWarmUp ->
  (forall n, auth_uniqueness ad = Nonce n -> n <= u64_max) -> Capabilities.inv s ->
  wp (H0 := L) (pre_exec_checks cf tx ad msg raw_tx da ra ec st) (fun o s' => match o with
    | Ok _ => frame staying s s' /\
        Capabilities.reserve s' = Capabilities.reserve s + max_fee tx /\
        ~ attempted ad s /\ attempted ad s'
    | Err _ => True
    | Panic => auth_uniqueness ad = Nonce u64_max end) s.
Proof.
  intros Hcfg Hec Hn Hinv. unfold pre_exec_checks. wp_step. wp_step.
  apply CapabilitiesFacts.wp_resolve_context; wp_red; [done|]. intros c a _ _ _. wp_red.
  wp_step. destruct (pre_flight cf c msg); wp_step; [|done]. wp_red.
  destruct (frame_set_accounts s a Hinv) as [Hf Hr].
  eapply wp_mono; [by apply wp_reserve_checked; [..|apply Hf]|]. intros [c'|e|] s'; [|done..].
  intros (Hf' & Hr' & Hnew & Hat). split_and!; [by eapply frame_trans|by rewrite <- Hr|done|done].
Qed.

(** *** The execution of a checked transaction *)

Lemma calculate_min_le (l r : list N) :
  GasArray.dim_is_less_or_eq (GasArray.calculate_min l r) r = true.
Proof.
  revert r. induction l as [|x l IH]; intros [|y r]; cbn; [done..|].
  destruct (N.ltb_spec y (N.min x y)); [lia|]. apply IH.
Qed.

Lemma dim_le_refl (l : list N) : GasArray.dim_is_less_or_eq l l = true.
Proof. induction l as [|x l IH]; cbn; [done|]. by rewrite N.ltb_irrefl. Qed.

(** The meter of a transaction does not exceed the gas left in the slot. *)
Lemma tx_gas_meter_limit tx price slot_gas :
  let m0 := tx_gas_meter tx price slot_gas in
  within m0 m0 /\ BasicGasMeter.remaining_funds m0 = Some (max_fee tx) /\
  GasArray.dim_is_less_or_eq (BasicGasMeter.initial_gas m0) slot_gas = true /\
  (length (BasicGasMeter.initial_gas m0) <= length slot_gas)%nat.
Proof.
  cbn. split_and!; [apply within_refl|done|..]; destruct (gas_limit tx) as [l|]; cbn.
  - apply calculate_min_le.
  - apply dim_le_refl.
  - unfold GasArray.calculate_min. rewrite length_zip_with. lia.
  - done.
Qed.

(** What one processed transaction does to the state [s]. *)
Definition processed (slot_gas : list N) (ad : AuthorizationData Sp)
    (raw_tx : FullyBakedTx) (s s' : Capabilities.t Other)
    (r : ApplyTxResult + TxProcessingError) : Prop :=
  frame staying s s' /\
  match r with
  | inl res =>
      Capabilities.reserve s + tc_priority_fee (apply_consumption res) <= Capabilities.reserve s' /\
      GasArray.dim_is_less_or_eq (get_gas_used (apply_receipt res)) slot_gas = true /\
      (length (get_gas_used (apply_receipt res)) <= length slot_gas)%nat /\
      executed (apply_receipt res) = Some raw_tx /\ ~ attempted ad s /\ attempted ad s'
  | inr _ => Capabilities.reserve s <= Capabilities.reserve s'
  end.

(** The refund and the reward of the prover are covered by the reserved fee. *)
Lemma settle_fee mode tx m0 c recipient s :
  Capabilities.inv s -> Capabilities.payable mode s -> fee_split_ok m0 tx c ->
  max_fee tx <= Capabilities.reserve s ->
  exists v s1 s2,
    run_infallible (Capabilities.refund_remaining_gas recipient (tc_remaining_funds c)) s =
      Some (tt, s1) /\
    base_fee_value c = Some v /\
    run_infallible (Capabilities.reward_prover v mode) s1 = Some (tt, s2) /\
    operating_mode s1 = operating_mode s /\ frame staying s s2 /\
    Capabilities.reserve s - max_fee tx + tc_priority_fee c <= Capabilities.reserve s2.
Proof.
  intros Hinv Hp (v & Hv & Hsum & _) Hmax.
  destruct (run_refund recipient (tc_remaining_funds c) s) as (s1 & H1 & Hf1 & Hr1);
    [done|lia|].
  destruct (run_reward_prover v mode s1) as (s2 & H2 & Hf2 & Hr2);
    [apply Hf1|by eapply frame_payable|lia|].
  exists v, s1, s2. split_and!; [done..|apply Hf1|by eapply frame_trans|lia].
Qed.

(** Why the execution of a transaction panics: the code of the runtime does, or the
    nonces of the credential are used up. *)
Definition processing_fault (tx : TxDetails) (ad : AuthorizationData Sp) (msg : Decodable) : Prop :=
  execution_panics tx msg \/ auth_uniqueness ad = Nonce u64_max.

Lemma process_ok cf m0 m sp slot_gas auth_tx ad msg raw_tx da ra ec mode st :
  Uniqueness.config_ok -> ec <> SequencerWarmUp ->
  (forall n, auth_uniqueness ad = Nonce n -> n <= u64_max) -> message_wf msg ->
  within m0 m -> sp_checkpoint sp = sp_state sp ->
  Capabilities.inv (sp_state sp) -> Capabilities.payable mode (sp_state sp) ->
  unless (processing_fault (authenticated_tx auth_tx) ad msg)
    (fun '(r, sp', m') => within m0 m' /\
       processed slot_gas ad raw_tx (sp_state sp) (sp_state sp') r)
    (process_tx_and_reward_prover cf m sp slot_gas (auth_tx, ad, msg) raw_tx da ra ec mode st).
Proof.
  intros Hcfg Hec Hn Hmsg Hm Hsp Hinv Hp. set (s := sp_state sp) in *.
  set (tx := authenticated_tx auth_tx). unfold process_tx_and_reward_prover. fold tx s.
  pose proof (wp_pre_exec_checks (within_laws m0) cf tx ad msg raw_tx da ra ec st s Hcfg Hec Hn
    Hinv m Hm) as Hpre.
  destruct (pre_exec_checks cf tx ad msg raw_tx da ra ec st (Acc m s)) as [[c|e|] [m1 s1]];
    destruct Hpre as [Hm1 Hpre]; cbn in Hm1, Hpre; [| |by right].
  2: { split; [done|]. unfold revert, processed. cbn. rewrite Hsp. split; [by apply frame_refl|done]. }
  destruct Hpre as (Hf1 & Hr1 & Hnew & Hat). cbn [meter store].
  destruct (within_info m0 m1 Hm1) as (v & u & -> & _). cbn -[unless tx_gas_meter].
  destruct (tx_gas_meter_limit tx (BasicGasMeter.gas_price m0) slot_gas) as (Hw & Hfunds & Hle & Hlen).
  set (w0 := tx_gas_meter tx _ slot_gas) in *.
  destruct (within_charge w0 w0 u Hw) as (o & w & Hc & Hw' & Ho). unfold BasicGasMeter.charge_gas.
  rewrite Hc. destruct o as [[]|e|]; [| |done].
  - eapply unless_bind.
    { eapply unless_mono; [apply (apply_tx_ok w0 w c tx (raw_tx_hash auth_tx) raw_tx msg
        (with_state s1 sp) Hw' Hfunds Hmsg (frame_inv _ _ _ Hf1))|by left|intros x Hx; exact Hx]. }
    intros [res sp2] (s2 & -> & [Hf2 Hr2] & Hs & Hg & Hex). cbn -[unless] in Hf2, Hr2 |- *.
    assert (frame staying s s2) as Hf02 by by eapply frame_trans.
    destruct (settle_fee mode tx w0 (apply_consumption res) (gas_refund_recipient c) s2)
      as (bv & s3 & s4 & H3 & Hbv & H4 & _ & Hf4 & Hr4);
      [apply Hf2|by eapply frame_payable|done|lia|].
    rewrite H3, Hbv, H4. split; [done|]. cbn. split; [by eapply frame_trans|]. split; [lia|]. rewrite Hg.
    destruct Hs as (_ & _ & _ & Hd & Hl). split_and!; [by eapply dim_le_trans|lia|done|done|].
    eapply frame_attempted; [done|exact Hf4|]. by eapply frame_attempted; [|exact Hf2|].
  - subst w. destruct (consumption_ok w0 w0 tx Hw Hfunds) as (cons & -> & bv & _ & Hsum & _).
    destruct (run_refund (gas_refund_recipient c) (tc_remaining_funds cons) s1)
      as (s2 & -> & Hf2 & Hr2); [apply Hf1|lia|].
    split; [done|]. split; [by eapply frame_trans|]. cbn. lia.
Qed.

(** *** Authentication, processing and the penalty of the sequencer *)

Lemma sub_sub_le (g a : list N) :
  GasArray.dim_is_less_or_eq (zip_with N.sub g a) g = true.
Proof. apply sub_dim_le. Qed.

Lemma charge_fresh g price amount :
  GasArray.dim_is_less_or_eq amount g = true -> GasArray.dot g price <= u128_max ->
  exists m, BasicGasMeter.charge_gas amount (BasicGasMeter.new_with_gas g price) = (Ok tt, m).
Proof.
  intros Ha Hv. unfold BasicGasMeter.charge_gas, BasicGasMeter.charge_gas_inner,
    BasicGasMeter.compute_remaining_gas. cbn.
  rewrite ga_checked_sub, Ha, ga_checked_sub, sub_sub_le, ga_checked_value.
  pose proof (dot_sub_le g (zip_with N.sub g amount) price).
  destruct (N.leb_spec (GasArray.dot (zip_with N.sub g (zip_with N.sub g amount)) price) u128_max);
    [eauto|lia].
Qed.

Lemma zero_dim_le (l r : list N) : GasArray.dim_is_less_or_eq (gas_zero l) r = true.
Proof.
  revert r. induction l as [|x l IH]; intros [|y r]; cbn; [done..|].
  destruct (N.ltb_spec y 0); [lia|]. apply IH.
Qed.

Lemma zero_value (l p : list N) : GasArray.checked_value (gas_zero l) p = Some 0.
Proof.
  rewrite ga_checked_value.
  enough (GasArray.dot (gas_zero l) p = 0) as -> by done.
  revert p. induction l as [|x l IH]; intros [|y p]; cbn; [done..|]. by rewrite IH.
Qed.

(** The gas is below [cost] in some dimensions and not in others: it does not cover
    [cost], and a guard that compares all dimensions does not stop. *)
Definition partly_exhausted (cost gas : list N) : Prop :=
  GasArray.dim_is_less_or_eq gas cost = false /\ GasArray.dim_is_less_or_eq cost gas = false.

(** It takes two dimensions. *)
Lemma one_dimension_covers (cost gas : list N) :
  (length gas <= 1)%nat -> ~ partly_exhausted cost gas.
Proof.
  destruct cost as [|x l], gas as [|y [|? l']]; cbn; try lia; intros _ [H1 H2]; cbn in *; try done.
  destruct (N.ltb_spec x y), (N.ltb_spec y x); try done; try lia.
  by destruct l.
Qed.

(** What the sequencer owes or earns for one transaction, and what is left of
    the reserve. *)
Definition accounted (slot_gas price : list N) (bond : N)
    (raw_tx : FullyBakedTx) (s : Capabilities.t Other) (out : AuthAndProcessOutput) : Prop :=
  let s' := sp_state (out_scratchpad out) in
  frame staying s s' /\
  match out_outcome out with
  | Applied c r => Capabilities.reserve s + tc_priority_fee c <= Capabilities.reserve s' /\
      GasArray.dim_is_less_or_eq (out_gas_used out) slot_gas = true /\
      executed r = Some raw_tx /\ ~ spent s raw_tx /\ spent s' raw_tx
  | _ => GasArray.dim_is_less_or_eq (out_gas_used out) max_tx_check_costs = true /\
      (GasArray.dim_is_less_or_eq (out_gas_used out) slot_gas = true \/
       partly_exhausted max_tx_check_costs slot_gas) /\
      exists v, GasArray.checked_value (out_gas_used out) price = Some v /\ v <= bond /\
        Capabilities.reserve s <= Capabilities.reserve s' + v
  end.

Lemma illegal_accounted slot_gas price bond raw_tx sp reason :
  Capabilities.inv (sp_state sp) ->
  accounted slot_gas price bond raw_tx (sp_state sp)
    (mkOutput (gas_zero max_tx_check_costs) sp (IllegalSequencer reason)).
Proof.
  intros Hinv. split; cbn; [by apply frame_refl|].
  split_and!; [apply zero_dim_le|left; apply zero_dim_le|]. exists 0. split_and!; [apply zero_value|lia|lia].
Qed.

(** The penalty for the gas that a meter reports. *)
Lemma penalty_accounted slot_gas price bond raw_tx mode m0 m sp outcome s :
  within m0 m -> BasicGasMeter.initial_gas m0 = max_tx_check_costs ->
  BasicGasMeter.gas_price m0 = price ->
  GasArray.dim_is_less_or_eq slot_gas max_tx_check_costs = false ->
  GasArray.dot max_tx_check_costs price <= bond ->
  frame staying s (sp_state sp) -> Capabilities.payable mode s ->
  Capabilities.reserve s <= Capabilities.reserve (sp_state sp) ->
  match outcome with Applied _ _ => False | _ => True end ->
  unless (Capabilities.reserve s < bond) (accounted slot_gas price bond raw_tx s)
    (let? info := BasicGasMeter.gas_info m in
     let? pad := penalize_sequencer (BasicGasMeter.gas_value info) mode sp in
     Some (mkOutput (BasicGasMeter.gas_used info) pad outcome)).
Proof.
  intros Hm Hi Hpr Hslot Hbond Hf Hp Hr Hout.
  destruct (within_info m0 m Hm) as (v & u & Hinfo & _ & Hv & Hmax & Hd & Hl & Hle & _).
  rewrite Hi, Hpr in *. rewrite Hinfo. cbn [BasicGasMeter.gas_value BasicGasMeter.gas_used].
  eapply unless_bind.
  { eapply unless_mono; [apply (run_penalize v mode sp); [apply Hf|by eapply frame_payable]
      |lia|intros x Hx; exact Hx]. }
  intros sp' (s' & -> & Hf' & Hr'). split; cbn; [by eapply frame_trans|].
  assert (exists v', GasArray.checked_value u price = Some v' /\ v' <= bond /\
    Capabilities.reserve s <= Capabilities.reserve s' + v') as Hcost.
  { exists v. rewrite ga_checked_value, <- Hv. apply N.leb_le in Hmax. rewrite Hmax.
    split_and!; [done|lia|lia]. }
  assert (GasArray.dim_is_less_or_eq u slot_gas = true \/
    partly_exhausted max_tx_check_costs slot_gas) as Hfit.
  { destruct (GasArray.dim_is_less_or_eq max_tx_check_costs slot_gas) eqn:Hc; [|by right].
    left. by eapply dim_le_trans. }
  by destruct outcome.
Qed.

(** Why the processing of a transaction panics. *)
Definition tx_fault (raw_tx : FullyBakedTx) : Prop :=
  runtime_panics raw_tx \/ auth_uniqueness (authorization_of raw_tx) = Nonce u64_max.

Lemma auth_and_process_ok cf sp slot_gas raw_tx da ra price ec bond mode st :
  Uniqueness.config_ok -> ec <> SequencerWarmUp ->
  GasArray.dim_is_less_or_eq process_tx_pre_exec_checks_gas max_tx_check_costs = true ->
  sp_checkpoint sp = sp_state sp -> Capabilities.inv (sp_state sp) ->
  Capabilities.payable mode (sp_state sp) ->
  unless (tx_fault raw_tx \/ Capabilities.reserve (sp_state sp) < bond_amount bond)
    (accounted slot_gas price (bond_amount bond) raw_tx (sp_state sp))
    (auth_and_process_tx_and_incentivize_sequencer cf sp slot_gas raw_tx da ra price ec bond mode
       st).
Proof.
  intros Hcfg Hec Hgs Hsp Hinv Hp.
  unfold auth_and_process_tx_and_incentivize_sequencer. rewrite ga_checked_value.
  destruct (N.leb_spec (GasArray.dot max_tx_check_costs price) u128_max) as [Hmax|_];
    [|by apply illegal_accounted].
  destruct (N.ltb_spec (bond_amount bond) (GasArray.dot max_tx_check_costs price)) as [_|Hbond];
    [by apply illegal_accounted|].
  destruct (GasArray.dim_is_less_or_eq slot_gas max_tx_check_costs) eqn:Hlim;
    [by apply illegal_accounted|].
  destruct (charge_fresh max_tx_check_costs price process_tx_pre_exec_checks_gas Hgs Hmax)
    as [m1 Hm1].
  set (m0 := BasicGasMeter.new_with_gas max_tx_check_costs price) in *.
  assert (within m0 m1) as Hw.
  { destruct (within_charge m0 m0 process_tx_pre_exec_checks_gas) as (o & m' & Hc & Hw & _);
      [apply within_refl|].
    unfold BasicGasMeter.charge_gas in Hm1. rewrite Hc in Hm1. by simplify_eq. }
  rewrite Hm1. pose proof (authenticate_law (within_laws m0) raw_tx (sp_state sp) m1 Hw) as Hauth.
  destruct (authenticate raw_tx (Acc m1 (sp_state sp))) as [[[[atx ad] msg]|e|] [m2 s2]] eqn:Eauth;
    destruct Hauth as (Hw2 & Hs2 & Hauth); cbn in Hw2, Hs2; subst s2.
  - destruct Hauth as (Hhash & Hmsg & -> & Hn). cbn [fst snd meter store]. rewrite bool_decide_eq_true_2 by done.
    eapply unless_bind.
    { eapply unless_mono; [apply (process_ok cf m0 m2 (with_state (sp_state sp) sp) slot_gas atx
        (authorization_of raw_tx) msg raw_tx da ra ec mode st); done| |intros x Hx; exact Hx].
      intros [Hx|Hx]; left; [left|by right]. exists (Acc m1 (sp_state sp)). by rewrite Eauth. }
    intros [[r sp'] m3] (Hw3 & Hf & Hr). cbn -[unless] in Hf, Hr |- *. destruct r as [res|e].
    + destruct Hr as (Hr & Hd & _ & Hex). by split_and!.
    + eapply unless_mono; [by apply (penalty_accounted slot_gas price (bond_amount bond) raw_tx mode
        m0 m3 sp' (OutcomeSkipped e (raw_tx_hash atx) raw_tx) (sp_state sp))|by right|done].
  - cbn [fst snd meter store].
    eapply unless_mono; [apply (penalty_accounted slot_gas price (bond_amount bond) raw_tx mode m0
      m2 (with_state (sp_state sp) sp)
      match e with
      | FatalError tx_hash => OutcomeSkipped AuthenticationFailed tx_hash raw_tx
      | AuthOutOfGas => IllegalSequencer SequencerOutOfGasForAuthentication
      end (sp_state sp)); [done|done|done|done|done|by apply frame_refl|done|done|by destruct e]
      |by right|done].
  - left. left. exists (Acc m1 (sp_state sp)). by rewrite Eauth.
Qed.

(** *** The loop of a batch of a standard sequencer *)

(** The meter of the slot, for a sequencer that is not the preferred one of the
    slot: what is left is at most what was left before. *)
Record slot_within (da : DaAddress) (m0 m : SlotGasMeter.t DaAddress) : Prop := mkSlotWithin {
  sw_standard : SlotGasMeter.is_preferred m da = false;
  sw_preferred : SlotGasMeter.preferred_sequencer m = SlotGasMeter.preferred_sequencer m0;
  sw_initial : SlotGasMeter.initial_slot_gas m = SlotGasMeter.initial_slot_gas m0;
  sw_left : GasArray.dim_is_less_or_eq (SlotGasMeter.remaining_total_slot_gas m)
    (SlotGasMeter.remaining_total_slot_gas m0) = true;
  sw_length : (length (SlotGasMeter.remaining_total_slot_gas m) <=
    length (SlotGasMeter.remaining_total_slot_gas m0))%nat
}.

Lemma slot_within_refl da m :
  SlotGasMeter.is_preferred m da = false -> slot_within da m m.
Proof. intros. split; [done|done|done|apply dim_le_refl|done]. Qed.

Lemma slot_charge da m0 m gas_used :
  slot_within da m0 m ->
  GasArray.dim_is_less_or_eq gas_used (SlotGasMeter.remaining_slot_gas m da) = true ->
  exists m', SlotGasMeter.charge_gas gas_used da m = (Ok tt, m') /\ slot_within da m0 m'.
Proof.
  intros [Hs Hp Hi Hl Hn]. unfold SlotGasMeter.remaining_slot_gas, SlotGasMeter.charge_gas,
    SlotGasMeter.charge_total. rewrite Hs, ga_checked_sub. intros ->.
  eexists. split; [done|]. split; cbn; [done|done|done| |].
  - eapply dim_le_trans; [|apply sub_dim_le|exact Hl]. rewrite length_zip_with. lia.
  - rewrite length_zip_with. lia.
Qed.

Lemma used_mono (i r r' : list N) :
  GasArray.dim_is_less_or_eq r' r = true ->
  GasArray.dim_is_less_or_eq (zip_with N.sub i r) (zip_with N.sub i r') = true.
Proof.
  revert r r'. induction i as [|x i IH]; intros [|y r] [|z r']; cbn; try done.
  destruct (N.ltb_spec y z); [done|]. destruct (N.ltb_spec (x - z) (x - y)); [lia|]. apply IH.
Qed.

(** The gas used in the batch is the difference of the totals. *)
Lemma slot_used da m0 m :
  slot_within da m0 m ->
  GasArray.dim_is_less_or_eq (SlotGasMeter.remaining_total_slot_gas m0)
    (SlotGasMeter.initial_slot_gas m0) = true ->
  exists u0 u g, SlotGasMeter.total_gas_used m0 = Some u0 /\
    SlotGasMeter.total_gas_used m = Some u /\ GasArray.checked_sub u u0 = Some g.
Proof.
  intros [_ _ Hi Hl Hn] H0. unfold SlotGasMeter.total_gas_used. rewrite !ga_checked_sub, Hi, H0.
  rewrite (dim_le_trans _ _ _ Hn Hl H0).
  eexists _, _, _. split_and!; [done|done|]. by rewrite ga_checked_sub, used_mono.
Qed.

(** The executed transactions of [rs] are distinct; none was attempted in [s0]
    and all of them are in [s]. *)
Definition once (s0 s : Capabilities.t Other) (rs : list TransactionReceipt) : Prop :=
  NoDup (omap executed rs) /\
  forall t, t ∈ omap executed rs -> ~ spent s0 t /\ spent s t.

Lemma spent_frame s s' t : Uniqueness.config_ok -> frame staying s s' -> spent s t -> spent s' t.
Proof. apply frame_attempted. Qed.

Lemma once_frame s0 s s' rs :
  Uniqueness.config_ok -> frame staying s s' -> once s0 s rs -> once s0 s' rs.
Proof.
  intros Hcfg Hf [Hnd Hin]. split; [done|]. intros t Ht. destruct (Hin t Ht). split; [done|].
  by eapply spent_frame.
Qed.

(** The receipt that a transaction adds. *)
Lemma once_provisional slot_gas price bond raw_tx s0 s out o rs :
  Uniqueness.config_ok -> frame staying s0 s -> accounted slot_gas price bond raw_tx s out ->
  provisional_outcome price out = Some o -> once s0 s rs ->
  once s0 (commit (out_scratchpad out))
    (match execution_status o with Executed r => rs ++ [r] | _ => rs end).
Proof.
  intros Hcfg Hf0 (Hf & Hout) Ho Hrs. pose proof (once_frame _ _ _ _ Hcfg Hf Hrs) as Hrs'.
  unfold provisional_outcome in Ho. unfold commit.
  destruct (out_outcome out) as [e|e h t|c r];
    [destruct (GasArray.checked_value (out_gas_used out) price); simplify_eq..|];
    [exact Hrs'| |simplify_eq]; cbn.
  - unfold once. rewrite omap_app. cbn. by rewrite app_nil_r.
  - destruct Hout as (_ & _ & Hex & Hnew & Hsp), Hrs as [_ Hold], Hrs' as [Hnd Hin].
    unfold once. rewrite omap_app. cbn. rewrite Hex. split.
    + apply NoDup_app. split_and!; [done| |apply NoDup_singleton].
      intros t Ht ->%list_elem_of_singleton. by apply Hnew, Hold.
    + intros t [Ht| ->%list_elem_of_singleton]%elem_of_app; [by apply Hin|]. split; [|done].
      intros H0. by eapply Hnew, spent_frame.
Qed.

(** After [k] transactions: every penalty is covered by a share of the bond, and
    the reserve has what the accumulated sums say. *)
Record batch_inv (da : DaAddress) (s0 : Capabilities.t Other)
    (m0 : SlotGasMeter.t DaAddress) (share k : N) (b : BatchState) : Prop := mkBatchInv {
  bi_clean : sp_checkpoint (bs_scratchpad b) = sp_state (bs_scratchpad b);
  bi_frame : frame staying s0 (sp_state (bs_scratchpad b));
  bi_slot : slot_within da m0 (bs_slot_gas_meter b);
  bi_bond : bs_bond_per_tx b = StandardBond share;
  bi_penalty : bs_penalty b <= k * share;
  bi_reserve : Capabilities.reserve s0 + bs_reward b <=
    Capabilities.reserve (sp_state (bs_scratchpad b)) + bs_penalty b;
  bi_start : Capabilities.reserve s0 <= u128_max;
  bi_count : N.of_nat (length (bs_tx_receipts b)) + N.of_nat (length (bs_ignored b)) = k
}.

(** What the loop panics on: gas of the slot that is left in some dimensions only,
    or the transaction itself. *)
Definition stopping (da : DaAddress) (raw_tx : FullyBakedTx) (b : BatchState) : Prop :=
  partly_exhausted max_tx_check_costs (SlotGasMeter.remaining_slot_gas (bs_slot_gas_meter b) da) \/
  tx_fault raw_tx.

(** The body of the loop without the receipts. *)
Lemma settle_ok da s0 m0 share k b raw_tx out price o :
  batch_inv da s0 m0 share k b -> (k + 1) * share <= Capabilities.reserve s0 ->
  accounted (SlotGasMeter.remaining_slot_gas (bs_slot_gas_meter b) da) price share raw_tx
    (sp_state (bs_scratchpad b)) out ->
  provisional_outcome price out = Some o ->
  unless (stopping da raw_tx b)
    (fun b' => exists m r p, b' = mkBatchState (to_tx_scratchpad (commit (out_scratchpad out)))
         m r p (bs_bond_per_tx b) (bs_tx_receipts b) (bs_ignored b) /\
       frame staying s0 (commit (out_scratchpad out)) /\ slot_within da m0 m /\
       p <= (k + 1) * share /\
       Capabilities.reserve s0 + r <= Capabilities.reserve (commit (out_scratchpad out)) + p)
    (settle b (out_gas_used out) da o (commit (out_scratchpad out))).
Proof.
  intros [_ Hf Hs _ Hp Hr Hst _] Hk (Hf' & Hout) Ho. unfold settle.
  destruct (GasArray.dim_is_less_or_eq (out_gas_used out)
    (SlotGasMeter.remaining_slot_gas (bs_slot_gas_meter b) da)) eqn:Hgas.
  2: { unfold SlotGasMeter.charge_gas, SlotGasMeter.charge_total. rewrite (sw_standard _ _ _ Hs).
       unfold SlotGasMeter.remaining_slot_gas in Hgas. rewrite (sw_standard _ _ _ Hs) in Hgas.
       rewrite ga_checked_sub, Hgas. left. unfold SlotGasMeter.remaining_slot_gas in *.
       rewrite (sw_standard _ _ _ Hs) in *. destruct (out_outcome out); naive_solver congruence. }
  destruct (slot_charge da m0 _ _ Hs Hgas) as (m & Hc & Hs'). rewrite Hc.
  assert (frame staying s0 (commit (out_scratchpad out))) as Hf2 by by eapply frame_trans.
  pose proof (CapabilitiesFacts.gas_balance_bound (commit (out_scratchpad out))
    (HolderModule (Capabilities.bank_id (commit (out_scratchpad out)))) (frame_inv _ _ _ Hf2))
    as Hmax. fold (Capabilities.reserve (commit (out_scratchpad out))) in Hmax.
  assert (Capabilities.reserve s0 + (bs_reward b + po_reward o) <=
      Capabilities.reserve (commit (out_scratchpad out)) + (bs_penalty b + po_penalty o) /\
    bs_penalty b + po_penalty o <= (k + 1) * share) as [Hr' Hp'].
  { unfold provisional_outcome in Ho. unfold commit.
    destruct (out_outcome out);
      [destruct Hout as (_ & _ & v & Hv & Hle & Hres); rewrite Hv in Ho..|];
      simplify_eq; cbn [po_reward po_penalty out_of_funds penalize reward] in *;
      unfold Amount.ZERO; lia. }
  unfold Amount.checked_add.
  destruct (checked_add u128_max (bs_reward b) (po_reward o)) as [r|] eqn:Er; checked_simpl; [|lia].
  destruct (checked_add u128_max (bs_penalty b) (po_penalty o)) as [p|] eqn:Ep; checked_simpl;
    [|lia].
  subst. cbn. eauto 10.
Qed.

Lemma accounted_outcome slot_gas price bond raw_tx s out :
  accounted slot_gas price bond raw_tx s out -> exists o, provisional_outcome price out = Some o.
Proof.
  intros (_ & Ha). unfold provisional_outcome.
  destruct (out_outcome out); [destruct Ha as (_ & _ & v & -> & _); eauto..|eauto].
Qed.

Lemma apply_batch_tx_ok da ra price mode s0 m0 share k idx raw_tx b :
  Uniqueness.config_ok ->
  GasArray.dim_is_less_or_eq process_tx_pre_exec_checks_gas max_tx_check_costs = true ->
  Capabilities.payable mode s0 ->
  batch_inv da s0 m0 share k b -> (k + 1) * share <= Capabilities.reserve s0 ->
  unless (stopping da raw_tx b) (batch_inv da s0 m0 share (k + 1))
    (apply_batch_tx no_op_control_flow da ra price Node mode false idx raw_tx b).
Proof.
  intros Hcfg Hgs Hp Hb Hk. pose proof Hb as [Hcl Hf Hs Hbond Hpen Hres Hst Hcnt].
  unfold apply_batch_tx. eapply unless_bind.
  { eapply unless_mono; [apply (auth_and_process_ok no_op_control_flow (bs_scratchpad b)
      (SlotGasMeter.remaining_slot_gas (bs_slot_gas_meter b) da) raw_tx da ra price Node
      (bs_bond_per_tx b) mode NonPreferred); [done|done|done|done|apply Hf|by eapply frame_payable]
      | |intros x Hx; exact Hx].
    intros [Hx|Hx]; [by right|]. rewrite Hbond in Hx. cbn in Hx. lia. }
  intros out Hacc. rewrite Hbond in Hacc. cbn [bond_amount] in Hacc.
  destruct (accounted_outcome _ _ _ _ _ _ Hacc) as [o Ho]. rewrite Ho.
  pose proof (settle_ok da s0 m0 share k b raw_tx out price o Hb Hk Hacc Ho) as Hset.
  cbn [no_op_control_flow post_tx]. destruct (execution_status o); cbn [is_sequencer];
    (eapply unless_bind; [exact Hset|]); intros b' (m & rew & pen & -> & Hf' & Hs' & Hp' & Hr');
    split; cbn; try done; rewrite ?length_app; cbn; lia.
Qed.

(** *** The loop *)
Section Loop.
Variables (cf : InjectedControlFlow RT) (da : DaAddress) (ra : Address) (price : list N)
  (ec : ExecutionContext) (mode : OperatingMode) (pref : bool).

(** The transaction of [txs] at which the loop panics, and why. *)
Definition stops_at (C : FullyBakedTx -> BatchState -> Prop) (idx : N) (txs : list FullyBakedTx)
    (b : BatchState) : Prop :=
  exists pre tx post b', txs = pre ++ tx :: post /\
    apply_batch_txs cf da ra price ec mode pref idx pre b = Some b' /\
    apply_batch_tx cf da ra price ec mode pref (idx + N.of_nat (length pre)) tx b' = None /\
    C tx b'.

Lemma batch_loop (C : FullyBakedTx -> BatchState -> Prop) (I : N -> BatchState -> Prop) n :
  (forall k idx tx b, k < n -> I k b ->
     unless (C tx b) (I (k + 1)) (apply_batch_tx cf da ra price ec mode pref idx tx b)) ->
  forall txs k idx b, k + N.of_nat (length txs) <= n -> I k b ->
    unless (stops_at C idx txs b) (I (k + N.of_nat (length txs)))
      (apply_batch_txs cf da ra price ec mode pref idx txs b).
Proof.
  intros Hstep txs. induction txs as [|tx txs IH]; intros k idx b Hk Hb.
  { cbn. by rewrite N.add_0_r. }
  cbn [length] in *. rewrite Nat2N.inj_succ in *. cbn [apply_batch_txs].
  pose proof (Hstep k idx tx b ltac:(lia) Hb) as H1.
  destruct (apply_batch_tx cf da ra price ec mode pref idx tx b) as [b1|] eqn:E1; cbn in H1.
  2: { exists [], tx, txs, b. cbn. by rewrite N.add_0_r. }
  replace (k + N.succ (N.of_nat (length txs))) with (k + 1 + N.of_nat (length txs)) by lia.
  eapply unless_mono; [apply (IH (k + 1) (idx + 1) b1); [lia|done]| |done].
  intros (pre & tx' & post & b' & -> & Hpre & Hnone & HC).
  exists (tx :: pre), tx', post, b'. cbn [apply_batch_txs length app]. rewrite E1.
  split_and!; [done|done| |done].
  by replace (idx + N.of_nat (S (length pre))) with (idx + 1 + N.of_nat (length pre)) by lia.
Qed.
End Loop.

(** Whether a sequencer is the preferred one. *)
Lemma run_is_preferred da s :
  run_infallible (Capabilities.is_preferred_sequencer da) s =
    Some (bool_decide (SequencerRegistry.preferred_sequencer
            (Capabilities.sequencer_registry s) = Some da), s).
Proof.
  destruct (run_infallible_ok (Capabilities.is_preferred_sequencer da)
    (fun x s' => x = bool_decide (SequencerRegistry.preferred_sequencer
       (Capabilities.sequencer_registry s) = Some da) /\ s' = s) s)
    as (x & s' & Hr & -> & ->); [|done].
  pose proof unmetered_cannot_fail as Hcf.
  unfold Capabilities.is_preferred_sequencer, Capabilities.preferred_sequencer,
    Capabilities.on_registry, SequencerRegistry.preferred_sequencer_infallible.
  wp_step. apply wp_zoom. wp_step. wp_step; [no_fail|]. wp_step.
  split; [done|]. apply CapabilitiesFacts.set_registry_id.
Qed.

(** The bond of each transaction, and the variables of the loop at its beginning. *)
Definition share_of (bond : N) (txs : list FullyBakedTx) : N :=
  bond / N.max (N.of_nat (length txs)) 1.

Definition first_state (s : Capabilities.t Other) (m : SlotGasMeter.t DaAddress)
    (bond : SequencerBondForTx) : BatchState :=
  mkBatchState (to_tx_scratchpad s) m Amount.ZERO Amount.ZERO bond [] [].

(** The transaction at which a batch of a standard sequencer panics, and why. *)
Definition batch_fault (s : Capabilities.t Other) (m : SlotGasMeter.t DaAddress) (batch : Batch)
    (da : DaAddress) (bond : N) (price : list N) (mode : OperatingMode) : Prop :=
  stops_at no_op_control_flow da (batch_sequencer_address batch) price Node mode false
    (stopping da) 0 (batch_txs batch)
    (first_state s m (StandardBond (share_of bond (batch_txs batch)))).

Lemma once_nil s : once s s [].
Proof. split; [constructor|]. by intros t Ht%elem_of_nil. Qed.

(** A batch of a standard sequencer. *)
Lemma apply_batch_ok s m batch da bond price mode :
  Uniqueness.config_ok ->
  GasArray.dim_is_less_or_eq process_tx_pre_exec_checks_gas max_tx_check_costs = true ->
  GasArray.dim_is_less_or_eq (SlotGasMeter.remaining_total_slot_gas m)
    (SlotGasMeter.initial_slot_gas m) = true ->
  SlotGasMeter.is_preferred m da = false ->
  SequencerRegistry.preferred_sequencer (Capabilities.sequencer_registry s) <> Some da ->
  operating_mode s = Some mode -> Capabilities.payable mode s ->
  Capabilities.inv s -> staying s da -> bond <= Capabilities.reserve s ->
  unless (batch_fault s m batch da bond price mode)
    (fun '(r, s', m') => frame staying s s' /\ slot_within da m m' /\
       Capabilities.reserve s <= Capabilities.reserve s' + bond /\
       accumulated_penalty (inner_rewards r) <= bond /\
       (length (tx_receipts r) + length (ignored_tx_receipts r) = length (batch_txs batch))%nat)
    (apply_batch no_op_control_flow s m batch da bond price Node).
Proof.
  intros Hcfg Hgs Hle Hpref Hnp Hmode Hp Hinv Hreg Hbond.
  unfold apply_batch. rewrite run_is_preferred, bool_decide_eq_false_2 by done. rewrite Hmode.
  cbn [known_remaining_txs]. set (n := N.of_nat (length (batch_txs batch))).
  unfold Amount.checked_div, checked_div. destruct (N.eqb_spec (N.max n 1) 0); [lia|].
  fold (share_of bond (batch_txs batch)). set (share := share_of bond (batch_txs batch)).
  assert (n * share <= bond) as Hshare.
  { etransitivity; [|apply (N.Div0.mul_div_le bond (N.max n 1))].
    apply N.mul_le_mono_r. lia. }
  fold (first_state s m (StandardBond share)).
  destruct (slot_used da m m (slot_within_refl _ _ Hpref) Hle) as (u0 & _ & _ & Hu0 & _). rewrite Hu0.
  eapply unless_bind.
  { apply (batch_loop no_op_control_flow da (batch_sequencer_address batch) price Node mode false
      (stopping da) (batch_inv da s m share) n) with (k := 0); [|fold n; lia|].
    - intros k idx tx b Hk Hb. apply apply_batch_tx_ok; [done..|]. nia.
    - split; cbn; unfold Amount.ZERO; try lia; try done.
      + by apply frame_refl.
      + by apply slot_within_refl.
      + by apply CapabilitiesFacts.gas_balance_bound. }
  intros b [Hcl Hf Hs _ Hpen Hres _ Hcnt]. fold n in Hpen, Hcnt.
  destruct (slot_used da m _ Hs Hle) as (u0' & u & g & Hu0' & Hu & Hg).
  rewrite Hu0 in Hu0'. injection Hu0' as <-. rewrite Hu, Hg.
  eapply unless_bind; [apply run_infallible_unless with (P := fun _ s' =>
      frame staying (commit (bs_scratchpad b)) s' /\
      Capabilities.reserve (commit (bs_scratchpad b)) <=
        Capabilities.reserve s' + (bond - bs_penalty b + bs_reward b))|].
  { apply (CapabilitiesFacts.wp_return_escrow unmetered_cannot_fail); [apply Hf| |].
    - intros []. cbn. split; [by apply staying_registered, Hf|]. unfold commit. lia.
    - cbn. intros s' Hup. pose proof (CapabilitiesFacts.tu_reserve _ _ _ Hup).
      split; [by eapply frame_topped_up|lia]. }
  intros [[] s'] [Hf' Hr']. cbn. unfold commit in *.
  split_and!; [by eapply frame_trans|done|lia|lia|lia].
Qed.

(** *** Any sequencer: no transaction is executed twice *)

Record once_inv (s0 : Capabilities.t Other) (b : BatchState) : Prop := mkOnceInv {
  oi_clean : sp_checkpoint (bs_scratchpad b) = sp_state (bs_scratchpad b);
  oi_frame : frame staying s0 (sp_state (bs_scratchpad b));
  oi_once : once s0 (sp_state (bs_scratchpad b)) (bs_tx_receipts b)
}.

Lemma settle_keeps b gas_used da o checkpoint b' :
  settle b gas_used da o checkpoint = Some b' ->
  bs_scratchpad b' = to_tx_scratchpad checkpoint /\ bs_tx_receipts b' = bs_tx_receipts b.
Proof.
  unfold settle. destruct (SlotGasMeter.charge_gas gas_used da (bs_slot_gas_meter b)) as [[] m];
    [|done..]. destruct (Amount.checked_add _ _); [|done]. destruct (Amount.checked_add _ _); [|done].
  intros [= <-]. done.
Qed.

Lemma apply_batch_tx_once da ra price ec mode pref s0 idx raw_tx b :
  Uniqueness.config_ok -> ec <> SequencerWarmUp ->
  GasArray.dim_is_less_or_eq process_tx_pre_exec_checks_gas max_tx_check_costs = true ->
  Capabilities.payable mode s0 -> once_inv s0 b ->
  unless True (once_inv s0)
    (apply_batch_tx no_op_control_flow da ra price ec mode pref idx raw_tx b).
Proof.
  intros Hcfg Hec Hgs Hp [Hcl Hf Hon]. unfold apply_batch_tx. eapply unless_bind.
  { eapply unless_mono; [apply (auth_and_process_ok no_op_control_flow (bs_scratchpad b)
      (SlotGasMeter.remaining_slot_gas (bs_slot_gas_meter b) da) raw_tx da ra price ec
      (bs_bond_per_tx b) mode (if pref then Preferred else NonPreferred));
      [done|done|done|done|apply Hf|by eapply frame_payable]|done|intros x Hx; exact Hx]. }
  intros out Hacc. destruct (accounted_outcome _ _ _ _ _ _ Hacc) as [o Ho]. rewrite Ho.
  pose proof (once_provisional _ price _ raw_tx s0 _ out o _ Hcfg Hf Hacc Ho Hon) as Hon'.
  assert (frame staying s0 (commit (out_scratchpad out))) as Hf'
    by (eapply frame_trans; [done|apply Hacc]).
  cbn [no_op_control_flow post_tx]. destruct (execution_status o).
  - destruct (settle b _ da o _) as [b'|] eqn:Hset; [|done].
    apply settle_keeps in Hset as [Hsp Hrs]. split; cbn; rewrite ?Hsp, ?Hrs; done.
  - destruct (is_sequencer ec); [by split|].
    destruct (settle b _ da o _) as [b'|] eqn:Hset; [|done].
    apply settle_keeps in Hset as [Hsp Hrs].
    destruct pref; [destruct (GasArray.checked_value _ _); [|done]|];
      split; cbn; rewrite ?Hsp, ?Hrs; done.
Qed.

Lemma apply_batch_once s m batch da bond price ec mode :
  Uniqueness.config_ok -> ec <> SequencerWarmUp ->
  GasArray.dim_is_less_or_eq process_tx_pre_exec_checks_gas max_tx_check_costs = true ->
  operating_mode s = Some mode -> Capabilities.payable mode s -> Capabilities.inv s ->
  unless True (fun '(r, s', _) => frame staying s s' /\ once s s' (tx_receipts r))
    (apply_batch no_op_control_flow s m batch da bond price ec).
Proof.
  intros Hcfg Hec Hgs Hmode Hp Hinv. unfold apply_batch. rewrite run_is_preferred, Hmode.
  set (pref := bool_decide _).
  match goal with |- unless _ _ (match ?o with Some _ => _ | None => _ end) =>
    destruct o as [bond_per_tx|]; [|done] end.
  destruct (SlotGasMeter.total_gas_used m) as [u0|]; [|done].
  eapply unless_bind.
  { eapply unless_mono; [apply (batch_loop no_op_control_flow da (batch_sequencer_address batch)
      price ec mode pref (fun _ _ => True) (fun _ => once_inv s)
      (N.of_nat (length (batch_txs batch)))) with (k := 0)|done|intros x Hx; exact Hx].
    - intros k idx tx b _ Hb. by apply apply_batch_tx_once.
    - lia.
    - split; cbn; [done|by apply frame_refl|apply once_nil]. }
  intros b [_ Hf Hon]. destruct (SlotGasMeter.total_gas_used (bs_slot_gas_meter b)); [|done].
  destruct (GasArray.checked_sub _ _); [|done].
  eapply unless_bind; [apply run_infallible_unless with (P := fun _ s' =>
      frame staying (commit (bs_scratchpad b)) s')|].
  { apply (CapabilitiesFacts.wp_return_escrow unmetered_cannot_fail); [apply Hf|done|].
    intros s' Hup. by eapply frame_topped_up. }
  intros [[] s'] Hf'. cbn. split; [by eapply frame_trans|by eapply once_frame].
Qed.
End Facts.
End StfFacts.
