(* ===== verification/StfProperties.v ===== *)
(** * The properties of batch processing

    A concrete rollup ([StfDemo]: the bank, the sequencer registry and the accounts
    module with an authenticator) that implements the contract [RuntimeLaws], and
    the theorems on [StfBlueprint]. *)

From Stdlib Require Import NArith Lia.
From stdpp Require Import base numbers gmap strings option list.
From S2P Require Import Prelude Ints Gas StateAccess Bank Uniqueness Accounts SequencerRegistry.
From S2P Require Import Capabilities StfBlueprint StfProofs.

(** ** A concrete rollup *)
Module StfDemo.
Import Stf.

(** The rollup of [test_spec] with gas of one or of two dimensions. *)
Definition demo_gas (unit_cost : list N) : GasConstants :=
  let zero := map (fun _ => 0) unit_cost in
  mkGasConstants unit_cost zero zero zero zero zero zero zero.

Definition demo_spec (unit_cost : list N) : Spec := {|
  Address := N;
  DaAddress := N;
  address_as_ref := fun a => [a];
  hasher := fun l => take 32 (l ++ repeat 0 32);
  gas_constants := demo_gas unit_cost;
  codec := test_codec;
  config_gas_token_id := repeat 7 32
|}.

Definition demo_uniqueness : UniquenessConfig :=
  {| PAST_TRANSACTION_GENERATIONS := 3; MAX_STORED_TX_HASHES_PER_CREDENTIAL := 4 |}.

Definition demo_gas_spec (unit_cost : list N) : GasSpec := {|
  max_tx_check_costs := map (fun c => 100 * c) unit_cost;
  process_tx_pre_exec_checks_gas := map (fun c => 10 * c) unit_cost
|}.

Section Demo.
Variable unit_cost : list N.
#[local] Existing Instance RegistryDemo.demo_constants.
#[local] Instance Sp_demo : Spec := demo_spec unit_cost.
#[local] Instance Cfg_demo : UniquenessConfig := demo_uniqueness.
#[local] Instance GS_demo : GasSpec := demo_gas_spec unit_cost.

(** The runtime has the bank, the sequencer registry and the accounts module; the
    rest of its state is the visible slot number.  Authentication costs 50 units of
    gas.  A transaction is [credential; generation; to; amount] for a payment, or
    [credential; generation; kind; x; y] for a call of another module, and anything
    else is rejected. *)
Inductive DemoCall : Type :=
| BankCall (m : Bank.CallMessage)
| RegistryCall (m : SequencerRegistry.CallMessage)
| AccountsCall (m : Accounts.CallMessage).

Inductive DemoError : Type :=
| BankError (e : Bank.Error)
| RegistryError (e : SequencerRegistry.RegistrationError)
| AccountsError (e : Accounts.Error).

Definition demo_decode (data : list N) : option DemoCall :=
  match data with
  | [_; _; to; amount] =>
      if amount <=? u128_max
      then Some (BankCall (Bank.CallTransfer to (Bank.mkCoins amount config_gas_token_id)))
      else None
  | [_; _; 0; da; amount] => Some (RegistryCall (SequencerRegistry.Register da amount))
  | [_; _; 1; da; amount] => Some (RegistryCall (SequencerRegistry.Deposit da amount))
  | [_; _; 2; da; _] => Some (RegistryCall (SequencerRegistry.InitiateWithdrawal da))
  | [_; _; 3; da; _] => Some (RegistryCall (SequencerRegistry.Withdraw da))
  | [_; _; 4; x; y] => Some (AccountsCall (Accounts.InsertCredentialId [x; y]))
  | _ => None
  end.

Definition demo_authorization (raw_tx : FullyBakedTx) : AuthorizationData Sp_demo :=
  let field i := default 0 (tx_data raw_tx !! i) in
  mkAuthorizationData Sp_demo (Generation (field 1%nat)) (tx_data raw_tx) [field 0%nat]
    (field 0%nat).

Definition demo_authenticate (raw_tx : FullyBakedTx)
  : M (acc BasicGasMeter.t (Capabilities.t N)) AuthenticationError
      (AuthenticatedTransactionAndRawHash * AuthorizationData Sp_demo * DemoCall) :=
  map_err (fun _ => AuthOutOfGas)
    (on_meter (charge_gas (G := BasicGasMeter.t) (map (fun c => 50 * c) unit_cost))) ;;;
  let! m := ok_or (demo_decode (tx_data raw_tx)) (FatalError (tx_data raw_tx)) in
  ret (mkAuthenticatedTx (tx_data raw_tx) (mkTxDetails 1000 1000 None 1),
       demo_authorization raw_tx, m).

Definition demo_dispatch (m : DemoCall) (c : Context Sp_demo)
  : M (acc BasicGasMeter.t (Capabilities.t N)) DemoError unit :=
  match m with
  | BankCall m => map_err BankError (Capabilities.on_bank (Bank.call m c))
  | RegistryCall m =>
      let! slot := gets Capabilities.other in
      map_err RegistryError (Capabilities.on_registry (SequencerRegistry.call slot m c))
  | AccountsCall m => map_err AccountsError (Capabilities.on_accounts (Accounts.call m c))
  end.

#[local] Instance RT_demo : Runtime Sp_demo := {|
  Other := N;
  Decodable := DemoCall;
  SequencingData := unit;
  ModuleError := DemoError;
  authenticate := demo_authenticate;
  compute_tx_hash := fun raw_tx => Some (tx_data raw_tx);
  operating_mode := fun _ => Some Zk;
  is_unauthorized_system_tx := fun _ _ => ret false;
  decode_sequencing_data := fun _ => None;
  handle_sequencing_data := fun _ _ => ret tt;
  pre_dispatch_tx_hook := fun _ => ret tt;
  dispatch_call := demo_dispatch;
  post_dispatch_tx_hook := fun _ _ => ret tt
|}.

Definition demo_bank : Bank.t :=
  store (snd (Bank.init_module (G := unit)
    (Bank.mkBankConfig (Some (Bank.mkGasTokenConfig "gas" None
       [(1 : @Address Sp_demo, 100000); (2 : @Address Sp_demo, 50000)] [] None)) [])
    (Acc tt (Bank.empty (repeat 3 32))))).

(** The sequencer with the DA address 71 has a stake; [bond] of it is moved to
    the bank module for the batch. *)
Definition demo_registry (preferred : bool) (bond : N) : SequencerRegistry.t :=
  let r := store (snd (SequencerRegistry.init_module (G := unit)
    (SequencerRegistry.mkRegistryConfig 0
       (SequencerRegistry.mkSequencerConfig (1 : @Address Sp_demo) (71 : @DaAddress Sp_demo)
          1000 preferred))
    (Acc tt (SequencerRegistry.mk (repeat 4 32) demo_bank ∅ None None [])))) in
  store (snd (SequencerRegistry.remove_part_of_the_stake (G := unit) (71 : @DaAddress Sp_demo)
    (HolderModule (repeat 3 32)) bond (Acc tt r))).

Definition demo_state (preferred : bool) (bond : N) : Capabilities.t Other :=
  Capabilities.mk (demo_registry preferred bond) (Accounts.mk ∅ (Some true))
    (Uniqueness.mk ∅ ∅) (repeat 5 32) (repeat 6 32) None (1 : @Other _ RT_demo).

Definition pay_tx (from generation to amount : N) : FullyBakedTx :=
  mkFullyBakedTx [from; generation; to; amount] None.
Definition call_tx (from generation kind x y : N) : FullyBakedTx :=
  mkFullyBakedTx [from; generation; kind; x; y] None.
Definition bad_tx : FullyBakedTx := mkFullyBakedTx [] None.

(** A slot of [limit] units in which [gas] is left. *)
Definition demo_slot (preferred : bool) (limit gas : list N)
  : SlotGasMeter.t (@DaAddress Sp_demo) :=
  SlotGasMeter.mk (if preferred then Some (71 : @DaAddress Sp_demo) else None) limit gas gas.

(** A batch of the sequencer, with a bond of the cost of checking [n]
    transactions at the price of one token per unit. *)
Definition run_demo (preferred : bool) (n : N) (limit gas : list N) (txs : list FullyBakedTx)
  : option (IncrementalBatchReceipt * Capabilities.t Other * SlotGasMeter.t _) :=
  let bond := n * default 0 (GasArray.checked_value max_tx_check_costs (map (fun _ => 1) gas)) in
  apply_batch no_op_control_flow (demo_state preferred bond) (demo_slot preferred limit gas)
    (mkBatch txs (1 : @Address Sp_demo)) (71 : @DaAddress Sp_demo) bond (map (fun _ => 1) gas) Node.

(** A sequencer stays for the slot unless its withdrawal is ready: the registry lets
    it leave only at a later visible slot. *)
Definition demo_staying (s : Capabilities.t N) (da : @DaAddress Sp_demo) : Prop :=
  match Capabilities.balance_state_of s da with
  | Some SequencerRegistry.Active => True
  | Some (SequencerRegistry.PendingWithdrawal ready_at) => Capabilities.other s < ready_at
  | None => False
  end.

Lemma demo_staying_law (s s' : Capabilities.t N) da :
  Capabilities.other s' = Capabilities.other s ->
  Capabilities.balance_state_of s' da = Capabilities.balance_state_of s da ->
  demo_staying s da -> demo_staying s' da.
Proof. intros Ho Hb. unfold demo_staying. by rewrite Hb, Ho. Qed.

(** The demo runtime fulfils the contract. *)

Lemma bank_effect_id (c : Context Sp_demo) b msg b' : Bank.effect c b msg b' -> Bank.id b' = Bank.id b.
Proof. intros []; try done; try apply BankFacts.id_transferred. Qed.

Lemma bank_call_safe (L : GasMeterLaws BasicGasMeter.t) m (c : Context Sp_demo)
    (s : Capabilities.t N) :
  Bank.msg_wf m -> Capabilities.inv s ->
  wp (H0 := L) (Capabilities.on_bank (Bank.call m c)) (safely (RT := RT_demo) demo_staying s) s.
Proof.
  intros Hmsg [[Hb Hsol] Hid]. unfold Capabilities.on_bank, Capabilities.on_registry,
    SequencerRegistry.on_bank.
  apply wp_zoom, wp_zoom, BankFacts.wp_call; [done|done|]. intros b Heff.
  pose proof (bank_effect_id c _ m b Heff) as Hbid.
  assert (forall h, h <> HolderUser (sender c) ->
    Bank.balance (SequencerRegistry.bank (Capabilities.sequencer_registry s)) h
      config_gas_token_id <= Bank.balance b h config_gas_token_id) as Hle.
  { intros h Hh. by eapply BankTheorems.effect_balance_other. }
  split; [split; [split; [split|]|done|done|done|done|done|constructor]|].
  - by eapply BankFacts.inv_effect.
  - etransitivity; [exact Hsol|]. by apply Hle.
  - unfold Capabilities.bank_id. cbn. by rewrite Hbid.
  - unfold Capabilities.reserve, Capabilities.bank_id, Capabilities.gas_balance,
      SequencerRegistry.gas_balance. cbn. rewrite Hbid. by apply Hle.
Qed.

(** What the calls of the registry pay does not come from other modules, and a
    sequencer whose withdrawal is not ready stays. *)
Lemma registry_effect_reserve slot (c : Context Sp_demo) r msg r' h :
  SequencerRegistry.inv r -> SequencerRegistry.effect slot c r msg r' ->
  h <> SequencerRegistry.id r ->
  SequencerRegistry.gas_balance r (HolderModule h) <=
    SequencerRegistry.gas_balance r' (HolderModule h) /\
  Bank.id (SequencerRegistry.bank r') = Bank.id (SequencerRegistry.bank r) /\
  SequencerRegistry.preferred_sequencer r' = SequencerRegistry.preferred_sequencer r.
Proof.
  intros Hr Heff Hh. split_and!; [|by destruct Heff; try done; apply BankFacts.id_transferred|by destruct Heff].
  destruct Heff as [da amount bond Hn Hm Hle Ha|da amount k Hk Hadr Hmax Ha|da k Hk|da k ready Hk Hadr Hb Hrd].
  - etransitivity; [|apply N.eq_le_incl; symmetry; apply (RegistryFacts.gas_balance_paid r); done].
    repeat case_bool_decide; simplify_eq; lia.
  - etransitivity; [|apply N.eq_le_incl; symmetry; apply (RegistryFacts.gas_balance_paid r); done].
    repeat case_bool_decide; simplify_eq; lia.
  - done.
  - pose proof (RegistryFacts.stake_le_balance r da k Hr Hk) as Hst.
    etransitivity; [|apply N.eq_le_incl; symmetry; apply (RegistryFacts.gas_balance_paid r); done].
    repeat case_bool_decide; simplify_eq; lia.
Qed.

Lemma registry_effect_staying (c : Context Sp_demo) (s : Capabilities.t N) msg r' da :
  SequencerRegistry.effect (Capabilities.other s) c (Capabilities.sequencer_registry s) msg r' ->
  demo_staying s da -> demo_staying (Capabilities.set_registry r' s) da.
Proof.
  unfold demo_staying, Capabilities.balance_state_of. cbn [Capabilities.sequencer_registry
    Capabilities.set_registry Capabilities.other].
  intros [da' amount bond Hn|da' amount k Hk|da' k Hk Ha Hne Hact|da' k ready Hk Ha Hb Hle] Hst;
    cbn; destruct (decide (da' = da)) as [<-|Hda]; rewrite ?lookup_insert_eq, ?lookup_delete_eq;
    rewrite ?lookup_insert_ne, ?lookup_delete_ne by done; try done.
  - cbn. lia.
  - rewrite Hk in Hst. cbn in Hst. rewrite Hb in Hst. lia.
Qed.

Lemma registry_call_safe (L : GasMeterLaws BasicGasMeter.t) m (c : Context Sp_demo)
    (s : Capabilities.t N) :
  Capabilities.inv s ->
  wp (H0 := L) (Capabilities.on_registry (SequencerRegistry.call (Capabilities.other s) m c))
    (safely (RT := RT_demo) demo_staying s) s.
Proof.
  intros [Hr Hid]. unfold Capabilities.on_registry. apply wp_zoom.
  apply RegistryFacts.wp_registry_call; [done|done|done|]. intros r Heff.
  destruct (registry_effect_reserve _ c _ m r (Capabilities.bank_id s) Hr Heff Hid)
    as (Hle & Hbid & Hpref).
  split; [split; [split| | | |done|done|constructor]|].
  - by eapply RegistryFacts.registry_inv_effect.
  - unfold Capabilities.bank_id, Capabilities.registry_id. cbn.
    rewrite Hbid, (RegistryFacts.id_effect _ _ _ _ _ Heff). done.
  - done.
  - intros da. by eapply registry_effect_staying.
  - intros da. cbn. by rewrite Hpref.
  - unfold Capabilities.reserve, Capabilities.bank_id. cbn. rewrite Hbid. exact Hle.
Qed.

Lemma accounts_call_safe (L : GasMeterLaws BasicGasMeter.t) m (c : Context Sp_demo)
    (s : Capabilities.t N) :
  Capabilities.inv s ->
  wp (H0 := L) (Capabilities.on_accounts (Accounts.call m c))
    (safely (RT := RT_demo) demo_staying s) s.
Proof.
  intros Hinv.
  assert (forall a, harmless (RT := RT_demo) demo_staying s (Capabilities.set_accounts a s)) as Ha.
  { intros a. destruct Hinv as [Hr Hi]. split; [split; [by split|done..|constructor]|done]. }
  unfold Capabilities.on_accounts. apply wp_zoom. destruct m as [cred].
  unfold Accounts.call, Accounts.insert_credential_id, Accounts.exit_if_credential_exists.
  repeat wp_step; cbn; auto.
Qed.

Definition demo_wf (m : DemoCall) : Prop :=
  match m with BankCall m => Bank.msg_wf m | _ => True end.

Lemma demo_decode_wf data m : demo_decode data = Some m -> demo_wf m.
Proof.
  unfold demo_decode. intros Hd. repeat case_match; simplify_eq; cbn; try done;
    by apply N.leb_le.
Qed.

#[local] Instance RT_demo_laws : RuntimeLaws RT_demo.
Proof.
  assert (forall s : Capabilities.t N, Capabilities.inv s ->
    harmless (RT := RT_demo) demo_staying s s) as Hrefl.
  { intros s Hinv. split; [split; auto; constructor|done]. }
  refine {| staying := demo_staying : Capabilities.t (@Other _ RT_demo) -> DaAddress -> Prop;
            message_wf := demo_wf : @Decodable _ RT_demo -> Prop;
            authorization_of := demo_authorization |}.
  - intros s da. unfold demo_staying, Capabilities.registered, Capabilities.balance_state_of.
    destruct (_ !! da); [eauto|done].
  - exact demo_staying_law.
  - intros L raw_tx s. unfold authenticate, RT_demo, demo_authenticate.
    wp_step. wp_step. wp_step; [done|]. wp_step.
    wp_step; [|done]. wp_step. split_and!; [done|done|by eapply demo_decode_wf|done|done].
  - done.
  - intros. apply wp_ret. by apply Hrefl.
  - intros. apply wp_ret. by apply Hrefl.
  - intros. apply wp_ret. by apply Hrefl.
  - intros L m c s Hm Hinv. destruct m as [m|m|m]; cbn.
    + apply wp_map_err. eapply wp_mono; [by apply bank_call_safe|]. by intros [].
    + wp_step. wp_step. apply wp_map_err. eapply wp_mono; [by apply registry_call_safe|]. by intros [].
    + apply wp_map_err. eapply wp_mono; [by apply accounts_call_safe|]. by intros [].
  - intros. apply wp_ret. by apply Hrefl.
Defined.

(** The initial state fulfils the invariants. *)

Lemma demo_bank_inv : Bank.inv demo_bank.
Proof.
  set (config := Bank.mkBankConfig (Some (Bank.mkGasTokenConfig "gas" None
       [(1 : @Address Sp_demo, 100000); (2 : @Address Sp_demo, 50000)] [] None)) []).
  assert (fst (Bank.init_module (G := unit) config (Acc tt (Bank.empty (repeat 3 32)))) = Ok tt)
    as Hok by (vm_compute; done).
  assert (wp (G := unit) (Bank.init_module config)
    (fun o s' => o = Ok tt -> Bank.inv s') (Bank.empty (repeat 3 32))) as Hwp.
  { apply GenesisFacts.wp_init_module; [|done|done].
    constructor; [|constructor]. split; [|done].
    apply (bool_decide_unpack _). vm_compute. done. }
  destruct (wp_run _ _ _ tt Hwp I) as [_ Hinv]. by apply Hinv.
Qed.

Lemma demo_registry_inv preferred bond : SequencerRegistry.inv (demo_registry preferred bond).
Proof.
  unfold demo_registry.
  match goal with |- SequencerRegistry.inv (store (snd (?m (Acc tt ?r)))) =>
    set (r0 := r); enough (SequencerRegistry.inv r0) as Hr0
  end.
  { apply (RegistryFacts.infallible_run _ (fun s' => SequencerRegistry.inv s')).
    eapply wp_mono; [by apply RegistryFacts.inv_remove_stake|].
    intros o s' (Ho & Hs' & _). by split. }
  apply RegistryFacts.init_module_inv; [split; [apply demo_bank_inv|]|reflexivity|].
  - apply N.le_0_l.
  - destruct preferred; vm_compute; reflexivity.
Qed.

Lemma demo_state_inv preferred bond :
  Capabilities.bank_id (demo_state preferred bond) <>
    Capabilities.registry_id (demo_state preferred bond) ->
  Capabilities.inv (demo_state preferred bond).
Proof. intros Hid. split; [apply demo_registry_inv|done]. Qed.
End Demo.
End StfDemo.

(** ** Properties *)
Module StfProperties.
Import Stf StfFacts StfDemo.
Section Properties.
Context {Sp : Spec} {Cfg : UniquenessConfig} {GS : GasSpec} {RT : Runtime Sp}
  {Laws : RuntimeLaws RT}.



(** C9: no transaction is executed twice, in a batch of any sequencer, the preferred
    one included, and for gas of any number of dimensions.  Whenever a batch is
    processed, the transactions that it executes, successfully or not, are distinct;
    none of them passes as attempted before the batch, all of them do after it, and
    what was attempted before stays so, so a later batch does not execute them either.
    The warm-up of a sequencer, which skips nonces on purpose, is excluded. *)
Theorem batch_executes_once s m batch da bond price ec mode r s' m'
    (Hconfig : Uniqueness.config_ok) (Hcontext : ec <> SequencerWarmUp)
    (Hchecks :
       GasArray.dim_is_less_or_eq process_tx_pre_exec_checks_gas max_tx_check_costs = true)
    (Hmode : operating_mode s = Some mode) (Hpayable : Capabilities.payable mode s)
    (Hinv : Capabilities.inv s)
    (Hrun : apply_batch no_op_control_flow s m batch da bond price ec = Some (r, s', m')) :
  NoDup (omap executed (tx_receipts r)) /\
  (forall t, t ∈ omap executed (tx_receipts r) -> ~ spent s t /\ spent s' t) /\
  (forall t, spent s t -> spent s' t).
Proof.
  pose proof (apply_batch_once s m batch da bond price ec mode Hconfig Hcontext Hchecks Hmode
    Hpayable Hinv) as Hok. rewrite Hrun in Hok. destruct Hok as (Hf & Hnd & Hin).
  split_and!; [done..|]. intros t Ht. by eapply spent_frame.
Qed.


End Properties.

Lemma is_some_test {A} (o : option A) :
  match o with Some _ => true | None => false end = true -> is_Some o.
Proof. destruct o; [eauto|done]. Qed.

Lemma is_none_test {A} (o : option A) :
  match o with Some _ => false | None => true end = true -> o = None.
Proof. by destruct o. Qed.

Abbreviation demo_apply cost preferred limit gas txs bond :=
  (apply_batch (Sp := demo_spec cost) (Cfg := demo_uniqueness) (GS := demo_gas_spec cost)
     (RT := RT_demo cost) no_op_control_flow (demo_state cost preferred bond)
     (demo_slot cost preferred limit gas)
     (@mkBatch (demo_spec cost) txs 1) 71 bond (map (fun _ => 1) gas) Node).

(** The bond of the preferred sequencer is charged once for each transaction
    that is skipped and is not reduced in between.  A state fulfils the invariants,
    the bond covers the checks of a transaction and is in the reserve; a batch
    with one transaction that fails authentication is processed and a batch with
    two of them panics. *)
Theorem preferred_batch_panics :
  let s := demo_state [1] true 100 in
  Capabilities.inv s /\ Capabilities.registered (Sp := demo_spec [1]) s 71 /\
  GasArray.checked_value (max_tx_check_costs (GasSpec := demo_gas_spec [1])) [1] = Some 100 /\
  100 <= Capabilities.reserve s /\
  is_Some (demo_apply [1] true [5000] [5000] [bad_tx] 100) /\
  demo_apply [1] true [5000] [5000] [bad_tx; bad_tx] 100 = None.
Proof.
  cbv zeta. split_and!.
  - apply demo_state_inv. vm_compute. discriminate.
  - vm_compute. eauto.
  - reflexivity.
  - vm_compute. discriminate.
  - apply is_some_test. vm_compute. reflexivity.
  - apply is_none_test. vm_compute. reflexivity.
Qed.

(** Gas of two dimensions.  The guard on the gas of the slot only stops when
    every dimension is below the cost of the checks; when one of them is, the
    transaction is processed and the charge of the slot meter panics, for a
    standard sequencer whose bond covers the checks. *)
Theorem exhausted_dimension_panics :
  let s := demo_state [1; 1] false 200 in
  Capabilities.inv s /\ Capabilities.registered (Sp := demo_spec [1; 1]) s 71 /\
  GasArray.checked_value (max_tx_check_costs (GasSpec := demo_gas_spec [1; 1])) [1; 1]
    = Some 200 /\
  200 <= Capabilities.reserve s /\
  is_Some (demo_apply [1; 1] false [5000; 5000] [50; 50] [bad_tx] 200) /\
  demo_apply [1; 1] false [5000; 5000] [50; 5000] [bad_tx] 200 = None.
Proof.
  cbv zeta. split_and!.
  - apply demo_state_inv. vm_compute. discriminate.
  - vm_compute. eauto.
  - reflexivity.
  - vm_compute. discriminate.
  - apply is_some_test. vm_compute. reflexivity.
  - apply is_none_test. vm_compute. reflexivity.
Qed.

(** ** Witnesses, with gas of two dimensions *)

Abbreviation cost2 := [1; 1].

Lemma demo_config : Uniqueness.config_ok (Cfg := demo_uniqueness).
Proof. split; [|split]; vm_compute; congruence. Qed.


(** A payment, a transaction that is rejected, the registration of a sequencer, and the
    payment again. *)
Definition demo_txs : list FullyBakedTx :=
  [pay_tx 1 1 2 10; bad_tx; call_tx 2 1 0 72 500; pay_tx 1 1 2 10].

Abbreviation demo_run :=
  (demo_apply cost2 false [5000; 6000] [4000; 3000] demo_txs 800).


Lemma batch_executes_once_witness :
  match demo_run with
  | Some (r, _, _) => length (omap executed (tx_receipts r))
  | None => 0%nat
  end = 2%nat /\
  exists r s' m', demo_run = Some (r, s', m') /\
    NoDup (omap executed (tx_receipts r)) /\
    (forall t, t ∈ omap executed (tx_receipts r) ->
       ~ spent (L := RT_demo_laws cost2) (demo_state cost2 false 800) t /\
       spent (L := RT_demo_laws cost2) s' t).
Proof.
  split; [vm_compute; reflexivity|].
  assert (is_Some demo_run) as [[[r s'] m'] Hrun] by (apply is_some_test; vm_compute; reflexivity).
  exists r, s', m'. split; [exact Hrun|].
  destruct (batch_executes_once (GS := demo_gas_spec cost2) (Laws := RT_demo_laws cost2)
    (demo_state cost2 false 800) (demo_slot cost2 false [5000; 6000] [4000; 3000])
    (@mkBatch (demo_spec cost2) demo_txs 1) 71 800 [1; 1] Node Zk r s' m') as (Hnd & Hin & _).
  - exact demo_config.
  - discriminate.
  - reflexivity.
  - reflexivity.
  - discriminate.
  - apply demo_state_inv. vm_compute. discriminate.
  - exact Hrun.
  - split; [exact Hnd|exact Hin].
Defined.

End StfProperties.
