(* ===== verification/Blobs.v ===== *)
(** * Blobs: their data, their encoding and the limits on their size

    The types that carry the data of the DA layer through a slot:
    [BlobDataWithId], [BatchWithId] and [SelectedBlob] of sov-modules-api/src/
    batch.rs, [ValidatedBlob] and [Escrow] of sov-blob-storage/src/lib.rs; the
    decoder of [FullyBakedTx] of rollup-interface (stf/batch.rs); and the
    accumulator that bounds how much data a slot selects
    (sov-blob-storage/src/max_size_checker.rs).

    Lengths are [usize] in the code; it is 64 bits wide except for the decoder of
    transactions, which is modelled for both widths. *)

From Stdlib Require Import NArith Lia.
From stdpp Require Import base numbers gmap strings option list.
From S2P Require Import Prelude Ints Gas StateAccess Bank StfBlueprint.


(** ** Transactions on the wire, stf/batch.rs

    What the decoder uses of borsh: the encoding of [u32] and of [u8], as a reader
    of bytes and as the bytes written.  The laws are the format of borsh: integers
    have a fixed width and are read back as written. *)
Class BorshIntegers : Type := {
  read_u32 : list N -> option (N * list N);
  write_u32 : N -> list N;
  read_u8 : list N -> option (N * list N);
  write_u8 : N -> list N
}.

Class BorshIntegersLaws `{BorshIntegers} : Prop := {
  read_write_u32 : forall n rest, n <= u32_max -> read_u32 (write_u32 n ++ rest) = Some (n, rest);
  read_u32_width : forall l n rest, read_u32 l = Some (n, rest) ->
    n <= u32_max /\ len l = len rest + 4;
  write_u32_width : forall n, len (write_u32 n) = 4;
  read_write_u8 : forall n rest, n <= 255 -> read_u8 (write_u8 n ++ rest) = Some (n, rest);
  read_u8_width : forall l n rest, read_u8 l = Some (n, rest) -> n <= 255 /\ len l = len rest + 1;
  write_u8_width : forall n, len (write_u8 n) = 1
}.

Module TxCodec.
Section Codec.
Context `{BorshIntegers}.

Definition MAX_FULLY_BAKED_TX_SIZE : N := (1024 + 50) * 1024.

Inductive IoError : Type := UnexpectedEof | InvalidData.

(** [vec![0u8; n]] aborts when it needs more than [isize::MAX] bytes, and
    [read_exact] fails when the input is too short. *)
Definition read_vec (usize_max n : N) (reader : list N) : outcome IoError (list N * list N) :=
  if usize_max / 2 <? n then Panic
  else if len reader <? n then Err UnexpectedEof
  else Ok (take (N.to_nat n) reader, drop (N.to_nat n) reader).

Definition read_int (o : option (N * list N)) : outcome IoError (N * list N) :=
  match o with Some x => Ok x | None => Err UnexpectedEof end.

Definition and_then {E A B} (o : outcome E A) (k : A -> outcome E B) : outcome E B :=
  match o with Ok a => k a | Err e => Err e | Panic => Panic end.

(** [FullyBakedTx::deserialize_reader] on a target whose [usize] has the given
    maximum; the addition of the two lengths wraps. *)
Definition deserialize_reader (usize_max : N) (reader : list N)
  : outcome IoError (FullyBakedTx * list N) :=
  and_then (read_int (read_u32 reader)) (fun '(data_len, reader) =>
  if MAX_FULLY_BAKED_TX_SIZE <? data_len then Err InvalidData
  else
    and_then (read_vec usize_max data_len reader) (fun '(data, reader) =>
    and_then (read_int (read_u8 reader)) (fun '(has_sequencing_data, reader) =>
    if has_sequencing_data =? 0 then Ok (mkFullyBakedTx data None, reader)
    else
      and_then (read_int (read_u32 reader)) (fun '(seq_len, reader) =>
      if MAX_FULLY_BAKED_TX_SIZE <? wrap usize_max (data_len + seq_len) then Err InvalidData
      else
        and_then (read_vec usize_max seq_len reader) (fun '(seq, reader) =>
        Ok (mkFullyBakedTx data (Some seq), reader)))))).

(** The derived [BorshSerialize]: a vector is its length and its bytes, an option
    its tag and its content. *)
Definition write_vec (v : list N) : list N := write_u32 (len v) ++ v.

Definition serialize (tx : FullyBakedTx) : list N :=
  write_vec (tx_data tx) ++
  match tx_sequencing_data tx with
  | None => write_u8 0
  | Some s => write_u8 1 ++ write_vec s
  end.

(** [FullyBakedTx::len] *)
Definition tx_len (tx : FullyBakedTx) : N := len (serialize tx).

(** The bytes that the limit applies to. *)
Definition payload (tx : FullyBakedTx) : N :=
  len (tx_data tx) + match tx_sequencing_data tx with Some s => len s | None => 0 end.
End Codec.
End TxCodec.

Module TxCodecFacts.
Import TxCodec.
Section Facts.
Context `{BorshIntegersLaws}.

Lemma len_app {A} (l1 l2 : list A) : len (l1 ++ l2) = len l1 + len l2.
Proof. len_lia. Qed.

Lemma read_vec_app usize_max v rest :
  len v <= usize_max / 2 -> read_vec usize_max (len v) (v ++ rest) = Ok (v, rest).
Proof.
  intros Hv. unfold read_vec. rewrite len_app.
  rewrite (proj2 (N.ltb_ge _ _)) by done. rewrite (proj2 (N.ltb_ge _ _)) by lia.
  unfold len. rewrite Nat2N.id. by rewrite take_app_length, drop_app_length.
Qed.

Lemma read_vec_len usize_max n l v rest :
  read_vec usize_max n l = Ok (v, rest) -> len v = n /\ len l = len v + len rest.
Proof.
  unfold read_vec. destruct (usize_max / 2 <? n); [done|].
  destruct (N.ltb_spec (len l) n) as [|Hle]; [done|]. intros [= <- <-].
  len_lia.
Qed.

Lemma read_vec_no_panic usize_max n l : n <= usize_max / 2 -> read_vec usize_max n l <> Panic.
Proof. intros Hn. unfold read_vec. rewrite (proj2 (N.ltb_ge _ _)) by done. by case_match. Qed.

(** On a target with [usize] of at least 32 bits a transaction within the limit is
    read back as written. *)
Lemma deserialize_serialize usize_max tx rest :
  u32_max <= usize_max -> payload tx <= MAX_FULLY_BAKED_TX_SIZE ->
  deserialize_reader usize_max (serialize tx ++ rest) = Ok (tx, rest).
Proof.
  intros Hu Hp. destruct tx as [data seq]. unfold payload in Hp. cbn in Hp.
  assert (MAX_FULLY_BAKED_TX_SIZE <= usize_max / 2 /\ 2 * MAX_FULLY_BAKED_TX_SIZE <= u32_max)
    as [Hmax Hu32].
  { split; [|by vm_compute]. transitivity (u32_max / 2); [by vm_compute|].
    by apply N.Div0.div_le_mono. }
  unfold deserialize_reader, serialize, write_vec. cbn [tx_data tx_sequencing_data].
  rewrite <- !app_assoc, read_write_u32 by lia. cbn [read_int and_then].
  rewrite (proj2 (N.ltb_ge _ _)) by lia. rewrite read_vec_app by lia. cbn [and_then].
  destruct seq as [s|].
  - rewrite <- !app_assoc, read_write_u8 by done. cbn [read_int and_then N.eqb].
    rewrite read_write_u32 by lia. cbn [read_int and_then].
    unfold wrap. rewrite N.mod_small by lia. rewrite (proj2 (N.ltb_ge _ _)) by lia.
    by rewrite read_vec_app by lia.
  - by rewrite read_write_u8 by done.
Qed.

(** What is read has the length of its encoding and respects the limit. *)
Lemma deserialize_bounded reader tx rest :
  deserialize_reader u64_max reader = Ok (tx, rest) ->
  payload tx <= MAX_FULLY_BAKED_TX_SIZE /\ len reader = tx_len tx + len rest.
Proof.
  unfold deserialize_reader. destruct (read_u32 reader) as [[n r1]|] eqn:H1; [|done].
  apply read_u32_width in H1 as [Hn Hl1]. cbn [read_int and_then].
  destruct (N.ltb_spec MAX_FULLY_BAKED_TX_SIZE n) as [|Hle]; [done|].
  destruct (read_vec u64_max n r1) as [[data r2]|e|] eqn:H2; [|done..].
  apply read_vec_len in H2 as [Hd Hl2]. cbn [and_then].
  destruct (read_u8 r2) as [[tag r3]|] eqn:H3; [|done].
  apply read_u8_width in H3 as [_ Hl3]. cbn [read_int and_then].
  unfold tx_len, serialize, write_vec, payload. destruct (tag =? 0).
  { intros [= <- <-]. cbn. rewrite !len_app, write_u32_width, write_u8_width. lia. }
  destruct (read_u32 r3) as [[m r4]|] eqn:H4; [|done].
  apply read_u32_width in H4 as [Hm Hl4]. cbn [read_int and_then].
  assert (u32_max + u32_max <= u64_max) by by vm_compute.
  unfold wrap. rewrite N.mod_small by lia.
  destruct (N.ltb_spec MAX_FULLY_BAKED_TX_SIZE (n + m)) as [|Hle']; [done|].
  destruct (read_vec u64_max m r4) as [[seq r5]|e|] eqn:H5; [|done..].
  apply read_vec_len in H5 as [Hs Hl5]. cbn [and_then]. intros [= <- <-]. cbn.
  rewrite !len_app, !write_u32_width, write_u8_width. lia.
Qed.

Lemma deserialize_no_panic reader : deserialize_reader u64_max reader <> Panic.
Proof.
  unfold deserialize_reader. destruct (read_u32 reader) as [[n r1]|] eqn:H1; [|done].
  apply read_u32_width in H1 as [Hn _]. cbn [read_int and_then].
  assert (u32_max <= u64_max / 2) by by vm_compute.
  destruct (_ <? _); [done|].
  destruct (read_vec u64_max n r1) as [[data r2]|e|] eqn:H2; [|done|].
  2: { apply read_vec_no_panic in H2; [done|]. lia. }
  cbn [and_then]. destruct (read_u8 r2) as [[tag r3]|]; [|done]. cbn [read_int and_then].
  destruct (tag =? 0); [done|]. destruct (read_u32 r3) as [[m r4]|] eqn:H4; [|done].
  apply read_u32_width in H4 as [Hm _]. cbn [read_int and_then]. destruct (_ <? _); [done|].
  destruct (read_vec u64_max m r4) as [[seq r5]|e|] eqn:H5; [done|done|].
  apply read_vec_no_panic in H5; [done|]. lia.
Qed.
End Facts.
End TxCodecFacts.

(** ** Blobs, batch.rs and sov-blob-storage/src/lib.rs *)
Module Blob.
Section Blob.
Context {Sp : Spec} `{BorshIntegers}.

Definition ID_SIZE : N := 32.

Record BatchWithId : Type := mkBatchWithId {
  batch : list FullyBakedTx;
  batch_id : list N;
  batch_sequencer : Address
}.

(** [BatchWithId::batch_with_id_size] *)
Definition batch_with_id_size (b : BatchWithId) : N :=
  sum_N (map TxCodec.tx_len (batch b)) + ID_SIZE + len (address_as_ref (batch_sequencer b)).

Inductive BlobDataWithId : Type :=
| Batch (b : BatchWithId)
| EmergencyRegistration (tx : FullyBakedTx) (id : list N)
| Proof_ (proof : list N) (id : list N) (sequencer_address : Address).

Definition blob_size (b : BlobDataWithId) : N :=
  match b with
  | Batch b => batch_with_id_size b
  | Proof_ proof _ sequencer_address => len proof + 32 + len (address_as_ref sequencer_address)
  | EmergencyRegistration tx _ => TxCodec.tx_len tx + 32
  end.

Definition id (b : BlobDataWithId) : list N :=
  match b with Batch b => batch_id b | EmergencyRegistration _ id => id | Proof_ _ id _ => id end.

Definition is_emergency_registration (b : BlobDataWithId) : bool :=
  match b with EmergencyRegistration _ _ => true | _ => false end.

(** [Escrow], [ValidatedBlob] and [SelectedBlob] *)
Inductive Escrow : Type :=
| EscrowHolder (h : DerivedHolder)
| EscrowDirect (amount : N)
| EscrowNone.

Record ValidatedBlob : Type := mkValidated {
  blob : BlobDataWithId;
  blob_sender : DaAddress;
  balance_store : Escrow
}.

Record SelectedBlob : Type := mkSelected {
  blob_data : BlobDataWithId;
  selected_sender : DaAddress;
  reserved_gas_tokens : option N
}.

(** [ValidatedBlob::conservative_serialized_size]; [sender_len] is the length of
    the address on the DA layer. *)
Definition conservative_serialized_size (b : BlobDataWithId) (sender_len : N) : N :=
  blob_size b + 1 + sender_len + 33 + 12.

(** [ValidatedBlob::into_selected_blob], [None] for its panics *)
Definition into_selected_blob (v : ValidatedBlob) : option SelectedBlob :=
  match balance_store v with
  | EscrowHolder _ => None
  | EscrowDirect amount => Some (mkSelected (blob v) (blob_sender v) (Some amount))
  | EscrowNone =>
      if is_emergency_registration (blob v)
      then Some (mkSelected (blob v) (blob_sender v) None) else None
  end.

(** ** The limit on the data of a slot, max_size_checker.rs *)

Record BlobSizeChecker : Type := mkChecker {
  remaining_preferred_size : N;
  remaining_non_preferred_size : N
}.

Definition remaining (c : BlobSizeChecker) (ty : SequencerType) : N :=
  match ty with
  | Preferred => remaining_preferred_size c
  | NonPreferred => remaining_non_preferred_size c
  end.

Definition can_process_blob (c : BlobSizeChecker) (ty : SequencerType) (blob_len : N) : bool :=
  if u32_max <? blob_len then false
  else match checked_sub (remaining c ty) blob_len with Some _ => true | None => false end.

(** [BlobSizeChecker::process_blob], [None] for its panics *)
Definition process_blob (c : BlobSizeChecker) (ty : SequencerType) (blob_len : N)
  : option BlobSizeChecker :=
  if u32_max <? blob_len then None
  else
    let? rest := checked_sub (remaining c ty) blob_len in
    Some match ty with
         | Preferred => mkChecker rest (remaining_non_preferred_size c)
         | NonPreferred => mkChecker (remaining_preferred_size c) rest
         end.

(** [BlobsAccumulatorWithSizeLimit] *)
Record Accumulator : Type := mkAccumulator {
  blobs_with_address : list ValidatedBlob;
  blob_size_checker : BlobSizeChecker
}.

Inductive PushOrIgnore : Type :=
| Accepted
| IgnoredBlob (id : list N) (sender : DaAddress).

Definition new_with_size (max_total_size : N) : option Accumulator :=
  let? tenth := checked_div max_total_size SlotGasMeter.denominator in
  let? max_preferred_blob_size :=
    checked_mul u32_max tenth SlotGasMeter.numerator in
  if max_preferred_blob_size <=? max_total_size
  then Some (mkAccumulator []
         (mkChecker max_preferred_blob_size
            (saturating_sub max_total_size max_preferred_blob_size)))
  else None.

Definition can_accept_blob (a : Accumulator) (ty : SequencerType) (blob_len : N) : bool :=
  can_process_blob (blob_size_checker a) ty blob_len.

Definition push_or_ignore (a : Accumulator) (ty : SequencerType) (elem : ValidatedBlob)
  : option (PushOrIgnore * Accumulator) :=
  if can_process_blob (blob_size_checker a) ty (blob_size (blob elem)) then
    let? c := process_blob (blob_size_checker a) ty (blob_size (blob elem)) in
    Some (Accepted, mkAccumulator (blobs_with_address a ++ [elem]) c)
  else Some (IgnoredBlob (id (blob elem)) (blob_sender elem), a).

(** ** The invariant of the accumulator: its blobs and the space left add up. *)
Definition total_size (l : list ValidatedBlob) : N := sum_N (map (fun v => blob_size (blob v)) l).

Record fits (max_total_size : N) (a : Accumulator) : Prop := mkFits {
  fits_total : total_size (blobs_with_address a) +
    remaining (blob_size_checker a) Preferred + remaining (blob_size_checker a) NonPreferred =
    max_total_size;
  fits_preferred : remaining (blob_size_checker a) Preferred <= max_total_size / 10 * 9
}.

Lemma new_fits max_total_size :
  max_total_size <= u32_max ->
  exists a, new_with_size max_total_size = Some a /\ fits max_total_size a /\
    blobs_with_address a = [].
Proof.
  intros Hm. unfold new_with_size, checked_div, SlotGasMeter.denominator,
    SlotGasMeter.numerator. cbn [N.eqb].
  assert (max_total_size / 10 * 9 <= max_total_size) by div_lia.
  unfold checked_mul. rewrite (proj2 (N.leb_le _ _)) by lia.
  rewrite (proj2 (N.leb_le _ _)) by done. eexists. split_and!; [done| |done].
  unfold saturating_sub. split; cbn; lia.
Qed.

(** A push is total; it appends the blob or leaves the accumulator alone. *)
Lemma push_fits max_total_size a ty v :
  fits max_total_size a ->
  exists r a', push_or_ignore a ty v = Some (r, a') /\ fits max_total_size a' /\
    match r with
    | Accepted => blobs_with_address a' = blobs_with_address a ++ [v]
    | IgnoredBlob i s => a' = a /\ i = id (blob v) /\ s = blob_sender v
    end.
Proof.
  intros Hf. unfold push_or_ignore, process_blob, can_process_blob, checked_sub.
  destruct (u32_max <? _); [by eexists _, _|].
  destruct (N.leb_spec (blob_size (blob v)) (remaining (blob_size_checker a) ty)) as [Hle|];
    [|by eexists _, _].
  eexists _, _. split_and!; [done| |done]. destruct Hf as [Ht Hp]. unfold total_size in *.
  split; cbn; rewrite ?map_app, ?sum_N_app; destruct ty; cbn in *; lia.
Qed.
End Blob.
End Blob.

(** ** A concrete borsh for the witnesses: little-endian integers *)
Module BorshDemo.

Definition le_borsh : BorshIntegers := {|
  read_u32 := fun l =>
    match l with
    | a :: b :: c :: d :: rest =>
        if (a <? 256) && (b <? 256) && (c <? 256) && (d <? 256)
        then Some (a + 256 * (b + 256 * (c + 256 * d)), rest) else None
    | _ => None
    end;
  write_u32 := fun n =>
    [n mod 256; n / 256 mod 256; n / 256 / 256 mod 256; n / 256 / 256 / 256 mod 256];
  read_u8 := fun l =>
    match l with a :: rest => if a <? 256 then Some (a, rest) else None | _ => None end;
  write_u8 := fun n => [n mod 256]
|}.

Lemma mod_byte n : (n mod 256 <? 256) = true.
Proof. apply N.ltb_lt. by apply N.mod_lt. Qed.

#[export] Instance le_borsh_laws : BorshIntegersLaws (H := le_borsh).
Proof.
  split.
  - intros n rest Hn. cbn. rewrite !mod_byte. cbn. f_equal. f_equal.
    rewrite (N.mod_small (n / 256 / 256 / 256)).
    + pose proof (N.div_mod n 256 ltac:(done)). pose proof (N.div_mod (n / 256) 256 ltac:(done)).
      pose proof (N.div_mod (n / 256 / 256) 256 ltac:(done)). lia.
    + unfold u32_max in Hn. rewrite !N.Div0.div_div. apply N.Div0.div_lt_upper_bound. lia.
  - intros l n rest. cbn. destruct l as [|a [|b [|c [|d l]]]]; [done..|].
    destruct (N.ltb_spec a 256), (N.ltb_spec b 256), (N.ltb_spec c 256), (N.ltb_spec d 256);
      cbn; try done. intros [= <- <-]. unfold u32_max, len. cbn [length]. lia.
  - done.
  - intros n rest Hn. cbn. rewrite N.mod_small by lia. by rewrite (proj2 (N.ltb_lt _ _)) by lia.
  - intros l n rest. cbn. destruct l as [|a l]; [done|]. destruct (N.ltb_spec a 256); [|done].
    intros [= <- <-]. len_lia.
  - done.
Qed.
End BorshDemo.

(** ** Properties *)
Module BlobProperties.
Import TxCodec TxCodecFacts BorshDemo.

(** The wire format of transactions.  On a 64-bit target the decoder reads back
    every transaction within the size limit as it was written and leaves the bytes
    after it; what it accepts is within the limit and takes as many bytes as it has
    when it is written again, and no input makes it panic. *)
Theorem tx_wire_roundtrip `{BorshIntegersLaws} reader :
  (forall tx rest, payload tx <= MAX_FULLY_BAKED_TX_SIZE -> reader = serialize tx ++ rest ->
     deserialize_reader u64_max reader = Ok (tx, rest)) /\
  match deserialize_reader u64_max reader with
  | Ok (tx, rest) => payload tx <= MAX_FULLY_BAKED_TX_SIZE /\ len reader = tx_len tx + len rest
  | Err _ => True
  | Panic => False
  end.
Proof.
  split.
  - intros tx rest Hp ->. apply deserialize_serialize; [by vm_compute|done].
  - pose proof (deserialize_no_panic reader) as Hno.
    destruct (deserialize_reader u64_max reader) as [[tx rest]|e|] eqn:Hr; [|done|done].
    by apply deserialize_bounded.
Qed.

Lemma tx_wire_roundtrip_witness :
  deserialize_reader (H := le_borsh) u64_max
    (serialize (H := le_borsh) (mkFullyBakedTx [1; 2; 3] (Some [4])) ++ [9]) =
  Ok (mkFullyBakedTx [1; 2; 3] (Some [4]), [9]).
Proof.
  apply (proj1 (tx_wire_roundtrip (H := le_borsh) (H0 := le_borsh_laws)
    (serialize (H := le_borsh) (mkFullyBakedTx [1; 2; 3] (Some [4])) ++ [9]))).
  - vm_compute. discriminate.
  - reflexivity.
Defined.

(** On a 32-bit target, as the guests of a zkVM are, the sum of the two lengths
    wraps around and the limit is not enforced.  For every transaction with data,
    the prefix that announces sequencing data of the largest length makes the
    decoder panic, while it is an error on a 64-bit target. *)
Theorem tx_decoder_panics_on_32_bits `{BorshIntegersLaws} data rest
    (Hdata : 1 <= len data <= MAX_FULLY_BAKED_TX_SIZE) :
  deserialize_reader u32_max (write_vec data ++ write_u8 1 ++ write_u32 u32_max ++ rest) = Panic /\
  deserialize_reader u64_max (write_vec data ++ write_u8 1 ++ write_u32 u32_max ++ rest) =
    Err InvalidData.
Proof.
  assert (MAX_FULLY_BAKED_TX_SIZE <= u32_max / 2 /\ MAX_FULLY_BAKED_TX_SIZE <= u64_max / 2 /\
    MAX_FULLY_BAKED_TX_SIZE < u32_max /\ 2 * u32_max < u64_max) as (H1 & H2 & H3 & H4)
    by (split_and!; by vm_compute).
  unfold deserialize_reader, write_vec.
  split; rewrite <- !app_assoc, read_write_u32 by lia; cbn [read_int and_then];
    rewrite (proj2 (N.ltb_ge _ _)) by lia; rewrite read_vec_app by lia; cbn [and_then];
    rewrite read_write_u8 by done; cbn [read_int and_then N.eqb];
    rewrite read_write_u32 by done; cbn [read_int and_then]; unfold wrap.
  - replace (len data + u32_max) with (len data - 1 + 1 * (u32_max + 1)) by lia.
    rewrite N.Div0.mod_add, N.mod_small by lia. rewrite (proj2 (N.ltb_ge _ _)) by lia. done.
  - rewrite N.mod_small by lia. by rewrite (proj2 (N.ltb_lt _ _)) by lia.
Qed.

Lemma tx_decoder_panics_on_32_bits_witness :
  deserialize_reader (H := le_borsh) u32_max [1; 0; 0; 0; 7; 1; 255; 255; 255; 255] = Panic.
Proof.
  exact (proj1 (tx_decoder_panics_on_32_bits (H := le_borsh) (H0 := le_borsh_laws) [7] []
    ltac:(split; vm_compute; discriminate))).
Defined.
End BlobProperties.
