(* ===== verification/BlobSequence.v ===== *)
(** * The order of the preferred sequencer's blobs (sov-blob-storage)

    The preferred sequencer numbers its batches and proofs, and the rollup
    processes them in the order of the numbers whatever the order on the DA layer
    is: [find_next_run_of_blobs], [get_blobs_to_process_from_run] and
    [pick_preferred_blobs_to_process] of capabilities.rs, with the types of
    lib.rs.

    The queue is the part of the module's state that they use: the blobs that
    wait for their turn and the tracker of the sequence numbers.  The loop of
    [find_next_run_of_blobs] takes an element of one of its two iterators in each
    round, so the sum of their lengths bounds the number of rounds. *)

From Stdlib Require Import NArith Lia.
From stdpp Require Import base numbers gmap strings option sorting list.
From S2P Require Import Prelude Ints StfBlueprint Blobs.

(** ** Data, lib.rs *)

Record PreferredBatchData : Type := mkPreferredBatch {
  batch_sequence_number : N;
  batch_data : list FullyBakedTx;
  visible_slots_to_advance : N
}.

Record PreferredProofData : Type := mkPreferredProof {
  proof_sequence_number : N;
  proof_data : list N
}.

Inductive PreferredBlobData : Type :=
| PreferredBatch (b : PreferredBatchData)
| PreferredProof (p : PreferredProofData).

Record PreferredBlobDataWithId : Type := mkPreferredBlob {
  inner : PreferredBlobData;
  preferred_id : list N
}.

Inductive BlobType : Type := BatchType | ProofType.

Record SequencerNumberTracker : Type := mkTracker {
  next_sequence_number : N;
  saved_sequencer_numbers : gmap N BlobType
}.

Inductive BlobArrival : Type :=
| New (b : PreferredBlobDataWithId)
| Stored (sequence_number : N) (ty : BlobType).

(** [BlobDiscardReason] and [DiscardedBlob], rollup-interface *)
Inductive BlobDiscardReason : Type :=
| SequenceNumberTooLow
| SenderInsufficientStake
| MaxAllowedUnregisteredBlobs
| OutOfCapacity
| InsufficientReservedGas
| InvalidSerialization
| EmergencyRegistrationTooLarge.

Record DiscardedBlob : Type := mkDiscarded { hash : list N; reason : BlobDiscardReason }.

Module BlobSequence.

Definition sequence_number (b : PreferredBlobData) : N :=
  match b with
  | PreferredBatch b => batch_sequence_number b
  | PreferredProof p => proof_sequence_number p
  end.

Definition is_batch (b : PreferredBlobData) : bool :=
  match b with PreferredBatch _ => true | PreferredProof _ => false end.

Definition visible_slot_number_increase (b : PreferredBlobData) : option N :=
  match b with
  | PreferredBatch b => Some (visible_slots_to_advance b)
  | PreferredProof _ => None
  end.

Definition type_is_batch (ty : BlobType) : bool :=
  match ty with BatchType => true | ProofType => false end.

Definition blob_type (b : PreferredBlobData) : BlobType :=
  match b with PreferredProof _ => ProofType | PreferredBatch _ => BatchType end.

Definition arrival_type (a : BlobArrival) : BlobType :=
  match a with New b => blob_type (inner b) | Stored _ ty => ty end.

Definition arrival_number (a : BlobArrival) : N :=
  match a with New b => sequence_number (inner b) | Stored n _ => n end.

Definition number (b : PreferredBlobDataWithId) : N := sequence_number (inner b).

(** The part of [BlobStorage] that orders the preferred blobs. *)
Record queue : Type := mkQueue {
  deferred_preferred_sequencer_blobs : gmap N PreferredBlobDataWithId;
  upcoming_sequence_numbers : option SequencerNumberTracker
}.

Definition default_tracker : SequencerNumberTracker := mkTracker 0 ∅.

(** [upcoming_sequence_numbers.get(state).unwrap_or_default()] *)
Definition tracker (q : queue) : SequencerNumberTracker :=
  default default_tracker (upcoming_sequence_numbers q).

(** [BlobStorage::next_sequence_number] *)
Definition next_number (q : queue) : N := next_sequence_number (tracker q).

(** ** capabilities.rs *)

(** The loop of [find_next_run_of_blobs]; [old] is the number it started from and
    [None] means that the rounds were not enough. *)
Fixpoint next_run (rounds : nat) (old next : N) (new_blobs : list PreferredBlobDataWithId)
    (stored : list (N * BlobType)) (run : list BlobArrival)
  : option (list BlobArrival * list PreferredBlobDataWithId * N) :=
  match rounds with
  | O => None
  | S rounds =>
      let try_stored :=
        match stored with
        | (n, ty) :: stored' =>
            if n =? next then
              let run := run ++ [Stored n ty] in
              let next := wrap u64_max (next + 1) in
              if type_is_batch ty then Some (run, new_blobs, next)
              else next_run rounds old next new_blobs stored' run
            else Some (run, new_blobs, old)
        | [] => Some (run, new_blobs, old)
        end in
      match new_blobs with
      | b :: new_blobs' =>
          if number b =? next then
            let run := run ++ [New b] in
            let next := wrap u64_max (next + 1) in
            if is_batch (inner b) then Some (run, new_blobs', next)
            else next_run rounds old next new_blobs' stored run
          else try_stored
      | [] => try_stored
      end
  end.

(** The blobs that are too old, in the order in which they are discarded. *)
Definition too_low (next : N) (blobs : list PreferredBlobDataWithId) : list DiscardedBlob :=
  map (fun b => mkDiscarded (preferred_id b) SequenceNumberTooLow)
    (filter (fun b => number b < next) blobs).

Definition find_next_run_of_blobs (well_formed : list PreferredBlobDataWithId)
    (discarded : list DiscardedBlob) (t : SequencerNumberTracker)
  : option (list BlobArrival * list PreferredBlobDataWithId * N * list DiscardedBlob) :=
  let next := next_sequence_number t in
  let stored := sort_by_key fst (map_to_list (saved_sequencer_numbers t)) in
  let sorted := sort_by_key number well_formed in
  let discarded := discarded ++ too_low next sorted in
  let new_blobs := filter (fun b => next <= number b) sorted in
  let? (run, rest, next) :=
    next_run (S (length new_blobs + length stored)) next next new_blobs stored [] in
  Some (run, rest, next, discarded).

(** A blob is stored under its number. *)
Definition store_blob (qt : gmap N PreferredBlobDataWithId * gmap N BlobType)
    (b : PreferredBlobDataWithId) : gmap N PreferredBlobDataWithId * gmap N BlobType :=
  (<[number b := b]> qt.1, <[number b := blob_type (inner b)]> qt.2).

Definition new_of (a : BlobArrival) : option PreferredBlobDataWithId :=
  match a with New b => Some b | Stored _ _ => None end.

(** The blobs of the run, with the stored ones taken out of the storage; [None] is
    the panic for a blob that is in the index and not in storage. *)
Fixpoint load_run (run : list BlobArrival) (deferred : gmap N PreferredBlobDataWithId)
  : option (list PreferredBlobDataWithId * gmap N PreferredBlobDataWithId) :=
  match run with
  | [] => Some ([], deferred)
  | New b :: run' => let? (l, deferred) := load_run run' deferred in Some (b :: l, deferred)
  | Stored n _ :: run' =>
      let? b := deferred !! n in
      let? (l, deferred) := load_run run' (delete n deferred) in
      Some (b :: l, deferred)
  end.

Definition get_blobs_to_process_from_run (run : list BlobArrival)
    (new_blobs_not_processed : list PreferredBlobDataWithId) (next : N)
    (old : SequencerNumberTracker) (q : queue)
  : option (option (list PreferredBlobDataWithId) * queue) :=
  let saved := split_off next (saved_sequencer_numbers old) in
  let (deferred, saved) :=
    foldl store_blob (deferred_preferred_sequencer_blobs q, saved) new_blobs_not_processed in
  let create_rollup_block :=
    match last run with Some a => type_is_batch (arrival_type a) | None => false end in
  if create_rollup_block then
    let? (output, deferred) := load_run run deferred in
    Some (Some output, mkQueue deferred (Some (mkTracker next saved)))
  else
    let (deferred, saved) := foldl store_blob (deferred, saved) (omap new_of run) in
    Some (None, mkQueue deferred (Some (mkTracker next saved))).

(** The assertions of [pick_preferred_blobs_to_process]. *)
Fixpoint consecutive (l : list PreferredBlobDataWithId) : bool :=
  match l with
  | a :: (b :: _) as l' =>
      (wrap u64_max (number a + 1) =? number b) && consecutive l'
  | _ => true
  end.

Definition batches (l : list PreferredBlobDataWithId) : nat :=
  length (filter (fun b => is_batch (inner b) = true) l).

Definition pick_preferred_blobs_to_process (well_formed : list PreferredBlobDataWithId)
    (discarded : list DiscardedBlob) (q : queue)
  : option (list PreferredBlobDataWithId * list DiscardedBlob * queue) :=
  let? (run, rest, next, discarded) :=
    find_next_run_of_blobs well_formed discarded (tracker q) in
  let? (blobs, q) := get_blobs_to_process_from_run run rest next (tracker q) q in
  let blobs := default [] blobs in
  if consecutive blobs && Nat.leb (batches blobs) 1 then Some (blobs, discarded, q) else None.

(** ** The order as a specification *)

(** The numbers of [l] count up from [n]. *)
Fixpoint numbered (n : N) (l : list N) : Prop :=
  match l with [] => True | x :: l' => x = n /\ numbered (n + 1) l' end.

(** A run is made of proofs, with a batch at its end when it makes a block. *)
Definition is_run (types : list BlobType) : Prop :=
  exists k, types = replicate k ProofType \/ types = replicate k ProofType ++ [BatchType].

Definition makes_block (types : list BlobType) : Prop := last types = Some BatchType.

(** Every number of the index is that of a stored blob of the given type. *)
Definition indexed (deferred : gmap N PreferredBlobDataWithId) (saved : gmap N BlobType) : Prop :=
  forall n ty, saved !! n = Some ty ->
    exists b, deferred !! n = Some b /\ number b = n /\ blob_type (inner b) = ty /\ n < u64_max.

Definition queue_ok (q : queue) : Prop :=
  indexed (deferred_preferred_sequencer_blobs q) (saved_sequencer_numbers (tracker q)).

(** What the preferred sequencer must do: number its blobs without repetition. *)
Definition well_numbered (l : list PreferredBlobDataWithId) : Prop :=
  NoDup (map number l) /\ Forall (fun b => number b < u64_max) l.

(** The slots in order: what is picked in each of them. *)
Fixpoint pick_slots (slots : list (list PreferredBlobDataWithId)) (q : queue)
  : option (list (list PreferredBlobDataWithId) * queue) :=
  match slots with
  | [] => Some ([], q)
  | blobs :: slots' =>
      let? (out, _, q) := pick_preferred_blobs_to_process blobs [] q in
      let? (outs, q) := pick_slots slots' q in
      Some (out :: outs, q)
  end.
End BlobSequence.

Module BlobSequenceFacts.
Import BlobSequence.

Lemma numbered_app n l1 l2 :
  numbered n (l1 ++ l2) <-> numbered n l1 /\ numbered (n + len l1) l2.
Proof.
  revert n. induction l1 as [|x l1 IH]; intros n; cbn.
  - unfold len. cbn. rewrite N.add_0_r. tauto.
  - rewrite IH. unfold len. cbn [length]. replace (n + 1 + N.of_nat (length l1)) with
      (n + N.of_nat (S (length l1))) by lia. tauto.
Qed.

Lemma numbered_ge n l x : numbered n l -> x ∈ l -> n <= x < n + len l.
Proof.
  revert n. induction l as [|y l IH]; intros n; [set_solver|].
  intros [-> Hl] [->|Hx]%elem_of_cons; unfold len in *; cbn [length]; [lia|].
  specialize (IH _ Hl Hx). lia.
Qed.

(** The loop ends within its rounds. *)
Lemma next_run_total rounds old next new_blobs stored run :
  (length new_blobs + length stored < rounds)%nat ->
  is_Some (next_run rounds old next new_blobs stored run).
Proof.
  revert next new_blobs stored run.
  induction rounds as [|rounds IH]; intros next new_blobs stored run Hr; [lia|]. cbn [next_run].
  destruct new_blobs as [|b new_blobs]; [|destruct (_ =? _); [destruct (is_batch _); [done|]|]].
  2: by apply IH; cbn in *; lia.
  all: destruct stored as [|[n ty] stored]; [done|].
  all: destruct (_ =? _); [|done]; destruct (type_is_batch ty); [done|].
  all: by apply IH; cbn in *; lia.
Qed.

(** The rounds of the loop as a relation: from the number [next], with the new
    blobs and the stored numbers that are left, the run [r] is collected and
    [rest] is not used; [b] says that the run ends in a batch. *)
Inductive run_from (next : N)
  : list PreferredBlobDataWithId -> list (N * BlobType) -> list BlobArrival ->
    list PreferredBlobDataWithId -> bool -> Prop :=
| run_stuck new_blobs stored :
    (forall b, head new_blobs = Some b -> number b <> next) ->
    (forall x, head stored = Some x -> x.1 <> next) ->
    run_from next new_blobs stored [] new_blobs false
| run_new_batch b new_blobs stored :
    number b = next -> blob_type (inner b) = BatchType ->
    run_from next (b :: new_blobs) stored [New b] new_blobs true
| run_new_proof b new_blobs stored r rest block :
    number b = next -> blob_type (inner b) = ProofType ->
    run_from (next + 1) new_blobs stored r rest block ->
    run_from next (b :: new_blobs) stored (New b :: r) rest block
| run_stored_batch new_blobs stored :
    (forall b, head new_blobs = Some b -> number b <> next) ->
    run_from next new_blobs ((next, BatchType) :: stored) [Stored next BatchType] new_blobs true
| run_stored_proof new_blobs stored r rest block :
    (forall b, head new_blobs = Some b -> number b <> next) ->
    run_from (next + 1) new_blobs stored r rest block ->
    run_from next new_blobs ((next, ProofType) :: stored) (Stored next ProofType :: r) rest block.

Lemma is_batch_type b : is_batch b = type_is_batch (blob_type b).
Proof. by destruct b. Qed.

Lemma wrap_next n : n < u64_max -> wrap u64_max (n + 1) = n + 1.
Proof. intros Hn. unfold wrap. apply N.mod_small. lia. Qed.

Lemma next_run_from rounds old next new_blobs stored run run' rest n' :
  Forall (fun b => number b < u64_max) new_blobs -> Forall (fun x => x.1 < u64_max) stored ->
  next_run rounds old next new_blobs stored run = Some (run', rest, n') ->
  exists r block, run' = run ++ r /\ run_from next new_blobs stored r rest block /\
    n' = if block : bool then next + len r else old.
Proof.
  revert next new_blobs stored run.
  induction rounds as [|rounds IH]; intros next new_blobs stored run Hnew Hst; [done|].
  cbn [next_run]. set (try_stored := match stored with [] => _ | _ => _ end).
  assert ((forall b, head new_blobs = Some b -> number b <> next) ->
    try_stored = Some (run', rest, n') -> exists r block, run' = run ++ r /\
    run_from next new_blobs stored r rest block /\ n' = if block : bool then next + len r else old)
    as Htry.
  { intros Hhead. subst try_stored. destruct stored as [|[n ty] stored].
    { intros [= <- <- <-]. exists [], false. rewrite app_nil_r. split_and!; [done|by constructor|done]. }
    destruct (N.eqb_spec n next) as [->|].
    2: { intros [= <- <- <-]. exists [], false. rewrite app_nil_r. split_and!; [done| |done].
         constructor; [done|]. by intros ? [= <-]. }
    apply Forall_cons in Hst as [Hn Hst]. cbn in Hn. rewrite wrap_next by done. destruct ty; cbn.
    - intros [= <- <- <-]. exists [Stored next BatchType], true. split_and!; [done|by constructor|done].
    - intros Hrun. apply IH in Hrun as (r & block & -> & Hr & ->); [|done..].
      exists (Stored next ProofType :: r), block. rewrite <- app_assoc.
      split_and!; [done|by constructor|]. destruct block; [|done]. len_lia. }
  destruct new_blobs as [|b new_blobs]; [by apply Htry|].
  destruct (N.eqb_spec (number b) next) as [<-|]; [|apply Htry; by intros ? [= <-]].
  apply Forall_cons in Hnew as [Hn Hnew]. rewrite is_batch_type, wrap_next by done.
  destruct (blob_type (inner b)) eqn:Hty; cbn [type_is_batch].
  - intros [= <- <- <-]. exists [New b], true. split_and!; [done|by constructor|done].
  - intros Hrun. apply IH in Hrun as (r & block & -> & Hr & ->); [|done..].
    exists (New b :: r), block. rewrite <- app_assoc.
    split_and!; [done|by constructor|]. destruct block; [|done]. len_lia.
Qed.

Lemma run_numbers next new_blobs stored r rest block :
  run_from next new_blobs stored r rest block -> numbered next (map arrival_number r).
Proof. induction 1; cbn; auto. Qed.

Lemma run_new next new_blobs stored r rest block :
  run_from next new_blobs stored r rest block -> new_blobs = omap new_of r ++ rest.
Proof. induction 1 as [| |?????????? IH| |]; cbn; [done|done|f_equal; exact IH|done|done]. Qed.

Lemma run_stored next new_blobs stored r rest block n ty :
  run_from next new_blobs stored r rest block -> Stored n ty ∈ r -> (n, ty) ∈ stored.
Proof. induction 1; set_solver. Qed.

Lemma run_types next new_blobs stored r rest block :
  run_from next new_blobs stored r rest block ->
  exists k, map arrival_type r = replicate k ProofType ++ if block then [BatchType] else [].
Proof.
  induction 1 as [|????? Hty|???????? Hty ? [k Hk]| |???????? [k Hk]].
  - by exists O.
  - exists O. cbn. congruence.
  - exists (S k). cbn. by rewrite Hty, Hk.
  - by exists O.
  - exists (S k). cbn. by rewrite Hk.
Qed.

Lemma run_bounded next new_blobs stored r rest block :
  run_from next new_blobs stored r rest block ->
  Forall (fun b => number b < u64_max) new_blobs -> Forall (fun x => x.1 < u64_max) stored ->
  Forall (fun n => n < u64_max) (map arrival_number r).
Proof.
  induction 1; rewrite ?Forall_cons; cbn; rewrite ?Forall_cons; naive_solver.
Qed.

Abbreviation growing l := (StronglySorted (fun a b => number a < number b) l).

Lemma growing_head next l :
  (forall b, head l = Some b -> number b <> next) -> growing l ->
  Forall (fun b => next <= number b) l -> Forall (fun b => next + 1 <= number b) l.
Proof.
  intros Hhead Hs Hge. destruct l as [|b l]; [constructor|].
  specialize (Hhead b eq_refl). inversion_clear Hs as [|? ? _ Hlt]. inversion_clear Hge as [|? ? Hb _].
  constructor; [lia|]. eapply Forall_impl; [done|]. cbn. intros ? ?. lia.
Qed.

Lemma growing_tail next b l :
  number b = next -> growing (b :: l) -> Forall (fun b => next + 1 <= number b) l.
Proof.
  intros <- Hs. inversion_clear Hs as [|? ? _ Hlt]. eapply Forall_impl; [done|]. cbn. intros ? ?. lia.
Qed.

(** The blobs that are not used have later numbers, when the numbers of the new
    blobs grow strictly. *)
Lemma run_rest next new_blobs stored r rest block :
  run_from next new_blobs stored r rest block -> growing new_blobs ->
  Forall (fun b => next <= number b) new_blobs ->
  Forall (fun b => next + len r <= number b) rest.
Proof.
  induction 1 as [|next b|next b ????? Hb ?? IH|next ?? Hhead|next ????? Hhead ? IH];
    intros Hs Hge; unfold len in *; cbn [length] in *.
  - by rewrite N.add_0_r.
  - by eapply growing_tail.
  - replace (next + N.of_nat (S (length r))) with (next + 1 + N.of_nat (length r)) by lia.
    apply IH; [by inversion Hs|by eapply growing_tail].
  - by apply growing_head.
  - replace (next + N.of_nat (S (length r))) with (next + 1 + N.of_nat (length r)) by lia.
    apply IH; [done|by apply growing_head].
Qed.

Lemma growing_sorted l :
  ordered number l -> NoDup (map number l) -> growing l.
Proof.
  induction 1 as [|b l Hl IH Hb]; cbn; [constructor|]. rewrite NoDup_cons. intros [Hnin Hnd].
  constructor; [by apply IH|]. rewrite Forall_forall in *. intros x Hx. specialize (Hb x Hx).
  assert (number x <> number b); [|lia]. intros Heq. apply Hnin. rewrite <- Heq.
  by apply list_elem_of_fmap_2.
Qed.

Lemma growing_filter (P : PreferredBlobDataWithId -> Prop) `{!forall b, Decision (P b)} l :
  growing l -> growing (filter P l).
Proof.
  induction 1 as [|b l Hl IH Hb]; [constructor|]. rewrite filter_cons. destruct (decide (P b)); [|done].
  constructor; [done|]. rewrite Forall_forall in *. intros x [_ Hx]%list_elem_of_filter. auto.
Qed.

(** *** The storage *)

Lemma indexed_store_all l : forall d s,
  indexed d s -> Forall (fun b => number b < u64_max) l ->
  let (d', s') := foldl store_blob (d, s) l in
  indexed d' s' /\
  (forall n, Forall (fun b => number b <> n) l -> d' !! n = d !! n /\ s' !! n = s !! n).
Proof.
  induction l as [|b l IH]; intros d s Hi Hl; cbn; [done|].
  apply Forall_cons in Hl as [Hb Hl].
  specialize (IH (<[number b := b]> d) (<[number b := blob_type (inner b)]> s)).
  unfold store_blob at 2. cbn. destruct (foldl store_blob _ l) as [d' s'].
  destruct IH as [Hi' Hn]; [|done|].
  - intros n ty. destruct (decide (number b = n)) as [<-|Hne].
    + rewrite !lookup_insert_eq. intros [= <-]. eauto.
    + rewrite !lookup_insert_ne by done. auto.
  - split; [done|]. intros n [Hne Hne']%Forall_cons. destruct (Hn n Hne') as [-> ->].
    by rewrite !lookup_insert_ne by done.
Qed.

Lemma load_run_ok r : forall next d,
  numbered next (map arrival_number r) ->
  (forall n ty, Stored n ty ∈ r ->
     exists b, d !! n = Some b /\ number b = n /\ blob_type (inner b) = ty) ->
  exists l d', load_run r d = Some (l, d') /\ map number l = map arrival_number r /\
    map (fun b => blob_type (inner b)) l = map arrival_type r /\
    (forall n, next + len r <= n -> d' !! n = d !! n).
Proof.
  induction r as [|[b|n ty] r IH]; intros next d; cbn [map numbered load_run].
  - intros _ _. by exists [], d.
  - intros [Hb Hnum] Hst. destruct (IH (next + 1) d Hnum) as (l & d' & -> & Hn & Ht & Hd).
    { intros n ty Hin. apply Hst. by right. }
    exists (b :: l), d'. cbn. rewrite Hn, Ht. split_and!; [done..|].
    intros n Hle. apply Hd. unfold len in *. cbn [length] in Hle. lia.
  - cbn. intros [-> Hnum] Hst. destruct (Hst next ty) as (b & Hb & Hnb & Htb); [by left|].
    rewrite Hb. destruct (IH (next + 1) (delete next d) Hnum) as (l & d' & -> & Hn & Ht & Hd).
    { intros n ty' Hin. destruct (Hst n ty') as (b' & Hb' & ?); [by right|]. exists b'.
      rewrite lookup_delete_ne; [done|].
      assert (next + 1 <= n); [|lia].
      apply (numbered_ge _ _ n) in Hnum; [lia|].
      change n with (arrival_number (Stored n ty')). by apply list_elem_of_fmap_2. }
    exists (b :: l), d'. cbn. rewrite Hn, Ht, Hnb, Htb. split_and!; [done..|].
    intros n Hle. unfold len in *. cbn [length] in Hle. rewrite Hd by lia.
    rewrite lookup_delete_ne; [done|lia].
Qed.

(** The assertions hold for what is loaded. *)
Lemma consecutive_numbered next l :
  Forall (fun n => n < u64_max) (map number l) -> numbered next (map number l) ->
  consecutive l = true.
Proof.
  revert next. induction l as [|a [|b l] IH]; intros next Hl Hn; [done|done|].
  apply Forall_cons in Hl as [Ha Hl]. destruct Hn as [<- Hn].
  change ((wrap u64_max (number a + 1) =? number b) && consecutive (b :: l) = true).
  rewrite (IH (number a + 1)) by done. destruct Hn as [Hb Hn].
  by rewrite wrap_next, Hb, N.eqb_refl.
Qed.

Lemma batches_run l k (tl : list BlobType) :
  map (fun b => blob_type (inner b)) l = replicate k ProofType ++ tl ->
  (batches l <= length tl)%nat.
Proof.
  revert k. induction l as [|b l IH]; intros k Hl; [cbn; lia|]. destruct k as [|k].
  - cbn [replicate app] in Hl. rewrite <- Hl, length_map. apply length_filter.
  - injection Hl as Hb Hl. unfold batches. rewrite filter_cons.
    destruct (inner b); [done|]. rewrite decide_False by done. by apply (IH k).
Qed.

(** *** One slot *)

Lemma stored_bounded q :
  queue_ok q ->
  Forall (fun x => x.1 < u64_max)
    (sort_by_key fst (map_to_list (saved_sequencer_numbers (tracker q)))).
Proof.
  intros Hq. rewrite sort_by_key_perm. apply Forall_forall. intros [n ty] Hin.
  apply elem_of_map_to_list in Hin. by destruct (Hq n ty Hin) as (b & _ & _ & _ & ?).
Qed.

Definition news (q : queue) (l : list PreferredBlobDataWithId) : list PreferredBlobDataWithId :=
  filter (fun b => next_number q <= number b) (sort_by_key number l).

Lemma news_ok q l :
  well_numbered l ->
  growing (news q l) /\ Forall (fun b => next_number q <= number b) (news q l) /\
  Forall (fun b => number b < u64_max) (news q l).
Proof.
  intros [Hnd Hlt]. unfold news. split_and!.
  - apply growing_filter, growing_sorted; [apply sort_by_key_ordered|].
    by rewrite sort_by_key_perm.
  - apply Forall_forall. by intros b [? _]%list_elem_of_filter.
  - apply Forall_forall. intros b [_ Hb]%list_elem_of_filter.
    rewrite sort_by_key_perm in Hb. rewrite Forall_forall in Hlt. auto.
Qed.

Lemma find_next_run_ok q l d :
  queue_ok q -> well_numbered l ->
  exists r rest block,
    find_next_run_of_blobs l d (tracker q) =
      Some (r, rest, if block : bool then next_number q + len r else next_number q,
            d ++ too_low (next_number q) (sort_by_key number l)) /\
    run_from (next_number q) (news q l)
      (sort_by_key fst (map_to_list (saved_sequencer_numbers (tracker q)))) r rest block.
Proof.
  intros Hq Hl. destruct (news_ok q l Hl) as (_ & _ & Hlt). unfold find_next_run_of_blobs.
  fold (next_number q). fold (news q l).
  set (stored := sort_by_key fst _).
  destruct (next_run_total (S (length (news q l) + length stored)) (next_number q) (next_number q)
    (news q l) stored []) as [[[run rest] n'] Hrun]; [lia|].
  rewrite Hrun. apply next_run_from in Hrun as (r & block & -> & Hr & ->);
    [|done|by apply stored_bounded].
  by exists r, rest, block.
Qed.

Definition types (l : list PreferredBlobDataWithId) : list BlobType :=
  map (fun b => blob_type (inner b)) l.

Lemma last_types r k (block : bool) :
  map arrival_type r = replicate k ProofType ++ (if block then [BatchType] else []) ->
  match last r with Some a => type_is_batch (arrival_type a) | None => false end = block.
Proof.
  intros Hr. assert (arrival_type <$> last r = last (replicate k ProofType ++ if block then [BatchType] else []))
    as Hl. { rewrite <- Hr. symmetry. apply fmap_last. }
  destruct block.
  { rewrite last_snoc in Hl. destruct (last r) as [a|]; [|done]. cbn in Hl. by injection Hl as ->. }
  rewrite app_nil_r in Hl. destruct (last r) as [a|]; [|done]. cbn in Hl.
  symmetry in Hl. apply last_Some_elem_of, elem_of_replicate in Hl as [-> _]. done.
Qed.

Lemma run_blobs_bounded r rest l :
  l = omap new_of r ++ rest -> Forall (fun b => number b < u64_max) l ->
  Forall (fun b => number b < u64_max) rest /\
  Forall (fun b => number b < u64_max) (omap new_of r).
Proof. intros -> Hl. by apply Forall_app in Hl as [??]. Qed.

(** What is not in the run stays indexed. *)
Lemma indexed_split next d s : indexed d s -> indexed d (split_off next s).
Proof. intros Hi n ty [Hn _]%split_off_lookup. auto. Qed.

Lemma store_all_later next rest : forall d s d' s',
  foldl store_blob (d, s) rest = (d', s') -> Forall (fun b => next <= number b) rest ->
  (forall n ty, s !! n = Some ty -> next <= n) -> forall n ty, s' !! n = Some ty -> next <= n.
Proof.
  induction rest as [|b rest IH]; intros d s d' s'; cbn.
  - by intros [= <- <-] _.
  - intros Hf [Hb Hr]%Forall_cons Hs. apply (IH _ _ _ _ Hf Hr). intros n ty.
    destruct (decide (number b = n)) as [<-|Hne]; [done|]. rewrite lookup_insert_ne by done. apply Hs.
Qed.

(** Every blob of the storage and of the run comes from the slot or from the
    storage. *)
Definition holds_in (P : PreferredBlobDataWithId -> Prop) (d : gmap N PreferredBlobDataWithId)
  : Prop := forall n b, d !! n = Some b -> P b.

Lemma store_all_holds P l : forall d s,
  holds_in P d -> Forall P l -> holds_in P (foldl store_blob (d, s) l).1.
Proof.
  induction l as [|b l IH]; intros d s Hd Hl; cbn; [done|]. apply Forall_cons in Hl as [Hb Hl].
  apply IH; [|done]. intros n c [[_ <-]|[_ Hc]]%lookup_insert_Some; [done|by eapply Hd].
Qed.

Lemma load_run_holds P r : forall d out d',
  load_run r d = Some (out, d') -> holds_in P d -> Forall P (omap new_of r) ->
  Forall P out /\ holds_in P d'.
Proof.
  induction r as [|[b|n ty] r IH]; intros d out d'; cbn.
  - by intros [= <- <-].
  - destruct (load_run r d) as [[l d1]|] eqn:Hl; [|done]. intros [= <- <-] Hd [Hb Hr]%Forall_cons.
    destruct (IH _ _ _ Hl Hd Hr). split; [by constructor|done].
  - destruct (d !! n) as [b|] eqn:Hb; [|done].
    destruct (load_run r (delete n d)) as [[l d1]|] eqn:Hl; [|done]. intros [= <- <-] Hd Hr.
    destruct (IH _ _ _ Hl) as [Hl' Hd']; [|done|].
    + intros m c [_ Hc]%lookup_delete_Some. by eapply Hd.
    + split; [|done]. constructor; [by eapply Hd|done].
Qed.

Lemma pick_ok q l d :
  queue_ok q -> well_numbered l ->
  exists out q',
    pick_preferred_blobs_to_process l d q =
      Some (out, d ++ too_low (next_number q) (sort_by_key number l), q') /\
    queue_ok q' /\ numbered (next_number q) (map number out) /\
    next_number q' = next_number q + len out /\
    (out = [] \/ exists k, types out = replicate k ProofType ++ [BatchType]) /\
    exists r rest block, run_from (next_number q) (news q l)
      (sort_by_key fst (map_to_list (saved_sequencer_numbers (tracker q)))) r rest block /\
      next_number q' = (if block : bool then next_number q + len r else next_number q) /\
      forall P, Forall P l -> holds_in P (deferred_preferred_sequencer_blobs q) ->
        Forall P out /\ holds_in P (deferred_preferred_sequencer_blobs q').
Proof.
  intros Hq Hl. destruct (find_next_run_ok q l d Hq Hl) as (r & rest & block & Hfind & Hr).
  unfold pick_preferred_blobs_to_process. rewrite Hfind. clear Hfind.
  destruct (news_ok q l Hl) as (Hgrow & Hge & Hlt).
  pose proof (run_rest _ _ _ _ _ _ Hr Hgrow Hge) as Hrest.
  pose proof (run_numbers _ _ _ _ _ _ Hr) as Hnum.
  destruct (run_blobs_bounded _ _ _ (run_new _ _ _ _ _ _ Hr) Hlt) as [Hltr Hltn].
  destruct (run_types _ _ _ _ _ _ Hr) as [k Hty].
  unfold get_blobs_to_process_from_run. rewrite (last_types r k block Hty).
  set (next := next_number q) in *. set (n' := if block then next + len r else next).
  destruct (foldl store_blob _ rest) as [d1 s1] eqn:Hf1.
  pose proof (indexed_store_all rest _ _ (indexed_split n' _ _ Hq) Hltr) as Hi1.
  rewrite Hf1 in Hi1. destruct Hi1 as [Hi1 Hkeep].
  assert (forall P, Forall P l -> holds_in P (deferred_preferred_sequencer_blobs q) ->
    Forall P (omap new_of r) /\ holds_in P d1) as Hfrom.
  { intros P HP Hd. assert (Forall P (news q l)) as Hn.
    { unfold news. rewrite Forall_forall in *. intros b [_ Hb]%list_elem_of_filter. apply HP.
      by rewrite sort_by_key_perm in Hb. }
    rewrite (run_new _ _ _ _ _ _ Hr) in Hn. apply Forall_app in Hn as [Hn Hn'].
    split; [done|]. pose proof (store_all_holds P rest _ (split_off n' (saved_sequencer_numbers
      (tracker q))) Hd Hn') as Hd1. by rewrite Hf1 in Hd1. }
  destruct block.
  - destruct (load_run_ok r next d1 Hnum) as (out & d2 & Hload & Hno & Hto & Hd2).
    { intros n ty Hin. pose proof (run_stored _ _ _ _ _ _ _ _ Hr Hin) as Hst.
      rewrite sort_by_key_perm in Hst. apply elem_of_map_to_list in Hst.
      destruct (Hq n ty Hst) as (b & Hb & Hnb & Htb & _). exists b.
      destruct (Hkeep n) as [-> _]; [|done]. eapply Forall_impl; [exact Hrest|]. cbn. intros x Hx Heq.
      apply (numbered_ge _ _ n) in Hnum; [unfold len in *; rewrite length_map in Hnum; lia|].
      change n with (arrival_number (Stored n ty)). by apply list_elem_of_fmap_2. }
    rewrite Hload. assert (len out = len r) as Hlen.
    { unfold len. by rewrite <- (length_map number out), Hno, length_map. }
    pose proof (run_bounded _ _ _ _ _ _ Hr Hlt (stored_bounded q Hq)) as Hbd.
    rewrite <- Hno in Hnum, Hbd. rewrite Hty in Hto. change (default [] (Some out)) with out.
    pose proof (batches_run _ _ _ Hto) as Hone. cbn [length] in Hone.
    rewrite (consecutive_numbered next), (proj2 (Nat.leb_le _ _) Hone) by done.
    cbn [andb]. exists out, (mkQueue d2 (Some (mkTracker n' s1))). split_and!; [done| |done| |right; eauto|exists r, rest, true; split_and!; [done|done|]].
    + intros n ty Hn. destruct (Hi1 n ty Hn) as (b & Hb & ?). exists b. cbn. rewrite Hd2; [done|].
      eapply store_all_later; [exact Hf1|exact Hrest| |exact Hn].
      by intros ? ? [_ ?]%split_off_lookup.
    + unfold next_number. cbn. unfold n'. by rewrite Hlen.
    + intros P HP Hd. destruct (Hfrom P HP Hd). by eapply load_run_holds.
  - destruct (foldl store_blob (d1, s1) (omap new_of r)) as [d2 s2] eqn:Hf2.
    pose proof (indexed_store_all (omap new_of r) _ _ Hi1 Hltn) as Hi2. rewrite Hf2 in Hi2.
    exists [], (mkQueue d2 (Some (mkTracker n' s2))). split_and!; [done|apply Hi2|done| |by left|exists r, rest, false; split_and!; [done|done|]].
    + unfold next_number. cbn. unfold n', len. cbn. lia.
    + intros P HP Hd. destruct (Hfrom P HP Hd) as [Hn Hd1]. split; [constructor|].
      pose proof (store_all_holds P (omap new_of r) _ s1 Hd1 Hn) as Hd2. by rewrite Hf2 in Hd2.
Qed.

(** *** Completeness: a batch whose predecessors have all arrived is reached *)

Definition arrived (new_blobs : list PreferredBlobDataWithId) (stored : list (N * BlobType))
    (n : N) (ty : BlobType) : Prop :=
  (exists b, b ∈ new_blobs /\ number b = n /\ blob_type (inner b) = ty) \/ (n, ty) ∈ stored.

Abbreviation increasing l := (StronglySorted (fun x y : N * BlobType => x.1 < y.1) l).

(** The iterators: both grow, start at [next] or later and have no number in
    common. *)
Record iterators (next : N) (new_blobs : list PreferredBlobDataWithId)
    (stored : list (N * BlobType)) : Prop := mkIterators {
  it_new : growing new_blobs;
  it_stored : increasing stored;
  it_new_ge : Forall (fun b => next <= number b) new_blobs;
  it_stored_ge : Forall (fun x => next <= x.1) stored;
  it_disjoint : forall b x, b ∈ new_blobs -> x ∈ stored -> number b <> x.1
}.

Lemma iterators_new next b new_blobs stored :
  iterators next (b :: new_blobs) stored -> number b = next ->
  iterators (next + 1) new_blobs stored /\
  (forall ty, arrived (b :: new_blobs) stored next ty -> blob_type (inner b) = ty) /\
  (forall n ty, next < n -> arrived (b :: new_blobs) stored n ty -> arrived new_blobs stored n ty).
Proof.
  intros [Hn Hs Hng Hsg Hd] Hb. pose proof (growing_tail _ _ _ Hb Hn) as Ht. split_and!.
  - split; [by inversion Hn|done|done| |set_solver]. rewrite Forall_forall in *. intros x Hx.
    specialize (Hsg x Hx). assert (number b <> x.1) by (apply Hd; set_solver). lia.
  - intros ty [(c & [->|Hc]%elem_of_cons & Hnc & Htc)|Hst]; [done| |].
    + rewrite Forall_forall in Ht. specialize (Ht c Hc). lia.
    + by destruct (Hd b (next, ty)); [set_solver| |].
  - intros n ty Hlt [(c & [->|Hc]%elem_of_cons & Hnc & Htc)|Hst]; [lia|left; eauto|by right].
Qed.

Lemma iterators_stored next new_blobs ty0 stored :
  iterators next new_blobs ((next, ty0) :: stored) ->
  (forall b, head new_blobs = Some b -> number b <> next) ->
  iterators (next + 1) new_blobs stored /\
  (forall ty, arrived new_blobs ((next, ty0) :: stored) next ty -> ty0 = ty) /\
  (forall n ty, next < n -> arrived new_blobs ((next, ty0) :: stored) n ty ->
     arrived new_blobs stored n ty).
Proof.
  intros [Hn Hs Hng Hsg Hd] Hhead. pose proof (growing_head _ _ Hhead Hn Hng) as Ht.
  inversion_clear Hs as [|? ? Hs' Hlt]. split_and!.
  - split; [done|done|done| |set_solver]. eapply Forall_impl; [exact Hlt|]. cbn. intros; lia.
  - intros ty [(c & Hc & Hnc & Htc)|[[= ->]|Hst]%elem_of_cons]; [|done|].
    + rewrite Forall_forall in Ht. specialize (Ht c Hc). lia.
    + rewrite Forall_forall in Hlt. specialize (Hlt _ Hst). cbn in Hlt. lia.
  - intros n ty Hn' [Hnew|[[= -> ->]|Hst]%elem_of_cons]; [by left|lia|by right].
Qed.

Lemma iterators_stuck next new_blobs stored ty :
  iterators next new_blobs stored ->
  (forall b, head new_blobs = Some b -> number b <> next) ->
  (forall x, head stored = Some x -> x.1 <> next) -> ~ arrived new_blobs stored next ty.
Proof.
  intros [Hn Hs Hng Hsg _] Hhn Hhs. pose proof (growing_head _ _ Hhn Hn Hng) as Ht.
  rewrite Forall_forall in Ht. intros [(c & Hc & Hnc & _)|Hst]; [specialize (Ht c Hc); lia|].
  destruct stored as [|x stored]; [set_solver|]. specialize (Hhs x eq_refl).
  apply Forall_cons in Hsg as [Hx _]. inversion_clear Hs as [|? ? _ Hlt].
  apply elem_of_cons in Hst as [<-|Hst]; [done|].
  rewrite Forall_forall in Hlt. specialize (Hlt _ Hst). cbn in *. lia.
Qed.

Lemma run_complete next new_blobs stored r rest block m :
  run_from next new_blobs stored r rest block -> iterators next new_blobs stored -> next <= m ->
  (forall i, next <= i < m -> arrived new_blobs stored i ProofType) ->
  arrived new_blobs stored m BatchType ->
  block = true /\ next + len r = m + 1.
Proof.
  induction 1 as [next new_blobs stored Hhn Hhs|next b new_blobs stored Hb Hty
    |next b new_blobs stored r rest block Hb Hty Hr IH|next new_blobs stored Hhn
    |next new_blobs stored r rest block Hhn Hr IH]; intros Hit Hle Hproofs Hbatch;
    assert (m = next \/ next < m /\ arrived _ _ next ProofType) as Hcase
      by (destruct (N.eq_dec m next); [by left|right; split; [lia|apply Hproofs; lia]]).
  - destruct Hcase as [->|[_ Hp]]; by eapply iterators_stuck in Hit.
  - destruct (iterators_new _ _ _ _ Hit Hb) as (_ & Hat & _).
    destruct Hcase as [->|[_ Hp]]; [done|]. specialize (Hat _ Hp). congruence.
  - destruct (iterators_new _ _ _ _ Hit Hb) as (Hit' & Hat & Htl).
    destruct Hcase as [->|[Hlt Hp]]; [specialize (Hat _ Hbatch); congruence|].
    destruct IH as [-> Hlen]; [done|lia|intros; apply Htl; [lia|apply Hproofs; lia]|by apply Htl|].
    split; [done|]. len_lia.
  - destruct (iterators_stored _ _ _ _ Hit Hhn) as (_ & Hat & _).
    destruct Hcase as [->|[_ Hp]]; [done|]. by specialize (Hat _ Hp).
  - destruct (iterators_stored _ _ _ _ Hit Hhn) as (Hit' & Hat & Htl).
    destruct Hcase as [->|[Hlt Hp]]; [by specialize (Hat _ Hbatch)|].
    destruct IH as [-> Hlen]; [done|lia|intros; apply Htl; [lia|apply Hproofs; lia]|by apply Htl|].
    split; [done|]. len_lia.
Qed.

(** The stored numbers as an iterator. *)
Lemma stored_increasing (m : gmap N BlobType) : increasing (sort_by_key fst (map_to_list m)).
Proof.
  assert (NoDup (map fst (sort_by_key fst (map_to_list m)))) as Hnd.
  { rewrite sort_by_key_perm. apply NoDup_fst_map_to_list. }
  pose proof (sort_by_key_ordered fst (map_to_list m)) as Hs. revert Hnd.
  induction Hs as [|x l Hl IH Hx]; cbn; [constructor|]. rewrite NoDup_cons. intros [Hnin Hnd].
  constructor; [by apply IH|]. rewrite Forall_forall in *. intros y Hy. specialize (Hx y Hy).
  assert (y.1 <> x.1); [|lia]. intros Heq. apply Hnin. rewrite <- Heq. by apply list_elem_of_fmap_2.
Qed.
End BlobSequenceFacts.

(** ** Properties *)
Module BlobSequenceProperties.
Import BlobSequence BlobSequenceFacts.

(** A blob with the number [n] is waiting, new on the DA layer or stored. *)
Definition waiting (q : queue) (l : list PreferredBlobDataWithId) (n : N) (ty : BlobType) : Prop :=
  (exists b, b ∈ l /\ number b = n /\ blob_type (inner b) = ty) \/
  saved_sequencer_numbers (tracker q) !! n = Some ty.

(** C25: the preferred sequencer's blobs are picked for processing in the order of
    their numbers, each of them once, whatever the order on the DA layer is.  Over any
    slots in each of which the numbers do not repeat and are below the largest one, no
    assertion fails, the numbers of all picked blobs count up from the next expected
    one without a gap, and what a slot picks is nothing or some proofs followed by one
    batch.  The selection that follows may still drop a picked blob, for its size or
    for the stake of the sequencer; its number is used up all the same. *)
Theorem preferred_blobs_in_order q slots
    (Hq : queue_ok q) (Hslots : Forall well_numbered slots) :
  exists outs q', pick_slots slots q = Some (outs, q') /\ queue_ok q' /\
    numbered (next_number q) (map number (concat outs)) /\
    next_number q' = next_number q + len (concat outs) /\
    Forall (fun out => out = [] \/ exists k, types out = replicate k ProofType ++ [BatchType]) outs.
Proof.
  revert q Hq. induction Hslots as [|l slots Hl Hslots IH]; intros q Hq; cbn [pick_slots].
  { exists [], q. unfold len. cbn. rewrite N.add_0_r. by split_and!. }
  destruct (pick_ok q l [] Hq Hl) as (out & q1 & -> & Hq1 & Hnum & Hnext & Hty & _).
  destruct (IH q1 Hq1) as (outs & q' & -> & Hq' & Hnum' & Hnext' & Htys).
  exists (out :: outs), q'. cbn [concat]. rewrite map_app, numbered_app.
  split_and!; [done|done|done| |by rewrite Hnext', Hnext, TxCodecFacts.len_app, N.add_assoc
    |by constructor].
  rewrite Hnext in Hnum'. unfold len in *. by rewrite length_map.
Qed.

(** C38: nothing is held back.  When the numbers of the slot do not repeat and are
    below the largest one, none of them is stored already, no stored number is older
    than the next expected one, and all the proofs before a batch and the batch itself
    are waiting, in the slot or in the storage, then the slot picks exactly the blobs
    from the next expected one up to that batch, in order, and expects the number after
    it. *)
Theorem preferred_run_complete q l m
    (Hq : queue_ok q) (Hl : well_numbered l) (Hm : next_number q <= m)
    (Hfresh : forall n, is_Some (saved_sequencer_numbers (tracker q) !! n) ->
       next_number q <= n /\ n ∉ map number l)
    (Hproofs : forall i, next_number q <= i < m -> waiting q l i ProofType)
    (Hbatch : waiting q l m BatchType) :
  exists out d q', pick_preferred_blobs_to_process l [] q = Some (out, d, q') /\
    numbered (next_number q) (map number out) /\ next_number q + len out = m + 1 /\
    next_number q' = m + 1.
Proof.
  destruct (pick_ok q l [] Hq Hl) as (out & q' & Hpick & _ & Hnum & Hnext & _ & r & rest & block & Hr & Hn & _).
  destruct (news_ok q l Hl) as (Hgrow & Hge & _).
  assert (forall n ty, next_number q <= n -> waiting q l n ty -> arrived (news q l)
    (sort_by_key fst (map_to_list (saved_sequencer_numbers (tracker q)))) n ty) as Harr.
  { intros n ty Hle [(b & Hb & Hnb & Htb)|Hs]; [left|right].
    - exists b. split; [|done]. unfold news. apply list_elem_of_filter. split; [lia|].
      by rewrite sort_by_key_perm.
    - by rewrite sort_by_key_perm, elem_of_map_to_list. }
  destruct (run_complete _ _ _ _ _ _ m Hr) as [-> Hlen]; [|done
    |intros i Hi; apply Harr; [lia|by apply Hproofs]|by apply Harr|].
  - split; [done|apply stored_increasing|done|..].
    + rewrite sort_by_key_perm. apply Forall_forall. intros [n ty] Hin%elem_of_map_to_list.
      destruct (Hfresh n); [by eexists|done].
    + intros b [n ty] [_ Hb]%list_elem_of_filter Hin. rewrite sort_by_key_perm in Hb. rewrite sort_by_key_perm in Hin.
      apply elem_of_map_to_list in Hin. destruct (Hfresh n) as [_ Hnin]; [by eexists|].
      intros Heq. apply Hnin. cbn in Heq. rewrite <- Heq. by apply list_elem_of_fmap_2.
  - exists out, ([] ++ too_low (next_number q) (sort_by_key number l)), q'.
    split_and!; [done|done|lia|lia].
Qed.

(** *** Examples *)

Definition a_batch (n : N) : PreferredBlobDataWithId :=
  mkPreferredBlob (PreferredBatch (mkPreferredBatch n [] 1)) [n].
Definition a_proof (n : N) : PreferredBlobDataWithId :=
  mkPreferredBlob (PreferredProof (mkPreferredProof n [])) [n].

(** A queue that waits for the number 5 and stores the given blobs. *)
Definition queue_at_5 (stored : list PreferredBlobDataWithId) : queue :=
  let (d, s) := foldl store_blob (∅, ∅) stored in mkQueue d (Some (mkTracker 5 s)).

Lemma queue_at_5_ok stored :
  Forall (fun b => number b < u64_max) stored -> queue_ok (queue_at_5 stored).
Proof.
  intros Hs. unfold queue_at_5, queue_ok.
  pose proof (indexed_store_all stored ∅ ∅ ltac:(intros n ty Hn; by rewrite lookup_empty in Hn) Hs) as Hi.
  destruct (foldl store_blob (∅, ∅) stored) as [d s]. apply Hi.
Qed.

Definition summary (o : option (list PreferredBlobDataWithId * list DiscardedBlob * queue))
  : option (list (N * BlobType)) :=
  let? (out, _, _) := o in Some (map (fun b => (number b, blob_type (inner b))) out).

(** The order of the blobs depends on the numbers not repeating.  With a
    repeated number (i) the assertion that a run has one batch fails: stored are
    the proof 6 and the batch 7, and a slot brings the proof 5 twice and a batch 6,
    which replaces the stored proof; (ii) a run that is known to end in a batch is
    returned with a proof at its end, for which the caller panics; (iii) a stored
    batch with the next number is not found in the slot after one that brought a
    number twice. *)
Theorem repeated_numbers_break_order :
  queue_ok (queue_at_5 [a_proof 6; a_batch 7]) /\
  pick_preferred_blobs_to_process [a_proof 5; a_proof 5; a_batch 6] []
    (queue_at_5 [a_proof 6; a_batch 7]) = None /\
  queue_ok (queue_at_5 [a_batch 6]) /\
  summary (pick_preferred_blobs_to_process [a_proof 5; a_proof 5; a_proof 6] []
    (queue_at_5 [a_batch 6])) = Some [(5, ProofType); (6, ProofType)] /\
  match pick_preferred_blobs_to_process [a_batch 5; a_batch 5] [] (queue_at_5 [a_batch 6]) with
  | Some (_, _, q') => next_number q' = 6 /\ number <$> deferred_preferred_sequencer_blobs q' !! 6 = Some 6 /\
      summary (pick_preferred_blobs_to_process [] [] q') = Some []
  | None => False
  end.
Proof.
  split_and!; [by apply queue_at_5_ok; repeat constructor|by vm_compute
    |by apply queue_at_5_ok; repeat constructor|by vm_compute|].
  by vm_compute.
Qed.

(** Three slots with the numbers 5 to 9 out of order. *)
Lemma preferred_blobs_in_order_witness :
  exists outs q', pick_slots [[a_batch 7; a_proof 5]; [a_batch 9; a_proof 6]; [a_proof 8]]
      (queue_at_5 []) = Some (outs, q') /\
    numbered 5 (map number (concat outs)) /\ next_number q' = 5 + len (concat outs).
Proof.
  destruct (preferred_blobs_in_order (queue_at_5 [])
    [[a_batch 7; a_proof 5]; [a_batch 9; a_proof 6]; [a_proof 8]]) as (outs & q' & Hp & _ & Hn & Hl & _).
  - apply queue_at_5_ok. constructor.
  - repeat constructor; set_solver.
  - exists outs, q'. split; [exact Hp|split; [exact Hn|exact Hl]].
Defined.

(** The proof 5 is stored, the batch 6 arrives. *)
Lemma preferred_run_complete_witness :
  exists out d q', pick_preferred_blobs_to_process [a_batch 6] [] (queue_at_5 [a_proof 5]) =
      Some (out, d, q') /\ 5 + len out = 6 + 1.
Proof.
  destruct (preferred_run_complete (queue_at_5 [a_proof 5]) [a_batch 6] 6)
    as (out & d & q' & Hp & _ & Hl & _).
  - apply queue_at_5_ok. repeat constructor.
  - split; repeat constructor; set_solver.
  - vm_compute. discriminate.
  - intros n [ty Hty]. change (<[5 := ProofType]> (∅ : gmap N BlobType) !! n = Some ty) in Hty.
    apply lookup_insert_Some in Hty as [[<- _]|[_ Hty]]; [|by rewrite lookup_empty in Hty].
    split; [vm_compute; discriminate|]. set_solver.
  - intros i Hi. replace i with 5 by (change (5 <= i < 6) in Hi; lia). right. reflexivity.
  - left. exists (a_batch 6). split_and!; [by left|reflexivity|reflexivity].
  - exists out, d, q'. split; [exact Hp|exact Hl].
Defined.
End BlobSequenceProperties.
