(* ===== verification/BlobStorage.v ===== *)
(** * The selection of blobs (sov-blob-storage)

    Which blobs of the DA layer a slot executes: capabilities.rs and validation.rs
    of sov-blob-storage.  A blob is decoded at the expense of its sender, the gas
    for its pre-execution checks is reserved, and then it is selected, deferred to
    the slot in which it becomes visible, or discarded.  The blobs of the preferred
    sequencer are ordered by [BlobSequence], the size of the selection is bounded by
    [Blobs].

    The functions run on a [KernelStateAccessor]: it does not charge, so the meter
    is [unit]; it gives the slot numbers and the chain state, which the selection
    only reads, so it is the parameter [k].  A function that returns an [Option]
    has the error [tt] for [None], because what it wrote before stays written.
    [discarded_blobs] and the accumulator, which are passed as [&mut], are returned.
    A blob is read in native mode, where all its bytes are available.

    The decoders of borsh are parameters, except that of [FullyBakedTx]. *)

From Stdlib Require Import NArith Lia.
From stdpp Require Import base numbers gmap strings option list.
From S2P Require Import Prelude Ints Gas StateAccess GasPrice Bank SequencerRegistry Capabilities.
From S2P Require Import ChainState StfBlueprint Blobs BlobSequence.

(** A blob on the DA layer: its sender, its hash and its bytes. *)
Record BlobTransaction {Sp : Spec} : Type := mkBlobTransaction {
  tx_sender : DaAddress;
  tx_hash : list N;
  full_data : list N
}.
Arguments BlobTransaction : clear implicits.

(** [BlobOrigin], runtime/capabilities/batch_selector.rs *)
Inductive BlobOrigin {Sp : Spec} : Type :=
| FromBatch (b : BlobTransaction Sp)
| FromProof (b : BlobTransaction Sp).
Arguments BlobOrigin : clear implicits.

(** [BorshDeserialize::try_from_slice] of the types that blobs are decoded to, and
    the length of an address of the DA layer. *)
Class BlobCodec (Sp : Spec) : Type := {
  decode_preferred_proof : list N -> option PreferredProofData;
  decode_preferred_batch : list N -> option PreferredBatchData;
  decode_proof : list N -> option (list N);
  decode_batch : list N -> option (list FullyBakedTx);
  decode_tx : list N -> option FullyBakedTx;
  da_address_len : DaAddress -> N
}.

Class BlobConstants : Type := {
  UNREGISTERED_BLOBS_PER_SLOT : N;
  MAX_ALLOWED_DATA_SIZE_RETURNED_BY_BLOB_STORAGE : N;
  MAX_VISIBLE_HEIGHT_INCREASE_PER_SLOT : N
}.

Module BlobStorage.
Import BlobSequence.
Section BlobStorage.
Context {Sp : Spec} {Rt : StateRoot} {Prices : PriceConfig} {Consts : ChainConstants}
  {GS : GasSpec} {Cst : RegistryConstants} {Bsh : BorshIntegers} {Codec : BlobCodec Sp}
  {BC : BlobConstants}.

Abbreviation ValidatedBlob := (Blob.ValidatedBlob (Sp := Sp)).
Abbreviation SelectedBlob := (Blob.SelectedBlob (Sp := Sp)).

(** ** State, lib.rs *)
Record t : Type := mk {
  sequencer_registry : SequencerRegistry.t;
  deferred_blobs : gmap N (list ValidatedBlob);
  preferred_queue : queue
}.

Definition set_registry (r : SequencerRegistry.t) (s : t) : t :=
  mk r (deferred_blobs s) (preferred_queue s).
Definition set_deferred (d : gmap N (list ValidatedBlob)) (s : t) : t :=
  mk (sequencer_registry s) d (preferred_queue s).
Definition set_queue (q : queue) (s : t) : t := mk (sequencer_registry s) (deferred_blobs s) q.

Definition bank_id (s : t) : ModuleId := Bank.id (SequencerRegistry.bank (sequencer_registry s)).

Definition total_len (b : BlobTransaction Sp) : N := len (full_data b).
Definition get (o : BlobOrigin Sp) : BlobTransaction Sp :=
  match o with FromBatch b => b | FromProof b => b end.

Definition MAX_EMERGENCY_REGISTRATION_BLOB_SIZE : N := 1000.
Definition CONSERVATIVE_KEY_SIZE : N := 256.
Definition WORST_CASE_GAS_PRICE_INCREASE : N := 2.

Definition discard (hash : list N) (why : BlobDiscardReason) (l : list DiscardedBlob)
  : list DiscardedBlob := l ++ [mkDiscarded hash why].

Definition as_u32_or_panic {S E} (n : N) : M S E N :=
  if n <=? u32_max then ret n else panic.

Definition on_registry {E A} (m : M (acc unit SequencerRegistry.t) E A) : M (acc unit t) E A :=
  zoom sequencer_registry set_registry m.

(** [.ok()?], [.is_err()]: the error is forgotten. *)
Definition as_option {E A} (m : M (acc unit t) E A) : M (acc unit t) unit A :=
  map_err (fun _ => tt) m.

Definition some {A} (o : option A) : M (acc unit t) unit A := ok_or o tt.

(** The selection so far: the accumulator and the discarded blobs. *)
Record selection : Type := mkSelection {
  sel_blobs : Blob.Accumulator (Sp := Sp);
  sel_discarded : list DiscardedBlob
}.

Definition new_accumulator {E} : M (acc unit t) E (Blob.Accumulator (Sp := Sp)) :=
  expect_some (Blob.new_with_size MAX_ALLOWED_DATA_SIZE_RETURNED_BY_BLOB_STORAGE).

Definition drop_blob (hash : list N) (why : BlobDiscardReason) (sel : selection) : selection :=
  mkSelection (sel_blobs sel) (discard hash why (sel_discarded sel)).

(** [if let PushOrIgnore::IgnoredBlob(id, sender) = ..push_or_ignore(..)] *)
Definition push {E} (ty : SequencerType) (b : ValidatedBlob) (sel : selection)
  : M (acc unit t) E selection :=
  let! '(r, blobs) := expect_some (Blob.push_or_ignore (sel_blobs sel) ty b) in
  match r with
  | Blob.Accepted => ret (mkSelection blobs (sel_discarded sel))
  | Blob.IgnoredBlob id _ => ret (drop_blob id OutOfCapacity (mkSelection blobs (sel_discarded sel)))
  end.

(** ** Storage, lib.rs *)

Definition take_blobs_for_slot {E} (slot_number : N) : M (acc unit t) E (list ValidatedBlob) :=
  let! blobs := gets (fun s => deferred_blobs s !! slot_number) in
  modify (fun s => set_deferred (delete slot_number (deferred_blobs s)) s) ;;;
  ret (default [] blobs).

Section Kernel.
Context (k : ChainState.KernelStateAccessor).

Definition true_slot_number : N := ChainState.true_slot_num k.
Definition visible_slot_number : N := ChainState.visible_slot_num (ChainState.checkpoint k).

Definition store_batches {E} (batches : list ValidatedBlob) : M (acc unit t) E unit :=
  match batches with
  | [] => ret tt
  | _ => modify (fun s => set_deferred (<[true_slot_number := batches]> (deferred_blobs s)) s)
  end.

(** ** validation.rs *)

Definition get_new_gas_price {E} (visible_height_increase : N) : M (acc unit t) E (list N) :=
  expect_some (ChainState.compute_next_gas_price
    (ChainState.rollup_height_of (ChainState.state (ChainState.checkpoint k)))
    visible_height_increase (ChainState.state (ChainState.checkpoint k))).

Definition num_pre_exec_checks_needed {E} (b : Blob.BlobDataWithId) : M (acc unit t) E N :=
  match b with
  | Blob.Batch b => as_u32_or_panic (len (Blob.batch b))
  | _ => ret 1
  end.

Definition compute_derived_holder (b : Blob.BlobDataWithId) (idx : N) : DerivedHolder :=
  hasher (Blob.id b ++ to_le_bytes 4 idx ++ to_le_bytes 8 true_slot_number).

Definition times (gas : list N) (n : N) : M (acc unit t) unit (list N) :=
  some (GasArray.checked_scalar_product u64_max gas n).
Definition plus (gas1 gas2 : list N) : M (acc unit t) unit (list N) :=
  some (GasArray.checked_combine u64_max gas1 gas2).
Definition value_at (price gas : list N) : M (acc unit t) unit N :=
  some (GasArray.checked_value gas price).
Definition add (a b : N) : M (acc unit t) unit N := some (Amount.checked_add a b).

Definition account_for_deferral_costs (b : Blob.BlobDataWithId) (sender : DaAddress)
    (current_gas_price : list N) : M (acc unit t) unit N :=
  let c := gas_constants in
  let! num_pre_exec_checks_needed := num_pre_exec_checks_needed b in
  let! estimated_bytes_to_store :=
    as_u32_or_panic (Blob.conservative_serialized_size b (da_address_len sender)) in
  let estimated_bytes_with_key_size := CONSERVATIVE_KEY_SIZE + estimated_bytes_to_store in
  let! worst_case_increase_gas := times max_tx_check_costs num_pre_exec_checks_needed in
  let! worst_case_increase_tokens := value_at current_gas_price worst_case_increase_gas in
  (* storing *)
  let! g := plus (bias_to_charge_for_access c) (bias_to_charge_storage_update c) in
  let! h := times (gas_to_charge_hash_update c) 2 in
  let! g := plus g h in
  let! fixed_cost_of_storing := value_at current_gas_price g in
  let! g := plus (gas_to_charge_per_byte_storage_update c) (gas_to_charge_per_byte_hash_update c) in
  let! g := times g estimated_bytes_with_key_size in
  let! variable_cost_of_storing := value_at current_gas_price g in
  let! tokens_needed_for_storage := add fixed_cost_of_storing variable_cost_of_storing in
  (* retrieving *)
  let! g := plus (bias_to_charge_for_access c) (bias_to_charge_for_read c) in
  let! h := times (gas_to_charge_hash_update c) 2 in
  let! g := plus g h in
  let! g := times g WORST_CASE_GAS_PRICE_INCREASE in
  let! fixed_cost_of_retrieval := value_at current_gas_price g in
  let! h := times (gas_to_charge_per_byte_hash_update c)
              (WORST_CASE_GAS_PRICE_INCREASE * estimated_bytes_with_key_size) in
  let! g := plus (gas_to_charge_per_byte_read c) h in
  let! h := times (gas_to_charge_per_byte_borsh_deserialization c)
              (WORST_CASE_GAS_PRICE_INCREASE * estimated_bytes_to_store) in
  let! g := plus g h in
  let! variable_cost_of_retrieval := value_at current_gas_price g in
  let! tokens_needed_for_retrieval := add fixed_cost_of_retrieval variable_cost_of_retrieval in
  (* deleting *)
  let! delete_cost := times (bias_to_charge_storage_update c) WORST_CASE_GAS_PRICE_INCREASE in
  let! tokens_needed_for_deletion := value_at current_gas_price delete_cost in
  let! total := add tokens_needed_for_storage tokens_needed_for_retrieval in
  let! total := add total tokens_needed_for_deletion in
  add total worst_case_increase_tokens.

Definition validate_blob (idx : N) (b : Blob.BlobDataWithId) (sender : DaAddress)
    (available_balance : N) (gas_price_for_new_block : list N) (account_for_deferral : bool)
  : M (acc unit t) unit ValidatedBlob :=
  let! funds_needed :=
    if account_for_deferral then
      let! tokens_needed_for_deferral :=
        account_for_deferral_costs b sender gas_price_for_new_block in
      add Amount.ZERO tokens_needed_for_deferral
    else ret Amount.ZERO in
  let! num_pre_exec_checks_needed := num_pre_exec_checks_needed b in
  let! gas_needed := times max_tx_check_costs num_pre_exec_checks_needed in
  let! tokens := value_at gas_price_for_new_block gas_needed in
  let! funds_needed := add funds_needed tokens in
  ensure (negb (available_balance <? funds_needed)) tt ;;;
  if account_for_deferral then
    let new_holder := compute_derived_holder b idx in
    as_option (on_registry (SequencerRegistry.remove_part_of_the_stake sender
      (HolderDerived new_holder) funds_needed)) ;;;
    ret (Blob.mkValidated b sender (Blob.EscrowHolder new_holder))
  else
    let! bank := gets bank_id in
    as_option (on_registry (SequencerRegistry.remove_part_of_the_stake sender
      (HolderModule bank) funds_needed)) ;;;
    ret (Blob.mkValidated b sender (Blob.EscrowDirect funds_needed)).

(** [escrow_funds_for_preferred_sequencer] *)
Definition escrow_funds_for_preferred_sequencer (amount : N)
  : M (acc unit t) SequencerRegistry.StakeError unit :=
  let! preferred := expect (on_registry SequencerRegistry.preferred_sequencer_infallible) in
  let! preferred_sequencer := expect_some preferred in
  let! bank := gets bank_id in
  on_registry (SequencerRegistry.remove_part_of_the_stake preferred_sequencer
    (HolderModule bank) amount).

Definition validate_preferred_blob (b : Blob.BlobDataWithId) (sender : DaAddress)
    (available_balance visible_height_increase : N) : M (acc unit t) unit ValidatedBlob :=
  let! best_gas_price_estimate := get_new_gas_price visible_height_increase in
  let! funds_needed := value_at best_gas_price_estimate max_tx_check_costs in
  ensure (negb (available_balance <? funds_needed)) tt ;;;
  as_option (escrow_funds_for_preferred_sequencer funds_needed) ;;;
  ret (Blob.mkValidated b sender (Blob.EscrowDirect funds_needed)).

(** ** capabilities.rs *)

Definition deserialize_or_try_slash_sender {B} (decode : list N -> option B)
    (blob : BlobTransaction Sp)
    (charge_for_deserialization : option (SequencerRegistry.AllowedSequencer * list N))
    (slash_on_failure : bool) : M (acc unit t) unit B :=
  match charge_for_deserialization with
  | Some (registered_sender, gas_price_for_new_block) =>
      let! gas := times (gas_to_charge_per_byte_borsh_deserialization gas_constants)
                    (total_len blob) in
      let! funds_for_deserialization := value_at gas_price_for_new_block gas in
      ensure (negb (SequencerRegistry.allowed_balance registered_sender
                      <? funds_for_deserialization)) tt ;;;
      let! registry_id := gets (fun s => SequencerRegistry.id (sequencer_registry s)) in
      expect (on_registry (SequencerRegistry.remove_part_of_the_stake (tx_sender blob)
        (HolderModule registry_id) funds_for_deserialization))
  | None => ret tt
  end ;;;
  match decode (full_data blob) with
  | Some b => ret b
  | None =>
      if slash_on_failure
      then expect (on_registry (SequencerRegistry.slash_sequencer (tx_sender blob))) ;;; throw tt
      else throw tt
  end.

Definition is_sender_allowed {E} (sender : DaAddress)
  : M (acc unit t) E (SequencerRegistry.AllowedSequencer +
                      SequencerRegistry.AllowedSequencerError) :=
  try_catch (on_registry (SequencerRegistry.is_sender_allowed sender)).

Definition get_sender_balance {E} (sender : DaAddress) : M (acc unit t) E N :=
  let! balance := expect (on_registry (SequencerRegistry.get_sender_balance sender)) in
  ret (default Amount.ZERO balance).

Definition try_validate_proof_and_reserve_funds (idx : N) (blob : BlobTransaction Sp)
    (account_for_deferral : bool) (visible_height_increase : N)
  : M (acc unit t) unit ValidatedBlob :=
  let! allowed := is_sender_allowed (tx_sender blob) in
  match allowed with
  | inr _ => throw tt
  | inl sequencer =>
      let! gas_price_for_new_block := get_new_gas_price visible_height_increase in
      let! proof := deserialize_or_try_slash_sender decode_proof blob
                      (Some (sequencer, gas_price_for_new_block)) true in
      let! available_balance := get_sender_balance (tx_sender blob) in
      validate_blob idx
        (Blob.Proof_ proof (tx_hash blob) (SequencerRegistry.allowed_address sequencer))
        (tx_sender blob) available_balance gas_price_for_new_block account_for_deferral
  end.

Definition try_validate_batch_and_reserve_funds_if_needed (idx : N) (blob : BlobTransaction Sp)
    (sequencer : SequencerRegistry.AllowedSequencer) (gas_price_for_new_block : list N)
    (account_for_deferral : bool) : M (acc unit t) unit ValidatedBlob :=
  let! batch := deserialize_or_try_slash_sender decode_batch blob
                  (Some (sequencer, gas_price_for_new_block)) true in
  let! available_balance := get_sender_balance (tx_sender blob) in
  validate_blob idx
    (Blob.Batch (Blob.mkBatchWithId batch (tx_hash blob)
       (SequencerRegistry.allowed_address sequencer)))
    (tx_sender blob) available_balance gas_price_for_new_block account_for_deferral.

Inductive SequencerStatus : Type :=
| Registered (s : SequencerRegistry.AllowedSequencer)
| Unregistered.

Inductive ValidateBlobOutcome : Type :=
| Discard (r : BlobDiscardReason)
| Accept (s : SequencerStatus).

Definition pre_validate_blob_and_sender {E} (blob : BlobTransaction Sp)
    (unregistered_blobs_processed : N) : M (acc unit t) E ValidateBlobOutcome :=
  let! allowed := is_sender_allowed (tx_sender blob) in
  match allowed with
  | inl sequencer => ret (Accept (Registered sequencer))
  | inr _ =>
      if UNREGISTERED_BLOBS_PER_SLOT <=? unregistered_blobs_processed
      then ret (Discard MaxAllowedUnregisteredBlobs)
      else ret (Accept Unregistered)
  end.

(** One round of the loop of [select_blobs_da_ordering_helper], with the number of
    unregistered blobs so far. *)
Definition select_blob {E} (account_for_deferral : bool) (visible_height_increase : N)
    (gas_price_for_new_block : list N) (idx : N) (item : BlobOrigin Sp)
    (sel : selection) (unregistered_blob_count : N) : M (acc unit t) E (selection * N) :=
  let dropped why := ret (drop_blob (tx_hash (get item)) why sel, unregistered_blob_count) in
  let pushed b :=
    let! sel := push NonPreferred b sel in ret (sel, unregistered_blob_count) in
  if negb (Blob.can_accept_blob (sel_blobs sel) NonPreferred (total_len (get item)))
  then dropped OutOfCapacity
  else
    match item with
    | FromProof blob =>
        let! idx := as_u32_or_panic idx in
        let! proof := try_catch (try_validate_proof_and_reserve_funds idx blob
                        account_for_deferral visible_height_increase) in
        match proof with
        | inr _ => dropped SenderInsufficientStake
        | inl proof => pushed proof
        end
    | FromBatch blob =>
        let! outcome := pre_validate_blob_and_sender blob unregistered_blob_count in
        match outcome with
        | Accept (Registered sequencer) =>
            let! idx := as_u32_or_panic idx in
            let! validated := try_catch (try_validate_batch_and_reserve_funds_if_needed idx blob
                                sequencer gas_price_for_new_block account_for_deferral) in
            match validated with
            | inr _ => dropped SenderInsufficientStake
            | inl validated => pushed validated
            end
        | Accept Unregistered =>
            if MAX_EMERGENCY_REGISTRATION_BLOB_SIZE <? total_len blob
            then dropped EmergencyRegistrationTooLarge
            else
              let count := unregistered_blob_count + 1 in
              let! tx := try_catch (deserialize_or_try_slash_sender decode_tx blob None false) in
              match tx with
              | inl tx =>
                  let! sel := push NonPreferred
                    (Blob.mkValidated (Blob.EmergencyRegistration tx (tx_hash blob))
                       (tx_sender blob) Blob.EscrowNone) sel in
                  ret (sel, count)
              | inr _ => ret (drop_blob (tx_hash blob) InvalidSerialization sel, count)
              end
        | Discard reason => dropped reason
        end
    end.

Fixpoint select_loop {E} (account_for_deferral : bool) (visible_height_increase : N)
    (gas_price_for_new_block : list N) (idx : N) (items : list (BlobOrigin Sp))
    (sel : selection) (count : N) : M (acc unit t) E selection :=
  match items with
  | [] => ret sel
  | item :: items' =>
      let! '(sel, count) := select_blob account_for_deferral visible_height_increase
        gas_price_for_new_block idx item sel count in
      select_loop account_for_deferral visible_height_increase gas_price_for_new_block (idx + 1)
        items' sel count
  end.

Definition select_blobs_da_ordering_helper {E} (items : list (BlobOrigin Sp)) (sel : selection)
    (account_for_deferral : bool) (visible_height_increase : N) : M (acc unit t) E selection :=
  let! gas_price_for_new_block := get_new_gas_price visible_height_increase in
  select_loop account_for_deferral visible_height_increase gas_price_for_new_block 0 items sel 0.

(** [RelevantBlobIters] *)
Record RelevantBlobs : Type := mkRelevant {
  proof_blobs : list (BlobTransaction Sp);
  batch_blobs : list (BlobTransaction Sp)
}.

Definition select_blobs_da_ordering {E} (current : RelevantBlobs) (discarded : list DiscardedBlob)
    (account_for_deferral : bool) (visible_height_increase : N)
  : M (acc unit t) E (list ValidatedBlob * list DiscardedBlob) :=
  let! blobs := new_accumulator in
  let! sel := select_blobs_da_ordering_helper
    (map FromBatch (batch_blobs current) ++ map FromProof (proof_blobs current))
    (mkSelection blobs discarded) account_for_deferral visible_height_increase in
  ret (Blob.blobs_with_address (sel_blobs sel), sel_discarded sel).

(** [BlobSelectorOutput] with the discarded blobs *)
Record BlobSelectorOutput (B : Type) : Type := mkOutput {
  selected_blobs : list B;
  visible_slot_number_increase : N;
  discarded_blobs : list DiscardedBlob
}.

Definition select_blobs_as_based_sequencer_inner {E} (current : RelevantBlobs)
    (discarded : list DiscardedBlob) : M (acc unit t) E (BlobSelectorOutput ValidatedBlob) :=
  let increase := saturating_sub true_slot_number visible_slot_number in
  let! '(blobs, discarded) := select_blobs_da_ordering current discarded false increase in
  ret (mkOutput _ blobs increase discarded).

Definition move_funds_from_escrow_to_bank (b : ValidatedBlob) (escrow : DerivedHolder)
    (gas_price_for_new_block : list N) : M (acc unit t) unit N :=
  let! refund_recipient :=
    match Blob.blob b with
    | Blob.Batch b => ret (Blob.batch_sequencer b)
    | Blob.EmergencyRegistration _ _ => panic
    | Blob.Proof_ _ _ sequencer_address => ret sequencer_address
    end in
  let! checks := num_pre_exec_checks_needed (Blob.blob b) in
  let! retrieved :=
    match GasArray.checked_scalar_product u64_max max_tx_check_costs checks with
    | None => ret None
    | Some gas_needed =>
        match GasArray.checked_value gas_needed gas_price_for_new_block with
        | None => ret None
        | Some tokens_needed =>
            let! r := try_catch (on_registry (SequencerRegistry.retrieve_funds_from_escrow escrow
                        refund_recipient tokens_needed)) in
            ret (match r with inl _ => Some tokens_needed | inr _ => None end)
        end
    end in
  match retrieved with
  | Some tokens => ret tokens
  | None =>
      expect (on_registry (SequencerRegistry.refund_all_reserved_gas escrow refund_recipient)) ;;;
      throw tt
  end.

Definition add_stored_blob {E} (gas_price_for_new_block : list N) (sel : selection)
    (b : ValidatedBlob) : M (acc unit t) E selection :=
  match Blob.balance_store b with
  | Blob.EscrowHolder reserved_balance =>
      let! r := try_catch (move_funds_from_escrow_to_bank b reserved_balance
                  gas_price_for_new_block) in
      match r with
      | inl retrieved_token_amount =>
          push NonPreferred (Blob.mkValidated (Blob.blob b) (Blob.blob_sender b)
            (Blob.EscrowDirect retrieved_token_amount)) sel
      | inr _ => ret (drop_blob (Blob.id (Blob.blob b)) InsufficientReservedGas sel)
      end
  | Blob.EscrowDirect _ => panic
  | Blob.EscrowNone => push NonPreferred b sel
  end.

(** The slots [1..=n] from the visible one on. *)
Definition retrieve_stored_blobs_and_add_to_selection {E} (slots_needed_from_storage : N)
    (gas_price_for_new_block : list N) (sel : selection) : M (acc unit t) E selection :=
  fold_m (fun sel slot =>
    let! blobs := take_blobs_for_slot
      (saturating_add u64_max visible_slot_number (N.of_nat slot)) in
    fold_m (add_stored_blob gas_price_for_new_block) sel blobs)
  sel (seq 1 (N.to_nat slots_needed_from_storage)).

Definition select_blobs_in_recovery_mode {E} (current : RelevantBlobs)
    (discarded : list DiscardedBlob) : M (acc unit t) E (BlobSelectorOutput ValidatedBlob) :=
  let delta := saturating_sub true_slot_number visible_slot_number in
  let! blobs := new_accumulator in
  let! '(slots_needed_from_storage, current_ordered_blobs, discarded) :=
    match delta with
    | 0 => panic
    | 1 =>
        let! out := select_blobs_as_based_sequencer_inner current discarded in
        ret (1, selected_blobs _ out, discarded_blobs _ out)
    | _ =>
        let! '(new_batches, discarded) := select_blobs_da_ordering current discarded true 2 in
        store_batches new_batches ;;;
        ret (2, [], discarded)
    end in
  let! sel := fold_m (fun sel b => push NonPreferred b sel) (mkSelection blobs discarded)
                current_ordered_blobs in
  let! gas_price_for_new_block := get_new_gas_price (N.min delta 2) in
  let! sel := retrieve_stored_blobs_and_add_to_selection slots_needed_from_storage
                gas_price_for_new_block sel in
  ret (mkOutput _ (Blob.blobs_with_address (sel_blobs sel)) slots_needed_from_storage
         (sel_discarded sel)).

Definition separate_preferred_blobs (blobs : list (BlobTransaction Sp)) (preferred : DaAddress)
  : list (BlobTransaction Sp) * list (BlobTransaction Sp) :=
  (filter (fun b => tx_sender b = preferred) blobs, filter (fun b => tx_sender b <> preferred) blobs).

(** The decoding of the preferred blobs: one that is malformed is left out. *)
Definition decode_preferred {E} (item : BlobOrigin Sp)
  : M (acc unit t) E (option PreferredBlobDataWithId) :=
  let! data := try_catch
    match item with
    | FromProof blob =>
        let! p := deserialize_or_try_slash_sender decode_preferred_proof blob None true in
        ret (PreferredProof p)
    | FromBatch blob =>
        let! b := deserialize_or_try_slash_sender decode_preferred_batch blob None true in
        ret (PreferredBatch b)
    end in
  ret (match data with
       | inl d => Some (mkPreferredBlob d (tx_hash (get item)))
       | inr _ => None
       end).

Definition decode_all_preferred {E} (items : list (BlobOrigin Sp))
  : M (acc unit t) E (list PreferredBlobDataWithId) :=
  fold_m (fun l item => let! b := decode_preferred item in ret (l ++ option_list b)) [] items.

Definition pick_preferred {E} (well_formed : list PreferredBlobDataWithId)
    (discarded : list DiscardedBlob)
  : M (acc unit t) E (list PreferredBlobDataWithId * list DiscardedBlob) :=
  let! q := gets preferred_queue in
  let! '(blobs, discarded, q) :=
    expect_some (pick_preferred_blobs_to_process well_formed discarded q) in
  modify (set_queue q) ;;;
  ret (blobs, discarded).

Definition preferred_blob_data (b : PreferredBlobDataWithId) (preferred_sequencer : Address)
  : Blob.BlobDataWithId :=
  match inner b with
  | PreferredBatch p =>
      Blob.Batch (Blob.mkBatchWithId (batch_data p) (preferred_id b) preferred_sequencer)
  | PreferredProof p => Blob.Proof_ (proof_data p) (preferred_id b) preferred_sequencer
  end.

Definition add_preferred_blob {E} (preferred_sender : DaAddress) (preferred_sequencer : Address)
    (visible_height_increase : N) (sel : selection) (b : PreferredBlobDataWithId)
  : M (acc unit t) E selection :=
  let data := preferred_blob_data b preferred_sequencer in
  let! available_balance := get_sender_balance preferred_sender in
  if negb (Blob.can_accept_blob (sel_blobs sel) Preferred (Blob.blob_size data))
  then ret (drop_blob (preferred_id b) OutOfCapacity sel)
  else
    let! validated := try_catch (validate_preferred_blob data preferred_sender available_balance
                        visible_height_increase) in
    match validated with
    | inr _ => ret (drop_blob (preferred_id b) SenderInsufficientStake sel)
    | inl validated => push Preferred validated sel
    end.

Definition add_preferred_blobs_to_selection {E} (blobs : list PreferredBlobDataWithId)
    (sel : selection) (preferred_sender : DaAddress) (preferred_sequencer : Address)
    (visible_height_increase : N) : M (acc unit t) E selection :=
  fold_m (add_preferred_blob preferred_sender preferred_sequencer visible_height_increase) sel
    blobs.

(** How far a batch may advance the visible slot number; the numbers are [u8]. *)
Definition slots_to_advance (requested : N) : N :=
  let behind := saturating_sub true_slot_number visible_slot_number in
  let max_slots :=
    if behind <=? u8_max then behind else MAX_VISIBLE_HEIGHT_INCREASE_PER_SLOT in
  N.min requested (N.min max_slots MAX_VISIBLE_HEIGHT_INCREASE_PER_SLOT).

(** Steps 3 and 4 of [select_blobs_for_preferred_sequencer]: by how much the
    visible slot number increases, and the preferred blobs. *)
Definition choose_height_increase {E} (selected_preferred : list PreferredBlobDataWithId)
    (sel : selection) (preferred_sender : DaAddress) (preferred_sequencer : Address)
  : M (acc unit t) E (N * selection) :=
  match last selected_preferred with
  | Some last_selected =>
      let! requested :=
        expect_some (BlobSequence.visible_slot_number_increase (inner last_selected)) in
      let increase := slots_to_advance requested in
      let! sel := add_preferred_blobs_to_selection selected_preferred sel preferred_sender
        preferred_sequencer increase in
      ret (increase, sel)
  | None =>
      let! latest := expect_some (SequencerRegistry.advance visible_slot_number
        DEFERRED_SLOTS_COUNT) in
      ret (if latest <=? true_slot_number then 1 else 0, sel)
  end.

(** Steps 5 and 6: the stored blobs that become visible, and the blobs of the
    others in this slot, which are used or deferred. *)
Definition select_other_blobs {E} (visible_height_increase : N) (others : list (BlobOrigin Sp))
    (sel : selection) : M (acc unit t) E selection :=
  let! gas_price_for_new_block := get_new_gas_price visible_height_increase in
  let! sel := retrieve_stored_blobs_and_add_to_selection visible_height_increase
    gas_price_for_new_block sel in
  if saturating_add u64_max visible_slot_number visible_height_increase =? true_slot_number
  then select_blobs_da_ordering_helper others sel false visible_height_increase
  else
    let! blobs := new_accumulator in
    let! deferred := select_blobs_da_ordering_helper others
      (mkSelection blobs (sel_discarded sel)) true visible_height_increase in
    store_batches (Blob.blobs_with_address (sel_blobs deferred)) ;;;
    ret (mkSelection (sel_blobs sel) (sel_discarded deferred)).

Definition select_blobs_for_preferred_sequencer {E} (current : RelevantBlobs)
    (discarded : list DiscardedBlob) (preferred_sender : DaAddress)
    (preferred_sequencer : Address) : M (acc unit t) E (BlobSelectorOutput SelectedBlob) :=
  let (preferred_proofs, other_proofs) :=
    separate_preferred_blobs (proof_blobs current) preferred_sender in
  let (preferred_batches, other_batches) :=
    separate_preferred_blobs (batch_blobs current) preferred_sender in
  let! well_formed :=
    decode_all_preferred (map FromProof preferred_proofs ++ map FromBatch preferred_batches) in
  let! '(selected_preferred, discarded) := pick_preferred well_formed discarded in
  let! blobs := new_accumulator in
  let! '(visible_height_increase, sel) := choose_height_increase selected_preferred
    (mkSelection blobs discarded) preferred_sender preferred_sequencer in
  let! sel := select_other_blobs visible_height_increase
    (map FromBatch other_batches ++ map FromProof other_proofs) sel in
  let! selected := expect_some
    (mapM Blob.into_selected_blob (Blob.blobs_with_address (sel_blobs sel))) in
  ret (mkOutput _ selected visible_height_increase (sel_discarded sel)).

Definition into_selected {E} (out : BlobSelectorOutput ValidatedBlob)
  : M (acc unit t) E (BlobSelectorOutput SelectedBlob) :=
  let! selected := expect_some (mapM Blob.into_selected_blob (selected_blobs _ out)) in
  ret (mkOutput _ selected (visible_slot_number_increase _ out) (discarded_blobs _ out)).

Definition get_preferred_sequencer {E} : M (acc unit t) E (option (DaAddress * Address)) :=
  expect (on_registry SequencerRegistry.get_preferred_sequencer).

Definition get_blobs_for_this_slot {E} (current : RelevantBlobs)
  : M (acc unit t) E (BlobSelectorOutput SelectedBlob) :=
  if DEFERRED_SLOTS_COUNT =? 0 then
    let! out := select_blobs_as_based_sequencer_inner current [] in into_selected out
  else
    let! preferred := get_preferred_sequencer in
    match preferred with
    | Some (pref_da, pref_seq) =>
        select_blobs_for_preferred_sequencer current [] pref_da pref_seq
    | None => let! out := select_blobs_in_recovery_mode current [] in into_selected out
    end.

(** The selection of the basic kernel, sov-kernels/src/basic.rs *)
Definition select_blobs_as_based_sequencer {E} (current : RelevantBlobs)
  : M (acc unit t) E (BlobSelectorOutput SelectedBlob) :=
  let! out := select_blobs_as_based_sequencer_inner current [] in into_selected out.

Definition get_non_preferred_blobs {E} (slot_range : list N)
  : M (acc unit t) E (list ValidatedBlob) :=
  let! blobs := new_accumulator in
  let! sel := fold_m (fun sel slot =>
    let! blobs := take_blobs_for_slot slot in
    fold_m (fun sel b => push NonPreferred b sel) sel blobs)
    (mkSelection blobs []) slot_range in
  ret (Blob.blobs_with_address (sel_blobs sel)).

(** The same for the kernel with soft confirmations, sov-kernels/src/soft_confirmations.rs *)
Definition get_non_preferred_selected_blobs {E} (slot_range : list N)
  : M (acc unit t) E (list SelectedBlob) :=
  let! blobs := get_non_preferred_blobs slot_range in
  expect_some (mapM Blob.into_selected_blob blobs).
End Kernel.

(** ** What the selection keeps *)

(** The gas tokens of the bank module, where the bonds of the selected blobs go. *)
Definition reserve (s : t) : N :=
  SequencerRegistry.gas_balance (sequencer_registry s) (HolderModule (bank_id s)).

(** A stored blob has its funds in an escrow account, one that is selected has
    them in the bank module; a registration has none. *)
Definition stored_ok (v : ValidatedBlob) : Prop :=
  match Blob.balance_store v with
  | Blob.EscrowHolder _ => Blob.is_emergency_registration (Blob.blob v) = false
  | Blob.EscrowDirect _ => False
  | Blob.EscrowNone => Blob.is_emergency_registration (Blob.blob v) = true
  end.

Definition ready (v : ValidatedBlob) : Prop :=
  match Blob.balance_store v with
  | Blob.EscrowHolder _ => False
  | Blob.EscrowDirect _ => Blob.is_emergency_registration (Blob.blob v) = false
  | Blob.EscrowNone => Blob.is_emergency_registration (Blob.blob v) = true
  end.

Definition direct_bond (v : ValidatedBlob) : N :=
  match Blob.balance_store v with Blob.EscrowDirect amount => amount | _ => 0 end.

Definition bonds (l : list ValidatedBlob) : N := sum_N (map direct_bond l).

(** The number of transactions of a batch fits [u32]. *)
Definition countable (b : Blob.BlobDataWithId (Sp := Sp)) : Prop :=
  match b with Blob.Batch b => len (Blob.batch b) <= u32_max | _ => True end.

(** The number of slots to advance is a [NonZero<u8>]. *)
Definition advance_ok (b : PreferredBlobDataWithId) : Prop :=
  forall p, inner b = PreferredBatch p -> 1 <= visible_slots_to_advance p <= u8_max.

Record inv (s : t) : Prop := mkInv {
  inv_registry : SequencerRegistry.inv (sequencer_registry s);
  inv_ids : bank_id s <> SequencerRegistry.id (sequencer_registry s);
  inv_queue : queue_ok (preferred_queue s);
  inv_advance : BlobSequenceFacts.holds_in advance_ok
    (deferred_preferred_sequencer_blobs (preferred_queue s));
  inv_stored : forall n l, deferred_blobs s !! n = Some l ->
    Forall (fun v => stored_ok v /\ countable (Blob.blob v)) l
}.

(** The preferred sequencer is set unless it was slashed. *)
Definition tracked (p : DaAddress) (s : t) : Prop :=
  SequencerRegistry.preferred_sequencer (sequencer_registry s) = Some p \/
  SequencerRegistry.known_sequencers (sequencer_registry s) !! p = None.

(** From [s] to [s'] at least [extra] tokens went to the bank module. *)
Record keeps (s : t) (extra : N) (s' : t) : Prop := mkKeeps {
  keeps_inv : inv s';
  keeps_bank_id : bank_id s' = bank_id s;
  keeps_registry_id :
    SequencerRegistry.id (sequencer_registry s') = SequencerRegistry.id (sequencer_registry s);
  keeps_tracked : forall p, tracked p s -> tracked p s';
  keeps_reserve : reserve s + extra <= reserve s'
}.

(** ** What the decoders and the configuration promise *)

(** A decoded value is not longer than its bytes, and the number of slots to
    advance is a [NonZero<u8>]. *)
Class BlobCodecLaws : Prop := {
  decode_batch_len : forall d b, decode_batch d = Some b ->
    len b <= len d /\ sum_N (map TxCodec.tx_len b) <= len d;
  decode_proof_len : forall d p, decode_proof d = Some p -> len p <= len d;
  decode_preferred_batch_advance : forall d b, decode_preferred_batch d = Some b ->
    1 <= visible_slots_to_advance b <= u8_max
}.

Record config_ok : Prop := mkConfigOk {
  cfg_size : forall a da, MAX_ALLOWED_DATA_SIZE_RETURNED_BY_BLOB_STORAGE + 78 +
    len (address_as_ref a) + da_address_len da <= u32_max;
  cfg_advance : 1 <= MAX_VISIBLE_HEIGHT_INCREASE_PER_SLOT <= u8_max
}.

(** The slot numbers when blobs are selected, and the gas prices. *)
Record kernel_ok (k : ChainState.KernelStateAccessor) : Prop := mkKernelOk {
  ko_visible : visible_slot_number k < true_slot_number k;
  ko_true : true_slot_number k + DEFERRED_SLOTS_COUNT <= u64_max;
  ko_price : forall increase, is_Some (ChainState.compute_next_gas_price
    (ChainState.rollup_height_of (ChainState.state (ChainState.checkpoint k))) increase
    (ChainState.state (ChainState.checkpoint k)))
}.

(** The checks of a transaction are not free, as they are in setup mode. *)
Definition checks_cost (k : ChainState.KernelStateAccessor) : Prop :=
  forall increase price v, 1 <= increase -> ChainState.compute_next_gas_price
    (ChainState.rollup_height_of (ChainState.state (ChainState.checkpoint k))) increase
    (ChainState.state (ChainState.checkpoint k)) = Some price ->
    GasArray.checked_value max_tx_check_costs price = Some v -> 0 < v.
End BlobStorage.
End BlobStorage.
