(* ===== verification/BlobStorageProofs.v ===== *)
(** * Proofs about the selection of blobs

    The lemmas on [BlobStorage], from the paying of a stake to the selection of a
    slot.  Each function has a rule for [wp]; the state after it is related to the
    state before it by [keeps], which says that the invariant holds and how much of
    the bonds went to the bank module.  A loop over blobs is a [step]: it appends
    accepted blobs to the selection and accounts for the others. *)

From Stdlib Require Import NArith Lia.
From stdpp Require Import base numbers gmap strings option list.
From S2P Require Import Prelude Ints Gas StateAccess GasPrice Bank SequencerRegistry Capabilities.
From S2P Require Import ChainState StfBlueprint Blobs BlobSequence BlobStorage.


(** ** Lemmas *)
Module BlobStorageFacts.
Import BlobSequence BlobStorage.
Section Facts.
Context {Sp : Spec} {Rt : StateRoot} {Prices : PriceConfig} {Consts : ChainConstants}
  {GS : GasSpec} {Cst : RegistryConstants} {Bsh : BorshIntegers} {Codec : BlobCodec Sp}
  {BC : BlobConstants}.
Implicit Types (s : t) (sel : selection) (b : BlobTransaction Sp).

Abbreviation registry s := (sequencer_registry s).
Abbreviation known s := (SequencerRegistry.known_sequencers (sequencer_registry s)).

Lemma keeps_refl s : inv s -> keeps s 0 s.
Proof. intros Hs. split; [done|done|done|done|lia]. Qed.

Lemma keeps_trans s1 a s2 e s3 : keeps s1 a s2 -> keeps s2 e s3 -> keeps s1 (a + e) s3.
Proof.
  intros [_ Hb Hr Ht Hres] [Hi Hb' Hr' Ht' Hres']. split; [done|congruence|congruence|auto|lia].
Qed.

Lemma keeps_weaken s a e s' : keeps s a s' -> e <= a -> keeps s e s'.
Proof. intros [??? ? ?] ?. split; [done..|lia]. Qed.

Lemma storage_registry_id s : set_registry (registry s) s = s.
Proof. by destruct s. Qed.

(** The registry changed, the storage did not. *)
Lemma keeps_set_registry s r extra :
  inv s -> SequencerRegistry.inv r ->
  SequencerRegistry.id r = SequencerRegistry.id (registry s) ->
  Bank.id (SequencerRegistry.bank r) = bank_id s ->
  (forall p, tracked p s -> tracked p (set_registry r s)) ->
  reserve s + extra <= SequencerRegistry.gas_balance r (HolderModule (bank_id s)) ->
  keeps s extra (set_registry r s).
Proof.
  intros [Hr Hid Hq Hadv Hst] Hi He Hb Ht Hres. split; [|done|done|done|].
  - split; [done| |done|done|done]. unfold bank_id in *. cbn. congruence.
  - unfold reserve at 2, bank_id at 1. cbn. by rewrite Hb.
Qed.

(** Paying out of the stake of [da]: the tokens that go to the bank module raise
    the reserve. *)
Lemma wp_remove_stake_keeps da holder amount
    (Q : outcome SequencerRegistry.StakeError unit -> t -> Prop) s :
  inv s ->
  (forall e, (forall k, known s !! da = Some k -> SequencerRegistry.balance_state k =
     SequencerRegistry.Active -> SequencerRegistry.stake k < amount) -> Q (Err e) s) ->
  (forall s', keeps s (if bool_decide (holder = HolderModule (bank_id s)) then amount else 0) s' ->
     Q (Ok tt) s') ->
  wp (on_registry (SequencerRegistry.remove_part_of_the_stake da holder amount)) Q s.
Proof.
  intros Hs He Hok. unfold on_registry. apply wp_zoom.
  apply (RegistryFacts.wp_remove_stake unmetered_cannot_fail); [apply Hs| |].
  { intros e Hlow. rewrite storage_registry_id. by apply He. }
  intros k Hk Ha Hle. apply Hok. pose proof (inv_registry s Hs) as Hr.
  pose proof (RegistryFacts.stake_le_balance _ da k Hr Hk) as Hbal.
  apply keeps_set_registry; [done| |done|by apply BankFacts.id_transferred| |].
  - apply RegistryFacts.inv_paid_out; [done|].
    pose proof (RegistryFacts.total_stake_known _ da k
      (SequencerRegistry.stake k - amount) SequencerRegistry.Active Hk). lia.
  - intros p [Hp|Hp]; [by left|]. right. cbn. rewrite lookup_insert_None. split; [done|].
    intros ->. congruence.
  - change (reserve s + (if bool_decide (holder = HolderModule (bank_id s)) then amount else 0) <=
      SequencerRegistry.gas_balance (SequencerRegistry.paid (registry s)
        (HolderModule (SequencerRegistry.id (registry s))) holder amount)
        (HolderModule (bank_id s))).
    rewrite RegistryFacts.gas_balance_paid by lia. unfold reserve.
    pose proof (inv_ids s Hs). repeat case_bool_decide; simplify_eq; try lia; congruence.
Qed.

Lemma wp_slash_keeps da (Q : outcome Empty_set unit -> t -> Prop) s :
  inv s -> (forall s', keeps s 0 s' -> Q (Ok tt) s') ->
  wp (on_registry (SequencerRegistry.slash_sequencer da)) Q s.
Proof.
  intros Hs Hok. unfold on_registry. apply wp_zoom.
  apply (RegistryFacts.wp_slash unmetered_cannot_fail). apply Hok.
  apply keeps_set_registry; [done| |done|done| |].
  - destruct (inv_registry s Hs) as [Hb Hsol]. split; [done|]. cbn.
    pose proof (RegistryFacts.total_stake_delete (known s) da).
    unfold SequencerRegistry.gas_balance in *. cbn. lia.
  - intros p [Hp|Hp]; unfold tracked; cbn.
    + rewrite Hp. destruct (decide (p = da)) as [->|Hne]; [right; apply lookup_delete_eq|left].
      rewrite bool_decide_false; [done|congruence].
    + right. apply lookup_delete_None. by right.
  - unfold reserve, bank_id, SequencerRegistry.gas_balance. cbn. lia.
Qed.

(** Settling an escrow account: what is retrieved goes to the bank module. *)
Lemma wp_retrieve_keeps holder r needed
    (Q : outcome SequencerRegistry.StakeError unit -> t -> Prop) s :
  inv s -> (forall e, Q (Err e) s) -> (forall s', keeps s needed s' -> Q (Ok tt) s') ->
  wp (on_registry (SequencerRegistry.retrieve_funds_from_escrow holder r needed)) Q s.
Proof.
  intros Hs He Hok. unfold on_registry. apply wp_zoom. pose proof (inv_registry s Hs) as Hr.
  apply (RegistryFacts.wp_retrieve unmetered_cannot_fail); [apply Hr| |].
  { intros e _. rewrite storage_registry_id. apply He. }
  intros Hle. apply Hok.
  set (h := HolderDerived holder) in *.
  set (r1 := SequencerRegistry.paid (registry s) h _ _).
  assert (SequencerRegistry.inv r1) as Hr1.
  { apply RegistryFacts.inv_paid_other; [exact Hr|by unfold h|lia]. }
  assert (SequencerRegistry.gas_balance r1 h = needed) as Hneed.
  { unfold r1. rewrite RegistryFacts.gas_balance_paid by lia.
    repeat case_bool_decide; simplify_eq; try lia; try congruence. }
  apply keeps_set_registry; [done| |done|..].
  - apply RegistryFacts.inv_paid_other; [done|by unfold h|lia].
  - cbn. by rewrite !BankFacts.id_transferred.
  - done.
  - assert (SequencerRegistry.gas_balance r1 (HolderModule (bank_id s)) = reserve s) as Hkeep.
    { unfold r1. rewrite RegistryFacts.gas_balance_paid by lia. unfold h. by repeat case_bool_decide. }
    rewrite RegistryFacts.gas_balance_paid by lia. unfold bank_id in *. unfold h.
    repeat case_bool_decide; simplify_eq. rewrite Hkeep. lia.
Qed.

Lemma wp_refund_keeps holder r (Q : outcome Empty_set unit -> t -> Prop) s :
  inv s -> (forall s', keeps s 0 s' -> Q (Ok tt) s') ->
  wp (on_registry (SequencerRegistry.refund_all_reserved_gas holder r)) Q s.
Proof.
  intros Hs Hok. unfold on_registry. apply wp_zoom. pose proof (inv_registry s Hs) as Hr.
  apply (RegistryFacts.wp_refund_all unmetered_cannot_fail); [apply Hr| |].
  { intros _. rewrite storage_registry_id. apply Hok. by apply keeps_refl. }
  apply Hok. apply keeps_set_registry; [done| |done|by apply BankFacts.id_transferred|done|].
  - by apply RegistryFacts.inv_paid_other.
  - rewrite RegistryFacts.gas_balance_paid by lia. unfold reserve, bank_id.
    repeat case_bool_decide; simplify_eq; try lia; try congruence.
Qed.

(** *** Pieces that do not change the state *)

Lemma wp_as_u32 {E} n (Q : outcome E N -> t -> Prop) s :
  n <= u32_max -> Q (Ok n) s -> wp (as_u32_or_panic n) Q s.
Proof. intros Hn HQ. unfold as_u32_or_panic. rewrite (proj2 (N.leb_le _ _) Hn). by apply wp_ret. Qed.

Lemma wp_some {A} (o : option A) (Q : outcome unit A -> t -> Prop) s :
  Q (Err tt) s -> (forall a, o = Some a -> Q (Ok a) s) -> wp (some o) Q s.
Proof. intros He Hok. by apply wp_ok_or. Qed.

Lemma wp_num_checks {E} blob (Q : outcome E N -> t -> Prop) s :
  countable blob -> (forall n, Q (Ok n) s) -> wp (num_pre_exec_checks_needed blob) Q s.
Proof.
  intros Hc HQ. destruct blob; cbn in *; [by apply wp_as_u32|by apply wp_ret..].
Qed.

Lemma wp_costs blob sender price (Q : outcome unit N -> t -> Prop) s :
  countable blob -> Blob.conservative_serialized_size blob (da_address_len sender) <= u32_max ->
  Q (Err tt) s -> (forall n, Q (Ok n) s) -> wp (account_for_deferral_costs blob sender price) Q s.
Proof.
  intros Hc Hsize He Hok. unfold account_for_deferral_costs, times, plus, value_at, add.
  apply wp_bind, wp_num_checks; [done|]. intros n. wp_red.
  apply wp_bind, wp_as_u32; [done|]. wp_red.
  repeat (apply wp_bind, wp_some; wp_red; [done|intros ? _]).
  apply wp_some; [done|auto].
Qed.

Lemma wp_allowed {E} sender
    (Q : outcome E (SequencerRegistry.AllowedSequencer + SequencerRegistry.AllowedSequencerError) ->
      t -> Prop) s :
  (forall k, known s !! sender = Some k ->
     SequencerRegistry.balance_state k = SequencerRegistry.Active ->
     Q (Ok (inl (SequencerRegistry.mkAllowed (SequencerRegistry.address k)
       (SequencerRegistry.stake k)))) s) ->
  (forall e, Q (Ok (inr e)) s) -> wp (is_sender_allowed sender) Q s.
Proof.
  intros Hok He. unfold is_sender_allowed, on_registry, SequencerRegistry.is_sender_allowed,
    SequencerRegistry.is_sender_known.
  pose proof unmetered_cannot_fail as Hcf. do 5 wp_step. wp_step; [no_fail|].
  wp_step; RegistryFacts.reg_simpl; [|rewrite storage_registry_id; apply He].
  wp_step; rewrite storage_registry_id; [|apply He].
  match goal with H : SequencerRegistry.try_into_allowed ?k = Some _ |- _ =>
    unfold SequencerRegistry.try_into_allowed in H;
    destruct (SequencerRegistry.balance_state k) eqn:Hb; cbn in H; simplify_eq end.
  by apply Hok.
Qed.

Lemma wp_balance {E} sender (Q : outcome E N -> t -> Prop) s :
  Q (Ok (default 0 (SequencerRegistry.stake <$> known s !! sender))) s ->
  wp (get_sender_balance sender) Q s.
Proof.
  intros HQ. unfold get_sender_balance, on_registry, SequencerRegistry.get_sender_balance.
  pose proof unmetered_cannot_fail as Hcf. do 5 wp_step. wp_step; [no_fail|]. wp_step. wp_step.
  rewrite storage_registry_id. done.
Qed.

Lemma wp_price {E} k increase (Q : outcome E (list N) -> t -> Prop) s :
  kernel_ok k ->
  (forall p, ChainState.compute_next_gas_price
     (ChainState.rollup_height_of (ChainState.state (ChainState.checkpoint k))) increase
     (ChainState.state (ChainState.checkpoint k)) = Some p -> Q (Ok p) s) ->
  wp (get_new_gas_price k increase) Q s.
Proof.
  intros Hk HQ. apply wp_expect_some; [auto|]. intros Hn.
  destruct (ko_price k Hk increase) as [p Hp]. by rewrite Hn in Hp.
Qed.

(** *** Decoding and validating *)

Lemma wp_deserialize {B} (decode : list N -> option B) b charge slash
    (Q : outcome unit B -> t -> Prop) s :
  inv s ->
  (forall seq price, charge = Some (seq, price) -> exists k, known s !! tx_sender b = Some k /\
     SequencerRegistry.balance_state k = SequencerRegistry.Active /\
     SequencerRegistry.allowed_balance seq = SequencerRegistry.stake k) ->
  (forall s', keeps s 0 s' -> Q (Err tt) s') ->
  (forall x s', keeps s 0 s' -> decode (full_data b) = Some x -> Q (Ok x) s') ->
  wp (deserialize_or_try_slash_sender decode b charge slash) Q s.
Proof.
  intros Hs Hcharge He Hok. unfold deserialize_or_try_slash_sender. apply wp_bind.
  assert (forall s', keeps s 0 s' -> on_ok (fun _ : unit => wp
    match decode (full_data b) with
    | Some x => ret x
    | None => if slash then expect (on_registry (SequencerRegistry.slash_sequencer (tx_sender b))) ;;;
        throw tt else throw tt
    end Q) Q (Ok tt) s') as Hnext.
  { intros s' Hk. wp_red. destruct (decode (full_data b)) as [x|] eqn:Hd; [wp_step; eauto|].
    destruct slash; [|wp_step; auto]. wp_step. wp_step. apply wp_slash_keeps; [apply Hk|].
    intros s2 Hk2. wp_red. wp_step. apply He. by apply (keeps_trans _ 0 _ 0 _ Hk). }
  destruct charge as [[seq price]|]; [|wp_step; apply Hnext; by apply keeps_refl].
  destruct (Hcharge seq price eq_refl) as (k & Hkn & Hact & Hbal).
  apply wp_bind, wp_some; wp_red; [apply He; by apply keeps_refl|intros gas _].
  apply wp_bind, wp_some; wp_red; [apply He; by apply keeps_refl|intros funds _].
  wp_step. wp_step; [|apply He; by apply keeps_refl].
  match goal with H : negb (_ <? _) = true |- _ => apply negb_true_iff, N.ltb_ge in H end.
  wp_step. wp_step. wp_step. apply wp_remove_stake_keeps; [done| |].
  - intros e Hlow. wp_red. specialize (Hlow k Hkn Hact). lia.
  - intros s' Hk'. wp_red. apply Hnext. eapply keeps_weaken; [exact Hk'|]. lia.
Qed.

Definition escrowed (deferral : bool) (v : Blob.ValidatedBlob) : Prop :=
  if deferral then stored_ok v else ready v.

Lemma wp_validate k idx blob sender balance price deferral
    (Q : outcome unit Blob.ValidatedBlob -> t -> Prop) s :
  inv s -> countable blob -> Blob.is_emergency_registration blob = false ->
  Blob.conservative_serialized_size blob (da_address_len sender) <= u32_max ->
  (forall s', keeps s 0 s' -> Q (Err tt) s') ->
  (forall v s', keeps s (direct_bond v) s' -> escrowed deferral v -> Blob.blob v = blob ->
     Q (Ok v) s') ->
  wp (validate_blob k idx blob sender balance price deferral) Q s.
Proof.
  intros Hs Hc Hem Hsize He Hok. unfold validate_blob, times, value_at, add.
  assert (Q (Err tt) s) as Herr by (apply He; by apply keeps_refl).
  apply wp_bind. apply (wp_mono _ (fun o s' => s' = s /\ o <> Panic)).
  { destruct deferral; [|by apply wp_ret].
    apply wp_bind, wp_costs; [done|done|by wp_red|]. intros n. wp_red. by apply wp_some. }
  intros [funds|[]|] s' [-> Hnp]; [|done|done]. wp_red.
  apply wp_bind, wp_num_checks; [done|]. intros n. wp_red.
  repeat (apply wp_bind, wp_some; wp_red; [done|intros ? _]).
  wp_step. wp_step; [|done]. destruct deferral.
  - wp_step. unfold as_option. wp_step. apply wp_remove_stake_keeps; [done|intros; done|].
    intros s' Hk. wp_red. wp_step. apply Hok; [|done|done].
    eapply keeps_weaken; [exact Hk|]. cbn. lia.
  - wp_step. wp_step. wp_step. unfold as_option. wp_step.
    apply wp_remove_stake_keeps; [done|intros; done|].
    intros s' Hk. wp_red. wp_step. rewrite bool_decide_true in Hk by done. by apply Hok.
Qed.

(** *** The accumulator and the discarded blobs *)

Abbreviation MAX_SIZE := MAX_ALLOWED_DATA_SIZE_RETURNED_BY_BLOB_STORAGE.
Abbreviation chosen sel := (Blob.blobs_with_address (sel_blobs sel)).

Definition accepted (deferral : bool) (v : Blob.ValidatedBlob) : Prop :=
  escrowed deferral v /\ (deferral = true -> countable (Blob.blob v)).

(** [n] blobs were handled: some were added to the selection, with their bonds
    paid, and the others were discarded. *)
Record step (deferral : bool) (n : nat) (s : t) (sel : selection) (s' : t) (sel' : selection)
  : Prop := mkStep {
  step_fits : Blob.fits MAX_SIZE (sel_blobs sel');
  step_added : exists added, chosen sel' = chosen sel ++ added /\
    Forall (accepted deferral) added /\ keeps s (bonds added) s';
  step_count : (length (chosen sel') + length (sel_discarded sel') =
    length (chosen sel) + length (sel_discarded sel) + n)%nat
}.

Lemma bonds_app l1 l2 : bonds (l1 ++ l2) = bonds l1 + bonds l2.
Proof. unfold bonds. by rewrite map_app, sum_N_app. Qed.

Lemma step_inv d n s sel s' sel' : step d n s sel s' sel' -> inv s'.
Proof. intros [_ (added & _ & _ & Hk) _]. apply Hk. Qed.

Lemma step_trans d n m s1 sel1 s2 sel2 s3 sel3 :
  step d n s1 sel1 s2 sel2 -> step d m s2 sel2 s3 sel3 -> step d (n + m) s1 sel1 s3 sel3.
Proof.
  intros [_ (a1 & Hc1 & Hf1 & Hk1) Hn1] [Hf (a2 & Hc2 & Hf2 & Hk2) Hn2].
  split; [done| |lia]. exists (a1 ++ a2). rewrite bonds_app, Hc2, Hc1, app_assoc.
  split_and!; [done|by apply Forall_app|by eapply keeps_trans].
Qed.

Lemma step_refl d s sel : inv s -> Blob.fits MAX_SIZE (sel_blobs sel) -> step d 0 s sel s sel.
Proof.
  intros Hs Hf. split; [done| |lia]. exists []. rewrite app_nil_r.
  split_and!; [done|constructor|by apply keeps_refl].
Qed.

(** A blob is discarded. *)
Lemma step_drop d s sel s' hash why :
  Blob.fits MAX_SIZE (sel_blobs sel) -> keeps s 0 s' -> step d 1 s sel s' (drop_blob hash why sel).
Proof.
  intros Hf Hk. split; [done| |].
  - exists []. by rewrite app_nil_r.
  - cbn. unfold discard. rewrite length_app. cbn. lia.
Qed.

(** A blob is pushed, or discarded because of its size. *)
Lemma wp_push {E} d ty v s0 sel (Q : outcome E selection -> t -> Prop) s :
  Blob.fits MAX_SIZE (sel_blobs sel) -> accepted d v -> keeps s0 (direct_bond v) s ->
  (forall sel', step d 1 s0 sel s sel' -> Q (Ok sel') s) -> wp (push ty v sel) Q s.
Proof.
  intros Hf Hv Hk HQ. unfold push.
  destruct (Blob.push_fits _ _ ty v Hf) as (r & a' & Hp & Hf' & Hr). rewrite Hp.
  wp_step. wp_step; [|done]. match goal with H : Some _ = Some _ |- _ => injection H as <- end.
  destruct r as [|i sender].
  - wp_step. apply HQ. split; [done| |].
    + exists [v]. cbn. rewrite Hr. split_and!; [done|by constructor|].
      unfold bonds. cbn. by rewrite N.add_0_r.
    + cbn. rewrite Hr, length_app. cbn. lia.
  - destruct Hr as (-> & _ & _). wp_step. apply HQ.
    destruct sel as [blobs discarded]. apply step_drop; [done|]. eapply keeps_weaken; [exact Hk|lia].
Qed.

Lemma wp_new_accumulator {E} (Q : outcome E Blob.Accumulator -> t -> Prop) s :
  MAX_SIZE <= u32_max ->
  (forall a, Blob.fits MAX_SIZE a -> Blob.blobs_with_address a = [] -> Q (Ok a) s) ->
  wp new_accumulator Q s.
Proof.
  intros Hm HQ. unfold new_accumulator.
  destruct (Blob.new_fits MAX_SIZE Hm) as (a & Ha & Hf & Hn). rewrite Ha. apply wp_ret. by apply HQ.
Qed.

(** *** The blobs of the DA layer, in order *)
Section Select.
Context (k : ChainState.KernelStateAccessor) (Hk : kernel_ok k) (Hcfg : config_ok)
  (Hcodec : BlobCodecLaws).

Lemma fits_len sel n :
  Blob.fits MAX_SIZE (sel_blobs sel) -> Blob.can_accept_blob (sel_blobs sel) NonPreferred n = true ->
  n <= MAX_SIZE.
Proof.
  intros [Ht _]. unfold Blob.can_accept_blob, Blob.can_process_blob, checked_sub.
  destruct (u32_max <? n); [done|].
  destruct (N.leb_spec n (Blob.remaining (Blob.blob_size_checker (sel_blobs sel)) NonPreferred));
    [|done]. lia.
Qed.

Lemma max_size_u32 (a : Address) (da : DaAddress) : MAX_SIZE <= u32_max.
Proof. pose proof (cfg_size Hcfg a da). lia. Qed.

Lemma batch_fits b data addr :
  total_len b <= MAX_SIZE -> decode_batch (full_data b) = Some data ->
  let blob := Blob.Batch (Blob.mkBatchWithId data (tx_hash b) addr) in
  countable blob /\
  Blob.conservative_serialized_size blob (da_address_len (tx_sender b)) <= u32_max.
Proof.
  intros Hl Hd. destruct (decode_batch_len _ _ Hd) as [Hlen Hsum].
  pose proof (cfg_size Hcfg addr (tx_sender b)). unfold total_len in Hl.
  unfold countable, Blob.conservative_serialized_size, Blob.blob_size, Blob.batch_with_id_size,
    Blob.ID_SIZE. cbn [Blob.batch Blob.batch_sequencer]. lia.
Qed.

Lemma proof_fits b data addr :
  total_len b <= MAX_SIZE -> decode_proof (full_data b) = Some data ->
  Blob.conservative_serialized_size (Blob.Proof_ data (tx_hash b) addr)
    (da_address_len (tx_sender b)) <= u32_max.
Proof.
  intros Hl Hd. pose proof (decode_proof_len _ _ Hd) as Hlen.
  pose proof (cfg_size Hcfg addr (tx_sender b)). unfold total_len in Hl.
  unfold Blob.conservative_serialized_size, Blob.blob_size. lia.
Qed.

Lemma wp_validate_batch idx b kn price d (Q : outcome unit Blob.ValidatedBlob -> t -> Prop) s :
  inv s -> total_len b <= MAX_SIZE -> known s !! tx_sender b = Some kn ->
  SequencerRegistry.balance_state kn = SequencerRegistry.Active ->
  (forall s', keeps s 0 s' -> Q (Err tt) s') ->
  (forall v s', keeps s (direct_bond v) s' -> accepted d v -> Q (Ok v) s') ->
  wp (try_validate_batch_and_reserve_funds_if_needed k idx b
    (SequencerRegistry.mkAllowed (SequencerRegistry.address kn) (SequencerRegistry.stake kn))
    price d) Q s.
Proof.
  intros Hs Hl Hkn Hact He Hok. unfold try_validate_batch_and_reserve_funds_if_needed.
  apply wp_bind, wp_deserialize; wp_red; [done| |exact He|].
  { intros seq p [= <- <-]. by exists kn. }
  intros data s1 Hk1 Hd. apply wp_bind, wp_balance. wp_red.
  destruct (batch_fits b data (SequencerRegistry.address kn) Hl Hd) as [Hc Hsize].
  apply wp_validate; [apply Hk1|done|done|done| |].
  - intros s2 Hk2. apply He. by apply (keeps_trans _ 0 _ 0 _ Hk1).
  - intros v s2 Hk2 Hv Hblob. apply Hok; [by apply (keeps_trans _ 0 _ _ _ Hk1)|].
    split; [done|intros _; by rewrite Hblob].
Qed.

Lemma wp_validate_proof idx b increase d (Q : outcome unit Blob.ValidatedBlob -> t -> Prop) s :
  inv s -> total_len b <= MAX_SIZE ->
  (forall s', keeps s 0 s' -> Q (Err tt) s') ->
  (forall v s', keeps s (direct_bond v) s' -> accepted d v -> Q (Ok v) s') ->
  wp (try_validate_proof_and_reserve_funds k idx b d increase) Q s.
Proof.
  intros Hs Hl He Hok. unfold try_validate_proof_and_reserve_funds.
  apply wp_bind, wp_allowed; wp_red; [|intros e; wp_step; apply He; by apply keeps_refl].
  intros kn Hkn Hact. apply wp_bind, wp_price; [done|]. intros price _. wp_red.
  apply wp_bind, wp_deserialize; wp_red; [done| |exact He|].
  { intros seq p [= <- <-]. by exists kn. }
  intros data s1 Hk1 Hd. apply wp_bind, wp_balance. wp_red.
  apply wp_validate; [apply Hk1|done|done|by apply proof_fits| |].
  - intros s2 Hk2. apply He. by apply (keeps_trans _ 0 _ 0 _ Hk1).
  - intros v s2 Hk2 Hv Hblob. apply Hok; [by apply (keeps_trans _ 0 _ _ _ Hk1)|].
    split; [done|intros _; by rewrite Hblob].
Qed.

Lemma wp_select_blob {E} d increase price idx item sel count
    (Q : outcome E (selection * N) -> t -> Prop) s :
  inv s -> Blob.fits MAX_SIZE (sel_blobs sel) -> idx <= u32_max ->
  (forall s' sel' count', step d 1 s sel s' sel' -> Q (Ok (sel', count')) s') ->
  wp (select_blob k d increase price idx item sel count) Q s.
Proof.
  intros Hs Hf Hidx HQ. unfold select_blob.
  assert (forall s' hash why c, keeps s 0 s' -> Q (Ok (drop_blob hash why sel, c)) s') as Hdrop.
  { intros s' hash why c Hks. by apply HQ, step_drop. }
  assert (forall v s' c, keeps s (direct_bond v) s' -> accepted d v ->
    wp (let! sel := push NonPreferred v sel in ret (sel, c)) Q s') as Hpush.
  { intros v s' c Hks Hv. wp_step. apply (wp_push d NonPreferred v s); [done|done|done|].
    intros sel' Hstep. wp_red. wp_step. by apply HQ. }
  destruct (Blob.can_accept_blob _ _ _) eqn:Hacc; cbn [negb];
    [|wp_step; apply Hdrop; by apply keeps_refl].
  pose proof (fits_len sel _ Hf Hacc) as Hlen. destruct item as [b|b]; cbn [get] in *.
  - unfold pre_validate_blob_and_sender. wp_step. wp_step. apply wp_allowed; wp_red.
    + intros kn Hkn Hact. wp_step. wp_step. apply wp_as_u32; [done|]. wp_red. wp_step. wp_step.
      apply (wp_validate_batch idx b kn price d); [done..| |]; intros.
      * wp_red. wp_step. auto.
      * wp_red. auto.
    + intros e. destruct (_ <=? _); wp_step; [wp_step; apply Hdrop; by apply keeps_refl|].
      destruct (_ <? _); [wp_step; apply Hdrop; by apply keeps_refl|].
      wp_step. wp_step. apply wp_deserialize; wp_red; [done|done| |].
      * intros s' Hks. wp_step. auto.
      * intros tx s' Hks _. apply Hpush; [done|]. split; [by destruct d|done].
  - wp_step. apply wp_as_u32; [done|]. wp_red. wp_step. wp_step.
    apply (wp_validate_proof idx b increase d); [done..| |]; intros; wp_red; [wp_step|]; auto.
Qed.

Lemma wp_select_loop {E} d increase price items : forall idx sel count s
    (Q : outcome E selection -> t -> Prop),
  inv s -> Blob.fits MAX_SIZE (sel_blobs sel) -> idx + len items <= u32_max ->
  (forall s' sel', step d (length items) s sel s' sel' -> Q (Ok sel') s') ->
  wp (select_loop k d increase price idx items sel count) Q s.
Proof.
  induction items as [|item items IH]; intros idx sel count s Q Hs Hf Hidx HQ; cbn [select_loop].
  - wp_step. apply HQ. by apply step_refl.
  - unfold len in *. cbn [length] in Hidx. wp_step. apply (wp_select_blob d); [done|done|lia|].
    intros s1 sel1 c1 Hst. wp_red. apply IH; [by eapply step_inv|by eapply step_fits|lia|].
    intros s2 sel2 Hst2. apply HQ. by eapply (step_trans d 1).
Qed.

Lemma wp_select_helper {E} items sel d increase (Q : outcome E selection -> t -> Prop) s :
  inv s -> Blob.fits MAX_SIZE (sel_blobs sel) -> len items <= u32_max ->
  (forall s' sel', step d (length items) s sel s' sel' -> Q (Ok sel') s') ->
  wp (select_blobs_da_ordering_helper k items sel d increase) Q s.
Proof.
  intros Hs Hf Hl HQ. unfold select_blobs_da_ordering_helper.
  apply wp_bind, wp_price; [done|]. intros p _. wp_red. by apply wp_select_loop.
Qed.

Definition all_items (c : RelevantBlobs) : list (BlobOrigin Sp) :=
  map FromBatch (batch_blobs c) ++ map FromProof (proof_blobs c).

Definition count_items (c : RelevantBlobs) : nat :=
  length (batch_blobs c) + length (proof_blobs c).

Lemma all_items_length c : length (all_items c) = count_items c.
Proof. unfold all_items, count_items. by rewrite length_app, !length_map. Qed.

Lemma wp_da_ordering {E} c discarded d increase
    (Q : outcome E (list Blob.ValidatedBlob * list DiscardedBlob) -> t -> Prop) s :
  inv s -> MAX_SIZE <= u32_max -> N.of_nat (count_items c) <= u32_max ->
  (forall s' l disc, Forall (accepted d) l -> keeps s (bonds l) s' ->
     Blob.total_size l <= MAX_SIZE ->
     (length l + length disc = length discarded + count_items c)%nat -> Q (Ok (l, disc)) s') ->
  wp (select_blobs_da_ordering k c discarded d increase) Q s.
Proof.
  intros Hs Hm Hl HQ. unfold select_blobs_da_ordering. fold (all_items c).
  apply wp_bind, wp_new_accumulator; [done|]. intros a Hf Hempty. wp_red.
  apply wp_bind, wp_select_helper; wp_red; [done|done|unfold len; by rewrite all_items_length|].
  rewrite all_items_length. intros s' sel' [Hf' (added & Hc & Hacc & Hks) Hn]. wp_step.
  cbn in *. rewrite Hempty in *. cbn in *. subst added.
  apply HQ; [done|done| |lia]. destruct Hf'. lia.
Qed.

Lemma wp_based {E} c (Q : outcome E (BlobSelectorOutput Blob.ValidatedBlob) -> t -> Prop) s :
  inv s -> MAX_SIZE <= u32_max -> N.of_nat (count_items c) <= u32_max ->
  (forall s' out, Forall (accepted false) (selected_blobs _ out) ->
     keeps s (bonds (selected_blobs _ out)) s' -> Blob.total_size (selected_blobs _ out) <= MAX_SIZE ->
     visible_slot_number_increase _ out = true_slot_number k - visible_slot_number k ->
     (length (selected_blobs _ out) + length (discarded_blobs _ out) = count_items c)%nat ->
     Q (Ok out) s') ->
  wp (select_blobs_as_based_sequencer_inner k c []) Q s.
Proof.
  intros Hs Hm Hl HQ. unfold select_blobs_as_based_sequencer_inner.
  apply wp_bind, wp_da_ordering; wp_red; [done..|]. intros s' l disc Hacc Hks Hsz Hn.
  wp_step. by apply HQ.
Qed.

(** *** The stored blobs *)

Lemma wp_take {E} n (Q : outcome E (list Blob.ValidatedBlob) -> t -> Prop) s :
  inv s ->
  (forall s' l, keeps s 0 s' -> Forall (fun v => stored_ok v /\ countable (Blob.blob v)) l ->
     Q (Ok l) s') ->
  wp (take_blobs_for_slot n) Q s.
Proof.
  intros Hs HQ. unfold take_blobs_for_slot. wp_step. wp_step. wp_step. wp_step. wp_step. apply HQ.
  - destruct Hs as [Hr Hid Hq Hadv Hst]. split; [|done|done|done|unfold reserve, bank_id; cbn; lia].
    split; [done|done|done|done|]. cbn. intros m l [_ Hm]%lookup_delete_Some. by eapply Hst.
  - destruct (deferred_blobs s !! n) as [l|] eqn:Hl; cbn; [by eapply (inv_stored s Hs)|constructor].
Qed.

Lemma wp_move_funds v h price (Q : outcome unit N -> t -> Prop) s :
  inv s -> countable (Blob.blob v) -> Blob.is_emergency_registration (Blob.blob v) = false ->
  (forall s', keeps s 0 s' -> Q (Err tt) s') ->
  (forall n s', keeps s n s' -> Q (Ok n) s') ->
  wp (move_funds_from_escrow_to_bank v h price) Q s.
Proof.
  intros Hs Hc Hem He Hok. unfold move_funds_from_escrow_to_bank.
  assert (forall r s', keeps s 0 s' -> wp (expect (on_registry
    (SequencerRegistry.refund_all_reserved_gas h r)) ;;; throw tt) Q s') as Hrefund.
  { intros r s' Hks. wp_step. wp_step. apply wp_refund_keeps; [apply Hks|]. intros s2 Hk2. wp_red.
    wp_step. apply He. by apply (keeps_trans _ 0 _ 0 _ Hks). }
  apply wp_bind. apply (wp_mono _ (fun o s' => s' = s /\ exists r, o = Ok r)).
  { destruct (Blob.blob v); [|done|]; apply wp_ret; eauto. }
  intros o s' [-> [r ->]]. wp_red. apply wp_bind, wp_num_checks; [done|]. intros n. wp_red.
  wp_step. destruct (GasArray.checked_scalar_product _ _ _) as [gas|];
    [|wp_step; apply Hrefund; by apply keeps_refl].
  destruct (GasArray.checked_value gas price) as [tokens|];
    [|wp_step; apply Hrefund; by apply keeps_refl].
  wp_step. wp_step. apply wp_retrieve_keeps; [done| |]; intros; wp_red; wp_step.
  - apply Hrefund. by apply keeps_refl.
  - wp_step. by apply Hok.
Qed.

Lemma wp_add_stored {E} price sel v (Q : outcome E selection -> t -> Prop) s :
  inv s -> Blob.fits MAX_SIZE (sel_blobs sel) -> stored_ok v -> countable (Blob.blob v) ->
  (forall s' sel', step false 1 s sel s' sel' -> Q (Ok sel') s') ->
  wp (add_stored_blob price sel v) Q s.
Proof.
  intros Hs Hf Hv Hc HQ. unfold add_stored_blob, stored_ok in *.
  destruct (Blob.balance_store v) as [h|a|] eqn:Hb; [|done|].
  - wp_step. wp_step. apply wp_move_funds; [done|done|done| |].
    + intros s' Hks. wp_red. wp_step. by apply HQ, step_drop.
    + intros n s' Hks. wp_red. by apply (wp_push false NonPreferred _ s); [done|split|..|auto].
  - apply (wp_push false NonPreferred _ s); [done| | |auto].
    + split; [|done]. unfold escrowed, ready. by rewrite Hb.
    + unfold direct_bond. rewrite Hb. by apply keeps_refl.
Qed.

(** Some blobs were handled: [step] without the count. *)
Definition steps (d : bool) (s : t) (sel : selection) (s' : t) (sel' : selection) : Prop :=
  exists n, step d n s sel s' sel'.

Lemma steps_trans d s1 sel1 s2 sel2 s3 sel3 :
  steps d s1 sel1 s2 sel2 -> steps d s2 sel2 s3 sel3 -> steps d s1 sel1 s3 sel3.
Proof. intros [n Hn] [m Hm]. exists (n + m)%nat. by eapply step_trans. Qed.

Lemma steps_ok d s sel s' sel' :
  steps d s sel s' sel' -> inv s' /\ Blob.fits MAX_SIZE (sel_blobs sel').
Proof. intros [n Hn]. split; [by eapply step_inv|by eapply step_fits]. Qed.

(** A loop over blobs that handles each of them, with an assertion that is kept. *)
Lemma wp_fold_steps {E A} d (f : selection -> A -> M (acc unit t) E selection)
    (P : A -> Prop) (I : t -> Prop) l : forall s sel (Q : outcome E selection -> t -> Prop),
  inv s -> I s -> Blob.fits MAX_SIZE (sel_blobs sel) -> Forall P l ->
  (forall s e s', keeps s e s' -> I s -> I s') ->
  (forall s sel x Q, inv s -> I s -> Blob.fits MAX_SIZE (sel_blobs sel) -> P x ->
     (forall s' sel', steps d s sel s' sel' -> Q (Ok sel') s') -> wp (f sel x) Q s) ->
  (forall s' sel', steps d s sel s' sel' -> Q (Ok sel') s') ->
  wp (fold_m f sel l) Q s.
Proof.
  induction l as [|x l IH]; intros s sel Q Hs HI Hf Hl Hkeep Hstep HQ; cbn [fold_m].
  - wp_step. apply HQ. exists O. by apply step_refl.
  - apply Forall_cons in Hl as [Hx Hl]. wp_step. apply Hstep; [done..|]. intros s1 sel1 Hst. wp_red.
    destruct (steps_ok _ _ _ _ _ Hst). apply IH; [done| |done..|].
    + destruct Hst as [n [_ (added & _ & _ & Hks) _]]. by eapply Hkeep.
    + intros s2 sel2 Hst2. apply HQ. by eapply steps_trans.
Qed.

Lemma steps_after_keeps d s s1 sel s2 sel2 :
  keeps s 0 s1 -> steps d s1 sel s2 sel2 -> steps d s sel s2 sel2.
Proof.
  intros Hks [n [Hf (added & Hc & Ha & Hk2) Hn]]. exists n. split; [done| |done].
  exists added. split_and!; [done|done|]. by apply (keeps_trans _ 0 _ _ _ Hks).
Qed.

Lemma wp_retrieve_stored {E} n price sel (Q : outcome E selection -> t -> Prop) s :
  inv s -> Blob.fits MAX_SIZE (sel_blobs sel) ->
  (forall s' sel', steps false s sel s' sel' -> Q (Ok sel') s') ->
  wp (retrieve_stored_blobs_and_add_to_selection k n price sel) Q s.
Proof.
  intros Hs Hf HQ. unfold retrieve_stored_blobs_and_add_to_selection.
  apply (wp_fold_steps false _ (fun _ => True) (fun _ => True)); [done|done|done|by apply Forall_true|done| |done].
  clear. intros s sel slot Q Hs _ Hf _ HQ. apply wp_bind, wp_take; [done|]. intros s1 l Hks Hl. wp_red.
  apply (wp_fold_steps false _ (fun v => stored_ok v /\ countable (Blob.blob v)) (fun _ => True));
    [apply Hks|done|done|done|done| |].
  - clear. intros s sel v Q Hs _ Hf [Hv Hc] HQ. apply wp_add_stored; [done..|]. intros s' sel' Hst.
    apply HQ. by exists 1%nat.
  - intros s2 sel2 Hst. apply HQ. by eapply steps_after_keeps.
Qed.

Lemma wp_push_sub {E} ty v sel (Q : outcome E selection -> t -> Prop) s :
  Blob.fits MAX_SIZE (sel_blobs sel) ->
  (forall sel', Blob.fits MAX_SIZE (sel_blobs sel') ->
     chosen sel' = chosen sel ++ [v] \/ chosen sel' = chosen sel -> Q (Ok sel') s) ->
  wp (push ty v sel) Q s.
Proof.
  intros Hf HQ. unfold push.
  destruct (Blob.push_fits _ _ ty v Hf) as (r & a' & Hp & Hf' & Hr). rewrite Hp.
  wp_step. wp_step; [|done]. match goal with H : Some _ = Some _ |- _ => injection H as <- end.
  destruct r as [|i sender]; wp_step; apply HQ; [done|by left|done|right]. by destruct Hr as (-> & _).
Qed.

Lemma wp_push_all {E} ty l : forall sel (Q : outcome E selection -> t -> Prop) s,
  Blob.fits MAX_SIZE (sel_blobs sel) ->
  (forall sel' added, Blob.fits MAX_SIZE (sel_blobs sel') -> chosen sel' = chosen sel ++ added ->
     added `sublist_of` l -> Q (Ok sel') s) ->
  wp (fold_m (fun sel v => push ty v sel) sel l) Q s.
Proof.
  induction l as [|v l IH]; intros sel Q s Hf HQ; cbn [fold_m].
  - wp_step. apply (HQ sel []); [done|by rewrite app_nil_r|done].
  - wp_step. apply wp_push_sub; [done|]. intros sel1 Hf1 Hc. wp_red. apply IH; [done|].
    intros sel2 added Hf2 Hc2 Hsub. destruct Hc as [Hc|Hc]; rewrite Hc in Hc2.
    + apply (HQ sel2 (v :: added)); [done| |by apply sublist_skip]. by rewrite Hc2, <- app_assoc.
    + apply (HQ sel2 added); [done|done|by apply sublist_cons].
Qed.

Lemma bonds_sublist l1 l2 : l1 `sublist_of` l2 -> bonds l1 <= bonds l2.
Proof. unfold bonds. induction 1; cbn; [lia| |]; fold sum_N in *; unfold sum_N in *; lia. Qed.

Lemma wp_store {E} l (Q : outcome E unit -> t -> Prop) s :
  inv s -> Forall (accepted true) l -> (forall s', keeps s 0 s' -> Q (Ok tt) s') ->
  wp (store_batches k l) Q s.
Proof.
  intros Hs Hl HQ. destruct l as [|v l]; cbn [store_batches];
    [wp_step; apply HQ; by apply keeps_refl|]. wp_step. apply HQ. destruct Hs as [Hr Hid Hq Hadv Hst].
  split; [|done|done|done|unfold reserve, bank_id; cbn; lia]. split; [done|done|done|done|].
  cbn. intros n l' [[_ <-]|[_ Hn]]%lookup_insert_Some; [|by eapply Hst].
  eapply Forall_impl; [exact Hl|]. intros x [Hx Hc]. by split; [|apply Hc].
Qed.

Lemma stored_bonds l : Forall (accepted true) l -> bonds l = 0.
Proof.
  induction 1 as [|v l [Hv _] Hl IH]; [done|]. unfold bonds in *. cbn. unfold sum_N in *.
  unfold escrowed, stored_ok, direct_bond in *. destruct (Blob.balance_store v); [lia|done|lia].
Qed.

(** *** The three modes of selection *)

(** What a selection gives to the STF blueprint. *)
Record validated_ok (s : t) (increase : N) (l : list Blob.ValidatedBlob) (s' : t) : Prop := mkValidatedOk {
  vo_keeps : keeps s (bonds l) s';
  vo_ready : Forall (accepted false) l;
  vo_size : Blob.total_size l <= MAX_SIZE;
  vo_increase : visible_slot_number k + increase <= true_slot_number k;
  vo_empty : increase = 0 -> l = []
}.

Lemma fits_size sel : Blob.fits MAX_SIZE (sel_blobs sel) -> Blob.total_size (chosen sel) <= MAX_SIZE.
Proof. intros [Ht _]. lia. Qed.

Lemma wp_recovery {E} c (Q : outcome E (BlobSelectorOutput Blob.ValidatedBlob) -> t -> Prop) s :
  inv s -> MAX_SIZE <= u32_max -> N.of_nat (count_items c) <= u32_max ->
  (forall s' out, validated_ok s (visible_slot_number_increase _ out) (selected_blobs _ out) s' ->
     Q (Ok out) s') ->
  wp (select_blobs_in_recovery_mode k c []) Q s.
Proof.
  intros Hs Hm Hl HQ. pose proof (ko_visible k Hk) as Hvis. unfold select_blobs_in_recovery_mode.
  apply wp_bind, wp_new_accumulator; [done|]. intros a Hfa Hea. wp_red.
  apply wp_bind. apply (wp_mono _ (fun o s1 => exists n l disc, o = Ok (n, l, disc) /\
    keeps s (bonds l) s1 /\ Forall (accepted false) l /\ 1 <= n /\
    visible_slot_number k + n <= true_slot_number k)).
  { unfold saturating_sub. destruct (true_slot_number k - visible_slot_number k) as [|[p|p|]] eqn:Hd;
      [lia|..].
    3: { apply wp_bind, wp_based; [done..|]. intros s1 out Hacc Hks _ _ _. wp_red. wp_step.
         eexists _, _, _. split_and!; [done|done|done|lia|lia]. }
    all: apply wp_bind, wp_da_ordering; [done..|]; intros s1 l disc Hacc Hks _ _; wp_red; wp_step;
      apply wp_store; [apply Hks|done|]; intros s2 Hk2; wp_red; wp_step;
      eexists _, [], _; (split_and!; [done| |by apply Forall_nil|lia|lia]);
      apply (keeps_trans s 0 s1 0 s2); [by rewrite (stored_bonds l Hacc) in Hks|exact Hk2]. }
  intros o s1 (n & l & disc & -> & Hks & Hacc & Hn & Hvn). wp_red.
  apply wp_bind, wp_push_all; [done|]. intros sel1 added Hf1 Hc1 Hsub. wp_red.
  cbn in Hc1. rewrite Hea in Hc1. cbn in Hc1.
  apply wp_bind, wp_price; [done|]. intros price _. wp_red.
  apply wp_bind, wp_retrieve_stored; [apply Hks|done|]. intros s2 sel2 Hst. wp_red. wp_step.
  destruct (steps_ok _ _ _ _ _ Hst) as [_ Hf2]. destruct Hst as [m [_ (more & Hc2 & Hacc2 & Hk2) _]].
  apply HQ. cbn. split; cbn; [| |by apply fits_size|done|lia].
  - rewrite Hc2, Hc1, bonds_app. eapply keeps_weaken; [by eapply keeps_trans|].
    pose proof (bonds_sublist _ _ Hsub). lia.
  - rewrite Hc2, Hc1. apply Forall_app. split; [|done].
    apply Forall_forall. intros v Hv. rewrite Forall_forall in Hacc. apply Hacc.
    by eapply sublist_subseteq.
Qed.

(** The blobs of the preferred sequencer. *)
Definition decoded (item : BlobOrigin Sp) : option PreferredBlobDataWithId :=
  match item with
  | FromProof b => (fun p => mkPreferredBlob (PreferredProof p) (tx_hash b)) <$>
      decode_preferred_proof (full_data b)
  | FromBatch b => (fun p => mkPreferredBlob (PreferredBatch p) (tx_hash b)) <$>
      decode_preferred_batch (full_data b)
  end.

Lemma wp_decode_free {B} (decode : list N -> option B) b slash
    (Q : outcome unit B -> t -> Prop) s :
  inv s ->
  (forall s', keeps s 0 s' ->
     match decode (full_data b) with Some x => Q (Ok x) s' | None => Q (Err tt) s' end) ->
  wp (deserialize_or_try_slash_sender decode b None slash) Q s.
Proof.
  intros Hs HQ. unfold deserialize_or_try_slash_sender. wp_step. wp_step.
  destruct (decode (full_data b)) as [x|]; [wp_step; apply HQ; by apply keeps_refl|].
  destruct slash; [|wp_step; apply HQ; by apply keeps_refl]. wp_step. wp_step.
  apply wp_slash_keeps; [done|]. intros s' Hks. wp_red. wp_step. by apply HQ.
Qed.

Lemma wp_decode_preferred {E} item (Q : outcome E (option PreferredBlobDataWithId) -> t -> Prop) s :
  inv s -> (forall s', keeps s 0 s' -> Q (Ok (decoded item)) s') -> wp (decode_preferred item) Q s.
Proof.
  intros Hs HQ. unfold decode_preferred. wp_step. wp_step.
  destruct item as [b|b]; wp_step; (apply wp_decode_free; [done|]); intros s1 Hks;
    specialize (HQ s1 Hks); cbn [decoded get] in *;
    [destruct (decode_preferred_batch (full_data b))|destruct (decode_preferred_proof (full_data b))];
    wp_red; repeat wp_step; done.
Qed.

Lemma wp_decode_all {E} items : forall l0 s (Q : outcome E (list PreferredBlobDataWithId) -> t -> Prop),
  inv s -> (forall s', keeps s 0 s' -> Q (Ok (l0 ++ omap decoded items)) s') ->
  wp (fold_m (fun l item => let! b := decode_preferred item in ret (l ++ option_list b)) l0 items) Q s.
Proof.
  induction items as [|item items IH]; intros l0 s Q Hs HQ; cbn [fold_m].
  { wp_step. rewrite app_nil_r in HQ. apply HQ. by apply keeps_refl. }
  wp_step. wp_step. apply wp_decode_preferred; [done|]. intros s1 Hks. wp_red. wp_step.
  apply IH; [apply Hks|]. intros s2 Hk2. specialize (HQ s2 (keeps_trans _ 0 _ 0 _ Hks Hk2)).
  rewrite <- app_assoc. cbn in HQ. by destruct (decoded item).
Qed.

Lemma decoded_advance items :
  Forall advance_ok (omap decoded items).
Proof.
  apply Forall_forall. intros x (item & _ & Hd)%list_elem_of_omap p Hp.
  destruct item as [b|b]; cbn in Hd; apply fmap_Some in Hd as (y & Hy & ->); cbn in Hp; simplify_eq.
  by eapply decode_preferred_batch_advance.
Qed.

Lemma wp_preferred {E} (Q : outcome E (option DaAddress) -> t -> Prop) s :
  Q (Ok (SequencerRegistry.preferred_sequencer (registry s))) s ->
  wp (expect (on_registry SequencerRegistry.preferred_sequencer_infallible)) Q s.
Proof.
  intros HQ. unfold on_registry, SequencerRegistry.preferred_sequencer_infallible.
  pose proof unmetered_cannot_fail as Hcf. do 3 wp_step. wp_step; [no_fail|].
  by rewrite storage_registry_id.
Qed.

Lemma wp_validate_preferred data pref increase (Q : outcome unit Blob.ValidatedBlob -> t -> Prop) s :
  inv s -> tracked pref s -> checks_cost k -> 1 <= increase ->
  Blob.is_emergency_registration data = false ->
  (forall s', keeps s 0 s' -> Q (Err tt) s') ->
  (forall v s', keeps s (direct_bond v) s' -> accepted false v -> Q (Ok v) s') ->
  wp (validate_preferred_blob k data pref
    (default 0 (SequencerRegistry.stake <$> known s !! pref)) increase) Q s.
Proof.
  intros Hs Ht Hcost Hinc Hem He Hok. unfold validate_preferred_blob, value_at.
  assert (Q (Err tt) s) as Herr by (apply He; by apply keeps_refl).
  apply wp_bind, wp_price; [done|]. intros price Hprice. wp_red.
  apply wp_bind, wp_some; wp_red; [done|]. intros funds Hfunds.
  pose proof (Hcost _ _ _ Hinc Hprice Hfunds) as Hpos. wp_step. wp_step; [|done].
  match goal with H : negb (_ <? _) = true |- _ => apply negb_true_iff, N.ltb_ge in H; rename H into Hle end.
  assert (SequencerRegistry.preferred_sequencer (registry s) = Some pref) as Hp.
  { destruct Ht as [Hp|Hn]; [done|]. rewrite Hn in Hle. cbn in Hle. lia. }
  wp_step. unfold as_option, escrow_funds_for_preferred_sequencer. wp_step. wp_step.
  apply wp_preferred. rewrite Hp. wp_red. wp_step. wp_step; [|done].
  match goal with H : Some _ = Some _ |- _ => injection H as <- end.
  wp_step. wp_step. apply wp_remove_stake_keeps; [done|intros; done|].
  intros s' Hks. wp_red. wp_step. rewrite bool_decide_true in Hks by done.
  apply Hok; [done|]. by split.
Qed.

Lemma preferred_data_not_emergency x seq :
  Blob.is_emergency_registration (preferred_blob_data (Sp := Sp) x seq) = false.
Proof. unfold preferred_blob_data. by destruct (inner x). Qed.

Lemma wp_add_preferred {E} pref seq increase l sel (Q : outcome E selection -> t -> Prop) s :
  inv s -> tracked pref s -> checks_cost k -> 1 <= increase ->
  Blob.fits MAX_SIZE (sel_blobs sel) ->
  (forall s' sel', steps false s sel s' sel' -> Q (Ok sel') s') ->
  wp (add_preferred_blobs_to_selection k l sel pref seq increase) Q s.
Proof.
  intros Hs Ht Hcost Hinc Hf HQ. unfold add_preferred_blobs_to_selection.
  apply (wp_fold_steps false _ (fun _ => True) (tracked pref));
    [done|done|done|by apply Forall_true|intros ??? Hks; by apply Hks| |done].
  clear -Hk Hcost Hinc Hcfg Hcodec. intros s sel x Q Hs Ht Hf _ HQ. unfold add_preferred_blob.
  apply wp_bind, wp_balance. wp_red.
  destruct (Blob.can_accept_blob _ _ _); cbn [negb];
    [|wp_step; apply HQ; exists 1%nat; apply step_drop; [done|by apply keeps_refl]].
  wp_step. wp_step. apply wp_validate_preferred; [done..|apply preferred_data_not_emergency| |].
  - intros s' Hks. wp_red. wp_step. apply HQ. exists 1%nat. by apply step_drop.
  - intros v s' Hks Hv. wp_red. apply (wp_push false Preferred v s); [done..|].
    intros sel' Hst. apply HQ. by exists 1%nat.
Qed.

Lemma slots_to_advance_ok requested :
  1 <= requested <= u8_max ->
  1 <= slots_to_advance k requested /\
  visible_slot_number k + slots_to_advance k requested <= true_slot_number k.
Proof.
  intros Hr. pose proof (ko_visible k Hk). destruct (cfg_advance Hcfg) as [Hm1 Hm2].
  unfold slots_to_advance, saturating_sub.
  destruct (N.leb_spec (true_slot_number k - visible_slot_number k) u8_max); lia.
Qed.

Lemma last_batch (l : list PreferredBlobDataWithId) k0 :
  BlobSequenceFacts.types l = replicate k0 ProofType ++ [BatchType] ->
  exists x p, last l = Some x /\ inner x = PreferredBatch p /\ x ∈ l.
Proof.
  intros Hl. assert (last (BlobSequenceFacts.types l) = Some BatchType) as Hlast
    by by rewrite Hl, last_snoc.
  unfold BlobSequenceFacts.types in Hlast.
  change (map ?f l) with (f <$> l) in Hlast.
  rewrite fmap_last in Hlast. destruct (last l) as [x|] eqn:Hx; [|done]. cbn in Hlast.
  destruct (inner x) as [p|p] eqn:Hi; [|done]. exists x, p. split_and!; [done|done|].
  by apply last_Some_elem_of.
Qed.

Lemma wp_pick {E} l disc (Q : outcome E (list PreferredBlobDataWithId * list DiscardedBlob) -> t -> Prop) s :
  inv s -> well_numbered l -> Forall advance_ok l ->
  (forall s' out d, keeps s 0 s' -> Forall advance_ok out ->
     (out = [] \/ exists k0, BlobSequenceFacts.types out = replicate k0 ProofType ++ [BatchType]) ->
     Q (Ok (out, d)) s') ->
  wp (pick_preferred l disc) Q s.
Proof.
  intros Hs Hl Hadv HQ. unfold pick_preferred. wp_step. wp_step. wp_step.
  destruct (BlobSequenceFacts.pick_ok (preferred_queue s) l disc (inv_queue s Hs) Hl)
    as (out & q' & Hpick & Hq' & _ & _ & Hty & r & rest & block & _ & _ & Hfrom).
  rewrite Hpick. wp_step; [|done]. match goal with H : Some _ = Some _ |- _ => injection H as <- end.
  destruct (Hfrom advance_ok Hadv (inv_advance s Hs)) as [Ho Hd]. wp_step. wp_step. wp_step.
  apply HQ; [|done|done]. destruct Hs as [Hr Hid Hq Ha Hst].
  split; [by split|done|done|done|unfold reserve, bank_id; cbn; lia].
Qed.

(** *** What is handed to the STF blueprint *)

Definition reserved (x : Blob.SelectedBlob (Sp := Sp)) : N := default 0 (Blob.reserved_gas_tokens x).

Definition selected_ok (x : Blob.SelectedBlob (Sp := Sp)) : Prop :=
  is_Some (Blob.reserved_gas_tokens x) <->
  Blob.is_emergency_registration (Blob.blob_data x) = false.

Record output_ok (s : t) (out : BlobSelectorOutput (Blob.SelectedBlob (Sp := Sp))) (s' : t)
  : Prop := mkOutputOk {
  oo_keeps : keeps s (sum_N (map reserved (selected_blobs _ out))) s';
  oo_selected : Forall selected_ok (selected_blobs _ out);
  oo_size : sum_N (map (fun x => Blob.blob_size (Blob.blob_data x)) (selected_blobs _ out)) <=
    MAX_SIZE;
  oo_increase :
    visible_slot_number k + visible_slot_number_increase _ out <= true_slot_number k;
  oo_empty : visible_slot_number_increase _ out = 0 -> selected_blobs _ out = []
}.

Lemma into_selected_all l :
  Forall (accepted false) l ->
  exists l', mapM Blob.into_selected_blob l = Some l' /\ Forall selected_ok l' /\
    sum_N (map reserved l') = bonds l /\
    sum_N (map (fun x => Blob.blob_size (Blob.blob_data x)) l') = Blob.total_size l /\
    length l' = length l.
Proof.
  induction 1 as [|v l [Hv _] Hl (l' & Hm & Hs & Hr & Hz & Hlen)]; [by exists []|].
  assert (exists x, Blob.into_selected_blob v = Some x /\ selected_ok x /\
    reserved x = direct_bond v /\ Blob.blob_data x = Blob.blob v) as (x & Hx & Hok & Hbond & Hdata).
  { unfold Blob.into_selected_blob, escrowed, ready, direct_bond in *.
    destruct (Blob.balance_store v); [done|..].
    - eexists. split_and!; [done| |done|done]. split; [done|]. by eexists.
    - rewrite Hv. eexists. split_and!; [done| |done|done]. cbn. unfold selected_ok. cbn.
      rewrite Hv. split; [by intros []|done]. }
  exists (x :: l'). cbn. rewrite Hx. cbn. rewrite Hm. cbn.
  unfold bonds, Blob.total_size, sum_N in *. cbn [map foldr length].
  split_and!; [done|by constructor|by rewrite Hr, Hbond|by rewrite Hz, Hdata|by rewrite Hlen].
Qed.

Lemma output_of_validated s inc l s' l' disc :
  validated_ok s inc l s' -> mapM Blob.into_selected_blob l = Some l' ->
  output_ok s (mkOutput _ l' inc disc) s'.
Proof.
  intros [Hks Hacc Hsz Hinc Hemp] Hm.
  destruct (into_selected_all l Hacc) as (l2 & Hm2 & Hok & Hr & Hz & _).
  rewrite Hm in Hm2. injection Hm2 as <-. split; cbn -[sum_N]; [by rewrite Hr|done|by rewrite Hz|done|].
  intros H0. specialize (Hemp H0). subst l. by injection Hm as <-.
Qed.

Lemma wp_choose_increase {E} l sel pref seq (Q : outcome E (N * selection) -> t -> Prop) s :
  inv s -> tracked pref s -> checks_cost k -> Blob.fits MAX_SIZE (sel_blobs sel) ->
  Forall advance_ok l -> 1 <= DEFERRED_SLOTS_COUNT ->
  (l = [] \/ exists k0, BlobSequenceFacts.types l = replicate k0 ProofType ++ [BatchType]) ->
  (forall n s' sel', steps false s sel s' sel' ->
     visible_slot_number k + n <= true_slot_number k -> (n = 0 -> sel' = sel) ->
     Q (Ok (n, sel')) s') ->
  wp (choose_height_increase k l sel pref seq) Q s.
Proof.
  intros Hs Ht Hcost Hf Hadv Hdef Hl HQ. unfold choose_height_increase.
  destruct Hl as [->|[k0 Hl]].
  - cbn [last]. pose proof (ko_true k Hk). pose proof (ko_visible k Hk).
    wp_step. unfold SequencerRegistry.advance, checked_add.
    rewrite (proj2 (N.leb_le _ _)) by lia. wp_step; [|done].
    match goal with H : Some _ = Some _ |- _ => injection H as <- end. wp_step.
    apply HQ; [exists O; by apply step_refl| |done].
    destruct (N.leb_spec (visible_slot_number k + DEFERRED_SLOTS_COUNT) (true_slot_number k)); lia.
  - destruct (last_batch l k0 Hl) as (x & p & -> & Hx & Hin). rewrite Hx. cbn.
    rewrite Forall_forall in Hadv. pose proof (Hadv x Hin p Hx) as Hp.
    destruct (slots_to_advance_ok _ Hp) as [H1 H2].
    wp_step. wp_step. wp_step. apply wp_add_preferred; [done..|].
    intros s' sel' Hst. wp_red. wp_step. apply HQ; [done|done|lia].
Qed.

Lemma wp_select_others {E} inc others sel (Q : outcome E selection -> t -> Prop) s :
  inv s -> Blob.fits MAX_SIZE (sel_blobs sel) -> MAX_SIZE <= u32_max -> len others <= u32_max ->
  (forall s' sel', Blob.fits MAX_SIZE (sel_blobs sel') ->
     (exists added, chosen sel' = chosen sel ++ added /\ Forall (accepted false) added /\
        keeps s (bonds added) s' /\ (inc = 0 -> added = [])) -> Q (Ok sel') s') ->
  wp (select_other_blobs k inc others sel) Q s.
Proof.
  intros Hs Hf Hm Hl HQ. pose proof (ko_visible k Hk) as Hvis. pose proof (ko_true k Hk).
  unfold select_other_blobs. apply wp_bind, wp_price; [done|]. intros price _. wp_red.
  apply wp_bind. apply (wp_mono _ (fun o s1 => exists sel1, o = Ok sel1 /\
    Blob.fits MAX_SIZE (sel_blobs sel1) /\ exists a1, chosen sel1 = chosen sel ++ a1 /\
    Forall (accepted false) a1 /\ keeps s (bonds a1) s1 /\ (inc = 0 -> a1 = []))).
  { destruct (N.eq_dec inc 0) as [->|Hne].
    - unfold retrieve_stored_blobs_and_add_to_selection. change (seq 1 (N.to_nat 0)) with (@nil nat).
      cbn [fold_m]. wp_step. exists sel. split_and!; [done|done|]. exists []. rewrite app_nil_r.
      split_and!; [done|constructor|by apply keeps_refl|done].
    - apply wp_retrieve_stored; [done|done|]. intros s1 sel1 Hst. exists sel1.
      destruct (steps_ok _ _ _ _ _ Hst) as [_ Hf1]. split_and!; [done|done|].
      destruct Hst as [n [_ (a1 & Hc & Ha & Hks) _]]. exists a1. by split_and!. }
  intros o s1 (sel1 & -> & Hf1 & a1 & Hc1 & Ha1 & Hk1 & He1). wp_red.
  destruct (N.eqb_spec (saturating_add u64_max (visible_slot_number k) inc) (true_slot_number k))
    as [Heq|_].
  - apply wp_select_helper; [apply Hk1|done|done|].
    intros s2 sel2 [Hf2 (a2 & Hc2 & Ha2 & Hk2) _]. apply HQ; [done|]. exists (a1 ++ a2).
    rewrite Hc2, Hc1, app_assoc, bonds_app. split_and!; [done|by apply Forall_app|by eapply keeps_trans|].
    intros ->. unfold saturating_add in Heq. lia.
  - apply wp_bind, wp_new_accumulator; [done|]. intros a Hfa Hea. wp_red.
    apply wp_bind, wp_select_helper; [apply Hk1|done|done|].
    intros s2 sel2 [Hf2 (a2 & Hc2 & Ha2 & Hk2) _]. wp_red. cbn in Hc2. rewrite Hea in Hc2. cbn in Hc2.
    wp_step. apply wp_store; [apply Hk2|by rewrite Hc2|]. intros s3 Hk3. wp_red. wp_step.
    apply HQ; [done|]. exists a1. cbn. split_and!; [done|done| |done].
    eapply keeps_weaken; [eapply keeps_trans; [exact Hk1|by eapply keeps_trans]|lia].
Qed.

Definition preferred_items (c : RelevantBlobs) (pref : DaAddress) : list (BlobOrigin Sp) :=
  map FromProof (filter (fun b => tx_sender b = pref) (proof_blobs c)) ++
  map FromBatch (filter (fun b => tx_sender b = pref) (batch_blobs c)).

Lemma wp_select_preferred {E} c pref seq
    (Q : outcome E (BlobSelectorOutput (Blob.SelectedBlob (Sp := Sp))) -> t -> Prop) s :
  inv s -> tracked pref s -> checks_cost k -> MAX_SIZE <= u32_max ->
  N.of_nat (count_items c) <= u32_max -> 1 <= DEFERRED_SLOTS_COUNT ->
  well_numbered (omap decoded (preferred_items c pref)) ->
  (forall s' out, output_ok s out s' -> Q (Ok out) s') ->
  wp (select_blobs_for_preferred_sequencer k c [] pref seq) Q s.
Proof.
  intros Hs Ht Hcost Hm Hl Hdef Hnum HQ. unfold select_blobs_for_preferred_sequencer.
  cbn [separate_preferred_blobs]. unfold decode_all_preferred. fold (preferred_items c pref).
  apply wp_bind, wp_decode_all; [done|]. intros s1 Hk1. wp_red. cbn [app].
  apply wp_bind, wp_pick; [apply Hk1|done|apply decoded_advance|].
  intros s2 out d Hk2 Hadv Hout. wp_red.
  apply wp_bind, wp_new_accumulator; [done|]. intros a Hfa Hea. wp_red.
  assert (tracked pref s2) as Ht2 by by apply Hk2, Hk1.
  apply wp_bind, wp_choose_increase; [apply Hk2|done|done|done|done|done|done|].
  intros inc s3 sel3 Hst3 Hinc Hemp. wp_red. destruct (steps_ok _ _ _ _ _ Hst3) as [Hi3 Hf3].
  apply wp_bind, wp_select_others; [done|done|done| |].
  { unfold len. rewrite length_app, !length_map. unfold count_items in Hl.
    pose proof (length_filter (fun b => tx_sender b <> pref) (batch_blobs c)).
    pose proof (length_filter (fun b => tx_sender b <> pref) (proof_blobs c)). lia. }
  intros s4 sel4 Hf4 (a4 & Hc4 & Ha4 & Hk4 & He4). wp_red.
  destruct Hst3 as [n [_ (a3 & Hc3 & Ha3 & Hk3) _]]. cbn in Hc3. rewrite Hea in Hc3. cbn in Hc3.
  assert (validated_ok s inc (chosen sel4) s4) as Hval.
  { rewrite Hc3 in Hc4. split; rewrite ?Hc4.
    - rewrite bonds_app. eapply keeps_weaken;
        [eapply keeps_trans; [exact Hk1|eapply keeps_trans; [exact Hk2|by eapply keeps_trans]]|lia].
    - by apply Forall_app.
    - rewrite <- Hc4. by apply fits_size.
    - done.
    - intros H0. rewrite (He4 H0), <- Hc3, (Hemp H0). cbn. by rewrite Hea. }
  destruct (into_selected_all _ (vo_ready _ _ _ _ Hval)) as (l' & Hl' & _).
  rewrite Hl'. wp_step. wp_step; [|done].
  match goal with H : Some _ = Some _ |- _ => injection H as <- end.
  wp_step. apply HQ. by eapply output_of_validated.
Qed.

Lemma wp_into_selected {E} s0 out (Q : outcome E (BlobSelectorOutput (Blob.SelectedBlob (Sp := Sp))) -> t -> Prop) s :
  validated_ok s0 (visible_slot_number_increase _ out) (selected_blobs _ out) s ->
  (forall out', output_ok s0 out' s ->
     length (selected_blobs _ out') = length (selected_blobs _ out) ->
     discarded_blobs _ out' = discarded_blobs _ out ->
     visible_slot_number_increase _ out' = visible_slot_number_increase _ out -> Q (Ok out') s) ->
  wp (into_selected out) Q s.
Proof.
  intros Hval HQ. unfold into_selected.
  destruct (into_selected_all _ (vo_ready _ _ _ _ Hval)) as (l' & Hl' & _ & _ & _ & Hlen).
  rewrite Hl'. wp_step. wp_step; [|done].
  match goal with H : Some _ = Some _ |- _ => injection H as <- end.
  wp_step. apply HQ; [|done..]. by eapply output_of_validated.
Qed.

Lemma wp_based_selected {E} c (Q : outcome E (BlobSelectorOutput (Blob.SelectedBlob (Sp := Sp))) -> t -> Prop) s :
  inv s -> MAX_SIZE <= u32_max -> N.of_nat (count_items c) <= u32_max ->
  (forall s' out, output_ok s out s' ->
     visible_slot_number_increase _ out = true_slot_number k - visible_slot_number k ->
     (length (selected_blobs _ out) + length (discarded_blobs _ out) = count_items c)%nat ->
     Q (Ok out) s') ->
  wp (select_blobs_as_based_sequencer k c) Q s.
Proof.
  intros Hs Hm Hl HQ. pose proof (ko_visible k Hk). unfold select_blobs_as_based_sequencer.
  apply wp_bind, wp_based; wp_red; [done..|]. intros s' out Hacc Hks Hsz Hinc Hn.
  apply (wp_into_selected s).
  - split; [done|done|done|lia|lia].
  - intros out' Hout Hlen Hd Hi. apply HQ; [done|congruence|]. by rewrite Hlen, Hd.
Qed.

Lemma wp_get_preferred {E} (Q : outcome E (option (DaAddress * Address)) -> t -> Prop) s :
  (forall pref seq, SequencerRegistry.preferred_sequencer (registry s) = Some pref ->
     Q (Ok (Some (pref, seq))) s) ->
  Q (Ok None) s -> wp get_preferred_sequencer Q s.
Proof.
  intros Hs Hn. unfold get_preferred_sequencer, on_registry, SequencerRegistry.get_preferred_sequencer.
  pose proof unmetered_cannot_fail as Hcf. do 3 wp_step. wp_step; [no_fail|]. wp_red. cbn.
  destruct (SequencerRegistry.preferred_sequencer (registry s)) as [pref|] eqn:Hp.
  - wp_step. wp_step; [no_fail|]. wp_red. wp_step. rewrite storage_registry_id. cbn.
    destruct (known s !! pref) as [q|]; cbn; [by apply Hs|done].
  - wp_step. by rewrite storage_registry_id.
Qed.
End Select.

(** *** The kernel that the chain state provides *)

Lemma next_price_total (Hprices : GasPrice.price_config_ok) (s : ChainState.t) n h v r increase :
  ChainState.chain_inv (ChainState.the_kernel s) n h v r ->
  exists ps, ChainState.compute_next_gas_price h increase s = Some ps /\
    (1 <= increase -> ChainState.is_setup_mode_active (saturating_add u64_max h 1) s = false ->
     GasPriceFacts.prices_ok ps).
Proof.
  intros Hinv. unfold ChainState.compute_next_gas_price.
  destruct (ChainState.is_setup_mode_active _ s) eqn:Hset; [by eexists|].
  pose proof (ChainStateFacts.initial_prices_ok Hprices) as Hinit.
  destruct (_ || _); [by eexists|].
  assert (ChainState.gas_info_ok (default (BlockGasInfo.new initial_gas_limit initial_base_fee_per_gas)
    (ChainState.block_gas_info (ChainState.the_kernel s) !! h))) as Hinfo.
  { destruct (ChainState.block_gas_info (ChainState.the_kernel s) !! h) as [info|] eqn:Hi; cbn.
    - by eapply ChainState.ci_blocks.
    - by apply ChainStateFacts.new_gas_info_ok. }
  destruct (N.eq_dec increase 0) as [->|Hne].
  - eexists. split; [done|]. lia.
  - destruct (ChainStateFacts.next_price Hprices _ increase Hinfo) as (ps & -> & Hps); [lia|]. eauto.
Qed.

(** A gas that has a positive dimension has a positive value. *)
Lemma positive_value gas price i g v :
  gas !! i = Some g -> 0 < g -> Forall (fun p => 1 <= p <= u128_max) price -> (i < length price)%nat ->
  GasArray.checked_value gas price = Some v -> 0 < v.
Proof.
  unfold GasArray.checked_value. generalize Amount.ZERO.
  revert i gas. induction price as [|p price IH]; intros i gas z Hi Hg Hp Hl; cbn in Hl; [lia|].
  apply Forall_cons in Hp as [Hp1 Hp]. destruct gas as [|g0 gas]; [done|]. cbn.
  unfold Amount.checked_mul, Amount.checked_add. intros Hv. repeat case_match; try done. checked_simpl.
  assert (forall l l' z v, GasArray.checked_value_from z l l' = Some v -> z <= v) as Hmono.
  { clear. induction l as [|a l IH]; intros [|a' l'] z v Hv; cbn in Hv; simplify_eq; [lia..|].
    unfold Amount.checked_mul, Amount.checked_add in Hv. repeat case_match; try done. checked_simpl.
    apply IH in Hv. lia. }
  destruct i as [|i].
  - cbn in Hi. simplify_eq. apply Hmono in Hv. nia.
  - eapply (IH i gas); [done|done|done|lia|done].
Qed.

(** After the synchronization of the chain state, blobs can be selected. *)
Lemma kernel_ready (Hprices : GasPrice.price_config_ok) (s : ChainState.t) n h v r header root :
  ChainState.chain_inv (ChainState.the_kernel s) n h v r -> n + 1 + DEFERRED_SLOTS_COUNT <= u64_max ->
  exists k, ChainState.synchronize_chain header root
      (ChainState.from_checkpoint (ChainState.with_witness s)) = Some k /\
    kernel_ok k /\ true_slot_number k = n + 1 /\ visible_slot_number k = v /\
    (ChainState.is_setup_mode_active (saturating_add u64_max h 1) s = false ->
     (exists i g, max_tx_check_costs !! i = Some g /\ 0 < g /\ (i < length initial_gas_limit)%nat) ->
     checks_cost k).
Proof.
  intros Hinv Hn. pose proof (ChainState.ci_visible _ _ _ _ _ Hinv).
  destruct (ChainStateFacts.sync_ok Hprices s n h v r header root Hinv)
    as (s' & info & ps & Hsync & Hinv' & _ & _ & _ & _ & _ & Hu); [lia|].
  eexists. split; [exact Hsync|].
  assert (ChainState.rollup_height_of s' = h) as Hh.
  { unfold ChainState.rollup_height_of. by rewrite (ChainState.ci_heights _ _ _ _ _ Hinv'). }
  split_and!; [split|done|done|].
  - unfold visible_slot_number, true_slot_number. cbn. lia.
  - done.
  - intros increase. cbn. rewrite Hh.
    destruct (next_price_total Hprices s' _ _ _ _ increase Hinv') as (p & -> & _). eauto.
  - intros Hset (i & g & Hi & Hg & Hlen) increase price x Hinc. cbn. rewrite Hh.
    destruct (next_price_total Hprices s' _ _ _ _ increase Hinv') as (p & -> & Hp).
    intros [= <-] Hx. destruct Hp as [Hp Hpl]; [done| |].
    { unfold ChainState.is_setup_mode_active in *. by rewrite Hu. }
    eapply positive_value; [exact Hi|done|done|by rewrite Hpl|done].
Qed.
End Facts.
End BlobStorageFacts.
