(* ===== verification/BlobStorageProperties.v ===== *)
(** * Properties of the selection of blobs

    What sov-blob-storage promises to the STF blueprint: the selection of a slot
    does not panic, keeps the invariants of the modules and puts the bonds of the
    selected blobs into the bank module; and where the code does not keep this. *)

From Stdlib Require Import NArith Lia.
From stdpp Require Import base numbers gmap strings option list.
From S2P Require Import Prelude Ints Gas StateAccess GasPrice Bank SequencerRegistry Capabilities.
From S2P Require Import ChainState StfBlueprint StfProperties Blobs BlobSequence BlobStorage.
From S2P Require Import BlobStorageProofs.

(** ** What a slot has to fulfil *)
Module Selection.
Import BlobSequence BlobStorage BlobStorageFacts.
Section Selection.
Context {Sp : Spec} {Rt : StateRoot} {Prices : PriceConfig} {Consts : ChainConstants}
  {GS : GasSpec} {Cst : RegistryConstants} {Bsh : BorshIntegers} {Codec : BlobCodec Sp}
  {BC : BlobConstants}.

(** The sizes fit their integers, and if there is a preferred sequencer, it has
    numbered the blobs of the slot. *)
Record storage_ok (c : RelevantBlobs) (s : t) : Prop := mkStorageOk {
  so_inv : inv s;
  so_config : config_ok;
  so_codec : BlobCodecLaws;
  so_max : MAX_ALLOWED_DATA_SIZE_RETURNED_BY_BLOB_STORAGE <= u32_max;
  so_count : N.of_nat (count_items c) <= u32_max;
  so_numbered : forall pref, DEFERRED_SLOTS_COUNT <> 0 ->
    SequencerRegistry.preferred_sequencer (sequencer_registry s) = Some pref ->
    well_numbered (omap decoded (preferred_items c pref))
}.

(** The kernel has a slot to process, and a preferred sequencer pays for the checks. *)
Record slot_ok (k : ChainState.KernelStateAccessor) (s : t) : Prop := mkSlotOk {
  so_kernel : kernel_ok k;
  so_cost : DEFERRED_SLOTS_COUNT <> 0 ->
    is_Some (SequencerRegistry.preferred_sequencer (sequencer_registry s)) -> checks_cost k
}.

Lemma wp_get_blobs {E} k c
    (Q : outcome E (BlobSelectorOutput (Blob.SelectedBlob (Sp := Sp))) -> t -> Prop) s :
  storage_ok c s -> slot_ok k s -> (forall s' out, output_ok k s out s' -> Q (Ok out) s') ->
  wp (get_blobs_for_this_slot k c) Q s.
Proof.
  intros [Hs Hcfg Hlaws Hm Hl Hpref] [Hk Hcost] HQ. unfold get_blobs_for_this_slot.
  destruct (N.eqb_spec DEFERRED_SLOTS_COUNT 0) as [_|Hd].
  { apply (wp_based_selected k Hk Hcfg Hlaws); [done..|]. intros s' out Hout _ _. by apply HQ. }
  apply wp_bind, wp_get_preferred; wp_red.
  - intros pref seq Hp. pose proof (Hpref pref Hd Hp) as Hnum.
    apply (wp_select_preferred k Hk Hcfg Hlaws); [done|by left|by apply Hcost; [|rewrite Hp]|done|done|lia|done|done].
  - apply wp_bind, (wp_recovery k Hk Hcfg Hlaws); wp_red; [done..|]. intros s' out Hout.
    apply (wp_into_selected k s); [done|]. intros out' Hok _ _ _. by apply HQ.
Qed.
End Selection.
End Selection.

(** ** A concrete rollup for the witnesses *)
Module SelectionDemo.
Import BlobSequence BlobStorage BlobStorageFacts Selection TxCodec StfDemo BorshDemo ChainDemo.

Definition two_units : list N := [1; 1].
#[local] Instance Sp2 : Spec := demo_spec two_units.
#[local] Instance GS2 : GasSpec := demo_gas_spec two_units.
#[local] Existing Instances pair_root le_borsh le_borsh_laws RegistryDemo.demo_constants.

Definition unit_prices : PriceConfig := {|
  ELASTICITY_MULTIPLIER := 2;
  BASE_FEE_MAX_CHANGE_DENOMINATOR := 8;
  initial_gas_limit := [10000; 10000];
  initial_base_fee_per_gas := [1; 1]
|}.
#[local] Existing Instance unit_prices.

Lemma unit_prices_ok : GasPrice.price_config_ok.
Proof. unfold GasPrice.price_config_ok. split_and!; repeat constructor; by vm_compute. Qed.

(** Setup mode ends at the first height, or it does not end in the demo. *)
Definition normal_mode : ChainConstants :=
  {| STATE_ROOT_DELAY_BLOCKS := 1; SETUP_MODE_TERMINATION_HEIGHT := 1 |}.
Definition setup_mode : ChainConstants :=
  {| STATE_ROOT_DELAY_BLOCKS := 1; SETUP_MODE_TERMINATION_HEIGHT := 9 |}.

#[local] Instance demo_blob_constants : BlobConstants := {|
  UNREGISTERED_BLOBS_PER_SLOT := 2;
  MAX_ALLOWED_DATA_SIZE_RETURNED_BY_BLOB_STORAGE := 1000;
  MAX_VISIBLE_HEIGHT_INCREASE_PER_SLOT := 10
|}.

(** *** The decoders: vectors as in borsh *)

Fixpoint decode_txs (n : nat) (l : list N) : option (list FullyBakedTx * list N) :=
  match n with
  | O => Some ([], l)
  | S n =>
      match deserialize_reader u64_max l with
      | Ok (tx, l) => let? (txs, l) := decode_txs n l in Some (tx :: txs, l)
      | _ => None
      end
  end.

Definition decode_vec_of_txs (l : list N) : option (list FullyBakedTx * list N) :=
  let? (n, l) := read_u32 l in decode_txs (N.to_nat n) l.

Definition at_end {A} (o : option (A * list N)) : option A :=
  match o with Some (a, []) => Some a | _ => None end.

#[local] Instance demo_codec : BlobCodec Sp2 := {|
  decode_preferred_proof := fun l =>
    match l with n :: rest => Some (mkPreferredProof n rest) | [] => None end;
  decode_preferred_batch := fun l =>
    match l with
    | n :: increase :: rest =>
        if (1 <=? increase) && (increase <=? u8_max)
        then let? txs := at_end (decode_vec_of_txs rest) in Some (mkPreferredBatch n txs increase)
        else None
    | _ => None
    end;
  decode_proof := fun l => let? (n, l) := read_u32 l in if len l =? n then Some l else None;
  decode_batch := fun l => at_end (decode_vec_of_txs l);
  decode_tx := fun l => match deserialize_reader u64_max l with Ok (tx, []) => Some tx | _ => None end;
  da_address_len := fun _ => 32
|}.

Lemma decode_txs_len n : forall l txs rest, decode_txs n l = Some (txs, rest) ->
  len txs <= sum_N (map tx_len txs) /\ len l = sum_N (map tx_len txs) + len rest.
Proof.
  induction n as [|n IH]; intros l txs rest Hd; cbn in Hd; [simplify_eq; done|].
  destruct (deserialize_reader u64_max l) as [[tx l1]|e|] eqn:Htx; [|done..].
  destruct (decode_txs n l1) as [[txs' rest']|] eqn:Hrest; [|done]. cbn in Hd. simplify_eq.
  apply TxCodecFacts.deserialize_bounded in Htx as [_ Hl]. apply IH in Hrest as [H1 H2].
  assert (1 <= tx_len tx).
  { unfold tx_len, serialize, write_vec. rewrite !TxCodecFacts.len_app, write_u32_width. lia. }
  change (sum_N (map tx_len (tx :: txs'))) with (tx_len tx + sum_N (map tx_len txs')).
  change (len (tx :: txs')) with (N.of_nat (S (length txs'))). unfold len in *. lia.
Qed.

Lemma decode_vec_len l txs :
  at_end (decode_vec_of_txs l) = Some txs -> len txs <= len l /\ sum_N (map tx_len txs) <= len l.
Proof.
  unfold decode_vec_of_txs. destruct (read_u32 l) as [[n l1]|] eqn:Hn; [|done].
  apply read_u32_width in Hn as [_ Hn]. cbn [at_end].
  destruct (decode_txs (N.to_nat n) l1) as [[txs' [|? ?]]|] eqn:Hd; [|done..]. cbn. intros [= ->].
  apply decode_txs_len in Hd as [H1 H2]. cbn in H2. lia.
Qed.

Lemma demo_codec_laws : BlobCodecLaws.
Proof.
  split.
  - intros d b. apply decode_vec_len.
  - intros d p. unfold decode_proof, demo_codec. destruct (read_u32 d) as [[n l]|] eqn:Hn; [|done].
    apply read_u32_width in Hn as [_ Hn]. destruct (len l =? n); [|done]. intros [= <-]. lia.
  - intros d b. unfold decode_preferred_batch, demo_codec. destruct d as [|n [|i rest]]; [done..|].
    destruct (N.leb_spec 1 i); [|done]. destruct (N.leb_spec i u8_max); [|done]. cbn [andb].
    destruct (at_end (decode_vec_of_txs rest)); [|done]. intros [= <-]. cbn. lia.
Qed.

Lemma demo_config_ok : config_ok.
Proof. split; [intros a da; vm_compute; discriminate|split; vm_compute; discriminate]. Qed.

(** *** The state at genesis, and the kernel of the first slot *)

Definition first_root : @Root pair_root := ([1], [2]).

Definition first_slot (Consts : ChainConstants) : ChainState.KernelStateAccessor :=
  let start := ChainState.from_checkpoint (ChainState.with_witness (ChainState.init_module
    genesis_header (@ChainState.mkChainStateConfig Sp2 1000 Zk [2] [3] 7 (Some 1)))) in
  default start (ChainState.synchronize_chain genesis_header first_root start).

Lemma first_slot_ok Consts :
  kernel_ok (first_slot Consts) /\ true_slot_number (first_slot Consts) = 1 /\
  visible_slot_number (first_slot Consts) = 0 /\
  (SETUP_MODE_TERMINATION_HEIGHT <= 1 -> checks_cost (first_slot Consts)).
Proof.
  destruct (kernel_ready unit_prices_ok _ 0 0 0 0 genesis_header first_root
    (ChainStateFacts.genesis_ok unit_prices_ok genesis_header
       (@ChainState.mkChainStateConfig Sp2 1000 Zk [2] [3] 7 (Some 1))))
    as (k & Hk & Hok & Ht & Hv & Hcost); [by vm_compute|].
  unfold first_slot. rewrite Hk. cbn [default]. split_and!; [exact Hok|exact Ht|exact Hv|].
  intros Hs. apply Hcost.
  - unfold ChainState.is_setup_mode_active. change (saturating_add u64_max 0 1) with 1.
    by rewrite (proj2 (N.leb_le _ _)) by done.
  - exists 0%nat, 100. split_and!; [done|by vm_compute|cbn; lia].
Qed.

(** Batches that use a fixed amount of gas. *)
Definition use_5000 (price limit : list N) (s : ChainState.t (Sp := Sp2)) : ChainState.t * list N :=
  (s, [5000; 5000]).

(** The sequencer 71, which may be the preferred one, has a stake of 1000. *)
Definition demo_storage (preferred : bool) : t :=
  mk (demo_registry two_units preferred 0) ∅ (mkQueue ∅ None).

Lemma demo_storage_inv preferred : inv (demo_storage preferred).
Proof.
  split.
  - apply demo_registry_inv.
  - destruct preferred; vm_compute; discriminate.
  - intros n ty. cbn. by rewrite lookup_empty.
  - intros n b. cbn. by rewrite lookup_empty.
  - intros n l. cbn. by rewrite lookup_empty.
Qed.

Definition encode_txs (txs : list FullyBakedTx) : list N :=
  write_u32 (len txs) ++ concat (map serialize txs).

Definition a_blob (id : N) (data : list N) : BlobTransaction Sp2 :=
  @mkBlobTransaction Sp2 (71 : @DaAddress Sp2) (replicate 32 id) data.
Definition pay : list N := encode_txs [pay_tx 1 0 2 30].
Definition malformed : list N := [].

(** The summary of a selection: what is needed of it in the witnesses. *)
Definition selection_summary {E}
    (o : outcome E (BlobSelectorOutput (Blob.SelectedBlob (Sp := Sp2))))
  : option (nat * N * list BlobDiscardReason) :=
  match o with
  | Ok out => Some (length (selected_blobs _ out), visible_slot_number_increase _ out,
      map reason (discarded_blobs _ out))
  | _ => None
  end.
End SelectionDemo.

(** ** Properties *)
Module BlobStorageProperties.
Import BlobSequence BlobStorage BlobStorageFacts Selection.
Section Properties.
Context {Sp : Spec} {Rt : StateRoot} {Prices : PriceConfig} {Consts : ChainConstants}
  {GS : GasSpec} {Cst : RegistryConstants} {Bsh : BorshIntegers} {Codec : BlobCodec Sp}
  {BC : BlobConstants}.

(** C7: the selection of the kernel with soft confirmations is safe when the
    preferred sequencer, if there is one, behaves: those of its blobs of the slot that
    can be decoded have distinct sequence numbers below the largest one, and the
    checks of its blobs are not free, which excludes setup mode.  The bytes of all
    other blobs are arbitrary, there are at most [u32::MAX] of them.  Then the
    selection does not panic in any of its three modes and keeps the invariants of the
    bank, the registry and the storage.  The bonds of all selected blobs are in the
    bank module, exactly the blobs that are no emergency registrations have one, and
    their size is within the limit.  The visible slot number does not pass the true
    one, and no blob is selected without a block.  Both conditions are needed:
    [repeated_numbers_break_order] and [setup_mode_slash_panics]. *)
Theorem selection_never_panics k c (s : t) (Hs : storage_ok c s) (Hk : slot_ok k s) :
  exists out s', get_blobs_for_this_slot (E := Empty_set) k c (Acc tt s) = (Ok out, Acc tt s') /\
    inv s' /\
    reserve s + sum_N (map reserved (selected_blobs _ out)) <= reserve s' /\
    Forall selected_ok (selected_blobs _ out) /\
    sum_N (map (fun x => Blob.blob_size (Blob.blob_data x)) (selected_blobs _ out)) <=
      MAX_ALLOWED_DATA_SIZE_RETURNED_BY_BLOB_STORAGE /\
    visible_slot_number k + visible_slot_number_increase _ out <= true_slot_number k /\
    (visible_slot_number_increase _ out = 0 -> selected_blobs _ out = []).
Proof.
  assert (wp (G := unit) (E := Empty_set) (get_blobs_for_this_slot k c)
    (fun o s' => exists out, o = Ok out /\ output_ok k s out s') s) as Hwp
    by (apply wp_get_blobs; eauto).
  apply wp_result in Hwp as (o & s' & Hrun & out & -> & [Hks Hsel Hsz Hinc Hemp]).
  exists out, s'. split_and!; [done|apply Hks|apply Hks|done..].
Qed.

(** The selection of the basic kernel.  Under the same conditions it makes all
    slots visible, and every blob of the slot is either selected or reported as
    discarded. *)
Theorem based_selection_complete k c (s : t) (Hs : storage_ok c s) (Hk : kernel_ok k) :
  exists out s', select_blobs_as_based_sequencer (E := Empty_set) k c (Acc tt s) =
      (Ok out, Acc tt s') /\ inv s' /\
    reserve s + sum_N (map reserved (selected_blobs _ out)) <= reserve s' /\
    Forall selected_ok (selected_blobs _ out) /\
    visible_slot_number k + visible_slot_number_increase _ out = true_slot_number k /\
    (length (selected_blobs _ out) + length (discarded_blobs _ out) =
     length (proof_blobs c) + length (batch_blobs c))%nat.
Proof.
  destruct Hs as [Hs Hcfg Hlaws Hm Hl _].
  assert (wp (G := unit) (E := Empty_set) (select_blobs_as_based_sequencer k c)
    (fun o s' => exists out, o = Ok out /\ output_ok k s out s' /\
       visible_slot_number_increase _ out = true_slot_number k - visible_slot_number k /\
       (length (selected_blobs _ out) + length (discarded_blobs _ out) = count_items c)%nat) s) as Hwp
    by (apply wp_based_selected; eauto).
  apply wp_result in Hwp as (o & s' & Hrun & out & -> & [Hks Hsel Hsz Hinc Hemp] & Hi & Hn).
  pose proof (ko_visible k Hk). unfold count_items in Hn.
  exists out, s'. split_and!; [done|apply Hks|apply Hks|done|lia|lia].
Qed.

(** The input of the chain state for the selected blobs. *)
Definition input_of (header : BlockHeader) (root : Root) execute
    (out : BlobSelectorOutput (Blob.SelectedBlob (Sp := Sp))) : ChainState.slot_input :=
  ChainState.mkSlotInput header root (visible_slot_number_increase _ out)
    (match selected_blobs _ out with [] => true | _ => false end) execute.

(** The blob selector keeps its promise to the chain state.  On a chain in any
    state that fulfils the invariant and outside of setup mode, the slot is
    synchronized, the blobs are selected and the slot is processed with them without a
    panic, and the chain is in such a state again. *)
Theorem selected_slot_advances (chain : ChainState.t) n h v r header root execute c (s : t)
    (Hprices : GasPrice.price_config_ok)
    (Hinv : ChainState.chain_inv (ChainState.the_kernel chain) n h v r)
    (Hn : n + 1 + DEFERRED_SLOTS_COUNT <= u64_max)
    (Hmode : ChainState.is_setup_mode_active (saturating_add u64_max h 1) chain = false)
    (Hcost : exists i g, max_tx_check_costs !! i = Some g /\ 0 < g /\
       (i < length initial_gas_limit)%nat)
    (Hex : ChainState.execution_ok execute) (Hs : storage_ok c s) :
  exists k out s' slot r',
    ChainState.synchronize_chain header root
      (ChainState.from_checkpoint (ChainState.with_witness chain)) = Some k /\
    get_blobs_for_this_slot (E := Empty_set) k c (Acc tt s) = (Ok out, Acc tt s') /\ inv s' /\
    ChainState.apply_input (input_of header root execute out) chain = Some slot /\
    ChainState.chain_inv (ChainState.the_kernel (ChainState.out_state slot)) (n + 1)
      (ChainStateFacts.next_height h (visible_slot_number_increase _ out))
      (v + visible_slot_number_increase _ out) r'.
Proof.
  destruct (kernel_ready Hprices chain n h v r header root Hinv Hn)
    as (k & Hsync & Hk & Ht & Hv & Hchecks).
  assert (wp (G := unit) (E := Empty_set) (get_blobs_for_this_slot k c)
    (fun o s' => exists out, o = Ok out /\ output_ok k s out s') s) as Hwp.
  { apply wp_get_blobs; [done| |eauto]. split; [done|]. intros _ _. by apply Hchecks. }
  apply wp_result in Hwp as (o & s' & Hrun & out & -> & [Hks Hsel Hsz Hinc Hemp]).
  destruct (ChainStateFacts.apply_input_ok Hprices chain n h v r
    (input_of header root execute out) Hinv) as (slot & info & r' & Hslot & Hinv' & _).
  { split_and!; [lia|cbn; lia| |done]. cbn. intros H0. by rewrite (Hemp H0). }
  exists k, out, s', slot, r'. split_and!; [done|done|apply Hks|done|done].
Qed.

Lemma push_keeps_blob v l : forall sel (s : t),
  v ∈ Blob.blobs_with_address (sel_blobs sel) ->
  match fold_m (E := Empty_set) (fun sel b => push NonPreferred b sel) sel l (Acc tt s) with
  | (Ok sel', _) => v ∈ Blob.blobs_with_address (sel_blobs sel')
  | (Err _, _) => False
  | (Panic, _) => True
  end.
Proof.
  induction l as [|b l IH]; intros sel s Hv; [done|].
  cbn [fold_m]. unfold bind, push at 1, expect_some.
  destruct (Blob.push_or_ignore (sel_blobs sel) NonPreferred b) as [[res a]|] eqn:Hp; [|done].
  assert (v ∈ Blob.blobs_with_address a) as Ha.
  { unfold Blob.push_or_ignore in Hp. repeat case_match; simplify_eq; cbn; [set_solver|done]. }
  destruct res; cbn; by apply IH.
Qed.

Lemma into_selected_panics v l :
  v ∈ l -> Blob.into_selected_blob v = None -> mapM Blob.into_selected_blob l = None.
Proof.
  intros Hv Hn. destruct (mapM Blob.into_selected_blob l) as [l'|] eqn:Hm; [|done].
  apply mapM_Some in Hm. apply list_elem_of_lookup in Hv as [i Hi].
  destruct (Forall2_lookup_l _ _ _ _ _ Hm Hi) as (y & _ & Hy). congruence.
Qed.

(** Deferred blobs cannot be handed out by [get_non_preferred_blobs].  The funds of
    a stored batch or proof are in an escrow account, and the kernel converts the
    blobs without moving the funds to the bank module first: for every stored batch
    or proof that fits the limit, the call for its slot panics. *)
Theorem stored_blob_panics (s : t) n v rest a
    (Hslot : deferred_blobs s !! n = Some (v :: rest)) (Hs : inv s)
    (Hdata : Blob.is_emergency_registration (Blob.blob v) = false)
    (Hnew : Blob.new_with_size MAX_ALLOWED_DATA_SIZE_RETURNED_BY_BLOB_STORAGE = Some a)
    (Hfits : Blob.can_process_blob (Blob.blob_size_checker a) NonPreferred
       (Blob.blob_size (Blob.blob v)) = true) :
  fst (get_non_preferred_selected_blobs (E := Empty_set) [n] (Acc tt s)) = Panic.
Proof.
  assert (Blob.into_selected_blob v = None) as Hpanic.
  { pose proof (inv_stored s Hs n _ Hslot) as [[Hv _] _]%Forall_cons.
    unfold stored_ok in Hv. unfold Blob.into_selected_blob.
    destruct (Blob.balance_store v); [done|done|]. congruence. }
  unfold get_non_preferred_selected_blobs, get_non_preferred_blobs, new_accumulator.
  rewrite Hnew. cbn. unfold take_blobs_for_slot, gets, modify, bind, ret. cbn. rewrite Hslot. cbn.
  unfold push at 1, Blob.push_or_ignore. cbn. rewrite Hfits.
  assert (exists c, Blob.process_blob (Blob.blob_size_checker a) NonPreferred
    (Blob.blob_size (Blob.blob v)) = Some c) as [c Hc].
  { unfold Blob.can_process_blob in Hfits. unfold Blob.process_blob.
    repeat case_match; try done. cbn. eauto. }
  rewrite Hc. unfold bind at 1 2, expect_some, ret. cbn.
  match goal with |- context [fold_m _ ?sel rest (Acc tt ?s')] =>
    pose proof (push_keeps_blob v rest sel s') as Hfold end.
  match type of Hfold with _ -> match ?m with _ => _ end => destruct m as [[sel'|e|] s2] end.
  - rewrite (into_selected_panics v); [done| |done]. apply Hfold. cbn. set_solver.
  - exfalso. apply Hfold. cbn. set_solver.
  - done.
Qed.
End Properties.

(** ** Witnesses *)
Import SelectionDemo StfDemo ChainDemo BorshDemo.
#[local] Existing Instances Sp2 GS2 pair_root le_borsh le_borsh_laws RegistryDemo.demo_constants
  unit_prices demo_blob_constants demo_codec normal_mode.

(** The preferred sequencer 71 posts a batch and a proof, with the numbers 0 and 1. *)
Definition preferred_blobs : RelevantBlobs :=
  mkRelevant [a_blob 2 [0; 5; 5]] [a_blob 1 (1 :: 1 :: pay)].

Lemma demo_storage_ok preferred c :
  (length (proof_blobs c) + length (batch_blobs c) <= 100)%nat ->
  well_numbered (omap decoded (preferred_items c (71 : @DaAddress Sp2))) ->
  storage_ok c (demo_storage preferred).
Proof.
  intros Hl Hnum. split.
  - apply demo_storage_inv.
  - apply demo_config_ok.
  - apply demo_codec_laws.
  - vm_compute. discriminate.
  - unfold count_items, u32_max. lia.
  - intros pref _ Hp. assert (pref = (71 : @DaAddress Sp2)) as ->; [|exact Hnum].
    assert (forall p, SequencerRegistry.preferred_sequencer (demo_registry two_units preferred 0)
      <> Some p \/ p = (71 : @DaAddress Sp2)) as H71.
    { intros p. destruct preferred; vm_compute.
      - destruct (N.eq_dec p 71) as [->|Hne]; [by right|left]. congruence.
      - by left. }
    unfold demo_storage in Hp. cbn [sequencer_registry] in Hp.
    destruct (H71 pref) as [Hn|Hn]; [destruct (Hn Hp)|exact Hn].
Qed.

Lemma preferred_blobs_ok : storage_ok preferred_blobs (demo_storage true).
Proof.
  apply demo_storage_ok; [cbn; lia|].
  assert (omap decoded (preferred_items preferred_blobs (71 : @DaAddress Sp2)) =
    [mkPreferredBlob (PreferredProof (mkPreferredProof 0 [5; 5])) (replicate 32 2);
     mkPreferredBlob (PreferredBatch (mkPreferredBatch 1 [pay_tx 1 0 2 30] 1)) (replicate 32 1)])
    as -> by (vm_compute; reflexivity).
  split; [|repeat constructor; by vm_compute]. cbn. repeat constructor; set_solver.
Qed.

Lemma selection_never_panics_witness :
  exists out s', get_blobs_for_this_slot (E := Empty_set) (first_slot normal_mode) preferred_blobs
      (Acc tt (demo_storage true)) = (Ok out, Acc tt s') /\ inv s' /\
    selection_summary (Ok out : outcome Empty_set _) = Some (2%nat, 1, []).
Proof.
  destruct (selection_never_panics (first_slot normal_mode) preferred_blobs (demo_storage true)
    preferred_blobs_ok) as (out & s' & Hrun & Hinv & _).
  - destruct (first_slot_ok normal_mode) as (Hk & _ & _ & Hc). split; [exact Hk|].
    intros _ _. apply Hc. by vm_compute.
  - exists out, s'. split; [exact Hrun|split; [exact Hinv|]].
    assert (selection_summary (fst (get_blobs_for_this_slot (E := Empty_set) (first_slot normal_mode)
      preferred_blobs (Acc tt (demo_storage true)))) = Some (2%nat, 1, [])) as H
      by (vm_compute; reflexivity).
    rewrite Hrun in H. exact H.
Defined.

(** In the based mode the sequencer posts a batch, a proof and bytes that are no batch. *)
Definition based_blobs : RelevantBlobs :=
  mkRelevant [a_blob 2 (1 :: 0 :: 0 :: 0 :: [5])] [a_blob 1 pay; a_blob 3 malformed].

Lemma based_selection_complete_witness :
  exists out s', select_blobs_as_based_sequencer (E := Empty_set) (first_slot normal_mode)
      based_blobs (Acc tt (demo_storage false)) = (Ok out, Acc tt s') /\
    (length (selected_blobs _ out) + length (discarded_blobs _ out) = 3)%nat.
Proof.
  destruct (based_selection_complete (first_slot normal_mode) based_blobs (demo_storage false))
    as (out & s' & Hrun & _ & _ & _ & _ & Hn).
  - apply demo_storage_ok; [cbn; lia|].
    assert (omap decoded (preferred_items based_blobs (71 : @DaAddress Sp2)) =
      [mkPreferredBlob (PreferredProof (mkPreferredProof 1 [0; 0; 0; 5])) (replicate 32 2)])
      as -> by (vm_compute; reflexivity).
    split; [|repeat constructor; by vm_compute]. cbn. repeat constructor; set_solver.
  - apply first_slot_ok.
  - exists out, s'. split; [exact Hrun|exact Hn].
Defined.

Lemma selected_slot_advances_witness :
  exists k out s' slot,
    get_blobs_for_this_slot (E := Empty_set) k preferred_blobs (Acc tt (demo_storage true)) =
      (Ok out, Acc tt s') /\
    ChainState.apply_input (input_of genesis_header first_root use_5000 out)
      (ChainState.init_module genesis_header
        (@ChainState.mkChainStateConfig Sp2 1000 Zk [2] [3] 7 (Some 1))) = Some slot.
Proof.
  destruct (selected_slot_advances (ChainState.init_module genesis_header
      (@ChainState.mkChainStateConfig Sp2 1000 Zk [2] [3] 7 (Some 1))) 0 0 0 0 genesis_header
      first_root use_5000 preferred_blobs (demo_storage true) unit_prices_ok)
    as (k & out & s' & slot & r' & _ & Hrun & _ & Hslot & _).
  - apply ChainStateFacts.genesis_ok. exact unit_prices_ok.
  - vm_compute. discriminate.
  - reflexivity.
  - exists 0%nat, 100. split; [reflexivity|split; [reflexivity|cbn; lia]].
  - intros price limit s. split; [reflexivity|split; [reflexivity|split; [reflexivity|]]].
    repeat constructor; vm_compute; discriminate.
  - apply preferred_blobs_ok.
  - exists k, out, s', slot. split; [exact Hrun|exact Hslot].
Defined.

(** A storage with one deferred batch. *)
Definition deferred_batch : Blob.ValidatedBlob :=
  Blob.mkValidated (Blob.Batch (Blob.mkBatchWithId [pay_tx 1 0 2 30] [1] (1 : @Address Sp2)))
    (71 : @DaAddress Sp2) (Blob.EscrowHolder [9]).
Definition storage_with_deferred : t :=
  set_deferred {[ 3 := [deferred_batch] ]} (demo_storage true).

Lemma storage_with_deferred_inv : inv storage_with_deferred.
Proof.
  destruct (demo_storage_inv true) as [H1 H2 H3 H4 _]. split; [exact H1|exact H2|exact H3|exact H4|].
  intros n l Hl. cbn in Hl. apply lookup_singleton_Some in Hl as [<- <-].
  constructor; [|constructor]. split; [reflexivity|vm_compute; discriminate].
Qed.

Lemma stored_blob_panics_witness :
  fst (get_non_preferred_selected_blobs (E := Empty_set) [3] (Acc tt storage_with_deferred)) = Panic.
Proof.
  apply (stored_blob_panics storage_with_deferred 3 deferred_batch []
    (Blob.mkAccumulator [] (Blob.mkChecker 900 100))).
  - reflexivity.
  - apply storage_with_deferred_inv.
  - reflexivity.
  - reflexivity.
  - reflexivity.
Defined.

(** A malformed blob and a batch. *)
Definition malformed_and_batch : RelevantBlobs :=
  mkRelevant [] [a_blob 3 malformed; a_blob 1 (0 :: 1 :: pay)].

(** In setup mode, where gas is free, a malformed blob of the preferred sequencer
    stops the chain.  Decoding it slashes the sequencer; the other blobs of the
    sequencer cost nothing, so that the balance of a sequencer that does not exist is
    enough for them, and taking the bond from it panics.  Without the malformed
    blob, and outside of setup mode, the slot is processed. *)
Theorem setup_mode_slash_panics :
  fst (get_blobs_for_this_slot (E := Empty_set) (Consts := setup_mode) (first_slot setup_mode) malformed_and_batch
    (Acc tt (demo_storage true))) = Panic /\
  selection_summary (fst (get_blobs_for_this_slot (E := Empty_set) (Consts := setup_mode)
    (first_slot setup_mode) (mkRelevant [] [a_blob 1 (0 :: 1 :: pay)])
    (Acc tt (demo_storage true)))) = Some (1%nat, 1, []) /\
  selection_summary (fst (get_blobs_for_this_slot (E := Empty_set) (first_slot normal_mode) malformed_and_batch
    (Acc tt (demo_storage true)))) = Some (0%nat, 1, [SenderInsufficientStake]).
Proof. split; [vm_compute; reflexivity|split; vm_compute; reflexivity]. Qed.
End BlobStorageProperties.
