(* ===== verification/StfSlot.v ===== *)
(** * The blobs of a slot (sov-modules-stf-blueprint)

    How the STF blueprint processes the blobs that were selected for a slot:
    batches of unregistered sequencers (sequencer_mode/unregistered.rs), proofs
    (proof_processing.rs) and the loop over all blobs with the block hooks
    ([apply_batches_in_user_space] of lib.rs).  Batches of registered sequencers
    are in [StfBlueprint].

    [SlotRuntime] adds to the [Runtime] what these parts use of the rollup: the
    gas constants, the decoder of proofs, the authentication of emergency
    registrations, the proof processors and the block hooks.  [None] is a panic. *)

From Stdlib Require Import NArith Lia.
From stdpp Require Import base numbers gmap strings option list.
From S2P Require Import Prelude Ints Gas StateAccess Bank Uniqueness Accounts SequencerRegistry.
From S2P Require Import Capabilities ChainState StfBlueprint Blobs.

(** [UnregisteredAuthenticationError], runtime/capabilities/authentication.rs *)
Inductive UnregisteredAuthenticationError : Type :=
| UnregisteredFatalError (tx_hash : TxHash)
| UnregisteredOutOfGas
| InvalidAuthenticationDiscriminant.

(** [InvalidProofError], rollup-interface/src/state_machine/stf/mod.rs *)
Inductive InvalidProofError : Type :=
| PreconditionNotMet
| ProverSlashed
| ProverPenalized
| RewardFailure
| StateAccess.

Definition is_not_revertable (e : InvalidProofError) : bool :=
  match e with ProverSlashed | ProverPenalized => true | _ => false end.

(** [ProofType], proof_metadata.rs; the proofs are serialized. *)
Inductive ProofType : Type :=
| ZkAggregatedProof (proof : list N)
| OptimisticProofAttestation (proof : list N)
| OptimisticProofChallenge (proof : list N) (rollup_height : N).

Class SlotRuntime {Sp : Spec} {Rt : StateRoot} (RT : Runtime Sp) : Type := {
  AggregatedProofPublicData : Type;
  SovAttestation : Type;
  SovStateTransitionPublicData : Type;
  max_unregistered_tx_gas : list N;
  proof_bias_borsh_deserialization : list N;
  proof_gas_to_charge_per_byte_borsh_deserialization : list N;
  bias_borsh_deserialization : list N;
  decode_proof_with_details : list N -> option (ProofType * TxDetails);
  authenticate_unregistered : FullyBakedTx -> list N ->
    M (acc BasicGasMeter.t (Capabilities.t Other)) UnregisteredAuthenticationError
      (AuthenticatedTransactionAndRawHash * AuthorizationData Sp * Decodable);
  process_aggregated_proof : list N -> Address ->
    M (acc BasicGasMeter.t (Capabilities.t Other)) InvalidProofError
      (AggregatedProofPublicData * list N);
  process_attestation : list N -> Address ->
    M (acc BasicGasMeter.t (Capabilities.t Other)) InvalidProofError SovAttestation;
  process_challenge : list N -> N -> Address ->
    M (acc BasicGasMeter.t (Capabilities.t Other)) InvalidProofError SovStateTransitionPublicData;
  begin_rollup_block_hook : Root -> Capabilities.t Other -> option (Capabilities.t Other);
  end_rollup_block_hook : Capabilities.t Other -> option (Capabilities.t Other)
}.

Module StfSlot.
Import Stf.
Section Slot.
Context {Sp : Spec} {Rt : StateRoot} {Cfg : UniquenessConfig} {GS : GasSpec} {RT : Runtime Sp}
  {SR : SlotRuntime RT} {Bsh : BorshIntegers}.

Abbreviation state := (Capabilities.t Other).
Abbreviation metered := (acc BasicGasMeter.t state).

Definition gas_used_of (m : BasicGasMeter.t) : option (list N) :=
  let? info := BasicGasMeter.gas_info m in Some (BasicGasMeter.gas_used info).

(** ** sequencer_mode/unregistered.rs *)

(** The checks before the execution.  Each failure reverts to the state after the
    authentication. *)
Definition unregistered_pre_exec_checks (tx : TxDetails) (auth_data : AuthorizationData Sp)
    (da : DaAddress) (execution_context : ExecutionContext)
  : M metered TxProcessingError (Context Sp) :=
  let! ctx :=
    map_err CannotResolveContext
      (Capabilities.resolve_unregistered_context auth_data da execution_context) in
  map_err CheckUniquenessFailed (Capabilities.check_uniqueness auth_data execution_context) ;;;
  map_err MarkTxAttemptedFailed (Capabilities.mark_tx_attempted auth_data) ;;;
  let! gas_price := (fun a => (Ok (BasicGasMeter.gas_price (meter a)), a)) in
  map_err CannotReserveGas (Capabilities.try_reserve_gas tx gas_price ctx) ;;;
  ret ctx.

(** [s] is the state after the authentication, which the first line commits. *)
Definition process_unauthorized_tx (pre_exec_meter : BasicGasMeter.t) (s : state)
    (slot_gas : list N)
    (validated_output :
       AuthenticatedTransactionAndRawHash * AuthorizationData Sp * Decodable)
    (raw_tx : FullyBakedTx) (da : DaAddress) (execution_context : ExecutionContext)
  : option ((ApplyTxResult + TxProcessingError) * state * BasicGasMeter.t) :=
  let '(auth_tx, auth_data, message) := validated_output in
  let tx := authenticated_tx auth_tx in
  match unregistered_pre_exec_checks tx auth_data da execution_context
          (Acc pre_exec_meter s) with
  | (Panic, _) => None
  | (Err error, a) => Some (inr error, s, meter a)
  | (Ok ctx, a) =>
      let scratchpad := mkScratchpad s (store a) in
      let pre_exec_gas_meter := meter a in
      let? info := BasicGasMeter.gas_info pre_exec_gas_meter in
      let gas_limit := GasArray.calculate_min slot_gas max_unregistered_tx_gas in
      let working_set_gas_meter :=
        tx_gas_meter tx (BasicGasMeter.info_gas_price info) gas_limit in
      match BasicGasMeter.charge_gas (BasicGasMeter.gas_used info) working_set_gas_meter with
      | (Panic, _) => None
      | (Err error, m) =>
          let? c := transaction_consumption m (max_fee tx) (max_priority_fee_bips tx) in
          let? (_, s) :=
            run_infallible (Capabilities.refund_remaining_gas (gas_refund_recipient ctx)
              (tc_remaining_funds c)) (sp_state scratchpad) in
          Some (inr (TxOutOfGas error), s, pre_exec_gas_meter)
      | (Ok _, m) =>
          let? (result, scratchpad) :=
            apply_tx ctx tx (raw_tx_hash auth_tx) raw_tx message
              (Acc m (sp_state scratchpad)) scratchpad in
          let c := apply_consumption result in
          let? (_, s) :=
            run_infallible (Capabilities.refund_remaining_gas (gas_refund_recipient ctx)
              (tc_remaining_funds c)) (sp_state scratchpad) in
          let? mode := operating_mode s in
          let? base_fee := base_fee_value c in
          let? (_, s) := run_infallible (Capabilities.reward_prover base_fee mode) s in
          let? (_, s) :=
            run_infallible (Capabilities.reward_sequencer_or_refund da
              (gas_refund_recipient ctx) (tc_priority_fee c)) s in
          Some (inl result, s, pre_exec_gas_meter)
      end
  end.

(** A [BatchReceipt] with the given rewards and without penalties. *)
Definition unregistered_receipt (da : DaAddress) (gas_price : list N)
    (receipts : list TransactionReceipt) (ignored : list IgnoredTxContents)
    (gas_used : list N) (reward : N) : IncrementalBatchReceipt :=
  mkBatchReceipt receipts ignored da gas_price gas_used (mkRewards reward Amount.ZERO).

Definition is_successful (r : TransactionReceipt) : bool :=
  match receipt r with Successful _ => true | _ => false end.

(** [apply_batch] of unregistered.rs; the batch is one transaction. *)
Definition apply_unregistered_batch (checkpoint : state) (slot_gas : list N) (tx : FullyBakedTx)
    (id : list N) (da : DaAddress) (gas_price : list N) (execution_context : ExecutionContext)
  : option (IncrementalBatchReceipt * state) :=
  if GasArray.dim_is_less_or_eq slot_gas max_unregistered_tx_gas then
    let gas_used := gas_zero max_unregistered_tx_gas in
    Some (unregistered_receipt da gas_price [] [mkIgnored gas_used 0] gas_used Amount.ZERO,
          checkpoint)
  else
    match authenticate_unregistered tx id
            (Acc (BasicGasMeter.new_with_gas max_unregistered_tx_gas (gas_zero gas_price))
               checkpoint) with
    | (Panic, _) => None
    | (Err e, a) =>
        let? gas_used := gas_used_of (meter a) in
        match e with
        | UnregisteredFatalError tx_hash =>
            Some (unregistered_receipt da gas_price
                    [create_tx_receipt gas_used AuthenticationFailed tx_hash tx] [] gas_used
                    Amount.ZERO, store a)
        | _ => Some (unregistered_receipt da gas_price [] [mkIgnored gas_used 0] gas_used
                       Amount.ZERO, store a)
        end
    | (Ok validated_output, a) =>
        let? (tx_result, checkpoint, pre_exec_gas_meter) :=
          process_unauthorized_tx (meter a) (store a) slot_gas validated_output tx da
            execution_context in
        match tx_result with
        | inr error =>
            let? gas_used := gas_used_of pre_exec_gas_meter in
            Some (unregistered_receipt da gas_price
                    [create_tx_receipt gas_used error
                       (raw_tx_hash (fst (fst validated_output))) tx] [] gas_used Amount.ZERO,
                  checkpoint)
        | inl result =>
            let? accumulated_reward :=
              if is_successful (apply_receipt result)
              then Amount.checked_add Amount.ZERO (tc_priority_fee (apply_consumption result))
              else Some Amount.ZERO in
            Some (unregistered_receipt da gas_price [apply_receipt result] []
                    (get_gas_used (apply_receipt result)) accumulated_reward, checkpoint)
        end
    end.

(** ** proof_processing.rs *)

(** [ProofReceiptContents] and [ProofOutcome], rollup-interface *)
Inductive ProofReceiptContents : Type :=
| AggregateProof (public_data : AggregatedProofPublicData) (proof : list N)
| Attestation (a : SovAttestation)
| BlockProof (d : SovStateTransitionPublicData).

Inductive ProofOutcome : Type :=
| Ignored
| Valid (contents : ProofReceiptContents)
| Invalid (e : InvalidProofError).

Record ProofReceipt : Type := mkProofReceipt {
  blob_hash : list N;
  outcome : ProofOutcome;
  proof_gas_used : list N;
  proof_gas_price : list N
}.

Record ProcessProofOutput : Type := mkProofOutput {
  proof_receipt : ProofReceipt;
  output_gas_used : list N
}.

Definition invalid_proof_receipt (blob_hash : list N) (reason : InvalidProofError)
  : ProofReceipt :=
  mkProofReceipt blob_hash (Invalid reason) (gas_zero max_tx_check_costs) [].

Definition precondition_not_met (blob_hash gas_used : list N) : ProcessProofOutput :=
  mkProofOutput (invalid_proof_receipt blob_hash PreconditionNotMet) gas_used.

(** [ProofProcessingWorkflow::authorize_sequencer]: the pre-execution meter, or an
    early return. *)
Definition authorize_sequencer (blob_hash slot_gas : list N) (sequencer_bond : N)
    (gas_price : list N) : option (BasicGasMeter.t + ProcessProofOutput) :=
  let early := Some (inr (precondition_not_met blob_hash (gas_zero max_tx_check_costs))) in
  match GasArray.checked_value max_tx_check_costs gas_price with
  | None => early
  | Some max_tx_check_value =>
      if sequencer_bond <? max_tx_check_value then early
      else if GasArray.dim_is_less_or_eq slot_gas max_tx_check_costs then early
      else
        match BasicGasMeter.charge_gas process_tx_pre_exec_checks_gas
                (BasicGasMeter.new_with_gas max_tx_check_costs gas_price) with
        | (Ok _, m) => Some (inl m)
        | _ => None
        end
  end.

(** [ProofProcessingWorkflow::try_reserve_gas]: the state with the reserved fee and
    the meter of the working set, or an early return.  [s] is committed first. *)
Definition try_reserve_gas (blob_hash slot_gas : list N) (rollup_address : Address)
    (gas_price : list N) (tx : TxDetails) (pre_exec_meter : BasicGasMeter.t) (s : state)
  : option (state * BasicGasMeter.t + ProcessProofOutput * state) :=
  match Capabilities.try_reserve_gas_for_proof tx gas_price rollup_address
          (Acc pre_exec_meter s) with
  | (Panic, _) => None
  | (Err _, a) =>
      let? gas_used := gas_used_of (meter a) in
      Some (inr (precondition_not_met blob_hash gas_used, s))
  | (Ok _, a) =>
      let? gas_used := gas_used_of (meter a) in
      match BasicGasMeter.charge_gas gas_used (tx_gas_meter tx gas_price slot_gas) with
      | (Panic, _) => None
      | (Err _, m) =>
          let? _ := transaction_consumption m (max_fee tx) (max_priority_fee_bips tx) in
          Some (inr (precondition_not_met blob_hash gas_used, store a))
      | (Ok _, m) => Some (inl (store a, m))
      end
  end.

(** [charge_sequencer_and_reward_prover] *)
Definition charge_sequencer_and_reward_prover (max_auth_cost reserved_gas_tokens : N)
    (da : DaAddress) (s : state) : option state :=
  let? (_, s) :=
    run_infallible (Capabilities.return_escrowed_funds_to_sequencer reserved_gas_tokens
      (mkRewards Amount.ZERO max_auth_cost) da) s in
  Some s.

(** [SerializeProofWithDetails::deserialize]; the errors of the meter and of borsh
    are not distinguished by the caller. *)
Definition deserialize_proof (raw_proof : list N) : M metered unit (ProofType * TxDetails) :=
  let! buf_len := (if len raw_proof <=? u32_max then ret (len raw_proof) else panic) in
  map_err (fun _ => tt)
    (on_meter (charge_gas (G := BasicGasMeter.t) proof_bias_borsh_deserialization)) ;;;
  map_err (fun _ => tt)
    (on_meter (charge_linear_gas (G := BasicGasMeter.t)
       proof_gas_to_charge_per_byte_borsh_deserialization buf_len)) ;;;
  map_err (fun _ => tt)
    (on_meter (charge_gas (G := BasicGasMeter.t) bias_borsh_deserialization)) ;;;
  map_err (fun _ => tt)
    (on_meter (charge_linear_gas (G := BasicGasMeter.t)
       (gas_to_charge_per_byte_borsh_deserialization gas_constants) buf_len)) ;;;
  ok_or (decode_proof_with_details raw_proof) tt.

(** The three kinds of proofs. *)
Definition process_proof_type (proof : ProofType) (rollup_address : Address)
  : M metered InvalidProofError ProofReceiptContents :=
  match proof with
  | ZkAggregatedProof proof =>
      let! '(pub_data, proof) := process_aggregated_proof proof rollup_address in
      ret (AggregateProof pub_data proof)
  | OptimisticProofAttestation proof =>
      let! a := process_attestation proof rollup_address in
      ret (Attestation a)
  | OptimisticProofChallenge proof rollup_height =>
      let! d := process_challenge proof rollup_height rollup_address in
      ret (BlockProof d)
  end.

(** The part of [process_proof] after gas was reserved. *)
Definition verify_proof (blob_hash : list N) (da : DaAddress) (rollup_address : Address)
    (sequencer_bond : N) (gas_price : list N) (proof : ProofType) (tx : TxDetails)
    (ws_meter : BasicGasMeter.t) (s : state) : option (ProcessProofOutput * state) :=
  let '(result, ws) := process_proof_type proof rollup_address (Acc ws_meter s) in
  let? (outcome, s) :=
    match result with
    | Ok contents => Some (Valid contents, store ws)
    | Err e => if is_not_revertable e then Some (Invalid e, store ws) else Some (Invalid e, s)
    | Panic => None
    end in
  let? c := transaction_consumption (meter ws) (max_fee tx) (max_priority_fee_bips tx) in
  let? (_, s) :=
    run_infallible (Capabilities.refund_remaining_gas rollup_address (tc_remaining_funds c)) s in
  let? mode := operating_mode s in
  let? base_fee := base_fee_value c in
  let? (_, s) := run_infallible (Capabilities.reward_prover base_fee mode) s in
  let? (_, s) :=
    run_infallible (Capabilities.return_escrowed_funds_to_sequencer sequencer_bond
      (mkRewards (tc_priority_fee c) Amount.ZERO) da) s in
  Some (mkProofOutput (mkProofReceipt blob_hash outcome (tc_base_fee c) gas_price)
          (tc_base_fee c), s).

Definition process_proof (slot_gas blob_hash : list N) (da : DaAddress) (rollup_address : Address)
    (sequencer_bond : N) (gas_price raw_proof : list N) (s : state)
  : option (ProcessProofOutput * state) :=
  let? authorized := authorize_sequencer blob_hash slot_gas sequencer_bond gas_price in
  match authorized with
  | inr out => Some (out, s)
  | inl pre_exec_meter =>
      match deserialize_proof raw_proof (Acc pre_exec_meter s) with
      | (Panic, _) => None
      | (Ok (proof, details), a) =>
          let? reserved :=
            try_reserve_gas blob_hash slot_gas rollup_address gas_price details (meter a)
              (store a) in
          match reserved with
          | inr (out, s) =>
              let? gas_value := GasArray.checked_value (output_gas_used out) gas_price in
              let? s := charge_sequencer_and_reward_prover gas_value sequencer_bond da s in
              Some (out, s)
          | inl (s, ws_meter) =>
              verify_proof blob_hash da rollup_address sequencer_bond gas_price proof details
                ws_meter s
          end
      | (Err _, a) =>
          let? max_tx_check_value := GasArray.checked_value max_tx_check_costs gas_price in
          let? info := BasicGasMeter.gas_info (meter a) in
          let? s := charge_sequencer_and_reward_prover (BasicGasMeter.gas_value info)
                      max_tx_check_value da (store a) in
          Some (precondition_not_met blob_hash (BasicGasMeter.gas_used info), s)
      end
  end.

(** ** lib.rs: the blobs of a slot *)

(** The variables of the loop of [apply_batches_in_user_space]. *)
Record SlotState : Type := mkSlotState {
  ss_state : state;
  ss_meter : SlotGasMeter.t DaAddress;
  ss_proof_receipts : list ProofReceipt;
  ss_batch_receipts : list IncrementalBatchReceipt
}.

(** The charge of the slot meter; [None] is the panic of the [expect]. *)
Definition charge_slot (gas_used : list N) (da : DaAddress) (m : SlotGasMeter.t DaAddress)
  : option (SlotGasMeter.t DaAddress) :=
  match SlotGasMeter.charge_gas gas_used da m with (Ok _, m) => Some m | _ => None end.

Definition apply_blob (cf : InjectedControlFlow RT) (gas_price : list N)
    (execution_context : ExecutionContext) (b : Blob.SelectedBlob) (x : SlotState)
  : option SlotState :=
  let sender := Blob.selected_sender b in
  match Blob.blob_data b with
  | Blob.Batch batch =>
      let? sequencer_bond := Blob.reserved_gas_tokens b in
      let? (r, s, m) :=
        apply_batch cf (ss_state x) (ss_meter x)
          (mkBatch (Blob.batch batch) (Blob.batch_sequencer batch)) sender sequencer_bond
          gas_price execution_context in
      Some (mkSlotState s m (ss_proof_receipts x) (ss_batch_receipts x ++ [r]))
  | Blob.EmergencyRegistration tx id =>
      let slot_gas := SlotGasMeter.remaining_slot_gas (ss_meter x) sender in
      match Blob.reserved_gas_tokens b with
      | Some _ => None
      | None =>
          let? (r, s) :=
            apply_unregistered_batch (ss_state x) slot_gas tx id sender gas_price
              execution_context in
          let? m := charge_slot (inner_gas_used r) sender (ss_meter x) in
          Some (mkSlotState s m (ss_proof_receipts x) (ss_batch_receipts x ++ [r]))
      end
  | Blob.Proof_ proof id sequencer_address =>
      let slot_gas := SlotGasMeter.remaining_slot_gas (ss_meter x) sender in
      let? sequencer_bond := Blob.reserved_gas_tokens b in
      let? (out, s) :=
        process_proof slot_gas id sender sequencer_address sequencer_bond gas_price proof
          (ss_state x) in
      let? m := charge_slot (output_gas_used out) sender (ss_meter x) in
      Some (mkSlotState s m (ss_proof_receipts x ++ [proof_receipt out]) (ss_batch_receipts x))
  end.

Fixpoint apply_blobs (cf : InjectedControlFlow RT) (gas_price : list N)
    (execution_context : ExecutionContext) (blobs : list Blob.SelectedBlob) (x : SlotState)
  : option SlotState :=
  match blobs with
  | [] => Some x
  | b :: blobs' =>
      let? x := apply_blob cf gas_price execution_context b x in
      apply_blobs cf gas_price execution_context blobs' x
  end.

(** [apply_batches_in_user_space]: the gas price and the gas limit are those that
    the chain state gives, which also records the gas that is returned. *)
Definition apply_batches_in_user_space (cf : InjectedControlFlow RT) (creates_rollup_block : bool)
    (blobs : list Blob.SelectedBlob) (gas_price block_gas_limit : list N) (visible_hash : Root)
    (execution_context : ExecutionContext) (s : state)
  : option (list N * list ProofReceipt * list IncrementalBatchReceipt * state) :=
  let? (preferred_sequencer, s) := run_infallible Capabilities.preferred_sequencer s in
  let? m := SlotGasMeter.new block_gas_limit preferred_sequencer in
  let? s := if creates_rollup_block then begin_rollup_block_hook visible_hash s else Some s in
  let? x := apply_blobs cf gas_price execution_context blobs (mkSlotState s m [] []) in
  let? s := if creates_rollup_block then end_rollup_block_hook (ss_state x)
            else Some (ss_state x) in
  let? total_gas_used := SlotGasMeter.total_gas_used (ss_meter x) in
  Some (total_gas_used, ss_proof_receipts x, ss_batch_receipts x, s).
End Slot.
End StfSlot.

(** ** What the processing of blobs relies on *)

(** A proof processor: the writes of a proof that is valid, or for which the prover
    is slashed or penalized, are kept; others are reverted.  It may panic. *)
Definition proof_safely {Sp : Spec} {Cfg : UniquenessConfig} {RT : Runtime Sp} {A : Type}
    (staying : Capabilities.t Other -> DaAddress -> Prop) (s : Capabilities.t Other)
    (o : outcome InvalidProofError A) (s' : Capabilities.t Other) : Prop :=
  match o with
  | Ok _ => harmless staying s s'
  | Err e => is_not_revertable e = true -> harmless staying s s'
  | Panic => True
  end.

(** The contract of the rest of a runtime: the authentication of an emergency
    registration reads the state, and what the proof processors and the block hooks
    write respects the accounting of the slot as calls do.  Nothing is said about
    panics. *)
Class SlotRuntimeLaws {Sp : Spec} {Rt : StateRoot} {Cfg : UniquenessConfig} {RT : Runtime Sp}
    (Laws : RuntimeLaws RT) (SR : SlotRuntime RT) : Prop := {
  authenticate_unregistered_law : forall (L : GasMeterLaws BasicGasMeter.t) tx id s,
    wp (H0 := L) (authenticate_unregistered tx id) (fun o s' => s' = s /\
      match o with
      | Ok (_, auth_data, message) =>
          message_wf message /\ forall n, auth_uniqueness auth_data = Nonce n -> n <= u64_max
      | _ => True
      end) s;
  aggregated_proof_law : forall (L : GasMeterLaws BasicGasMeter.t) p a s, Capabilities.inv s ->
    wp (H0 := L) (process_aggregated_proof p a) (proof_safely staying s) s;
  attestation_law : forall (L : GasMeterLaws BasicGasMeter.t) p a s, Capabilities.inv s ->
    wp (H0 := L) (process_attestation p a) (proof_safely staying s) s;
  challenge_law : forall (L : GasMeterLaws BasicGasMeter.t) p h a s, Capabilities.inv s ->
    wp (H0 := L) (process_challenge p h a) (proof_safely staying s) s;
  begin_hook_law : forall root s s', Capabilities.inv s ->
    begin_rollup_block_hook root s = Some s' -> harmless staying s s';
  end_hook_law : forall s s', Capabilities.inv s ->
    end_rollup_block_hook s = Some s' -> harmless staying s s'
}.

(** The code of the runtime panics on an emergency registration: in the
    authentication or on the message that it yields; or the nonce is the largest one. *)
Definition registration_fault {Sp : Spec} {Rt : StateRoot} {Cfg : UniquenessConfig}
    {RT : Runtime Sp} {SR : SlotRuntime RT} (tx : FullyBakedTx) (id : list N) : Prop :=
  exists ws, match fst (authenticate_unregistered tx id ws) with
    | Panic => True
    | Err _ => False
    | Ok (auth_tx, auth_data, message) =>
        execution_panics (authenticated_tx auth_tx) message \/
        auth_uniqueness auth_data = Nonce u64_max
    end.

(** It panics on a proof, in some state that fulfils the invariants. *)
Definition proof_fault {Sp : Spec} {Rt : StateRoot} {Cfg : UniquenessConfig} {RT : Runtime Sp}
    {SR : SlotRuntime RT} (proof : ProofType) (rollup_address : Address) : Prop :=
  exists ws, Capabilities.inv (store ws) /\
    fst (StfSlot.process_proof_type proof rollup_address ws) = Panic.
