(* ===== verification/StfSlotProofs.v ===== *)
(** * Proofs about the blobs of a slot

    The accounting of [StfSlot]: a blob of an unregistered sequencer, a proof and
    the loop over all blobs keep the frame; a blob takes at most its bond out of the
    reserve of the bank module and charges the slot meter with no more gas than is
    left.  What remains as causes of a panic is named: gas that is left in some
    dimensions only, and the code of the runtime. *)

From Stdlib Require Import NArith Lia.
From stdpp Require Import base numbers gmap strings option list.
From S2P Require Import Prelude Ints Gas StateAccess Bank Uniqueness Accounts SequencerRegistry.
From S2P Require Import Capabilities ChainState StfBlueprint StfProofs Blobs StfSlot.

Module StfSlotFacts.
Import Stf StfSlot StfFacts MeterBounds.
Section Facts.
Context {Sp : Spec} {Rt : StateRoot} {Cfg : UniquenessConfig} {GS : GasSpec} {RT : Runtime Sp}
  {SR : SlotRuntime RT} {Bsh : BorshIntegers} {Laws : RuntimeLaws RT}
  {SLaws : SlotRuntimeLaws Laws SR}.
Implicit Types (s : Capabilities.t Other) (da : DaAddress).

(** *** Emergency registrations *)

Lemma wp_unregistered_checks (L : GasMeterLaws BasicGasMeter.t) tx ad da ec s :
  Uniqueness.config_ok -> ec <> SequencerWarmUp ->
  (forall n, auth_uniqueness ad = Nonce n -> n <= u64_max) -> Capabilities.inv s ->
  wp (H0 := L) (unregistered_pre_exec_checks tx ad da ec) (fun o s' => match o with
    | Ok _ => frame staying s s' /\
        Capabilities.reserve s' = Capabilities.reserve s + max_fee tx
    | Err _ => True
    | Panic => auth_uniqueness ad = Nonce u64_max end) s.
Proof.
  intros Hcfg Hec Hn Hinv. unfold unregistered_pre_exec_checks. wp_step. wp_step.
  unfold Capabilities.resolve_unregistered_context, Capabilities.on_accounts.
  apply wp_bind, wp_zoom. apply AccountsFacts.wp_resolve; wp_red; [done|..]; intros; wp_red; wp_step;
    (match goal with |- context [Capabilities.set_accounts ?a s] =>
       destruct (frame_set_accounts s a Hinv) as [Hf Hr] end);
    (eapply wp_mono; [by apply wp_reserve_checked; [..|apply Hf]|]); intros [c'|e|] s'; try done;
    intros (Hf' & Hr' & _); (split; [by eapply frame_trans|by rewrite <- Hr]).
Qed.

Lemma run_reward_or_refund da a amount s :
  Capabilities.inv s -> amount <= Capabilities.reserve s ->
  exists s', run_infallible (Capabilities.reward_sequencer_or_refund da a amount) s = Some (tt, s') /\
    frame staying s s' /\ Capabilities.reserve s - amount <= Capabilities.reserve s'.
Proof.
  intros Hinv Ha.
  destruct (run_infallible_ok (Capabilities.reward_sequencer_or_refund da a amount)
    (fun _ s' => frame staying s s' /\ Capabilities.reserve s - amount <= Capabilities.reserve s') s)
    as ([] & s' & Hr & HP); [|eauto].
  apply (CapabilitiesFacts.wp_reward_or_refund unmetered_cannot_fail); [done|done| |].
  - intros s' Hup. split; [by eapply frame_topped_up|apply Hup].
  - split; [by apply frame_paid_out|by apply CapabilitiesFacts.reserve_paid_out].
Qed.

Lemma run_return_escrow da bond reward penalty s :
  Capabilities.inv s -> Capabilities.registered s da -> penalty <= bond ->
  bond - penalty + reward <= Capabilities.reserve s ->
  exists s', run_infallible (Capabilities.return_escrowed_funds_to_sequencer bond
      (mkRewards reward penalty) da) s = Some (tt, s') /\
    frame staying s s' /\
    Capabilities.reserve s <= Capabilities.reserve s' + (bond - penalty + reward).
Proof.
  intros Hinv Hreg Hp Ha.
  destruct (run_infallible_ok (Capabilities.return_escrowed_funds_to_sequencer bond
      (mkRewards reward penalty) da) (fun _ s' => frame staying s s' /\
    Capabilities.reserve s <= Capabilities.reserve s' + (bond - penalty + reward)) s)
    as ([] & s' & Hr & HP); [|eauto].
  apply (CapabilitiesFacts.wp_return_escrow unmetered_cannot_fail); [done|by intros []|].
  cbn. intros s' Hup. pose proof (CapabilitiesFacts.tu_reserve _ _ _ Hup).
  split; [by eapply frame_topped_up|lia].
Qed.

(** The reported gas is within [slot_gas], for a guard that checked [cost] against it
    in all dimensions only. *)
Definition gas_within (slot_gas gas : list N) : Prop :=
  GasArray.dim_is_less_or_eq gas slot_gas = true.

Definition gas_fits (cost slot_gas gas : list N) : Prop :=
  gas_within slot_gas gas \/ partly_exhausted cost slot_gas.

Lemma gas_fits_trans cost slot_gas gas :
  (length gas <= length cost)%nat -> gas_within cost gas ->
  GasArray.dim_is_less_or_eq slot_gas cost = false -> gas_fits cost slot_gas gas.
Proof.
  intros Hl Hg Hlim. destruct (GasArray.dim_is_less_or_eq cost slot_gas) eqn:Hc; [left|by right].
  by eapply dim_le_trans.
Qed.

Lemma min_le_l (l r : list N) : GasArray.dim_is_less_or_eq (GasArray.calculate_min l r) l = true.
Proof.
  revert r. induction l as [|x l IH]; intros [|y r]; cbn; [done..|].
  destruct (N.ltb_spec x (N.min x y)); [lia|]. apply IH.
Qed.

Lemma process_unauthorized_ok m0 m s slot_gas auth_tx ad msg raw_tx da ec mode :
  Uniqueness.config_ok -> ec <> SequencerWarmUp ->
  (forall n, auth_uniqueness ad = Nonce n -> n <= u64_max) -> message_wf msg ->
  within m0 m -> Capabilities.inv s -> operating_mode s = Some mode ->
  Capabilities.payable mode s ->
  unless (processing_fault (authenticated_tx auth_tx) ad msg)
    (fun '(r, s', m') => within m0 m' /\ frame staying s s' /\
       Capabilities.reserve s <= Capabilities.reserve s' /\
       match r with
       | inl res => gas_within slot_gas (get_gas_used (apply_receipt res)) /\
           tc_priority_fee (apply_consumption res) <= u128_max
       | inr _ => True
       end)
    (process_unauthorized_tx m s slot_gas (auth_tx, ad, msg) raw_tx da ec).
Proof.
  intros Hcfg Hec Hn Hmsg Hm Hinv Hmode Hp. set (tx := authenticated_tx auth_tx).
  unfold process_unauthorized_tx. fold tx.
  pose proof (wp_unregistered_checks (within_laws m0) tx ad da ec s Hcfg Hec Hn Hinv m Hm) as Hpre.
  destruct (unregistered_pre_exec_checks tx ad da ec (Acc m s)) as [[c|e|] [m1 s1]];
    destruct Hpre as [Hm1 Hpre]; cbn in Hm1, Hpre; [| |by right].
  2: { split_and!; [done|by apply frame_refl|done|done]. }
  destruct Hpre as (Hf1 & Hr1). cbn [meter store].
  destruct (within_info m0 m1 Hm1) as (v & u & -> & _). cbn -[unless tx_gas_meter].
  set (limit := GasArray.calculate_min slot_gas max_unregistered_tx_gas).
  destruct (tx_gas_meter_limit tx (BasicGasMeter.gas_price m0) limit) as (Hw & Hfunds & Hle & Hlen).
  set (w0 := tx_gas_meter tx _ limit) in *.
  destruct (within_charge w0 w0 u Hw) as (o & w & Hc & Hw' & Ho). unfold BasicGasMeter.charge_gas.
  rewrite Hc. destruct o as [[]|e|]; [| |done].
  - eapply unless_bind.
    { eapply unless_mono; [apply (apply_tx_ok w0 w c tx (raw_tx_hash auth_tx) raw_tx msg
        (mkScratchpad s s1) Hw' Hfunds Hmsg (frame_inv _ _ _ Hf1))|by left|intros x Hx; exact Hx]. }
    intros [res sp2] (s2 & -> & [Hf2 Hr2] & Hs & Hg & Hex). cbn -[unless] in Hf2, Hr2 |- *.
    assert (frame staying s s2) as Hf02 by by eapply frame_trans.
    destruct (settle_fee mode tx w0 (apply_consumption res) (gas_refund_recipient c) s2)
      as (bv & s3 & s4 & H3 & Hbv & H4 & Hm3 & Hf4 & Hr4);
      [apply Hf2|by eapply frame_payable|done|lia|].
    rewrite H3, Hbv.
    rewrite Hm3, (frame_mode _ _ _ Hf02), Hmode.
    rewrite H4. assert (frame staying s s4) as Hf04 by by eapply frame_trans.
    pose proof (CapabilitiesFacts.gas_balance_bound s4 (HolderModule (Capabilities.bank_id s4))
      (frame_inv _ _ _ Hf04)) as Hmax. fold (Capabilities.reserve s4) in Hmax.
    destruct (run_reward_or_refund da (gas_refund_recipient c)
      (tc_priority_fee (apply_consumption res)) s4) as (s5 & H5 & Hf5 & Hr5); [apply Hf04|lia|].
    rewrite H5. split_and!; [done|by eapply frame_trans|lia| |lia].
    unfold gas_within. rewrite Hg. destruct Hs as (_ & _ & _ & Hd & Hl).
    assert (length limit <= length slot_gas)%nat.
    { unfold limit, GasArray.calculate_min. rewrite length_zip_with. lia. }
    eapply dim_le_trans; [|exact Hd|]; [lia|].
    eapply dim_le_trans; [|exact Hle|apply min_le_l]. done.
  - subst w. destruct (consumption_ok w0 w0 tx Hw Hfunds) as (cons & -> & bv & _ & Hsum & _).
    destruct (run_refund (gas_refund_recipient c) (tc_remaining_funds cons) s1)
      as (s2 & -> & Hf2 & Hr2); [apply Hf1|lia|].
    split_and!; [done|by eapply frame_trans|lia|done].
Qed.

(** The gas of a meter within a fresh one of [cost] units. *)
Lemma used_within cost price slot_gas m :
  within (BasicGasMeter.new_with_gas cost price) m ->
  GasArray.dim_is_less_or_eq slot_gas cost = false ->
  exists v u, BasicGasMeter.gas_info m = Some (BasicGasMeter.mkInfo v u price) /\
    gas_fits cost slot_gas u /\ GasArray.checked_value u price = Some v /\
    v <= GasArray.dot cost price.
Proof.
  intros Hm Hc. destruct (within_info _ m Hm) as (v & u & Hi & _ & Hv & Hmax & Hd & Hl & Hle & _).
  cbn in Hi, Hd, Hl, Hle, Hv. exists v, u. split_and!; [done| | |done].
  - by apply gas_fits_trans.
  - rewrite ga_checked_value, <- Hv. apply N.leb_le in Hmax. by rewrite Hmax.
Qed.

Lemma apply_unregistered_ok s slot_gas tx id da price ec mode :
  Uniqueness.config_ok -> ec <> SequencerWarmUp ->
  Capabilities.inv s -> operating_mode s = Some mode -> Capabilities.payable mode s ->
  unless (registration_fault tx id)
    (fun '(r, s') => frame staying s s' /\ Capabilities.reserve s <= Capabilities.reserve s' /\
       gas_fits max_unregistered_tx_gas slot_gas (inner_gas_used r))
    (apply_unregistered_batch s slot_gas tx id da price ec).
Proof.
  intros Hcfg Hec Hinv Hmode Hp. unfold apply_unregistered_batch.
  pose proof (frame_refl s Hinv) as Hrefl.
  destruct (GasArray.dim_is_less_or_eq slot_gas max_unregistered_tx_gas) eqn:Hlim.
  { split_and!; [done|done|left; apply zero_dim_le]. }
  set (m0 := BasicGasMeter.new_with_gas max_unregistered_tx_gas (gas_zero price)).
  pose proof (authenticate_unregistered_law (within_laws m0) tx id s m0) as Hauth.
  destruct (authenticate_unregistered tx id (Acc m0 s)) as [[[[atx ad] msg]|e|] [m1 s1]] eqn:Eauth;
    (destruct Hauth as (Hw & Hs1 & Hauth); [apply within_refl|]); cbn in Hw, Hs1; subst s1.
  - destruct Hauth as [Hmsg Hn]. cbn [meter store fst]. eapply unless_bind.
    { eapply unless_mono; [by apply (process_unauthorized_ok m0 m1 s slot_gas atx ad msg tx da ec
        mode)| |intros x Hx; exact Hx]. intros Hx. exists (Acc m0 s). by rewrite Eauth. }
    intros [[r s'] m2] (Hw2 & Hf & Hr & Hres). destruct r as [res|e].
    + destruct Hres as [Hgas Hprio].
      destruct (is_successful (apply_receipt res)); [|by split_and!; [| |left]].
      unfold Amount.checked_add, Amount.ZERO.
      destruct (checked_add u128_max 0 (tc_priority_fee (apply_consumption res))) eqn:Hadd;
        checked_simpl; [|lia]. by split_and!; [| |left].
    + destruct (used_within _ _ slot_gas m2 Hw2 Hlim) as (v & u & Hi & Hu & _).
      unfold gas_used_of. rewrite Hi. by split_and!.
  - destruct (used_within _ _ slot_gas m1 Hw Hlim) as (v & u & Hi & Hu & _).
    unfold gas_used_of. cbn [meter store]. rewrite Hi. destruct e; by split_and!.
  - exists (Acc m0 s). by rewrite Eauth.
Qed.

(** *** Proofs *)

Lemma wp_deserialize_proof (L : GasMeterLaws BasicGasMeter.t) raw_proof s :
  len raw_proof <= u32_max ->
  wp (H0 := L) (deserialize_proof raw_proof) (fun o s' => s' = s /\ o <> Panic) s.
Proof.
  intros Hl. unfold deserialize_proof. rewrite (proj2 (N.leb_le _ _)) by done.
  wp_step. wp_step. wp_step. wp_step. wp_step; [done|].
  wp_step. wp_step. wp_step; [done|]. wp_step. wp_step. wp_step; [done|].
  wp_step. wp_step. wp_step; [done|]. by wp_step.
Qed.

Lemma wp_process_proof_type (L : GasMeterLaws BasicGasMeter.t) p a s :
  Capabilities.inv s -> wp (H0 := L) (process_proof_type p a) (proof_safely staying s) s.
Proof.
  intros Hinv. destruct p as [p|p|p h]; cbn; apply wp_bind;
    (eapply wp_mono; [by apply aggregated_proof_law || apply attestation_law || apply challenge_law|]);
    intros [x|e|] s' Hs'; wp_red; try done; try destruct x; by wp_step.
Qed.

(** What a proof does to the slot: it takes at most [bond] out of the reserve. *)
Definition blob_settled (slot_gas : list N) (bond : N) (s s' : Capabilities.t Other)
    (gas : list N) : Prop :=
  frame staying s s' /\ Capabilities.reserve s <= Capabilities.reserve s' + bond /\
  gas_fits max_tx_check_costs slot_gas gas.

Lemma authorize_ok hash slot_gas bond price :
  GasArray.dim_is_less_or_eq process_tx_pre_exec_checks_gas max_tx_check_costs = true ->
  exists r, authorize_sequencer hash slot_gas bond price = Some r /\
    match r with
    | inl m => within (BasicGasMeter.new_with_gas max_tx_check_costs price) m /\
        GasArray.dim_is_less_or_eq slot_gas max_tx_check_costs = false /\
        GasArray.dot max_tx_check_costs price <= u128_max /\
        GasArray.dot max_tx_check_costs price <= bond
    | inr out => output_gas_used out = gas_zero max_tx_check_costs
    end.
Proof.
  intros Hgs. unfold authorize_sequencer. rewrite ga_checked_value.
  destruct (N.leb_spec (GasArray.dot max_tx_check_costs price) u128_max) as [Hmax|_];
    [|by eexists; split].
  destruct (N.ltb_spec bond (GasArray.dot max_tx_check_costs price)) as [_|Hbond];
    [by eexists; split|].
  destruct (GasArray.dim_is_less_or_eq slot_gas max_tx_check_costs) eqn:Hlim;
    [by eexists; split|].
  destruct (charge_fresh max_tx_check_costs price process_tx_pre_exec_checks_gas Hgs Hmax)
    as [m Hm]. rewrite Hm. exists (inl m). split; [done|].
  set (m0 := BasicGasMeter.new_with_gas max_tx_check_costs price) in *.
  destruct (within_charge m0 m0 process_tx_pre_exec_checks_gas) as (o & m' & Hc & Hw & _);
    [apply within_refl|].
  unfold BasicGasMeter.charge_gas in Hm. rewrite Hc in Hm. simplify_eq. by split_and!.
Qed.

Lemma wp_reserve_for_proof (L : GasMeterLaws BasicGasMeter.t) tx price a s :
  Capabilities.inv s ->
  wp (H0 := L) (Capabilities.try_reserve_gas_for_proof tx price a) (fun o s' => match o with
    | Ok _ => frame staying s s' /\ Capabilities.reserve s' = Capabilities.reserve s + max_fee tx
    | Err _ => True
    | Panic => False end) s.
Proof.
  intros Hinv. apply CapabilitiesFacts.wp_reserve_gas; [done|done|]. intros Hpay.
  split; [by apply frame_paid_in|by apply CapabilitiesFacts.reserve_paid_in].
Qed.

(** The reserved fee, or an early return that the bond pays for. *)
Lemma try_reserve_ok hash slot_gas a price tx m s :
  within (BasicGasMeter.new_with_gas max_tx_check_costs price) m ->
  GasArray.dim_is_less_or_eq slot_gas max_tx_check_costs = false -> Capabilities.inv s ->
  exists r, try_reserve_gas hash slot_gas a price tx m s = Some r /\
    match r with
    | inl (s', w) => frame staying s s' /\
        Capabilities.reserve s' = Capabilities.reserve s + max_fee tx /\
        within (tx_gas_meter tx price slot_gas) w
    | inr (out, s') => frame staying s s' /\ Capabilities.reserve s <= Capabilities.reserve s' /\
        gas_fits max_tx_check_costs slot_gas (output_gas_used out) /\
        exists v, GasArray.checked_value (output_gas_used out) price = Some v /\
          v <= GasArray.dot max_tx_check_costs price
    end.
Proof.
  intros Hm Hc Hinv. unfold try_reserve_gas. set (m0 := BasicGasMeter.new_with_gas _ price) in *.
  pose proof (wp_reserve_for_proof (within_laws m0) tx price a s Hinv m Hm) as Hres.
  destruct (Capabilities.try_reserve_gas_for_proof tx price a (Acc m s)) as [[[]|e|] [m1 s1]];
    destruct Hres as [Hm1 Hres]; cbn in Hm1, Hres; [| |done]; cbn [meter store];
    destruct (used_within _ _ slot_gas m1 Hm1 Hc) as (v & u & Hi & Hu & Hv & Hle);
    unfold gas_used_of; rewrite Hi; cbn [BasicGasMeter.gas_used].
  2: { eexists. split; [done|]. cbn. split_and!; [by apply frame_refl|done|done|eauto]. }
  destruct Hres as [Hf Hr].
  destruct (tx_gas_meter_limit tx price slot_gas) as (Hw & Hfunds & _).
  destruct (within_charge _ _ u Hw) as (o & w & Hcharge & Hw' & Ho). unfold BasicGasMeter.charge_gas.
  rewrite Hcharge. destruct o as [[]|e|]; [| |done].
  - eexists. split; [done|]. by split_and!.
  - subst w. destruct (consumption_ok _ _ tx Hw Hfunds) as (cons & -> & _).
    eexists. split; [done|]. cbn. split_and!; [done|lia|done|eauto].
Qed.

(** The verification of a proof: the fee covers the refund, the prover's reward and
    the sequencer's. *)
Lemma verify_ok hash da a bond price p tx slot_gas w s mode :
  staying s da -> Capabilities.inv s ->
  operating_mode s = Some mode -> Capabilities.payable mode s ->
  within (tx_gas_meter tx price slot_gas) w -> bond + max_fee tx <= Capabilities.reserve s ->
  unless (proof_fault p a)
    (fun '(out, s') => frame staying s s' /\
       Capabilities.reserve s <= Capabilities.reserve s' + bond + max_fee tx /\
       gas_within slot_gas (output_gas_used out))
    (verify_proof hash da a bond price p tx w s).
Proof.
  intros Hst Hinv Hmode Hp Hw Hres. unfold verify_proof.
  destruct (tx_gas_meter_limit tx price slot_gas) as (_ & Hfunds & Hlim & Hlen).
  set (w0 := tx_gas_meter tx price slot_gas) in *.
  pose proof (wp_process_proof_type (within_laws w0) p a s Hinv w Hw) as Hproc.
  destruct (process_proof_type p a (Acc w s)) as [o [w1 s1]] eqn:Eproc.
  destruct Hproc as [Hw1 Hproc]. cbn in Hw1, Hproc.
  eapply unless_bind with (P := fun x => harmless staying s (snd x)).
  { destruct o as [c|e|]; [done| |].
    - destruct (is_not_revertable e) eqn:He; [by apply Hproc|by apply harmless_refl].
    - exists (Acc w s). by rewrite Eproc. }
  intros [res s2] [Hf2 Hr2]. cbn [store meter snd] in *.
  destruct (consumption_ok w0 w1 tx Hw1 Hfunds) as (c & -> & Hsplit).
  destruct (settle_fee mode tx w0 c a s2) as (bv & s3 & s4 & H3 & Hbv & H4 & Hm3 & Hf4 & Hr4);
    [apply Hf2|by eapply frame_payable|done|lia|].
  rewrite H3, Hbv.
  rewrite Hm3, (frame_mode _ _ _ Hf2), Hmode.
  rewrite H4. assert (frame staying s s4) as Hf04 by by eapply frame_trans.
  destruct (run_return_escrow da bond (tc_priority_fee c) Amount.ZERO s4)
    as (s5 & H5 & Hf5 & Hr5);
    [apply Hf04|by apply staying_registered, Hf04|apply N.le_0_l|unfold Amount.ZERO; lia|].
  rewrite H5. unfold Amount.ZERO in Hr5. split_and!; [by eapply frame_trans|lia|].
  destruct Hsplit as (_ & _ & _ & Hd & Hl). unfold gas_within. cbn. by eapply dim_le_trans; [|exact Hd|].
Qed.

(** The state in which a blob of the sender [da] with the bond [bond] is processed. *)
Record sender_ready (s : Capabilities.t Other) (da : DaAddress) (bond : N) (mode : OperatingMode)
  : Prop := mkSenderReady {
  sr_staying : staying s da;
  sr_inv : Capabilities.inv s;
  sr_mode : operating_mode s = Some mode;
  sr_payable : Capabilities.payable mode s;
  sr_bond : bond <= Capabilities.reserve s
}.

(** What a blob with a proof panics on, in the runtime. *)
Definition raw_proof_fault (raw_proof : list N) (a : Address) : Prop :=
  exists p tx, decode_proof_with_details raw_proof = Some (p, tx) /\ proof_fault p a.

Lemma deserialize_decodes raw_proof x p a :
  deserialize_proof raw_proof a = (Ok p, x) -> decode_proof_with_details raw_proof = Some p.
Proof.
  unfold deserialize_proof, bind. intros H. repeat case_match; simplify_eq.
  unfold ok_or, ret, throw in *. by repeat case_match; simplify_eq.
Qed.

Lemma process_proof_ok slot_gas hash da a bond price raw_proof s mode :
  GasArray.dim_is_less_or_eq process_tx_pre_exec_checks_gas max_tx_check_costs = true ->
  len raw_proof <= u32_max -> sender_ready s da bond mode ->
  unless (raw_proof_fault raw_proof a)
    (fun '(out, s') => blob_settled slot_gas bond s s' (output_gas_used out))
    (process_proof slot_gas hash da a bond price raw_proof s).
Proof.
  intros Hgs Hl [Hst Hinv Hmode Hp Hbond]. unfold process_proof, blob_settled.
  destruct (authorize_ok hash slot_gas bond price Hgs) as (r & -> & Hr).
  destruct r as [m|out]; [|split_and!; [by apply frame_refl|lia|]];
    [|rewrite Hr; left; apply zero_dim_le].
  destruct Hr as (Hw & Hc & Hmax & Hle). set (m0 := BasicGasMeter.new_with_gas _ price) in *.
  pose proof (wp_deserialize_proof (within_laws m0) raw_proof s Hl m Hw) as Hde.
  destruct (deserialize_proof raw_proof (Acc m s)) as [[[p tx]|e|] [m1 s1]] eqn:Ede;
    destruct Hde as (Hw1 & Hs1 & Hde); cbn in Hw1, Hs1; [| |done]; subst s1; cbn [meter store].
  - destruct (try_reserve_ok hash slot_gas a price tx m1 s Hw1 Hc Hinv) as (r & -> & Hr).
    destruct r as [[s1 w]|[out s1]].
    + destruct Hr as (Hf1 & Hr1 & Hw2). eapply unless_mono.
      { apply (verify_ok hash da a bond price p tx slot_gas w s1 mode);
          [by apply Hf1|apply Hf1| |by eapply frame_payable|done|lia].
        by rewrite (frame_mode _ _ _ Hf1). }
      * intros Hx. exists p, tx. split; [by eapply deserialize_decodes|done].
      * intros [out s2] (Hf2 & Hr2 & Hg). split_and!; [by eapply frame_trans|lia|by left].
    + destruct Hr as (Hf1 & Hr1 & Hg & v & -> & Hv). unfold charge_sequencer_and_reward_prover.
      destruct (run_return_escrow da bond Amount.ZERO v s1) as (s2 & -> & Hf2 & Hr2);
        [apply Hf1|by apply staying_registered, Hf1|lia|unfold Amount.ZERO; lia|].
      unfold Amount.ZERO in Hr2. split_and!; [by eapply frame_trans|lia|done].
  - destruct (used_within _ _ slot_gas m1 Hw1 Hc) as (v & u & -> & Hu & Hv & Hv').
    rewrite ga_checked_value. rewrite (proj2 (N.leb_le _ _)) by done. cbn -[unless].
    unfold charge_sequencer_and_reward_prover.
    destruct (run_return_escrow da (GasArray.dot max_tx_check_costs price) Amount.ZERO v s)
      as (s2 & -> & Hf2 & Hr2); [done|by apply staying_registered|done|unfold Amount.ZERO; lia|].
    unfold Amount.ZERO in Hr2. cbn. split_and!; [done|lia|done].
Qed.

(** *** The loop over the blobs *)

(** The bond of a blob, and what the blob selector guarantees of it: all blobs but
    emergency registrations have one, their sender stays registered, and none is the
    preferred sequencer. *)
Definition bond_of (b : Blob.SelectedBlob (Sp := Sp)) : N := default 0 (Blob.reserved_gas_tokens b).

Record blob_ready (s : Capabilities.t Other) (b : Blob.SelectedBlob (Sp := Sp)) : Prop := mkBlobReady {
  br_bond : is_Some (Blob.reserved_gas_tokens b) <->
    Blob.is_emergency_registration (Blob.blob_data b) = false;
  br_staying : Blob.is_emergency_registration (Blob.blob_data b) = false ->
    staying s (Blob.selected_sender b);
  br_standard : SequencerRegistry.preferred_sequencer (Capabilities.sequencer_registry s) <>
    Some (Blob.selected_sender b);
  br_size : forall p i a, Blob.blob_data b = Blob.Proof_ p i a -> len p <= u32_max
}.

Lemma blob_ready_frame s s' b : frame staying s s' -> blob_ready s b -> blob_ready s' b.
Proof.
  intros Hf [Hb Hr Hs Hz]. split; [done| | |done].
  - intros He. by apply Hf, Hr.
  - intros Hp. by apply Hs, (frame_preferred _ _ _ Hf).
Qed.

(** The state of the loop: the bonds of the blobs that are left are in the reserve. *)
Record loop_inv (mode : OperatingMode) (limit : list N) (pref : option DaAddress)
    (blobs : list (Blob.SelectedBlob (Sp := Sp))) (x : SlotState) : Prop := mkLoopInv {
  li_inv : Capabilities.inv (ss_state x);
  li_mode : operating_mode (ss_state x) = Some mode;
  li_payable : Capabilities.payable mode (ss_state x);
  li_bonds : sum_N (map bond_of blobs) <= Capabilities.reserve (ss_state x);
  li_ready : Forall (blob_ready (ss_state x)) blobs;
  li_preferred : SlotGasMeter.preferred_sequencer (ss_meter x) = pref;
  li_senders : Forall (fun b => pref <> Some (Blob.selected_sender b)) blobs;
  li_limit : SlotGasMeter.initial_slot_gas (ss_meter x) = limit;
  li_left : GasArray.dim_is_less_or_eq (SlotGasMeter.remaining_total_slot_gas (ss_meter x)) limit =
    true
}.

(** What the configuration of gas has to fulfil. *)
Record gas_config_ok : Prop := mkGasConfigOk {
  gc_uniqueness : Uniqueness.config_ok;
  gc_checks : GasArray.dim_is_less_or_eq process_tx_pre_exec_checks_gas max_tx_check_costs = true
}.

(** A step of the loop, once the new state and the new meter are known. *)
Lemma blob_loop_step mode limit pref b blobs x s m ps bs :
  loop_inv mode limit pref (b :: blobs) x -> frame staying (ss_state x) s ->
  Capabilities.reserve (ss_state x) <= Capabilities.reserve s + bond_of b ->
  slot_within (Blob.selected_sender b) (ss_meter x) m ->
  loop_inv mode limit pref blobs (mkSlotState s m ps bs).
Proof.
  intros [Hi Hm Hp Hb Hr Hpr Hs Hl Hle] Hf Hres [_ Hpm Hi' Hl' Hlen].
  apply Forall_cons in Hr as [_ Hr]. apply Forall_cons in Hs as [_ Hs].
  change (sum_N (map bond_of (b :: blobs))) with (bond_of b + sum_N (map bond_of blobs)) in Hb.
  split; cbn; [apply Hf|by rewrite (frame_mode _ _ _ Hf)|by eapply frame_payable|lia| |congruence
    |done|congruence|].
  - eapply Forall_impl; [exact Hr|]. intros y. by apply blob_ready_frame.
  - by eapply dim_le_trans; [|exact Hl'|].
Qed.

Definition receipts (x : SlotState) : nat :=
  (length (ss_proof_receipts x) + length (ss_batch_receipts x))%nat.

(** The gas that is left for the sender of a blob. *)
Definition gas_left (b : Blob.SelectedBlob (Sp := Sp)) (x : SlotState) : list N :=
  SlotGasMeter.remaining_slot_gas (ss_meter x) (Blob.selected_sender b).

(** Charging gas that fits, or gas of which some dimension is used up. *)
Lemma charge_slot_ok cost da m gas :
  SlotGasMeter.is_preferred m da = false ->
  gas_fits cost (SlotGasMeter.remaining_slot_gas m da) gas ->
  unless (partly_exhausted cost (SlotGasMeter.remaining_slot_gas m da)) (slot_within da m)
    (charge_slot gas da m).
Proof.
  intros Hs Hg. unfold charge_slot.
  destruct (GasArray.dim_is_less_or_eq gas (SlotGasMeter.remaining_slot_gas m da)) eqn:Hgas.
  - destruct (slot_charge da m m gas) as (m' & Hc & Hm'); [by apply slot_within_refl|done|].
    by rewrite Hc.
  - destruct Hg as [Hg|Hg]; [unfold gas_within in Hg; congruence|].
    unfold SlotGasMeter.charge_gas, SlotGasMeter.charge_total. rewrite Hs, ga_checked_sub.
    unfold SlotGasMeter.remaining_slot_gas in *. rewrite Hs in *. by rewrite Hgas.
Qed.

(** Why a blob panics: at one of the transactions of a batch, because the gas of the
    slot is left in some dimensions only, or in the code of the runtime. *)
Definition blob_fault (price : list N) (mode : OperatingMode)
    (b : Blob.SelectedBlob (Sp := Sp)) (x : SlotState) : Prop :=
  match Blob.blob_data b with
  | Blob.Batch batch =>
      batch_fault (ss_state x) (ss_meter x)
        (mkBatch (Blob.batch batch) (Blob.batch_sequencer batch)) (Blob.selected_sender b)
        (bond_of b) price mode
  | Blob.EmergencyRegistration tx id =>
      partly_exhausted max_unregistered_tx_gas (gas_left b x) \/ registration_fault tx id
  | Blob.Proof_ proof _ a =>
      partly_exhausted max_tx_check_costs (gas_left b x) \/ raw_proof_fault proof a
  end.

(** What a blob leaves behind. *)
Definition blob_done (mode : OperatingMode) (limit : list N) (pref : option DaAddress)
    (b : Blob.SelectedBlob (Sp := Sp)) (blobs : list (Blob.SelectedBlob (Sp := Sp)))
    (x x' : SlotState) : Prop :=
  loop_inv mode limit pref blobs x' /\ frame staying (ss_state x) (ss_state x') /\
  Capabilities.reserve (ss_state x) <= Capabilities.reserve (ss_state x') + bond_of b /\
  receipts x' = S (receipts x).

Lemma apply_blob_ok mode limit pref price b blobs x :
  gas_config_ok -> loop_inv mode limit pref (b :: blobs) x ->
  unless (blob_fault price mode b x) (blob_done mode limit pref b blobs x)
    (apply_blob no_op_control_flow price Node b x).
Proof.
  intros [Hcfg Hgs] Hx. pose proof Hx as [Hi Hm Hp Hb Hr Hpr Hs Hl Hle].
  apply Forall_cons in Hr as [[Hbond Hst Hstd Hsize] _]. apply Forall_cons in Hs as [Hs _].
  change (sum_N (map bond_of (b :: blobs))) with (bond_of b + sum_N (map bond_of blobs)) in Hb.
  assert (SlotGasMeter.is_preferred (ss_meter x) (Blob.selected_sender b) = false) as Hnp.
  { unfold SlotGasMeter.is_preferred. rewrite Hpr. apply bool_decide_eq_false. congruence. }
  unfold apply_blob, blob_fault, gas_left.
  destruct (Blob.blob_data b) as [batch|tx i|proof i a] eqn:Hdata; cbn in Hbond, Hst.
  - destruct (proj2 Hbond eq_refl) as [bond Hbo].
    assert (bond_of b = bond) as Hbe by (unfold bond_of; by rewrite Hbo). rewrite Hbo, Hbe.
    eapply unless_bind; [apply apply_batch_ok; [done|done|by rewrite Hl|done|done|done|done|done
      |by apply Hst|lia]|].
    intros [[r s] m] (Hf & Hsw & Hres & _). unfold blob_done, receipts. cbn. rewrite length_app. cbn.
    split_and!; [|done|lia|lia]. eapply blob_loop_step; [done|done|lia|done].
  - destruct (Blob.reserved_gas_tokens b) as [bond|] eqn:Hbo.
    { assert (true = false) by (apply Hbond; eauto). done. }
    eapply unless_bind; [eapply unless_mono; [by apply (apply_unregistered_ok (ss_state x)
      (SlotGasMeter.remaining_slot_gas (ss_meter x) (Blob.selected_sender b)) tx i
      (Blob.selected_sender b) price Node mode)|by right|intros y Hy; exact Hy]|].
    intros [r s] (Hf & Hres & Hg).
    eapply unless_bind; [eapply unless_mono; [by apply (charge_slot_ok max_unregistered_tx_gas)
      |by left|intros y Hy; exact Hy]|].
    intros m Hsw. unfold blob_done, receipts. cbn. rewrite length_app. cbn.
    split_and!; [|done|lia|lia]. eapply blob_loop_step; [done|done|lia|done].
  - destruct (proj2 Hbond eq_refl) as [bond Hbo].
    assert (bond_of b = bond) as Hbe by (unfold bond_of; by rewrite Hbo). rewrite Hbo.
    eapply unless_bind; [eapply unless_mono; [apply (process_proof_ok
      (SlotGasMeter.remaining_slot_gas (ss_meter x) (Blob.selected_sender b)) i
      (Blob.selected_sender b) a bond price proof (ss_state x) mode); [done|by eapply Hsize|]
      |by right|intros y Hy; exact Hy]|].
    { split; [by apply Hst|done|done|done|lia]. }
    intros [out s] (Hf & Hres & Hg).
    eapply unless_bind; [eapply unless_mono; [by apply (charge_slot_ok max_tx_check_costs)
      |by left|intros y Hy; exact Hy]|].
    intros m Hsw. unfold blob_done, receipts. cbn. rewrite length_app. cbn.
    split_and!; [|done|lia|lia]. eapply blob_loop_step; [done|done|lia|done].
Qed.

(** The blob of [blobs] at which the loop panics, and why. *)
Definition blobs_fault (price : list N) (mode : OperatingMode)
    (blobs : list (Blob.SelectedBlob (Sp := Sp))) (x : SlotState) : Prop :=
  exists pre b post x', blobs = pre ++ b :: post /\
    apply_blobs no_op_control_flow price Node pre x = Some x' /\
    apply_blob no_op_control_flow price Node b x' = None /\ blob_fault price mode b x'.

Lemma apply_blobs_ok mode limit pref price blobs : forall x,
  gas_config_ok -> loop_inv mode limit pref blobs x ->
  unless (blobs_fault price mode blobs x)
    (fun x' => loop_inv mode limit pref [] x' /\ frame staying (ss_state x) (ss_state x') /\
       Capabilities.reserve (ss_state x) <=
         Capabilities.reserve (ss_state x') + sum_N (map bond_of blobs) /\
       receipts x' = (receipts x + length blobs)%nat)
    (apply_blobs no_op_control_flow price Node blobs x).
Proof.
  induction blobs as [|b blobs IH]; intros x Hcfg Hx.
  { cbn. split_and!; [done|apply frame_refl, Hx|lia|lia]. }
  cbn [apply_blobs]. pose proof (apply_blob_ok mode limit pref price b blobs x Hcfg Hx) as H1.
  destruct (apply_blob no_op_control_flow price Node b x) as [x1|] eqn:E1; cbn in H1.
  2: { by exists [], b, blobs, x. }
  destruct H1 as (Hx1 & Hf1 & Hb1 & Hr1). eapply unless_mono; [by apply IH|..].
  - intros (pre & b' & post & x' & -> & Hpre & Hnone & Hfault).
    exists (b :: pre), b', post, x'. cbn [apply_blobs app]. by rewrite E1.
  - intros x2 (Hx2 & Hf2 & Hb2 & Hr2).
    change (sum_N (map bond_of (b :: blobs))) with (bond_of b + sum_N (map bond_of blobs)).
    split_and!; [done|by eapply frame_trans|lia|cbn; lia].
Qed.

Lemma run_preferred_sequencer s :
  run_infallible Capabilities.preferred_sequencer s =
    Some (SequencerRegistry.preferred_sequencer (Capabilities.sequencer_registry s), s).
Proof.
  destruct (run_infallible_ok Capabilities.preferred_sequencer
    (fun x s' => x = SequencerRegistry.preferred_sequencer (Capabilities.sequencer_registry s) /\
       s' = s) s) as (x & s' & Hr & -> & ->); [|done].
  pose proof unmetered_cannot_fail as Hcf.
  unfold Capabilities.preferred_sequencer, Capabilities.on_registry,
    SequencerRegistry.preferred_sequencer_infallible.
  apply wp_zoom. wp_step. wp_step; [no_fail|].
  split; [done|]. apply CapabilitiesFacts.set_registry_id.
Qed.

(** The state in which the blobs of a slot are processed. *)
Record blobs_ready (s : Capabilities.t Other) (blobs : list (Blob.SelectedBlob (Sp := Sp)))
    (limit : list N) (mode : OperatingMode) : Prop := mkBlobsReady {
  bl_config : gas_config_ok;
  bl_limit_small : Forall (fun g => g <= u64_max) limit;
  bl_inv : Capabilities.inv s;
  bl_mode : operating_mode s = Some mode;
  bl_payable : Capabilities.payable mode s;
  bl_bonds : sum_N (map bond_of blobs) <= Capabilities.reserve s;
  bl_ready : Forall (blob_ready s) blobs
}.

(** The variables of the loop at its beginning, after the hook. *)
Definition slot_start (creates : bool) (limit : list N) (root : Root) (s : Capabilities.t Other)
  : option SlotState :=
  let? (preferred_sequencer, st) := run_infallible Capabilities.preferred_sequencer s in
  let? m := SlotGasMeter.new limit preferred_sequencer in
  let? st := if creates then begin_rollup_block_hook root st else Some st in
  Some (mkSlotState st m [] []).

(** Why the processing of a slot panics: in a block hook of the runtime, or at a blob
    after the ones before it were processed. *)
Inductive slot_fault (creates : bool) (blobs : list (Blob.SelectedBlob (Sp := Sp)))
    (price limit : list N) (root : Root) (mode : OperatingMode) (s : Capabilities.t Other) : Prop :=
| fault_begin_hook :
    creates = true -> begin_rollup_block_hook root s = None ->
    slot_fault creates blobs price limit root mode s
| fault_at_blob x :
    slot_start creates limit root s = Some x -> blobs_fault price mode blobs x ->
    slot_fault creates blobs price limit root mode s
| fault_end_hook x x' :
    creates = true -> slot_start creates limit root s = Some x ->
    apply_blobs no_op_control_flow price Node blobs x = Some x' ->
    end_rollup_block_hook (ss_state x') = None ->
    slot_fault creates blobs price limit root mode s.

Lemma apply_batches_ok s blobs price limit root mode creates :
  blobs_ready s blobs limit mode ->
  unless (slot_fault creates blobs price limit root mode s)
    (fun '(gas, ps, bs, s') => frame staying s s' /\
       Capabilities.reserve s <= Capabilities.reserve s' + sum_N (map bond_of blobs) /\
       (length ps + length bs = length blobs)%nat /\
       GasArray.dim_is_less_or_eq gas limit = true)
    (apply_batches_in_user_space no_op_control_flow creates blobs price limit root Node s).
Proof.
  intros [Hcfg Hsmall Hi Hm Hp Hb Hr].
  set (pref := SequencerRegistry.preferred_sequencer (Capabilities.sequencer_registry s)).
  set (m := SlotGasMeter.mk pref limit (SlotGasMeterFacts.pref_share limit) limit).
  pose proof (eq_refl (slot_start creates limit root s)) as Hstart. unfold slot_start at 2 in Hstart.
  unfold apply_batches_in_user_space.
  rewrite run_preferred_sequencer in *. rewrite SlotGasMeterFacts.new_run in * by done. fold pref m in Hstart |- *.
  destruct (if creates then begin_rollup_block_hook root s else Some s) as [s1|] eqn:E1.
  2: { destruct creates; [|done]. by apply fault_begin_hook. }
  assert (harmless staying s s1) as [Hf1 Hr1].
  { destruct creates; [by eapply begin_hook_law|]. injection E1 as <-. by apply harmless_refl. }
  assert (loop_inv mode limit pref blobs (mkSlotState s1 m [] [])) as Hinv.
  { split; cbn; [apply Hf1|by rewrite (frame_mode _ _ _ Hf1)|by eapply frame_payable|lia| |done| |done
      |apply dim_le_refl].
    - eapply Forall_impl; [exact Hr|]. intros b. by apply blob_ready_frame.
    - eapply Forall_impl; [exact Hr|]. intros b Hb'. apply Hb'. }
  pose proof (apply_blobs_ok mode limit pref price blobs _ Hcfg Hinv) as Hblobs.
  destruct (apply_blobs no_op_control_flow price Node blobs (mkSlotState s1 m [] [])) as [x|] eqn:Ex;
    [|by eapply fault_at_blob].
  destruct Hblobs as (Hx & Hf2 & Hres & Hn). cbn -[sum_N] in Hf2, Hres, Hn.
  destruct (if creates then end_rollup_block_hook (ss_state x) else Some (ss_state x)) as [s2|] eqn:E2.
  2: { destruct creates; [|done]. by eapply fault_end_hook. }
  assert (harmless staying (ss_state x) s2) as [Hf3 Hr3].
  { destruct creates; [eapply end_hook_law; [apply Hx|done]|].
    injection E2 as <-. by apply harmless_refl, Hx. }
  unfold SlotGasMeter.total_gas_used. rewrite ga_checked_sub, (li_limit _ _ _ _ _ Hx),
    (li_left _ _ _ _ _ Hx).
  split_and!; [by eapply frame_trans; [|eapply frame_trans]|lia|by rewrite <- Hn|].
  apply sub_dim_le.
Qed.
End Facts.
End StfSlotFacts.
