(* ===== verification/StfSlotProperties.v ===== *)
(** * Properties of the blobs of a slot

    The processing of the selected blobs, alone and after the selection of
    [BlobStorage], and where the code does not settle what it should. *)

From Stdlib Require Import NArith Lia.
From stdpp Require Import base numbers gmap strings option list.
From S2P Require Import Prelude Ints Gas StateAccess GasPrice Bank Uniqueness Accounts.
From S2P Require Import SequencerRegistry Capabilities ChainState StfBlueprint StfProofs.
From S2P Require Import StfProperties Blobs BlobSequence BlobStorage BlobStorageProofs.
From S2P Require Import BlobStorageProperties StfSlot StfSlotProofs.

(** ** Selection and processing, lib.rs *)
Module SlotBlobs.
Import Stf StfSlot BlobStorage.
Section SlotBlobs.
Context {Sp : Spec} {Rt : StateRoot} {Prices : PriceConfig} {Consts : ChainConstants}
  {Cfg : UniquenessConfig} {GS : GasSpec} {Cst : RegistryConstants} {Bsh : BorshIntegers}
  {Codec : BlobCodec Sp} {BC : BlobConstants} {RT : Runtime Sp} {SR : SlotRuntime RT}.

(** The blob storage works on the registry of the runtime. *)
Definition storage_of (s : Capabilities.t Other) (deferred : gmap N (list Blob.ValidatedBlob))
    (q : BlobSequence.queue) : BlobStorage.t :=
  mk (Capabilities.sequencer_registry s) deferred q.

(** The part of [apply_slot_with_control_flow] from the selection of the blobs by
    the kernel to the end of [apply_batches_in_user_space], with its assertions.  The
    storage at the end has the registry after the blobs were processed.  The heights
    that the function stores are those of [ChainState.apply_slot]. *)
Definition select_and_apply (k : ChainState.KernelStateAccessor)
    (select : M (acc unit BlobStorage.t) Empty_set (BlobSelectorOutput Blob.SelectedBlob))
    (gas_price block_gas_limit : list N) (visible_hash : Root) (s : Capabilities.t Other)
    (deferred : gmap N (list Blob.ValidatedBlob)) (q : BlobSequence.queue)
  : option (list N * list ProofReceipt * list IncrementalBatchReceipt * Capabilities.t Other *
            BlobStorage.t) :=
  match select (Acc tt (storage_of s deferred q)) with
  | (Ok out, a) =>
      let creates_rollup_block := 0 <? visible_slot_number_increase _ out in
      let? _ :=
        if creates_rollup_block then
          let? visible := checked_add u64_max (visible_slot_number k)
                            (visible_slot_number_increase _ out) in
          ChainState.require (visible <=? true_slot_number k)
        else
          ChainState.require (match selected_blobs _ out with [] => true | _ => false end) in
      let? (gas, proofs, batches, s) :=
        apply_batches_in_user_space no_op_control_flow creates_rollup_block
          (selected_blobs _ out) gas_price block_gas_limit visible_hash Node
          (Capabilities.set_registry (sequencer_registry (store a)) s) in
      Some (gas, proofs, batches, s,
            storage_of s (deferred_blobs (store a)) (preferred_queue (store a)))
  | _ => None
  end.
End SlotBlobs.
End SlotBlobs.

(** ** A concrete runtime for the witnesses *)
Module SlotDemo.
Import Stf StfSlot BlobStorage SlotBlobs StfDemo ChainDemo BorshDemo SelectionDemo.

#[local] Existing Instances Sp2 GS2 pair_root le_borsh le_borsh_laws RegistryDemo.demo_constants
  unit_prices demo_blob_constants demo_codec normal_mode demo_uniqueness.
#[local] Instance RT1 : Runtime Sp2 := RT_demo two_units.
#[local] Instance RT1_laws : RuntimeLaws RT1 := RT_demo_laws two_units.

(** A proof is its kind, the limit of its fee and its bytes.  Processing costs 40
    units of gas in both dimensions; a proof that begins with 1 is valid, one that begins with 2 gets
    the prover slashed and others are rejected. *)
Definition demo_decode_proof (l : list N) : option (ProofType * TxDetails) :=
  match l with
  | kind :: fee :: rest =>
      Some (match kind with
            | 0 => ZkAggregatedProof rest
            | 1 => OptimisticProofAttestation rest
            | _ => OptimisticProofChallenge rest kind
            end, mkTxDetails 0 fee None 1)
  | _ => None
  end.

Definition demo_process {A} (x : A) (proof : list N) (a : N)
  : M (acc BasicGasMeter.t (Capabilities.t N)) InvalidProofError A :=
  map_err (fun _ => StateAccess) (on_meter (charge_gas (G := BasicGasMeter.t) [40; 40])) ;;;
  match proof with
  | 1 :: _ => ret x
  | 2 :: _ => throw ProverSlashed
  | _ => throw PreconditionNotMet
  end.

Definition demo_authenticate_unregistered (tx : FullyBakedTx) (id : list N)
  : M (acc BasicGasMeter.t (Capabilities.t N)) UnregisteredAuthenticationError
      (AuthenticatedTransactionAndRawHash * AuthorizationData Sp2 * DemoCall two_units) :=
  map_err (fun e => match e with
      | FatalError h => UnregisteredFatalError h
      | AuthOutOfGas => UnregisteredOutOfGas
      end) (demo_authenticate two_units tx).

#[local] Instance SR1 : SlotRuntime RT1 := {|
  AggregatedProofPublicData := unit;
  SovAttestation := unit;
  SovStateTransitionPublicData := unit;
  max_unregistered_tx_gas := [300; 300];
  proof_bias_borsh_deserialization := [1; 1];
  proof_gas_to_charge_per_byte_borsh_deserialization := [1; 1];
  bias_borsh_deserialization := [1; 1];
  decode_proof_with_details := demo_decode_proof;
  authenticate_unregistered := demo_authenticate_unregistered;
  process_aggregated_proof := fun p a => demo_process (tt, p) p a;
  process_attestation := demo_process tt;
  process_challenge := fun p h a => demo_process tt p a;
  begin_rollup_block_hook := fun _ s => Some s;
  end_rollup_block_hook := fun s => Some s
|}.

Lemma demo_process_law {A} (L : GasMeterLaws BasicGasMeter.t) (x : A) p a
    (s : Capabilities.t N) :
  Capabilities.inv s ->
  wp (H0 := L) (demo_process x p a) (proof_safely (RT := RT1) (staying (RuntimeLaws := RT1_laws)) s) s.
Proof.
  intros Hinv.
  assert (harmless (RT := RT1) (staying (RuntimeLaws := RT1_laws)) s s) as Hrefl.
  { by apply StfFacts.harmless_refl. }
  unfold demo_process. wp_step. wp_step. wp_step; [done|].
  destruct p as [|[|[q|[q|q|]|]] p]; wp_step; done || (intros _; exact Hrefl).
Qed.

#[local] Instance SR1_laws : SlotRuntimeLaws RT1_laws SR1.
Proof.
  split.
  - intros L tx id s. unfold authenticate_unregistered, SR1, demo_authenticate_unregistered.
    apply wp_map_err. eapply wp_mono; [apply (authenticate_law (RT := RT1) L tx s)|].
    intros [[[atx ad] msg]|e|] s' [-> Hauth]; cbn in *; [|done|done].
    destruct Hauth as (_ & Hm & _ & Hn). done.
  - intros L p a s Hinv. by apply (demo_process_law L (tt, p)).
  - intros L p a s Hinv. by apply (demo_process_law L tt).
  - intros L p h a s Hinv. by apply (demo_process_law L tt).
  - intros root s s' Hinv [= <-]. by apply StfFacts.harmless_refl.
  - intros s s' Hinv [= <-]. by apply StfFacts.harmless_refl.
Qed.


(** The state before a slot: the sequencer 71 has a stake of 1000. *)
Definition before : Capabilities.t Other := demo_state two_units false 0.

(** Bonds that were moved to the bank module. *)
Definition with_bonds (amount : N) : Capabilities.t Other := demo_state two_units false amount.

Lemma with_bonds_inv amount :
  Capabilities.bank_id (with_bonds amount) <> Capabilities.registry_id (with_bonds amount) ->
  Capabilities.inv (with_bonds amount).
Proof. apply demo_state_inv. Qed.



End SlotDemo.

(** ** Properties *)
Module StfSlotProperties.
Import Stf StfSlot StfFacts StfSlotFacts SlotBlobs.
Section Properties.
Context {Sp : Spec} {Rt : StateRoot} {Prices : PriceConfig} {Consts : ChainConstants}
  {Cfg : UniquenessConfig} {GS : GasSpec} {Cst : RegistryConstants} {Bsh : BorshIntegers}
  {Codec : BlobCodec Sp} {BC : BlobConstants} {RT : Runtime Sp} {SR : SlotRuntime RT}
  {Laws : RuntimeLaws RT} {SLaws : SlotRuntimeLaws Laws SR}.







(** The bond of a proof is lost when the proof is turned away before it is
    decoded.  When the bond does not cover the checks, or the slot has no gas left for
    them, or the cost overflows, the proof is reported as invalid with no gas used and
    the state is not changed: the bond, which the selection moved to the bank module,
    is not returned. *)
Theorem proof_bond_kept slot_gas hash da a bond price raw_proof s
    (Hearly : match GasArray.checked_value max_tx_check_costs price with
       | None => True
       | Some v => bond < v \/ GasArray.dim_is_less_or_eq slot_gas max_tx_check_costs = true
       end) :
  exists out, process_proof slot_gas hash da a bond price raw_proof s = Some (out, s) /\
    output_gas_used out = gas_zero max_tx_check_costs /\
    StfSlot.outcome (proof_receipt out) = Invalid PreconditionNotMet.
Proof.
  unfold process_proof, authorize_sequencer.
  destruct (GasArray.checked_value max_tx_check_costs price) as [v|]; [|by eexists].
  destruct (N.ltb_spec bond v) as [_|Hle]; [by eexists|].
  destruct Hearly as [Hlt|Hlim]; [lia|]. rewrite Hlim. by eexists.
Qed.
End Properties.

(** ** Witnesses and concrete slots *)
Import StfDemo ChainDemo BorshDemo SelectionDemo SlotDemo.
#[local] Existing Instances Sp2 GS2 pair_root le_borsh le_borsh_laws RegistryDemo.demo_constants
  unit_prices demo_blob_constants demo_codec normal_mode demo_uniqueness RT1 RT1_laws SR1 SR1_laws.




Definition no_queue : BlobSequence.queue := BlobSequence.mkQueue ∅ None.
Definition one_batch : BlobStorage.RelevantBlobs := BlobStorage.mkRelevant [] [a_blob 1 pay].


Lemma proof_bond_kept_witness :
  exists out, process_proof [90; 90] [1] (71 : @DaAddress Sp2) (1 : @Address Sp2) 200 [1; 1] [0; 500; 1]
    (with_bonds 200) = Some (out, with_bonds 200).
Proof.
  destruct (proof_bond_kept [90; 90] [1] (71 : @DaAddress Sp2) (1 : @Address Sp2) 200 [1; 1] [0; 500; 1]
    (with_bonds 200)) as (out & Hout & _).
  - right. reflexivity.
  - exists out. exact Hout.
Defined.

Definition stake_of (s : Capabilities.t Other) : option N :=
  SequencerRegistry.stake <$> SequencerRegistry.known_sequencers
    (Capabilities.sequencer_registry s) !! (71 : @DaAddress Sp2).

(** The fee that is reserved for a proof is not refunded when it does not cover
    the checks.  The sequencer pays for the gas of the checks out of its bond, and
    the reserved fee of 5 tokens stays in the bank module; a transaction of a batch
    gets its fee back in this case.  With a sufficient fee the rest is refunded. *)
Theorem proof_fee_not_refunded :
  Capabilities.inv (with_bonds 200) /\
  match process_proof [10000; 10000] [1] (71 : @DaAddress Sp2) (1 : @Address Sp2) 200 [1; 1]
          [0; 5; 1] (with_bonds 200) with
  | Some (out, s') =>
      output_gas_used out = [21; 21] /\ stake_of (with_bonds 200) = Some 800 /\
      stake_of s' = Some (800 + (200 - 42)) /\
      Capabilities.gas_balance s' (HolderUser (1 : @Address Sp2)) + 5 =
        Capabilities.gas_balance (with_bonds 200) (HolderUser (1 : @Address Sp2))
  | None => False
  end.
Proof.
  split; [apply with_bonds_inv; vm_compute; discriminate|].
  vm_compute. split; [reflexivity|split; [reflexivity|split; reflexivity]].
Qed.

(** A batch and bytes that are no batch. *)
Definition batch_and_malformed : BlobStorage.RelevantBlobs :=
  BlobStorage.mkRelevant [] [a_blob 1 pay; a_blob 3 malformed].

(** A sequencer that posts a valid batch and malformed bytes in the same slot
    stops the chain.  The selection takes the batch with its bond and then slashes
    the sequencer for the malformed bytes; when the batch was executed, its bond
    cannot be returned to a sequencer that is not registered, which panics.  Without
    the malformed bytes the slot is processed. *)
Theorem slashed_sequencer_stops_slot :
  Capabilities.inv before /\
  is_Some (select_and_apply (first_slot normal_mode)
    (BlobStorage.select_blobs_as_based_sequencer (first_slot normal_mode) one_batch) [1; 1] [10000; 10000]
    first_root before ∅ no_queue) /\
  selection_summary (fst (BlobStorage.select_blobs_as_based_sequencer (E := Empty_set)
    (first_slot normal_mode) batch_and_malformed (Acc tt (storage_of before ∅ no_queue)))) =
    Some (1%nat, 1, [SenderInsufficientStake]) /\
  select_and_apply (first_slot normal_mode)
    (BlobStorage.select_blobs_as_based_sequencer (first_slot normal_mode) batch_and_malformed) [1; 1]
    [10000; 10000] first_root before ∅ no_queue = None.
Proof.
  split; [apply with_bonds_inv; vm_compute; discriminate|].
  split; [apply StfProperties.is_some_test; vm_compute; reflexivity|].
  split; [vm_compute; reflexivity|apply StfProperties.is_none_test; vm_compute; reflexivity].
Qed.
End StfSlotProperties.
